(* ===== verification/_CoqProject ===== *)
-Q . S2P
Prelude.v
Circuit.v
Lifecycle.v
Worker.v
Pool.v
SlotRace.v
Machines.v
Transcript.v
StatefulDelivery.v
Interest.v
Peers.v
Bytes.v
Text.v
Numerals.v
Shell.v
Normalize.v
Classifier.v
Hook.v
Floats.v
Selection.v
Choice.v
Builds.v
Cancellation.v
Daemon.v
BuildRaces.v
Gate.v
Streams.v
Manifest.v
Digest.v
Pack.v
Closure.v
Planning.v
Wrapper.v
Store.v
Gc.v
Ledger.v
Blobs.v
Journal.v
Durability.v
Materialize.v
Recovery.v
Sparse.v
Validation.v
Fences.v
Publication.v
Serving.v
Startup.v
Admission.v
Lineage.v
Offers.v
Trust.v
Resize.v
Fairness.v
Acquisition.v
