(* ===== verification/Prelude.v ===== *)
(** * Verification of the remote compilation helper

    The repository has two layers.  The RCH layer sends intercepted build commands
    to remote workers: a hook looks at every shell command an agent is about to run and
    rewrites those its classifier recognises as builds, a planner works out which local
    packages must be copied, and a daemon (rchd) keeps a pool of workers with their slots,
    lifecycle and circuit breakers, hands out reservations, and queues, watches and
    cancels the builds that hold them.  The RABS layer (rabs-* crates) makes such builds cacheable and
    interruptible: wrappers attach to an edge daemon over a local protocol, receive the
    transcript of a build over a lane that may break, have stateful effects delivered
    exactly once, and share results that are stored by content in packs under canonical
    manifests.  A result enters the shared cache through one authority, which admits the
    offer of a worker against fences, ancestry and what is already published, and is
    served only while its trust record allows it.  The scheduler of RABS decides who
    builds next and when a compiler token may be held.

    This library models the parts that carry this logic as executable definitions,
    one file per component, and proves the properties that make each correct.

    ** Files, and the code they model

    - Prelude.v: results, [&mut self] methods, machine integers, clocks, floats and
      the shared automation (below).
    - Circuit.v, [CircuitStats]: the circuit breaker of a worker
      (rch-common/src/types.rs, [CircuitStats] and [CircuitBreakerConfig]).
    - Lifecycle.v, [WorkerLifecycle]: operator intent and eligibility, quarantine and
      canary (rchd/src/workers.rs).
    - Worker.v, [WorkerState]: one worker, every method run alone (rchd/src/workers.rs).
    - Pool.v, [WorkerPool]: the table of workers and its prune (rchd/src/workers.rs).
    - SlotRace.v: the same worker methods split into single memory accesses and
      interleaved by any number of threads (rchd/src/workers.rs).
    - Machines.v: [StateMachines], the transition tables of rabs-action
      (state_machines.rs) behind one class; [LocalProtocol], version negotiation and
      the fallback decision (rabs-protocol/src/local_protocol.rs).
    - Transcript.v: [Reconnect] (reconnect.rs), [Transcript], the sequencer of the edge
      and the frame reader of the wrapper (transcript_sequencing.rs), and [Link], the
      two composed over a connection that breaks and resumes.
    - StatefulDelivery.v: the delivery engine with intents, crashes and recovery
      (rabs-protocol/src/stateful_delivery.rs), its frontier report being the one
      [LocalProtocol] decides on.
    - Interest.v: the subscribers of a shared action, their releases and the relay of
      a termination (rabs-protocol/src/subscriber_interest.rs).
    - Peers.v: what bounds one peer of the data plane: [Windows], the receive windows and
      the acknowledgement of chunks (sequence_domains.rs, object_transfer.rs), [PeerQueue]
      with the control reserve (peer_queues.rs, control_reserve.rs) and [PeerLimits]
      (peer_limits.rs).
    - Bytes.v: strings as bytes, big-endian integers, the order and the stable sort of
      byte strings, shared by the files that follow.
    - Text.v: the string primitives of the classifier: trimming, splitting on whitespace,
      prefixes, ASCII case, digits in messages.
    - Numerals.v: decimal numbers and fields in text, shared by the persisted formats.
    - Shell.v: the quote-aware scanners (rch-common/src/patterns.rs): structure analysis,
      redirections, boundaries, chains, the argument of [sh -c].
    - Normalize.v: [normalize_command] (patterns.rs): wrappers, their flags, assignments
      and paths are stripped until nothing changes.
    - Classifier.v: [classify_command] with its layers and the rules of every language
      (patterns.rs), over Shell.v and Normalize.v.
    - Hook.v: [process_hook] and the tiered diagnosis (rch/src/hook.rs, rch/src/cache.rs,
      rch-common/src/protocol.rs, types.rs and patterns.rs), the client of Classifier.v.
    - Floats.v: binary64 operations and their order.
    - Selection.v: [Affinity], recent builds, last successes and the history of
      selections, and [Selector], the eligibility loop, the five strategies, the pin and
      the fallback (rchd/src/selection.rs with the request and configuration types of
      rch-common); the theorems about a whole selection are in Choice.v.
    - Builds.v: the active builds, the queue and the ring of finished ones
      (rchd/src/history.rs), and the leases of clients (rch-common/src/job_identity.rs).
    - Cancellation.v: the stuck detector (rchd/src/cleanup.rs) and the escalation of a
      cancellation (rchd/src/cancellation.rs).
    - Daemon.v: the handlers that start, queue, release and cancel builds and close
      admission for a restart (rchd/src/api.rs, cancellation.rs), each a composition of
      segments under one lock; BuildRaces.v interleaves the segments of any number of
      requests.
    - Gate.v: disk pressure, headroom, the admission gate and the reliability aggregator
      the selector asks (rchd/src/disk_pressure.rs, headroom.rs, admission.rs,
      reliability.rs).
    - Streams.v: [Framing] (rabs-protocol/src/framing.rs), [Chunker], the two-stream line
      splitter (stream_chunker.rs), and [SubscriberQueue] (subscriber_queue.rs).
    - Manifest.v: [ResultIdentity] (rabs-protocol/src/result_identity.rs) and
      [ManifestCodec], the canonical byte format (rabs-cas/src/manifest_codec.rs).
    - Digest.v: the streaming digest writer (rabs-cas/src/digest_set.rs) over the class
      [Hasher], the interface of the hash crates.
    - Pack.v: building, parsing and reading object packs (rabs-cas/src/pack.rs), with
      the keys of rabs-cas/src/metadata_store.rs.
    - Closure.v: the graph half of the path dependency resolver and the closure planner
      (rch-common/src/cargo_path_deps.rs, dependency_closure_planner.rs); Planning.v holds
      its properties.
    - Wrapper.v: the compiler wrapper: its circuit breaker and the text file that keeps it
      (rabs-protocol/src/wrapper_breaker.rs), one run of [main], and the file accesses of
      several wrappers interleaved (rabs-wrap/src/main.rs).
    - Store.v: the tables of locations, edges, pins, authorities and tombstones, and the
      methods over them that the collector uses (rabs-cas/src/metadata_store.rs).
    - Gc.v: [Gc] (rabs-cas/src/gc.rs), [PinLeases] (rabs-cas/src/pin_leases.rs) and
      [Collection], any history of store operations with the collector among them.
    - Ledger.v: the tables of actions, generations, attempts, leases, publications,
      lineage, quarantines, receipts, serving rows and samples, beside those of Store.v,
      and the statements over them (rabs-cas/src/metadata_store.rs).
    - Blobs.v: [Disk], a file system of names, inodes, syncs and crashes, and [BlobStore],
      the put pipeline with its crash points (rabs-cas/src/blob_store.rs, the tables of
      metadata_store.rs, collision_policy.rs).
    - Journal.v: the framed journals, the journaled put and its recovery
      (rabs-cas/src/staging_journal.rs); Durability.v and Recovery.v hold what both
      guarantee under crashes.
    - Materialize.v: the verified copy of an object into a worktree
      (rabs-cas/src/materialization.rs), over the same disk.
    - Sparse.v: the content-defined chunker and transfers in ranges
      (rabs-cas/src/chunking.rs, sparse_writer.rs), over the same disk and journals.
    - Validation.v: the checks on data from other hosts: manifest graphs and pack ranges,
      members and links, tree differences (rabs-cas/src/closure_validation.rs,
      manifest_validation.rs, tree_manifest.rs).
    - Fences.v: who may act: ownership and handoff of an edge, admission of a worker
      session, lease renewal, the rows that keep them, and the rights to materialize
      remote output (rabs-protocol/src/edge_fence.rs, worker_fence.rs, generation.rs,
      materialization_rights.rs, rabs-cas/src/metadata_store.rs).
    - Publication.v: the offer a worker builds, [process_offer] with every fence, the
      ancestry walk, the divergence quarantine and the recomputation check
      (rabs-cas/src/publication.rs, trust_evidence.rs, rabs-protocol/src/generation.rs and
      result_identity.rs, and the bundle root of rabs-key).
    - Serving.v: serving records, the gate, trust evaluation and compromise reports
      (rabs-cas/src/serving_state.rs and trust_evidence.rs, rabs-protocol/src/serving.rs,
      rabs-action/src/serving_transitions.rs).
    - Startup.v: the reconciliation before serving and the operator reset
      (rabs-cas/src/startup_reconciliation.rs), over the tables of Ledger.v.
    - Admission.v, Lineage.v, Offers.v, Trust.v: the theorems about Ledger.v,
      Publication.v and Serving.v: what one offer does, what any history of the authority keeps, the concrete ledgers
      that exercise both, and the serving decisions.
    - Resize.v, Fairness.v, Acquisition.v: the pool size controller, the fair queue and
      the acquisition ladder of rabs-scheduler (managed_pool.rs, fairness.rs,
      acquisition_order.rs).

    ** What is shown

    - Slots: under every interleaving, and while no capacity is u32::MAX, the slot counter
      is the sum of what the callers hold and never passes the largest capacity configured;
      a worker declared drained runs nothing; no interleaving deadlocks; the single-access
      programs refine the methods of Worker.v.  At a capacity of u32::MAX the counter is
      shown to wrap, and the interleaving model shows a lost [drain_then_disable].
    - Workers: every method sequence keeps a worker well formed; reservation, drain,
      disable, prune and the pool counter are specified exactly; a quarantined worker
      rejoins only through a canary.
    - Selection: whatever worker a selection returns is healthy, free, permitted by the
      request and, unless it comes from the fallback, has passed every gate; a worker that
      passes every gate is never overlooked, unless the weighted draw panics on a sum of
      weights that is not finite; the fallback is shown to reach only workers
      the gates had refused.  Ties and maxima of the strategies, the bounds of the tracker
      and the duration of a pin.
    - Builds in flight: under every interleaving of starts, releases, cancellations,
      heartbeats, removals of workers and a restart, the slots of a worker that stays in the
      pool are those of its builds and of the requests that are about to start or give one
      back, a build ends once, and after admission is closed no build starts.  A worker
      removed while a build reserves on it is shown to upset the count when it is added
      again.  The stuck detector remediates exactly when
      its score says so; an escalation ends within its grace periods, SIGKILL follows SIGTERM
      by no less than the grace period, and the path reported is the one taken as far as
      there is a process or a worker to act on.
    - Worker risk: the admission gate and the quarantine of the aggregator, a handful of
      counters each, decide exactly what the history of decisions implies, the gate also
      when evaluations interleave, as long as no refusal lands between the two halves of an
      admission; less disk never lowers the pressure.  Workers without disk numbers are
      shown to be refused, a refusal inside an admission to be forgotten, and rounds of
      concurrent selections to disturb each other.
    - Planning: a graph with a reachable cycle is refused, and otherwise the plan lists
      every package the build needs once, after all it depends on.
    - Wrapper: compiler calls that run one after the other contact a dead edge a bounded
      number of times, but for one contact of each wrapper killed while it waits, and it is
      always tried again; torn or concurrent writes of the state file fail open.
    - Peers: a window acknowledges exactly what arrived in order, a resume lists exactly
      the holes, domains do not influence each other; the queue is strict priority between
      lanes and FIFO within; bulk traffic never uses the bytes of the control reserve.
    - Fences: an edge has one owner, and it changes only through handoffs both sides
      reported; after a fallback the tree holds either remote output or local output of
      the operation, never both.  A resolved handoff is shown to lower a stored fence.
    - Circuit: how many probes recovery takes, that the cooldown holds, that repeated
      failures trip it.
    - Transcript: what a wrapper exposes is always a prefix of what the edge assigned,
      whatever breaks; a resume replays exactly the unexposed tail and completes when
      every frame is within the negotiated maximum, and is shown to stall at one that is
      not; a resume declared seamless had no partial frame.
    - Delivery: stateful effects land exactly once and in order through any crashes,
      uncertainty stops the engine until it is resolved, and recovery completes.
    - Streams: a framed stream is received exactly however it is cut, the line splitter is
      byte exact, ordered and bounded under any interleaving, a subscriber's queue is a
      FIFO within its budgets.  Two streams that spill at once are shown to miscount.
    - Storage: decoding accepts exactly the encodings of well-formed manifests,
      encoding round trips and does not depend on the order of outputs, packs round
      trip, a parsed index tiles its payload, and digests do not depend on how bytes are
      chunked.
    - Blobs: through any puts, recoveries and crashes in which writers sync their files
      and draw staging names that are not in use ([disciplined]), a published name holds the
      bytes it is named after and, where crashes spare the fan-out directories, a row that
      claims a durable copy has one; a retried put converges.  A
      torn journal is replayed exactly to its last whole record, and recovery resolves
      what the journals it finds describe and removes them with their staging directories.
      A process that draws the identifier of a dead one is shown to overwrite what that one
      published, and a journal lost in a crash to leave its staged bytes behind.
    - Transfers: chunks tile an object within the sizes of the profile; the gaps of a
      sparse transfer are what is not recorded, also after it is resumed from a crash
      inside a range, and when there
      are none the staged file is the object.  Materialization installs the object asked
      for or leaves the destination alone, whichever of its operations on files fail.
    - Foreign data: an accepted manifest graph is acyclic, closed and within its bounds,
      and a graph within them is accepted; accepted pack ranges cover no byte twice; the
      members accepted are exactly the admissible ones; what a receiver is sent
      completes its tree.  Links that are accepted and leave the tree are exhibited.
    - Startup: reconciliation leaves exactly the rows reality supports and allows serving
      exactly when the authoritative tables are complete; an operator reset quarantines
      exactly the torn publications and opens serving.
    - Classifier and hook: a command is offloaded only when its shell structure is one the
      scanner understands, commands that must stay local do, the kind reported names the
      program run, classification ends with the fuel it is given, the tiered diagnosis
      agrees with the plain classifier, and the hook rewrites exactly the commands it
      should, the last command of a [&&] chain and nothing before it, and leaves all others
      alone.
    - Publication: an offer is committed exactly when it is admissible; what each refusal
      leaves written; a diverging offer is quarantined before anything else and never
      overwrites; committed results have their whole ancestry published; in any history
      a publication is final and its lineage sound, without cycles; the ancestry walk
      ends; an honest offer is identified the same way by worker and authority.  Offers
      under a lease or a generation of another action are shown to be committed, and a
      refusal is shown to have written.
    - Serving: the gate serves exactly the servable, unblocked and still valid record, in
      64-bit arithmetic; a reported compromise keeps a result from being served for good;
      a withheld result becomes servable only by a record or an evaluation that says so;
      a re-evaluation does what evidence, samples and policy imply.  A re-evaluation is
      also shown to lift the disposition of a divergence and that of an operator reset.
    - Collection: the worklist of the snapshot computes reachability, plans and unlinks
      take exactly what is collectable, pins are released only by those entitled, and in
      any history of separate plans and executions an object keeps its copies while it is
      pinned, unless a plan made before the pin still lists it.  Executing such a plan is
      shown not to look at newer pins.
    - Scheduling: nobody starves, the order is fair below the overrides, tokens are
      acquired through the whole ladder and never overlap a transfer, resizes keep their
      cooldown.
    - Interests and tables: releases and sweeps, final commits, verified decisions, and
      fallbacks that never widen.

    ** Modelling decisions

    Fallible code returns [result]; a method on [&mut self] is a [method], which
    returns the state it leaves also on an error.  Unsigned integers are [Z] with the
    wrap-around of a release build ([wadd], [wsub], [wmul]) or the saturation the code
    asks for.  [f64] is the IEEE 754 binary64 arithmetic of SpecFloat.  Clock reads are
    [timed]: an arbitrary sequence of readings, not assumed monotonic.  A [HashMap] is a
    [gmap] whose iteration order is an argument where the code iterates; a [BTreeMap] is
    a [gmap] read through [btree_keys].  Slices are shorter than [2^63] bytes where a
    length is converted.

    SlotRace.v interleaves sequentially consistent accesses: the slot counter is one
    atomic cell whose operations have a single order whatever their memory ordering, and
    the other shared fields are guarded by locks.  The lifecycle write lock is explicit
    because it is held across accesses; the other locks are held for one access.

    The disk of Blobs.v keeps, for each name and inode, whether it has been synced; a crash
    keeps what was and loses or keeps the rest in any combination, with the data of an
    inode that was not synced replaced by anything.  Removals and renames take effect at
    once.  Puts run one after the other.  Which operations on files fail is an argument of
    Materialize.v; elsewhere an operation fails where the disk gives it a cause.  What an
    escalation sees of processes and of the remote host is an environment,
    a function of time and of the signals sent.  A worker is reached through a handle, a
    name with the incarnation it had when the handle was taken, so that a request keeps the
    worker it selected after the pool has dropped it.

    An SQL statement is its effect on tables kept as maps, a transaction undoes a failing
    body, and the engine fails only where a primary key is violated.

    Fuel: the loop over a chunk in Streams.v gets the length of the chunk and takes at
    least one byte per round; the worklist of Store.v gets one more than the number of
    roots and edges, each of which is pushed at most once; the binary search of Pack.v
    gets one more than the length of the list, and each round at least halves the range;
    [solo] in SlotRace.v runs one call alone, which takes fewer than its twenty steps.
    In Normalize.v and Shell.v the loops get one more than the length of the text, of
    which every round that continues drops at least one character.  The recursion of
    the classifier gets one more than the number of ASCII bytes of the command, which every
    unwrapping lowers.  The ancestry walk of Publication.v gets the number of references queued
    plus the number of lineage rows recorded, since it looks at the rows of a producer
    once.  The absorption of buffered numbers in Peers.v gets one more than their count,
    the evictions of Selection.v the size of the map, and the decimal printer of Numerals.v
    the twenty digits of a u64.  Replaying a journal and cutting chunks get the length of
    the bytes, of which every round takes at least one; the traversal and the placement of
    Closure.v and Planning.v get the number of packages; the polling of an escalation
    gets its grace period in poll intervals and two more; the selection loop of Daemon.v
    the number of workers and four more, since all rounds but three exclude one.  That none of these runs out is
    proved.  [visit] of Validation.v recurs on the depth that is left, which is the check of
    the code.  All other recursion is structural.

    The SHA-256 and BLAKE3 crates are the class [Hasher] with the law that hashing in
    pieces is hashing the concatenation; collision freedom is assumed nowhere.  Process
    liveness is an argument of the sweep; the lower-case function of Unicode, the existence
    of files at startup, the resolvers that run [cargo] and the answers of the selector are
    arguments where they are used.

    ** Not modelled

    Terminal, socket, SSH, rsync, SQLite and process input and output, which is most of the
    CLI, of the TUI, of the worker agent, of telemetry and of the sandbox; asynchronous
    runtimes; log lines and display strings.  Of the selector, the audit log, the
    diagnostics and the older entry point [select_worker_with_config]; of the history, the
    writing and compaction of its file; of the metadata store, the methods over sessions,
    operations and materializations, and migrations; of rabs-scheduler, the policies
    beside the three modelled; of rch-common, storm control and bypass recovery; and the
    key schema of rabs-key, of which only the encoder and the digest are used here. *)

From stdpp Require Import base gmap list strings sorting relations.
From Stdlib Require Import ZArith Lia.
From Corelib Require Import SpecFloat.

#[export] Set Default Goal Selector "!".
#[export] Set Warnings "-clear-no-such-hyp".
#[global] Open Scope Z_scope.

(** ** Fallible code: [Result<T, E>] *)

Inductive result (E A : Type) : Type :=
  | Ok (a : A)
  | Err (e : E).
Arguments Ok {E A} a.
Arguments Err {E A} e.

#[export] Instance result_eq_dec {E A} `{EqDecision E, EqDecision A} :
  EqDecision (result E A).
Proof. solve_decision. Defined.

#[export] Instance result_ret {E} : MRet (result E) := fun _ a => Ok a.
#[export] Instance result_bind {E} : MBind (result E) :=
  fun _ _ f m => match m with Ok a => f a | Err e => Err e end.
#[export] Instance result_fmap {E} : FMap (result E) :=
  fun _ _ f m => match m with Ok a => Ok (f a) | Err e => Err e end.

Definition is_ok {E A} (r : result E A) : bool :=
  match r with Ok _ => true | Err _ => false end.

(** [Option::ok_or]. *)
Definition ok_or {E A} (o : option A) (e : E) : result E A :=
  match o with Some a => Ok a | None => Err e end.

(** A bind that returned a value returned one on both sides. *)
Lemma result_bind_Ok {E A B} (m : result E A) (f : A -> result E B) b :
  m ≫= f = Ok b <-> exists a, m = Ok a /\ f a = Ok b.
Proof.
  split.
  - destruct m as [a|e]; cbn; [by eexists | done].
  - by intros (a & -> & ?).
Qed.

(** ** Methods taking [&mut self]: state passing with an error value

    A method that mutates its receiver and returns [Result<T, E>] is a function
    from the state to the result and the state it leaves behind, also when it
    returns an error: what an error path leaves mutated is visible. *)
Definition method (S E A : Type) : Type := S -> result E A * S.

#[export] Instance method_ret {S E} : MRet (method S E) := fun _ a s => (Ok a, s).
#[export] Instance method_bind {S E} : MBind (method S E) :=
  fun _ _ f m s =>
    match m s with
    | (Ok a, s') => f a s'
    | (Err e, s') => (Err e, s')
    end.

Definition get {S E} : method S E S := fun s => (Ok s, s).
Definition put {S E} (s' : S) : method S E unit := fun _ => (Ok tt, s').
Definition modify {S E} (f : S -> S) : method S E unit := fun s => (Ok tt, f s).
Definition throw {S E A} (e : E) : method S E A := fun s => (Err e, s).
Definition lift_result {S E A} (r : result E A) : method S E A := fun s => (r, s).
(** The early return [if c { return Err(e) }]. *)
Definition refuse_if {S E} (c : bool) (e : E) : method S E unit :=
  if c then throw e else mret tt.

(** ** Machine integers

    A [w]-bit unsigned integer is a [Z] in [0, 2^w).  The release profile does
    not enable overflow checks, so the plain operators wrap; the [saturating_]
    and [checked_] families are written out beside them. *)
Definition U8_MAX : Z := 2 ^ 8 - 1.
Definition U16_MAX : Z := 2 ^ 16 - 1.
Definition U32_MAX : Z := 2 ^ 32 - 1.
Definition U64_MAX : Z := 2 ^ 64 - 1.

Definition in_u (w x : Z) : Prop := 0 <= x < 2 ^ w.
Definition in_ub (w x : Z) : bool := (0 <=? x) && (x <? 2 ^ w).
Abbreviation is_u8 := (in_u 8).
Abbreviation is_u16 := (in_u 16).
Abbreviation is_u32 := (in_u 32).
Abbreviation is_u64 := (in_u 64).

Definition wrap (w x : Z) : Z := x mod 2 ^ w.

Definition wadd (w a b : Z) : Z := wrap w (a + b).
Definition wsub (w a b : Z) : Z := wrap w (a - b).
Definition wmul (w a b : Z) : Z := wrap w (a * b).

Definition sat_add (w a b : Z) : Z := Z.min (a + b) (2 ^ w - 1).
Definition sat_sub (a b : Z) : Z := Z.max 0 (a - b).
Definition sat_mul (w a b : Z) : Z := Z.min (a * b) (2 ^ w - 1).
Definition checked_add (w a b : Z) : option Z :=
  if a + b <? 2 ^ w then Some (a + b) else None.
Definition checked_sub (a b : Z) : option Z :=
  if b <=? a then Some (a - b) else None.

(** Two's-complement [w]-bit signed values. *)
Definition swrap (w x : Z) : Z := (x + 2 ^ (w - 1)) mod 2 ^ w - 2 ^ (w - 1).
Definition sadd (w a b : Z) : Z := swrap w (a + b).

Lemma wrap_small w x : in_u w x -> wrap w x = x.
Proof. intros. by apply Z.mod_small. Qed.

Lemma wrap_range w x : 0 <= w -> in_u w (wrap w x).
Proof. intros. apply Z.mod_pos_bound. lia. Qed.

Lemma wadd_small w a b : 0 <= a + b < 2 ^ w -> wadd w a b = a + b.
Proof. intros. by apply Z.mod_small. Qed.

Lemma zero_in_u w : 0 <= w -> in_u w 0.
Proof. intros. split; [lia|]. by apply Z.pow_pos_nonneg. Qed.

Lemma in_ub_spec w x : in_ub w x = true <-> in_u w x.
Proof. unfold in_ub, in_u. lia. Qed.

Lemma sat_add_range w a b : 0 <= w -> 0 <= a -> 0 <= b -> in_u w (sat_add w a b).
Proof. intros. unfold in_u, sat_add. assert (0 < 2 ^ w) by lia. lia. Qed.

(** Sums of integer lists. *)
Fixpoint sumZ (l : list Z) : Z :=
  match l with [] => 0 | x :: l => x + sumZ l end.

Lemma sumZ_nonneg l : Forall (Z.le 0) l -> 0 <= sumZ l.
Proof. induction 1; cbn; lia. Qed.

Lemma sumZ_app l1 l2 : sumZ (l1 ++ l2) = sumZ l1 + sumZ l2.
Proof. induction l1; cbn; lia. Qed.

(** ** Ordered maps

    A [BTreeMap] is a [gmap] whose iteration order is written out: its keys in
    ascending order, each once. *)
Definition btree_keys {A} (m : gmap Z A) : list Z := merge_sort Z.le (elements (dom m)).

Lemma elem_of_btree_keys {A} (m : gmap Z A) k : k ∈ btree_keys m <-> is_Some (m !! k).
Proof.
  unfold btree_keys. rewrite merge_sort_Permutation, elem_of_elements. apply elem_of_dom.
Qed.

Lemma btree_keys_NoDup {A} (m : gmap Z A) : NoDup (btree_keys m).
Proof. unfold btree_keys. rewrite merge_sort_Permutation. apply NoDup_elements. Qed.

Lemma btree_keys_sorted {A} (m : gmap Z A) : StronglySorted Z.le (btree_keys m).
Proof. unfold btree_keys. apply (StronglySorted_merge_sort _). Qed.

Lemma btree_keys_empty {A} (m : gmap Z A) : btree_keys m = [] <-> m = ∅.
Proof.
  split; [|by intros ->]. intros H. apply map_empty. intros k. apply eq_None_not_Some.
  rewrite <- elem_of_btree_keys, H. apply not_elem_of_nil.
Qed.

(** ** Reading the wall clock

    Code that calls [SystemTime::now] reads a clock the program does not control:
    a clock is the sequence of values its successive reads return, and timed code
    threads the number of reads made so far.  Nothing is assumed monotonic. *)
Definition clock : Type := nat -> Z.
Definition timed (A : Type) : Type := clock -> nat -> A * nat.

#[export] Instance timed_ret : MRet timed := fun _ a _ n => (a, n).
#[export] Instance timed_bind : MBind timed :=
  fun _ _ f m c n => match m c n with (a, n') => f a c n' end.

Definition read_clock : timed Z := fun c n => (c n, S n).

(** Whatever the clock says, the result satisfies [P]. *)
Definition always {A} (P : A -> Prop) (m : timed A) : Prop := forall c n, P (fst (m c n)).

Lemma always_ret {A} (P : A -> Prop) a : P a -> always P (mret a).
Proof. by intros ? c n. Qed.

Lemma always_bind {A B} (Q : A -> Prop) (P : B -> Prop) (m : timed A) (f : A -> timed B) :
  always Q m -> (forall a, Q a -> always P (f a)) -> always P (m ≫= f).
Proof.
  intros Hm Hf c n. unfold mbind, timed_bind. specialize (Hm c n).
  destruct (m c n) as [a k]. by apply Hf.
Qed.

(** ** Binary64 floats: the IEEE 754 operations as pure functions *)
Definition f64 : Type := spec_float.
Definition f64_of_Z (z : Z) : f64 := binary_normalize 53 1024 z 0 false.
Definition f64_div (a b : f64) : f64 := SFdiv 53 1024 a b.
Definition f64_ge (a b : f64) : bool := SFleb b a.
Definition f64_lt (a b : f64) : bool := SFltb a b.

(** ** Reachability: every invariant of a step relation holds wherever the
    relation leads. *)
Section reachability.
Context {S : Type} (step : relation S) (Inv : S -> Prop).
Hypothesis Inv_step : forall s s', Inv s -> step s s' -> Inv s'.

Lemma invariant_rtc s s' : Inv s -> rtc step s s' -> Inv s'.
Proof. intros H Hs. induction Hs; eauto. Qed.
End reachability.

(** ** Automation *)
Create HintDb rch discriminated.
#[export] Hint Extern 1 (in_u _ (wadd _ _ _)) => apply wrap_range; lia : rch.
#[export] Hint Extern 1 (in_u _ (wrap _ _)) => apply wrap_range; lia : rch.
#[export] Hint Extern 1 (in_u _ 0) => apply zero_in_u; lia : rch.
#[export] Hint Resolve sat_add_range : rch.

(** Beta, iota and pair projections only: leaves the program's definitions folded. *)
Ltac tidy := cbn beta iota zeta delta [fst snd].

(** Unfolds the monads of this file at the application in the goal. *)
Ltac unmonad :=
  unfold mbind, mret, timed_bind, timed_ret, read_clock,
    result_bind, result_ret, method_bind, method_ret, get, put, modify, throw,
    lift_result, refuse_if;
  cbn beta iota zeta delta [fst snd].
Tactic Notation "unmonad" "in" hyp(H) :=
  unfold mbind, mret, timed_bind, timed_ret, read_clock,
    result_bind, result_ret, method_bind, method_ret, get, put, modify, throw,
    lift_result, refuse_if in H;
  cbn beta iota zeta delta [fst snd] in H.

(** Case analysis on every boolean or option the goal branches on. *)
Ltac split_match :=
  repeat (case_match; simplify_eq/=).
