(* ===== verification/Circuit.v ===== *)
(** * The circuit breaker of a worker (rch-common/src/types.rs)

    [CircuitStats] is the failure record the scheduler reads before it routes a
    build to a worker.  One [Module] holds its data, its transitions and the
    health-check engine [apply_health_outcome], which is the only path the health
    monitor uses.  [now_millis] reads the wall clock, so the transitions are
    [timed]: each read gets its own value and no order between reads is assumed. *)

From stdpp Require Import base list.
From Stdlib Require Import ZArith Lia.
From S2P Require Import Prelude.

Module CircuitStats.

Inductive CircuitState := Closed | Open | HalfOpen.

#[export] Instance CircuitState_eq_dec : EqDecision CircuitState.
Proof. solve_decision. Defined.

Record CircuitBreakerConfig := {
  failure_threshold : Z;      (* u32 *)
  success_threshold : Z;      (* u32 *)
  error_rate_threshold : f64;
  window_secs : Z;            (* u64 *)
  open_cooldown_secs : Z;     (* u64 *)
  half_open_max_probes : Z;   (* u32 *)
}.

Definition default_config : CircuitBreakerConfig :=
  {| failure_threshold := 3; success_threshold := 2;
     error_rate_threshold := f64_div (f64_of_Z 1) (f64_of_Z 2);
     window_secs := 60; open_cooldown_secs := 30; half_open_max_probes := 1 |}.

Record t := {
  state : CircuitState;
  consecutive_failures : Z;   (* u32 *)
  consecutive_successes : Z;  (* u32 *)
  window_successes : Z;       (* u32 *)
  window_failures : Z;        (* u32 *)
  opened_at : option Z;       (* u64 *)
  last_state_change : Z;      (* u64 *)
  active_probes : Z;          (* u32 *)
  recent_results : list bool;
}.

Definition CIRCUIT_HISTORY_SIZE : nat := 10.

Definition now_millis : timed Z := read_clock.

Definition new : timed t :=
  now ← now_millis;
  mret {| state := Closed; consecutive_failures := 0; consecutive_successes := 0;
          window_successes := 0; window_failures := 0; opened_at := None;
          last_state_change := now; active_probes := 0; recent_results := [] |}.

Definition error_rate (s : t) : f64 :=
  match recent_results s with
  | [] => f64_of_Z 0
  | rs =>
      let failures := length (List.filter negb rs) in
      f64_div (f64_of_Z (Z.of_nat failures)) (f64_of_Z (Z.of_nat (length rs)))
  end.

(** [Vec::remove(0)] when full, then [push]. *)
Definition push_result (success : bool) (rs : list bool) : list bool :=
  (if Nat.leb CIRCUIT_HISTORY_SIZE (length rs) then tail rs else rs) ++ [success].

(** The decrement [if self.active_probes > 0 { self.active_probes -= 1 }]. *)
Definition drop_probe (n : Z) : Z := if 0 <? n then n - 1 else n.

Definition record_success (s : t) : t :=
  let half := bool_decide (state s = HalfOpen) in
  {| state := state s;
     consecutive_failures := 0;
     consecutive_successes :=
       if half then wadd 32 (consecutive_successes s) 1 else consecutive_successes s;
     window_successes := wadd 32 (window_successes s) 1;
     window_failures := window_failures s;
     opened_at := opened_at s;
     last_state_change := last_state_change s;
     active_probes := if half then drop_probe (active_probes s) else active_probes s;
     recent_results := push_result true (recent_results s) |}.

Definition record_failure (s : t) : t :=
  let half := bool_decide (state s = HalfOpen) in
  {| state := state s;
     consecutive_failures := wadd 32 (consecutive_failures s) 1;
     consecutive_successes := if half then 0 else consecutive_successes s;
     window_successes := window_successes s;
     window_failures := wadd 32 (window_failures s) 1;
     opened_at := opened_at s;
     last_state_change := last_state_change s;
     active_probes := if half then drop_probe (active_probes s) else active_probes s;
     recent_results := push_result false (recent_results s) |}.

Definition should_open (s : t) (config : CircuitBreakerConfig) : bool :=
  if bool_decide (state s ≠ Closed) then false
  else if failure_threshold config <=? consecutive_failures s then true
  else if Nat.leb 5 (length (recent_results s))
          && f64_ge (error_rate s) (error_rate_threshold config) then true
  else false.

Definition should_half_open (s : t) (config : CircuitBreakerConfig) : timed bool :=
  if bool_decide (state s ≠ Open) then mret false
  else
    now ← now_millis;
    let cooldown_ms := wmul 64 (open_cooldown_secs config) 1000 in
    mret match opened_at s with
         | Some opened_at => cooldown_ms <=? sat_sub now opened_at
         | None => false
         end.

Definition should_close (s : t) (config : CircuitBreakerConfig) : bool :=
  if bool_decide (state s ≠ HalfOpen) then false
  else success_threshold config <=? consecutive_successes s.

Definition can_probe (s : t) (config : CircuitBreakerConfig) : bool :=
  if bool_decide (state s ≠ HalfOpen) then false
  else active_probes s <? half_open_max_probes config.

Definition start_probe (config : CircuitBreakerConfig) (s : t) : bool * t :=
  if negb (can_probe s config) then (false, s)
  else (true,
        {| state := state s;
           consecutive_failures := consecutive_failures s;
           consecutive_successes := consecutive_successes s;
           window_successes := window_successes s;
           window_failures := window_failures s;
           opened_at := opened_at s;
           last_state_change := last_state_change s;
           active_probes := wadd 32 (active_probes s) 1;
           recent_results := recent_results s |}).

Definition open (s : t) : timed t :=
  if bool_decide (state s ≠ Open) then
    opened ← now_millis;
    changed ← now_millis;
    mret {| state := Open;
            consecutive_failures := consecutive_failures s;
            consecutive_successes := 0;
            window_successes := window_successes s;
            window_failures := window_failures s;
            opened_at := Some opened;
            last_state_change := changed;
            active_probes := 0;
            recent_results := recent_results s |}
  else mret s.

Definition half_open (s : t) : timed t :=
  if bool_decide (state s ≠ HalfOpen) then
    changed ← now_millis;
    mret {| state := HalfOpen;
            consecutive_failures := consecutive_failures s;
            consecutive_successes := 0;
            window_successes := window_successes s;
            window_failures := window_failures s;
            opened_at := opened_at s;
            last_state_change := changed;
            active_probes := 0;
            recent_results := recent_results s |}
  else mret s.

Definition close (s : t) : timed t :=
  if bool_decide (state s ≠ Closed) then
    changed ← now_millis;
    mret {| state := Closed;
            consecutive_failures := 0;
            consecutive_successes := 0;
            window_successes := 0;
            window_failures := 0;
            opened_at := None;
            last_state_change := changed;
            active_probes := 0;
            recent_results := [] |}
  else mret s.

Definition reset_window (s : t) : t :=
  {| state := state s;
     consecutive_failures := consecutive_failures s;
     consecutive_successes := consecutive_successes s;
     window_successes := 0;
     window_failures := 0;
     opened_at := opened_at s;
     last_state_change := last_state_change s;
     active_probes := active_probes s;
     recent_results := [] |}.

Definition recovery_remaining_secs (s : t) (config : CircuitBreakerConfig) : timed (option Z) :=
  if bool_decide (state s ≠ Open) then mret None
  else
    now ← now_millis;
    let cooldown_ms := wmul 64 (open_cooldown_secs config) 1000 in
    mret match opened_at s with
         | Some opened_at =>
             let elapsed_ms := sat_sub now opened_at in
             if elapsed_ms <? cooldown_ms then Some ((cooldown_ms - elapsed_ms) / 1000)
             else None
         | None => None
         end.

(** The nudge of an open circuit past its cooldown, used on both sides of the
    outcome.  Rust's [&&] short-circuits, and [should_half_open] itself reads the
    clock only when the circuit is open, so the reads agree. *)
Definition nudge_half_open (config : CircuitBreakerConfig) (s : t) : timed t :=
  if bool_decide (state s = Open) then
    elapsed ← should_half_open s config;
    if elapsed : bool then half_open s else mret s
  else mret s.

(** The two branches of the engine before the final nudge. *)
Definition apply_outcome_branch (healthy transient : bool)
    (config : CircuitBreakerConfig) (s : t) : timed t :=
  if healthy then
    s1 ← nudge_half_open config s;
    let s2 := record_success s1 in
    if should_close s2 config then close s2 else mret s2
  else
    let was_half_open := bool_decide (state s = HalfOpen) in
    let s1 := record_failure s in
    if should_open s1 config then open s1
    else if was_half_open && negb transient then open s1
    else mret s1.

Definition apply_health_outcome (healthy transient : bool)
    (config : CircuitBreakerConfig) (s : t) : timed t :=
  s1 ← apply_outcome_branch healthy transient config s;
  nudge_half_open config s1.

(** A sequence of health checks, (healthy, transient) each. *)
Fixpoint apply_all (config : CircuitBreakerConfig) (outcomes : list (bool * bool)) (s : t)
    : timed t :=
  match outcomes with
  | [] => mret s
  | (healthy, transient) :: rest =>
      s1 ← apply_health_outcome healthy transient config s;
      apply_all config rest s1
  end.

(** ** Invariant *)

(** What every circuit the health monitor drives satisfies: the history is
    bounded, the half-open counters are zero outside the half-open state, and the
    opening time is recorded exactly while the circuit is not closed. *)
Record wf (s : t) : Prop := {
  wf_history : (length (recent_results s) <= CIRCUIT_HISTORY_SIZE)%nat;
  wf_quiet : state s ≠ HalfOpen -> consecutive_successes s = 0 /\ active_probes s = 0;
  wf_opened : state s ≠ Closed <-> is_Some (opened_at s);
  wf_failures : is_u32 (consecutive_failures s);
  wf_successes : is_u32 (consecutive_successes s);
}.

Lemma push_result_length b rs :
  (length rs <= CIRCUIT_HISTORY_SIZE ->
   length (push_result b rs) <= CIRCUIT_HISTORY_SIZE)%nat.
Proof.
  unfold push_result, CIRCUIT_HISTORY_SIZE. rewrite length_app. cbn [length].
  destruct (Nat.leb_spec 10 (length rs)); destruct rs; cbn [length tail] in *; lia.
Qed.

#[local] Hint Resolve push_result_length : rch.

Lemma record_success_wf s : wf s -> wf (record_success s).
Proof.
  intros [H1 H2 H3 H4 H5]. constructor; simpl; auto with rch.
  - intros ?. case_bool_decide; auto; done.
  - case_bool_decide; auto with rch.
Qed.

Lemma record_failure_wf s : wf s -> wf (record_failure s).
Proof.
  intros [H1 H2 H3 H4 H5]. constructor; simpl; auto with rch.
  - intros ?. case_bool_decide; auto; done.
  - case_bool_decide; auto with rch.
Qed.

Lemma open_wf s c n : wf s -> wf (fst (open s c n)).
Proof.
  intros [H1 H2 H3 H4 H5]. unfold open. case_bool_decide; [|done].
  constructor; simpl; auto with rch. split; [eauto|done].
Qed.

Lemma close_wf s c n : wf s -> wf (fst (close s c n)).
Proof.
  intros [H1 H2 H3 H4 H5]. unfold close. case_bool_decide; [|done].
  constructor; simpl; auto with rch; [unfold CIRCUIT_HISTORY_SIZE; lia|].
  split; [done|by intros []].
Qed.

Lemma half_open_wf s c n : state s ≠ Closed -> wf s -> wf (fst (half_open s c n)).
Proof.
  intros Hc [H1 H2 H3 H4 H5]. unfold half_open. case_bool_decide; [|done].
  constructor; simpl; auto with rch. rewrite <- H3. by split.
Qed.

Lemma nudge_wf config s c n : wf s -> wf (fst (nudge_half_open config s c n)).
Proof.
  intros H. unfold nudge_half_open. case_bool_decide as Ho; [|done].
  unmonad. destruct (should_half_open s config c n) as [[] m]; cbn; [|done].
  apply half_open_wf; [congruence|done].
Qed.

Lemma apply_outcome_branch_wf h tr config s c n :
  wf s -> wf (fst (apply_outcome_branch h tr config s c n)).
Proof.
  intros H. unfold apply_outcome_branch. destruct h; unmonad.
  - pose proof (nudge_wf config s c n H).
    destruct (nudge_half_open config s c n) as [s1 m]; cbn in *.
    case_match; tidy; auto using close_wf, record_success_wf.
  - repeat case_match; tidy; auto using open_wf, record_failure_wf.
Qed.

Lemma apply_health_outcome_wf h tr config s c n :
  wf s -> wf (fst (apply_health_outcome h tr config s c n)).
Proof.
  intros H. unfold apply_health_outcome. unmonad.
  pose proof (apply_outcome_branch_wf h tr config s c n H).
  destruct (apply_outcome_branch h tr config s c n) as [s1 m]; cbn in *.
  by apply nudge_wf.
Qed.

(** What survives any method in any order, the direct [half_open] of a closed
    circuit included: a bounded history, and an opening time while open. *)
Definition recoverable (s : t) : Prop :=
  (length (recent_results s) <= CIRCUIT_HISTORY_SIZE)%nat
  /\ (state s = Open -> is_Some (opened_at s)).

Lemma record_success_recoverable s : recoverable s -> recoverable (record_success s).
Proof. intros [? ?]. split; cbn [state opened_at recent_results record_success record_failure]; auto with rch. Qed.

Lemma record_failure_recoverable s : recoverable s -> recoverable (record_failure s).
Proof. intros [? ?]. split; cbn [state opened_at recent_results record_success record_failure]; auto with rch. Qed.

Lemma start_probe_recoverable config s : recoverable s -> recoverable (snd (start_probe config s)).
Proof. intros [? ?]. unfold start_probe. by destruct (negb _). Qed.

Lemma open_recoverable s c n : recoverable s -> recoverable (fst (open s c n)).
Proof. intros [? ?]. unfold open. case_bool_decide; [split; cbn; eauto|done]. Qed.

Lemma half_open_recoverable s c n : recoverable s -> recoverable (fst (half_open s c n)).
Proof. intros [? ?]. unfold half_open. case_bool_decide; [split; cbn; done|done]. Qed.

Lemma close_recoverable s c n : recoverable s -> recoverable (fst (close s c n)).
Proof. intros [? ?]. unfold close. case_bool_decide; [split; cbn; [apply Nat.le_0_l|done]|done]. Qed.

Lemma nudge_recoverable config s c n :
  recoverable s -> recoverable (fst (nudge_half_open config s c n)).
Proof.
  intros H. unfold nudge_half_open. case_bool_decide; [|done]. unmonad.
  destruct (should_half_open s config c n) as [[] m]; cbn; [|done].
  by apply half_open_recoverable.
Qed.

#[export] Hint Resolve record_success_recoverable record_failure_recoverable
  start_probe_recoverable open_recoverable half_open_recoverable close_recoverable
  nudge_recoverable : rch.

Lemma apply_health_outcome_recoverable h tr config s c n :
  recoverable s -> recoverable (fst (apply_health_outcome h tr config s c n)).
Proof.
  intros H. unfold apply_health_outcome. unmonad.
  assert (recoverable (fst (apply_outcome_branch h tr config s c n))) as Hb.
  { unfold apply_outcome_branch. destruct h; unmonad.
    - pose proof (nudge_recoverable config s c n H).
      destruct (nudge_half_open config s c n) as [s1 m]; cbn in *.
      case_match; tidy; auto with rch.
    - repeat case_match; tidy; auto with rch. }
  destruct (apply_outcome_branch h tr config s c n) as [s1 m]; cbn in *. auto with rch.
Qed.

#[export] Hint Resolve apply_health_outcome_recoverable : rch.

(** ** Recovery, cooldown and half-open behaviour *)

Lemma apply_all_cons config h tr os s c n :
  apply_all config ((h, tr) :: os) s c n =
  let r := apply_health_outcome h tr config s c n in apply_all config os (fst r) c (snd r).
Proof. cbn. unmonad. by destruct (apply_health_outcome _ _ _ _ _ _). Qed.

Lemma apply_all_app config os1 os2 s c n :
  apply_all config (os1 ++ os2) s c n =
  let r := apply_all config os1 s c n in apply_all config os2 (fst r) c (snd r).
Proof.
  revert s n. induction os1 as [|[h tr] os1 IH]; intros s n; [done|].
  rewrite <- app_comm_cons, !apply_all_cons. cbn zeta. apply IH.
Qed.

(** The cooldown test as the code evaluates it at one clock reading. *)
Definition cooled (config : CircuitBreakerConfig) (opened now : Z) : bool :=
  wmul 64 (open_cooldown_secs config) 1000 <=? sat_sub now opened.

Lemma nudge_not_open config s c n :
  state s ≠ Open -> nudge_half_open config s c n = (s, n).
Proof. intros. unfold nudge_half_open. by rewrite bool_decide_eq_false_2. Qed.

Lemma should_half_open_open config s c n o :
  state s = Open -> opened_at s = Some o ->
  should_half_open s config c n = (cooled config o (c n), S n).
Proof.
  intros Hs Ho. unfold should_half_open. rewrite bool_decide_eq_false_2 by congruence.
  rewrite Ho. done.
Qed.

Lemma nudge_open config s c n o :
  state s = Open -> opened_at s = Some o ->
  nudge_half_open config s c n =
  (if cooled config o (c n) then half_open s c (S n) else (s, S n)).
Proof.
  intros Hs Ho. unfold nudge_half_open. rewrite bool_decide_eq_true_2 by done.
  unmonad. rewrite (should_half_open_open _ _ _ _ o) by done.
  by destruct (cooled _ _ _).
Qed.

(** The state [close] leaves behind. *)
Definition closed_record (s : t) : Prop :=
  state s = Closed /\ consecutive_failures s = 0 /\ recent_results s = []
  /\ opened_at s = None.

Lemma close_not_closed s c n :
  state s ≠ Closed -> exists s', close s c n = (s', S n) /\ closed_record s'.
Proof.
  intros. unfold close. rewrite bool_decide_eq_true_2 by done.
  eexists. split; [reflexivity|done].
Qed.

(** A clean probe while half-open: it counts once, and closes the circuit exactly
    when the count reaches the threshold. *)
Lemma credit_probe config s c n :
  state s = HalfOpen -> 0 <= consecutive_successes s < U32_MAX ->
  let r := (if should_close (record_success s) config then close (record_success s)
            else mret (record_success s)) c n in
  let s' := fst (nudge_half_open config (fst r) c (snd r)) in
  if success_threshold config <=? consecutive_successes s + 1
  then closed_record s'
  else state s' = HalfOpen /\ consecutive_successes s' = consecutive_successes s + 1.
Proof.
  intros Hs Hr.
  assert (Hc : should_close (record_success s) config
               = (success_threshold config <=? consecutive_successes s + 1)).
  { unfold should_close, record_success. cbn -[wadd].
    rewrite (bool_decide_eq_true_2 (state s = HalfOpen)), bool_decide_eq_false_2 by congruence.
    by rewrite wadd_small by (unfold U32_MAX in *; lia). }
  rewrite Hc. destruct (success_threshold config <=? consecutive_successes s + 1).
  - destruct (close_not_closed (record_success s) c n) as (s' & -> & Hcl); [cbn; congruence|].
    cbn zeta. tidy. rewrite nudge_not_open; [done|]. destruct Hcl as [-> _]. done.
  - cbn zeta. unmonad. rewrite nudge_not_open by (cbn; congruence). cbn -[wadd].
    rewrite bool_decide_eq_true_2 by done.
    by rewrite wadd_small by (unfold U32_MAX in *; lia).
Qed.

Lemma healthy_half_open config s c n tr :
  state s = HalfOpen -> 0 <= consecutive_successes s < U32_MAX ->
  let s' := fst (apply_health_outcome true tr config s c n) in
  if success_threshold config <=? consecutive_successes s + 1
  then closed_record s'
  else state s' = HalfOpen /\ consecutive_successes s' = consecutive_successes s + 1.
Proof.
  intros Hs Hr. pose proof (credit_probe config s c n Hs Hr) as H.
  unfold apply_health_outcome, apply_outcome_branch. unmonad.
  rewrite nudge_not_open by congruence. unmonad in H. tidy.
  by match type of H with context [nudge_half_open _ (fst ?r) _ _] => destruct r end.
Qed.

(** The first clean probe of an open circuit past its cooldown is credited to the
    half-open state it moves to. *)
Lemma healthy_open_cooled config s c n tr o :
  state s = Open -> opened_at s = Some o -> cooled config o (c n) = true ->
  let s' := fst (apply_health_outcome true tr config s c n) in
  if success_threshold config <=? 1
  then closed_record s'
  else state s' = HalfOpen /\ consecutive_successes s' = 1.
Proof.
  intros Hs Ho Hc. unfold apply_health_outcome, apply_outcome_branch. unmonad.
  rewrite (nudge_open _ s _ _ o), Hc by done. unfold half_open.
  rewrite bool_decide_eq_true_2 by congruence. unfold now_millis. unmonad.
  match goal with |- context [record_success ?s1] =>
    pose proof (credit_probe config s1 c (S (S n)) eq_refl) as H end.
  specialize (H ltac:(cbn; unfold U32_MAX; lia)). unmonad in H.
  by match type of H with context [nudge_half_open _ (fst ?r) _ _] => destruct r end.
Qed.

Lemma healthy_half_open_all config s c n trs :
  state s = HalfOpen -> 0 <= consecutive_successes s ->
  consecutive_successes s + Z.of_nat (length trs) < success_threshold config ->
  is_u32 (success_threshold config) ->
  let s' := fst (apply_all config (pair true <$> trs) s c n) in
  state s' = HalfOpen
  /\ consecutive_successes s' = consecutive_successes s + Z.of_nat (length trs).
Proof.
  revert s n. induction trs as [|tr trs IH]; intros s n Hs H0 Hk Hu.
  { cbn. split; [done|lia]. }
  cbn [length] in *. rewrite fmap_cons, apply_all_cons.
  pose proof (healthy_half_open config s c n tr Hs) as Hstep.
  destruct (apply_health_outcome true tr config s c n) as [s1 m]; cbn [fst snd] in *.
  specialize (Hstep ltac:(unfold U32_MAX, in_u in *; lia)).
  destruct (Z.leb_spec (success_threshold config) (consecutive_successes s + 1)); [lia|].
  destruct Hstep as [Hs1 Hc1].
  destruct (IH s1 m Hs1) as [-> ->]; [lia..|done|]. split; [done|lia].
Qed.

(** Recovery after an outage takes exactly [success_threshold] clean probes: an
    open circuit past its cooldown is half-open after fewer, and is closed with a
    reset record after that many. *)
Theorem recovery_takes_threshold_probes config s c n o trs :
  state s = Open -> opened_at s = Some o -> cooled config o (c n) = true ->
  1 <= success_threshold config <= U32_MAX -> trs ≠ [] ->
  let s' := fst (apply_all config (pair true <$> trs) s c n) in
  (Z.of_nat (length trs) < success_threshold config ->
     state s' = HalfOpen /\ consecutive_successes s' = Z.of_nat (length trs))
  /\ (Z.of_nat (length trs) = success_threshold config ->
     closed_record s').
Proof.
  intros Hs Ho Hc Hth Hne s'. subst s'.
  destruct trs as [|tr trs]; [done|]. clear Hne.
  rewrite fmap_cons, apply_all_cons. cbn [length].
  pose proof (healthy_open_cooled config s c n tr o Hs Ho Hc) as H1.
  destruct (apply_health_outcome true tr config s c n) as [s1 m]; cbn [fst snd] in *.
  destruct (Z.leb_spec (success_threshold config) 1) as [Hle|Hgt].
  { destruct trs as [|? ?]; cbn; [|split; lia]. split; [lia|]. intros _. exact H1. }
  destruct H1 as [Hs1 Hc1]. split; intros Hk.
  - destruct (healthy_half_open_all config s1 c m trs Hs1) as [-> ->];
      unfold in_u, U32_MAX in *; try lia. split; [done|lia].
  - destruct (exists_last (l := trs)) as (trs' & tr' & ->).
    { intros ->. cbn in Hk. lia. }
    rewrite fmap_app, apply_all_app. cbn [fmap list_fmap]. rewrite apply_all_cons.
    rewrite length_app in Hk. cbn in Hk.
    destruct (healthy_half_open_all config s1 c m trs' Hs1) as [Hs2 Hc2];
      [unfold in_u, U32_MAX in *; lia..|].
    destruct (apply_all config (pair true <$> trs') s1 c m) as [s2 m2]. cbn [fst snd] in *.
    pose proof (healthy_half_open config s2 c m2 tr' Hs2) as Hlast.
    destruct (apply_health_outcome true tr' config s2 c m2) as [s3 m3]. cbn [fst snd] in *.
    specialize (Hlast ltac:(unfold U32_MAX in *; lia)).
    destruct (Z.leb_spec (success_threshold config) (consecutive_successes s2 + 1));
      [exact Hlast|lia].
Qed.

(** A circuit opened at time zero. *)
Definition open_sample : t := fst (open (fst (new (fun _ => 0) 0%nat)) (fun _ => 0) 1%nat).

Lemma recovery_takes_threshold_probes_witness :
  let s' := fst (apply_all default_config (pair true <$> [false; false]) open_sample
                   (fun _ => 40_000) 0%nat) in
  closed_record s'.
Proof.
  apply (recovery_takes_threshold_probes default_config open_sample
           (fun _ => 40_000) 0%nat 0 [false; false]);
    try reflexivity; cbn; unfold U32_MAX; try lia; done.
Defined.

Lemma should_open_not_closed config s : state s ≠ Closed -> should_open s config = false.
Proof. intros. unfold should_open. by rewrite bool_decide_eq_true_2. Qed.

Lemma open_not_open s c n :
  state s ≠ Open ->
  open s c n =
  ({| state := Open; consecutive_failures := consecutive_failures s;
      consecutive_successes := 0; window_successes := window_successes s;
      window_failures := window_failures s; opened_at := Some (c n);
      last_state_change := c (S n); active_probes := 0;
      recent_results := recent_results s |}, S (S n)).
Proof. intros. unfold open. by rewrite bool_decide_eq_true_2. Qed.

(** While the cooldown runs, no outcome moves an open circuit. *)
Lemma outcome_while_cooling h tr config s c n o :
  state s = Open -> opened_at s = Some o -> (forall i, cooled config o (c i) = false) ->
  let s' := fst (apply_health_outcome h tr config s c n) in
  state s' = Open /\ opened_at s' = Some o.
Proof.
  intros Hs Ho Hc. unfold apply_health_outcome, apply_outcome_branch. destruct h; unmonad.
  - rewrite (nudge_open _ s _ _ o), Hc by done. tidy.
    unfold should_close. rewrite bool_decide_eq_true_2 by (cbn; congruence). tidy.
    by rewrite (nudge_open _ _ _ _ o), Hc by done.
  - rewrite (bool_decide_eq_false_2 (state s = HalfOpen)) by congruence. cbn [andb].
    rewrite should_open_not_closed by (cbn; congruence). tidy.
    by rewrite (nudge_open _ _ _ _ o), Hc by done.
Qed.

(** An open circuit stays open while its cooldown runs.  Whatever health checks
    arrive, healthy or not, as long as no clock reading is past the cooldown, the
    circuit is open and its cooldown start is not moved. *)
Theorem cooldown_holds config outcomes s c n o :
  state s = Open -> opened_at s = Some o -> (forall i, cooled config o (c i) = false) ->
  let s' := fst (apply_all config outcomes s c n) in
  state s' = Open /\ opened_at s' = Some o.
Proof.
  revert s n. induction outcomes as [|[h tr] os IH]; intros s n Hs Ho Hc; [done|].
  rewrite apply_all_cons. cbn zeta.
  destruct (outcome_while_cooling h tr config s c n o Hs Ho Hc) as [H1 H2].
  by apply IH.
Qed.

Lemma cooldown_holds_witness :
  state (fst (apply_all default_config [(true, false); (false, false)] open_sample
                (fun _ => 29_999) 0%nat)) = Open.
Proof.
  apply (cooldown_holds default_config [(true, false); (false, false)] open_sample
           (fun _ => 29_999) 0%nat 0); try reflexivity.
Defined.

(** A failed probe of a half-open circuit: a transient failure leaves it
    half-open, with its cooldown start untouched; a real one restarts the cooldown
    at the first clock reading, and the call ends half-open again only when that
    new cooldown is already over at the third. *)
Theorem half_open_failure config s c n tr :
  state s = HalfOpen ->
  let s' := fst (apply_health_outcome false tr config s c n) in
  consecutive_successes s' = 0 /\
  if tr then state s' = HalfOpen /\ opened_at s' = opened_at s
  else opened_at s' = Some (c n)
       /\ state s' = (if cooled config (c n) (c (S (S n))) then HalfOpen else Open).
Proof.
  intros Hs. unfold apply_health_outcome, apply_outcome_branch. unmonad.
  rewrite (bool_decide_eq_true_2 (state s = HalfOpen)) by done.
  rewrite should_open_not_closed by (cbn; congruence). cbn [andb].
  destruct tr; cbn [negb]; tidy.
  - rewrite nudge_not_open by (cbn; congruence). cbn.
    by rewrite bool_decide_eq_true_2 by done.
  - rewrite open_not_open by (cbn; congruence). tidy.
    rewrite (nudge_open _ _ _ _ (c n)) by done.
    destruct (cooled config (c n) (c (S (S n)))); [|done].
    unfold half_open. by rewrite bool_decide_eq_true_2 by done.
Qed.

Lemma half_open_failure_witness :
  let s := fst (half_open open_sample (fun _ => 50_000) 0%nat) in
  opened_at (fst (apply_health_outcome false false default_config s (fun _ => 50_000) 0%nat))
  = Some 50_000.
Proof.
  apply (half_open_failure default_config _ (fun _ => 50_000) 0%nat false). reflexivity.
Defined.

(** A failed check of a circuit that is not closed does not close it, and a failed
    check of a closed one opens it or adds one to its run of failures. *)
Lemma failure_step config s c n tr :
  let s' := fst (apply_health_outcome false tr config s c n) in
  state s' ≠ Closed
  \/ state s = Closed /\ consecutive_failures s' = wadd 32 (consecutive_failures s) 1
     /\ consecutive_failures s' < failure_threshold config.
Proof.
  unfold apply_health_outcome, apply_outcome_branch. unmonad.
  destruct (should_open (record_failure s) config) eqn:Ho; tidy.
  { left. rewrite open_not_open.
    - rewrite (nudge_open _ _ _ _ (c n)) by done. destruct (cooled _ _ _); [|done].
      unfold half_open. by rewrite bool_decide_eq_true_2 by done.
    - intros He. rewrite should_open_not_closed in Ho by congruence. done. }
  destruct (bool_decide (state s = HalfOpen) && negb tr) eqn:Hh; tidy.
  { left. apply andb_prop in Hh as [Hh _]. apply bool_decide_eq_true in Hh.
    rewrite open_not_open by (cbn; congruence).
    rewrite (nudge_open _ _ _ _ (c n)) by done. destruct (cooled _ _ _); [|done].
    unfold half_open. by rewrite bool_decide_eq_true_2 by done. }
  destruct (state s) eqn:Hs.
  - right. rewrite nudge_not_open by (cbn; congruence). split_and!; [done..|].
    unfold should_open in Ho. rewrite bool_decide_eq_false_2 in Ho by (cbn; congruence).
    tidy. destruct (Z.leb_spec (failure_threshold config)
                      (consecutive_failures (record_failure s))); [done|lia].
  - left. unfold nudge_half_open. rewrite bool_decide_eq_true_2 by done. unmonad.
    destruct (should_half_open _ _ _ _) as [[] m]; tidy; [|cbn; congruence].
    unfold half_open. by rewrite bool_decide_eq_true_2 by (cbn; congruence).
  - left. rewrite nudge_not_open by (cbn; congruence). cbn. congruence.
Qed.

Lemma failures_keep_open config s c n trs :
  state s ≠ Closed -> state (fst (apply_all config (pair false <$> trs) s c n)) ≠ Closed.
Proof.
  revert s n. induction trs as [|tr trs IH]; intros s n Hne; [done|].
  rewrite fmap_cons, apply_all_cons. cbn zeta. apply IH.
  by destruct (failure_step config s c n tr) as [?|(? & _)].
Qed.

(** A failing worker is taken out of service: whatever its history, a run of
    failed checks that brings the consecutive count to [failure_threshold] leaves
    the circuit open or half-open, never closed, however long the run goes on and
    whether or not the failures are transient. *)
Theorem failures_trip config s c n trs :
  0 <= consecutive_failures s < failure_threshold config ->
  failure_threshold config <= U32_MAX ->
  failure_threshold config <= consecutive_failures s + Z.of_nat (length trs) ->
  state (fst (apply_all config (pair false <$> trs) s c n)) ≠ Closed.
Proof.
  revert s n. induction trs as [|tr trs IH]; intros s n Hf Hu Hk; cbn [length] in *; [lia|].
  rewrite fmap_cons, apply_all_cons. cbn zeta.
  destruct (failure_step config s c n tr) as [?|(Hs & Hf' & Hlt)].
  - by apply failures_keep_open.
  - rewrite wadd_small in Hf' by (unfold U32_MAX in *; lia). apply IH; lia.
Qed.

Lemma failures_trip_witness :
  state (fst (apply_all default_config (pair false <$> [true; false; true])
                (fst (new (fun _ => 0) 0%nat)) (fun _ => 7) 0%nat)) ≠ Closed.
Proof. apply failures_trip; vm_compute; repeat split; discriminate. Defined.

(** Every circuit the health monitor produces is well formed: starting from a
    new record, after any sequence of health checks at any clock readings the
    history holds at most ten results, the half-open counters are zero outside the
    half-open state, and an opening time is recorded exactly while the circuit is
    not closed. *)
Theorem monitored_circuit_wf config outcomes c n :
  let s := fst ((s ← new; apply_all config outcomes s) c n) in wf s.
Proof.
  assert (forall os s m, wf s -> wf (fst (apply_all config os s c m))) as Hall.
  { induction os as [|[h tr] os IH]; intros s m Hs; [done|].
    rewrite apply_all_cons. by apply IH, apply_health_outcome_wf. }
  unfold new. unmonad. apply Hall. constructor; cbn; auto with rch; [unfold CIRCUIT_HISTORY_SIZE; lia|].
  split; [done | by intros []].
Qed.

End CircuitStats.
