(* ===== verification/Lifecycle.v ===== *)
(** * Worker lifecycle (rchd/src/workers.rs)

    The two-axis state machine of one worker: the operator's intent and the live
    eligibility the health probes drive, with the quarantine that only a canary
    build ends. *)

From stdpp Require Import base list strings.
From Stdlib Require Import ZArith Lia.
From S2P Require Import Prelude.

Module WorkerLifecycle.

(** The legacy single-axis status (rch-common/src/types.rs). *)
Inductive WorkerStatus :=
  | StHealthy | StDegraded | StUnreachable | StDraining | StDrained | StDisabled.

Inductive AdminIntent := Active | Draining | Drained | Disabled.

Inductive EligibilityState :=
  | Healthy | Degraded | Unreachable | TemporaryBypass | RecoveredPendingCanary.

Inductive BypassFailureClass :=
  | Ssh | WorkerBinary | RuntimeToolchain | DiskInodePressure | StaleTelemetry
  | PathSync | ArtifactRetrieval | CircuitBreaker | OsArchMismatch.

#[export] Instance WorkerStatus_eq_dec : EqDecision WorkerStatus.
Proof. solve_decision. Defined.
#[export] Instance AdminIntent_eq_dec : EqDecision AdminIntent.
Proof. solve_decision. Defined.
#[export] Instance EligibilityState_eq_dec : EqDecision EligibilityState.
Proof. solve_decision. Defined.
#[export] Instance BypassFailureClass_eq_dec : EqDecision BypassFailureClass.
Proof. solve_decision. Defined.

Record IllegalLifecycleTransition := {
  from : EligibilityState;
  to : EligibilityState;
  reason : string;
}.

Record lifecycle := {
  admin : AdminIntent;
  eligibility : EligibilityState;
  bypass_cause : option BypassFailureClass;
}.

#[export] Instance lifecycle_eq_dec : EqDecision lifecycle.
Proof. solve_decision. Defined.

Definition new : lifecycle :=
  {| admin := Active; eligibility := Healthy; bypass_cause := None |}.

Definition from_worker_status (status : WorkerStatus) : lifecycle :=
  match status with
  | StHealthy => new
  | StDegraded => {| admin := Active; eligibility := Degraded; bypass_cause := None |}
  | StUnreachable => {| admin := Active; eligibility := Unreachable; bypass_cause := None |}
  | StDraining => {| admin := Draining; eligibility := Healthy; bypass_cause := None |}
  | StDrained => {| admin := Drained; eligibility := Healthy; bypass_cause := None |}
  | StDisabled => {| admin := Disabled; eligibility := Healthy; bypass_cause := None |}
  end.

Definition legacy_status (l : lifecycle) : WorkerStatus :=
  match admin l with
  | Disabled => StDisabled
  | Draining => StDraining
  | Drained => StDrained
  | Active =>
      match eligibility l with
      | Healthy => StHealthy
      | Degraded => StDegraded
      | Unreachable | TemporaryBypass | RecoveredPendingCanary => StUnreachable
      end
  end.

Definition is_schedulable (l : lifecycle) : bool :=
  bool_decide (admin l = Active)
  && match eligibility l with Healthy | Degraded => true | _ => false end.

Definition is_canary_pending (l : lifecycle) : bool :=
  bool_decide (admin l = Active) && bool_decide (eligibility l = RecoveredPendingCanary).

Definition set_admin (intent : AdminIntent) (l : lifecycle) : lifecycle :=
  {| admin := intent; eligibility := eligibility l; bypass_cause := bypass_cause l |}.

Definition observe_health (health : EligibilityState) (l : lifecycle) : bool * lifecycle :=
  let is_plain_health :=
    match health with Healthy | Degraded | Unreachable => true | _ => false end in
  let currently_quarantined :=
    match eligibility l with TemporaryBypass | RecoveredPendingCanary => true | _ => false end in
  if negb is_plain_health || currently_quarantined then (false, l)
  else (true, {| admin := admin l; eligibility := health; bypass_cause := bypass_cause l |}).

Definition enter_bypass (cause : BypassFailureClass) (l : lifecycle) : lifecycle :=
  {| admin := admin l; eligibility := TemporaryBypass; bypass_cause := Some cause |}.

Definition recover_to_canary : method lifecycle IllegalLifecycleTransition unit := fun l =>
  if bool_decide (eligibility l ≠ TemporaryBypass) then
    (Err {| from := eligibility l; to := RecoveredPendingCanary;
            reason := "recovery to canary is only legal from temporary_bypass" |}, l)
  else (Ok tt, {| admin := admin l; eligibility := RecoveredPendingCanary;
                  bypass_cause := None |}).

Definition promote_from_canary : method lifecycle IllegalLifecycleTransition unit := fun l =>
  if bool_decide (eligibility l ≠ RecoveredPendingCanary) then
    (Err {| from := eligibility l; to := Healthy;
            reason := "promotion is only legal from recovered_pending_canary" |}, l)
  else (Ok tt, {| admin := admin l; eligibility := Healthy; bypass_cause := None |}).

Definition health_status_to_eligibility (status : WorkerStatus) : option EligibilityState :=
  match status with
  | StHealthy => Some Healthy
  | StDegraded => Some Degraded
  | StUnreachable => Some Unreachable
  | StDraining | StDrained | StDisabled => None
  end.

Definition lifecycle_accepts_new_builds (l : lifecycle) : bool :=
  negb match admin l with Draining | Drained | Disabled => true | Active => false end
  && negb match eligibility l with
          | TemporaryBypass | RecoveredPendingCanary => true
          | _ => false
          end.

(** ** The automatic events of the eligibility axis *)

(** Everything that moves a lifecycle without an operator: health probes,
    failure-class bypasses and the recovery loop.  A refused transition leaves the
    lifecycle as it was. *)
Inductive auto_op :=
  | Observe (status : WorkerStatus)
  | EnterBypass (cause : BypassFailureClass)
  | RecoverToCanary
  | PromoteFromCanary.

Definition auto (op : auto_op) (l : lifecycle) : lifecycle :=
  match op with
  | Observe status =>
      match health_status_to_eligibility status with
      | Some e => snd (observe_health e l)
      | None => l
      end
  | EnterBypass cause => enter_bypass cause l
  | RecoverToCanary => snd (recover_to_canary l)
  | PromoteFromCanary => snd (promote_from_canary l)
  end.

Fixpoint auto_run (ops : list auto_op) (l : lifecycle) : lifecycle :=
  match ops with
  | [] => l
  | op :: ops => auto_run ops (auto op l)
  end.

(** The recorded cause explains a bypass and nothing else. *)
Definition wf (l : lifecycle) : Prop :=
  is_Some (bypass_cause l) <-> eligibility l = TemporaryBypass.

Lemma auto_admin op l : admin (auto op l) = admin l.
Proof.
  destruct op; cbn; unfold observe_health, recover_to_canary, promote_from_canary;
    repeat case_match; done.
Qed.

Lemma auto_run_admin ops l : admin (auto_run ops l) = admin l.
Proof. revert l. induction ops as [|op ops IH]; intros l; cbn; [done|]. by rewrite IH, auto_admin. Qed.

Lemma wf_auto op l : wf l -> wf (auto op l).
Proof.
  unfold wf. destruct l as [a e b]. intros H.
  destruct op as [st|c| |]; cbn in *; unfold observe_health, recover_to_canary, promote_from_canary.
  - destruct st; cbn; destruct e; cbn; naive_solver.
  - cbn. naive_solver.
  - destruct e; cbn; naive_solver.
  - destruct e; cbn; naive_solver.
Qed.

Lemma set_admin_wf a l : wf l -> wf (set_admin a l).
Proof. done. Qed.

Lemma from_worker_status_wf st : wf (from_worker_status st).
Proof. destruct st; split; cbn; try done; by intros []. Qed.

#[export] Hint Resolve wf_auto set_admin_wf from_worker_status_wf : rch.

Lemma schedulable_not_quarantined l :
  is_schedulable l = true ->
  eligibility l ≠ TemporaryBypass /\ eligibility l ≠ RecoveredPendingCanary.
Proof. destruct l as [[] [] b]; naive_solver. Qed.

(** ** Rejoining after a quarantine *)

Definition no_bypass (ops : list auto_op) : Prop := forall c, EnterBypass c ∉ ops.

(** A recovery probe, later a promotion, and no failure-class bypass after the
    probe. *)
Definition canary_path (ops : list auto_op) : Prop :=
  exists o1 o2 o3,
    ops = o1 ++ RecoverToCanary :: o2 ++ PromoteFromCanary :: o3
    /\ no_bypass o2 /\ no_bypass o3.

(** A promotion with no failure-class bypass on either side. *)
Definition promotion_path (ops : list auto_op) : Prop :=
  exists o2 o3, ops = o2 ++ PromoteFromCanary :: o3 /\ no_bypass o2 /\ no_bypass o3.

(** What a run that ends schedulable must contain, by where it starts. *)
Definition rejoin_from (e : EligibilityState) (ops : list auto_op) : Prop :=
  match e with
  | TemporaryBypass => canary_path ops
  | RecoveredPendingCanary =>
      canary_path ops \/ promotion_path ops
  | _ => canary_path ops \/ no_bypass ops
  end.

Lemma canary_path_cons op ops : canary_path ops -> canary_path (op :: ops).
Proof. intros (o1 & o2 & o3 & -> & H2 & H3). by exists (op :: o1), o2, o3. Qed.

Lemma no_bypass_cons op ops :
  (forall c, op ≠ EnterBypass c) -> no_bypass ops -> no_bypass (op :: ops).
Proof. intros Hop H c [Hc|Hc]%elem_of_cons; [by apply (Hop c)|by apply (H c)]. Qed.

Lemma no_bypass_nil : no_bypass [].
Proof. intros c H. by apply not_elem_of_nil in H. Qed.

Lemma promotion_path_cons op ops :
  (forall c, op ≠ EnterBypass c) -> promotion_path ops -> promotion_path (op :: ops).
Proof.
  intros Hop (o2 & o3 & -> & H2 & H3). exists (op :: o2), o3.
  auto using no_bypass_cons.
Qed.

Lemma promotion_path_here ops : no_bypass ops -> promotion_path (PromoteFromCanary :: ops).
Proof. intros H. exists [], ops. auto using no_bypass_nil. Qed.

Lemma promotion_path_recovered ops : promotion_path ops -> canary_path (RecoverToCanary :: ops).
Proof. intros (o2 & o3 & -> & ?). by exists [], o2, o3. Qed.

#[local] Hint Resolve promotion_path_cons promotion_path_here promotion_path_recovered : rch.
#[local] Hint Resolve canary_path_cons no_bypass_cons no_bypass_nil : rch.
#[local] Hint Extern 1 (_ ≠ EnterBypass _) => discriminate : rch.
#[local] Hint Extern 1 False => discriminate : rch.

Lemma rejoin_trace ops l :
  is_schedulable (auto_run ops l) = true -> rejoin_from (eligibility l) ops.
Proof.
  revert l. induction ops as [|op ops IH]; intros l H.
  { apply schedulable_not_quarantined in H as [? ?]. destruct l as [a [] b]; cbn in *; auto with rch; done. }
  cbn in H. apply IH in H. destruct l as [a e b].
  destruct op as [st|c| |]; cbn in H |- *;
    unfold observe_health, recover_to_canary, promote_from_canary in H; cbn in H.
  - destruct st, e; cbn in H |- *; destruct_or?; auto with rch.
  - destruct e; cbn; auto with rch.
  - case_bool_decide; destruct e; cbn in H |- *; try done; destruct_or?; auto with rch.
  - case_bool_decide; destruct e; cbn in H |- *; try done; destruct_or?; auto with rch.
Qed.

(** A quarantined worker never rejoins on its own luck.  Whatever sequence of
    health observations, failures and recovery steps follows a bypass, if the
    worker is schedulable at the end then a recovery probe succeeded, a canary
    promotion followed it, no failure class was recorded after that probe, and the
    operator's intent is the one it had (Active): the automatic path never edits
    the inventory axis. *)
Theorem quarantine_rejoin_needs_canary ops l :
  eligibility l = TemporaryBypass -> is_schedulable (auto_run ops l) = true ->
  canary_path ops /\ admin l = Active.
Proof.
  intros He H. split.
  - by apply rejoin_trace in H; rewrite He in H.
  - rewrite <- (auto_run_admin ops l). unfold is_schedulable in H.
    apply andb_prop in H as [H _]. by apply bool_decide_eq_true in H.
Qed.

Lemma quarantine_rejoin_needs_canary_witness :
  let l := enter_bypass Ssh new in
  let ops := [Observe StHealthy; RecoverToCanary; Observe StHealthy; PromoteFromCanary] in
  is_schedulable (auto_run ops l) = true /\ canary_path ops /\ admin l = Active.
Proof.
  intros l ops. split; [reflexivity|].
  apply (quarantine_rejoin_needs_canary ops l); reflexivity.
Defined.

(** The two-axis lifecycle and the legacy single-axis status give the same
    scheduling answer (healthy or degraded), a schedulable worker passes the
    reservation guard, a canary-pending one does not, and the translation from
    the legacy status round-trips. *)
Theorem schedulable_iff_legacy l :
  is_schedulable l
    = bool_decide (legacy_status l = StHealthy \/ legacy_status l = StDegraded)
  /\ (is_schedulable l = true -> lifecycle_accepts_new_builds l = true)
  /\ (is_canary_pending l = true ->
        lifecycle_accepts_new_builds l = false /\ legacy_status l = StUnreachable)
  /\ forall st, legacy_status (from_worker_status st) = st.
Proof.
  destruct l as [[] [] b]; split_and!; try done; intros []; done.
Qed.

End WorkerLifecycle.
