(* ===== verification/Worker.v ===== *)
(** * One worker (rchd/src/workers.rs, [WorkerState])

    The slot counter, the circuit, the drain bookkeeping, and every method run
    without interference; SlotRace.v interleaves the same methods step by step. *)

From stdpp Require Import base gmap list strings.
From Stdlib Require Import ZArith Lia.
From S2P Require Import Prelude Circuit Lifecycle.
Import WorkerLifecycle.

Module WorkerState.

Record WorkerConfig := {
  id : string;
  host : string;
  user : string;
  identity_file : string;
  total_slots : Z;   (* u32 *)
  priority : Z;      (* u32 *)
  tags : list string;
}.

Inductive DrainCompletionAction :=
  | StayDrained
  | RemoveFromPool
  | Disable (reason : option string).

#[export] Instance DrainCompletionAction_eq_dec : EqDecision DrainCompletionAction.
Proof. solve_decision. Defined.

(** The fields the methods below read or write; the benchmark score, the latency,
    the capabilities, the toolchain cache and the pressure assessment are stored
    and returned unread. *)
Record t := {
  config : WorkerConfig;
  life : lifecycle;
  used_slots : Z;                        (* AtomicU32 *)
  cached_projects : list string;
  circuit : CircuitStats.t;
  last_error_msg : option string;
  disabled_reason : option string;
  drain_completion : DrainCompletionAction;
  disabled_at : Z;                       (* AtomicI64, 0 encodes None *)
}.

Definition with_config (v : WorkerConfig) (w : t) : t :=
  {| config := v; life := life w; used_slots := used_slots w;
     cached_projects := cached_projects w; circuit := circuit w;
     last_error_msg := last_error_msg w; disabled_reason := disabled_reason w;
     drain_completion := drain_completion w; disabled_at := disabled_at w |}.
Definition with_life (v : lifecycle) (w : t) : t :=
  {| config := config w; life := v; used_slots := used_slots w;
     cached_projects := cached_projects w; circuit := circuit w;
     last_error_msg := last_error_msg w; disabled_reason := disabled_reason w;
     drain_completion := drain_completion w; disabled_at := disabled_at w |}.
Definition with_used (v : Z) (w : t) : t :=
  {| config := config w; life := life w; used_slots := v;
     cached_projects := cached_projects w; circuit := circuit w;
     last_error_msg := last_error_msg w; disabled_reason := disabled_reason w;
     drain_completion := drain_completion w; disabled_at := disabled_at w |}.
Definition with_cached (v : list string) (w : t) : t :=
  {| config := config w; life := life w; used_slots := used_slots w;
     cached_projects := v; circuit := circuit w;
     last_error_msg := last_error_msg w; disabled_reason := disabled_reason w;
     drain_completion := drain_completion w; disabled_at := disabled_at w |}.
Definition with_circuit (v : CircuitStats.t) (w : t) : t :=
  {| config := config w; life := life w; used_slots := used_slots w;
     cached_projects := cached_projects w; circuit := v;
     last_error_msg := last_error_msg w; disabled_reason := disabled_reason w;
     drain_completion := drain_completion w; disabled_at := disabled_at w |}.
Definition with_error (v : option string) (w : t) : t :=
  {| config := config w; life := life w; used_slots := used_slots w;
     cached_projects := cached_projects w; circuit := circuit w;
     last_error_msg := v; disabled_reason := disabled_reason w;
     drain_completion := drain_completion w; disabled_at := disabled_at w |}.
Definition with_disabled (reason : option string) (at_secs : Z) (w : t) : t :=
  {| config := config w; life := life w; used_slots := used_slots w;
     cached_projects := cached_projects w; circuit := circuit w;
     last_error_msg := last_error_msg w; disabled_reason := reason;
     drain_completion := drain_completion w; disabled_at := at_secs |}.
Definition with_completion (v : DrainCompletionAction) (w : t) : t :=
  {| config := config w; life := life w; used_slots := used_slots w;
     cached_projects := cached_projects w; circuit := circuit w;
     last_error_msg := last_error_msg w; disabled_reason := disabled_reason w;
     drain_completion := v; disabled_at := disabled_at w |}.

Definition new (c : WorkerConfig) : timed t :=
  stats ← CircuitStats.new;
  mret {| config := c; life := WorkerLifecycle.new; used_slots := 0;
          cached_projects := []; circuit := stats; last_error_msg := None;
          disabled_reason := None; drain_completion := StayDrained; disabled_at := 0 |}.

Definition current_unix_secs_for_disabled_at : timed Z :=
  secs ← read_clock; mret (Z.max secs 1).

Definition update_config (new_config : WorkerConfig) (w : t) : t :=
  let w1 := with_config new_config w in
  if bool_decide (drain_completion w1 = RemoveFromPool) then
    let w2 := with_completion StayDrained w1 in
    match admin (life w2) with
    | Draining | Drained => with_life (set_admin Active (life w2)) w2
    | _ => w2
    end
  else w1.

Definition status (w : t) : WorkerStatus := legacy_status (life w).

Definition set_status (st : WorkerStatus) (w : t) : t := with_life (from_worker_status st) w.

Definition apply_health_status (health_status : WorkerStatus) (w : t) : WorkerStatus * t :=
  let l :=
    match health_status_to_eligibility health_status with
    | Some e => snd (observe_health e (life w))
    | None => life w
    end in
  (legacy_status l, with_life l w).

Definition enter_bypass (class : BypassFailureClass) (w : t) : t :=
  with_life (WorkerLifecycle.enter_bypass class (life w)) w.

Definition recover_to_canary : method t IllegalLifecycleTransition unit := fun w =>
  let (r, l) := WorkerLifecycle.recover_to_canary (life w) in (r, with_life l w).

Definition promote_from_canary : method t IllegalLifecycleTransition unit := fun w =>
  let (r, l) := WorkerLifecycle.promote_from_canary (life w) in (r, with_life l w).

Definition available_slots (w : t) : Z :=
  sat_sub (total_slots (config w)) (used_slots w).

Definition is_draining (w : t) : bool :=
  match admin (life w) with Draining => true | _ => false end.

(** The part of [check_drain_complete] behind its guard; a second read of the
    guard under the lock sees the same values when nothing interferes. *)
Definition check_drain_complete (w : t) : timed t :=
  if negb (used_slots w =? 0) || negb (is_draining w) then mret w
  else
    match drain_completion w with
    | StayDrained | RemoveFromPool => mret (with_life (set_admin Drained (life w)) w)
    | Disable reason =>
        let w1 := with_life (set_admin Disabled (life w)) w in
        now ← current_unix_secs_for_disabled_at;
        mret (with_completion StayDrained (with_disabled reason now w1))
    end.

Definition release_slots (count : Z) (w : t) : timed t :=
  check_drain_complete (with_used (sat_sub (used_slots w) count) w).

Definition reserve_slots (count : Z) (w : t) : timed (bool * t) :=
  if count =? 0 then mret (false, w)
  else if negb (lifecycle_accepts_new_builds (life w)) then mret (false, w)
  else if total_slots (config w) <? sat_add 32 (used_slots w) count then mret (false, w)
  else
    let w1 := with_used (wadd 32 (used_slots w) count) w in
    if lifecycle_accepts_new_builds (life w1) then mret (true, w1)
    else w2 ← release_slots count w1; mret (false, w2).

Definition add_cached_project (project : string) (w : t) : t :=
  if bool_decide (project ∈ cached_projects w) then w
  else
    let cache := cached_projects w in
    let cache := if Nat.leb 100 (length cache) then tail cache else cache in
    with_cached (cache ++ [project]) w.

Definition has_cached_project (project : string) (w : t) : bool :=
  existsb (String.eqb project) (cached_projects w).

Definition record_success (w : t) : t :=
  with_circuit (CircuitStats.record_success (circuit w)) w.

Definition record_failure (error_msg : option string) (w : t) : t :=
  let w1 := with_circuit (CircuitStats.record_failure (circuit w)) w in
  match error_msg with Some msg => with_error (Some msg) w1 | None => w1 end.

Definition start_probe (cfg : CircuitStats.CircuitBreakerConfig) (w : t) : bool * t :=
  let (ok, c) := CircuitStats.start_probe cfg (circuit w) in (ok, with_circuit c w).

Definition open_circuit (w : t) : timed t :=
  c ← CircuitStats.open (circuit w); mret (with_circuit c w).

Definition half_open_circuit (w : t) : timed t :=
  c ← CircuitStats.half_open (circuit w); mret (with_circuit c w).

Definition close_circuit (w : t) : timed t :=
  c ← CircuitStats.close (circuit w); mret (with_error None (with_circuit c w)).

Definition set_error (msg : string) (w : t) : t := with_error (Some msg) w.

Definition record_health_check (healthy transient : bool)
    (cfg : CircuitStats.CircuitBreakerConfig) (w : t)
    : timed ((CircuitStats.CircuitState * CircuitStats.CircuitState) * t) :=
  let previous := CircuitStats.state (circuit w) in
  c ← CircuitStats.apply_health_outcome healthy transient cfg (circuit w);
  mret ((previous, CircuitStats.state c), with_circuit c w).

Definition disable (reason : option string) (w : t) : timed t :=
  now ← current_unix_secs_for_disabled_at;
  mret (with_disabled reason now
          (with_life (set_admin Disabled (life w)) (with_completion StayDrained w))).

Definition start_drain (completion : DrainCompletionAction) (w : t) : timed t :=
  check_drain_complete
    (with_life (set_admin Draining (life w)) (with_completion completion w)).

Definition drain (w : t) : timed t := start_drain StayDrained w.
Definition drain_for_removal (w : t) : timed t := start_drain RemoveFromPool w.
Definition drain_then_disable (reason : option string) (w : t) : timed t :=
  start_drain (Disable reason) w.

Definition enable (w : t) : timed t :=
  let w1 := with_life WorkerLifecycle.new (with_completion StayDrained w) in
  c ← CircuitStats.close (circuit w1);
  mret (with_error None (with_circuit c (with_disabled None 0 w1))).

Definition remove_after_drain_pending (w : t) : bool :=
  match drain_completion w with RemoveFromPool => true | _ => false end.

(** ** Slots and drains, one method at a time *)

(** Slot counts and capacities are u32 values. *)
Definition slots_u32 (w : t) : Prop :=
  is_u32 (used_slots w) /\ is_u32 (total_slots (config w)).

(** A worker to evaluate the methods on. *)
Definition sample_worker (total used : Z) : t :=
  {| config := {| id := "css"; host := "203.0.113.20"; user := "ubuntu";
                  identity_file := "~/.ssh/id_rsa"; total_slots := total;
                  priority := 100; tags := [] |};
     life := WorkerLifecycle.new; used_slots := used; cached_projects := [];
     circuit := fst (CircuitStats.new (fun _ => 0) 0%nat);
     last_error_msg := None; disabled_reason := None;
     drain_completion := StayDrained; disabled_at := 0 |}.

(** An uncontended [reserve_slots] succeeds exactly when the request is not
    empty, the lifecycle accepts new builds and the slots fit; it then adds exactly
    the request, and a refusal changes nothing.  The capacity has to be below
    [u32::MAX]: the test saturates and the increment wraps, and they disagree
    there. *)
Theorem reserve_slots_spec count w c n :
  slots_u32 w -> is_u32 count -> total_slots (config w) < U32_MAX ->
  let ok := negb (count =? 0) && lifecycle_accepts_new_builds (life w)
            && (used_slots w + count <=? total_slots (config w)) in
  reserve_slots count w c n
  = ((ok, if ok then with_used (used_slots w + count) w else w), n).
Proof.
  intros [Hu Ht] Hc Hm. unfold reserve_slots, in_u, U32_MAX in *.
  destruct (Z.eqb_spec count 0); cbn [negb andb]; [done|].
  destruct (lifecycle_accepts_new_builds (life w)) eqn:Hl; cbn [negb andb]; [|done].
  unfold sat_add. destruct (Z.ltb_spec (total_slots (config w))
                              (Z.min (used_slots w + count) (2 ^ 32 - 1))).
  - destruct (Z.leb_spec (used_slots w + count) (total_slots (config w))); [lia|done].
  - destruct (Z.leb_spec (used_slots w + count) (total_slots (config w))); [|lia].
    cbn. rewrite Hl, wadd_small by lia. done.
Qed.

Lemma reserve_slots_spec_witness :
  reserve_slots 3 (sample_worker 4 1) (fun _ => 0) 0%nat
  = ((true, with_used 4 (sample_worker 4 1)), 0%nat).
Proof.
  apply (reserve_slots_spec 3 (sample_worker 4 1)); unfold slots_u32, in_u, U32_MAX; cbn; lia.
Defined.

(** At a capacity of [u32::MAX] a full worker accepts one more build and its
    counter wraps to zero. *)
Example reserve_slots_wraps_at_max :
  fst (fst (reserve_slots 1 (sample_worker U32_MAX U32_MAX) (fun _ => 0) 0%nat)) = true
  /\ used_slots (snd (fst (reserve_slots 1 (sample_worker U32_MAX U32_MAX) (fun _ => 0) 0%nat))) = 0.
Proof. vm_compute. done. Qed.

Fixpoint release_all (counts : list Z) (w : t) : timed t :=
  match counts with
  | [] => mret w
  | count :: rest => w1 ← release_slots count w; release_all rest w1
  end.

(** The worker [w] while a [drain_then_disable reason] waits for its builds. *)
Definition disabling (reason : option string) (w : t) : Prop :=
  admin (life w) = Draining /\ drain_completion w = Disable reason /\ 0 < used_slots w.

Definition disabled_with (reason : option string) (w : t) : Prop :=
  admin (life w) = Disabled /\ disabled_reason w = reason /\ 1 <= disabled_at w
  /\ drain_completion w = StayDrained /\ used_slots w = 0.

Lemma release_disabling reason count w c n :
  disabling reason w -> 0 <= count ->
  let w' := fst (release_slots count w c n) in
  if used_slots w <=? count then disabled_with reason w'
  else disabling reason w' /\ used_slots w' = used_slots w - count.
Proof.
  intros (Ha & Hd & Hu) Hc. unfold release_slots, check_drain_complete, is_draining. cbn.
  rewrite Ha, Hd. unfold sat_sub. destruct (Z.leb_spec (used_slots w) count).
  - replace (_ =? 0) with true by lia. unfold current_unix_secs_for_disabled_at.
    cbn [orb negb]. unmonad. unfold disabled_with. cbn. split_and!; try done; lia.
  - replace (_ =? 0) with false by lia. cbn.
    unfold disabling. cbn. split_and!; try done; lia.
Qed.

Lemma release_disabled reason count w c n :
  disabled_with reason w -> 0 <= count ->
  disabled_with reason (fst (release_slots count w c n)).
Proof.
  intros (Ha & Hr & Ht & Hd & Hu) Hc. unfold release_slots, check_drain_complete, is_draining. cbn.
  rewrite Ha, orb_true_r. cbn. unfold disabled_with, sat_sub. cbn. split_and!; try done; lia.
Qed.

(** A worker asked to drain and then be disabled is disabled with the
    operator's reason as soon as the builds it was running have given their slots
    back, in whatever portions, and keeps draining with the exact remaining count
    until then. *)
Theorem drain_then_disable_completes reason counts w c n :
  0 < used_slots w -> Forall (Z.le 0) counts ->
  let r := drain_then_disable reason w c n in
  let w' := fst (release_all counts (fst r) c (snd r)) in
  if used_slots w <=? sumZ counts then disabled_with reason w'
  else disabling reason w' /\ used_slots w' = used_slots w - sumZ counts.
Proof.
  intros Hu Hcs r.
  assert (Hr : disabling reason (fst r) /\ used_slots (fst r) = used_slots w).
  { subst r. unfold drain_then_disable, start_drain, check_drain_complete. cbn.
    replace (used_slots w =? 0) with false by lia. by unfold disabling. }
  destruct r as [w0 n0]; cbn [fst snd] in *. destruct Hr as [Hr <-]. clear Hu w n.
  revert w0 n0 Hr. induction Hcs as [|count counts Hc Hcs IH]; intros w n Hr.
  { cbn. destruct (Z.leb_spec (used_slots w) 0); [destruct Hr as (_ & _ & ?); lia|].
    split; [done|]. cbn. lia. }
  cbn -[Z.leb]. unmonad.
  pose proof (release_disabling reason count w c n Hr Hc) as H1.
  destruct (release_slots count w c n) as [w1 n1]; cbn [fst snd] in *.
  pose proof (sumZ_nonneg counts Hcs) as Hs.
  destruct (Z.leb_spec (used_slots w) count).
  - assert (Hd : disabled_with reason (fst (release_all counts w1 c n1))).
    { clear -H1 Hcs. revert w1 n1 H1. induction Hcs as [|x l Hx Hl IH]; intros w n H; [done|].
      cbn. unmonad. pose proof (release_disabled reason x w c n H Hx).
      destruct (release_slots x w c n). auto. }
    destruct (Z.leb_spec (used_slots w) (count + sumZ counts)); [done|lia].
  - destruct H1 as [Hd1 Hu1]. specialize (IH w1 n1 Hd1). rewrite Hu1 in IH.
    destruct (Z.leb_spec (used_slots w - count) (sumZ counts)),
             (Z.leb_spec (used_slots w) (count + sumZ counts)); try lia; [done|].
    destruct IH as [? ->]. split; [done|lia].
Qed.

Lemma drain_then_disable_completes_witness :
  let r := drain_then_disable (Some "maintenance") (sample_worker 4 3) (fun _ => 7) 0%nat in
  disabled_with (Some "maintenance") (fst (release_all [1; 2] (fst r) (fun _ => 7) (snd r))).
Proof.
  apply (drain_then_disable_completes (Some "maintenance") [1; 2] (sample_worker 4 3));
    [cbn; lia|repeat constructor; lia].
Defined.

(** ** Every method of a worker *)

(** The calls of the type, with their arguments. *)
Inductive call :=
  | UpdateConfig (c : WorkerConfig) | SetStatus (st : WorkerStatus)
  | ApplyHealthStatus (st : WorkerStatus) | BypassWith (class : BypassFailureClass)
  | Recover | Promote
  | Reserve (count : Z) | Release (count : Z) | AddProject (project : string)
  | Succeeded | Failed (error_msg : option string)
  | HealthCheck (healthy transient : bool) (cfg : CircuitStats.CircuitBreakerConfig)
  | StartProbe (cfg : CircuitStats.CircuitBreakerConfig)
  | OpenCircuit | HalfOpenCircuit | CloseCircuit | SetError (msg : string)
  | DisableNow (reason : option string) | StartDrain (completion : DrainCompletionAction)
  | EnableNow | CheckDrain.

Definition perform (k : call) (w : t) : timed t :=
  match k with
  | UpdateConfig c => mret (update_config c w)
  | SetStatus st => mret (set_status st w)
  | ApplyHealthStatus st => mret (snd (apply_health_status st w))
  | BypassWith class => mret (enter_bypass class w)
  | Recover => mret (snd (recover_to_canary w))
  | Promote => mret (snd (promote_from_canary w))
  | Reserve count => r ← reserve_slots count w; mret (snd r)
  | Release count => release_slots count w
  | AddProject project => mret (add_cached_project project w)
  | Succeeded => mret (record_success w)
  | Failed error_msg => mret (record_failure error_msg w)
  | HealthCheck healthy transient cfg => r ← record_health_check healthy transient cfg w; mret (snd r)
  | StartProbe cfg => mret (snd (start_probe cfg w))
  | OpenCircuit => open_circuit w
  | HalfOpenCircuit => half_open_circuit w
  | CloseCircuit => close_circuit w
  | SetError msg => mret (set_error msg w)
  | DisableNow reason => disable reason w
  | StartDrain completion => start_drain completion w
  | EnableNow => enable w
  | CheckDrain => check_drain_complete w
  end.

Fixpoint perform_all (ks : list call) (w : t) : timed t :=
  match ks with
  | [] => mret w
  | k :: ks => w1 ← perform k w; perform_all ks w1
  end.

(** Slot arguments are u32 values. *)
Definition call_u32 (k : call) : Prop :=
  match k with Reserve count | Release count => is_u32 count | _ => True end.

(** What holds of a worker whatever its callers do: the counter stays a u32, a
    recorded bypass cause means a bypass, the cache is duplicate free and bounded,
    the history of the circuit is bounded, and an open circuit knows when it
    opened, so that its cooldown can end. *)
Record wf (w : t) : Prop := {
  wf_used : is_u32 (used_slots w);
  wf_life : WorkerLifecycle.wf (life w);
  wf_cache : NoDup (cached_projects w) /\ (length (cached_projects w) <= 100)%nat;
  wf_circuit : CircuitStats.recoverable (circuit w);
}.

(** Appending a new element after dropping the oldest one of a full list. *)
Lemma push_bounded {A} (bound : nat) (x : A) l :
  (0 < bound)%nat -> NoDup l -> (length l <= bound)%nat -> x ∉ l ->
  let l' := (if Nat.leb bound (length l) then tail l else l) ++ [x] in
  NoDup l' /\ (length l' <= bound)%nat.
Proof.
  intros Hb Hn Hl Hx.
  assert (Hsnoc : forall k, NoDup k -> x ∉ k -> NoDup (k ++ [x])).
  { intros k Hk Hxk. apply NoDup_app. split; [done|]. split; [|apply NoDup_singleton].
    by intros y Hy ->%list_elem_of_singleton. }
  destruct (Nat.leb_spec bound (length l)); cbn zeta iota.
  - destruct l as [|q l]; cbn [tail length] in *; [lia|].
    apply NoDup_cons in Hn as [_ Hn]. apply not_elem_of_cons in Hx as [_ Hx].
    split; [auto|]. rewrite length_app. cbn. lia.
  - split; [auto|]. rewrite length_app. cbn. lia.
Qed.

Lemma add_cached_project_wf project w : wf w -> wf (add_cached_project project w).
Proof.
  intros [Hu Hl [Hn Hlen] Hc]. unfold add_cached_project. case_bool_decide as Hin; [done|].
  constructor; auto. apply (push_bounded 100); [lia|done..].
Qed.

Lemma check_drain_complete_wf w c n : wf w -> wf (fst (check_drain_complete w c n)).
Proof.
  intros [Hu Hl Hp Hc]. unfold check_drain_complete.
  destruct (_ || _); [done|].
  destruct (drain_completion w); constructor; cbn -[WorkerLifecycle.wf]; auto with rch.
Qed.

Lemma release_slots_wf count w c n :
  is_u32 count -> wf w -> wf (fst (release_slots count w c n)).
Proof.
  intros Hk [Hu Hl Hp Hc]. apply check_drain_complete_wf. constructor; cbn; auto.
  unfold in_u, sat_sub in *. lia.
Qed.

Lemma reserve_slots_wf count w c n :
  is_u32 count -> wf w -> wf (snd (fst (reserve_slots count w c n))).
Proof.
  intros Hk Hw. unfold reserve_slots. do 3 (case_match; [done|]).
  assert (wf (with_used (wadd 32 (used_slots w) count) w)) as Hw1.
  { destruct Hw. constructor; cbn; auto with rch. }
  destruct (lifecycle_accepts_new_builds _); [done|]. unmonad.
  pose proof (release_slots_wf count _ c n Hk Hw1).
  by destruct (release_slots count _ c n).
Qed.

Lemma update_config_wf cfg w : wf w -> wf (update_config cfg w).
Proof.
  intros [Hu Hl Hp Hc]. unfold update_config.
  repeat case_match; constructor; cbn -[WorkerLifecycle.wf]; auto with rch.
Qed.

(** Updates of the lifecycle and of the circuit that keep their own invariants. *)
Lemma with_life_wf l w : WorkerLifecycle.wf l -> wf w -> wf (with_life l w).
Proof. intros ? []. by constructor. Qed.

Lemma with_circuit_wf s w : CircuitStats.recoverable s -> wf w -> wf (with_circuit s w).
Proof. intros ? []. by constructor. Qed.

Lemma with_error_wf e w : wf w -> wf (with_error e w).
Proof. intros []. by constructor. Qed.

#[local] Hint Resolve CircuitStats.record_success_recoverable
  CircuitStats.record_failure_recoverable CircuitStats.open_recoverable
  CircuitStats.half_open_recoverable CircuitStats.close_recoverable
  CircuitStats.apply_health_outcome_recoverable : rch.
#[local] Hint Resolve with_life_wf with_circuit_wf with_error_wf wf_circuit wf_life
  update_config_wf add_cached_project_wf check_drain_complete_wf release_slots_wf : rch.

Lemma apply_health_status_wf st w : wf w -> wf (snd (apply_health_status st w)).
Proof. intros Hw. apply with_life_wf; [apply (wf_auto (Observe st))|]; auto with rch. Qed.

Lemma enter_bypass_wf class w : wf w -> wf (enter_bypass class w).
Proof. intros Hw. apply with_life_wf; [apply (wf_auto (EnterBypass class))|]; auto with rch. Qed.

Lemma recover_to_canary_wf w : wf w -> wf (snd (recover_to_canary w)).
Proof.
  intros Hw. pose proof (wf_auto RecoverToCanary _ (wf_life w Hw)) as H. cbn in H.
  unfold recover_to_canary.
  destruct (WorkerLifecycle.recover_to_canary (life w)); cbn in *; auto with rch.
Qed.

Lemma promote_from_canary_wf w : wf w -> wf (snd (promote_from_canary w)).
Proof.
  intros Hw. pose proof (wf_auto PromoteFromCanary _ (wf_life w Hw)) as H. cbn in H.
  unfold promote_from_canary.
  destruct (WorkerLifecycle.promote_from_canary (life w)); cbn in *; auto with rch.
Qed.

Lemma failed_wf e w : wf w -> wf (record_failure e w).
Proof. intros Hw. unfold record_failure. destruct e; auto with rch. Qed.

Lemma start_probe_wf cfg w : wf w -> wf (snd (start_probe cfg w)).
Proof.
  intros Hw. unfold start_probe.
  pose proof (CircuitStats.start_probe_recoverable cfg _ (wf_circuit w Hw)) as H.
  destruct (CircuitStats.start_probe cfg (circuit w)); cbn in *; auto with rch.
Qed.

Lemma admin_call_wf a d w : wf w -> wf (with_life (set_admin a (life w)) (with_completion d w)).
Proof. intros []. by constructor. Qed.

#[local] Hint Resolve apply_health_status_wf enter_bypass_wf recover_to_canary_wf
  promote_from_canary_wf failed_wf start_probe_wf : rch.

Lemma perform_wf k w : call_u32 k -> wf w -> always wf (perform k w).
Proof.
  intros Hk Hw. pose proof (wf_circuit w Hw) as Hc.
  destruct k; cbn [perform call_u32] in *; 
    try (apply always_ret; unfold set_status, record_success, set_error; auto with rch; fail).
  - apply always_bind with (fun r => wf (snd r));
      [intros ? ?; by apply reserve_slots_wf|auto using always_ret].
  - intros ? ?. auto with rch.
  - apply always_bind with (fun r => wf (snd r)); [|auto using always_ret].
    apply always_bind with CircuitStats.recoverable; [intros ? ?; auto with rch|].
    intros s Hs. apply always_ret. cbn. auto with rch.
  - apply always_bind with CircuitStats.recoverable; [intros ? ?; auto with rch|].
    auto using always_ret, with_circuit_wf.
  - apply always_bind with CircuitStats.recoverable; [intros ? ?; auto with rch|].
    auto using always_ret, with_circuit_wf.
  - apply always_bind with CircuitStats.recoverable; [intros ? ?; auto with rch|].
    auto using always_ret, with_circuit_wf, with_error_wf.
  - intros ? ?. destruct (admin_call_wf Disabled StayDrained w Hw). by constructor.
  - intros ? ?. apply check_drain_complete_wf, admin_call_wf, Hw.
  - apply always_bind with CircuitStats.recoverable; [intros ? ?; cbn; auto with rch|].
    intros s Hs. apply always_ret, with_error_wf, with_circuit_wf; [done|].
    destruct Hw. constructor; cbn; auto. split; [by intros []|done].
  - intros ? ?. auto with rch.
Qed.

Lemma new_wf cfg : always wf (new cfg).
Proof.
  intros c n. constructor.
  - apply zero_in_u. lia.
  - apply (from_worker_status_wf StHealthy).
  - split; [apply NoDup_nil_2|apply Nat.le_0_l].
  - split; [apply Nat.le_0_l|done].
Qed.

(** Whatever sequence of methods a worker serves after its creation, at any
    clock readings, its slot counter is a u32 value, it records a bypass cause
    exactly while it is bypassed, its project cache has no duplicates and at most a
    hundred entries, its circuit history holds at most ten results, and an open
    circuit has its opening time, without which its cooldown would never end. *)
Theorem worker_wf ks cfg :
  Forall call_u32 ks -> always wf (w ← new cfg; perform_all ks w).
Proof.
  intros Hks. apply always_bind with wf; [apply new_wf|].
  induction Hks as [|k ks Hk Hks IH]; intros w Hw; cbn; [by apply always_ret|].
  apply always_bind with wf; [by apply perform_wf|done].
Qed.

Lemma worker_wf_witness :
  wf (fst ((w ← new (config (sample_worker 4 0));
            perform_all [Reserve 3; HealthCheck false false CircuitStats.default_config;
                         AddProject "p"; StartDrain (Disable None); Release 3] w)
             (fun _ => 9) 0%nat)).
Proof. apply worker_wf. repeat constructor; cbn; lia. Defined.

End WorkerState.
