(* ===== verification/Pool.v ===== *)
(** * The daemon's table of workers (rchd/src/workers.rs, [WorkerPool]) *)

From stdpp Require Import base gmap list strings.
From Stdlib Require Import ZArith Lia.
From S2P Require Import Prelude Circuit Lifecycle Worker.
Import WorkerLifecycle WorkerState.

Module WorkerPool.

Record t := {
  workers : gmap string WorkerState.t;
  worker_count : Z;   (* AtomicUsize *)
}.

Definition new : t := {| workers := ∅; worker_count := 0 |}.

(** Without interference the second look under the write lock sees what the first
    one saw, so the two existing-worker branches are one. *)
Definition add_worker (c : WorkerConfig) (p : t) : timed t :=
  match workers p !! id c with
  | Some existing =>
      mret {| workers := <[id c := update_config c existing]> (workers p);
              worker_count := worker_count p |}
  | None =>
      w ← WorkerState.new c;
      mret {| workers := <[id c := w]> (workers p);
              worker_count := wadd 64 (worker_count p) 1 |}
  end.

Definition remove_worker (i : string) (p : t) : bool * t :=
  match workers p !! i with
  | Some _ => (true, {| workers := delete i (workers p);
                        worker_count := wsub 64 (worker_count p) 1 |})
  | None => (false, p)
  end.

Definition set_status (i : string) (st : WorkerStatus) (p : t) : t :=
  {| workers := alter (WorkerState.set_status st) i (workers p);
     worker_count := worker_count p |}.

Definition release_slots (i : string) (slots : Z) (p : t) : timed t :=
  match workers p !! i with
  | Some w =>
      w' ← WorkerState.release_slots slots w;
      mret {| workers := <[i := w']> (workers p); worker_count := worker_count p |}
  | None => mret p
  end.

Definition healthy_workers (p : t) : gmap string WorkerState.t :=
  filter (fun '(_, w) => status w = StHealthy \/ status w = StDegraded) (workers p).

(** The removal test of both passes of [prune_drained]. *)
Definition should_remove (w : WorkerState.t) : bool :=
  bool_decide (status w = StDrained) && (used_slots w =? 0) && remove_after_drain_pending w.

(** First pass: visit the snapshot in the map's iteration order, let every
    finished drain complete, and collect the workers to remove. *)
Fixpoint prune_scan (order : list string) (m : gmap string WorkerState.t)
    : timed (list string * gmap string WorkerState.t) :=
  match order with
  | [] => mret ([], m)
  | i :: rest =>
      match m !! i with
      | None => prune_scan rest m
      | Some w =>
          w' ← check_drain_complete w;
          r ← prune_scan rest (<[i := w']> m);
          mret (if should_remove w' then i :: fst r else fst r, snd r)
      end
  end.

(** Second pass, under the write lock: check again and remove. *)
Fixpoint prune_remove (to_remove : list string) (m : gmap string WorkerState.t) (count : Z)
    : timed (Z * gmap string WorkerState.t) :=
  match to_remove with
  | [] => mret (count, m)
  | i :: rest =>
      match m !! i with
      | None => prune_remove rest m count
      | Some w =>
          w' ← check_drain_complete w;
          if should_remove w' then prune_remove rest (delete i m) (count + 1)
          else prune_remove rest (<[i := w']> m) count
      end
  end.

(** [order] is the iteration order of the hash map, which the code does not fix. *)
Definition prune_drained (order : list string) (p : t) : timed (Z * t) :=
  scan ← prune_scan order (workers p);
  removed ← prune_remove (fst scan) (snd scan) 0;
  let count := fst removed in
  mret (count, {| workers := snd removed;
                  worker_count := if 0 <? count then wsub 64 (worker_count p) count
                                  else worker_count p |}).

(** ** Invariant: the synchronous counter is the size of the table *)
Definition wf (p : t) : Prop := worker_count p = Z.of_nat (size (workers p)).

(** A removed-from-config worker whose builds are all done. *)
Definition prunable (w : WorkerState.t) : bool :=
  (used_slots w =? 0) && remove_after_drain_pending w
  && match admin (life w) with Draining | Drained => true | _ => false end.

Lemma check_should_remove w c n :
  should_remove (fst (check_drain_complete w c n)) = prunable w.
Proof.
  unfold check_drain_complete, current_unix_secs_for_disabled_at, should_remove, prunable,
    status, is_draining,
    remove_after_drain_pending.
  destruct w as [cfg [a e b] u ca ci le dr dc da]; cbn.
  destruct (u =? 0) eqn:Hu; [destruct a, dc, e|destruct a, e]; unmonad; cbn; rewrite ?Hu; done.
Qed.

Lemma check_prunable w c n :
  prunable (fst (check_drain_complete w c n)) = prunable w.
Proof.
  unfold check_drain_complete, current_unix_secs_for_disabled_at, prunable, is_draining,
    remove_after_drain_pending.
  destruct w as [cfg [a e b] u ca ci le dr dc da]; cbn.
  destruct (u =? 0) eqn:Hu; [destruct a, dc|destruct a]; unmonad; cbn; rewrite ?Hu; done.
Qed.

Lemma check_busy w c n : used_slots w ≠ 0 -> check_drain_complete w c n = (w, n).
Proof. intros. unfold check_drain_complete. by replace (used_slots w =? 0) with false by lia. Qed.

(** What pruning does to one entry: gone, or present with the completion of its
    drain applied. *)
Definition pruned_entry (o o' : option WorkerState.t) : Prop :=
  match o with
  | None => o' = None
  | Some w =>
      if prunable w then o' = None
      else exists w', o' = Some w' /\ prunable w' = false
                      /\ (used_slots w ≠ 0 -> w' = w)
  end.

Lemma prune_scan_spec order m c n :
  NoDup order ->
  let r := fst (prune_scan order m c n) in
  (forall i, i ∈ fst r <-> i ∈ order /\ exists w, m !! i = Some w /\ prunable w = true)
  /\ NoDup (fst r)
  /\ (forall i, match m !! i with
                | None => snd r !! i = None
                | Some w => exists w', snd r !! i = Some w' /\ prunable w' = prunable w
                                       /\ (used_slots w ≠ 0 -> w' = w)
                end).
Proof.
  intros Hnd. revert m n. induction Hnd as [|i order Hi Hnd IH]; intros m n; cbn.
  { split_and!; [set_solver|constructor|]. intros i. destruct (m !! i); eauto. }
  destruct (m !! i) as [w|] eqn:Hw; unmonad.
  - pose proof (check_should_remove w c n) as Hs. pose proof (check_prunable w c n) as Hp.
    pose proof (check_busy w c n) as Hb.
    destruct (check_drain_complete w c n) as [w1 n1]; cbn [fst snd] in *.
    specialize (IH (<[i:=w1]> m) n1).
    destruct (prune_scan order (<[i:=w1]> m) c n1) as [[ids m'] n2]; cbn [fst snd] in *.
    destruct IH as (H1 & H2 & H3). rewrite Hs. split_and!.
    + intros j. specialize (H1 j). destruct (decide (j = i)) as [->|Hne].
      * rewrite Hw. destruct (prunable w) eqn:Hpw.
        -- split; [|by left]. intros _. split; [by left|eauto].
        -- rewrite H1. split; [by intros [? _]|]. intros (_ & w0 & [= <-] & ?). congruence.
      * rewrite lookup_insert_ne in H1 by done.
        destruct (prunable w); rewrite ?elem_of_cons, H1; intuition congruence.
    + destruct (prunable w); [|done]. constructor; [|done]. rewrite H1. naive_solver.
    + intros j. specialize (H3 j). destruct (decide (j = i)) as [->|Hne].
      * rewrite lookup_insert_eq in H3. rewrite Hw. destruct H3 as (w' & ? & ? & Hu).
        exists w'. split_and!; [done|congruence|]. intros Hu0.
        injection (Hb Hu0) as -> _. auto.
      * by rewrite lookup_insert_ne in H3.
  - specialize (IH m n).
    destruct (prune_scan order m c n) as [[ids m'] n2]; cbn [fst snd] in *.
    destruct IH as (H1 & H2 & H3). split_and!; [|done|done].
    intros j. rewrite H1, elem_of_cons. split; [intuition|].
    intros [[->|?] Hex]; [|done]. destruct Hex as (w & ? & ?). congruence.
Qed.

Lemma prune_remove_spec ids m count c n :
  NoDup ids -> (forall i, i ∈ ids -> exists w, m !! i = Some w /\ prunable w = true) ->
  let r := fst (prune_remove ids m count c n) in
  fst r = count + Z.of_nat (length ids)
  /\ (forall i, snd r !! i = if bool_decide (i ∈ ids) then None else m !! i)
  /\ Z.of_nat (size (snd r)) = Z.of_nat (size m) - Z.of_nat (length ids).
Proof.
  intros Hnd. revert m count n. induction Hnd as [|i ids Hi Hnd IH]; intros m count n Hp; cbn.
  { split_and!; [lia| |lia]. intros i. by rewrite bool_decide_eq_false_2 by set_solver. }
  destruct (Hp i) as (w & Hw & Hpw); [set_solver|]. rewrite Hw. unmonad.
  pose proof (check_should_remove w c n) as Hs.
  destruct (check_drain_complete w c n) as [w1 n1]; cbn [fst snd] in *.
  rewrite Hs, Hpw. specialize (IH (delete i m) (count + 1) n1).
  destruct IH as (H1 & H2 & H3).
  { intros j Hj. rewrite lookup_delete_ne by set_solver. apply Hp. set_solver. }
  rewrite H1. split_and!; [lia| |].
  - intros j. rewrite H2. destruct (decide (j = i)) as [->|Hne].
    + rewrite lookup_delete_eq. case_bool_decide; by rewrite bool_decide_eq_true_2 by set_solver.
    + rewrite lookup_delete_ne by done.
      by rewrite (bool_decide_ext (j ∈ ids) (j ∈ i :: ids)) by set_solver.
  - rewrite H3, map_size_delete, Hw. destruct (size m) eqn:Hsz; [|cbn; lia].
    apply map_size_empty_inv in Hsz as ->. by rewrite lookup_empty in Hw.
Qed.

(** An iteration order of a map: each key once. *)
Definition iteration_order (m : gmap string WorkerState.t) (order : list string) : Prop :=
  NoDup order /\ forall i, is_Some (m !! i) -> i ∈ order.

Lemma prune_drained_ok order p c n :
  wf p -> iteration_order (workers p) order -> Z.of_nat (size (workers p)) < 2 ^ 64 ->
  let r := fst (prune_drained order p c n) in
  wf (snd r)
  /\ (0 <= fst r /\ fst r = Z.of_nat (size (workers p)) - Z.of_nat (size (workers (snd r))))
  /\ forall i, pruned_entry (workers p !! i) (workers (snd r) !! i).
Proof.
  intros Hwf [Hnd Hall] Hsz. unfold prune_drained. unmonad.
  pose proof (prune_scan_spec order (workers p) c n Hnd) as Hscan.
  destruct (prune_scan order (workers p) c n) as [[ids m] n1]; cbn [fst snd] in *.
  destruct Hscan as (Hids & Hndi & Hm).
  assert (Hsize : size m = size (workers p)).
  { rewrite <- !size_dom. f_equal. apply set_eq. intros i. rewrite !elem_of_dom.
    specialize (Hm i). destruct (workers p !! i) as [w|]; [|by rewrite Hm].
    destruct Hm as (w' & -> & _). split; eauto. }
  pose proof (prune_remove_spec ids m 0 c n1 Hndi) as Hrem.
  destruct (prune_remove ids m 0 c n1) as [[cnt m'] n2]; cbn [fst snd] in *.
  destruct Hrem as (Hcnt & Hlook & Hsz').
  { intros i (_ & w & Hw & Hp)%Hids. specialize (Hm i). rewrite Hw in Hm.
    destruct Hm as (w' & ? & ? & _). exists w'. split; congruence. }
  split_and!.
  - unfold wf in *. cbn. destruct (Z.ltb_spec 0 cnt); [|lia].
    unfold wsub. rewrite wrap_small; [lia|]. unfold in_u. lia.
  - cbn. lia.
  - cbn. lia.
  - intros i. cbn. rewrite Hlook. specialize (Hm i). unfold pruned_entry.
    destruct (workers p !! i) as [w|] eqn:Hw.
    + destruct Hm as (w' & Hw' & Hp & Hu). destruct (prunable w) eqn:Hpw.
      * rewrite bool_decide_eq_true_2; [done|]. apply Hids. split; [eauto|].
        by exists w.
      * rewrite bool_decide_eq_false_2; [exists w'; split_and!; [done|congruence|done]|].
        intros (_ & w0 & ? & ?)%Hids. congruence.
    + by case_bool_decide.
Qed.

(** Pruning removes exactly the workers that left the configuration and have
    no build running, whatever order the hash map is visited in; a worker with
    used slots is left as it was, every other survivor has had its finished drain
    applied, and both the returned count and the synchronous counter agree with
    the table. *)
Theorem prune_drained_spec order p c n :
  wf p -> iteration_order (workers p) order -> Z.of_nat (size (workers p)) < 2 ^ 64 ->
  let r := fst (prune_drained order p c n) in
  wf (snd r)
  /\ (0 <= fst r /\ fst r = Z.of_nat (size (workers p)) - Z.of_nat (size (workers (snd r))))
  /\ forall i, pruned_entry (workers p !! i) (workers (snd r) !! i).
Proof. apply prune_drained_ok. Qed.

Definition sample_pool : t :=
  {| workers := <["idle" := with_completion RemoveFromPool
                              (with_life (set_admin Draining WorkerLifecycle.new)
                                         (sample_worker 4 0))]>
                (<["busy" := with_completion RemoveFromPool
                              (with_life (set_admin Draining WorkerLifecycle.new)
                                         (sample_worker 4 2))]> ∅);
     worker_count := 2 |}.

Lemma prune_drained_spec_witness :
  wf sample_pool
  /\ forall i, pruned_entry (workers sample_pool !! i)
       (workers (snd (fst (prune_drained ["idle"; "busy"] sample_pool (fun _ => 5) 0%nat))) !! i).
Proof.
  split; [reflexivity|].
  apply (prune_drained_spec ["idle"; "busy"] sample_pool (fun _ => 5) 0%nat).
  - reflexivity.
  - split.
    + repeat constructor; set_solver.
    + intros i [w Hw]. cbn in Hw. rewrite !lookup_insert_Some in Hw. set_solver.
  - vm_compute. done.
Defined.

(** ** Every reachable pool counts its workers exactly *)
Inductive pool_step (c : clock) : t * nat -> t * nat -> Prop :=
  | step_add cfg p n :
      Z.of_nat (size (workers p)) < U64_MAX -> pool_step c (p, n) (add_worker cfg p c n)
  | step_remove i p n : pool_step c (p, n) (snd (remove_worker i p), n)
  | step_status i st p n : pool_step c (p, n) (set_status i st p, n)
  | step_release i k p n : pool_step c (p, n) (release_slots i k p c n)
  | step_prune order p n :
      iteration_order (workers p) order ->
      pool_step c (p, n) (snd (fst (prune_drained order p c n)), snd (prune_drained order p c n)).

(** The table never outgrows the counter's type. *)
Definition counted (s : t * nat) : Prop :=
  wf (fst s) /\ Z.of_nat (size (workers (fst s))) <= U64_MAX.

Lemma size_insert_same (m : gmap string WorkerState.t) i w w' :
  m !! i = Some w -> size (<[i := w']> m) = size m.
Proof. intros H. apply map_size_insert_Some. by rewrite H. Qed.

Lemma pool_step_counted c s s' : counted s -> pool_step c s s' -> counted s'.
Proof.
  unfold counted, wf, U64_MAX. intros [Hwf Hsz] Hstep. destruct Hstep as
    [cfg p n Hroom|i p n|i st p n|i k p n|order p n Hord]; cbn [fst snd] in *.
  - unfold add_worker. destruct (workers p !! id cfg) eqn:Hw; unmonad.
    + cbn. rewrite (size_insert_same _ _ _ _ Hw). lia.
    + destruct (WorkerState.new cfg c n) as [w n']. cbn. rewrite map_size_insert_None by done. rewrite wadd_small by (unfold U64_MAX in *; lia).
      unfold U64_MAX in *. lia.
  - unfold remove_worker. destruct (workers p !! i) eqn:Hw; cbn; [|lia].
    rewrite map_size_delete, Hw. unfold wsub. rewrite wrap_small; unfold in_u.
    + destruct (size (workers p)) eqn:E; [|cbn; lia].
      apply map_size_empty_inv in E. rewrite E, lookup_empty in Hw. done.
    + destruct (size (workers p)) eqn:E; [|lia].
      apply map_size_empty_inv in E. rewrite E, lookup_empty in Hw. done.
  - cbn. rewrite <- size_dom, dom_alter_L, size_dom. lia.
  - unfold release_slots. destruct (workers p !! i) as [w|] eqn:Hw; unmonad; [|cbn; lia].
    destruct (WorkerState.release_slots k w c n) as [w' n']. cbn.
    rewrite (size_insert_same _ _ _ _ Hw). lia.
  - pose proof (prune_drained_ok order p c n Hwf Hord) as H.
    unfold wf in H. destruct H as (H1 & [H2 H3] & _); lia.
Qed.

(** In every state the daemon can reach from an empty pool by adding,
    removing, re-statusing, releasing and pruning workers in any order, the
    synchronous worker count is the number of workers in the table. *)
Theorem pool_count_exact c p n : rtc (pool_step c) (new, 0%nat) (p, n) -> wf p.
Proof.
  intros H. eapply (invariant_rtc (pool_step c) counted) in H; [apply H| |].
  - apply pool_step_counted.
  - unfold counted, wf, U64_MAX. cbn. rewrite map_size_empty. lia.
Qed.

Lemma pool_count_exact_witness :
  wf (fst (add_worker (config (sample_worker 4 0)) new (fun _ => 0) 0%nat)).
Proof.
  apply (pool_count_exact (fun _ => 0) _ (snd (add_worker (config (sample_worker 4 0)) new (fun _ => 0) 0%nat))).
  apply rtc_once. apply (step_add _ (config (sample_worker 4 0)) new 0%nat). vm_compute. done.
Defined.

End WorkerPool.
