(* ===== verification/SlotRace.v ===== *)
(** * Slot reservation, release and drain under interleaving (rchd/src/workers.rs)

    The daemon serves many builds and operator commands on one worker at once.
    This file splits [reserve_slots], [release_slots], [check_drain_complete] and
    the operator methods of Worker.v into the accesses they make to shared memory
    (one atomic operation, one lock acquisition or one guarded write per step) and
    interleaves any number of callers in any order.

    The slot counter is one atomic cell and its operations are taken in the order
    of that cell; [lock] is the writer of the lifecycle lock, the only guard held
    across more than one access.  Readers of the lifecycle wait for it.  A thread
    is one call: a reservation that succeeded stays at [Held] until its build
    finishes, and only then gives its slots back, once. *)

From stdpp Require Import base list strings relations.
From Stdlib Require Import ZArith Lia.
From S2P Require Import Prelude Circuit Lifecycle Worker.
Import WorkerLifecycle WorkerState.

(** ** Shared memory and program counters *)

Record shared := {
  total : Z;                          (* config.total_slots *)
  used : Z;                           (* used_slots *)
  cycle : lifecycle;                  (* lifecycle *)
  completion : DrainCompletionAction; (* drain_completion *)
  why_disabled : option string;       (* disabled_reason *)
  lock : option nat;                  (* the lifecycle write guard, by thread *)
  peak : Z;                           (* ghost: the largest capacity configured so far *)
}.

Definition with_used_slots (v : Z) (s : shared) : shared :=
  {| total := total s; used := v; cycle := cycle s; completion := completion s;
     why_disabled := why_disabled s; lock := lock s; peak := peak s |}.
Definition with_cycle (v : lifecycle) (s : shared) : shared :=
  {| total := total s; used := used s; cycle := v; completion := completion s;
     why_disabled := why_disabled s; lock := lock s; peak := peak s |}.
Definition with_comp (v : DrainCompletionAction) (s : shared) : shared :=
  {| total := total s; used := used s; cycle := cycle s; completion := v;
     why_disabled := why_disabled s; lock := lock s; peak := peak s |}.
Definition with_why (v : option string) (s : shared) : shared :=
  {| total := total s; used := used s; cycle := cycle s; completion := completion s;
     why_disabled := v; lock := lock s; peak := peak s |}.
Definition with_lock (v : option nat) (s : shared) : shared :=
  {| total := total s; used := used s; cycle := cycle s; completion := completion s;
     why_disabled := why_disabled s; lock := v; peak := peak s |}.
Definition with_total (v : Z) (s : shared) : shared :=
  {| total := v; used := used s; cycle := cycle s; completion := completion s;
     why_disabled := why_disabled s; lock := lock s; peak := Z.max (peak s) v |}.

Inductive pc :=
  (* reserve_slots *)
  | RsvLoad (count : Z) | RsvLife (count cur : Z) | RsvTotal (count cur : Z)
  | RsvCas (count cur : Z) | RsvRecheck (count : Z)
  (* the build runs *)
  | Held (count : Z)
  (* release_slots, as a rollback or after a build *)
  | RelLoad (rollback : bool) (count : Z) | RelCas (rollback : bool) (count cur : Z)
  (* check_drain_complete *)
  | ChkLoad | ChkAdmin | ChkCompletion | ChkLock (comp : DrainCompletionAction)
  | ChkAdmin2 (comp : DrainCompletionAction) | ChkLoad2 (comp : DrainCompletionAction)
  | ChkSet (comp : DrainCompletionAction)
  | ChkReason (reason : option string) | ChkClear
  (* drain, drain_for_removal, drain_then_disable *)
  | DrainComp (comp : DrainCompletionAction) | DrainAdmin
  (* disable *)
  | DisComp (reason : option string) | DisAdmin (reason : option string)
  | DisReason (reason : option string)
  (* enable *)
  | EnComp | EnLife | EnReason
  (* apply_health_status, enter_bypass, recover_to_canary, promote_from_canary *)
  | LifeOp (op : auto_op)
  (* update_config *)
  | CfgWrite (new_total : Z) | CfgComp | CfgAdmin
  | Done.

(** Waiting for the lifecycle lock blocks the thread. *)
Definition unlocked (s : shared) (r : shared * pc) : option (shared * pc) :=
  match lock s with None => Some r | Some _ => None end.

(** [reserve_slots], access by access; [Held] is its [true]. *)
Definition reserve_step (s : shared) (p : pc) : option (shared * pc) :=
  match p with
  | RsvLoad count =>
      if count =? 0 then Some (s, Done) else Some (s, RsvLife count (used s))
  | RsvLife count cur =>
      unlocked s (s, if lifecycle_accepts_new_builds (cycle s) then RsvTotal count cur else Done)
  | RsvTotal count cur =>
      Some (s, if total s <? sat_add 32 cur count then Done else RsvCas count cur)
  | RsvCas count cur =>
      if used s =? cur then Some (with_used_slots (wadd 32 cur count) s, RsvRecheck count)
      else Some (s, RsvLife count (used s))
  | RsvRecheck count =>
      unlocked s (s, if lifecycle_accepts_new_builds (cycle s) then Held count
                     else RelLoad true count)
  | _ => None
  end.

(** [release_slots]; it ends in [check_drain_complete]. *)
Definition release_step (s : shared) (p : pc) : option (shared * pc) :=
  match p with
  | RelLoad rollback count => Some (s, RelCas rollback count (used s))
  | RelCas rollback count cur =>
      if used s =? cur then Some (with_used_slots (sat_sub cur count) s, ChkLoad)
      else Some (s, RelCas rollback count (used s))
  | _ => None
  end.

(** [check_drain_complete]; the lifecycle write guard is held from [ChkAdmin2] to
    [ChkSet]. *)
Definition check_step (i : nat) (s : shared) (p : pc) : option (shared * pc) :=
  match p with
  | ChkLoad => Some (s, if used s =? 0 then ChkAdmin else Done)
  | ChkAdmin =>
      unlocked s (s, if bool_decide (admin (cycle s) = Draining) then ChkCompletion else Done)
  | ChkCompletion => Some (s, ChkLock (completion s))
  | ChkLock comp => unlocked s (with_lock (Some i) s, ChkAdmin2 comp)
  | ChkAdmin2 comp =>
      Some (if bool_decide (admin (cycle s) = Draining) then (s, ChkLoad2 comp)
            else (with_lock None s, Done))
  | ChkLoad2 comp =>
      Some (if used s =? 0 then (s, ChkSet comp) else (with_lock None s, Done))
  | ChkSet comp =>
      Some match comp with
           | StayDrained | RemoveFromPool =>
               (with_lock None (with_cycle (set_admin Drained (cycle s)) s), Done)
           | Disable reason =>
               (with_lock None (with_cycle (set_admin Disabled (cycle s)) s), ChkReason reason)
           end
  | ChkReason reason => Some (with_why reason s, ChkClear)
  | ChkClear => Some (with_comp StayDrained s, Done)
  | _ => None
  end.

(** [disable], the three [drain] methods and [enable]. *)
Definition admin_step (s : shared) (p : pc) : option (shared * pc) :=
  match p with
  | DrainComp comp => Some (with_comp comp s, DrainAdmin)
  | DrainAdmin => unlocked s (with_cycle (set_admin Draining (cycle s)) s, ChkLoad)
  | DisComp reason => Some (with_comp StayDrained s, DisAdmin reason)
  | DisAdmin reason =>
      unlocked s (with_cycle (set_admin Disabled (cycle s)) s, DisReason reason)
  | DisReason reason => Some (with_why reason s, Done)
  | EnComp => Some (with_comp StayDrained s, EnLife)
  | EnLife => unlocked s (with_cycle WorkerLifecycle.new s, EnReason)
  | EnReason => Some (with_why None s, Done)
  | _ => None
  end.

(** [update_config]. *)
Definition config_step (s : shared) (p : pc) : option (shared * pc) :=
  match p with
  | CfgWrite new_total => Some (with_total new_total s, CfgComp)
  | CfgComp =>
      Some (if bool_decide (completion s = RemoveFromPool)
            then (with_comp StayDrained s, CfgAdmin) else (s, Done))
  | CfgAdmin =>
      unlocked s (match admin (cycle s) with
                  | Draining | Drained => with_cycle (set_admin Active (cycle s)) s
                  | _ => s
                  end, Done)
  | _ => None
  end.

(** One access of thread [i]: the method its program counter is in decides. *)
Definition tstep (i : nat) (s : shared) (p : pc) : option (shared * pc) :=
  match p with
  | RsvLoad _ | RsvLife _ _ | RsvTotal _ _ | RsvCas _ _ | RsvRecheck _ => reserve_step s p
  | Held count => Some (s, RelLoad false count)
  | RelLoad _ _ | RelCas _ _ _ => release_step s p
  | ChkLoad | ChkAdmin | ChkCompletion | ChkLock _ | ChkAdmin2 _ | ChkLoad2 _ | ChkSet _
  | ChkReason _ | ChkClear => check_step i s p
  | DrainComp _ | DrainAdmin | DisComp _ | DisAdmin _ | DisReason _
  | EnComp | EnLife | EnReason => admin_step s p
  | LifeOp op => unlocked s (with_cycle (auto op (cycle s)) s, Done)
  | CfgWrite _ | CfgComp | CfgAdmin => config_step s p
  | Done => None
  end.

(** The calls that may start at any time. *)
Inductive entry : pc -> Prop :=
  | entry_reserve count : is_u32 count -> entry (RsvLoad count)
  | entry_drain comp : entry (DrainComp comp)
  | entry_disable reason : entry (DisComp reason)
  | entry_enable : entry EnComp
  | entry_life op : entry (LifeOp op)
  | entry_config new_total : is_u32 new_total -> entry (CfgWrite new_total)
  | entry_check : entry ChkLoad.

Definition system : Type := shared * list pc.

Inductive step : system -> system -> Prop :=
  | step_spawn s ts p : entry p -> step (s, ts) (s, ts ++ [p])
  | step_thread s ts i p s' p' :
      ts !! i = Some p -> tstep i s p = Some (s', p') -> step (s, ts) (s', <[i := p']> ts).

Definition initial (capacity : Z) : system :=
  ({| total := capacity; used := 0; cycle := WorkerLifecycle.new; completion := StayDrained;
      why_disabled := None; lock := None; peak := capacity |}, []).

(** ** The invariant *)

(** The slots a thread has added to the counter and not yet given back. *)
Definition owned (p : pc) : Z :=
  match p with
  | RsvRecheck count | Held count | RelLoad _ count | RelCas _ count _ => count
  | _ => 0
  end.

(** A reservation the caller was told succeeded and has not given back. *)
Definition settled (p : pc) : bool :=
  match p with Held _ | RelLoad false _ | RelCas false _ _ => true | _ => false end.

(** The thread holds the lifecycle write guard. *)
Definition critical (p : pc) : bool :=
  match p with ChkAdmin2 _ | ChkLoad2 _ | ChkSet _ => true | _ => false end.

Definition is_set (p : pc) : bool := match p with ChkSet _ => true | _ => false end.

Definition pc_ok (bound : Z) (p : pc) : Prop :=
  match p with
  | RsvLoad count => is_u32 count
  | RsvLife count cur | RsvTotal count cur => 0 < count < 2 ^ 32 /\ is_u32 cur
  | RsvCas count cur => 0 < count /\ 0 <= cur /\ cur + count <= bound
  | RsvRecheck count | Held count | RelLoad _ count | RelCas _ count _ => 0 < count
  | CfgWrite new_total => is_u32 new_total
  | _ => True
  end.

Definition bounded (s : shared) : Prop :=
  0 <= total s <= peak s /\ peak s < U32_MAX /\ 0 <= used s <= peak s.

Record Inv (st : system) : Prop := {
  inv_sum : used (fst st) = sumZ (owned <$> snd st);
  inv_bounded : bounded (fst st);
  inv_pcs : Forall (pc_ok (peak (fst st))) (snd st);
  inv_lock : forall i, lock (fst st) = Some i
                       <-> exists p, snd st !! i = Some p /\ critical p = true;
  inv_idle : admin (cycle (fst st)) = Drained \/ Exists (fun p => is_set p = true) (snd st) ->
             Forall (fun p => settled p = false) (snd st);
}.

Lemma sum_owned_insert ts i p p' :
  ts !! i = Some p ->
  sumZ (owned <$> <[i := p']> ts) = sumZ (owned <$> ts) - owned p + owned p'.
Proof.
  revert i. induction ts as [|q ts IH]; intros [|i] H; simplify_eq/=; [lia|].
  rewrite (IH i H). lia.
Qed.

Lemma pc_ok_mono b b' p : b <= b' -> pc_ok b p -> pc_ok b' p.
Proof. destruct p; cbn; intuition lia. Qed.

Lemma pc_ok_owned b p : pc_ok b p -> 0 <= owned p.
Proof. destruct p; cbn; intuition lia. Qed.

Lemma owned_nonneg b ts : Forall (pc_ok b) ts -> Forall (Z.le 0) (owned <$> ts).
Proof. induction 1; cbn; constructor; eauto using pc_ok_owned. Qed.

Lemma owned_le_sum b ts i p :
  Forall (pc_ok b) ts -> ts !! i = Some p -> owned p <= sumZ (owned <$> ts).
Proof.
  intros H. revert i. induction H as [|q ts Hq Hts IH]; intros [|i] Hi; simplify_eq/=.
  - pose proof (sumZ_nonneg _ (owned_nonneg _ _ Hts)). lia.
  - apply IH in Hi. apply pc_ok_owned in Hq. lia.
Qed.

(** Splits the equation [tstep i s p = Some (s', p')] into the branches of the step. *)
Ltac step_cases H :=
  unfold unlocked in H; repeat (case_match; simplify_eq/=); simplify_eq/=.

(** The largest capacity only grows. *)
Lemma tstep_peak i s p s' p' : tstep i s p = Some (s', p') -> peak s <= peak s'.
Proof. intros H. destruct p; cbn in H; step_cases H; cbn; lia. Qed.

Lemma step_peak st st' : step st st' -> peak (fst st) <= peak (fst st').
Proof. destruct 1; cbn; [lia|by eapply tstep_peak]. Qed.

(** A step moves the counter by what the thread's ownership moves. *)
Lemma tstep_slots i s p s' p' :
  tstep i s p = Some (s', p') -> peak s' < U32_MAX -> bounded s -> pc_ok (peak s) p -> owned p <= used s ->
  used s' = used s - owned p + owned p' /\ bounded s' /\ pc_ok (peak s') p'.
Proof.
  intros H Hlt (Ht & Hp & Hu) Hok Hown. unfold U32_MAX in *.
  destruct p; cbn in H, Hok, Hown; step_cases H;
    unfold bounded, wadd, wrap, sat_sub, sat_add, in_u, U32_MAX in *; cbn;
    rewrite ?Z.mod_small by lia; try lia.
Qed.

(** Nobody takes or drops the lifecycle lock while another thread holds it. *)
Lemma tstep_lock i s p s' p' :
  tstep i s p = Some (s', p') -> (critical p = true <-> lock s = Some i) ->
  (critical p' = true <-> lock s' = Some i)
  /\ forall j, j <> i -> lock s = Some j <-> lock s' = Some j.
Proof.
  intros H Hc. destruct p; cbn in H, Hc; step_cases H; cbn;
    repeat split; intros; try done; try congruence;
    try (destruct Hc as [Hc1 Hc2]; specialize (Hc1 eq_refl); congruence);
    try (destruct Hc as [Hc1 Hc2]; by apply Hc2); by apply Hc.
Qed.

(** A reservation is confirmed only while the lock is free and the worker Active. *)
Lemma tstep_settled i s p s' p' :
  tstep i s p = Some (s', p') -> settled p' = true ->
  settled p = true
  \/ lock s = None /\ admin (cycle s) = Active /\ s' = s /\ is_set p' = false.
Proof.
  intros H Hs. destruct p; cbn in H; step_cases H; try done; try (by left); right.
  unfold lifecycle_accepts_new_builds in *. destruct (admin (cycle s')); naive_solver.
Qed.

(** Only the last step of a drain check makes the worker Drained, and it is
    reached only through a zero counter. *)
Lemma tstep_drained i s p s' p' :
  tstep i s p = Some (s', p') ->
  (admin (cycle s') = Drained -> admin (cycle s) = Drained \/ is_set p = true)
  /\ (is_set p' = true -> used s = 0).
Proof.
  intros H. split.
  - destruct p; cbn in H; step_cases H; cbn; auto; try congruence.
    rewrite auto_admin. auto.
  - destruct p; cbn in H; step_cases H; cbn; try done; lia.
Qed.

Lemma Inv_initial capacity : 0 <= capacity < U32_MAX -> Inv (initial capacity).
Proof.
  intros H. split; cbn; try done.
  - unfold bounded. cbn. lia.
  - intros i. split; [done|]. by intros (p & ? & _).
Qed.

Lemma entry_fresh p b :
  entry p -> pc_ok b p /\ owned p = 0 /\ critical p = false /\ is_set p = false
             /\ settled p = false.
Proof. by destruct 1. Qed.

Lemma Inv_spawn s ts p : entry p -> Inv (s, ts) -> Inv (s, ts ++ [p]).
Proof.
  intros He [Hsum Hb Hpcs Hlock Hidle].
  destruct (entry_fresh p (peak s) He) as (Hok & Ho & Hc & Hset & Hs).
  split; cbn [fst snd] in *; try done.
  - rewrite fmap_app, sumZ_app. cbn. lia.
  - apply Forall_app. auto.
  - intros i. rewrite Hlock. split; intros (q & Hq & Hcq).
    + exists q. split; [by apply lookup_app_l_Some | done].
    + apply lookup_app_Some in Hq as [Hq | [_ Hq]]; [eauto|].
      apply list_lookup_singleton_Some in Hq as [_ <-]. congruence.
  - intros Hd. apply Forall_app. split; [|by constructor].
    apply Hidle. rewrite Exists_app in Hd. destruct Hd as [?|[?|Hd]]; auto.
    apply Exists_cons in Hd as [?|Hd]; [congruence | by apply Exists_nil in Hd].
Qed.

(** Without an owner of slots nobody holds a confirmed reservation. *)
Lemma sum_zero_unsettled b ts :
  Forall (pc_ok b) ts -> sumZ (owned <$> ts) = 0 -> Forall (fun p => settled p = false) ts.
Proof.
  intros Hok Hz. rewrite Forall_lookup. intros i p Hi.
  pose proof (owned_le_sum _ _ _ _ Hok Hi).
  pose proof (Forall_lookup_1 _ _ _ _ Hok Hi) as Hp.
  destruct p as [| | | | |c|[] c|[] c cur| | | | | | | | | | | | | | | | | | | | | |];
    cbn in *; try done; lia.
Qed.

Lemma Inv_idle_step i s ts p s' p' :
  Inv (s, ts) -> ts !! i = Some p -> tstep i s p = Some (s', p') ->
  admin (cycle s') = Drained \/ Exists (fun q => is_set q = true) (<[i := p']> ts) ->
  Forall (fun q => settled q = false) (<[i := p']> ts).
Proof.
  intros [Hsum Hb Hpcs Hlock Hidle] Hi Hstep Hd. cbn [fst snd] in *.
  destruct (tstep_drained _ _ _ _ _ Hstep) as [Hdr Hset].
  assert (Hbefore : Forall (fun q => settled q = false) ts).
  { destruct Hd as [Hd|Hd].
    - apply Hdr in Hd as [Hd|Hd]; [by apply Hidle; left|].
      apply Hidle. right. apply Exists_exists. exists p. split; [|done].
      by eapply list_elem_of_lookup_2.
    - apply Exists_exists in Hd as (q & Hq & Hqs).
      apply list_elem_of_lookup_1 in Hq as (j & Hj).
      destruct (decide (j = i)) as [->|Hne].
      + rewrite list_lookup_insert_eq in Hj by (by eapply lookup_lt_Some).
        simplify_eq. apply (sum_zero_unsettled (peak s)); [done|].
        rewrite <- Hsum. auto.
      + rewrite list_lookup_insert_ne in Hj by congruence.
        apply Hidle. right. apply Exists_exists. exists q. split; [|done].
        by eapply list_elem_of_lookup_2. }
  apply Forall_insert; [done|].
  destruct (settled p') eqn:Hp'; [exfalso | done].
  destruct (tstep_settled _ _ _ _ _ Hstep Hp') as [Hp|(Hfree & Hact & -> & Hnset)].
  { pose proof (Forall_lookup_1 _ _ _ _ Hbefore Hi) as Hp2. cbn in Hp2. congruence. }
  destruct Hd as [Hd|Hd]; [congruence|].
  apply Exists_exists in Hd as (q & Hq & Hqs).
  apply list_elem_of_lookup_1 in Hq as (j & Hj).
  destruct (decide (j = i)) as [->|Hne].
  - rewrite list_lookup_insert_eq in Hj by (by eapply lookup_lt_Some). congruence.
  - rewrite list_lookup_insert_ne in Hj by congruence.
    assert (lock s = Some j) by (apply Hlock; exists q; by destruct q). congruence.
Qed.

Lemma Inv_step st st' : peak (fst st') < U32_MAX -> Inv st -> step st st' -> Inv st'.
Proof.
  intros Hlt HI Hstep. destruct Hstep as [s ts p He | s ts i p s' p' Hi Hstep].
  { by apply Inv_spawn. }
  pose proof (Inv_idle_step i s ts p s' p' HI Hi Hstep) as Hidle'.
  destruct HI as [Hsum Hb Hpcs Hlock _]. cbn [fst snd] in *.
  pose proof (Forall_lookup_1 _ _ _ _ Hpcs Hi) as Hpok.
  pose proof (owned_le_sum _ _ _ _ Hpcs Hi) as Hown.
  destruct (tstep_slots i s p s' p' Hstep Hlt Hb Hpok ltac:(lia)) as (Hu & Hb' & Hok').
  pose proof (tstep_peak _ _ _ _ _ Hstep) as Hpk.
  destruct (tstep_lock i s p s' p' Hstep) as [Hc Hother].
  { rewrite Hlock. split; [eauto|]. intros (q & Hq & ?). congruence. }
  split; cbn [fst snd]; try done.
  - rewrite (sum_owned_insert ts i p p' Hi). lia.
  - apply Forall_insert; [|done]. eapply Forall_impl; [exact Hpcs|].
    intros q Hq. by eapply pc_ok_mono.
  - intros j. destruct (decide (j = i)) as [->|Hne].
    + rewrite <- Hc, list_lookup_insert_eq by (by eapply lookup_lt_Some).
      split; [eauto|]. by intros (q & [= <-] & ?).
    + rewrite <- Hother, Hlock, list_lookup_insert_ne by congruence. done.
Qed.

(** The invariant holds for as long as no capacity is [u32::MAX]. *)
Lemma Inv_reachable capacity st :
  is_u32 capacity -> rtc step (initial capacity) st -> peak (fst st) < U32_MAX -> Inv st.
Proof.
  intros Hc Hr. pattern st. eapply rtc_ind_r; [|intros st1 st2 _ Hs IH Hlt|exact Hr].
  - intros Hp. apply Inv_initial. unfold is_u32, in_u, U32_MAX in *. cbn in *. lia.
  - apply (Inv_step st1); [done| |done]. apply IH. pose proof (step_peak _ _ Hs). lia.
Qed.

(** ** What holds in every interleaving *)

(** C1: While no configured capacity is [u32::MAX], no slot is lost, duplicated or overcommitted.
    However reservations, releases, rollbacks, drains, disables, enables, health updates
    and capacity changes interleave, and as long as the largest capacity the worker has
    had so far is below [u32::MAX], the counter equals the slots the threads in flight
    own and stays between zero and that capacity, so it does not wrap.  (At [u32::MAX] it
    can: [full_worker_wraps].) *)
Theorem slots_conserved capacity s ts :
  is_u32 capacity -> rtc step (initial capacity) (s, ts) -> peak s < U32_MAX ->
  used s = sumZ (owned <$> ts) /\ 0 <= used s <= peak s.
Proof. intros Hc Hr Hp. destruct (Inv_reachable _ _ Hc Hr Hp) as [? (? & ? & ?) _ _ _]. auto. Qed.

(** A drained worker runs nothing, while no configured capacity is [u32::MAX].  In every
    reachable state whose administrative intent is Drained, no caller holds a reservation it
    was told succeeded: a reservation racing with the drain is either seen by the drain
    check or rolled back by the re-check after its compare-and-swap. *)
Theorem drained_means_idle capacity s ts :
  is_u32 capacity -> rtc step (initial capacity) (s, ts) -> peak s < U32_MAX ->
  admin (cycle s) = Drained -> Forall (fun p => settled p = false) ts.
Proof. intros Hc Hr Hp Hd. apply (inv_idle _ (Inv_reachable _ _ Hc Hr Hp)). by left. Qed.

Lemma blocked_on_lock i s p : tstep i s p = None -> p = Done \/ lock s <> None.
Proof.
  intros H. destruct p; cbn in H; unfold unlocked in H; repeat case_match; simplify_eq; auto;
    right; congruence.
Qed.

Lemma critical_steps i s p : critical p = true -> exists s' p', tstep i s p = Some (s', p').
Proof. destruct p; try done; intros _; cbn; repeat case_match; eauto. Qed.

(** The lifecycle lock cannot deadlock the worker.  Whenever a call has not
    finished, it can take its next step, or the thread that holds the lifecycle
    write guard can take its own. *)
Theorem no_deadlock capacity s ts i p :
  is_u32 capacity -> rtc step (initial capacity) (s, ts) -> peak s < U32_MAX ->
  ts !! i = Some p -> p <> Done ->
  exists j q r, ts !! j = Some q /\ tstep j s q = Some r /\ (j = i \/ critical q = true).
Proof.
  intros Hc Hr Hpk Hi Hp. destruct (tstep i s p) as [r|] eqn:Hs; [by exists i, p, r; auto|].
  destruct (blocked_on_lock _ _ _ Hs) as [?|Hl]; [done|].
  destruct (lock s) as [j|] eqn:Hj; [|done].
  apply (inv_lock _ (Inv_reachable _ _ Hc Hr Hpk)) in Hj as (q & Hq & Hqc).
  destruct (critical_steps j s q Hqc) as (s' & p' & Hst). cbn in Hq. eauto 10.
Qed.

(** ** The atomic steps, run alone, are the methods of Worker.v *)

(** Runs thread [i] alone until it returns or its build starts. *)
Fixpoint solo (fuel : nat) (i : nat) (s : shared) (p : pc) : option (shared * pc) :=
  match p with
  | Done | Held _ => Some (s, p)
  | _ =>
      match fuel with
      | O => None
      | S fuel => match tstep i s p with Some (s', p') => solo fuel i s' p' | None => None end
      end
  end.

Definition shared_of (pk : Z) (w : WorkerState.t) : shared :=
  {| total := total_slots (config w); used := used_slots w; cycle := life w;
     completion := drain_completion w; why_disabled := disabled_reason w;
     lock := None; peak := pk |}.

Arguments solo : simpl never.

Definition stopped (p : pc) : bool := match p with Done | Held _ => true | _ => false end.

Lemma solo_stopped fuel i s p : stopped p = true -> solo fuel i s p = Some (s, p).
Proof. by destruct fuel, p. Qed.

Lemma solo_step fuel i s p s' p' :
  stopped p = false -> tstep i s p = Some (s', p') ->
  solo (S fuel) i s p = solo fuel i s' p'.
Proof. intros Hp H. destruct p; try done; unfold solo at 1; fold solo; by rewrite H. Qed.

(** Runs the next access; the equations rewrite the test it makes. *)
Ltac solo_next tac := cbn [Nat.add]; erewrite solo_step; [ | reflexivity | cbn; tac; reflexivity ].

Lemma solo_check fuel pk i w c n :
  solo (10 + fuel) i (shared_of pk w) ChkLoad
  = Some (shared_of pk (fst (check_drain_complete w c n)), Done).
Proof.
  destruct w as [cfg [a e b] u cp ci le dr dc da].
  unfold check_drain_complete, is_draining, shared_of.
  cbn [used_slots life admin drain_completion config disabled_reason Nat.add].
  solo_next idtac. cbn [used].
  destruct (u =? 0) eqn:Hu; cbn [negb orb]; [|by apply solo_stopped].
  solo_next idtac. destruct a; cbn; try by apply solo_stopped.
  do 3 solo_next idtac. cbn. solo_next ltac:(rewrite Hu).
  destruct dc; solo_next idtac; try by apply solo_stopped.
  do 2 solo_next idtac. by apply solo_stopped.
Qed.

Lemma solo_release fuel pk i rollback count w c n :
  solo (12 + fuel) i (shared_of pk w) (RelLoad rollback count)
  = Some (shared_of pk (fst (release_slots count w c n)), Done).
Proof.
  solo_next idtac. solo_next ltac:(rewrite Z.eqb_refl). unfold release_slots.
  rewrite <- (solo_check fuel pk i _ c n). done.
Qed.

Lemma solo_reserve fuel pk i count w c n :
  solo (20 + fuel) i (shared_of pk w) (RsvLoad count)
  = let r := fst (reserve_slots count w c n) in
    Some (shared_of pk (snd r), if fst r then Held count else Done).
Proof.
  unfold reserve_slots. destruct (count =? 0) eqn:Hc.
  { solo_next ltac:(rewrite Hc). by apply solo_stopped. }
  solo_next ltac:(rewrite Hc). solo_next idtac.
  destruct (lifecycle_accepts_new_builds (life w)) eqn:Hl; cbn [negb];
    [|by apply solo_stopped].
  solo_next idtac. cbn [total used shared_of].
  destruct (_ <? _); [by apply solo_stopped|].
  solo_next ltac:(rewrite Z.eqb_refl). cbn [life with_used]. rewrite Hl.
  solo_next ltac:(rewrite Hl). by apply solo_stopped.
Qed.

(** The interleaved steps refine the methods: a thread that runs
    [reserve_slots], [release_slots], [check_drain_complete], a drain, [disable],
    [enable], [update_config] or an automatic lifecycle event without interference
    returns, and leaves the shared memory exactly as the method of Worker.v leaves
    the worker. *)
Theorem solo_refines_methods pk i w c n :
  let run p := solo 20 i (shared_of pk w) p in
  let after w' := Some (shared_of pk w', Done) in
  (forall count, run (RsvLoad count)
     = let r := fst (reserve_slots count w c n) in
       Some (shared_of pk (snd r), if fst r then Held count else Done))
  /\ (forall count b, run (RelLoad b count) = after (fst (release_slots count w c n)))
  /\ run ChkLoad = after (fst (check_drain_complete w c n))
  /\ (forall comp, run (DrainComp comp) = after (fst (start_drain comp w c n)))
  /\ (forall reason, run (DisComp reason) = after (fst (disable reason w c n)))
  /\ run EnComp = after (fst (enable w c n))
  /\ (forall op, run (LifeOp op) = after (with_life (auto op (life w)) w))
  /\ (forall cfg, run (CfgWrite (total_slots cfg))
       = Some (shared_of (Z.max pk (total_slots cfg)) (update_config cfg w), Done)).
Proof.
  intros run after. subst run after. cbn beta. split_and!; intros.
  - apply (solo_reserve 0).
  - apply (solo_release 8).
  - apply (solo_check 10).
  - do 2 solo_next idtac. unfold start_drain. by rewrite <- (solo_check 8 pk i _ c n).
  - do 3 solo_next idtac. by apply solo_stopped.
  - do 3 solo_next idtac. rewrite solo_stopped by done. unfold enable.
    unfold mbind, timed_bind. by destruct (CircuitStats.close _ _ _).
  - solo_next idtac. by apply solo_stopped.
  - solo_next idtac. unfold update_config. cbn [drain_completion with_config].
    destruct (drain_completion w) eqn:Hd; solo_next ltac:(rewrite Hd);
      rewrite ?bool_decide_eq_true_2, ?bool_decide_eq_false_2 by done;
      try by apply solo_stopped.
    solo_next idtac. rewrite solo_stopped by done. cbn. by destruct (admin (life w)).
Qed.

(** ** Concrete schedules *)

Inductive event := Spawn (p : pc) | Run (i : nat).

Definition entryb (p : pc) : bool :=
  match p with
  | RsvLoad count => in_ub 32 count
  | DrainComp _ | DisComp _ | EnComp | LifeOp _ | ChkLoad => true
  | CfgWrite new_total => in_ub 32 new_total
  | _ => false
  end.

Fixpoint run_schedule (es : list event) (st : system) : option system :=
  match es with
  | [] => Some st
  | Spawn p :: es => if entryb p then run_schedule es (fst st, snd st ++ [p]) else None
  | Run i :: es =>
      match snd st !! i with
      | None => None
      | Some p =>
          match tstep i (fst st) p with
          | None => None
          | Some (s', p') => run_schedule es (s', <[i := p']> (snd st))
          end
      end
  end.

Lemma entryb_entry p : entryb p = true -> entry p.
Proof.
  destruct p; cbn; try done; intros H; constructor.
  - by apply in_ub_spec.
  - by apply in_ub_spec.
Qed.

Lemma run_schedule_rtc es st st' : run_schedule es st = Some st' -> rtc step st st'.
Proof.
  revert st. induction es as [|[p|i] es IH]; intros [s ts] H; cbn in H.
  - by simplify_eq.
  - destruct (entryb p) eqn:He; [|done]. eapply rtc_l; [|by apply IH].
    by apply step_spawn, entryb_entry.
  - destruct (ts !! i) as [p|] eqn:Hi; [|done].
    destruct (tstep i s p) as [[s' p']|] eqn:Hs; [|done].
    eapply rtc_l; [by eapply step_thread | by apply IH].
Qed.

(** A build holds a slot; the operator drains the worker; the build ends and the
    worker drains. *)
Definition drained_after_build : list event :=
  [Spawn (RsvLoad 1)] ++ repeat (Run 0) 5 ++ [Spawn (DrainComp StayDrained)]
  ++ repeat (Run 1) 3 ++ repeat (Run 0) 10.

Definition drained_state : system :=
  default (initial 0) (run_schedule drained_after_build (initial 4)).

Lemma drained_reachable : rtc step (initial 4) drained_state.
Proof. apply (run_schedule_rtc drained_after_build). vm_compute. reflexivity. Qed.

Lemma drained_means_idle_witness :
  admin (cycle (fst drained_state)) = Drained
  /\ Forall (fun p => settled p = false) (snd drained_state).
Proof.
  split; [vm_compute; reflexivity|].
  apply (drained_means_idle 4 (fst drained_state)).
  - vm_compute. split; congruence.
  - apply drained_reachable.
  - vm_compute. reflexivity.
  - vm_compute. reflexivity.
Defined.

(** One build is running and a second caller has lost its first compare-and-swap. *)
Definition busy_schedule : list event :=
  [Spawn (RsvLoad 2); Spawn (RsvLoad 1); Run 1; Run 1; Run 1] ++ repeat (Run 0) 5 ++ [Run 1].

Definition busy_state : system :=
  default (initial 0) (run_schedule busy_schedule (initial 4)).

Lemma busy_reachable : rtc step (initial 4) busy_state.
Proof. apply (run_schedule_rtc busy_schedule). vm_compute. reflexivity. Qed.

Lemma slots_conserved_witness :
  used (fst busy_state) = 2 /\ used (fst busy_state) = sumZ (owned <$> snd busy_state).
Proof.
  split; [vm_compute; reflexivity|].
  apply (slots_conserved 4 (fst busy_state) (snd busy_state)).
  - vm_compute. split; congruence.
  - apply busy_reachable.
  - vm_compute. reflexivity.
Defined.

Lemma no_deadlock_witness :
  exists j q r, snd busy_state !! j = Some q /\ tstep j (fst busy_state) q = Some r
                /\ (j = 1%nat \/ critical q = true).
Proof.
  apply (no_deadlock 4 (fst busy_state) (snd busy_state) 1 (RsvLife 1 2)).
  - vm_compute. split; congruence.
  - apply busy_reachable.
  - vm_compute. reflexivity.
  - vm_compute. reflexivity.
  - discriminate.
Defined.

(** A plain drain waits for one build.  The build's release reads the recorded
    completion (stay drained) and has not yet taken the lifecycle lock when the
    operator upgrades the drain to drain-then-disable; the release then completes
    the drain with the completion it read before. *)
Definition lost_disable_schedule (reason : option string) : list event :=
  [Spawn (RsvLoad 1)] ++ repeat (Run 0) 5
  ++ [Spawn (DrainComp StayDrained)] ++ repeat (Run 1) 3
  ++ repeat (Run 0) 6
  ++ [Spawn (DrainComp (Disable reason)); Run 2; Run 2]
  ++ repeat (Run 0) 4 ++ [Run 2; Run 2].

(** [drain_then_disable] can be lost.  For every reason there is an
    interleaving in which the call returns, every thread has finished and the
    worker is idle, yet it is Drained instead of Disabled, with the disable still
    recorded as pending: [check_drain_complete] acts on the completion it read
    before it took the lifecycle lock. *)
Theorem drain_then_disable_can_be_lost reason :
  exists s ts, rtc step (initial 4) (s, ts) /\ Forall (eq Done) ts /\ used s = 0
  /\ admin (cycle s) = Drained /\ completion s = Disable reason /\ why_disabled s = None.
Proof.
  eexists _, _. split.
  - apply (run_schedule_rtc (lost_disable_schedule reason)). vm_compute. reflexivity.
  - split; [repeat constructor | done].
Qed.

(** A worker of capacity [u32::MAX] that is full accepts one more slot: the capacity test
    saturates, the addition of the compare-and-swap does not, and the counter is zero while
    two builds run. *)
Theorem full_worker_wraps :
  exists s, rtc step (initial U32_MAX) (s, [Held U32_MAX; Held 1]) /\ used s = 0.
Proof.
  eexists. split.
  - apply (run_schedule_rtc ([Spawn (RsvLoad U32_MAX); Spawn (RsvLoad 1)] ++ repeat (Run 0) 5 ++ repeat (Run 1) 5)).
    vm_compute. reflexivity.
  - reflexivity.
Qed.
