(* ===== verification/Machines.v ===== *)
(** * The four state machines and the local protocol's fallback decision

    [StateMachines] is rabs-action/src/state_machines.rs: build operation,
    publication slot, execution attempt and subscriber delivery, each with its
    [may_transition] relation.  [LocalProtocol] is
    rabs-protocol/src/local_protocol.rs: the version handshake between wrapper and
    edge, and the fallback a wrapper may take after a disconnect, given how far its
    output was exposed. *)

From stdpp Require Import base list strings pretty.
From Stdlib Require Import ZArith Lia.
From S2P Require Import Prelude.

Module StateMachines.

(** ** Histories of a machine *)

Class Machine (S : Type) := {
  may : S -> S -> bool;
  rank : S -> nat;
}.

(** Every transition goes down in rank. *)
Class WellFounded (S : Type) `{Machine S} : Prop :=
  rank_decreases : forall from to, may from to = true -> (rank to < rank from)%nat.

Fixpoint legal {S} `{Machine S} (from : S) (history : list S) : bool :=
  match history with
  | [] => true
  | to :: rest => may from to && legal to rest
  end.

Lemma legal_length {S} `{WellFounded S} (from : S) h :
  legal from h = true -> (length h <= rank from)%nat.
Proof.
  revert from. induction h as [|to h IH]; intros from; cbn; [lia|].
  rewrite andb_true_iff. intros [Hm Hl]. apply rank_decreases in Hm. apply IH in Hl. lia.
Qed.

(** ** Build operation *)

Inductive BuildOperationState :=
  | BCreated | Snapshotting | CargoStarting | CargoRunning | CargoDraining
  | Completed | Cancelled | FailedBeforeStart | FailedAfterObservableCommit
  | LocalFallbackCompleted | AbandonedClient | InternalFailure.

Definition is_terminal (s : BuildOperationState) : bool :=
  negb match s with
       | BCreated | Snapshotting | CargoStarting | CargoRunning | CargoDraining => true
       | _ => false
       end.

Definition build_may_transition (from to : BuildOperationState) : bool :=
  if is_terminal from then false
  else
    match from, to with
    | BCreated, Snapshotting
    | Snapshotting, CargoStarting
    | CargoStarting, CargoRunning
    | CargoRunning, CargoDraining
    | CargoDraining, Completed => true
    | _, (Cancelled | AbandonedClient | InternalFailure) => true
    | (BCreated | Snapshotting | CargoStarting), FailedBeforeStart => true
    | (CargoRunning | CargoDraining), FailedAfterObservableCommit => true
    | (BCreated | Snapshotting | CargoStarting | CargoRunning), LocalFallbackCompleted => true
    | _, _ => false
    end.

#[export] Instance build_machine : Machine BuildOperationState := {
  may := build_may_transition;
  rank s := match s with
            | BCreated => 5%nat | Snapshotting => 4%nat | CargoStarting => 3%nat
            | CargoRunning => 2%nat | CargoDraining => 1%nat | _ => 0%nat
            end;
}.

#[export] Instance build_wellfounded : WellFounded BuildOperationState.
Proof. intros [] []; cbn; intros H; try discriminate; lia. Qed.

(** ** Publication slot *)

Inductive PublicationSlotState := Absent | Executing | Committed.

#[export] Instance PublicationSlotState_eq_dec : EqDecision PublicationSlotState.
Proof. solve_decision. Defined.

Definition slot_may_transition (from to : PublicationSlotState) : bool :=
  match from, to with
  | Absent, Executing | Executing, Committed | Executing, Absent => true
  | _, _ => false
  end.

(** A generation may open and close any number of times, so the slot has no rank
    that bounds its histories; only [Committed] is final. *)
#[export] Instance slot_machine : Machine PublicationSlotState := {
  may := slot_may_transition;
  rank _ := 0%nat;
}.

(** ** Execution attempt *)

Inductive AttemptState :=
  | Created | LeaseOffered | LeaseAccepted | AwaitingInputs | Materializing | Running
  | ProcessExited | HarvestingOutputs | UploadingOutputs | VerifyingOutputs
  | HarvestingCanonicalObservations | VerifyingFailure | PreparedResultOffered
  | AcceptedAsWinner | RejectedAsDuplicate | RejectedAsStale | RejectedAsDivergent
  | Draining | Finished.

Definition attempt_may_transition (from to : AttemptState) : bool :=
  match from, to with
  | Created, LeaseOffered
  | LeaseOffered, LeaseAccepted
  | LeaseAccepted, AwaitingInputs
  | AwaitingInputs, Materializing
  | Materializing, Running
  | Running, ProcessExited => true
  | ProcessExited, (HarvestingOutputs | HarvestingCanonicalObservations) => true
  | HarvestingOutputs, UploadingOutputs
  | UploadingOutputs, VerifyingOutputs
  | VerifyingOutputs, PreparedResultOffered => true
  | HarvestingCanonicalObservations, VerifyingFailure
  | VerifyingFailure, PreparedResultOffered => true
  | PreparedResultOffered,
    (AcceptedAsWinner | RejectedAsDuplicate | RejectedAsStale | RejectedAsDivergent) => true
  | Draining, Finished => true
  | s, Draining => negb match s with Draining | Finished => true | _ => false end
  | _, _ => false
  end.

Definition may_offer (s : AttemptState) : bool :=
  match s with PreparedResultOffered => true | _ => false end.

#[export] Instance attempt_machine : Machine AttemptState := {
  may := attempt_may_transition;
  rank s := match s with
            | Created => 13%nat | LeaseOffered => 12%nat | LeaseAccepted => 11%nat
            | AwaitingInputs => 10%nat | Materializing => 9%nat | Running => 8%nat
            | ProcessExited => 7%nat
            | HarvestingOutputs => 6%nat | UploadingOutputs => 5%nat
            | VerifyingOutputs => 4%nat
            | HarvestingCanonicalObservations => 5%nat | VerifyingFailure => 4%nat
            | PreparedResultOffered => 3%nat
            | AcceptedAsWinner | RejectedAsDuplicate | RejectedAsStale
            | RejectedAsDivergent => 2%nat
            | Draining => 1%nat
            | Finished => 0%nat
            end;
}.

#[export] Instance attempt_wellfounded : WellFounded AttemptState.
Proof. intros [] []; cbn; intros H; try discriminate; lia. Qed.

(** ** Subscriber delivery *)

Inductive SubscriberDeliveryState :=
  | Subscribed | Waiting | StagingPrivateOutputs | EmittingTranscript
  | TranscriptDeliveryUncertain | EmittingStatefulObservable | StatefulDeliveryUncertain
  | DeliveryComplete | Detached.

Definition delivery_may_transition (from to : SubscriberDeliveryState) : bool :=
  match from, to with
  | Subscribed, Waiting
  | Waiting, (StagingPrivateOutputs | EmittingTranscript | EmittingStatefulObservable)
  | StagingPrivateOutputs, (Waiting | EmittingTranscript | EmittingStatefulObservable)
  | EmittingTranscript, (Waiting | TranscriptDeliveryUncertain)
  | TranscriptDeliveryUncertain, (Waiting | Detached)
  | EmittingStatefulObservable, (Waiting | StatefulDeliveryUncertain)
  | StatefulDeliveryUncertain, Waiting
  | Waiting, DeliveryComplete
  | (Subscribed | Waiting | StagingPrivateOutputs), Detached => true
  | _, _ => false
  end.

#[export] Instance delivery_machine : Machine SubscriberDeliveryState := {
  may := delivery_may_transition;
  rank _ := 0%nat;
}.

Record ExposureFrontiers := {
  transcript_exposed : bool;
  stateful_intent_recorded : bool;
}.

Inductive FallbackClass :=
  | SeamlessNonpublishing | LabeledTranscriptRecoveryOnly | NoUncoordinatedFallback.

Definition fallback_class (f : ExposureFrontiers) : FallbackClass :=
  if stateful_intent_recorded f then NoUncoordinatedFallback
  else if transcript_exposed f then LabeledTranscriptRecoveryOnly
  else SeamlessNonpublishing.

(** ** What the machines guarantee *)

Definition success_pipeline : list AttemptState :=
  [LeaseOffered; LeaseAccepted; AwaitingInputs; Materializing; Running; ProcessExited;
   HarvestingOutputs; UploadingOutputs; VerifyingOutputs; PreparedResultOffered].
Definition failure_pipeline : list AttemptState :=
  [LeaseOffered; LeaseAccepted; AwaitingInputs; Materializing; Running; ProcessExited;
   HarvestingCanonicalObservations; VerifyingFailure; PreparedResultOffered].

(** A history that has begun draining can only finish. *)
Lemma legal_draining h : legal Draining h = true -> h = [] \/ h = [Finished].
Proof. destruct h as [|[] [|[] ?]]; cbn; auto; discriminate. Qed.

Definition decided (s : AttemptState) : bool :=
  match s with
  | AcceptedAsWinner | RejectedAsDuplicate | RejectedAsStale | RejectedAsDivergent => true
  | _ => false
  end.

(** An attempt is decided only after a verified offer.  Every legal history
    from creation whose last state is a coordinator decision (winner, duplicate,
    stale or divergent) is the full success pipeline or the full
    deterministic-failure pipeline followed by that decision: no stage can be
    skipped, repeated or reordered. *)
Theorem decision_follows_verified_offer h d :
  legal Created (h ++ [d]) = true -> decided d = true ->
  h = success_pipeline \/ h = failure_pipeline.
Proof.
  intros Hl Hd. unfold success_pipeline, failure_pipeline.
  destruct d; try discriminate.
  all: repeat (destruct h as [|s h]; [cbn in Hl; try discriminate; by auto|];
         destruct s; cbn in Hl; try discriminate;
         try (apply legal_draining in Hl as [?|?]; by destruct h as [|? [|? ?]])).
Qed.

Lemma decision_follows_verified_offer_witness :
  success_pipeline = success_pipeline \/ success_pipeline = failure_pipeline.
Proof.
  apply (decision_follows_verified_offer success_pipeline AcceptedAsWinner); reflexivity.
Defined.

(** Build operations and attempts cannot live forever or get stuck: a build
    operation takes at most five transitions and an attempt at most thirteen, a
    state without successors is exactly a terminal one, and an attempt can always
    drain to [Finished]. *)
Theorem lifetimes_bounded :
  (forall h, legal BCreated h = true -> (length h <= 5)%nat)
  /\ (forall s, is_terminal s = true <-> forall to, build_may_transition s to = false)
  /\ (forall h, legal Created h = true -> (length h <= 13)%nat)
  /\ (forall s, s = Finished <-> forall to, attempt_may_transition s to = false)
  /\ (forall s, s = Finished \/ legal s [Finished] = true \/ legal s [Draining; Finished] = true).
Proof.
  split_and!.
  - intros h. exact (legal_length BCreated h).
  - intros s. split.
    + intros Ht to. unfold build_may_transition. by rewrite Ht.
    + intros Hn. specialize (Hn Cancelled). by destruct s.
  - intros h. exact (legal_length Created h).
  - intros s. split.
    + intros -> []; reflexivity.
    + intros Hn. pose proof (Hn Draining). pose proof (Hn Finished). by destruct s.
  - intros []; cbn; auto.
Qed.

Lemma legal_committed h : legal Committed h = true -> h = [].
Proof. by destruct h as [|[] ?]. Qed.

(** A committed result is final and commits once: in any legal history of a
    publication slot that mentions [Committed], it is the last state, occurs once,
    and was entered from an executing generation. *)
Theorem commit_is_final h1 h2 :
  legal Absent (h1 ++ Committed :: h2) = true ->
  h2 = [] /\ last h1 = Some Executing /\ Committed ∉ h1.
Proof.
  assert (forall s, s <> Committed ->
    legal s (h1 ++ Committed :: h2) = true ->
    h2 = [] /\ last (s :: h1) = Some Executing /\ Committed ∉ h1) as Hgen.
  { induction h1 as [|t h1 IH]; intros s Hs Hl; cbn [app legal] in Hl;
      apply andb_prop in Hl as [Hm Hl].
    - apply legal_committed in Hl as ->. destruct s; cbn in Hm; try discriminate.
      split_and!; [done..|apply not_elem_of_nil].
    - destruct (decide (t = Committed)) as [->|Ht].
      { apply legal_committed in Hl. by destruct h1. }
      destruct (IH t Ht Hl) as (-> & Hlast & Hni). split_and!; [done| |].
      + by rewrite last_cons_cons.
      + apply not_elem_of_cons. by split. }
  intros Hl. destruct h1 as [|t h1]; [done|].
  destruct (Hgen Absent) as (? & Hlast & ?); [done..|]. by rewrite last_cons_cons in Hlast.
Qed.

Lemma commit_is_final_witness :
  last [Executing; Absent; Executing] = Some Executing
  /\ Committed ∉ [Executing; Absent; Executing].
Proof. apply (commit_is_final [Executing; Absent; Executing] []). reflexivity. Defined.

(** After a stateful item became uncertain, a subscriber neither detaches nor
    completes before it has been reconciled back to [Waiting]. *)
Lemma stateful_uncertain_reconciles to h :
  legal StatefulDeliveryUncertain (to :: h) = true -> to = Waiting.
Proof. by destruct to. Qed.

End StateMachines.

Module LocalProtocol.

(** ** Version handshake *)

Definition LocalProtocolVersion : Type := Z. (* u32 *)
Definition CURRENT_LOCAL_PROTOCOL : LocalProtocolVersion := 1.

Record VersionRange := { min : LocalProtocolVersion; max : LocalProtocolVersion }.

Definition range_new (lo hi : Z) : option VersionRange :=
  if hi <? lo then None else Some {| min := lo; max := hi |}.

Definition exactly (v : Z) : VersionRange := {| min := v; max := v |}.

Inductive Negotiation :=
  | Selected (v : LocalProtocolVersion)
  | Refused (wrapper edge : VersionRange).

Definition negotiate (wrapper edge : VersionRange) : Negotiation :=
  let low := if min edge <? min wrapper then min wrapper else min edge in
  let high := if max wrapper <? max edge then max wrapper else max edge in
  if high <? low then Refused wrapper edge else Selected high.

Definition speaks (r : VersionRange) (v : Z) : Prop := min r <= v <= max r.

(** The handshake selects the highest version both sides speak, and refuses,
    with both ranges in hand, exactly when there is none. *)
Theorem negotiate_spec wrapper edge :
  match negotiate wrapper edge with
  | Selected v => speaks wrapper v /\ speaks edge v
      /\ forall v', speaks wrapper v' -> speaks edge v' -> v' <= v
  | Refused w e => w = wrapper /\ e = edge /\ forall v, ~ (speaks wrapper v /\ speaks edge v)
  end.
Proof.
  unfold negotiate, speaks.
  destruct (Z.ltb_spec (min edge) (min wrapper)), (Z.ltb_spec (max wrapper) (max edge));
    match goal with |- context [?a <? ?b] => destruct (Z.ltb_spec a b) end;
    split_and!; intros; try done; lia.
Qed.

(** ** Fallback after a disconnect *)

Inductive FallbackPermission :=
  | SeamlessNonpublishing | LabeledTranscriptRecoveryOnly | NoUncoordinatedFallback.

#[export] Instance FallbackPermission_eq_dec : EqDecision FallbackPermission.
Proof. solve_decision. Defined.

Record SubscriberFrontierReport := {
  transcript_exposed : bool;
  transcript_uncertain : bool;
  stateful_intent_recorded : bool;
  stateful_uncertain : bool;
  last_fully_delivered_seq : Z; (* u64 *)
}.

Definition permitted_fallback (r : SubscriberFrontierReport) : FallbackPermission :=
  if stateful_intent_recorded r || stateful_uncertain r then NoUncoordinatedFallback
  else if transcript_exposed r || transcript_uncertain r then LabeledTranscriptRecoveryOnly
  else SeamlessNonpublishing.

Record FallbackConfig := { labeled_transcript_recovery : bool }.

Inductive FallbackAction :=
  | RunOriginalSeamless
  | DetachAndRunLabeled (boundary_marker : string)
  | ReconnectOrFailCoherently (reason : string).

Definition hex_digit (d : Z) : Ascii.ascii :=
  Ascii.ascii_of_nat (Z.to_nat (if d <? 10 then 48 + d else 87 + d)).

(** The low [digits] hexadecimal digits of [v]; [{:032x}] of a u128 is 32 of them. *)
Fixpoint lower_hex (digits : nat) (v : Z) : string :=
  match digits with
  | O => ""
  | S digits => lower_hex digits (v / 16) +:+ String (hex_digit (v mod 16)) ""
  end.

Definition newline : string := String (Ascii.ascii_of_nat 10) "".

Definition render_boundary_marker (request_id last_delivered_seq : Z) : string :=
  "================ RABS LABELED TRANSCRIPT RECOVERY ================" +:+ newline
  +:+ "build " +:+ lower_hex 32 request_id +:+ ": detached after delivered seq "
  +:+ pretty last_delivered_seq +:+ "." +:+ newline
  +:+ "Output below is a LOCAL RERUN of the original command and may" +:+ newline
  +:+ "repeat or reorder lines shown above this marker." +:+ newline
  +:+ "==================================================================".

Definition decide_fallback (report : SubscriberFrontierReport) (config : FallbackConfig)
    (request_id : Z) : FallbackAction :=
  match permitted_fallback report with
  | SeamlessNonpublishing => RunOriginalSeamless
  | LabeledTranscriptRecoveryOnly =>
      if labeled_transcript_recovery config then
        DetachAndRunLabeled
          (render_boundary_marker request_id (last_fully_delivered_seq report))
      else ReconnectOrFailCoherently
             "transcript exposed and labeled recovery not configured (R104)"
  | NoUncoordinatedFallback =>
      ReconnectOrFailCoherently "stateful commit intent or commit exposed (R97)"
  end.

(** What the wrapper runs locally under an action. *)
Definition reruns_locally (a : FallbackAction) : bool :=
  match a with ReconnectOrFailCoherently _ => false | _ => true end.

(** The rabs-action side of the same table. *)
Definition wire_class (c : StateMachines.FallbackClass) : FallbackPermission :=
  match c with
  | StateMachines.SeamlessNonpublishing => SeamlessNonpublishing
  | StateMachines.LabeledTranscriptRecoveryOnly => LabeledTranscriptRecoveryOnly
  | StateMachines.NoUncoordinatedFallback => NoUncoordinatedFallback
  end.

(** The certain and uncertain signals folded into the two frontiers. *)
Definition frontiers_of (r : SubscriberFrontierReport) : StateMachines.ExposureFrontiers :=
  {| StateMachines.transcript_exposed := transcript_exposed r || transcript_uncertain r;
     StateMachines.stateful_intent_recorded :=
       stateful_intent_recorded r || stateful_uncertain r |}.

(** [r'] has every exposure signal of [r]. *)
Definition exposes_more (r r' : SubscriberFrontierReport) : Prop :=
  (transcript_exposed r || transcript_uncertain r
     -> transcript_exposed r' || transcript_uncertain r')
  /\ (stateful_intent_recorded r || stateful_uncertain r
     -> stateful_intent_recorded r' || stateful_uncertain r').

(** The wrapper reruns a command locally only when that is safe.  The wire-level
    permission is the fallback class of the action-level frontiers with uncertainty
    counted as exposure; no configuration reruns after a stateful signal; a rerun
    after transcript exposure happens only when labeled recovery is configured, and
    then behind the boundary marker naming the last delivered sequence; and more
    exposure never turns a refusal into a rerun. *)
Theorem fallback_never_widens report config request_id :
  let action := decide_fallback report config request_id in
  permitted_fallback report = wire_class (StateMachines.fallback_class (frontiers_of report))
  /\ (stateful_intent_recorded report || stateful_uncertain report ->
        reruns_locally action = false)
  /\ (transcript_exposed report || transcript_uncertain report -> reruns_locally action = true ->
        labeled_transcript_recovery config = true
        /\ action = DetachAndRunLabeled
             (render_boundary_marker request_id (last_fully_delivered_seq report)))
  /\ (forall report', exposes_more report report' -> reruns_locally action = false ->
        reruns_locally (decide_fallback report' config request_id) = false).
Proof.
  unfold decide_fallback, permitted_fallback, StateMachines.fallback_class, frontiers_of.
  destruct report as [te tu si su seq]. cbn.
  split_and!.
  - by destruct te, tu, si, su.
  - by destruct si, su.
  - by destruct te, tu, si, su, config as [[]].
  - intros [te' tu' si' su' seq'] [H1 H2]. cbn in *.
    destruct te, tu, si, su, te', tu', si', su', config as [[]]; cbn in *; tauto.
Qed.

End LocalProtocol.
