(* ===== verification/Transcript.v ===== *)
(** * Transcript delivery across disconnects
    (rabs-protocol/src/transcript_sequencing.rs and reconnect.rs)

    [Reconnect] is the reconciliation of a returning wrapper with the edge's view.
    [Transcript] is the edge's lane (sequence numbers and bounded retention), the
    wrapper's frame reader, and the messages between them.  [Link] composes the
    two over a connection that may drop at any point and an edge that may be
    replaced by a restarted one, and states what the user sees: a prefix of the
    canonical stream, each frame once. *)

From stdpp Require Import base list strings relations.
From Stdlib Require Import ZArith Lia.
From S2P Require Import Prelude Machines.
Import LocalProtocol.

(** [Vec<u8>] and byte slices. *)
Abbreviation bytes := (list Z).

Module Reconnect.

Definition BuildOperationId : Type := Z. (* u128 *)
Definition SubscriberId : Type := Z.     (* u128 *)

Record ResumableToken := {
  request : BuildOperationId;
  subscriber : SubscriberId;
  issued_by_incarnation : Z; (* u128 *)
  secret : bytes;            (* [u8; 32] *)
}.

Record WrapperResumeReport := {
  last_fully_exposed_seq : Z;         (* u64 *)
  possibly_in_flight_seq : option Z;  (* u64 *)
  frontier : SubscriberFrontierReport;
}.

Record EdgeResumeView := {
  canonical_stream_len : Z;   (* u64 *)
  oldest_replayable_seq : Z;  (* u64 *)
  current_incarnation : Z;    (* u128 *)
  named_predecessor_incarnation : option Z;
}.

Inductive ResumeRefusal :=
  | TokenRequestMismatch | TokenSubscriberMismatch | TokenSecretMismatch
  | UnknownIssuerIncarnation | FrontierContradiction | RetentionGap.

Record ResumePlan := {
  resume_from_seq : Z; (* u64 *)
  first_frame_was_in_flight : bool;
}.

(** The checks that bind the token to the caller and to this edge. *)
Definition token_accepted (token : ResumableToken) (expected_request expected_subscriber : Z)
    (expected_secret : bytes) (view : EdgeResumeView) : result ResumeRefusal unit :=
  if negb (request token =? expected_request) then Err TokenRequestMismatch
  else if negb (subscriber token =? expected_subscriber) then Err TokenSubscriberMismatch
  else if bool_decide (secret token ≠ expected_secret) then Err TokenSecretMismatch
  else if (issued_by_incarnation token =? current_incarnation view)
          || bool_decide (named_predecessor_incarnation view
                          = Some (issued_by_incarnation token))
  then Ok tt else Err UnknownIssuerIncarnation.

(** The checks of the reported frontiers against the canonical stream. *)
Definition frontier_accepted (view : EdgeResumeView) (report : WrapperResumeReport)
    : result ResumeRefusal unit :=
  if canonical_stream_len view <? last_fully_exposed_seq report then Err FrontierContradiction
  else
    match possibly_in_flight_seq report with
    | Some in_flight =>
        if negb (in_flight =? wadd 64 (last_fully_exposed_seq report) 1)
           || (canonical_stream_len view <? in_flight)
        then Err FrontierContradiction else Ok tt
    | None => Ok tt
    end.

Definition reconcile (token : ResumableToken) (expected_request expected_subscriber : Z)
    (expected_secret : bytes) (view : EdgeResumeView) (report : WrapperResumeReport)
    : result ResumeRefusal ResumePlan :=
  _ ← token_accepted token expected_request expected_subscriber expected_secret view;
  _ ← frontier_accepted view report;
  let resume_from := wadd 64 (last_fully_exposed_seq report) 1 in
  if resume_from <? oldest_replayable_seq view then Err RetentionGap
  else Ok {| resume_from_seq := resume_from;
             first_frame_was_in_flight :=
               bool_decide (possibly_in_flight_seq report = Some resume_from) |}.

End Reconnect.

Module Transcript.
Import Reconnect.

(** ** The edge's lane *)

(** [DurabilityMeter] counts durable operations; no operation of this lane takes it. *)
Record DurabilityMeter := { durable_ops : Z (* u64 *) }.

Definition record_durable_op (m : DurabilityMeter) : DurabilityMeter :=
  {| durable_ops := wadd 64 (durable_ops m) 1 |}.

Record RetainedFrame := { seq : Z; payload : bytes }.

#[export] Instance RetainedFrame_eq_dec : EqDecision RetainedFrame.
Proof. solve_decision. Defined.

Inductive SequencerError :=
  | NotNextToSend (expected : Z)
  | NotInFlight (s : Z).

Record TranscriptSequencer := {
  assigned : Z;  (* u64 *)
  sent : Z;      (* u64 *)
  exposed : Z;   (* u64 *)
  retention : list RetainedFrame;
  retention_budget : nat;
  oldest_replayable : Z; (* u64 *)
}.

Definition sequencer_new (budget : nat) : TranscriptSequencer :=
  {| assigned := 0; sent := 0; exposed := 0; retention := [];
     retention_budget := budget; oldest_replayable := 1 |}.

(** The eviction loop of [assign]. *)
Fixpoint evict (budget : nat) (q : list RetainedFrame) (oldest : Z)
    : list RetainedFrame * Z :=
  match q with
  | [] => (q, oldest)
  | f :: rest =>
      if Nat.ltb budget (length q) then evict budget rest (wadd 64 (seq f) 1)
      else (q, oldest)
  end.

Definition assign (data : bytes) (l : TranscriptSequencer) : Z * TranscriptSequencer :=
  let s := wadd 64 (assigned l) 1 in
  let '(q, oldest) :=
    evict (retention_budget l) (retention l ++ [{| seq := s; payload := data |}])
      (oldest_replayable l) in
  (s, {| assigned := s; sent := sent l; exposed := exposed l; retention := q;
         retention_budget := retention_budget l; oldest_replayable := oldest |}).

Definition send (s : Z) : method TranscriptSequencer SequencerError unit := fun l =>
  if negb (s =? wadd 64 (sent l) 1) || (assigned l <? s) then
    (Err (NotNextToSend (wadd 64 (sent l) 1)), l)
  else
    (Ok tt, {| assigned := assigned l; sent := s; exposed := exposed l;
               retention := retention l; retention_budget := retention_budget l;
               oldest_replayable := oldest_replayable l |}).

(** The loop of [ack] that lets acknowledged frames leave retention. *)
Fixpoint drop_acked (upto : Z) (q : list RetainedFrame) (oldest : Z)
    : list RetainedFrame * Z :=
  match q with
  | [] => (q, oldest)
  | f :: rest =>
      if seq f <=? upto then drop_acked upto rest (Z.max oldest (wadd 64 (seq f) 1))
      else (q, oldest)
  end.

Definition ack (s : Z) : method TranscriptSequencer SequencerError unit := fun l =>
  if negb (s =? wadd 64 (exposed l) 1) || (sent l <? s) then (Err (NotInFlight s), l)
  else
    let '(q, oldest) := drop_acked s (retention l) (oldest_replayable l) in
    (Ok tt, {| assigned := assigned l; sent := sent l; exposed := s; retention := q;
               retention_budget := retention_budget l; oldest_replayable := oldest |}).

Definition in_flight (l : TranscriptSequencer) : Z := wsub 64 (sent l) (exposed l).

Definition frontier_report (l : TranscriptSequencer) : SubscriberFrontierReport :=
  {| transcript_exposed := 0 <? exposed l;
     transcript_uncertain := exposed l <? sent l;
     stateful_intent_recorded := false;
     stateful_uncertain := false;
     last_fully_delivered_seq := exposed l |}.

Definition resume_view (current : Z) (predecessor : option Z) (l : TranscriptSequencer)
    : EdgeResumeView :=
  {| canonical_stream_len := assigned l;
     oldest_replayable_seq := oldest_replayable l;
     current_incarnation := current;
     named_predecessor_incarnation := predecessor |}.

Definition retained (s : Z) (l : TranscriptSequencer) : option RetainedFrame :=
  find (fun f => seq f =? s) (retention l).

(** ** The wrapper's frame reader *)

Inductive FrameReadError :=
  | FrameAlreadyInProgress (partial_seq : Z)
  | UnexpectedSequence (expected : Z)
  | FrameTooLarge (declared max : Z)
  | Overrun (s : Z)
  | Incomplete (received declared : Z)
  | NoFrameInProgress.

Record PartialFrame := {
  partial_seq : Z;      (* u64 *)
  declared_len : Z;     (* u32 *)
  received : bytes;
}.

Record FrameReader := {
  max_frame_len : Z;    (* u32 *)
  shown : Z;            (* u64, the field [exposed] of the reader *)
  exposed_payloads : list bytes;
  partial : option PartialFrame;
}.

Definition reader_new (max_len : Z) : FrameReader :=
  {| max_frame_len := max_len; shown := 0; exposed_payloads := []; partial := None |}.

Definition with_partial (p : option PartialFrame) (r : FrameReader) : FrameReader :=
  {| max_frame_len := max_frame_len r; shown := shown r;
     exposed_payloads := exposed_payloads r; partial := p |}.

Definition begin_frame (s declared : Z) : method FrameReader FrameReadError unit := fun r =>
  match partial r with
  | Some p => (Err (FrameAlreadyInProgress (partial_seq p)), r)
  | None =>
      if negb (s =? wadd 64 (shown r) 1) then
        (Err (UnexpectedSequence (wadd 64 (shown r) 1)), r)
      else if max_frame_len r <? declared then
        (Err (FrameTooLarge declared (max_frame_len r)), r)
      else
        (Ok tt, with_partial (Some {| partial_seq := s; declared_len := declared;
                                      received := [] |}) r)
  end.

Definition feed (data : bytes) : method FrameReader FrameReadError unit := fun r =>
  match partial r with
  | None => (Err NoFrameInProgress, r)
  | Some p =>
      if declared_len p <? Z.of_nat (length (received p)) + Z.of_nat (length data) then
        (Err (Overrun (partial_seq p)), r)
      else
        (Ok tt, with_partial (Some {| partial_seq := partial_seq p;
                                      declared_len := declared_len p;
                                      received := received p ++ data |}) r)
  end.

Definition complete_frame : method FrameReader FrameReadError Z := fun r =>
  match partial r with
  | None => (Err NoFrameInProgress, r)
  | Some p =>
      let got := Z.of_nat (length (received p)) in
      if U32_MAX <? got then (Err (Overrun (partial_seq p)), r)
      else if negb (got =? declared_len p) then (Err (Incomplete got (declared_len p)), r)
      else
        (Ok (partial_seq p),
         {| max_frame_len := max_frame_len r; shown := partial_seq p;
            exposed_payloads := exposed_payloads r ++ [received p]; partial := None |})
  end.

Definition discard_partial (r : FrameReader) : option Z * FrameReader :=
  (partial_seq <$> partial r, with_partial None r).

Definition resume_report (r : FrameReader) : WrapperResumeReport :=
  {| last_fully_exposed_seq := shown r;
     possibly_in_flight_seq := partial_seq <$> partial r;
     frontier :=
       {| transcript_exposed := 0 <? shown r;
          transcript_uncertain := match partial r with Some _ => true | None => false end;
          stateful_intent_recorded := false;
          stateful_uncertain := false;
          last_fully_delivered_seq := shown r |} |}.

Inductive PostCrashPath :=
  | ReconnectAndResume
  | NewBuildOperation (reason : string).

Definition post_crash_path (wrapper_state_intact : bool) : PostCrashPath :=
  if wrapper_state_intact then ReconnectAndResume
  else NewBuildOperation
         "wrapper exposure state lost: partial transcript is unknowable (R116)".

(** ** Messages *)

Inductive TranscriptLaneMessage :=
  | SubscriberTranscriptIntent (s declared : Z)
  | TranscriptPayload (s : Z) (data : bytes)
  | SubscriberTranscriptAcknowledged (s : Z)
  | SubscriberTranscriptDeliveryUncertain (last_accepted_seq : Z) (possibly_in_flight : option Z).

Inductive AckOutcome :=
  | Acknowledged
  | AlreadyAcknowledged
  | RefusedFutureAck (expected : Z).

Definition edge_apply_ack (s : Z) (l : TranscriptSequencer) : AckOutcome * TranscriptSequencer :=
  if s <=? exposed l then (AlreadyAcknowledged, l)
  else
    match ack s l with
    | (Ok _, l') => (Acknowledged, l')
    | (Err _, l') => (RefusedFutureAck (wadd 64 (exposed l') 1), l')
    end.

Definition wrapper_uncertainty_message (r : FrameReader) : TranscriptLaneMessage :=
  let report := resume_report r in
  SubscriberTranscriptDeliveryUncertain (last_fully_exposed_seq report)
    (possibly_in_flight_seq report).

End Transcript.

Module Link.
Import Reconnect Transcript.

(** ** The lane against the stream it carries *)

(** The frames of [lines], the first of which has sequence [lo + 1]. *)
Fixpoint frames_from (lo : nat) (lines : list bytes) : list RetainedFrame :=
  match lines with
  | [] => []
  | d :: lines => {| seq := Z.of_nat lo + 1; payload := d |} :: frames_from (S lo) lines
  end.

(** How many frames have left retention: the acknowledged ones, and those the
    budget has no room for. *)
Definition retention_floor (stream : list bytes) (l : TranscriptSequencer) : nat :=
  Nat.max (Z.to_nat (exposed l)) (length stream - retention_budget l).

Record lane_ok (stream : list bytes) (l : TranscriptSequencer) : Prop := {
  lane_assigned : assigned l = Z.of_nat (length stream);
  lane_order : 0 <= exposed l <= sent l /\ sent l <= assigned l;
  lane_room : Z.of_nat (length stream) < U64_MAX;
  lane_retention :
    retention l = frames_from (retention_floor stream l) (drop (retention_floor stream l) stream);
  lane_oldest : oldest_replayable l = Z.of_nat (retention_floor stream l) + 1;
}.

Lemma frames_from_app lo xs ys :
  frames_from lo (xs ++ ys) = frames_from lo xs ++ frames_from (lo + length xs) ys.
Proof.
  revert lo. induction xs as [|x xs IH]; intros lo; cbn; [by rewrite Nat.add_0_r|].
  rewrite IH. by replace (S lo + length xs)%nat with (lo + S (length xs))%nat by lia.
Qed.

Lemma frames_from_length lo xs : length (frames_from lo xs) = length xs.
Proof. revert lo. induction xs; intros; cbn; auto. Qed.

Lemma evict_frames budget lo xs :
  Z.of_nat (lo + length xs) < U64_MAX ->
  let k := (length xs - budget)%nat in
  evict budget (frames_from lo xs) (Z.of_nat lo + 1)
  = (frames_from (lo + k) (drop k xs), Z.of_nat (lo + k) + 1).
Proof.
  unfold U64_MAX. revert lo. induction xs as [|x xs IH]; intros lo Hb.
  { cbn. by rewrite Nat.add_0_r. }
  cbn [frames_from evict]. cbn [length] in *. rewrite frames_from_length.
  destruct (Nat.ltb_spec budget (S (length xs))).
  - cbn [seq]. rewrite wadd_small by lia.
    replace (Z.of_nat lo + 1 + 1) with (Z.of_nat (S lo) + 1) by lia.
    rewrite IH by lia. replace (S (length xs) - budget)%nat with (S (length xs - budget)) by lia.
    cbn [drop]. by replace (S lo + (length xs - budget))%nat
      with (lo + S (length xs - budget))%nat by lia.
  - replace (S (length xs) - budget)%nat with 0%nat by lia. cbn. by rewrite Nat.add_0_r.
Qed.

Lemma drop_acked_frames upto lo xs :
  Z.of_nat (lo + length xs) < U64_MAX ->
  let k := Nat.min (length xs) (Z.to_nat upto - lo) in
  drop_acked upto (frames_from lo xs) (Z.of_nat lo + 1)
  = (frames_from (lo + k) (drop k xs), Z.of_nat (lo + k) + 1).
Proof.
  unfold U64_MAX. revert lo. induction xs as [|x xs IH]; intros lo Hb.
  { cbn. by rewrite Nat.add_0_r. }
  cbn [frames_from drop_acked seq]. cbn [length] in *.
  destruct (Z.leb_spec (Z.of_nat lo + 1) upto).
  - rewrite wadd_small by lia.
    replace (Z.max (Z.of_nat lo + 1) (Z.of_nat lo + 1 + 1)) with (Z.of_nat (S lo) + 1) by lia.
    rewrite IH by lia.
    replace (Nat.min (S (length xs)) (Z.to_nat upto - lo))
      with (S (Nat.min (length xs) (Z.to_nat upto - S lo))) by lia.
    cbn [drop]. by rewrite <- Nat.add_succ_comm.
  - replace (Nat.min (S (length xs)) (Z.to_nat upto - lo)) with 0%nat by lia.
    cbn. by rewrite Nat.add_0_r.
Qed.

Lemma find_frame lo xs i d :
  xs !! i = Some d ->
  find (fun f => seq f =? Z.of_nat (lo + i) + 1) (frames_from lo xs)
  = Some {| seq := Z.of_nat (lo + i) + 1; payload := d |}.
Proof.
  revert lo i. induction xs as [|x xs IH]; intros lo [|i] H; cbn in *; simplify_eq.
  - by rewrite Nat.add_0_r, Z.eqb_refl.
  - assert ((Z.of_nat lo + 1 =? Z.of_nat (lo + S i) + 1) = false) as -> by (apply Z.eqb_neq; lia).
    replace (lo + S i)%nat with (S lo + i)%nat by lia. by apply IH.
Qed.

Lemma lane_new_ok budget : lane_ok [] (sequencer_new budget).
Proof. split; cbn; unfold U64_MAX; try lia; done. Qed.

Lemma floor_le stream l : lane_ok stream l -> (retention_floor stream l <= length stream)%nat.
Proof. intros [Ha [? ?] _ _ _]. unfold retention_floor. lia. Qed.

(** [retention_floor stream l] leaves a tail that, with the floor, is the stream. *)
Lemma floor_tail_length stream l :
  lane_ok stream l ->
  length (drop (retention_floor stream l) stream)
  = (length stream - retention_floor stream l)%nat.
Proof. intros. apply length_drop. Qed.

Lemma assign_ok stream l data :
  lane_ok stream l -> Z.of_nat (S (length stream)) < U64_MAX ->
  fst (assign data l) = Z.of_nat (length stream) + 1
  /\ lane_ok (stream ++ [data]) (snd (assign data l)).
Proof.
  intros Hok Hroom. pose proof (floor_le _ _ Hok) as Hfl.
  destruct Hok as [Ha Ho _ Hr Hold]. unfold assign.
  rewrite Hr, Hold, Ha, wadd_small by (unfold U64_MAX in *; lia).
  set (lo := retention_floor stream l) in *.
  assert (frames_from lo (drop lo stream)
            ++ [{| seq := Z.of_nat (length stream) + 1; payload := data |}]
          = frames_from lo (drop lo (stream ++ [data]))) as ->.
  { rewrite drop_app_le, frames_from_app, length_drop by lia. cbn.
    by replace (lo + (length stream - lo))%nat with (length stream) by lia. }
  rewrite evict_frames by (rewrite length_drop, length_app; cbn; lia).
  rewrite length_drop, length_app. cbn [length fst snd].
  set (k := (length stream + 1 - lo - retention_budget l)%nat).
  assert (lo + k = Nat.max (Z.to_nat (exposed l)) (length stream + 1 - retention_budget l))%nat
    as Hk by (unfold k, lo, retention_floor; lia).
  split; [done|]. split; unfold retention_floor; cbn; rewrite ?length_app; cbn [length]; try lia.
  - by rewrite drop_drop, Hk.
Qed.

Lemma send_ok stream l s : lane_ok stream l -> lane_ok stream (snd (send s l)).
Proof.
  intros Hok. destruct Hok as [Ha Ho Hm Hr Hold]. unfold send.
  rewrite wadd_small by (unfold U64_MAX in *; lia).
  destruct (Z.eqb_spec s (sent l + 1)); cbn [negb orb]; [|by split].
  destruct (Z.ltb_spec (assigned l) s); [by split|]. split; cbn; auto; lia.
Qed.

Lemma send_sent stream l s :
  lane_ok stream l -> s <= Z.of_nat (length stream) -> s <= sent l + 1 ->
  sent (snd (send s l)) = Z.max (sent l) s.
Proof.
  intros [Ha Ho Hm _ _] Hs Hn. unfold send. rewrite wadd_small by (unfold U64_MAX in *; lia).
  destruct (Z.eqb_spec s (sent l + 1)); cbn [negb orb]; [|cbn; lia].
  destruct (Z.ltb_spec (assigned l) s); cbn; lia.
Qed.

(** A valid acknowledgement of the next frame. *)
Lemma ack_next stream l :
  lane_ok stream l -> exposed l < sent l ->
  fst (ack (exposed l + 1) l) = Ok tt
  /\ lane_ok stream (snd (ack (exposed l + 1) l))
  /\ exposed (snd (ack (exposed l + 1) l)) = exposed l + 1
  /\ sent (snd (ack (exposed l + 1) l)) = sent l.
Proof.
  intros Hok Hlt. pose proof (floor_le _ _ Hok) as Hfl.
  destruct Hok as [Ha Ho Hm Hr Hold]. unfold ack.
  rewrite wadd_small, Z.eqb_refl by (unfold U64_MAX in *; lia). cbn [negb orb].
  destruct (Z.ltb_spec (sent l) (exposed l + 1)); [lia|].
  rewrite Hr, Hold, drop_acked_frames by (rewrite length_drop; lia).
  cbn [fst snd]. split; [done|]. split; [|done].
  set (lo := retention_floor stream l) in *. rewrite length_drop.
  set (k := Nat.min _ _).
  assert (lo + k = Nat.max (Z.to_nat (exposed l + 1)) (length stream - retention_budget l))%nat
    as Hk by (unfold k, lo, retention_floor in *; lia).
  split; unfold retention_floor; cbn; try lia. by rewrite drop_drop, Hk.
Qed.

(** Acknowledgements of shown frames: duplicates and gaps change nothing. *)
Lemma edge_apply_ack_cases stream l s :
  lane_ok stream l ->
  let l' := snd (edge_apply_ack s l) in
  lane_ok stream l' /\ sent l' = sent l /\ retention_budget l' = retention_budget l
  /\ exposed l' = (if (s =? exposed l + 1) && (s <=? sent l) then s else exposed l).
Proof.
  intros Hok. pose proof Hok as [Ha Ho Hm Hr Hold]. unfold edge_apply_ack.
  destruct (Z.leb_spec s (exposed l)).
  { cbn. replace (s =? exposed l + 1) with false by lia. split_and!; done. }
  destruct (Z.eqb_spec s (exposed l + 1)) as [->|Hne]; cbn [andb].
  - destruct (Z.leb_spec (exposed l + 1) (sent l)).
    + destruct (ack_next stream l Hok ltac:(lia)) as (He & Hok' & Hx & Hs).
      assert (retention_budget (snd (ack (exposed l + 1) l)) = retention_budget l) as Hb.
      { unfold ack. destruct (_ || _); [done|]. by destruct (drop_acked _ _ _). }
      destruct (ack (exposed l + 1) l) as [[[]|e] l']; cbn in *; [|done]. split_and!; done.
    + unfold ack. rewrite wadd_small, Z.eqb_refl by (unfold U64_MAX in *; lia).
      cbn [negb orb]. destruct (Z.ltb_spec (sent l) (exposed l + 1)); [|lia].
      cbn. split_and!; done.
  - unfold ack. rewrite wadd_small by (unfold U64_MAX in *; lia).
    replace (s =? exposed l + 1) with false by lia. cbn. split_and!; done.
Qed.

(** Replaying: every frame above the floor is retained, with its own bytes. *)
Lemma retained_spec stream l i d :
  lane_ok stream l -> (retention_floor stream l <= i)%nat -> stream !! i = Some d ->
  retained (Z.of_nat i + 1) l = Some {| seq := Z.of_nat i + 1; payload := d |}.
Proof.
  intros [_ _ _ Hr _] Hi Hd. unfold retained. rewrite Hr.
  set (lo := retention_floor stream l) in *.
  replace i with (lo + (i - lo))%nat by lia. apply find_frame.
  rewrite lookup_drop. by replace (lo + (i - lo))%nat with i by lia.
Qed.

(** ** Catching up after a reconnect *)

(** A successor edge rebuilds its lane from the action's stream. *)
Fixpoint rebuild (lines : list bytes) (l : TranscriptSequencer) : TranscriptSequencer :=
  match lines with
  | [] => l
  | d :: lines => rebuild lines (snd (assign d l))
  end.

(** Frames the wrapper has shown are marked sent and acknowledged, not re-sent. *)
Fixpoint catch_up (n : nat) (l : TranscriptSequencer) : TranscriptSequencer :=
  match n with
  | O => l
  | S n =>
      let l := catch_up n l in
      snd (edge_apply_ack (Z.of_nat (S n)) (snd (send (Z.of_nat (S n)) l)))
  end.

Lemma rebuild_ok done todo l :
  lane_ok done l -> Z.of_nat (length (done ++ todo)) < U64_MAX ->
  lane_ok (done ++ todo) (rebuild todo l).
Proof.
  revert done l. induction todo as [|d todo IH]; intros done l Hok Hb; cbn.
  { by rewrite app_nil_r. }
  rewrite length_app in Hb. cbn in Hb.
  replace (done ++ d :: todo) with ((done ++ [d]) ++ todo) by (by rewrite <- app_assoc).
  apply IH; [apply assign_ok; [done|lia]|]. rewrite !length_app. cbn. lia.
Qed.

Lemma catch_up_ok stream l n :
  lane_ok stream l -> (n <= length stream)%nat ->
  let l' := catch_up n l in
  lane_ok stream l' /\ exposed l' = Z.max (exposed l) (Z.of_nat n)
  /\ sent l' = Z.max (sent l) (Z.of_nat n).
Proof.
  intros Hok. induction n as [|n IH]; intros Hn.
  { cbn. pose proof Hok as [? [? ?] _ _ _]. split_and!; [done|lia..]. }
  destruct (IH ltac:(lia)) as (Hok1 & Hx1 & Hs1). cbn [catch_up].
  set (l1 := catch_up n l) in *.
  pose proof (send_ok stream l1 (Z.of_nat (S n)) Hok1) as Hok2.
  pose proof (send_sent stream l1 (Z.of_nat (S n)) Hok1 ltac:(lia) ltac:(lia)) as Hs2.
  assert (exposed (snd (send (Z.of_nat (S n)) l1)) = exposed l1) as Hx2
    by (unfold send; by destruct (_ || _)).
  destruct (edge_apply_ack_cases stream _ (Z.of_nat (S n)) Hok2) as (Hok3 & Hs3 & _ & Hx3).
  split_and!; [done| |lia]. rewrite Hx3, Hx2, Hs2.
  destruct (Z.eqb_spec (Z.of_nat (S n)) (exposed l1 + 1)); cbn [andb]; [|lia].
  destruct (Z.leb_spec (Z.of_nat (S n)) (Z.max (sent l1) (Z.of_nat (S n)))); lia.
Qed.

(** ** The reader against the stream *)

Record reader_ok (stream : list bytes) (r : FrameReader) : Prop := {
  reader_shown : shown r = Z.of_nat (length (exposed_payloads r));
  reader_prefix : exposed_payloads r = take (length (exposed_payloads r)) stream;
  reader_partial : forall p, partial r = Some p ->
    partial_seq p = shown r + 1
    /\ exists rest,
         stream !! length (exposed_payloads r) = Some (received p ++ rest)
         /\ declared_len p = Z.of_nat (length (received p ++ rest));
}.

Lemma reader_shown_le stream r : reader_ok stream r -> shown r <= Z.of_nat (length stream).
Proof.
  intros [Hs Hp _]. rewrite Hs. assert (length (exposed_payloads r) <= length stream)%nat; [|lia].
  rewrite Hp, length_take. lia.
Qed.

Lemma reader_grow stream d r : reader_ok stream r -> reader_ok (stream ++ [d]) r.
Proof.
  intros Hok. pose proof (reader_shown_le _ _ Hok). destruct Hok as [Hs Hp Hpart].
  split; [done| |].
  - rewrite take_app_le by lia. done.
  - intros p Hpp. destruct (Hpart p Hpp) as (? & rest & Hl & Hd). split; [done|].
    exists rest. split; [|done]. by apply lookup_app_l_Some.
Qed.

Lemma reader_discard stream r : reader_ok stream r -> reader_ok stream (snd (discard_partial r)).
Proof. intros [Hs Hp _]. by split. Qed.

Lemma begin_frame_ok stream r i d :
  reader_ok stream r -> stream !! i = Some d -> Z.of_nat (length stream) < U64_MAX ->
  reader_ok stream (snd (begin_frame (Z.of_nat i + 1) (Z.of_nat (length d)) r)).
Proof.
  intros Hok Hd Hroom. pose proof (reader_shown_le _ _ Hok). unfold begin_frame.
  pose proof Hok as [Hs Hp Hpart]. destruct (partial r) eqn:Hpr; [exact Hok|].
  rewrite wadd_small by (unfold U64_MAX in *; lia).
  destruct (Z.eqb_spec (Z.of_nat i + 1) (shown r + 1)) as [Heq|]; cbn [negb]; [|done].
  destruct (_ <? _); [done|]. split; cbn; [done..|]. intros p [= <-]. cbn. split; [lia|].
  exists d. split; [|done]. by replace (length (exposed_payloads r)) with i by lia.
Qed.

Lemma feed_ok stream r p chunk rest :
  reader_ok stream r -> partial r = Some p ->
  stream !! length (exposed_payloads r) = Some (received p ++ chunk ++ rest) ->
  reader_ok stream (snd (feed chunk r)).
Proof.
  intros Hok Hpr Hl. unfold feed. rewrite Hpr. pose proof Hok as [Hs Hp Hpart].
  destruct (_ <? _); [done|]. split; cbn; [done..|]. intros q [= <-]. cbn.
  destruct (Hpart p Hpr) as (Hseq & rest' & Hl' & Hd). split; [done|].
  exists rest. rewrite Hl in Hl'. simplify_eq. rewrite <- app_assoc. done.
Qed.

Lemma complete_ok stream r : reader_ok stream r -> reader_ok stream (snd (complete_frame r)).
Proof.
  intros Hok. unfold complete_frame. pose proof Hok as [Hs Hp Hpart].
  destruct (partial r) as [p|] eqn:Hpr; [|done]. destruct (_ <? _); [done|].
  destruct (Z.eqb_spec (Z.of_nat (length (received p))) (declared_len p)) as [Hd|]; [|done].
  destruct (Hpart p eq_refl) as (Hseq & rest & Hl & Hd').
  assert (rest = []) as ->.
  { destruct rest; [done|]. rewrite length_app in Hd'. cbn in Hd'. lia. }
  rewrite app_nil_r in Hl. split; cbn; [|rewrite length_app; cbn|done].
  - rewrite length_app. cbn. lia.
  - rewrite Nat.add_1_r. erewrite take_S_r by exact Hl. by rewrite <- Hp.
Qed.

(** ** The two sides over a connection that may fail *)

Record link := {
  stream : list bytes;           (* the canonical action stream so far *)
  lane : TranscriptSequencer;
  reader : FrameReader;
}.

(** One event.  The connection delivers the bytes of a frame in order, in chunks
    of any size, and may stop anywhere; acknowledgements of shown frames may be
    late, repeated or lost; a resume goes to the same edge or to one that rebuilt
    its lane (with any retention budget) from the action's stream. *)
Inductive lstep : link -> link -> Prop :=
  | l_produce d k :
      Z.of_nat (S (length (stream k))) < U64_MAX ->
      lstep k {| stream := stream k ++ [d]; lane := snd (assign d (lane k)); reader := reader k |}
  | l_send s k :
      lstep k {| stream := stream k; lane := snd (send s (lane k)); reader := reader k |}
  | l_header s f k :
      retained s (lane k) = Some f -> s <= sent (lane k) ->
      lstep k {| stream := stream k; lane := lane k;
                 reader := snd (begin_frame s (Z.of_nat (length (payload f))) (reader k)) |}
  | l_payload p chunk rest k :
      partial (reader k) = Some p ->
      stream k !! Z.to_nat (partial_seq p - 1) = Some (received p ++ chunk ++ rest) ->
      lstep k {| stream := stream k; lane := lane k; reader := snd (feed chunk (reader k)) |}
  | l_complete k :
      lstep k {| stream := stream k; lane := lane k; reader := snd (complete_frame (reader k)) |}
  | l_ack s k :
      s <= shown (reader k) ->
      lstep k {| stream := stream k; lane := snd (edge_apply_ack s (lane k)); reader := reader k |}
  | l_resume token req sub sec current predecessor edge plan k :
      edge = lane k \/ (exists budget, edge = rebuild (stream k) (sequencer_new budget)) ->
      reconcile token req sub sec (resume_view current predecessor edge)
        (resume_report (reader k)) = Ok plan ->
      lstep k {| stream := stream k;
                 lane := catch_up (Z.to_nat (resume_from_seq plan - 1)) edge;
                 reader := snd (discard_partial (reader k)) |}.

Definition link_new (budget : nat) (max_len : Z) : link :=
  {| stream := []; lane := sequencer_new budget; reader := reader_new max_len |}.

(** The sequence up to which the reader has begun frames. *)
Definition begun (r : FrameReader) : Z :=
  match partial r with Some _ => shown r + 1 | None => shown r end.

Record link_ok (k : link) : Prop := {
  link_lane : lane_ok (stream k) (lane k);
  link_reader : reader_ok (stream k) (reader k);
  link_acked : exposed (lane k) <= shown (reader k);
  link_begun : begun (reader k) <= sent (lane k);
}.

Lemma frames_from_inv lo xs s f :
  find (fun f => seq f =? s) (frames_from lo xs) = Some f ->
  exists i d, xs !! i = Some d /\ s = Z.of_nat (lo + i) + 1 /\ payload f = d.
Proof.
  revert lo. induction xs as [|x xs IH]; intros lo H; cbn in H; [done|].
  destruct (Z.eqb_spec (Z.of_nat lo + 1) s).
  - simplify_eq. exists 0%nat, x. split_and!; [done|lia|done].
  - destruct (IH (S lo) H) as (i & d & Hi & Hs & Hf). exists (S i), d. split_and!; [done|lia|done].
Qed.

Lemma retained_inv st l s f :
  lane_ok st l -> retained s l = Some f ->
  exists i d, st !! i = Some d /\ s = Z.of_nat i + 1 /\ payload f = d.
Proof.
  intros [_ _ _ Hr _] Hf. unfold retained in Hf. rewrite Hr in Hf.
  apply frames_from_inv in Hf as (i & d & Hi & Hs & Hp). rewrite lookup_drop in Hi. eauto.
Qed.

Lemma rebuild_exposed lines l : exposed (rebuild lines l) = exposed l /\ sent (rebuild lines l) = sent l.
Proof.
  revert l. induction lines as [|d lines IH]; intros l; cbn; [done|].
  destruct (IH (snd (assign d l))) as [-> ->]. unfold assign. by destruct (evict _ _ _).
Qed.

(** What a successful reconciliation names, and when it fails, for truthful reports. *)
Lemma reconcile_spec st l r token req sub sec cur pre :
  lane_ok st l -> reader_ok st r ->
  token_accepted token req sub sec (resume_view cur pre l) = Ok tt ->
  reconcile token req sub sec (resume_view cur pre l) (resume_report r)
  = if shown r + 1 <? oldest_replayable l then Err RetentionGap
    else Ok {| resume_from_seq := shown r + 1;
               first_frame_was_in_flight := bool_decide (is_Some (partial r)) |}.
Proof.
  intros Hl Hr Ht. pose proof (reader_shown_le _ _ Hr) as Hsh.
  destruct Hl as [Ha _ Hroom _ _], Hr as [Hs _ Hpart].
  unfold reconcile. unmonad. rewrite Ht. unfold frontier_accepted. cbn [canonical_stream_len
    resume_view last_fully_exposed_seq resume_report possibly_in_flight_seq oldest_replayable_seq].
  rewrite wadd_small by (unfold U64_MAX in *; lia).
  destruct (Z.ltb_spec (assigned l) (shown r)); [lia|].
  destruct (partial r) as [p|] eqn:Hp; cbn [fmap option_fmap option_map].
  - destruct (Hpart p eq_refl) as (Hseq & rest & Hlk & _). rewrite Hseq.
    apply lookup_lt_Some in Hlk. rewrite Z.eqb_refl. cbn [negb orb].
    destruct (Z.ltb_spec (assigned l) (shown r + 1)); [lia|].
    destruct (_ <? _); [done|]. rewrite !bool_decide_eq_true_2; done.
  - destruct (_ <? _); [done|]. rewrite !bool_decide_eq_false_2; [done|by intros []|done].
Qed.

Lemma reconcile_Ok_inv token req sub sec view report plan :
  reconcile token req sub sec view report = Ok plan ->
  token_accepted token req sub sec view = Ok tt.
Proof.
  unfold reconcile. unmonad. by destruct (token_accepted _ _ _ _ _) as [[]|].
Qed.

Lemma link_new_ok budget max_len : link_ok (link_new budget max_len).
Proof. split; cbn; try lia; [apply lane_new_ok | by split]. Qed.

Lemma link_resume_ok k token req sub sec cur pre edge plan :
  link_ok k ->
  edge = lane k \/ (exists budget, edge = rebuild (stream k) (sequencer_new budget)) ->
  reconcile token req sub sec (resume_view cur pre edge) (resume_report (reader k)) = Ok plan ->
  link_ok {| stream := stream k; lane := catch_up (Z.to_nat (resume_from_seq plan - 1)) edge;
             reader := snd (discard_partial (reader k)) |}.
Proof.
  intros [Hl Hr Ha Hb] Hedge Hrec.
  pose proof (reader_shown_le _ _ Hr) as Hsh. pose proof (reader_shown _ _ Hr) as Hsn.
  assert (lane_ok (stream k) edge /\ exposed edge <= shown (reader k)) as [Hle Hxe].
  { destruct Hedge as [->|[budget ->]]; [done|]. destruct Hl as [_ _ Hroom _ _]. split.
    - by apply (rebuild_ok []); [apply lane_new_ok|].
    - destruct (rebuild_exposed (stream k) (sequencer_new budget)) as [-> _]. cbn. lia. }
  pose proof (reconcile_Ok_inv _ _ _ _ _ _ _ Hrec) as Ht.
  rewrite (reconcile_spec (stream k)) in Hrec by done. case_match; [done|]. simplify_eq.
  cbn [resume_from_seq]. replace (shown (reader k) + 1 - 1) with (shown (reader k)) by lia.
  destruct (catch_up_ok (stream k) edge (Z.to_nat (shown (reader k))) Hle ltac:(lia))
    as (Hok' & Hx' & Hs').
  split; cbn [stream lane reader]; [done|by apply reader_discard| |]; cbn.
  - rewrite Hx'. lia.
  - unfold begun. cbn. rewrite Hs'. lia.
Qed.

Lemma link_ok_step k k' : link_ok k -> lstep k k' -> link_ok k'.
Proof.
  intros Hk Hstep. pose proof Hk as [Hl Hr Ha Hb].
  destruct Hstep as [d k Hroom | s k | s f k Hf Hs | p chunk rest k Hp Hst | k | s k Hs
                    | token req sub sec cur pre edge plan k Hedge Hrec].
  - split; cbn [stream lane reader]; [by apply assign_ok | by apply reader_grow | |];
      unfold assign; by destruct (evict _ _ _).
  - split; cbn [stream lane reader]; [by apply send_ok | done | |];
      unfold send; destruct (Z.eqb_spec s (wadd 64 (sent (lane k)) 1)) as [He|];
        cbn [negb orb]; try done; destruct (_ <? _); cbn; try done.
    destruct Hl as [? ? Hroom _ _]. rewrite wadd_small in He by (unfold U64_MAX in *; lia). lia.
  - destruct (retained_inv _ _ _ _ Hl Hf) as (i & d & Hi & -> & <-).
    split; cbn [stream lane reader]; [done| | |].
    + apply begin_frame_ok; [done..|]. apply Hl.
    + unfold begin_frame. by repeat case_match.
    + unfold begin_frame. destruct (partial (reader k)) eqn:Hpr; [done|].
      destruct (Z.eqb_spec (Z.of_nat i + 1) (wadd 64 (shown (reader k)) 1)) as [He|];
        cbn [negb]; [|done].
      destruct (_ <? _); cbn; [done|]. unfold begun. cbn.
      pose proof (reader_shown_le _ _ Hr). pose proof (reader_shown _ _ Hr).
      destruct Hl as [_ _ Hroom _ _].
      rewrite wadd_small in He by (unfold U64_MAX in *; lia). lia.
  - split; cbn [stream lane reader]; [done| | |].
    + destruct (reader_partial _ _ Hr p Hp) as (Hseq & _). pose proof (reader_shown _ _ Hr).
      eapply feed_ok; [done..|].
      by replace (length (exposed_payloads (reader k))) with (Z.to_nat (partial_seq p - 1)) by lia.
    + unfold feed. rewrite Hp. by case_match.
    + unfold feed, begun in *. rewrite Hp in *. destruct (_ <? _); cbn; by rewrite ?Hp.
  - split; cbn [stream lane reader]; [done|by apply complete_ok| |].
    + unfold complete_frame. destruct (partial (reader k)) as [p|] eqn:Hp; [|done].
      destruct (reader_partial _ _ Hr p Hp) as (Hseq & _). repeat case_match; cbn; lia.
    + unfold complete_frame, begun in *. destruct (partial (reader k)) as [p|] eqn:Hp.
      * destruct (reader_partial _ _ Hr p Hp) as (Hseq & _).
        destruct (U32_MAX <? _); [cbn; rewrite Hp; lia|].
        destruct (_ =? _); cbn; rewrite ?Hp; lia.
      * cbn. by rewrite ?Hp.
  - destruct (edge_apply_ack_cases _ _ s Hl) as (Hok' & Hs' & _ & Hx).
    split; cbn [stream lane reader]; [done..| |lia]. rewrite Hx. by case_match; [lia|].
  - by eapply link_resume_ok.
Qed.

(** ** What the user sees *)

(** C9: every frame is shown at most once, in order and whole.  Wherever the
    connection tears a frame, whichever acknowledgements are lost or repeated, and
    however often the wrapper resumes on the same or a restarted edge, the payloads
    exposed to the user are exactly the first frames of the canonical stream, as
    many as the reader's sequence says; a torn frame is held back, never shown. *)
Theorem exposed_is_stream_prefix budget max_len k :
  rtc lstep (link_new budget max_len) k ->
  exposed_payloads (reader k) = take (Z.to_nat (shown (reader k))) (stream k)
  /\ shown (reader k) = Z.of_nat (length (exposed_payloads (reader k)))
  /\ shown (reader k) <= Z.of_nat (length (stream k)).
Proof.
  intros Hr. assert (link_ok k) as [_ Hok _ _].
  { eapply invariant_rtc; [exact link_ok_step | apply link_new_ok | done]. }
  pose proof (reader_shown_le _ _ Hok). destruct Hok as [Hs Hp _].
  split_and!; [|done..]. rewrite Hs, Nat2Z.id. exact Hp.
Qed.

(** A reconnect never guesses.  For a truthful wrapper with a valid token the
    edge never reports a contradiction: it resumes at the frame after the last one
    shown, flagging it as in flight exactly when the reader holds a torn frame, and
    every frame from there on is still retained with its bytes; or it refuses with
    [RetentionGap], exactly when the budget has already evicted a frame the wrapper
    has not been shown. *)
Theorem resume_is_exact budget max_len k token req sub sec cur pre :
  rtc lstep (link_new budget max_len) k ->
  token_accepted token req sub sec (resume_view cur pre (lane k)) = Ok tt ->
  match reconcile token req sub sec (resume_view cur pre (lane k)) (resume_report (reader k)) with
  | Ok plan =>
      plan = {| resume_from_seq := shown (reader k) + 1;
                first_frame_was_in_flight := bool_decide (is_Some (partial (reader k))) |}
      /\ forall i d, shown (reader k) <= Z.of_nat i -> stream k !! i = Some d ->
           retained (Z.of_nat i + 1) (lane k) = Some {| seq := Z.of_nat i + 1; payload := d |}
  | Err e =>
      e = RetentionGap
      /\ shown (reader k)
         < Z.of_nat (length (stream k)) - Z.of_nat (retention_budget (lane k))
  end.
Proof.
  intros Hr Ht. assert (link_ok k) as [Hl Hok Ha _].
  { eapply invariant_rtc; [exact link_ok_step | apply link_new_ok | done]. }
  rewrite (reconcile_spec (stream k)) by done. rewrite (lane_oldest _ _ Hl).
  destruct (Z.ltb_spec (shown (reader k) + 1)
              (Z.of_nat (retention_floor (stream k) (lane k)) + 1)) as [Hlt|Hge].
  - split; [done|]. unfold retention_floor in Hlt. pose proof (reader_shown _ _ Hok). lia.
  - split; [done|]. intros i d Hi Hd. apply (retained_spec (stream k)); [done|lia|done].
Qed.

(** ** Finishing the exchange *)

(** Delivers the next frame over an unbroken connection: header, payload,
    completion, acknowledgement. *)
Definition deliver_next (k : link) : link :=
  let s := shown (reader k) + 1 in
  match retained s (lane k) with
  | None => k
  | Some f =>
      let r1 := snd (begin_frame s (Z.of_nat (length (payload f))) (reader k)) in
      let r2 := snd (feed (payload f) r1) in
      let r3 := snd (complete_frame r2) in
      {| stream := stream k;
         lane := snd (edge_apply_ack (shown r3) (snd (send s (lane k))));
         reader := r3 |}
  end.

Fixpoint deliver (n : nat) (k : link) : link :=
  match n with O => k | S n => deliver n (deliver_next k) end.

(** After a resume the two frontiers agree and nothing is torn. *)
Definition quiet (k : link) : Prop :=
  link_ok k /\ partial (reader k) = None /\ exposed (lane k) = shown (reader k)
  /\ retention_floor (stream k) (lane k) = Z.to_nat (shown (reader k)).

Definition frames_fit (k : link) : Prop :=
  0 <= max_frame_len (reader k) <= U32_MAX
  /\ Forall (fun d => Z.of_nat (length d) <= max_frame_len (reader k)) (stream k).

Lemma show_frame st r i d :
  reader_ok st r -> partial r = None -> shown r = Z.of_nat i -> st !! i = Some d ->
  Z.of_nat (length st) < U64_MAX -> Z.of_nat (length d) <= max_frame_len r <= U32_MAX ->
  snd (complete_frame (snd (feed d (snd (begin_frame (shown r + 1) (Z.of_nat (length d)) r)))))
  = {| max_frame_len := max_frame_len r; shown := shown r + 1;
       exposed_payloads := exposed_payloads r ++ [d]; partial := None |}.
Proof.
  intros Hok Hp Hs Hd Hroom Hfit. apply lookup_lt_Some in Hd as Hlt.
  unfold begin_frame. rewrite Hp, wadd_small, Z.eqb_refl by (unfold U64_MAX in *; lia).
  cbn [negb]. destruct (Z.ltb_spec (max_frame_len r) (Z.of_nat (length d))); [lia|].
  unfold feed. cbn. rewrite Z.ltb_irrefl. unfold complete_frame. cbn.
  destruct (Z.ltb_spec U32_MAX (Z.of_nat (length d))); [lia|]. by rewrite Z.eqb_refl.
Qed.

Lemma deliver_next_quiet k :
  quiet k -> frames_fit k -> shown (reader k) < Z.of_nat (length (stream k)) ->
  let k' := deliver_next k in
  quiet k' /\ frames_fit k' /\ stream k' = stream k /\ shown (reader k') = shown (reader k) + 1.
Proof.
  intros ([Hl Hr _ Hb] & Hp & Hx & Hfl) [Hmax Hfit] Hlt.
  pose proof (reader_shown _ _ Hr) as Hsh.
  destruct (lookup_lt_is_Some_2 (stream k) (Z.to_nat (shown (reader k)))) as [d Hd]; [lia|].
  pose proof (Forall_lookup_1 _ _ _ _ Hfit Hd) as Hdl. cbn in Hdl.
  pose proof (retained_spec (stream k) (lane k) (Z.to_nat (shown (reader k))) d Hl
                ltac:(lia) Hd) as Hret.
  replace (Z.of_nat (Z.to_nat (shown (reader k))) + 1) with (shown (reader k) + 1) in Hret by lia.
  pose proof (lane_room _ _ Hl) as Hroom.
  assert (reader_ok (stream k) (snd (complete_frame (snd (feed d (snd (begin_frame
            (shown (reader k) + 1) (Z.of_nat (length d)) (reader k)))))))) as Hr'.
  { rewrite (show_frame (stream k) _ (Z.to_nat (shown (reader k)))) by (done || lia).
    split; cbn; [rewrite length_app; cbn; lia| |done].
    rewrite length_app. cbn [length]. rewrite Nat.add_1_r.
    assert (stream k !! length (exposed_payloads (reader k)) = Some d) as Hd'
      by (by rewrite <- Hd; f_equal; lia).
    erewrite take_S_r by exact Hd'. by rewrite <- (reader_prefix _ _ Hr). }
  unfold deliver_next. rewrite Hret. cbn [payload].
  rewrite (show_frame (stream k) _ (Z.to_nat (shown (reader k)))) in Hr' |- * by (done || lia).
  set (l1 := snd (send (shown (reader k) + 1) (lane k))).
  assert (lane_ok (stream k) l1) as Hl1 by (by apply send_ok).
  assert (exposed l1 = exposed (lane k) /\ retention_budget l1 = retention_budget (lane k))
    as [Hx1 Hb1] by (unfold l1, send; by destruct (_ || _)).
  assert (shown (reader k) + 1 <= sent l1) as Hs1.
  { unfold l1. rewrite (send_sent (stream k)); [lia|done|lia|].
    unfold begun in Hb. rewrite Hp in Hb. lia. }
  cbn [shown]. destruct (edge_apply_ack_cases (stream k) l1 (shown (reader k) + 1) Hl1)
    as (Hl2 & Hs2 & Hb2 & Hx2).
  rewrite Hx1, Hx, Z.eqb_refl in Hx2. cbn [andb] in Hx2.
  destruct (Z.leb_spec (shown (reader k) + 1) (sent l1)) as [_|]; [|lia].
  split_and!; [|done..]. split_and!; cbn [stream lane reader partial shown]; [|done..|].
  - split; cbn [stream lane reader shown]; [done|done|lia|]. unfold begun. cbn. lia.
  - unfold retention_floor in *. rewrite Hx2, Hb2, Hb1. lia.
Qed.

Lemma deliver_quiet n k :
  quiet k -> frames_fit k -> shown (reader k) + Z.of_nat n = Z.of_nat (length (stream k)) ->
  let k' := deliver n k in
  quiet k' /\ stream k' = stream k /\ shown (reader k') = Z.of_nat (length (stream k)).
Proof.
  revert k. induction n as [|n IH]; intros k Hq Hf Hn.
  { split_and!; [done..|cbn; lia]. }
  destruct (deliver_next_quiet k Hq Hf ltac:(lia)) as (Hq' & Hf' & Hst & Hsh).
  cbn [deliver]. destruct (IH (deliver_next k) Hq' Hf') as (? & ? & ?).
  - rewrite Hst. lia.
  - rewrite <- Hst. split_and!; done.
Qed.

Lemma catch_up_budget n l : retention_budget (catch_up n l) = retention_budget l.
Proof.
  induction n as [|n IH]; cbn [catch_up]; [done|]. rewrite <- IH.
  unfold edge_apply_ack, ack, send. repeat (case_match; simplify_eq/=; try done).
Qed.

Definition resumed (k : link) (edge : TranscriptSequencer) (plan : ResumePlan) : link :=
  {| stream := stream k; lane := catch_up (Z.to_nat (resume_from_seq plan - 1)) edge;
     reader := snd (discard_partial (reader k)) |}.

Lemma resumed_quiet k token req sub sec cur pre edge plan :
  link_ok k ->
  edge = lane k \/ (exists budget, edge = rebuild (stream k) (sequencer_new budget)) ->
  reconcile token req sub sec (resume_view cur pre edge) (resume_report (reader k)) = Ok plan ->
  quiet (resumed k edge plan).
Proof.
  intros Hk Hedge Hrec. pose proof (link_resume_ok _ _ _ _ _ _ _ _ _ Hk Hedge Hrec) as Hk'.
  destruct Hk as [Hl Hr Ha Hb].
  pose proof (reader_shown_le _ _ Hr) as Hsh. pose proof (reader_shown _ _ Hr) as Hsn.
  assert (lane_ok (stream k) edge /\ exposed edge <= shown (reader k)) as [Hle Hxe].
  { destruct Hedge as [->|[budget ->]]; [done|]. destruct Hl as [_ _ Hroom _ _]. split.
    - by apply (rebuild_ok []); [apply lane_new_ok|].
    - destruct (rebuild_exposed (stream k) (sequencer_new budget)) as [-> _]. cbn. lia. }
  pose proof (reconcile_Ok_inv _ _ _ _ _ _ _ Hrec) as Ht.
  rewrite (reconcile_spec (stream k)) in Hrec by done.
  destruct (Z.ltb_spec (shown (reader k) + 1) (oldest_replayable edge)) as [|Hge]; [done|].
  simplify_eq. rewrite (lane_oldest _ _ Hle) in Hge.
  unfold resumed in *. cbn [resume_from_seq] in *.
  replace (shown (reader k) + 1 - 1) with (shown (reader k)) in * by lia.
  destruct (catch_up_ok (stream k) edge (Z.to_nat (shown (reader k))) Hle ltac:(lia))
    as (Hok' & Hx' & _).
  split_and!; [done|done| |]; cbn [lane reader stream]; unfold retention_floor in *;
    rewrite ?catch_up_budget; cbn; lia.
Qed.

(** C27: a resumed exchange finishes when every frame of the transcript is within the reader's
    negotiated maximum.  From any state a failing connection can leave behind, once the
    reconciliation with the same or a restarted edge succeeds, delivering the remaining frames
    over a working connection shows the user the entire canonical stream, once, and brings the
    edge's acknowledged frontier to its end.  (The sequencer does not bound what it is given: a
    frame above the maximum is refused each time it is sent, and the exchange stalls there,
    [oversized_frame_stalls].) *)
Theorem resumed_exchange_completes budget max_len k token req sub sec cur pre edge plan :
  rtc lstep (link_new budget max_len) k -> frames_fit k ->
  edge = lane k \/ (exists b, edge = rebuild (stream k) (sequencer_new b)) ->
  reconcile token req sub sec (resume_view cur pre edge) (resume_report (reader k)) = Ok plan ->
  let k' := deliver (length (stream k) - Z.to_nat (shown (reader k))) (resumed k edge plan) in
  exposed_payloads (reader k') = stream k
  /\ exposed (lane k') = Z.of_nat (length (stream k)).
Proof.
  intros Hreach Hfit Hedge Hrec.
  assert (link_ok k) as Hk.
  { eapply invariant_rtc; [exact link_ok_step | apply link_new_ok | done]. }
  pose proof (resumed_quiet _ _ _ _ _ _ _ _ _ Hk Hedge Hrec) as Hq.
  pose proof (reader_shown_le _ _ (link_reader _ Hk)) as Hle.
  pose proof (reader_shown _ _ (link_reader _ Hk)) as Hs.
  destruct (deliver_quiet (length (stream k) - Z.to_nat (shown (reader k)))
              (resumed k edge plan) Hq) as (([_ Hr _ _] & _ & Hx & _) & Hst & Hsh).
  - exact Hfit.
  - cbn. lia.
  - cbn [stream resumed] in *. split; [|by rewrite Hx].
    destruct Hr as [Hs' Hp' _]. rewrite Hst in Hp'. rewrite Hp', take_ge by lia. done.
Qed.

(** The edge allows a seamless local rerun only when the user has seen nothing:
    if the frontiers it reports lead the wrapper to rerun seamlessly, no payload was
    exposed and no frame is torn in the reader. *)
Theorem seamless_means_unseen budget max_len k config request_id :
  rtc lstep (link_new budget max_len) k ->
  decide_fallback (frontier_report (lane k)) config request_id = RunOriginalSeamless ->
  exposed_payloads (reader k) = [] /\ partial (reader k) = None.
Proof.
  intros Hreach Hdec. assert (link_ok k) as [Hl Hr Ha Hb].
  { eapply invariant_rtc; [exact link_ok_step | apply link_new_ok | done]. }
  assert (exposed (lane k) <= 0 /\ sent (lane k) <= exposed (lane k)) as [Hx Hs].
  { unfold decide_fallback, permitted_fallback, frontier_report in Hdec. cbn in Hdec.
    destruct (Z.ltb_spec 0 (exposed (lane k))), (Z.ltb_spec (exposed (lane k)) (sent (lane k)));
      cbn in Hdec; try done; by destruct (labeled_transcript_recovery config). }
  destruct Hr as [Hsh _ _]. unfold begun in Hb.
  destruct (partial (reader k)); [lia|]. split; [|done]. apply length_zero_iff_nil. lia.
Qed.

(** ** A torn frame, a restarted edge *)

Definition two_lines : list bytes := [[104; 105]; [33]].

(** The first line is in flight and its second byte never arrived. *)
Definition torn_link : link :=
  {| stream := two_lines;
     lane := snd (send 1 (rebuild two_lines (sequencer_new 4)));
     reader := snd (feed [104] (snd (begin_frame 1 2 (reader_new 64)))) |}.

Lemma torn_link_reachable : rtc lstep (link_new 4 64) torn_link.
Proof.
  eapply rtc_l; [apply (l_produce [104; 105]); reflexivity|].
  eapply rtc_l; [apply (l_produce [33]); reflexivity|].
  eapply rtc_l; [apply (l_send 1)|].
  eapply rtc_l; [apply (l_header 1 {| seq := 1; payload := [104; 105] |});
                 [reflexivity | vm_compute; discriminate]|].
  eapply rtc_l; [eapply (l_payload _ [104] [105]); reflexivity|]. reflexivity.
Qed.

Definition sample_token : ResumableToken :=
  {| request := 10; subscriber := 20; issued_by_incarnation := 5; secret := repeat 7 32 |}.

Lemma exposed_is_stream_prefix_witness :
  exposed_payloads (reader torn_link)
  = take (Z.to_nat (shown (reader torn_link))) (stream torn_link).
Proof. apply (exposed_is_stream_prefix 4 64 torn_link torn_link_reachable). Defined.

Lemma resume_is_exact_witness :
  reconcile sample_token 10 20 (repeat 7 32) (resume_view 5 None (lane torn_link))
    (resume_report (reader torn_link))
  = Ok {| resume_from_seq := 1; first_frame_was_in_flight := true |}
  /\ retained 2 (lane torn_link) = Some {| seq := 2; payload := [33] |}.
Proof.
  pose proof (resume_is_exact 4 64 torn_link sample_token 10 20 (repeat 7 32) 5 None
                torn_link_reachable eq_refl) as H.
  vm_compute in H. destruct H as [_ H].
  split; [vm_compute; reflexivity|]. by apply (H 1%nat).
Defined.

(** A reader that accepts two bytes per frame, and a transcript whose second frame has three. *)
Definition oversized_link : link :=
  let stream := [[65; 66]; [67; 68; 69]; [70]] in
  {| stream := stream; lane := rebuild stream (sequencer_new 64); reader := reader_new 2 |}.

(** A frame above the negotiated maximum stops the exchange: the first frame is shown, then,
    however often the edge sends the second one again, nothing more. *)
Theorem oversized_frame_stalls n :
  exposed_payloads (reader (deliver (S n) oversized_link)) = [[65; 66]].
Proof.
  destruct n as [|n]; [vm_compute; reflexivity|]. cbn [deliver].
  set (k := deliver_next (deliver_next oversized_link)).
  assert (Hfix : deliver_next k = k) by (vm_compute; reflexivity).
  induction n as [|n IH]; [vm_compute; reflexivity|]. cbn [deliver]. by rewrite Hfix.
Qed.

Lemma resumed_exchange_completes_witness :
  let edge := rebuild two_lines (sequencer_new 64) in
  let plan := {| resume_from_seq := 1; first_frame_was_in_flight := true |} in
  exposed_payloads (reader (deliver 2 (resumed torn_link edge plan))) = two_lines.
Proof.
  apply (resumed_exchange_completes 4 64 torn_link sample_token 10 20 (repeat 7 32) 6 (Some 5)).
  - apply torn_link_reachable.
  - split; [split; vm_compute; discriminate|]. repeat constructor; vm_compute; discriminate.
  - right. by exists 64%nat.
  - vm_compute. reflexivity.
Defined.

Lemma seamless_means_unseen_witness : exposed_payloads (reader (link_new 4 64)) = [].
Proof.
  apply (seamless_means_unseen 4 64 (link_new 4 64) {| labeled_transcript_recovery := true |} 0);
    reflexivity.
Defined.

End Link.
