(* ===== verification/StatefulDelivery.v ===== *)
(** * Write-ahead delivery of stateful items (rabs-protocol/src/stateful_delivery.rs)

    A subscriber's delivery plan is walked item by item.  The engine's durable
    slice (recorded intents and the acknowledged frontier) survives a crash, its
    volatile fields do not, and the visible world is outside the program.  The
    [step] relation below runs the engine's methods and crashes in any order; the
    theorems say that every stateful effect becomes visible exactly once, in plan
    order, and that recovery always finishes the plan. *)

From stdpp Require Import base gmap list sorting relations.
From Stdlib Require Import ZArith Lia.
From S2P Require Import Prelude Machines.
Import LocalProtocol.

Module StatefulDelivery.

(** ** Data *)

Inductive DeliveryItemKind := TranscriptItem | StatefulWrite | Terminal.

#[export] Instance DeliveryItemKind_eq_dec : EqDecision DeliveryItemKind.
Proof. solve_decision. Defined.

Inductive PlanError := MissingTerminal | TerminalNotLast | Empty.

(** [DeliveryPlan]: the items at sequences [1..=len]. *)
Definition DeliveryPlan : Type := list DeliveryItemKind.

Definition is_terminal_item (k : DeliveryItemKind) : bool :=
  match k with Terminal => true | _ => false end.

Definition plan_new (items : list DeliveryItemKind) : result PlanError DeliveryPlan :=
  match items with
  | [] => Err Empty
  | _ =>
      let terminals := length (List.filter is_terminal_item items) in
      if Nat.eqb terminals 0 then Err MissingTerminal
      else if Nat.ltb 1 terminals || bool_decide (last items ≠ Some Terminal)
      then Err TerminalNotLast
      else Ok items
  end.

Definition plan_len (p : DeliveryPlan) : Z := Z.of_nat (length p).

Definition kind (p : DeliveryPlan) (s : Z) : option DeliveryItemKind :=
  match checked_sub s 1 with
  | Some i => p !! Z.to_nat i
  | None => None
  end.

Record DurableDeliveryState := {
  intents : gset Z;     (* BTreeSet<u64> *)
  acked_frontier : Z;   (* u64 *)
}.

(** [VisibleWorld]: the exposure events, in the order they became visible. *)
Definition VisibleWorld : Type := list Z.

Inductive DestinationInspection := EffectLanded | EffectAbsent.

Definition inspect (w : VisibleWorld) (s : Z) : DestinationInspection :=
  if bool_decide (s ∈ w) then EffectLanded else EffectAbsent.

Inductive RecoveryClass :=
  | CleanResume (next_seq : Z)
  | DeliveryUncertain (s : Z)
  | Complete.

Inductive DeliveryError :=
  | NotNextItem (expected : Z)
  | IntentNotRecorded (s : Z)
  | NotAStatefulItem (s : Z)
  | AlreadyExposing (exposing : Z)
  | NotExposing (s : Z)
  | UncertainUnresolved (s : Z)
  | NothingUncertain
  | UnknownSequence (s : Z).

Record DeliveryEngine := {
  plan : DeliveryPlan;
  durable : DurableDeliveryState;
  exposing : option Z;
  unresolved_uncertain : option Z;
}.

(** ** Operations *)

Definition engine_new (p : DeliveryPlan) : DeliveryEngine :=
  {| plan := p; durable := {| intents := ∅; acked_frontier := 0 |};
     exposing := None; unresolved_uncertain := None |}.

Definition next_seq (e : DeliveryEngine) : Z := wadd 64 (acked_frontier (durable e)) 1.

Definition guard_uncertain (e : DeliveryEngine) : result DeliveryError unit :=
  match unresolved_uncertain e with
  | Some s => Err (UncertainUnresolved s)
  | None => Ok tt
  end.

Definition record_intent (s : Z) : method DeliveryEngine DeliveryError unit :=
  e ← get;
  _ ← lift_result (guard_uncertain e);
  _ ← refuse_if (negb (s =? next_seq e)) (NotNextItem (next_seq e));
  _ ← lift_result match kind (plan e) s with
                  | None => Err (UnknownSequence s)
                  | Some StatefulWrite => Ok tt
                  | Some _ => Err (NotAStatefulItem s)
                  end;
  put {| plan := plan e;
         durable := {| intents := {[ s ]} ∪ intents (durable e);
                       acked_frontier := acked_frontier (durable e) |};
         exposing := exposing e; unresolved_uncertain := unresolved_uncertain e |}.

(** Engine and world are both [&mut]. *)
Definition begin_expose (s : Z) : method (DeliveryEngine * VisibleWorld) DeliveryError unit :=
  ew ← get;
  let e := fst ew in
  _ ← lift_result (guard_uncertain e);
  _ ← lift_result match exposing e with
                  | Some x => Err (AlreadyExposing x)
                  | None => Ok tt
                  end;
  _ ← refuse_if (negb (s =? next_seq e)) (NotNextItem (next_seq e));
  k ← lift_result (ok_or (kind (plan e) s) (UnknownSequence s));
  _ ← refuse_if (match k with StatefulWrite => true | _ => false end
                 && bool_decide (s ∉ intents (durable e))) (IntentNotRecorded s);
  put ({| plan := plan e; durable := durable e; exposing := Some s;
          unresolved_uncertain := unresolved_uncertain e |},
       snd ew ++ [s]).

Definition ack (s : Z) : method DeliveryEngine DeliveryError unit :=
  e ← get;
  _ ← lift_result (guard_uncertain e);
  _ ← refuse_if (bool_decide (exposing e ≠ Some s)) (NotExposing s);
  put {| plan := plan e;
         durable := {| intents := intents (durable e); acked_frontier := s |};
         exposing := None; unresolved_uncertain := unresolved_uncertain e |}.

Definition classify (e : DeliveryEngine) : RecoveryClass :=
  if plan_len (plan e) <=? acked_frontier (durable e) then Complete
  else
    let next := next_seq e in
    if bool_decide (next ∈ intents (durable e)) then DeliveryUncertain next
    else CleanResume next.

Definition crash (e : DeliveryEngine) : DeliveryEngine :=
  let recovered := {| plan := plan e; durable := durable e; exposing := None;
                      unresolved_uncertain := None |} in
  match classify recovered with
  | DeliveryUncertain s =>
      {| plan := plan e; durable := durable e; exposing := None;
         unresolved_uncertain := Some s |}
  | _ => recovered
  end.

Definition resolve_uncertain (inspection : DestinationInspection)
    : method DeliveryEngine DeliveryError unit :=
  e ← get;
  s ← lift_result (ok_or (unresolved_uncertain e) NothingUncertain);
  put {| plan := plan e;
         durable :=
           match inspection with
           | EffectLanded => {| intents := intents (durable e); acked_frontier := s |}
           | EffectAbsent => durable e
           end;
         exposing := exposing e; unresolved_uncertain := None |}.

Definition delivery_complete (e : DeliveryEngine) : bool :=
  plan_len (plan e) <=? acked_frontier (durable e).

Definition frontier_report (e : DeliveryEngine) : SubscriberFrontierReport :=
  {| transcript_exposed := 0 <? acked_frontier (durable e);
     transcript_uncertain := false;
     stateful_intent_recorded := bool_decide (intents (durable e) ≠ ∅);
     stateful_uncertain := match unresolved_uncertain e with Some _ => true | None => false end;
     last_fully_delivered_seq := acked_frontier (durable e) |}.

(** ** Runs: methods, crashes and truthful inspections in any order *)

Inductive step : DeliveryEngine * VisibleWorld -> DeliveryEngine * VisibleWorld -> Prop :=
  | step_intent s e w : step (e, w) (snd (record_intent s e), w)
  | step_expose s e w : step (e, w) (snd (begin_expose s (e, w)))
  | step_ack s e w : step (e, w) (snd (ack s e), w)
  | step_crash e w : step (e, w) (crash e, w)
  | step_resolve s e w :
      unresolved_uncertain e = Some s ->
      step (e, w) (snd (resolve_uncertain (inspect w s) e), w).

Definition start (p : DeliveryPlan) : DeliveryEngine * VisibleWorld := (engine_new p, []).

Definition stateful (p : DeliveryPlan) (s : Z) : bool :=
  match kind p s with Some StatefulWrite => true | _ => false end.

(** The stateful sequences among [1..=n], in order. *)
Definition stateful_seqs (p : DeliveryPlan) (n : nat) : list Z :=
  List.filter (stateful p) (seqZ 1 (Z.of_nat n)).

(** The effects of stateful items, in the order they became visible. *)
Definition stateful_effects (p : DeliveryPlan) (w : VisibleWorld) : list Z :=
  List.filter (stateful p) w.

(** The uncertain interval or an exposure in progress covers the next item. *)
Definition busy (e : DeliveryEngine) : Prop :=
  exposing e = Some (acked_frontier (durable e) + 1)
  \/ unresolved_uncertain e = Some (acked_frontier (durable e) + 1).

Record Inv (p : DeliveryPlan) (st : DeliveryEngine * VisibleWorld) : Prop := {
  inv_plan : plan (fst st) = p;
  inv_len : Z.of_nat (length p) < U64_MAX;
  inv_frontier : 0 <= acked_frontier (durable (fst st)) <= Z.of_nat (length p);
  inv_exposing : forall s, exposing (fst st) = Some s ->
    s = acked_frontier (durable (fst st)) + 1 /\ s <= Z.of_nat (length p) /\ s ∈ snd st
    /\ unresolved_uncertain (fst st) = None
    /\ (stateful p s = true -> s ∈ intents (durable (fst st)));
  inv_uncertain : forall s, unresolved_uncertain (fst st) = Some s ->
    s = acked_frontier (durable (fst st)) + 1 /\ s <= Z.of_nat (length p)
    /\ stateful p s = true;
  inv_intents : forall s, s ∈ intents (durable (fst st)) ->
    s <= acked_frontier (durable (fst st)) + 1 /\ stateful p s = true;
  inv_recorded : forall s, 1 <= s <= acked_frontier (durable (fst st)) ->
    stateful p s = true -> s ∈ intents (durable (fst st));
  inv_visible : forall s, 1 <= s <= acked_frontier (durable (fst st)) -> s ∈ snd st;
  inv_effects :
    let f := acked_frontier (durable (fst st)) in
    stateful_effects p (snd st) = stateful_seqs p (Z.to_nat f)
    \/ stateful_effects p (snd st) = stateful_seqs p (Z.to_nat (f + 1))
       /\ stateful p (f + 1) = true /\ f + 1 ∈ intents (durable (fst st)) /\ busy (fst st);
}.

Lemma stateful_seqs_S p n :
  stateful_seqs p (S n)
  = stateful_seqs p n ++ (if stateful p (Z.of_nat n + 1) then [Z.of_nat n + 1] else []).
Proof.
  unfold stateful_seqs. rewrite seqZ_S, List.filter_app. cbn.
  rewrite Z.add_comm. by destruct (stateful p _).
Qed.

Lemma stateful_seqs_elem p n s : s ∈ stateful_seqs p n -> 1 <= s <= Z.of_nat n.
Proof.
  unfold stateful_seqs. rewrite list_elem_of_In, List.filter_In, <- list_elem_of_In.
  intros [H _]. apply elem_of_seqZ in H. lia.
Qed.

Lemma stateful_effects_elem p w s :
  s ∈ stateful_effects p w <-> s ∈ w /\ stateful p s = true.
Proof.
  unfold stateful_effects. by rewrite !list_elem_of_In, List.filter_In.
Qed.

Lemma stateful_effects_snoc p w s :
  stateful_effects p (w ++ [s]) = stateful_effects p w ++ (if stateful p s then [s] else []).
Proof. unfold stateful_effects. rewrite List.filter_app. cbn. by destruct (stateful p s). Qed.

(** The next sequence, in range. *)
Lemma next_seq_eq p st :
  Inv p st -> next_seq (fst st) = acked_frontier (durable (fst st)) + 1.
Proof.
  intros H. unfold next_seq. destruct (inv_frontier _ _ H).
  apply wadd_small. pose proof (inv_len _ _ H). unfold U64_MAX in *. lia.
Qed.

Lemma kind_range p s k : kind p s = Some k -> 1 <= s <= Z.of_nat (length p).
Proof.
  unfold kind, checked_sub. destruct (Z.leb_spec 1 s); [|done].
  intros Hk. apply lookup_lt_Some in Hk. lia.
Qed.

Lemma stateful_range p s : stateful p s = true -> 1 <= s <= Z.of_nat (length p).
Proof.
  unfold stateful. destruct (kind p s) eqn:Hk; [|done]. intros _. by eapply kind_range.
Qed.

(** ** What each method does when it does not refuse *)

Lemma record_intent_cases s e :
  snd (record_intent s e) = e
  \/ unresolved_uncertain e = None /\ s = next_seq e /\ stateful (plan e) s = true
     /\ snd (record_intent s e)
        = {| plan := plan e;
             durable := {| intents := {[ s ]} ∪ intents (durable e);
                           acked_frontier := acked_frontier (durable e) |};
             exposing := exposing e; unresolved_uncertain := None |}.
Proof.
  unfold record_intent, guard_uncertain, stateful. unmonad.
  destruct (unresolved_uncertain e); [by left|].
  destruct (Z.eqb_spec s (next_seq e)); cbn [negb]; [|by left].
  destruct (kind (plan e) s) as [[]|]; cbn; auto.
Qed.

Lemma begin_expose_cases s e w :
  snd (begin_expose s (e, w)) = (e, w)
  \/ unresolved_uncertain e = None /\ exposing e = None /\ s = next_seq e
     /\ s <= Z.of_nat (length (plan e))
     /\ (stateful (plan e) s = true -> s ∈ intents (durable e))
     /\ snd (begin_expose s (e, w))
        = ({| plan := plan e; durable := durable e; exposing := Some s;
              unresolved_uncertain := None |}, w ++ [s]).
Proof.
  unfold begin_expose, guard_uncertain, stateful, ok_or. unmonad.
  destruct (unresolved_uncertain e); [by left|].
  destruct (exposing e); [by left|].
  destruct (Z.eqb_spec s (next_seq e)) as [Hs|]; cbn [negb]; [|by left].
  destruct (kind (plan e) s) as [k|] eqn:Hk; cbn; [|by left].
  pose proof (kind_range _ _ _ Hk).
  destruct k; cbn; [|case_bool_decide; [by left|]|]; right; split_and!; try done; lia || tauto.
Qed.

Lemma ack_cases s e :
  snd (ack s e) = e
  \/ unresolved_uncertain e = None /\ exposing e = Some s
     /\ snd (ack s e)
        = {| plan := plan e;
             durable := {| intents := intents (durable e); acked_frontier := s |};
             exposing := None; unresolved_uncertain := None |}.
Proof.
  unfold ack, guard_uncertain. unmonad. destruct (unresolved_uncertain e); [by left|].
  case_bool_decide as Hb; cbn; [by left|]. right. by split_and!.
Qed.

(** ** Preservation *)

Lemma Inv_start p : Z.of_nat (length p) < U64_MAX -> Inv p (start p).
Proof.
  intros H. split; cbn; try done; try lia; try (intros; set_solver || lia).
Qed.

(** While nothing covers the next item, its effect is not visible. *)
Lemma idle_effects p e w :
  Inv p (e, w) -> exposing e = None -> unresolved_uncertain e = None ->
  stateful_effects p w = stateful_seqs p (Z.to_nat (acked_frontier (durable e))).
Proof.
  intros H He Hu. destruct (inv_effects _ _ H) as [?|(_ & _ & _ & [?|?])]; cbn in *;
    [done|congruence..].
Qed.

Lemma Inv_intent p s e w : Inv p (e, w) -> Inv p (snd (record_intent s e), w).
Proof.
  intros H. pose proof (next_seq_eq _ _ H) as Hn.
  destruct (record_intent_cases s e) as [->|(Hu & -> & Hst & ->)]; [done|].
  destruct H as [Hp Hl Hf Hx Huc Hi Hr Hv He]. cbn [fst snd durable exposing
    unresolved_uncertain plan intents acked_frontier] in *. rewrite Hn in *. subst p.
  split; cbn [fst snd durable exposing unresolved_uncertain plan intents acked_frontier]; try done.
  - intros s Hs. destruct (Hx s Hs) as (? & ? & ? & ? & ?). split_and!; try done. set_solver.
  - intros s. rewrite elem_of_union, elem_of_singleton. intros [->|?]; [split; [lia|done]|auto].
  - intros s Hs Hst'. apply elem_of_union. auto.
  - destruct He as [?|(? & ? & ? & Hb)]; [by left|right]. split_and!; try done; [set_solver|].
    unfold busy in *. cbn. by rewrite Hu in Hb.
Qed.

Lemma Inv_expose p s e w : Inv p (e, w) -> Inv p (snd (begin_expose s (e, w))).
Proof.
  intros H. pose proof (next_seq_eq _ _ H) as Hn.
  destruct (begin_expose_cases s e w) as [->|(Hu & Hex & -> & Hle & Hint & ->)]; [done|].
  pose proof (idle_effects _ _ _ H Hex Hu) as Hidle.
  destruct H as [Hp Hl Hf Hx Huc Hi Hr Hv He]. cbn [fst snd durable exposing
    unresolved_uncertain plan intents acked_frontier] in *. rewrite Hn in *. subst p.
  split; cbn [fst snd durable exposing unresolved_uncertain plan intents acked_frontier]; try done.
  - intros s [= <-]. split_and!; try done. set_solver.
  - intros s Hs. specialize (Hv s Hs). set_solver.
  - rewrite stateful_effects_snoc, Hidle.
    destruct (stateful (plan e) (acked_frontier (durable e) + 1)) eqn:Hst;
      [right|left; by rewrite app_nil_r].
    split_and!; [|done|auto|by left].
    replace (Z.to_nat (acked_frontier (durable e) + 1))
      with (S (Z.to_nat (acked_frontier (durable e)))) by lia.
    rewrite stateful_seqs_S, Z2Nat.id by lia. by rewrite Hst.
Qed.

(** Advancing the frontier over an item whose effect is visible. *)
Lemma effects_advance p f w :
  0 <= f -> stateful_effects p w = stateful_seqs p (Z.to_nat f)
    \/ stateful_effects p w = stateful_seqs p (Z.to_nat (f + 1)) ->
  f + 1 ∈ w ->
  stateful_effects p w = stateful_seqs p (Z.to_nat (f + 1)).
Proof.
  intros Hf [Heq|Heq] Hin; [|done]. rewrite Heq.
  replace (Z.to_nat (f + 1)) with (S (Z.to_nat f)) by lia.
  rewrite stateful_seqs_S, Z2Nat.id by lia.
  destruct (stateful p (f + 1)) eqn:Hst; [exfalso|by rewrite app_nil_r].
  assert (f + 1 ∈ stateful_effects p w) as Hel by (by apply stateful_effects_elem).
  rewrite Heq in Hel. apply stateful_seqs_elem in Hel. lia.
Qed.

(** Both ways the frontier moves: an acknowledged exposure and a landed effect. *)
Lemma Inv_advance p e w :
  Inv p (e, w) -> let f := acked_frontier (durable e) in
  f + 1 <= Z.of_nat (length p) -> f + 1 ∈ w ->
  (stateful p (f + 1) = true -> f + 1 ∈ intents (durable e)) ->
  Inv p ({| plan := plan e;
            durable := {| intents := intents (durable e); acked_frontier := f + 1 |};
            exposing := None; unresolved_uncertain := None |}, w).
Proof.
  intros [Hp Hl Hf Hx Huc Hi Hr Hv He] f Hle Hin Hint. cbn in *.
  split; cbn; try done; try lia.
  - intros s Hs. destruct (Hi s Hs). split; [lia|done].
  - intros s Hs Hst. destruct (decide (s = f + 1)) as [->|]; [auto|]. apply Hr; [lia|done].
  - intros s Hs. destruct (decide (s = f + 1)) as [->|]; [done|]. apply Hv. lia.
  - left. apply effects_advance; [lia| |done]. destruct He as [?|[? _]]; auto.
Qed.

Lemma Inv_ack p s e w : Inv p (e, w) -> Inv p (snd (ack s e), w).
Proof.
  intros H. destruct (ack_cases s e) as [->|(Hu & Hs & ->)]; [done|].
  destruct (inv_exposing _ _ H s Hs) as (-> & Hle & Hin & _ & Hint).
  by apply Inv_advance.
Qed.

Lemma Inv_crash p e w : Inv p (e, w) -> Inv p (crash e, w).
Proof.
  intros H. pose proof (next_seq_eq _ _ H) as Hn.
  destruct H as [Hp Hl Hf Hx Huc Hi Hr Hv He]. cbn [fst snd] in *. subst p.
  unfold crash, classify, plan_len, next_seq in *.
  cbn [plan durable acked_frontier] in *. rewrite Hn.
  destruct (Z.leb_spec (Z.of_nat (length (plan e))) (acked_frontier (durable e))) as [Hd|Hd].
  - split; cbn; try done. left. destruct He as [?|(_ & Hst & _)]; [done|].
    apply stateful_range in Hst. lia.
  - case_bool_decide as Hin.
    + split; cbn; try done.
      * intros s [= <-]. split_and!; [done|lia|]. by apply Hi.
      * destruct He as [?|(? & ? & ? & _)]; [by left|right]. split_and!; try done. by right.
    + split; cbn; try done. left. destruct He as [?|(_ & _ & ? & _)]; done.
Qed.

Lemma Inv_resolve p s e w :
  Inv p (e, w) -> unresolved_uncertain e = Some s ->
  Inv p (snd (resolve_uncertain (inspect w s) e), w).
Proof.
  intros H Hs. destruct (inv_uncertain _ _ H s Hs) as (-> & Hle & Hst). cbn [fst] in *.
  assert (exposing e = None) as Hex.
  { destruct (exposing e) as [x|] eqn:Hx; [|done].
    destruct (inv_exposing _ _ H x Hx) as (_ & _ & _ & ? & _). cbn in *. congruence. }
  unfold resolve_uncertain, inspect, ok_or. unmonad. rewrite Hs. cbn.
  case_bool_decide as Hin.
  - rewrite Hex. apply (Inv_advance p e w); try done. intros _.
    destruct (inv_effects _ _ H) as [He|(_ & _ & ? & _)]; [|done]. cbn [fst snd] in He.
    assert (acked_frontier (durable e) + 1 ∈ stateful_effects p w) as Hel
      by (by apply stateful_effects_elem).
    rewrite He in Hel. apply stateful_seqs_elem in Hel.
    pose proof (inv_frontier _ _ H). cbn in *. lia.
  - destruct H as [Hp Hl Hf Hx Huc Hi Hr Hv He]. cbn [fst snd] in *.
    split; cbn [fst snd plan durable exposing unresolved_uncertain]; try done.
    + rewrite Hex. done.
    + left. destruct He as [?|(He & _)]; [done|]. exfalso. apply Hin.
      assert (acked_frontier (durable e) + 1 ∈ stateful_effects p w) as Hel; [|
        by apply stateful_effects_elem in Hel as [? _]].
      rewrite He. replace (Z.to_nat (acked_frontier (durable e) + 1))
        with (S (Z.to_nat (acked_frontier (durable e)))) by lia.
      rewrite stateful_seqs_S, Z2Nat.id by lia. rewrite Hst. set_solver.
Qed.

Lemma engine_Inv_step p st st' : Inv p st -> step st st' -> Inv p st'.
Proof.
  intros H Hs. destruct Hs; eauto using Inv_intent, Inv_expose, Inv_ack, Inv_crash, Inv_resolve.
Qed.

Lemma engine_Inv_reachable p st :
  Z.of_nat (length p) < U64_MAX -> rtc step (start p) st -> Inv p st.
Proof.
  intros Hl. eapply invariant_rtc; [intros ? ?; apply engine_Inv_step | by apply Inv_start].
Qed.

(** ** Exactly once *)

Lemma stateful_seqs_NoDup p n : NoDup (stateful_seqs p n).
Proof.
  unfold stateful_seqs. apply NoDup_ListNoDup, List.NoDup_filter, NoDup_ListNoDup, NoDup_seqZ.
Qed.

(** C10: every stateful effect becomes visible exactly once, in plan order.  However
    intents, exposures, acknowledgements, crashes and destination inspections
    interleave, the stateful effects visible so far are the stateful items of the
    plan up to the acknowledged frontier, in order and without repetition, followed
    at most by the next item, and then only if its intent was recorded before; when
    delivery is complete they are all of the plan's stateful items and every item of
    the plan has been exposed. *)
Theorem stateful_effects_exactly_once p e w :
  Z.of_nat (length p) < U64_MAX -> rtc step (start p) (e, w) ->
  let f := acked_frontier (durable e) in
  NoDup (stateful_effects p w)
  /\ (stateful_effects p w = stateful_seqs p (Z.to_nat f)
      \/ stateful_effects p w = stateful_seqs p (Z.to_nat (f + 1))
         /\ f + 1 ∈ intents (durable e))
  /\ (delivery_complete e = true ->
        stateful_effects p w = stateful_seqs p (length p)
        /\ forall s, 1 <= s <= Z.of_nat (length p) -> s ∈ w).
Proof.
  intros Hl Hr f. pose proof (engine_Inv_reachable _ _ Hl Hr) as [Hp _ Hf _ _ _ _ Hv He].
  cbn [fst snd] in *. fold f in Hf, Hv, He. split_and!.
  - destruct He as [->|[-> _]]; apply stateful_seqs_NoDup.
  - destruct He as [?|(? & _ & ? & _)]; auto.
  - unfold delivery_complete, plan_len. rewrite Hp. fold f. intros Hc.
    assert (f = Z.of_nat (length p)) as Hfe by lia. split.
    + destruct He as [->|(_ & Hst & _)]; [by rewrite Hfe, Nat2Z.id|].
      apply stateful_range in Hst. lia.
    + intros s Hs. apply Hv. lia.
Qed.

(** An uncertain delivery fails closed.  In every reachable state, once any
    stateful intent is recorded no configuration lets the wrapper rerun locally;
    and while an item is uncertain every engine method but the resolution refuses
    and changes neither the engine nor the world. *)
Theorem uncertainty_fails_closed p e w config request_id :
  Z.of_nat (length p) < U64_MAX -> rtc step (start p) (e, w) ->
  (intents (durable e) ≠ ∅ ->
     reruns_locally (decide_fallback (frontier_report e) config request_id) = false)
  /\ (forall u, unresolved_uncertain e = Some u ->
        reruns_locally (decide_fallback (frontier_report e) config request_id) = false
        /\ u = acked_frontier (durable e) + 1
        /\ forall s, record_intent s e = (Err (UncertainUnresolved u), e)
           /\ begin_expose s (e, w) = (Err (UncertainUnresolved u), (e, w))
           /\ ack s e = (Err (UncertainUnresolved u), e)).
Proof.
  intros Hl Hr. pose proof (engine_Inv_reachable _ _ Hl Hr) as H.
  unfold decide_fallback, permitted_fallback, frontier_report. cbn [stateful_intent_recorded
    stateful_uncertain transcript_exposed transcript_uncertain]. split.
  - intros Hi. rewrite bool_decide_eq_true_2 by done. done.
  - intros u Hu. rewrite Hu, orb_true_r. split; [done|].
    destruct (inv_uncertain _ _ H u Hu) as (-> & _). split; [done|]. intros s.
    unfold record_intent, begin_expose, ack, guard_uncertain. unmonad. by rewrite Hu.
Qed.

(** ** Recovery finishes the plan *)

(** A restarted edge: classify, inspect the destination if needed, resolve. *)
Definition recover (ew : DeliveryEngine * VisibleWorld) : DeliveryEngine * VisibleWorld :=
  let e := crash (fst ew) in
  match unresolved_uncertain e with
  | Some s => (snd (resolve_uncertain (inspect (snd ew) s) e), snd ew)
  | None => (e, snd ew)
  end.

(** Intent (refused for items that are not stateful), exposure, acknowledgement. *)
Definition deliver_item (ew : DeliveryEngine * VisibleWorld) : DeliveryEngine * VisibleWorld :=
  let s := next_seq (fst ew) in
  let e1 := snd (record_intent s (fst ew)) in
  let ew2 := snd (begin_expose s (e1, snd ew)) in
  (snd (ack s (fst ew2)), snd ew2).

Fixpoint drive (n : nat) (ew : DeliveryEngine * VisibleWorld) : DeliveryEngine * VisibleWorld :=
  match n with O => ew | S n => drive n (deliver_item ew) end.

Definition idle (e : DeliveryEngine) : Prop :=
  exposing e = None /\ unresolved_uncertain e = None.

Lemma recover_idle p ew :
  Inv p ew -> Inv p (recover ew) /\ idle (fst (recover ew)).
Proof.
  destruct ew as [e w]. intros H. pose proof (Inv_crash _ _ _ H) as Hc.
  unfold recover. cbn [fst snd].
  assert (exposing (crash e) = None) as Hx by (unfold crash; by destruct (classify _)).
  destruct (unresolved_uncertain (crash e)) as [s|] eqn:Hu; [|by split].
  split; [by apply Inv_resolve|]. unfold resolve_uncertain, ok_or. unmonad. rewrite Hu.
  by split.
Qed.

Lemma deliver_item_next p ew :
  Inv p ew -> idle (fst ew) -> acked_frontier (durable (fst ew)) < Z.of_nat (length p) ->
  let ew' := deliver_item ew in
  Inv p ew' /\ idle (fst ew')
  /\ acked_frontier (durable (fst ew')) = acked_frontier (durable (fst ew)) + 1.
Proof.
  destruct ew as [e w]. cbn [fst]. intros H [Hx Hu] Hlt. pose proof (next_seq_eq _ _ H) as Hn.
  cbn [fst] in Hn. pose proof (inv_frontier _ _ H) as Hf. cbn [fst] in Hf.
  pose proof (inv_plan _ _ H) as Hp. cbn [fst] in Hp.
  set (f := acked_frontier (durable e)) in *.
  destruct (lookup_lt_is_Some_2 p (Z.to_nat f)) as [k Hk]; [lia|].
  assert (kind p (f + 1) = Some k) as Hkind.
  { unfold kind, checked_sub. destruct (Z.leb_spec 1 (f + 1)); [|lia].
    by replace (f + 1 - 1) with f by lia. }
  unfold deliver_item. cbn [fst snd]. rewrite Hn.
  pose proof (Inv_intent p (f + 1) e w H) as H1.
  set (e1 := snd (record_intent (f + 1) e)) in *.
  assert (plan e1 = p /\ acked_frontier (durable e1) = f /\ idle e1
          /\ (stateful p (f + 1) = true -> f + 1 ∈ intents (durable e1)))
    as (Hp1 & Hf1 & [Hx1 Hu1] & Hi1).
  { unfold e1, record_intent, guard_uncertain, idle, stateful. unmonad.
    rewrite Hu, Hn, Z.eqb_refl. cbn [negb]. rewrite Hp, Hkind.
    destruct k; cbn; split_and!; try done. set_solver. }
  pose proof (next_seq_eq _ _ H1) as Hn1. cbn [fst] in Hn1. rewrite Hf1 in Hn1.
  pose proof (Inv_expose p (f + 1) e1 w H1) as H2.
  assert (snd (begin_expose (f + 1) (e1, w))
          = ({| plan := p; durable := durable e1; exposing := Some (f + 1);
                unresolved_uncertain := None |}, w ++ [f + 1])) as Heq.
  { unfold begin_expose, guard_uncertain, ok_or. unmonad.
    rewrite Hu1, Hx1, Hn1, Z.eqb_refl. cbn [negb]. rewrite Hp1, Hkind. cbn.
    unfold stateful in Hi1. rewrite Hkind in Hi1.
    destruct k; cbn; [done| |done]. by rewrite bool_decide_eq_false_2 by auto. }
  rewrite Heq in *. cbn [fst snd].
  pose proof (Inv_ack p (f + 1) _ _ H2) as H3. split; [exact H3|].
  unfold ack, guard_uncertain. unmonad. cbn. rewrite bool_decide_eq_false_2 by auto. done.
Qed.

Lemma drive_completes p n ew :
  Inv p ew -> idle (fst ew) ->
  acked_frontier (durable (fst ew)) + Z.of_nat n = Z.of_nat (length p) ->
  Inv p (drive n ew) /\ acked_frontier (durable (fst (drive n ew))) = Z.of_nat (length p).
Proof.
  revert ew. induction n as [|n IH]; intros ew H Hi Hn; cbn [drive]; [split; [done|lia]|].
  destruct (deliver_item_next p ew H Hi ltac:(lia)) as (H' & Hi' & Hf').
  apply IH; [done..|lia].
Qed.

(** C28: recovery finishes what a crash interrupted.  From every reachable state, a
    restart that resolves the uncertain item by inspecting its destination and then
    delivers the remaining items one by one reaches [DeliveryComplete], with every
    item of the plan exposed and each stateful effect visible exactly once. *)
Theorem recovery_completes p e w :
  Z.of_nat (length p) < U64_MAX -> rtc step (start p) (e, w) ->
  let ew := recover (e, w) in
  let n := Z.to_nat (Z.of_nat (length p) - acked_frontier (durable (fst ew))) in
  let final := drive n ew in
  delivery_complete (fst final) = true
  /\ stateful_effects p (snd final) = stateful_seqs p (length p)
  /\ forall s, 1 <= s <= Z.of_nat (length p) -> s ∈ snd final.
Proof.
  intros Hl Hr ew n. pose proof (engine_Inv_reachable _ _ Hl Hr) as H.
  destruct (recover_idle _ _ H) as [H' Hi]. fold ew in H', Hi.
  pose proof (inv_frontier _ _ H') as Hf.
  destruct (drive_completes p n ew H' Hi ltac:(unfold n; lia)) as [H3 Hf3].
  cbn zeta. destruct H3 as [Hp _ _ _ _ _ _ Hv He]. rewrite Hf3 in Hv, He. split_and!.
  - unfold delivery_complete, plan_len. rewrite Hp, Hf3. lia.
  - destruct He as [->|(_ & Hst & _)]; [by rewrite Nat2Z.id|].
    apply stateful_range in Hst. lia.
  - exact Hv.
Qed.

(** ** Plans *)

Lemma no_terminals items :
  length (List.filter is_terminal_item items) = 0%nat <-> Terminal ∉ items.
Proof.
  induction items as [|k items IH]; cbn; [split; [intros _; apply not_elem_of_nil|done]|].
  rewrite not_elem_of_cons. destruct k; cbn; rewrite ?IH; naive_solver.
Qed.

(** A plan is accepted exactly when it has one terminal item and that item is
    last, so acknowledging the terminal means every other item was delivered
    before. *)
Theorem plan_new_spec items p :
  plan_new items = Ok p
  <-> p = items /\ exists front, items = front ++ [Terminal] /\ Terminal ∉ front.
Proof.
  destruct items as [|k front _] using rev_ind.
  { split; [done|]. by intros (_ & [|] & ? & _). }
  assert (plan_new (front ++ [k])
          = let t := length (List.filter is_terminal_item (front ++ [k])) in
            if Nat.eqb t 0 then Err MissingTerminal
            else if Nat.ltb 1 t || bool_decide (last (front ++ [k]) ≠ Some Terminal)
            then Err TerminalNotLast else Ok (front ++ [k])) as -> by (by destruct front).
  cbn zeta. rewrite List.filter_app, length_app, last_snoc.
  assert ((exists front', front ++ [k] = front' ++ [Terminal] /\ Terminal ∉ front')
          <-> k = Terminal /\ length (List.filter is_terminal_item front) = 0%nat) as ->.
  { rewrite no_terminals. split.
    - intros (front' & Heq & Hni). apply app_inj_2 in Heq as [-> [= ->]]; done.
    - intros [-> Hni]. eauto. }
  destruct (decide (k = Terminal)) as [->|Hk].
  - rewrite bool_decide_eq_false_2, orb_false_r by auto. cbn [List.filter is_terminal_item length].
    destruct (length (List.filter is_terminal_item front)) as [|n]; cbn.
    + split; [intros [= <-]; auto | by intros [-> _]].
    + rewrite Nat.add_1_r. cbn. split; [done | by intros (_ & _ & ?)].
  - rewrite bool_decide_eq_true_2, orb_true_r by congruence.
    destruct (Nat.eqb _ 0); split; [done | by intros (_ & ? & _) | done | by intros (_ & ? & _)].
Qed.

(** ** A crash between exposure and acknowledgement *)

Definition sample_plan : DeliveryPlan := [TranscriptItem; StatefulWrite; Terminal].

(** The transcript line is acknowledged; the rename landed and the edge died before
    it saw the acknowledgement. *)
Definition crashed : DeliveryEngine * VisibleWorld :=
  let e1 := snd (begin_expose 1 (start sample_plan)) in
  let e2 := (snd (ack 1 (fst e1)), snd e1) in
  let e3 := (snd (record_intent 2 (fst e2)), snd e2) in
  let e4 := snd (begin_expose 2 e3) in
  (crash (fst e4), snd e4).

Lemma crashed_reachable : rtc step (start sample_plan) crashed.
Proof.
  eapply rtc_l; [apply (step_expose 1)|]. eapply rtc_l; [apply (step_ack 1)|].
  eapply rtc_l; [apply (step_intent 2)|]. eapply rtc_l; [apply (step_expose 2)|].
  eapply rtc_l; [apply step_crash|]. reflexivity.
Qed.

Lemma stateful_effects_exactly_once_witness :
  stateful_effects sample_plan (snd crashed) = [2] /\ NoDup (stateful_effects sample_plan (snd crashed)).
Proof.
  split; [reflexivity|].
  apply (stateful_effects_exactly_once sample_plan (fst crashed) (snd crashed));
    [reflexivity | apply crashed_reachable].
Defined.

Lemma uncertainty_fails_closed_witness :
  unresolved_uncertain (fst crashed) = Some 2
  /\ begin_expose 2 crashed = (Err (UncertainUnresolved 2), crashed).
Proof.
  split; [reflexivity|].
  destruct (uncertainty_fails_closed sample_plan (fst crashed) (snd crashed)
              {| labeled_transcript_recovery := true |} 0) as [_ H];
    [reflexivity | apply crashed_reachable |].
  destruct (H 2 eq_refl) as (_ & _ & Hs). apply (Hs 2).
Defined.

Lemma recovery_completes_witness :
  let final := drive 1 (recover crashed) in
  delivery_complete (fst final) = true /\ stateful_effects sample_plan (snd final) = [2].
Proof.
  destruct (recovery_completes sample_plan (fst crashed) (snd crashed)) as (H1 & H2 & _);
    [reflexivity | apply crashed_reachable |]. split; [exact H1 | exact H2].
Defined.

End StatefulDelivery.
