(* ===== verification/Interest.v ===== *)
(** * Shared interest in one action (rabs-protocol/src/subscriber_interest.rs)

    Wrappers that intercepted the same command share one execution.  The registry
    counts retained interests; a wrapper that leaves, dies or is killed loses its own
    and nothing else, and cancelling the shared work is permitted only when the last
    one is gone.  The file also holds the signal and exit-status tables of the
    wrapper. *)

From stdpp Require Import base gmap list sorting.
From Stdlib Require Import ZArith Lia.
From S2P Require Import Prelude.

Module Interest.

(** ** Signals, causes and fates *)

Inductive WrapperSignal := Interrupt | Terminate | Hangup.

Definition number (s : WrapperSignal) : Z :=
  match s with Hangup => 1 | Interrupt => 2 | Terminate => 15 end.

Definition observed_exit_code (s : WrapperSignal) : Z := sadd 32 128 (number s).

Inductive DisconnectCause :=
  | UdsDisconnect | ProcessDead | ExplicitRelease
  | CauseSignal (s : WrapperSignal) | ParentDeath.

Inductive CancellationTrigger :=
  | TriggerSignal (s : WrapperSignal) | TriggerParentDeath | TriggerUdsDisconnect
  | TriggerProcessDead | TriggerExplicitRelease.

Inductive WrapperFate :=
  | DieBySignal (s : WrapperSignal)
  | ExitWithBuildCode
  | NotOurProcess.

Definition map_cancellation (t : CancellationTrigger) : DisconnectCause * WrapperFate :=
  match t with
  | TriggerSignal s => (CauseSignal s, DieBySignal s)
  | TriggerParentDeath => (ParentDeath, DieBySignal Terminate)
  | TriggerUdsDisconnect => (UdsDisconnect, NotOurProcess)
  | TriggerProcessDead => (ProcessDead, NotOurProcess)
  | TriggerExplicitRelease => (ExplicitRelease, ExitWithBuildCode)
  end.

Inductive ChildTermination :=
  | Exited (code : Z)
  | Signaled (signal_number : Z).

Inductive RelayAction :=
  | ExitWith (code : Z)
  | RestoreDefaultAndResignal (signal_number : Z)
  | ExitWithConventionalCode (code : Z).

Definition relay_child_termination (termination : ChildTermination)
    (resignal_supported : bool) : RelayAction :=
  match termination with
  | Exited code => ExitWith code
  | Signaled signal_number =>
      if resignal_supported then RestoreDefaultAndResignal signal_number
      else ExitWithConventionalCode (sadd 32 128 signal_number)
  end.

(** ** The registry *)

Inductive ActionDisposition :=
  | SurvivesWithRemaining (retained : nat)
  | LastInterestReleased.

Inductive AttemptCancellation :=
  | NotPermitted (retained : nat)
  | PermittedNow.

Inductive InterestError :=
  | AlreadyRegistered (subscriber : Z)
  | UnknownSubscriber (subscriber : Z).

#[export] Instance InterestError_eq_dec : EqDecision InterestError.
Proof. solve_decision. Defined.

Record SubscriberConn := {
  pid : Z;               (* u32 *)
  conn_obligation_open : bool;
}.

Record ReleaseOutcome := {
  released : bool;
  obligation_closed : bool;
  cause : DisconnectCause;
  disposition : ActionDisposition;
}.

Definition attempt_cancellation (o : ReleaseOutcome) : AttemptCancellation :=
  match disposition o with
  | SurvivesWithRemaining retained => NotPermitted retained
  | LastInterestReleased => PermittedNow
  end.

(** [SharedActionInterest]: subscriber ids to connections. *)
Abbreviation registry := (gmap Z SubscriberConn).

Definition registry_new : registry := ∅.

Definition register (subscriber p : Z) : method registry InterestError unit := fun m =>
  match m !! subscriber with
  | Some _ => (Err (AlreadyRegistered subscriber), m)
  | None => (Ok tt, <[subscriber := {| pid := p; conn_obligation_open := true |}]> m)
  end.

Definition retained (m : registry) : nat := size m.

Definition obligation_open (subscriber : Z) (m : registry) : result InterestError bool :=
  ok_or (conn_obligation_open <$> m !! subscriber) (UnknownSubscriber subscriber).

Definition release (subscriber : Z) (c : DisconnectCause) (m : registry)
    : ReleaseOutcome * registry :=
  let removed := m !! subscriber in
  let m' := delete subscriber m in
  ({| released := match removed with Some _ => true | None => false end;
      obligation_closed :=
        match removed with Some conn => conn_obligation_open conn | None => false end;
      cause := c;
      disposition :=
        if Nat.eqb (size m') 0 then LastInterestReleased
        else SurvivesWithRemaining (size m') |}, m').

(** The second loop of [sweep_dead]: one release per collected id. *)
Fixpoint release_each (ids : list Z) (m : registry) : list (Z * ReleaseOutcome) * registry :=
  match ids with
  | [] => ([], m)
  | id :: ids =>
      let '(o, m1) := release id ProcessDead m in
      let '(os, m2) := release_each ids m1 in
      ((id, o) :: os, m2)
  end.

Definition dead_ids (alive : Z -> bool) (m : registry) : list Z :=
  List.filter (fun id => match m !! id with Some c => negb (alive (pid c)) | None => false end)
    (btree_keys m).

Definition sweep_dead (alive : Z -> bool) (m : registry) : list (Z * ReleaseOutcome) * registry :=
  release_each (dead_ids alive m) m.

(** ** Interest survives other people's departures *)

Lemma release_disposition s c m :
  disposition (fst (release s c m)) = LastInterestReleased <-> delete s m = ∅.
Proof.
  unfold release. cbn. rewrite <- map_size_empty_iff.
  destruct (Nat.eqb_spec (size (delete s m)) 0); split; try done.
Qed.

(** One subscriber leaving never cancels the others' work.  A release removes
    exactly that subscriber's interest, closes its obligation if it was open, is a
    no-op for an id that holds none, and permits cancelling the shared attempt
    exactly when no other subscriber is registered; otherwise it reports how many
    remain. *)
Theorem release_spec s c m :
  let '(o, m') := release s c m in
  (forall s', m' !! s' = if decide (s' = s) then None else m !! s')
  /\ released o = bool_decide (is_Some (m !! s))
  /\ obligation_closed o = bool_decide (obligation_open s m = Ok true)
  /\ (attempt_cancellation o = PermittedNow <-> forall s', s' <> s -> m !! s' = None)
  /\ (forall n, attempt_cancellation o = NotPermitted n -> n = retained m' /\ (0 < n)%nat).
Proof.
  pose proof (release_disposition s c m) as Hd.
  destruct (release s c m) as [o m'] eqn:Hr. cbn [fst] in Hd.
  assert (attempt_cancellation o = PermittedNow <-> disposition o = LastInterestReleased) as Ha
    by (unfold attempt_cancellation; destruct (disposition o); split; congruence).
  unfold release in Hr. simplify_eq. split_and!.
  - intros s'. destruct (decide (s' = s)) as [->|]; simplify_map_eq; done.
  - cbn. destruct (m !! s); case_bool_decide as Hb; try done; by destruct Hb.
  - cbn. unfold obligation_open, ok_or. by destruct (m !! s) as [[p []]|].
  - rewrite Ha, Hd. split.
    + intros He s' Hs. rewrite <- (lookup_delete_ne m s s'), He by done. done.
    + intros He. apply map_empty. intros s'. destruct (decide (s = s')) as [->|]; simplify_map_eq; auto.
  - intros n. unfold attempt_cancellation, retained. cbn.
    destruct (Nat.eqb_spec (size (delete s m)) 0); [done|]. intros [= <-]. split; [done|lia].
Qed.

Lemma release_each_spec ids m :
  NoDup ids -> (forall id, id ∈ ids -> is_Some (m !! id)) ->
  let os := fst (release_each ids m) in
  let m' := snd (release_each ids m) in
  (forall s, m' !! s = if decide (s ∈ ids) then None else m !! s)
  /\ os.*1 = ids
  /\ Forall (fun p => released (snd p) = true /\ cause (snd p) = ProcessDead) os
  /\ (forall i s o, os !! i = Some (s, o) ->
        disposition o = LastInterestReleased <-> S i = length ids /\ m' = ∅).
Proof.
  revert m. induction ids as [|id ids IH]; intros m Hnd Hin.
  { cbn. split_and!; [|done|constructor|done]. intros s.
    by rewrite decide_False by apply not_elem_of_nil. }
  apply NoDup_cons in Hnd as [Hni Hnd].
  destruct (Hin id) as [conn Hconn]; [set_solver|].
  pose proof (release_disposition id ProcessDead m) as Hd.
  cbn [release_each]. destruct (release id ProcessDead m) as [o m1] eqn:Hr.
  cbn [fst] in Hd. assert (m1 = delete id m) as -> by (unfold release in Hr; by simplify_eq).
  assert (released o = true /\ cause o = ProcessDead) as Ho
    by (unfold release in Hr; simplify_eq; cbn; by rewrite Hconn).
  destruct (IH (delete id m) Hnd) as (Hm & Hids & Hall & Hdisp).
  { intros id' Hid'. rewrite lookup_delete_ne by set_solver. apply Hin. set_solver. }
  destruct (release_each ids (delete id m)) as [os m2] eqn:Hre. cbn [fst snd] in *.
  split_and!.
  - intros s. rewrite Hm. destruct (decide (s = id)) as [->|].
    + rewrite decide_False, decide_True, lookup_delete_eq by set_solver. done.
    + rewrite lookup_delete_ne by done.
      destruct (decide (s ∈ ids)); [by rewrite decide_True by set_solver|].
      by rewrite decide_False by set_solver.
  - cbn. by rewrite Hids.
  - by constructor.
  - intros [|i] s o' Hi; cbn in Hi; [injection Hi as <- <-|].
    + rewrite Hd. cbn [length]. split.
      * intros He. destruct ids as [|x ids].
        { cbn in Hre. simplify_eq. done. }
        destruct (Hin x) as [c Hc]; [set_solver|].
        rewrite <- (lookup_delete_ne m id x), He in Hc by set_solver. done.
      * intros [Hlen He]. destruct ids; [|cbn in Hlen; lia]. cbn in Hre. by simplify_eq.
    + rewrite (Hdisp i s o' Hi). cbn [length]. split; intros [? ?]; split; congruence || lia.
Qed.

Lemma elem_of_dead_ids alive m s :
  s ∈ dead_ids alive m <-> exists c, m !! s = Some c /\ alive (pid c) = false.
Proof.
  unfold dead_ids. rewrite list_elem_of_In, List.filter_In, <- list_elem_of_In.
  rewrite elem_of_btree_keys. destruct (m !! s) as [c|] eqn:Hs.
  - rewrite negb_true_iff. split; [intros [_ ?]; eauto|]. intros (c' & [= <-] & ?). eauto.
  - split; [by intros [_ ?]|]. by intros (? & ? & _).
Qed.

Lemma dead_ids_NoDup alive m : NoDup (dead_ids alive m).
Proof.
  unfold dead_ids. apply NoDup_ListNoDup, List.NoDup_filter, NoDup_ListNoDup, btree_keys_NoDup.
Qed.

(** The liveness sweep reaps the dead and only the dead.  Afterwards exactly the
    subscribers whose process is alive are registered, untouched; the reaped ids
    are reported once each, in registry order, as dead processes; and cancelling
    the shared attempt is permitted by at most the last of these reports, exactly
    when nobody is left. *)
Theorem sweep_dead_spec alive m :
  let '(os, m') := sweep_dead alive m in
  (forall s, m' !! s = m !! s ≫= fun c => if alive (pid c) then Some c else None)
  /\ (forall s, s ∈ os.*1 <-> exists c, m !! s = Some c /\ alive (pid c) = false)
  /\ os.*1 = dead_ids alive m /\ NoDup os.*1
  /\ Forall (fun p => released (snd p) = true /\ cause (snd p) = ProcessDead) os
  /\ (forall i s o, os !! i = Some (s, o) ->
        attempt_cancellation o = PermittedNow <-> S i = length os /\ m' = ∅).
Proof.
  unfold sweep_dead.
  destruct (release_each_spec (dead_ids alive m) m) as (Hm & Hids & Hall & Hd).
  { apply dead_ids_NoDup. }
  { intros id (c & Hc & _)%elem_of_dead_ids. eauto. }
  destruct (release_each (dead_ids alive m) m) as [os m']. cbn [fst snd] in *.
  assert (length os = length (dead_ids alive m)) as Hlen by (by rewrite <- Hids, length_fmap).
  split_and!; try done.
  - intros s. rewrite Hm. destruct (decide (s ∈ dead_ids alive m)) as [Hs|Hs].
    + apply elem_of_dead_ids in Hs as (c & -> & Ha). cbn. by rewrite Ha.
    + rewrite elem_of_dead_ids in Hs. destruct (m !! s) as [c|]; cbn; [|done].
      destruct (alive (pid c)) eqn:Ha; [done|]. exfalso. eauto.
  - intros s. rewrite Hids. apply elem_of_dead_ids.
  - rewrite Hids. apply dead_ids_NoDup.
  - intros i s o Hi. rewrite Hlen, <- (Hd i s o Hi). unfold attempt_cancellation.
    destruct (disposition o); split; congruence.
Qed.

(** ** What an observer of the wrapper sees *)

(** The status a parent reads from a process that took the action. *)
Definition observed_status (a : RelayAction) : ChildTermination :=
  match a with
  | ExitWith code => Exited code
  | RestoreDefaultAndResignal n => Signaled n
  | ExitWithConventionalCode code => Exited code
  end.

(** Relaying is transparent: where re-signalling is supported the parent of the
    wrapper reads exactly the termination of the wrapped tool; elsewhere an exit is
    still exact and a death by signal [n] is the exit code [128 + n],
    the code an observing shell reports for the wrapper's own catchable signals. *)
Theorem relay_transparent t :
  observed_status (relay_child_termination t true) = t
  /\ (forall n, t = Signaled n -> 0 <= n < 128 ->
        observed_status (relay_child_termination t false) = Exited (128 + n))
  /\ (forall c, t = Exited c -> observed_status (relay_child_termination t false) = t)
  /\ (forall s, map_cancellation (TriggerSignal s) = (CauseSignal s, DieBySignal s)
        /\ observed_status (relay_child_termination (Signaled (number s)) false)
           = Exited (observed_exit_code s)).
Proof.
  split_and!.
  - by destruct t.
  - intros n -> Hn. cbn. unfold sadd, swrap. rewrite Z.mod_small by lia. f_equal. lia.
  - by intros c ->.
  - by intros [].
Qed.

End Interest.
