(* ===== verification/Peers.v ===== *)
(** * What a peer may send, and in which order it is taken

    [Windows]: the receive window of a sequence domain
    (rabs-protocol/src/sequence_domains.rs) and the acknowledgement state of an object
    transfer (object_transfer.rs), which absorb out-of-order numbers in the same way.
    [PeerQueue]: the bounded priority queue of a peer (peer_queues.rs) with the reserve for
    control traffic around it (control_reserve.rs).  [PeerLimits]: the account of a peer's
    resources (peer_limits.rs).

    Sequence numbers and byte counts are u64; lengths of vectors are natural numbers. *)

From stdpp Require Import base list gmap strings sorting.
From Stdlib Require Import ZArith Lia.
From S2P Require Import Prelude.

Module Windows.

(** The loop both receivers run after the next number in order arrived: while the number
    after the mark is held, it is removed from the held ones and the mark moves. *)
Fixpoint absorb (fuel : nat) (mark : Z) (held : list Z) : Z * list Z :=
  match fuel with
  | O => (mark, held)
  | S fuel =>
      let next := wadd 64 mark 1 in
      match list_find (fun s => s = next) held with
      | Some (pos, _) => absorb fuel next (delete pos held)
      | None => (mark, held)
      end
  end.

(** ** Sequence domains *)

Inductive SequenceDomain :=
  | AuthorityControl | ActionLifecycle | SubscriberDelivery | ObjectTransfer
  | TelemetryBestEffort.

#[export] Instance SequenceDomain_eq_dec : EqDecision SequenceDomain.
Proof. solve_decision. Defined.

Definition persist_before_ack (d : SequenceDomain) : bool :=
  match d with AuthorityControl | ActionLifecycle => true | _ => false end.

Inductive ReceiveOutcome := Deliver | DuplicateIgnored | Buffered | WindowExceeded.

Record DomainWindow := {
  domain : SequenceDomain;
  acked_high_water : Z;
  buffered : list Z;
  max_buffer : nat;
}.

Definition window_new (d : SequenceDomain) (max_buffer : nat) : DomainWindow :=
  {| domain := d; acked_high_water := 0; buffered := []; max_buffer := max_buffer |}.

Definition with_marks (w : DomainWindow) (mark : Z) (held : list Z) : DomainWindow :=
  {| domain := domain w; acked_high_water := mark; buffered := held; max_buffer := max_buffer w |}.

Definition receive (seq : Z) (w : DomainWindow) : ReceiveOutcome * DomainWindow :=
  if seq <=? acked_high_water w then (DuplicateIgnored, w)
  else if seq =? wadd 64 (acked_high_water w) 1 then
    let (mark, held) := absorb (S (length (buffered w))) seq (buffered w) in
    (Deliver, with_marks w mark held)
  else if bool_decide (seq ∈ buffered w) then (Buffered, w)
  else if (max_buffer w <=? length (buffered w))%nat then (WindowExceeded, w)
  else (Buffered, with_marks w (acked_high_water w) (buffered w ++ [seq])).

Definition resume_from (w : DomainWindow) : Z * DomainWindow :=
  (acked_high_water w, with_marks w (acked_high_water w) []).

(** The windows of one peer, one per domain. *)
Definition DomainSet : Type := list DomainWindow.

Definition set_new (max_buffer : nat) : DomainSet :=
  [window_new AuthorityControl max_buffer; window_new ActionLifecycle max_buffer;
   window_new SubscriberDelivery max_buffer; window_new ObjectTransfer max_buffer;
   window_new TelemetryBestEffort max_buffer].

(** [window(domain)] gives a mutable reference to the first window of the domain; an
    operation through it changes that element. *)
Fixpoint on_window {A} (d : SequenceDomain) (f : DomainWindow -> A * DomainWindow)
    (ws : DomainSet) : option (A * DomainSet) :=
  match ws with
  | [] => None
  | w :: ws =>
      if bool_decide (domain w = d) then let (a, w) := f w in Some (a, w :: ws)
      else p ← on_window d f ws; Some (fst p, w :: snd p)
  end.

(** ** Object transfer *)

Definition MAX_QUERY_BATCH : nat := 4096.

(** A query for missing objects, refused with its size when it is too large. *)
Definition find_missing_new (ids : list (list Z)) : result nat (list (list Z)) :=
  if (MAX_QUERY_BATCH <? length ids)%nat then Err (length ids) else Ok ids.

Record TransferAckState := { cumulative : Z; islands : list Z }.

Definition ack_default : TransferAckState := {| cumulative := 0; islands := [] |}.

Definition receive_chunk (index : Z) (t : TransferAckState) : bool * TransferAckState :=
  if (index <=? cumulative t) || bool_decide (index ∈ islands t) then (false, t)
  else if index =? wadd 64 (cumulative t) 1 then
    let (mark, held) := absorb (S (length (islands t))) index (islands t) in
    (true, {| cumulative := mark; islands := held |})
  else (false, {| cumulative := cumulative t; islands := islands t ++ [index] |}).

(** The range [a..=b]. *)
Definition range_inclusive (a b : Z) : list Z := seqZ a (b - a + 1).

Definition holes (t : TransferAckState) (total : Z) : list Z :=
  filter (fun i => i ∉ islands t) (range_inclusive (wadd 64 (cumulative t) 1) total).

Record CreditWindow := { credit : Z; in_flight : Z }.

Definition may_send (c : CreditWindow) : bool := in_flight c <? credit c.

Definition sent (c : CreditWindow) : CreditWindow :=
  {| credit := credit c; in_flight := wadd 64 (in_flight c) 1 |}.

Definition acked (n : Z) (c : CreditWindow) : CreditWindow :=
  {| credit := credit c; in_flight := sat_sub (in_flight c) n |}.

End Windows.

Module PeerQueue.

Inductive Lane := Control | Interactive | Bulk.

#[export] Instance Lane_eq_dec : EqDecision Lane.
Proof. solve_decision. Defined.

(** The derived order of the lanes. *)
Definition lane_rank (l : Lane) : Z :=
  match l with Control => 0 | Interactive => 1 | Bulk => 2 end.

Record PeerQueueLimits := { max_bytes : Z; max_messages : nat }.

Record RefusalReceipt := { limit : string; requested_bytes : Z; receipt_in_use : Z }.

Record Reservation := { id : Z; bytes : Z; lane : Lane }.

Record Queued := { qlane : Lane; qbytes : Z; payload : list Z; order : Z }.

Record t := {
  limits : PeerQueueLimits;
  reserved_bytes : Z;
  reservations : list Reservation;
  queued : list Queued;
  next_id : Z;
  next_order : Z;
}.

Definition new (l : PeerQueueLimits) : t :=
  {| limits := l; reserved_bytes := 0; reservations := []; queued := [];
     next_id := 0; next_order := 0 |}.

(** [iter().map(..).sum::<u64>()]. *)
Definition sum_u64 (l : list Z) : Z := fold_left (wadd 64) l 0.

Definition in_use_bytes (q : t) : Z :=
  wadd 64 (reserved_bytes q) (sum_u64 (qbytes <$> queued q)).

Definition reserve (n : Z) (l : Lane) : method t RefusalReceipt Reservation := fun q =>
  let in_use := in_use_bytes q in
  if max_bytes (limits q) <? wadd 64 in_use n then
    (Err {| limit := "max_bytes"; requested_bytes := n; receipt_in_use := in_use |}, q)
  else if (max_messages (limits q) <=? length (queued q) + length (reservations q))%nat then
    (Err {| limit := "max_messages"; requested_bytes := n; receipt_in_use := in_use |}, q)
  else
    let r := {| id := next_id q; bytes := n; lane := l |} in
    (Ok r, {| limits := limits q;
              reserved_bytes := wadd 64 (reserved_bytes q) n;
              reservations := reservations q ++ [r];
              queued := queued q;
              next_id := wadd 64 (next_id q) 1;
              next_order := next_order q |}).

Definition find_reservation (q : t) (r : Reservation) : option nat :=
  fst <$> list_find (fun x => id x = id r) (reservations q).

Definition commit (r : Reservation) (p : list Z) (q : t) : t :=
  match find_reservation q r with
  | Some pos =>
      {| limits := limits q;
         reserved_bytes := wsub 64 (reserved_bytes q) (bytes r);
         reservations := delete pos (reservations q);
         queued := queued q ++ [{| qlane := lane r; qbytes := bytes r; payload := p;
                                   order := next_order q |}];
         next_id := next_id q;
         next_order := wadd 64 (next_order q) 1 |}
  | None => q
  end.

Definition abort (r : Reservation) (q : t) : t :=
  match find_reservation q r with
  | Some pos =>
      {| limits := limits q;
         reserved_bytes := wsub 64 (reserved_bytes q) (bytes r);
         reservations := delete pos (reservations q);
         queued := queued q;
         next_id := next_id q;
         next_order := next_order q |}
  | None => q
  end.

Definition before (a b : Queued) : bool :=
  (lane_rank (qlane a) <? lane_rank (qlane b))
  || ((lane_rank (qlane a) =? lane_rank (qlane b)) && (order a <? order b)).

(** [min_by_key] keeps the first of equal elements. *)
Fixpoint min_from (i best : nat) (b : Queued) (l : list Queued) : nat :=
  match l with
  | [] => best
  | x :: l => if before x b then min_from (S i) i x l else min_from (S i) best b l
  end.

Definition best_position (l : list Queued) : option nat :=
  match l with [] => None | x :: l => Some (min_from 1 0 x l) end.

Definition with_queued (q : t) (l : list Queued) : t :=
  {| limits := limits q; reserved_bytes := reserved_bytes q; reservations := reservations q;
     queued := l; next_id := next_id q; next_order := next_order q |}.

Definition dequeue (q : t) : option (list Z) * t :=
  match best_position (queued q) ≫= fun i => (fun x => (i, x)) <$> queued q !! i with
  | Some (i, x) => (Some (payload x), with_queued q (delete i (queued q)))
  | None => (None, q)
  end.

(** ** The control reserve *)

Record ReservedPeerQueue := {
  queue : t;
  control_reserve_bytes : Z;
  total_bytes : Z;
  bulk_in_use : Z;
}.

Definition reserved_new (l : PeerQueueLimits) (control_reserve : Z) : ReservedPeerQueue :=
  {| queue := new l; control_reserve_bytes := control_reserve; total_bytes := max_bytes l;
     bulk_in_use := 0 |}.

Definition with_queue (r : ReservedPeerQueue) (q : t) (bulk : Z) : ReservedPeerQueue :=
  {| queue := q; control_reserve_bytes := control_reserve_bytes r;
     total_bytes := total_bytes r; bulk_in_use := bulk |}.

Definition reserve_bulk (n : Z) : method ReservedPeerQueue RefusalReceipt Reservation := fun r =>
  let bulk_budget := wsub 64 (total_bytes r) (control_reserve_bytes r) in
  if bulk_budget <? wadd 64 (bulk_in_use r) n then
    (Err {| limit := "bulk_budget_excludes_control_reserve"; requested_bytes := n;
            receipt_in_use := bulk_in_use r |}, r)
  else
    match reserve n Bulk (queue r) with
    | (Ok reservation, q) => (Ok reservation, with_queue r q (wadd 64 (bulk_in_use r) n))
    | (Err e, q) => (Err e, with_queue r q (bulk_in_use r))
    end.

Definition reserve_control (n : Z) : method ReservedPeerQueue RefusalReceipt Reservation := fun r =>
  match reserve n Control (queue r) with
  | (res, q) => (res, with_queue r q (bulk_in_use r))
  end.

Definition reserved_commit (x : Reservation) (p : list Z) (r : ReservedPeerQueue) : ReservedPeerQueue :=
  with_queue r (commit x p (queue r)) (bulk_in_use r).

Definition reserved_dequeue (r : ReservedPeerQueue) : option (list Z) * ReservedPeerQueue :=
  match dequeue (queue r) with (p, q) => (p, with_queue r q (bulk_in_use r)) end.

Definition bulk_drained (n : Z) (r : ReservedPeerQueue) : ReservedPeerQueue :=
  with_queue r (queue r) (sat_sub (bulk_in_use r) n).

End PeerQueue.

Module PeerLimits.

Inductive Dimension :=
  | ConcurrentSessions | FramesPerSecond | FrameBytes | ExtensionBytes | QueuedControlBytes
  | QueuedDataBytes | InFlightObjectRequests | ManifestDepth | ManifestFanOut | SparseRanges
  | DiagnosticsBytes | OutputCount | OutputBytes | ProcessCount | MemoryBytes | TempBytes
  | DiskBytes | Retries | Restarts.

#[export] Instance Dimension_eq_dec : EqDecision Dimension.
Proof. solve_decision. Defined.

Definition DEFAULT_LIMITS : list (Dimension * Z) :=
  [(ConcurrentSessions, 8);
   (FramesPerSecond, 2000);
   (FrameBytes, 4 * 1024 * 1024);
   (ExtensionBytes, 64 * 1024);
   (QueuedControlBytes, 1024 * 1024);
   (QueuedDataBytes, 64 * 1024 * 1024);
   (InFlightObjectRequests, 128);
   (ManifestDepth, 64);
   (ManifestFanOut, 4096);
   (SparseRanges, 1024);
   (DiagnosticsBytes, 16 * 1024 * 1024);
   (OutputCount, 4096);
   (OutputBytes, 2 * 1024 * 1024 * 1024);
   (ProcessCount, 64);
   (MemoryBytes, 8 * 1024 * 1024 * 1024);
   (TempBytes, 16 * 1024 * 1024 * 1024);
   (DiskBytes, 32 * 1024 * 1024 * 1024);
   (Retries, 16);
   (Restarts, 4)].

Definition CONTROL_RESERVE_SLOTS : Z := 64.

(** The position in the registry; the code panics when there is none. *)
Definition index_of (d : Dimension) : option nat :=
  fst <$> list_find (fun p => fst p = d) DEFAULT_LIMITS.

Record LimitRefusal := { refused : Dimension; at_limit : Z; would_reach : Z }.

Record PeerAccount := { usage : list Z; control_in_use : Z }.

Definition account_default : PeerAccount :=
  {| usage := replicate (length DEFAULT_LIMITS) 0; control_in_use := 0 |}.

Definition usage_of (a : PeerAccount) (d : Dimension) : option Z :=
  i ← index_of d; usage a !! i.

(** [None] is a panic. *)
Definition admit_usage (d : Dimension) (amount : Z) (a : PeerAccount) :
    option (result LimitRefusal unit * PeerAccount) :=
  i ← index_of d;
  entry ← DEFAULT_LIMITS !! i;
  used ← usage a !! i;
  let reach := sat_add 64 used amount in
  Some (if snd entry <? reach then
          (Err {| refused := d; at_limit := snd entry; would_reach := reach |}, a)
        else (Ok tt, {| usage := <[i := reach]> (usage a); control_in_use := control_in_use a |})).

Definition release (d : Dimension) (amount : Z) (a : PeerAccount) : option PeerAccount :=
  i ← index_of d;
  used ← usage a !! i;
  Some {| usage := <[i := sat_sub used amount]> (usage a); control_in_use := control_in_use a |}.

Definition admit_control (a : PeerAccount) : result Z unit * PeerAccount :=
  if CONTROL_RESERVE_SLOTS <=? control_in_use a then (Err CONTROL_RESERVE_SLOTS, a)
  else (Ok tt, {| usage := usage a; control_in_use := wadd 64 (control_in_use a) 1 |}).

Definition release_control (a : PeerAccount) : PeerAccount :=
  {| usage := usage a; control_in_use := sat_sub (control_in_use a) 1 |}.

End PeerLimits.

(** * Properties *)

Module WindowFacts.
Import Windows.

Lemma filter_ext_in {A} (P Q : A -> Prop) `{!forall x, Decision (P x)} `{!forall x, Decision (Q x)}
    (l : list A) :
  (forall x, x ∈ l -> P x <-> Q x) -> filter P l = filter Q l.
Proof.
  induction l as [|x l IH]; intros Hpq; [done|]. rewrite !filter_cons.
  rewrite IH by (intros ? ?; apply Hpq; by constructor).
  destruct (Hpq x ltac:(constructor)). repeat case_decide; tauto.
Qed.

(** ** Absorbing what became contiguous *)

(** The held numbers are distinct and lie beyond the next one. *)
Definition settled (mark : Z) (held : list Z) : Prop :=
  0 <= mark < U64_MAX /\ NoDup held /\ Forall (fun s => mark + 1 < s < U64_MAX) held.

Lemma absorb_spec fuel mark held :
  (length held < fuel)%nat -> 0 <= mark < U64_MAX -> NoDup held ->
  Forall (fun s => mark < s < U64_MAX) held ->
  let r := absorb fuel mark held in
  settled (fst r) (snd r) /\ mark <= fst r /\ (length (snd r) <= length held)%nat
  /\ (forall i, mark < i -> i <= fst r \/ i ∈ snd r <-> i ∈ held).
Proof.
  revert mark held. induction fuel as [|fuel IH]; intros mark held Hf Hm Hnd Hb; [lia|].
  cbn zeta. cbn [absorb]. rewrite wadd_small by (unfold U64_MAX in *; lia).
  destruct (list_find _ held) as [[pos x]|] eqn:E; cycle 1.
  - apply list_find_None in E. cbn [fst snd].
    assert (Hbeyond : Forall (fun s => mark + 1 < s < U64_MAX) held).
    { rewrite Forall_forall in Hb, E |- *. intros s Hs. specialize (Hb s Hs). specialize (E s Hs).
      cbn in E. lia. }
    split; [done|]. split; [lia|]. split; [lia|]. intros i Hi. split; [|by right].
    intros [?|?]; [lia|done].
  - apply list_find_Some in E as (Hx & -> & _).
    pose proof (delete_Permutation _ _ _ Hx) as Hp.
    rewrite Hp in Hnd, Hb. apply NoDup_cons in Hnd as [Hout Hnd].
    apply Forall_cons in Hb as [Hb1 Hb].
    assert (Hlen : length held = S (length (delete pos held))) by (by rewrite Hp at 1).
    assert (Hb' : Forall (fun s => mark + 1 < s < U64_MAX) (delete pos held)).
    { rewrite Forall_forall in Hb |- *. intros s Hs. specialize (Hb s Hs).
      assert (s <> mark + 1) by (by intros ->). lia. }
    destruct (IH (mark + 1) (delete pos held)) as (Hset & Hle & Hl & Hin); [lia|lia|done|done|].
    assert (Hmem : forall i l, held ≡ₚ mark + 1 :: l -> i ∈ held <-> i = mark + 1 \/ i ∈ l)
      by (intros ? ? ->; apply elem_of_cons).
    split; [done|]. split; [lia|]. split; [lia|]. intros i Hi. rewrite (Hmem i _ Hp).
    destruct (Z.eq_dec i (mark + 1)) as [->|Hne].
    + split; [by left|]. intros _. left. lia.
    + rewrite Hin by lia. naive_solver.
Qed.

(** ** Object transfer *)

(** What the acknowledgement state stands for. *)
Definition has_chunk (t : TransferAckState) (i : Z) : Prop :=
  1 <= i <= cumulative t \/ i ∈ islands t.

Lemma receive_chunk_spec index t :
  settled (cumulative t) (islands t) -> 0 <= index < U64_MAX ->
  let r := receive_chunk index t in
  settled (cumulative (snd r)) (islands (snd r))
  /\ (forall i, 1 <= i -> has_chunk (snd r) i <-> has_chunk t i \/ i = index)
  /\ cumulative t <= cumulative (snd r)
  /\ (fst r = true <-> cumulative t < cumulative (snd r)).
Proof.
  intros (Hm & Hnd & Hb) Hi. unfold receive_chunk, has_chunk. cbn zeta.
  rewrite wadd_small by (unfold U64_MAX in *; lia).
  destruct (_ || _) eqn:Ed; cbn [fst snd].
  - split; [done|]. split; [|split; [lia|split; [done|lia]]].
    intros i Hi1. split; [by left|]. intros [?| ->]; [done|].
    apply orb_true_iff in Ed as [?|Hin%bool_decide_eq_true]; [left; lia|by right].
  - apply orb_false_iff in Ed as [Egt Hnin]. apply bool_decide_eq_false in Hnin.
    destruct (index =? cumulative t + 1) eqn:En.
    + apply Z.eqb_eq in En. subst index.
      destruct (absorb_spec (S (length (islands t))) (cumulative t + 1) (islands t))
        as (Hset & Hle & _ & Hin); [lia|lia|done| |].
      { eapply Forall_impl; [exact Hb|]. cbn. lia. }
      destruct (absorb _ _ _) as [m h]. cbn [fst snd cumulative islands] in *.
      split; [done|]. split; [|split; [lia|split; [lia|done]]].
      intros i Hi1. destruct (Z.le_gt_cases i (cumulative t + 1)).
      * split; [|intros _; left; lia]. intros _. destruct (Z.eq_dec i (cumulative t + 1)); [by right|].
        left. left. lia.
      * rewrite <- Hin by lia. split; [intros [?|?]; left; right; [left; lia|by right]|].
        intros [[?|[?|?]]| ->]; [lia|left; lia|by right|lia].
    + cbn [fst snd cumulative islands]. assert (cumulative t + 1 < index) by lia.
      split; [split; [done|split]|split; [|split; [lia|split; [done|lia]]]].
      * apply NoDup_app. split; [done|]. split; [set_solver|apply NoDup_singleton].
      * apply Forall_app. split; [done|]. apply Forall_singleton. lia.
      * intros i Hi1. rewrite elem_of_app, list_elem_of_singleton. tauto.
Qed.

(** Receiving any chunks, from the start or from a state already reached. *)
Definition receive_all (l : list Z) (t : TransferAckState) : TransferAckState :=
  fold_left (fun t i => snd (receive_chunk i t)) l t.

Lemma receive_all_spec l t :
  settled (cumulative t) (islands t) -> Forall (fun i => 0 <= i < U64_MAX) l ->
  settled (cumulative (receive_all l t)) (islands (receive_all l t))
  /\ (forall i, 1 <= i -> has_chunk (receive_all l t) i <-> has_chunk t i \/ i ∈ l).
Proof.
  revert t. induction l as [|x l IH]; intros t Ht Hl; cbn [receive_all fold_left].
  - split; [done|]. intros i _. rewrite elem_of_nil. tauto.
  - apply Forall_cons in Hl as [Hx Hl].
    destruct (receive_chunk_spec x t Ht Hx) as (Ht' & Hin & _).
    destruct (IH _ Ht' Hl) as [Hset Hall]. split; [done|]. intros i Hi.
    unfold receive_all in Hall. rewrite Hall, Hin, elem_of_cons by done. tauto.
Qed.

Lemma elem_of_holes t total i :
  settled (cumulative t) (islands t) ->
  i ∈ holes t total <-> cumulative t < i <= total /\ i ∉ islands t.
Proof.
  intros (Hm & _). unfold holes, range_inclusive.
  rewrite list_elem_of_filter, elem_of_seqZ, wadd_small by (unfold U64_MAX in *; lia).
  split; intros [? ?]; (split; [lia|done]) || (split; [done|lia]).
Qed.

(** Sending the holes completes the object: nothing before the end is missing then, and the
    number after the mark is. *)
Lemma holes_complete t total :
  settled (cumulative t) (islands t) -> 0 <= total < U64_MAX ->
  total <= cumulative (receive_all (holes t total) t).
Proof.
  intros Hset Ht. destruct (receive_all_spec (holes t total) t) as [Hset' Hin]; [done| |].
  { apply Forall_forall. intros i Hi. apply elem_of_holes in Hi; [|done].
    destruct Hset as (Hm & _). lia. }
  destruct (Z.le_gt_cases total (cumulative (receive_all (holes t total) t))) as [?|Hlt]; [done|].
  exfalso. destruct Hset' as (Hm' & _ & Hb').
  set (m := cumulative (receive_all (holes t total) t)) in *.
  assert (has_chunk (receive_all (holes t total) t) (m + 1)) as [?|Hi].
  - apply Hin; [lia|]. unfold has_chunk. rewrite elem_of_holes by done.
    destruct (decide (m + 1 ∈ islands t)); [tauto|].
    destruct (Z.le_gt_cases (m + 1) (cumulative t)); [left; left; lia|right; split; [lia|done]].
  - fold m in H. lia.
  - rewrite Forall_forall in Hb'. apply Hb' in Hi. cbn in Hi. lia.
Qed.

Lemma settled_default : settled (cumulative ack_default) (islands ack_default).
Proof. split; [unfold U64_MAX; cbn; lia|]. split; constructor. Qed.

(** The receiver of an object knows exactly what it has: after any chunks, in any order and
    with repetitions, the holes it names for a resume are, in ascending order, exactly the
    chunks of the object that have not arrived, everything up to the cumulative mark has
    arrived, and once the holes are sent the mark covers the object. *)
Theorem holes_exact l total :
  Forall (fun i => 0 <= i < U64_MAX) l -> 0 <= total < U64_MAX ->
  let t := receive_all l ack_default in
  holes t total = filter (fun i => i ∉ l) (range_inclusive 1 total)
  /\ (forall i, 1 <= i <= cumulative t -> i ∈ l)
  /\ total <= cumulative (receive_all (holes t total) t).
Proof.
  intros Hl Ht. cbn zeta. destruct (receive_all_spec l ack_default settled_default Hl) as [Hset Hin].
  set (t := receive_all l ack_default) in *. destruct Hset as (Hm & Hnd & Hb).
  assert (Hin' : forall i, 1 <= i -> has_chunk t i <-> i ∈ l).
  { intros i Hi. rewrite Hin by done. unfold has_chunk. cbn. rewrite elem_of_nil. naive_solver lia. }
  split; [|split; [intros i Hi; apply Hin'; [lia|by left]|by apply holes_complete]].
  unfold holes, range_inclusive. rewrite wadd_small by (unfold U64_MAX in *; lia).
  replace (total - 1 + 1) with total by lia.
  replace (total - (cumulative t + 1) + 1) with (total - cumulative t) by lia.
  assert (Hnone : forall n, n <= cumulative t -> filter (fun i => i ∉ l) (seqZ 1 n) = []).
  { intros n Hn. rewrite (filter_ext_in _ (fun _ => False)).
    - clear. induction (seqZ 1 n); [done|]. by rewrite filter_cons.
    - intros i Hi. apply elem_of_seqZ in Hi. split; [|done]. intros Hout. apply Hout, Hin'; [lia|].
      left. lia. }
  destruct (Z.le_gt_cases total (cumulative t)).
  - by rewrite seqZ_nil, Hnone by lia.
  - replace total with (cumulative t + (total - cumulative t)) at 2 by lia.
    rewrite seqZ_app, filter_app, Hnone by lia. cbn [app].
    replace (1 + cumulative t) with (cumulative t + 1) by lia. apply filter_ext_in.
    intros i Hi. apply elem_of_seqZ in Hi. rewrite <- Hin' by lia. unfold has_chunk.
    split; [|tauto]. intros Hout [?|?]; [lia|done].
Qed.

(** ** Sequence domains *)

Inductive op := Receive (seq : Z) | Resume.

Definition apply_op (o : op) (w : DomainWindow) : DomainWindow :=
  match o with Receive seq => snd (receive seq w) | Resume => snd (resume_from w) end.

Definition run (ops : list op) (w : DomainWindow) : DomainWindow :=
  fold_left (fun w o => apply_op o w) ops w.

Definition op_ok (o : op) : Prop :=
  match o with Receive seq => 0 <= seq < U64_MAX | Resume => True end.

Definition window_ok (w : DomainWindow) : Prop :=
  settled (acked_high_water w) (buffered w) /\ (length (buffered w) <= max_buffer w)%nat.

Lemma receive_spec seq w :
  window_ok w -> 0 <= seq < U64_MAX ->
  let w' := snd (receive seq w) in
  window_ok w' /\ max_buffer w' = max_buffer w
  /\ (forall i, acked_high_water w < i <= acked_high_water w' -> i = seq \/ i ∈ buffered w)
  /\ (forall i, i ∈ buffered w' -> i = seq \/ i ∈ buffered w)
  /\ (seq = acked_high_water w + 1 -> seq <= acked_high_water w').
Proof.
  intros [(Hm & Hnd & Hb) Hlen] Hs. unfold receive. cbn zeta.
  rewrite wadd_small by (unfold U64_MAX in *; lia).
  assert (Hsame : window_ok w) by done.
  destruct (seq <=? acked_high_water w) eqn:E1; cbn [snd].
  { split; [done|]. split; [done|]. split; [lia|]. split; [auto|lia]. }
  destruct (seq =? acked_high_water w + 1) eqn:E2.
  { apply Z.eqb_eq in E2. subst seq.
    destruct (absorb_spec (S (length (buffered w))) (acked_high_water w + 1) (buffered w))
      as (Hset & Hle & Hl & Hin); [lia|lia|done| |].
    { eapply Forall_impl; [exact Hb|]. cbn. lia. }
    destruct (absorb _ _ _) as [m h]. cbn [fst snd with_marks acked_high_water buffered max_buffer] in *.
    split; [split; [done|cbn; lia]|]. split; [done|]. split; [|split; [|lia]].
    - intros i Hi. destruct (Z.eq_dec i (acked_high_water w + 1)); [by left|right].
      apply Hin; [lia|]. left. lia.
    - intros i Hi. right. destruct Hset as (_ & _ & Hb'). rewrite Forall_forall in Hb'.
      apply Hin; [|by right]. specialize (Hb' i Hi). lia. }
  destruct (bool_decide _) eqn:E3; cbn [snd].
  { split; [done|]. split; [done|]. split; [lia|]. split; [auto|lia]. }
  destruct (_ <=? _)%nat eqn:E4; cbn [snd].
  { split; [done|]. split; [done|]. split; [lia|]. split; [auto|lia]. }
  apply bool_decide_eq_false in E3. cbn [with_marks acked_high_water buffered max_buffer].
  split; [split; [split; [done|split]|]|].
  - apply NoDup_app. split; [done|]. split; [set_solver|apply NoDup_singleton].
  - cbn. apply Forall_app. split; [done|]. apply Forall_singleton. lia.
  - cbn. rewrite length_app. cbn. apply Nat.leb_gt in E4. lia.
  - split; [done|]. split; [lia|]. split; [set_solver|lia].
Qed.

(** What a history has left: nothing is acknowledged or held that was not received. *)
Definition traced (ops : list op) (w : DomainWindow) : Prop :=
  window_ok w
  /\ (forall i, 1 <= i <= acked_high_water w \/ i ∈ buffered w -> Receive i ∈ ops).

Lemma run_traced ops w seen :
  Forall op_ok ops -> traced seen w ->
  traced (seen ++ ops) (run ops w) /\ max_buffer (run ops w) = max_buffer w.
Proof.
  intros Hops. revert w seen. induction Hops as [|o ops Ho _ IH]; intros w seen Hw.
  { by rewrite app_nil_r. }
  replace (seen ++ o :: ops) with ((seen ++ [o]) ++ ops) by (by rewrite <- app_assoc).
  assert (traced (seen ++ [o]) (apply_op o w) /\ max_buffer (apply_op o w) = max_buffer w) as [Hw' Hmax].
  { destruct Hw as [Hok Hin]. destruct o as [seq|]; cbn [apply_op].
    - destruct (receive_spec seq w Hok Ho) as (Hok' & Hmax & Hack & Hbuf & _). split; [|done].
      split; [done|]. intros i Hi. apply elem_of_app.
      assert (i = seq \/ 1 <= i <= acked_high_water w \/ i ∈ buffered w) as [-> |?].
      { destruct Hi as [Hi|Hi]; [|apply Hbuf in Hi; tauto].
        destruct (Z.le_gt_cases i (acked_high_water w)); [right; left; lia|].
        destruct (Hack i) as [?|?]; [lia|tauto|tauto]. }
      + right. by apply list_elem_of_singleton.
      + left. by apply Hin.
    - cbn. split; [|done]. destruct Hok as [(Hm & _ & _) _]. split.
      + split; [|cbn; lia]. split; [done|]. split; constructor.
      + cbn. intros i [Hi|Hi]; [|by apply elem_of_nil in Hi]. apply elem_of_app. left.
        apply Hin. by left. }
  destruct (IH _ _ Hw') as [? Hmax']. split; [done|]. cbn [run fold_left]. unfold run in Hmax'. congruence.
Qed.

(** In order and with nothing held, every number is taken. *)
Lemma in_order_taken n w :
  settled (acked_high_water w) (buffered w) -> buffered w = [] ->
  0 <= n -> acked_high_water w + n < U64_MAX ->
  acked_high_water (run (Receive <$> seqZ (acked_high_water w + 1) n) w) = acked_high_water w + n.
Proof.
  intros Hs Hnil Hn. revert w Hs Hnil. pattern n. apply natlike_ind; [| |done]; clear n Hn.
  - intros w _ _ _. rewrite seqZ_nil by lia. cbn. lia.
  - intros n Hn IH w Hs Hnil Hbound. rewrite seqZ_cons by lia. cbn [fmap list_fmap run fold_left apply_op].
    destruct Hs as (Hm & _). unfold receive.
    rewrite wadd_small by (unfold U64_MAX in *; lia). rewrite Hnil.
    destruct (_ <=? _) eqn:E; [lia|]. rewrite Z.eqb_refl. cbn [length absorb list_find snd].
    set (w' := with_marks w (acked_high_water w + 1) []).
    assert (settled (acked_high_water w') (buffered w')) as Hs'
      by (split; [cbn; lia|split; constructor]).
    specialize (IH w' Hs' eq_refl). cbn [w' with_marks acked_high_water] in IH.
    replace (Z.succ (acked_high_water w + 1)) with (acked_high_water w + 1 + 1) by lia.
    replace (Z.pred (Z.succ n)) with n by lia.
    etrans; [apply IH; lia|lia].
Qed.

Lemma window_new_traced d m : traced [] (window_new d m).
Proof.
  split; [split; [|cbn; lia]|].
  - split; [by vm_compute|]. split; constructor.
  - cbn. intros i [?|Hi]; [lia|]. by apply elem_of_nil in Hi.
Qed.

(** A sequence domain acknowledges only what it received, without gaps: after any receives and
    reconnects every number up to the high-water mark has been received, the buffer is
    within its bound, and a sender that resumes after the mark and sends in order gets
    everything acknowledged. *)
Theorem window_acks_received d m ops :
  Forall op_ok ops ->
  let w := run ops (window_new d m) in
  (forall i, 1 <= i <= acked_high_water w -> Receive i ∈ ops)
  /\ (length (buffered w) <= m)%nat
  /\ (forall n, 0 <= n -> acked_high_water w + n < U64_MAX ->
      acked_high_water (run (Receive <$> seqZ (fst (resume_from w) + 1) n) (snd (resume_from w)))
      = acked_high_water w + n).
Proof.
  intros Hops. cbn zeta.
  destruct (run_traced ops (window_new d m) [] Hops (window_new_traced d m)) as [[Hok Hin] Hmax].
  cbn [app] in Hin. destruct Hok as [(Hm & _ & _) Hlen]. split; [|split].
  - intros i Hi. apply Hin. by left.
  - rewrite Hmax in Hlen. exact Hlen.
  - intros n Hn Hb. apply (in_order_taken n (snd (resume_from _))); [|done..].
    split; [done|]. split; constructor.
Qed.

(** ** The domains of a peer *)

Definition ALL : list SequenceDomain :=
  [AuthorityControl; ActionLifecycle; SubscriberDelivery; ObjectTransfer; TelemetryBestEffort].

Definition run_set (ops : list (SequenceDomain * op)) (ws : DomainSet) : option DomainSet :=
  foldl (fun ws x => ws ≫= fun ws => snd <$> on_window (fst x) (fun w => (tt, apply_op (snd x) w)) ws)
    (Some ws) ops.

Definition ops_of (d : SequenceDomain) (ops : list (SequenceDomain * op)) : list op :=
  snd <$> filter (fun x => fst x = d) ops.

Lemma on_window_fmap (f : DomainWindow -> DomainWindow) d (g : SequenceDomain -> DomainWindow) ds :
  (forall d, domain (g d) = d) -> NoDup ds -> d ∈ ds ->
  snd <$> on_window d (fun w => (tt, f w)) (g <$> ds)
  = Some ((fun d' => if decide (d' = d) then f (g d') else g d') <$> ds).
Proof.
  intros Hg. induction ds as [|d0 ds IH]; [by intros _ ?%elem_of_nil|].
  intros [Hout Hnd]%NoDup_cons Hin. cbn [fmap list_fmap on_window]. rewrite Hg.
  case_bool_decide as E.
  - subst d0. cbn. rewrite decide_True by done. do 2 f_equal.
    apply list_fmap_ext. intros i d' Hd'. rewrite decide_False; [done|].
    intros ->. apply Hout. by eapply list_elem_of_lookup_2.
  - rewrite decide_False by done. apply elem_of_cons in Hin as [?|Hin]; [done|].
    specialize (IH Hnd Hin). destruct (on_window _ _ _) as [p|]; cbn in *; [|done].
    injection IH as IH. by rewrite <- IH.
Qed.

Lemma apply_op_domain o w : domain (apply_op o w) = domain w.
Proof. destruct o; [|done]. cbn. unfold receive. repeat case_match; done. Qed.

Lemma window_run_snoc ops o w : run (ops ++ [o]) w = apply_op o (run ops w).
Proof. unfold run. by rewrite fold_left_app. Qed.

Lemma run_domain ops w : domain (run ops w) = domain w.
Proof.
  induction ops as [|o ops IH] using rev_ind; [done|]. by rewrite window_run_snoc, apply_op_domain.
Qed.

(** No domain's progress depends on another's: in any sequence of operations on the windows of
    a peer, the window of each domain is what the operations on that domain alone make of
    it. *)
Theorem domains_independent m ops :
  run_set ops (set_new m) = Some ((fun d => run (ops_of d ops) (window_new d m)) <$> ALL).
Proof.
  induction ops as [|[d o] ops IH] using rev_ind; [done|].
  unfold run_set in *. rewrite foldl_app, IH. cbn [foldl fst snd mbind option_bind].
  rewrite (on_window_fmap (apply_op o) d); cycle 1.
  { intros d'. by rewrite run_domain. }
  { apply (bool_decide_unpack _). by vm_compute. }
  { destruct d; apply (bool_decide_unpack _); by vm_compute. }
  f_equal. apply list_fmap_ext. intros _ d' _. unfold ops_of.
  rewrite filter_app, fmap_app. destruct (decide (d' = d)) as [->|Hne].
  - rewrite filter_cons_True by done. cbn [filter list_filter fmap list_fmap snd]. by rewrite window_run_snoc.
  - rewrite filter_cons_False by (cbn; congruence). cbn. by rewrite app_nil_r.
Qed.

Lemma holes_exact_witness :
  let t := receive_all [3; 1; 5; 3; 2] ack_default in
  cumulative t = 3 /\ islands t = [5]
  /\ holes t 7 = filter (fun i => i ∉ [3; 1; 5; 3; 2]) (range_inclusive 1 7)
  /\ holes t 7 = [4; 6; 7].
Proof.
  split; [vm_compute; reflexivity|]. split; [vm_compute; reflexivity|].
  split; [|vm_compute; reflexivity]. apply (holes_exact [3; 1; 5; 3; 2] 7).
  - repeat constructor; unfold U64_MAX; lia.
  - unfold U64_MAX. lia.
Defined.

Lemma window_acks_received_witness :
  let w := run [Receive 2; Receive 1; Receive 9; Resume; Receive 4] (window_new ObjectTransfer 4) in
  acked_high_water w = 2 /\ (length (buffered w) <= 4)%nat.
Proof.
  split; [vm_compute; reflexivity|]. apply (window_acks_received ObjectTransfer 4).
  repeat constructor; unfold U64_MAX; lia.
Defined.

End WindowFacts.

Module QueueFacts.
Import PeerQueue.

(** ** Lanes *)

(** The queue as its consumers see it: the payloads of each lane, oldest first. *)
Record lanes := { controls : list (list Z); interactives : list (list Z); bulks : list (list Z) }.

Definition push (l : Lane) (p : list Z) (s : lanes) : lanes :=
  match l with
  | Control => {| controls := controls s ++ [p]; interactives := interactives s; bulks := bulks s |}
  | Interactive => {| controls := controls s; interactives := interactives s ++ [p]; bulks := bulks s |}
  | Bulk => {| controls := controls s; interactives := interactives s; bulks := bulks s ++ [p] |}
  end.

Definition pop (s : lanes) : option (list Z) * lanes :=
  match controls s, interactives s, bulks s with
  | p :: c, i, b => (Some p, {| controls := c; interactives := i; bulks := b |})
  | [], p :: i, b => (Some p, {| controls := []; interactives := i; bulks := b |})
  | [], [], p :: b => (Some p, {| controls := []; interactives := []; bulks := b |})
  | [], [], [] => (None, s)
  end.

Definition in_lane (l : Lane) (xs : list Queued) : list (list Z) :=
  payload <$> filter (fun x => qlane x = l) xs.

Definition contents (q : t) : lanes :=
  {| controls := in_lane Control (queued q); interactives := in_lane Interactive (queued q);
     bulks := in_lane Bulk (queued q) |}.

Lemma in_lane_app l xs ys : in_lane l (xs ++ ys) = in_lane l xs ++ in_lane l ys.
Proof. unfold in_lane. by rewrite filter_app, fmap_app. Qed.

Lemma in_lane_nil l xs : Forall (fun x => qlane x <> l) xs -> in_lane l xs = [].
Proof.
  unfold in_lane. induction 1 as [|x xs Hx _ IH]; [done|]. by rewrite filter_cons_False by done.
Qed.

(** Messages are queued in the order of their numbers, all below the next one. *)
Definition ordered (q : t) : Prop :=
  StronglySorted Z.lt (order <$> queued q) /\ Forall (fun x => 0 <= order x < next_order q) (queued q)
  /\ 0 <= next_order q.

Lemma min_from_spec i best b l :
  let k := min_from i best b l in
  (k = best /\ Forall (fun y => before y b = false) l)
  \/ exists l1 x l2, l = l1 ++ x :: l2 /\ k = (i + length l1)%nat
       /\ before x b = true
       /\ Forall (fun y => before y x = false) (b :: l1 ++ l2).
Proof.
  assert (Hneg : forall x y z, before x y = true -> before z y = false -> before z x = false).
  { unfold before. intros. lia. }
  revert i best b. induction l as [|y l IH]; intros i best b; cbn zeta; cbn [min_from]; [left; auto|].
  destruct (before y b) eqn:E.
  - right. destruct (IH (S i) i y) as [[-> Hall]|(l1 & x & l2 & -> & -> & Hx & Hall)].
    + exists [], y, l. cbn. split; [done|]. split; [lia|]. split; [done|]. constructor; [|done].
      unfold before in *. lia.
    + exists (y :: l1), x, l2. cbn. split; [done|]. split; [lia|].
      apply Forall_cons in Hall as [Hy Hall].
      split; [unfold before in *; lia|]. constructor; [unfold before in *; lia|].
      constructor; [|done]. unfold before in *. lia.
  - destruct (IH (S i) best b) as [[-> Hall]|(l1 & x & l2 & -> & -> & Hx & Hall)].
    + left. split; [done|]. by constructor.
    + right. exists (y :: l1), x, l2. cbn. split; [done|]. split; [lia|]. split; [done|].
      apply Forall_cons in Hall as [Hb Hall]. constructor; [done|]. constructor; [|done].
      by eapply Hneg.
Qed.

Lemma best_position_spec l :
  match best_position l with
  | None => l = []
  | Some k => exists l1 x l2, l = l1 ++ x :: l2 /\ k = length l1
                /\ Forall (fun y => before y x = false) (l1 ++ l2)
  end.
Proof.
  destruct l as [|x l]; cbn [best_position]; [done|].
  destruct (min_from_spec 1 0 x l) as [[-> Hall]|(l1 & y & l2 & -> & -> & Hy & Hall)].
  - by exists [], x, l.
  - by exists (x :: l1), y, l2.
Qed.

Lemma delete_middle {A} (l1 : list A) x l2 : delete (length l1) (l1 ++ x :: l2) = l1 ++ l2.
Proof. induction l1; cbn; [done|]. by f_equal. Qed.

Lemma sorted_middle l1 x l2 :
  StronglySorted Z.lt (order <$> l1 ++ x :: l2) ->
  Forall (fun y => order y < order x) l1 /\ StronglySorted Z.lt (order <$> l1 ++ l2).
Proof.
  induction l1 as [|y l1 IH]; cbn.
  - intros H%StronglySorted_inv. split; [constructor|apply H].
  - intros [Hs Hall]%StronglySorted_inv. destruct (IH Hs) as [Hlt Hs'].
    rewrite fmap_app in Hall. apply Forall_app in Hall as [Hall1 Hall2]. cbn in Hall2.
    apply Forall_cons in Hall2 as [Hx Hall2]. split; [by constructor|].
    constructor; [done|]. rewrite fmap_app. by apply Forall_app.
Qed.

Lemma dequeue_pops q :
  ordered q ->
  (fst (dequeue q), contents (snd (dequeue q))) = pop (contents q) /\ ordered (snd (dequeue q)).
Proof.
  intros (Hs & Hb & Hn). unfold dequeue. pose proof (best_position_spec (queued q)) as H.
  destruct (best_position (queued q)) as [k|]; cbn [mbind option_bind].
  - destruct H as (l1 & x & l2 & El & -> & Hmin).
    assert (queued q !! length l1 = Some x) as -> by (rewrite El; by apply list_lookup_middle).
    cbn [fmap option_fmap option_map fst snd with_queued]. rewrite El, delete_middle in *.
    destruct (sorted_middle l1 x l2 Hs) as [Hlt Hs'].
    apply Forall_app in Hmin as [Hm1 Hm2]. apply Forall_app in Hb as [Hb1 Hb2].
    apply Forall_cons in Hb2 as [_ Hb2]. split; [|by split; [done|split; [by apply Forall_app|]]].
    assert (Hl1 : Forall (fun y => lane_rank (qlane x) < lane_rank (qlane y)) l1).
    { rewrite Forall_forall in Hm1, Hlt |- *. intros y Hy. specialize (Hm1 y Hy).
      specialize (Hlt y Hy). unfold before in Hm1. lia. }
    assert (Hl2 : Forall (fun y => lane_rank (qlane x) <= lane_rank (qlane y)) l2).
    { eapply Forall_impl; [exact Hm2|]. intros y Hy. apply orb_false_iff in Hy as [Hy _]. apply Z.ltb_ge in Hy. exact Hy. }
    assert (Hnil1 : forall l, lane_rank l <= lane_rank (qlane x) -> in_lane l l1 = []).
    { intros l Hl. apply in_lane_nil. eapply Forall_impl; [exact Hl1|]. intros y Hy E. cbn in Hy. rewrite E in Hy. lia. }
    assert (Hnil2 : forall l, lane_rank l < lane_rank (qlane x) -> in_lane l l2 = []).
    { intros l Hl. apply in_lane_nil. eapply Forall_impl; [exact Hl2|]. intros y Hy E. cbn in Hy. rewrite E in Hy. lia. }
    unfold contents, pop. cbn [with_queued queued controls interactives bulks]. rewrite El.
    assert (Hx : forall l, in_lane l (x :: l2)
                   = (if decide (qlane x = l) then [payload x] else []) ++ in_lane l l2).
    { intros l. unfold in_lane. rewrite filter_cons. by case_decide. }
    rewrite !in_lane_app, !Hx. destruct (qlane x) eqn:Ex; cbn [lane_rank] in *;
      rewrite ?(Hnil1 Control), ?(Hnil1 Interactive), ?(Hnil1 Bulk), ?(Hnil2 Control),
        ?(Hnil2 Interactive) by (cbn; lia);
      reflexivity.
  - cbn [fst snd]. split; [|by split]. unfold contents, pop. by rewrite H.
Qed.

(** ** Refinement: each operation is the one of the lanes *)

Definition live (q : t) (r : Reservation) : bool := bool_decide (is_Some (find_reservation q r)).

Lemma commit_pushes r p q :
  ordered q -> next_order q < U64_MAX ->
  contents (commit r p q) = (if live q r then push (lane r) p (contents q) else contents q)
  /\ ordered (commit r p q).
Proof.
  intros (Hs & Hb & Hn) Hlt. unfold commit, live.
  destruct (find_reservation q r) as [pos|]; [|split; [|done]; by case_bool_decide as H; [destruct H|]].
  rewrite bool_decide_eq_true_2 by eauto. split.
  - unfold contents, push. cbn [queued]. rewrite !in_lane_app.
    destruct (lane r); cbn; by rewrite !app_nil_r.
  - unfold ordered. cbn [queued next_order]. rewrite wadd_small by (unfold U64_MAX in *; lia).
    split; [|split; [|lia]].
    + rewrite fmap_app. apply StronglySorted_app_2; [|done|repeat constructor].
      intros a b Ha Hb'. apply list_elem_of_fmap in Ha as (x & -> & Hx).
      apply list_elem_of_singleton in Hb' as ->. cbn.
      rewrite Forall_forall in Hb. apply Hb in Hx. cbn in Hx. lia.
    + apply Forall_app. split; [eapply Forall_impl; [exact Hb|]; cbn; lia|].
      apply Forall_singleton. cbn. lia.
Qed.

Inductive op :=
  | OpReserve (n : Z) (l : Lane)
  | OpCommit (r : Reservation) (p : list Z)
  | OpAbort (r : Reservation)
  | OpDequeue.

(** The output of an operation (the payload of a dequeue) and the queue it leaves. *)
Definition apply_op (o : op) (q : t) : list (option (list Z)) * t :=
  match o with
  | OpReserve n l => ([], snd (reserve n l q))
  | OpCommit r p => ([], commit r p q)
  | OpAbort r => ([], abort r q)
  | OpDequeue => match dequeue q with (p, q) => ([p], q) end
  end.

Fixpoint run (ops : list op) (q : t) : list (option (list Z)) * t :=
  match ops with
  | [] => ([], q)
  | o :: ops => let (out, q) := apply_op o q in let (outs, q) := run ops q in (out ++ outs, q)
  end.

(** The same history on the lanes: only a commit under a live reservation adds a message. *)
Definition lanes_op (q : t) (o : op) (s : lanes) : list (option (list Z)) * lanes :=
  match o with
  | OpCommit r p => ([], if live q r then push (lane r) p s else s)
  | OpDequeue => match pop s with (p, s) => ([p], s) end
  | _ => ([], s)
  end.

Fixpoint lanes_run (ops : list op) (q : t) (s : lanes) : list (option (list Z)) * lanes :=
  match ops with
  | [] => ([], s)
  | o :: ops =>
      let (out, s) := lanes_op q o s in
      let (outs, s) := lanes_run ops (snd (apply_op o q)) s in (out ++ outs, s)
  end.

Lemma apply_op_lanes o q :
  ordered q -> next_order q < U64_MAX ->
  (fst (apply_op o q), contents (snd (apply_op o q))) = lanes_op q o (contents q)
  /\ ordered (snd (apply_op o q)) /\ next_order (snd (apply_op o q)) <= next_order q + 1.
Proof.
  intros Ho Hlt. destruct o as [n l|r p|r|]; cbn [apply_op lanes_op].
  - assert (queued (snd (reserve n l q)) = queued q /\ next_order (snd (reserve n l q)) = next_order q)
      as [Hq Hn] by (unfold reserve; by repeat case_match).
    cbn [fst snd]. unfold contents, ordered. rewrite Hq, Hn. split; [done|]. split; [done|lia].
  - destruct (commit_pushes r p q Ho Hlt) as [Hc Ho']. cbn [fst snd]. rewrite Hc.
    split; [done|]. split; [done|]. destruct Ho as (_ & _ & Hn). unfold commit.
    destruct (find_reservation q r); [|lia]. cbn [next_order].
    rewrite wadd_small by (unfold U64_MAX in *; lia). lia.
  - assert (queued (abort r q) = queued q /\ next_order (abort r q) = next_order q) as [Hq Hn]
      by (unfold abort; by case_match).
    cbn [fst snd]. unfold contents, ordered. rewrite Hq, Hn. split; [done|]. split; [done|lia].
  - destruct (dequeue_pops q Ho) as [Hp Ho'].
    assert (Hn : next_order (snd (dequeue q)) = next_order q)
      by (unfold dequeue; case_match; [by case_match|done]).
    destruct (dequeue q) as [p q']. cbn [fst snd] in *. rewrite <- Hp.
    split; [done|]. split; [done|]. lia.
Qed.

Lemma run_lanes ops q :
  ordered q -> next_order q + Z.of_nat (length ops) <= U64_MAX ->
  (fst (run ops q), contents (snd (run ops q))) = lanes_run ops q (contents q).
Proof.
  revert q. induction ops as [|o ops IH]; intros q Ho Hb; [done|]. cbn [length] in Hb.
  cbn [run lanes_run]. destruct (apply_op_lanes o q Ho) as (Hop & Ho' & Hn); [lia|].
  rewrite <- Hop. destruct (apply_op o q) as [out q']. cbn [fst snd] in *.
  specialize (IH q' Ho' ltac:(lia)). rewrite <- IH. by destruct (run ops q') as [outs q''].
Qed.

(** C23: the peer queue is three first-in first-out lanes of strict priority: whatever a history of
    reservations, commits, aborts and dequeues, every dequeue returns the oldest message of
    the highest lane that has one, so a control message waits for no other lane. *)
Theorem queue_refines_lanes l ops :
  Z.of_nat (length ops) <= U64_MAX ->
  (fst (run ops (new l)), contents (snd (run ops (new l))))
  = lanes_run ops (new l) {| controls := []; interactives := []; bulks := [] |}.
Proof.
  intros Hb. apply (run_lanes ops (new l)); [|cbn; lia].
  split; [constructor|]. split; [constructor|cbn; lia].
Qed.

(** ** Bytes *)

Lemma sum_u64_exact l : Forall (Z.le 0) l -> sumZ l < 2 ^ 64 -> sum_u64 l = sumZ l.
Proof.
  unfold sum_u64. intros Hl.
  assert (forall acc, 0 <= acc -> acc + sumZ l < 2 ^ 64 -> fold_left (wadd 64) l acc = acc + sumZ l)
    as H; [|intros Hb; by rewrite H by lia].
  induction Hl as [|x l Hx Hl IH]; intros acc Ha Hb; cbn [fold_left sumZ] in *; [lia|].
  pose proof (sumZ_nonneg l Hl). rewrite wadd_small by lia. rewrite IH; lia.
Qed.

(** Reserved and queued messages, each counted by lane and size. *)
Definition weigh (f : Lane -> Z -> Z) (q : t) : Z :=
  sumZ ((fun r => f (lane r) (bytes r)) <$> reservations q)
  + sumZ ((fun x => f (qlane x) (qbytes x)) <$> queued q).

Definition all_bytes : t -> Z := weigh (fun _ b => b).
Definition bulk_bytes : t -> Z := weigh (fun l b => if decide (l = Bulk) then b else 0).

Lemma all_bytes_eq q :
  all_bytes q = sumZ (bytes <$> reservations q) + sumZ (qbytes <$> queued q).
Proof. reflexivity. Qed.

(** The accounting of a queue: ids are fresh, the counter of reserved bytes is exact, and the
    limits hold. *)
Definition accounted (q : t) : Prop :=
  NoDup (id <$> reservations q) /\ Forall (fun r => 0 <= id r < next_id q) (reservations q)
  /\ Forall (fun r => 0 <= bytes r) (reservations q) /\ Forall (fun x => 0 <= qbytes x) (queued q)
  /\ reserved_bytes q = sumZ (bytes <$> reservations q)
  /\ all_bytes q <= max_bytes (limits q) < 2 ^ 64
  /\ (length (queued q) + length (reservations q) <= max_messages (limits q))%nat
  /\ 0 <= next_id q.

Lemma sumZ_delete {A} (f : A -> Z) l i x :
  l !! i = Some x -> sumZ (f <$> delete i l) = sumZ (f <$> l) - f x.
Proof.
  intros H. rewrite <- (take_drop_middle l i x H) at 2. rewrite delete_take_drop.
  rewrite !fmap_app, !sumZ_app. cbn. lia.
Qed.

Lemma in_use_exact q : accounted q -> in_use_bytes q = all_bytes q.
Proof.
  intros (_ & _ & Hr & Hq & Hsum & Hmax & _). unfold in_use_bytes. rewrite all_bytes_eq in *. rewrite Hsum.
  assert (Forall (Z.le 0) (qbytes <$> queued q)) by (by apply Forall_fmap).
  assert (0 <= sumZ (bytes <$> reservations q)) by (apply sumZ_nonneg; by apply Forall_fmap).
  pose proof (sumZ_nonneg (qbytes <$> queued q) H).
  rewrite sum_u64_exact by (done || lia). rewrite wadd_small; lia.
Qed.

(** A reservation a caller may hold: one the queue knows, or one it no longer knows. *)
Definition honest (q : t) (r : Reservation) : Prop :=
  r ∈ reservations q \/ find_reservation q r = None.

Lemma honest_find q r pos :
  accounted q -> honest q r -> find_reservation q r = Some pos -> reservations q !! pos = Some r.
Proof.
  intros (Hnd & _) [Hin|Hnone] Hf; [|congruence]. unfold find_reservation in Hf.
  destruct (list_find _ (reservations q)) as [[i x]|] eqn:E; [|done]. cbn in Hf. injection Hf as ->.
  apply list_find_Some in E as (Hx & Hid & _). apply list_elem_of_lookup in Hin as [j Hj].
  assert (pos = j) as ->; [|done].
  apply (NoDup_lookup _ _ _ (id r) Hnd); rewrite list_lookup_fmap.
  - by rewrite Hx; cbn; rewrite Hid.
  - by rewrite Hj.
Qed.

Section reserve.
Context (n : Z) (l : Lane) (q : t).
Hypothesis Hq : accounted q.
Hypothesis Hn : 0 <= n.
Hypothesis Hroom : n + max_bytes (limits q) < 2 ^ 64.
Hypothesis Hid : next_id q < U64_MAX.

(** A reservation succeeds exactly when both limits leave room. *)
Lemma reserve_iff :
  is_ok (fst (reserve n l q)) = true
  <-> all_bytes q + n <= max_bytes (limits q)
      /\ (length (queued q) + length (reservations q) < max_messages (limits q))%nat.
Proof.
  unfold reserve. rewrite in_use_exact by done.
  pose proof Hq as (_ & _ & _ & _ & _ & Hmax & _).
  assert (0 <= all_bytes q).
  { destruct Hq as (_ & _ & Hr & Hx & _). rewrite all_bytes_eq.
    assert (0 <= sumZ (bytes <$> reservations q)) by (apply sumZ_nonneg; by apply Forall_fmap).
    assert (0 <= sumZ (qbytes <$> queued q)) by (apply sumZ_nonneg; by apply Forall_fmap). lia. }
  rewrite wadd_small by lia. destruct (_ <? _) eqn:E; [cbn; split; [done|lia]|].
  destruct (_ <=? _)%nat eqn:E2; cbn.
  - apply Nat.leb_le in E2. split; [done|lia].
  - apply Nat.leb_gt in E2. split; [lia|done].
Qed.

Lemma reserve_spec :
  accounted (snd (reserve n l q)) /\ limits (snd (reserve n l q)) = limits q
  /\ forall f, weigh f (snd (reserve n l q))
     = weigh f q + (if is_ok (fst (reserve n l q)) then f l n else 0).
Proof.
  pose proof reserve_iff as Hiff. unfold reserve in *.
  destruct (_ <? _); cbn [fst snd is_ok] in *; [split; [done|split; [done|intros; lia]]|].
  destruct (_ <=? _)%nat eqn:E; cbn [fst snd is_ok] in *; [split; [done|split; [done|intros; lia]]|].
  destruct (proj1 Hiff eq_refl) as [Hb Hc].
  assert (Hw : forall f, weigh f {| limits := limits q;
              reserved_bytes := wadd 64 (reserved_bytes q) n;
              reservations := reservations q ++ [{| id := next_id q; bytes := n; lane := l |}];
              queued := queued q; next_id := wadd 64 (next_id q) 1;
              next_order := next_order q |} = weigh f q + f l n).
  { intros f. unfold weigh. cbn [reservations queued]. rewrite fmap_app, sumZ_app. cbn. lia. }
  split; [|by split]. destruct Hq as (Hnd & Hids & Hr & Hx & Hsum & Hmax & Hcount & Hnid).
  unfold accounted. unfold all_bytes at 1. rewrite Hw. fold (all_bytes q).
  rewrite all_bytes_eq in Hb, Hmax |- *. cbn [reservations queued reserved_bytes limits next_id].
  rewrite (wadd_small 64 (next_id q)) by (unfold U64_MAX in *; lia).
  assert (0 <= sumZ (bytes <$> reservations q)) by (apply sumZ_nonneg; by apply Forall_fmap).
  assert (0 <= sumZ (qbytes <$> queued q)) by (apply sumZ_nonneg; by apply Forall_fmap).
  rewrite !fmap_app, !Forall_app, sumZ_app, !length_app. cbn.
  split; [apply NoDup_app; split; [done|split; [|apply NoDup_singleton]]|].
  - intros i Hi. apply list_elem_of_fmap in Hi as (r & -> & Hr'). rewrite list_elem_of_singleton.
    rewrite Forall_forall in Hids. apply Hids in Hr'. lia.
  - rewrite !Forall_singleton. cbn. rewrite wadd_small by lia.
    split; [split; [eapply Forall_impl; [exact Hids|]; cbn; lia|lia]|].
    split; [done|]. split; [done|]. split; [lia|]. split; [lia|]. split; [lia|lia].
Qed.
End reserve.

Lemma settle_spec r q pos :
  accounted q -> reservations q !! pos = Some r ->
  wsub 64 (reserved_bytes q) (bytes r) = sumZ (bytes <$> delete pos (reservations q))
  /\ NoDup (id <$> delete pos (reservations q))
  /\ Forall (fun r => 0 <= id r < next_id q) (delete pos (reservations q))
  /\ Forall (fun r => 0 <= bytes r) (delete pos (reservations q))
  /\ S (length (delete pos (reservations q))) = length (reservations q) /\ 0 <= bytes r.
Proof.
  intros (Hnd & Hids & Hr & Hx & Hsum & Hmax & _) Hpos.
  pose proof (delete_Permutation _ _ _ Hpos) as Hp.
  assert (Hq : 0 <= sumZ (qbytes <$> queued q)) by (apply sumZ_nonneg; by apply Forall_fmap).
  rewrite Hp in Hnd, Hids, Hr. cbn in Hnd. apply NoDup_cons in Hnd as [_ Hnd].
  apply Forall_cons in Hids as [_ Hids]. apply Forall_cons in Hr as [Hb Hr].
  assert (0 <= sumZ (bytes <$> delete pos (reservations q))) by (apply sumZ_nonneg; by apply Forall_fmap).
  rewrite (sumZ_delete bytes _ _ _ Hpos) in *. rewrite Hsum.
  rewrite all_bytes_eq in Hmax. split; [apply wrap_small; unfold in_u; lia|].
  do 3 (split; [done|]). split; [|done]. rewrite length_delete by eauto.
  apply lookup_lt_Some in Hpos. lia.
Qed.

Lemma queue_commit_spec r p q :
  accounted q -> honest q r ->
  accounted (commit r p q) /\ limits (commit r p q) = limits q
  /\ forall f, weigh f (commit r p q) = weigh f q.
Proof.
  intros Hq Hh. unfold commit. destruct (find_reservation q r) as [pos|] eqn:E; [|done].
  pose proof (honest_find q r pos Hq Hh E) as Hpos.
  destruct (settle_spec r q pos Hq Hpos) as (Hs & Hnd & Hids & Hr & Hl & Hb).
  match goal with |- accounted ?x /\ _ => set (q' := x) end.
  assert (Hw : forall f, weigh f q' = weigh f q).
  { intros f. unfold weigh, q'. cbn [reservations queued].
    rewrite (sumZ_delete (fun r => f (lane r) (bytes r)) _ _ _ Hpos), fmap_app, sumZ_app. cbn. lia. }
  split; [|by split]. destruct Hq as (_ & _ & _ & Hx & _ & Hmax & Hc & Hi).
  unfold accounted, all_bytes in *. rewrite Hw. cbn [q' reservations queued reserved_bytes limits next_id].
  rewrite Forall_app, length_app, Forall_singleton. cbn [length qbytes].
  split; [done|]. split; [done|]. split; [done|]. split; [done|]. split; [done|]. split; [done|].
  split; [lia|done].
Qed.

Lemma abort_spec r q :
  accounted q -> honest q r ->
  accounted (abort r q) /\ limits (abort r q) = limits q.
Proof.
  intros Hq Hh. unfold abort. destruct (find_reservation q r) as [pos|] eqn:E; [|done].
  pose proof (honest_find q r pos Hq Hh E) as Hpos.
  destruct (settle_spec r q pos Hq Hpos) as (Hs & Hnd & Hids & Hr & Hl & Hb).
  split; [|done]. destruct Hq as (_ & _ & _ & Hx & _ & Hmax & Hc & Hi).
  unfold accounted. rewrite all_bytes_eq in Hmax |- *. cbn [reservations queued reserved_bytes limits next_id].
  rewrite (sumZ_delete bytes _ _ _ Hpos).
  do 4 (split; [done|]). split; [by rewrite <- (sumZ_delete bytes _ _ _ Hpos)|].
  split; [lia|]. split; [lia|done].
Qed.

Lemma dequeue_spec q :
  accounted q ->
  accounted (snd (dequeue q)) /\ limits (snd (dequeue q)) = limits q
  /\ forall f, (forall l b, 0 <= b -> 0 <= f l b) -> weigh f (snd (dequeue q)) <= weigh f q.
Proof.
  intros Hq. unfold dequeue. destruct (best_position (queued q)) as [i|]; cbn [mbind option_bind].
  2: { cbn. split; [done|]. split; [done|]. intros; lia. }
  destruct (queued q !! i) as [x|] eqn:E; cbn [fmap option_fmap option_map snd].
  2: { cbn. split; [done|]. split; [done|]. intros; lia. }
  assert (Hx0 : 0 <= qbytes x).
  { destruct Hq as (_ & _ & _ & Hx & _). by apply (Forall_lookup_1 _ _ _ _ Hx E). }
  assert (Hw : forall f, weigh f (with_queued q (delete i (queued q))) = weigh f q - f (qlane x) (qbytes x)).
  { intros f. unfold weigh. cbn [with_queued reservations queued].
    rewrite (sumZ_delete (fun x => f (qlane x) (qbytes x)) _ _ _ E). lia. }
  split; [|split; [done|]].
  - destruct Hq as (? & ? & ? & Hx & ? & Hmax & Hc & ?). unfold accounted, all_bytes in *.
    rewrite Hw. cbn [with_queued reservations queued reserved_bytes limits next_id].
    do 3 (split; [done|]). split; [|split; [done|split; [lia|split; [|done]]]].
    + rewrite delete_take_drop. apply Forall_app. split; [by apply Forall_take|by apply Forall_drop].
    + rewrite length_delete by eauto. lia.
  - intros f Hf. rewrite Hw. specialize (Hf (qlane x) (qbytes x) Hx0). lia.
Qed.

(** ** The control reserve *)

(** Operations on a queue with a reserve, by callers that hand back the reservations they
    got and report as drained no more bulk bytes than were dequeued; the second component
    is what is still to be reported. *)
Inductive rstep : relation (ReservedPeerQueue * Z) :=
  | step_reserve_bulk r c n :
      0 <= n -> n + max_bytes (limits (queue r)) < 2 ^ 64 -> next_id (queue r) < U64_MAX ->
      rstep (r, c) (snd (reserve_bulk n r), c)
  | step_reserve_control r c n :
      0 <= n -> n + max_bytes (limits (queue r)) < 2 ^ 64 -> next_id (queue r) < U64_MAX ->
      rstep (r, c) (snd (reserve_control n r), c)
  | step_commit r c x p :
      honest (queue r) x -> rstep (r, c) (reserved_commit x p r, c)
  | step_dequeue r c :
      rstep (r, c) (snd (reserved_dequeue r),
                    c + (bulk_bytes (queue r) - bulk_bytes (queue (snd (reserved_dequeue r)))))
  | step_drained r c n :
      0 <= n <= c -> rstep (r, c) (bulk_drained n r, c - n).

(** The bulk bytes counted cover those in the queue and those not yet reported, and stay out
    of the reserve. *)
Definition partitioned (x : ReservedPeerQueue * Z) : Prop :=
  let (r, c) := x in
  accounted (queue r) /\ max_bytes (limits (queue r)) = total_bytes r
  /\ 0 <= control_reserve_bytes r <= total_bytes r
  /\ 0 <= c /\ 0 <= bulk_in_use r
  /\ bulk_bytes (queue r) + c <= bulk_in_use r <= total_bytes r - control_reserve_bytes r.

Lemma bulk_bytes_nonneg q : accounted q -> 0 <= bulk_bytes q.
Proof.
  intros (_ & _ & Hr & Hx & _). unfold bulk_bytes, weigh.
  assert (0 <= sumZ ((fun r => if decide (lane r = Bulk) then bytes r else 0) <$> reservations q)).
  { apply sumZ_nonneg, Forall_fmap. eapply Forall_impl; [exact Hr|]. intros x Hx'. cbn in *. case_decide; lia. }
  assert (0 <= sumZ ((fun x => if decide (qlane x = Bulk) then qbytes x else 0) <$> queued q)).
  { apply sumZ_nonneg, Forall_fmap. eapply Forall_impl; [exact Hx|]. intros x Hx'. cbn in *. case_decide; lia. }
  lia.
Qed.

Lemma rstep_partitioned x y : partitioned x -> rstep x y -> partitioned y.
Proof.
  intros Hx H. destruct H as [r c n Hn Hroom Hid|r c n Hn Hroom Hid|r c x p Hh|r c|r c n Hd];
    destruct Hx as (Hq & Htot & Hres & Hc & Hb0 & Hb).
  - pose proof (bulk_bytes_nonneg _ Hq). unfold reserve_bulk.
    assert (total_bytes r < 2 ^ 64) by (rewrite <- Htot; apply Hq).
    unfold wsub. rewrite wrap_small by (unfold in_u; lia). rewrite wadd_small by lia.
    destruct (_ <? _) eqn:E; [done|].
    destruct (reserve_spec n Bulk (queue r) Hq Hn Hroom Hid) as (Hq' & Hl & Hw).
    pose proof (Hw (fun l b => if decide (l = Bulk) then b else 0) :
      bulk_bytes (snd (reserve n Bulk (queue r))) = bulk_bytes (queue r)
        + (if is_ok (fst (reserve n Bulk (queue r))) then n else 0)) as Hw'.
    unfold partitioned. destruct (reserve n Bulk (queue r)) as [[v|e] q'];
      cbn [fst snd is_ok with_queue queue total_bytes control_reserve_bytes bulk_in_use] in *;
      rewrite Hl; (split; [done|]); (split; [done|]); lia.
  - destruct (reserve_spec n Control (queue r) Hq Hn Hroom Hid) as (Hq' & Hl & Hw).
    pose proof (Hw (fun l b => if decide (l = Bulk) then b else 0) :
      bulk_bytes (snd (reserve n Control (queue r))) = bulk_bytes (queue r)
        + (if is_ok (fst (reserve n Control (queue r))) then 0 else 0)) as Hw'.
    unfold partitioned, reserve_control. destruct (reserve n Control (queue r)) as [v q'].
    cbn [fst snd with_queue queue total_bytes control_reserve_bytes bulk_in_use] in *.
    rewrite Hl. destruct (is_ok v); (split; [done|]); (split; [done|]); lia.
  - destruct (queue_commit_spec x p (queue r) Hq Hh) as (Hq' & Hl & Hw).
    unfold partitioned, bulk_bytes, reserved_commit in *.
    cbn [with_queue queue total_bytes control_reserve_bytes bulk_in_use]. by rewrite Hw, Hl.
  - destruct (dequeue_spec (queue r) Hq) as (Hq' & Hl & Hw).
    unfold partitioned, bulk_bytes, reserved_dequeue in *. destruct (dequeue (queue r)) as [p q'].
    cbn [fst snd with_queue queue total_bytes control_reserve_bytes bulk_in_use] in *.
    rewrite Hl. pose proof (Hw (fun l b => if decide (l = Bulk) then b else 0)
      ltac:(intros ? ? ?; cbn beta; case_decide; lia)) as Hle.
    unfold bulk_bytes in *. split; [done|]. split; [done|]. lia.
  - unfold partitioned, bulk_drained in *.
    cbn [with_queue queue total_bytes control_reserve_bytes bulk_in_use]. unfold sat_sub.
    pose proof (bulk_bytes_nonneg _ Hq). split; [done|]. split; [done|]. lia.
Qed.

(** Bulk traffic never takes the bytes reserved for control: in any history of a peer queue
    with a control reserve, a control message is admitted whenever control traffic itself
    stays within the reserve and the number of messages is below its limit, however much
    bulk is reserved or queued. *)
Theorem control_reserve_untouched l reserve_bytes r c n :
  0 <= reserve_bytes <= max_bytes l -> max_bytes l < 2 ^ 64 ->
  rtc rstep (reserved_new l reserve_bytes, 0) (r, c) ->
  0 <= n -> n + max_bytes l < 2 ^ 64 -> next_id (queue r) < U64_MAX ->
  all_bytes (queue r) - bulk_bytes (queue r) + n <= reserve_bytes ->
  (length (queued (queue r)) + length (reservations (queue r)) < max_messages l)%nat ->
  is_ok (fst (reserve_control n r)) = true.
Proof.
  intros Hres Hmax Hsteps Hn Hroom Hid Hctl Hcount.
  assert (partitioned (r, c) /\ limits (queue r) = l /\ control_reserve_bytes r = reserve_bytes) as
    ((Hq & Htot & Hr & Hc & Hb0 & Hb) & Hl & Hcr).
  { apply (invariant_rtc rstep (fun x => partitioned x /\ limits (queue (fst x)) = l
      /\ control_reserve_bytes (fst x) = reserve_bytes)) in Hsteps; [done| |].
    - intros x y (Hx & Hl & Hc) H. split; [by eapply rstep_partitioned|].
      destruct H as [r' ? m ? ? ?|r' ? m ? ? ?|r' ? x p Hh|r' ?|r' ? m ?]; cbn [fst] in *; destruct Hx as (Hq & _).
      + unfold reserve_bulk. case_match; [done|].
        pose proof (reserve_spec m Bulk (queue r') Hq ltac:(done) ltac:(done) ltac:(done)) as (_ & Hl' & _).
        destruct (reserve m Bulk (queue r')) as [[|] q']; cbn in *; by rewrite Hl'.
      + pose proof (reserve_spec m Control (queue r') Hq ltac:(done) ltac:(done) ltac:(done)) as (_ & Hl' & _).
        unfold reserve_control. destruct (reserve m Control (queue r')) as [v q']; cbn in *. by rewrite Hl'.
      + destruct (queue_commit_spec x p (queue r') Hq Hh) as (_ & Hl' & _). cbn. by rewrite Hl'.
      + destruct (dequeue_spec (queue r') Hq) as (_ & Hl' & _). unfold reserved_dequeue.
        destruct (dequeue (queue r')) as [p q']. cbn in *. by rewrite Hl'.
      + done.
    - split; [|done]. unfold partitioned, accounted, reserved_new, new, all_bytes, bulk_bytes, weigh. cbn.
      repeat split; try constructor; try lia. }
  unfold reserve_control.
  assert (is_ok (fst (reserve n Control (queue r))) = true) as Hok.
  { apply reserve_iff; [done|done|by rewrite Hl|]. rewrite Hl in *. split; [lia|done]. }
  by destruct (reserve n Control (queue r)).
Qed.

(** ** Examples *)

Definition small : PeerQueueLimits := {| max_bytes := 100; max_messages := 2 |}.

Definition one_bulk : ReservedPeerQueue := snd (reserve_bulk 40 (reserved_new small 50)).

Definition two_bulks : ReservedPeerQueue := snd (reserve_bulk 1 one_bulk).

Lemma queue_refines_lanes_witness :
  fst (run [OpReserve 40 Bulk; OpCommit {| id := 0; bytes := 40; lane := Bulk |} [7];
            OpReserve 1 Control; OpCommit {| id := 1; bytes := 1; lane := Control |} [8];
            OpDequeue; OpDequeue; OpDequeue] (new small)) = [Some [8]; Some [7]; None].
Proof.
  pose proof (queue_refines_lanes small
    [OpReserve 40 Bulk; OpCommit {| id := 0; bytes := 40; lane := Bulk |} [7];
     OpReserve 1 Control; OpCommit {| id := 1; bytes := 1; lane := Control |} [8];
     OpDequeue; OpDequeue; OpDequeue] ltac:(vm_compute; congruence)) as H.
  apply (f_equal fst) in H. exact H.
Defined.

Lemma control_reserve_untouched_witness : is_ok (fst (reserve_control 50 one_bulk)) = true.
Proof.
  apply (control_reserve_untouched small 50 one_bulk 0).
  all: try by vm_compute.
  apply rtc_once, (step_reserve_bulk _ 0 40); by vm_compute.
Defined.

(** The reserve is a reserve of bytes: two one-byte bulk messages use up the message limit
    and a cancel is refused while all of its bytes are free. *)
Theorem cancel_refused_by_count :
  rtc rstep (reserved_new small 50, 0) (two_bulks, 0)
  /\ all_bytes (queue two_bulks) = bulk_bytes (queue two_bulks)
  /\ fst (reserve_control 1 two_bulks)
     = Err {| limit := "max_messages"; requested_bytes := 1; receipt_in_use := 41 |}.
Proof.
  split; [|split; reflexivity].
  eapply rtc_l; [apply (step_reserve_bulk _ 0 40); by vm_compute|].
  apply rtc_once, (step_reserve_bulk _ 0 1); by vm_compute.
Qed.

(** The sum of the bytes in use and the bytes requested wraps around: a request near the
    largest u64 is admitted into a queue that is not empty. *)
Theorem huge_reservation_admitted :
  let q := snd (reserve 1 Bulk (new small)) in
  is_ok (fst (reserve U64_MAX Bulk q)) = true /\ max_bytes (limits q) = 100.
Proof. split; reflexivity. Qed.

End QueueFacts.

Module LimitFacts.
Import PeerLimits.

(** Every dimension is registered, so no operation panics, and no usage exceeds its limit. *)
Definition within (a : PeerAccount) : Prop :=
  Forall2 (fun used entry => 0 <= used <= snd entry) (usage a) DEFAULT_LIMITS
  /\ 0 <= control_in_use a <= CONTROL_RESERVE_SLOTS.

Inductive op :=
  | OpAdmit (d : Dimension) (amount : Z)
  | OpRelease (d : Dimension) (amount : Z)
  | OpControl
  | OpControlDone.

Definition apply_op (o : op) (a : PeerAccount) : option PeerAccount :=
  match o with
  | OpAdmit d n => snd <$> admit_usage d n a
  | OpRelease d n => release d n a
  | OpControl => Some (snd (admit_control a))
  | OpControlDone => Some (release_control a)
  end.

Lemma registered d : exists i limit, index_of d = Some i /\ DEFAULT_LIMITS !! i = Some (d, limit).
Proof. destruct d; do 2 eexists; split; reflexivity. Qed.

Lemma apply_within o a :
  within a -> match o with OpAdmit _ n | OpRelease _ n => 0 <= n | _ => True end ->
  exists a', apply_op o a = Some a' /\ within a'
    /\ (match o with OpAdmit _ _ | OpRelease _ _ => control_in_use a' = control_in_use a
        | _ => usage a' = usage a end).
Proof.
  intros [Hu Hc] Hn. destruct o as [d n|d n| |]; cbn [apply_op].
  - destruct (registered d) as (i & lim & Hi & Hd). unfold admit_usage. rewrite Hi. cbn [mbind option_bind].
    rewrite Hd. cbn [mbind option_bind].
    destruct (Forall2_lookup_r _ _ _ _ _ Hu Hd) as (used & Eu & Hb). rewrite Eu.
    cbn [mbind option_bind fmap option_fmap option_map snd] in *.
    eexists. split; [done|]. destruct (_ <? _) eqn:E; cbn [snd]; [by split|].
    split; [|done]. split; [|done]. cbn [usage].
    rewrite <- (list_insert_id DEFAULT_LIMITS i _ Hd). apply Forall2_insert; [done|].
    cbn [snd] in *. unfold sat_add in *. lia.
  - destruct (registered d) as (i & lim & Hi & Hd). unfold release. rewrite Hi. cbn [mbind option_bind].
    destruct (Forall2_lookup_r _ _ _ _ _ Hu Hd) as (used & Eu & Hb). rewrite Eu.
    cbn [mbind option_bind snd] in *.
    eexists. split; [done|]. split; [|done]. split; [|done]. cbn [usage].
    rewrite <- (list_insert_id DEFAULT_LIMITS i _ Hd). apply Forall2_insert; [done|].
    cbn [snd] in *. unfold sat_sub. lia.
  - eexists. split; [done|]. unfold admit_control.
    destruct (CONTROL_RESERVE_SLOTS <=? control_in_use a) eqn:E; cbn [snd]; [by split|]. split; [|done]. split; [done|].
    cbn [control_in_use]. unfold CONTROL_RESERVE_SLOTS in *. rewrite wadd_small; lia.
  - eexists. split; [done|]. split; [|done]. split; [done|]. cbn.
    unfold sat_sub, CONTROL_RESERVE_SLOTS in *. lia.
Qed.

(** In any history no limit is passed, and no operation on the data dimensions moves the
    control slots or the other way round. *)
Lemma account_within ops :
  Forall (fun o => match o with OpAdmit _ n | OpRelease _ n => 0 <= n | _ => True end) ops ->
  exists a, foldl (fun a o => a ≫= apply_op o) (Some account_default) ops = Some a /\ within a.
Proof.
  induction ops as [|o ops IH] using rev_ind; intros Hops.
  - exists account_default. split; [done|]. split; [|cbn; unfold CONTROL_RESERVE_SLOTS; lia].
    repeat constructor; cbn; lia.
  - apply Forall_app in Hops as [Hops Ho]. rewrite Forall_singleton in Ho.
    destruct (IH Hops) as (a & Ha & Hw). rewrite foldl_app, Ha. cbn [foldl mbind option_bind].
    destruct (apply_within o a Hw Ho) as (a' & -> & Hw' & _). eauto.
Qed.

End LimitFacts.
