(* ===== verification/Bytes.v ===== *)
(** * Byte strings: big-endian integers, ordering, stable sorting and cursors

    What the CAS codecs use of the standard library: [to_be_bytes] and
    [from_be_bytes], the lexicographic order of byte slices, [sort_by] (stable), the
    bytes of a [str], and the notion of a reader that inverts a writer, from which
    the codec files build their decoders' correctness. *)

From stdpp Require Import base list strings sorting.
From Stdlib Require Import ZArith Lia.
From S2P Require Import Prelude.

Definition is_byte (b : Z) : Prop := 0 <= b < 256.
Abbreviation all_bytes := (Forall is_byte).

(** ** Strings *)

Definition str_bytes (s : string) : list Z :=
  (fun c => Z.of_N (Ascii.N_of_ascii c)) <$> String.list_ascii_of_string s.

Lemma str_bytes_all s : all_bytes (str_bytes s).
Proof.
  unfold str_bytes. apply Forall_fmap, Forall_true. intros c.
  pose proof (Ascii.N_ascii_bounded c). unfold is_byte. cbn. lia.
Qed.

(** ** Big-endian integers *)

Fixpoint be_bytes (w : nat) (v : Z) : list Z :=
  match w with
  | O => []
  | S w => be_bytes w (v / 256) ++ [v mod 256]
  end.

Definition from_be (bs : list Z) : Z := fold_left (fun acc b => acc * 256 + b) bs 0.

Lemma be_bytes_length w v : length (be_bytes w v) = w.
Proof. revert v. induction w; intros v; cbn; [done|]. rewrite length_app, IHw. cbn. lia. Qed.

Lemma be_bytes_all w v : all_bytes (be_bytes w v).
Proof.
  revert v. induction w as [|w IH]; intros v; cbn; [constructor|].
  apply Forall_app. split; [apply IH|]. repeat constructor; by apply Z.mod_pos_bound.
Qed.

Lemma from_be_snoc bs b : from_be (bs ++ [b]) = from_be bs * 256 + b.
Proof. unfold from_be. by rewrite fold_left_app. Qed.

Lemma from_be_be w v : 0 <= v < 256 ^ Z.of_nat w -> from_be (be_bytes w v) = v.
Proof.
  revert v. induction w as [|w IH]; intros v Hv.
  { cbn in *. lia. }
  cbn [be_bytes]. rewrite from_be_snoc, IH.
  - pose proof (Z.div_mod v 256). lia.
  - rewrite Nat2Z.inj_succ, Z.pow_succ_r in Hv by lia.
    split; [apply Z.div_pos; lia|]. apply Z.div_lt_upper_bound; lia.
Qed.

Lemma be_from_be bs : all_bytes bs -> be_bytes (length bs) (from_be bs) = bs.
Proof.
  induction bs as [|b bs IH] using rev_ind; intros Hall; [done|].
  apply Forall_app in Hall as [Hbs Hb]. apply Forall_cons_1 in Hb as [Hb _].
  unfold is_byte in Hb. rewrite length_app, Nat.add_1_r. cbn [be_bytes].
  rewrite from_be_snoc. rewrite Z.div_add_l, Z.div_small, Z.add_0_r, IH by (done || lia).
  f_equal. f_equal. rewrite Z.add_comm, Z.mod_add, Z.mod_small by lia. done.
Qed.

Lemma from_be_range bs : all_bytes bs -> 0 <= from_be bs < 256 ^ Z.of_nat (length bs).
Proof.
  induction bs as [|b bs IH] using rev_ind; intros Hall; [cbn; lia|].
  apply Forall_app in Hall as [Hbs Hb]. apply Forall_cons_1 in Hb as [Hb _].
  unfold is_byte in Hb. specialize (IH Hbs). rewrite from_be_snoc, length_app. cbn [length].
  rewrite Nat2Z.inj_add, Z.pow_add_r by lia. cbn. lia.
Qed.

(** ** Lexicographic order of byte slices *)

Fixpoint bytes_cmp (a b : list Z) : comparison :=
  match a, b with
  | [], [] => Eq
  | [], _ :: _ => Lt
  | _ :: _, [] => Gt
  | x :: a, y :: b => match x ?= y with Eq => bytes_cmp a b | c => c end
  end.

Lemma bytes_cmp_eq a b : bytes_cmp a b = Eq <-> a = b.
Proof.
  revert b. induction a as [|x a IH]; intros [|y b]; cbn; try done.
  destruct (Z.compare_spec x y) as [->|?|?].
  - rewrite IH. split; [by intros ->|by intros [=]].
  - split; [done|]. intros [= -> _]. lia.
  - split; [done|]. intros [= -> _]. lia.
Qed.

Lemma bytes_cmp_refl a : bytes_cmp a a = Eq.
Proof. by apply bytes_cmp_eq. Qed.

Lemma bytes_cmp_antisym a b : bytes_cmp b a = CompOpp (bytes_cmp a b).
Proof.
  revert b. induction a as [|x a IH]; intros [|y b]; cbn; try done.
  rewrite (Z.compare_antisym x y). by destruct (x ?= y); cbn.
Qed.

Lemma bytes_cmp_trans a b c :
  bytes_cmp a b = Lt -> bytes_cmp b c = Lt -> bytes_cmp a c = Lt.
Proof.
  revert b c. induction a as [|x a IH]; intros [|y b] [|z c]; cbn; try done.
  destruct (Z.compare_spec x y) as [->|Hxy|?]; try done.
  - destruct (Z.compare_spec y z); eauto; done.
  - intros _. destruct (Z.compare_spec y z) as [->|Hyz|?]; try done.
    + by destruct (Z.compare_spec x z); try lia.
    + by destruct (Z.compare_spec x z); try lia.
Qed.

(** ** [sort_by]: a stable sort *)

Section sort_by.
Context {A : Type} (leb : A -> A -> bool).

(** Places [x] behind everything that is not greater than it. *)
Fixpoint insert_by (x : A) (l : list A) : list A :=
  match l with
  | [] => [x]
  | y :: l => if leb y x then y :: insert_by x l else x :: y :: l
  end.

Definition sort_by (l : list A) : list A := fold_left (fun acc x => insert_by x acc) l [].

Lemma insert_by_perm x l : insert_by x l ≡ₚ x :: l.
Proof.
  induction l as [|y l IH]; cbn; [done|]. destruct (leb y x); [|done].
  rewrite IH. constructor.
Qed.

Lemma fold_insert_perm l acc : fold_left (fun acc x => insert_by x acc) l acc ≡ₚ l ++ acc.
Proof.
  revert acc. induction l as [|x l IH]; intros acc; cbn; [done|].
  rewrite IH, insert_by_perm. symmetry. apply Permutation_middle.
Qed.

Lemma sort_by_perm l : sort_by l ≡ₚ l.
Proof. unfold sort_by. by rewrite fold_insert_perm, app_nil_r. Qed.

Context (leb_trans : forall x y z, leb x y = true -> leb y z = true -> leb x z = true).
Context (leb_total : forall x y, leb x y = false -> leb y x = true).

Let R x y := leb x y = true.

Lemma insert_by_sorted x l : StronglySorted R l -> StronglySorted R (insert_by x l).
Proof.
  induction 1 as [|y l Hs IH Hall]; cbn; [by repeat constructor|].
  destruct (leb y x) eqn:Hyx.
  - constructor; [done|]. rewrite insert_by_perm. by constructor.
  - constructor; [by constructor|]. constructor; [by apply leb_total|].
    eapply Forall_impl; [exact Hall|]. intros z Hz. eapply leb_trans; [by apply leb_total|done].
Qed.

Lemma sort_by_sorted l : StronglySorted R (sort_by l).
Proof.
  unfold sort_by. assert (StronglySorted R []) as H by constructor. revert H.
  generalize (@nil A) as acc. induction l as [|x l IH]; intros acc Hacc; cbn; [done|].
  by apply IH, insert_by_sorted.
Qed.

(** Sorted permutations agree when order-equal elements are equal. *)
Lemma sorted_perm_unique l1 l2 :
  (forall x y, x ∈ l1 -> y ∈ l1 -> R x y -> R y x -> x = y) ->
  StronglySorted R l1 -> StronglySorted R l2 -> l1 ≡ₚ l2 -> l1 = l2.
Proof.
  revert l2. induction l1 as [|x l1 IH]; intros l2 Hanti H1 H2 Hp.
  { by apply Permutation_nil_l in Hp. }
  apply StronglySorted_inv in H1 as [H1 Hx].
  destruct l2 as [|y l2]; [by apply Permutation_nil_r in Hp|].
  apply StronglySorted_inv in H2 as [H2 Hy].
  assert (x = y) as ->.
  { assert (y ∈ x :: l1) as Hin1 by (rewrite Hp; constructor).
    assert (x ∈ y :: l2) as Hin2 by (rewrite <- Hp; constructor).
    apply elem_of_cons in Hin1 as [->|Hin1]; [done|].
    apply elem_of_cons in Hin2 as [->|Hin2]; [done|].
    rewrite Forall_forall in Hx, Hy. apply Hanti; [constructor|by constructor|auto|auto]. }
  f_equal. apply IH; try done.
  - intros a b Ha Hb. apply Hanti; by constructor.
  - by apply Permutation_cons_inv in Hp.
Qed.
End sort_by.
