(* ===== verification/Text.v ===== *)
(** * Text: what the code uses of [str]

    A [str] is the list of its UTF-8 bytes.  The code mixes byte scans
    ([as_bytes]) with operations on characters ([trim], [split_whitespace],
    [char::is_whitespace]); the latter recognise the encodings of the characters with the
    Unicode property White_Space, which on valid UTF-8 is what the standard library
    does.  String literals are Rocq strings, turned into bytes where they are compared. *)

From stdpp Require Import base list strings.
From Stdlib Require Import ZArith Lia.
From S2P Require Import Prelude Bytes.

Abbreviation str := (list Z).

(** ** ASCII *)

Abbreviation NL := 10.
Abbreviation CR := 13.
Abbreviation SPACE := 32.
Abbreviation DQUOTE := 34.
Abbreviation DOLLAR := 36.
Abbreviation AMP := 38.
Abbreviation SQUOTE := 39.
Abbreviation LPAREN := 40.
Abbreviation PLUS := 43.
Abbreviation DASH := 45.
Abbreviation SLASH := 47.
Abbreviation SEMI := 59.
Abbreviation LESS := 60.
Abbreviation EQUALS := 61.
Abbreviation GREATER := 62.
Abbreviation BACKSLASH := 92.
Abbreviation BACKTICK := 96.
Abbreviation PIPE := 124.

Definition is_ascii_digit (b : Z) : bool := (48 <=? b) && (b <=? 57).

(** [u8::is_ascii_whitespace]: not the vertical tab. *)
Definition is_ascii_whitespace (b : Z) : bool :=
  (b =? 32) || (b =? 9) || (b =? 10) || (b =? 12) || (b =? 13).

Definition to_ascii_lowercase (b : Z) : Z := if (65 <=? b) && (b <=? 90) then b + 32 else b.

(** ** White space

    The number of bytes of the white space character [s] starts with, zero when it
    starts with another one: U+0009 to U+000D, U+0020, U+0085, U+00A0, U+1680, U+2000 to
    U+200A, U+2028, U+2029, U+202F, U+205F and U+3000. *)
Definition ws_len (s : str) : nat :=
  match s with
  | b :: s1 =>
      if ((9 <=? b) && (b <=? 13)) || (b =? 32) then 1%nat
      else
        match s1 with
        | c :: s2 =>
            if (b =? 0xC2) && ((c =? 0x85) || (c =? 0xA0)) then 2%nat
            else
              match s2 with
              | d :: _ =>
                  if ((b =? 0xE1) && (c =? 0x9A) && (d =? 0x80))
                     || ((b =? 0xE2) && (c =? 0x80)
                         && (((0x80 <=? d) && (d <=? 0x8A))
                             || (d =? 0xA8) || (d =? 0xA9) || (d =? 0xAF)))
                     || ((b =? 0xE2) && (c =? 0x81) && (d =? 0x9F))
                     || ((b =? 0xE3) && (c =? 0x80) && (d =? 0x80))
                  then 3%nat else 0%nat
              | [] => 0%nat
              end
        | [] => 0%nat
        end
  | [] => 0%nat
  end.

Definition starts_with_ws (s : str) : bool := negb (Nat.eqb (ws_len s) 0).

(** [trim_start], with the bytes of a white space character still to be skipped. *)
Fixpoint trim_start_from (skip : nat) (s : str) : str :=
  match s with
  | [] => []
  | _ :: s' =>
      match skip with
      | S k => trim_start_from k s'
      | O => match ws_len s with O => s | S k => trim_start_from k s' end
      end
  end.
Definition trim_start (s : str) : str := trim_start_from 0 s.

Definition is_blank (s : str) : bool := match trim_start s with [] => true | _ => false end.

Fixpoint trim_end (s : str) : str :=
  match s with
  | [] => []
  | b :: s' => if is_blank s then [] else b :: trim_end s'
  end.

Definition trim (s : str) : str := trim_end (trim_start s).

(** ** Searching and splitting *)

Fixpoint strip_prefix (p s : str) : option str :=
  match p, s with
  | [], _ => Some s
  | _ :: _, [] => None
  | x :: p, y :: s => if x =? y then strip_prefix p s else None
  end.

Definition starts_with (p s : str) : bool :=
  match strip_prefix p s with Some _ => true | None => false end.

Fixpoint contains (p s : str) : bool :=
  starts_with p s || match s with [] => false | _ :: s' => contains p s' end.

Definition contains_byte (b : Z) (s : str) : bool := existsb (Z.eqb b) s.

(** [str::rfind] with a string: where its last occurrence starts. *)
Fixpoint rfind (p s : str) : option nat :=
  match s with
  | [] => if starts_with p [] then Some O else None
  | _ :: s' =>
      match rfind p s' with
      | Some i => Some (S i)
      | None => if starts_with p s then Some O else None
      end
  end.

(** [s.rsplit(c).next()]: what follows the last [c], all of [s] when there is none. *)
Fixpoint after_last (c : Z) (s : str) : str :=
  match s with
  | [] => []
  | b :: s' =>
      if contains_byte c s' then after_last c s'
      else if b =? c then s' else s
  end.

(** [s.trim_start_matches(c)]. *)
Fixpoint trim_start_matches (c : Z) (s : str) : str :=
  match s with
  | b :: s' => if b =? c then trim_start_matches c s' else s
  | [] => []
  end.

(** [s.split_once(char::is_whitespace)]: the parts around the first white space
    character. *)
Fixpoint split_once_ws (s : str) : option (str * str) :=
  match s with
  | [] => None
  | b :: s' =>
      match ws_len s with
      | O => match split_once_ws s' with Some (x, y) => Some (b :: x, y) | None => None end
      | n => Some ([], drop n s)
      end
  end.

(** [s.split_once(char::is_whitespace).unwrap_or((s, ""))]. *)
Definition split_first_word (s : str) : str * str := default (s, []) (split_once_ws s).

(** [s.split_whitespace()], with the bytes of the word being read (last first). *)
Fixpoint words_from (skip : nat) (cur : str) (s : str) : list str :=
  let flush := match cur with [] => [] | _ => [rev cur] end in
  match s with
  | [] => flush
  | b :: s' =>
      match skip with
      | S k => words_from k cur s'
      | O =>
          match ws_len s with
          | O => words_from 0 (b :: cur) s'
          | S k => flush ++ words_from k [] s'
          end
      end
  end.
Definition split_whitespace (s : str) : list str := words_from 0 [] s.

(** ** Literals *)

Definition is_lit (s : str) (lit : string) : bool := bool_decide (s = str_bytes lit).
Definition starts_lit (s : str) (lit : string) : bool := starts_with (str_bytes lit) s.
Definition contains_lit (s : str) (lit : string) : bool := contains (str_bytes lit) s.
(** [list.contains(&s)]. *)
Definition in_lits (s : str) (lits : list string) : bool := existsb (is_lit s) lits.

(** * Properties *)

(** ** White space *)

Lemma ws_len_le s : (ws_len s <= length s)%nat.
Proof.
  destruct s as [|b [|c [|d s]]]; cbn; repeat case_match; lia.
Qed.

Lemma ws_len_app p q : ws_len p <> O -> ws_len (p ++ q) = ws_len p.
Proof.
  destruct p as [|b [|c [|d p]]]; cbn; repeat case_match; try done.
Qed.

Lemma ws_len_plain b s :
  0 <= b < 128 -> (9 <=? b) && (b <=? 13) || (b =? 32) = false -> ws_len (b :: s) = O.
Proof.
  intros Hb Hws. cbn. rewrite Hws. destruct s as [|c s]; [done|].
  rewrite (proj2 (Z.eqb_neq b 0xC2)) by lia. cbn [andb]. destruct s as [|d s]; [done|].
  rewrite !(proj2 (Z.eqb_neq b _)) by lia. done.
Qed.

Lemma starts_with_ws_false s : starts_with_ws s = false -> ws_len s = O.
Proof. unfold starts_with_ws. by destruct (ws_len s). Qed.

Lemma trim_start_from_suffix k s : trim_start_from k s `suffix_of` s.
Proof.
  revert k. induction s as [|b s IH]; intros k; [done|]. cbn [trim_start_from].
  destruct k; [destruct (ws_len (b :: s)); [done|]|]; apply suffix_cons_r, IH.
Qed.

Lemma trim_start_suffix s : trim_start s `suffix_of` s.
Proof. apply trim_start_from_suffix. Qed.

Lemma trim_start_from_ws k s : ws_len (trim_start_from k s) = O.
Proof.
  revert k. induction s as [|b s IH]; intros k; [done|]. cbn [trim_start_from].
  destruct k; [|apply IH]. destruct (ws_len (b :: s)) eqn:E; [done|apply IH].
Qed.

Lemma trim_start_ws s : ws_len (trim_start s) = O.
Proof. apply trim_start_from_ws. Qed.

Lemma trim_start_fix s : ws_len s = O -> trim_start s = s.
Proof. destruct s as [|b s]; [done|]. unfold trim_start. cbn [trim_start_from]. by intros ->. Qed.

Lemma trim_start_idemp s : trim_start (trim_start s) = trim_start s.
Proof. apply trim_start_fix, trim_start_ws. Qed.

Lemma is_blank_spec s : is_blank s = true <-> trim_start s = [].
Proof. unfold is_blank. by destruct (trim_start s). Qed.

Lemma trim_end_prefix s : trim_end s `prefix_of` s.
Proof.
  induction s as [|b s IH]; [done|]. cbn [trim_end]. case_match; [apply prefix_nil|].
  by apply prefix_cons.
Qed.

Lemma trim_end_split s : exists w, s = trim_end s ++ w /\ is_blank w = true.
Proof.
  induction s as [|b s (w & Hs & Hw)]; [by exists []|]. cbn [trim_end]. case_match eqn:E.
  - by exists (b :: s).
  - exists w. split; [by rewrite Hs at 1|done].
Qed.

Lemma blank_from_app k p w :
  (k <= length p)%nat -> trim_start_from k p = [] ->
  trim_start_from k (p ++ w) = trim_start w.
Proof.
  revert k. induction p as [|b p IH]; intros k Hk Hp.
  { cbn in Hk. by replace k with O by lia. }
  cbn [trim_start_from app length] in *. destruct k as [|k]; [|apply IH; [lia|done]].
  destruct (ws_len (b :: p)) as [|n] eqn:E; [done|].
  pose proof (ws_len_app (b :: p) w) as Happ. cbn [app] in Happ. rewrite Happ, E by lia.
  apply IH; [|done]. pose proof (ws_len_le (b :: p)). cbn in *. lia.
Qed.

Lemma blank_app p w : is_blank p = true -> trim_start (p ++ w) = trim_start w.
Proof. rewrite is_blank_spec. intros H. apply blank_from_app; [lia|done]. Qed.

Lemma trim_end_idemp s : trim_end (trim_end s) = trim_end s.
Proof.
  induction s as [|b s IH]; [done|]. destruct (trim_end_split (b :: s)) as (w & Hs & Hw).
  cbn [trim_end] in *. destruct (is_blank (b :: s)) eqn:E; [done|]. cbn [trim_end].
  destruct (is_blank (b :: trim_end s)) eqn:E'; [|by rewrite IH].
  rewrite Hs in E. apply not_true_iff_false in E. destruct E. apply is_blank_spec.
  rewrite blank_app by done. by apply is_blank_spec.
Qed.

Lemma trim_end_ws s : ws_len s = O -> ws_len (trim_end s) = O.
Proof.
  intros H. destruct (trim_end_split s) as (w & Hs & _).
  destruct (ws_len (trim_end s)) eqn:E; [done|].
  rewrite Hs, ws_len_app in H by lia. congruence.
Qed.

Lemma blank_trim_end s : is_blank s = true -> trim_end s = [].
Proof. destruct s as [|b s]; [done|]. intros H. cbn [trim_end]. by rewrite H. Qed.

Lemma trim_nil s : trim s = [] -> is_blank s = true.
Proof.
  unfold trim. intros H. destruct (trim_end_split (trim_start s)) as (w & Hw & Hb).
  rewrite H in Hw. cbn in Hw. apply is_blank_spec. rewrite <- trim_start_idemp, Hw.
  by apply is_blank_spec.
Qed.

Lemma trim_ws s : ws_len (trim s) = O.
Proof. apply trim_end_ws, trim_start_ws. Qed.

Lemma trim_start_trim s : trim_start (trim s) = trim s.
Proof. apply trim_start_fix, trim_ws. Qed.

Lemma trim_idemp s : trim (trim s) = trim s.
Proof. unfold trim at 1. rewrite trim_start_trim. apply trim_end_idemp. Qed.

Lemma trim_length s : (length (trim s) <= length s)%nat.
Proof.
  pose proof (prefix_length _ _ (trim_end_prefix (trim_start s))).
  pose proof (suffix_length _ _ (trim_start_suffix s)). unfold trim. lia.
Qed.

(** Dropping the front of a text whose end is trimmed leaves its end trimmed. *)
Lemma trim_end_suffix t s : t `suffix_of` s -> trim_end s = s -> trim_end t = t.
Proof.
  intros [p ->]. induction p as [|b p IH]; [done|]. cbn [app trim_end].
  destruct (is_blank _); [done|]. intros [=]. auto.
Qed.

(** ** Searching *)

Lemma strip_prefix_spec p s r : strip_prefix p s = Some r <-> s = p ++ r.
Proof.
  revert s. induction p as [|x p IH]; intros [|y s]; cbn; try (split; congruence).
  destruct (Z.eqb_spec x y) as [->|Hne].
  - rewrite IH. split; [by intros ->|by intros [=]].
  - split; [done|]. intros [= -> _]. done.
Qed.

Lemma starts_with_spec p s : starts_with p s = true <-> p `prefix_of` s.
Proof.
  unfold starts_with. split.
  - case_match eqn:E; [|done]. apply strip_prefix_spec in E. by exists l.
  - intros [r Hr]. by rewrite (proj2 (strip_prefix_spec p s r) Hr).
Qed.

Lemma contains_byte_spec b s : contains_byte b s = true <-> b ∈ s.
Proof.
  unfold contains_byte. rewrite existsb_exists. split.
  - intros (x & Hx & ->%Z.eqb_eq). by apply list_elem_of_In.
  - intros H. exists b. split; [by apply list_elem_of_In|lia].
Qed.

Lemma contains_byte_false b s : contains_byte b s = false <-> b ∉ s.
Proof. rewrite <- contains_byte_spec. by rewrite not_true_iff_false. Qed.

Lemma contains_spec p s : contains p s = true <-> exists l r, s = l ++ p ++ r.
Proof.
  induction s as [|b s IH]; cbn [contains]; rewrite orb_true_iff, starts_with_spec.
  - split.
    + intros [[r ->]|?]; [by exists [], r|done].
    + intros (l & r & H). left. symmetry in H. apply app_nil in H as [_ H]. by exists r.
  - rewrite IH. split.
    + intros [[r Hr]|(l & r & ->)]; [by exists [], r|by exists (b :: l), r].
    + intros (l & r & H). destruct l as [|x l].
      * left. by exists r.
      * right. injection H as -> ->. eauto.
Qed.

Lemma rfind_spec p s i : rfind p s = Some i -> exists r, s = take i s ++ p ++ r.
Proof.
  revert i. induction s as [|b s IH]; intros i; cbn [rfind].
  - case_match eqn:E; [|done]. intros [= <-]. apply starts_with_spec in E as [r Hr]. by exists r.
  - destruct (rfind p s) as [j|].
    + intros [= <-]. destruct (IH j eq_refl) as (r & Hr). exists r. cbn. by rewrite Hr at 1.
    + case_match eqn:E; [|done]. intros [= <-]. apply starts_with_spec in E as [r Hr].
      by exists r.
Qed.

(** The last occurrence of a text's own ending is that ending. *)
Lemma rfind_suffix p q : rfind q (p ++ q) = Some (length p).
Proof.
  induction p as [|b p IH]; [|by cbn; rewrite IH]. cbn [app length].
  assert (forall a, rfind q (a ++ q) <> None) as Hsome.
  { induction a as [|x a IHa]; cbn [app rfind].
    - destruct q; cbn [rfind]; [done|]. case_match; [done|].
      rewrite (proj2 (starts_with_spec _ _)) by done. done.
    - by destruct (rfind q (a ++ q)). }
  destruct (rfind q q) as [i|] eqn:E; [|by destruct (Hsome [])].
  destruct (rfind_spec _ _ _ E) as (r & Hr). apply (f_equal length) in Hr.
  rewrite !length_app, length_take in Hr.
  destruct q as [|x q]; [by cbn in E; injection E as <-|]. f_equal. cbn in Hr. lia.
Qed.

Lemma split_once_ws_spec s x y :
  split_once_ws s = Some (x, y) -> exists w, s = x ++ w ++ y /\ (1 <= length w)%nat.
Proof.
  revert x. induction s as [|b s IH]; intros x; cbn [split_once_ws]; [done|].
  destruct (ws_len (b :: s)) as [|n] eqn:E.
  - destruct (split_once_ws s) as [[x' y']|]; [|done]. intros [= <- <-].
    destruct (IH x' eq_refl) as (w & -> & Hw). by exists w.
  - intros [= <- <-]. exists (take (S n) (b :: s)). split; [cbn; by rewrite take_drop|].
    rewrite length_take. cbn. lia.
Qed.

Lemma split_first_word_suffix s x y : split_first_word s = (x, y) -> y `suffix_of` s.
Proof.
  unfold split_first_word. destruct (split_once_ws s) as [[x' y']|] eqn:E; cbn.
  - intros [= <- <-]. destruct (split_once_ws_spec _ _ _ E) as (w & -> & _).
    rewrite app_assoc. by eexists.
  - intros [= <- <-]. apply suffix_nil.
Qed.

Lemma after_last_suffix c s : after_last c s `suffix_of` s.
Proof.
  induction s as [|b s IH]; cbn [after_last]; [done|].
  case_match; [by apply suffix_cons_r|]. case_match; [|done]. by apply suffix_cons_r.
Qed.

Lemma is_lit_spec s lit : is_lit s lit = true <-> s = str_bytes lit.
Proof. unfold is_lit. apply bool_decide_eq_true. Qed.

Lemma in_lits_spec s lits : in_lits s lits = true <-> exists l, In l lits /\ s = str_bytes l.
Proof.
  unfold in_lits. rewrite existsb_exists. by setoid_rewrite is_lit_spec.
Qed.

#[export] Hint Resolve trim_start_suffix split_first_word_suffix after_last_suffix : rch.
