(* ===== verification/Numerals.v ===== *)
(** * Numbers and fields in text

    What the persisted text formats use of [str]: [to_string] and [from_str] of unsigned
    integers and [split] at a character, with the facts that one undoes the other. *)

From stdpp Require Import base list strings.
From Stdlib Require Import ZArith Lia.
From S2P Require Import Prelude Bytes Text.

(** Decimal digits of an unsigned integer below [10 ^ fuel]. *)
Fixpoint show_digits (fuel : nat) (v : Z) : str :=
  match fuel with
  | O => []
  | S fuel => (if v <? 10 then [] else show_digits fuel (v / 10)) ++ [48 + v mod 10]
  end.

(** [to_string] of a u64 (or u32): at most twenty digits. *)
Definition show_u64 (v : Z) : str := show_digits 20 v.

(** [u32::from_str] and [u64::from_str]: an optional plus sign, then at least one digit,
    with the overflow checks of the accumulation. *)
Fixpoint parse_digits (w : Z) (acc : Z) (s : str) : option Z :=
  match s with
  | [] => Some acc
  | b :: s =>
      if is_ascii_digit b then
        let next := acc * 10 + (b - 48) in
        if next <? 2 ^ w then parse_digits w next s else None
      else None
  end.

Definition parse_u (w : Z) (s : str) : option Z :=
  match s with
  | [] => None
  | b :: r =>
      if (b =? PLUS) || (b =? DASH) then
        match r with
        | [] => None
        | _ => if b =? PLUS then parse_digits w 0 r else None
        end
      else parse_digits w 0 s
  end.

(** [str::split] at one ASCII character. *)
Fixpoint split_at (c : Z) (s : str) : list str :=
  match s with
  | [] => [[]]
  | b :: r =>
      if b =? c then [] :: split_at c r
      else
        match split_at c r with
        | [] => [[b]]
        | l :: ls => (b :: l) :: ls
        end
  end.

Lemma parse_digits_app w acc s1 s2 :
  parse_digits w acc (s1 ++ s2) = a ← parse_digits w acc s1; parse_digits w a s2.
Proof.
  revert acc. induction s1 as [|b s1 IH]; intros acc; [done|]. cbn [app parse_digits].
  repeat case_match; [apply IH|done..].
Qed.

Lemma digit_value v : is_ascii_digit (48 + v mod 10) = true.
Proof. pose proof (Z.mod_pos_bound v 10). unfold is_ascii_digit. lia. Qed.

Lemma show_digits_shape n v :
  Forall (fun b => is_ascii_digit b = true) (show_digits n v)
  /\ (n <> O -> show_digits n v <> []).
Proof.
  revert v. induction n as [|n IH]; intros v; cbn [show_digits]; [split; [constructor|done]|]. split.
  - apply Forall_app. split; [case_match; [constructor|apply IH]|].
    repeat constructor. apply digit_value.
  - intros _ E. by apply app_eq_nil in E as [_ E].
Qed.

Lemma parse_show_digits w n v :
  0 <= v < 10 ^ Z.of_nat n -> v < 2 ^ w -> n <> O ->
  parse_digits w 0 (show_digits n v) = Some v.
Proof.
  revert v. induction n as [|n IH]; intros v Hv Hw Hn; [done|]. cbn [show_digits].
  rewrite parse_digits_app. pose proof (Z.div_mod v 10). pose proof (Z.mod_pos_bound v 10).
  assert (Hlast : forall a, a = v / 10 -> parse_digits w a [48 + v mod 10] = Some v).
  { intros a ->. cbn [parse_digits]. rewrite digit_value.
    replace (v / 10 * 10 + (48 + v mod 10 - 48)) with v by lia. case_match; [done|lia]. }
  case_match.
  - cbn. apply Hlast. symmetry. apply Z.div_small. lia.
  - rewrite IH.
    + cbn. by apply Hlast.
    + rewrite Nat2Z.inj_succ, Z.pow_succ_r in Hv by lia.
      split; [apply Z.div_pos; lia|]. apply Z.div_lt_upper_bound; lia.
    + assert (v / 10 <= v) by (apply Z.div_le_upper_bound; lia). lia.
    + destruct n; [|done]. cbn in Hv. lia.
Qed.

Lemma show_u64_digits v : Forall (fun b => is_ascii_digit b = true) (show_u64 v).
Proof. apply show_digits_shape. Qed.

Lemma parse_show w v : 0 <= v < 2 ^ w -> w <= 64 -> parse_u w (show_u64 v) = Some v.
Proof.
  intros Hv Hw. pose proof (show_u64_digits v) as Hd.
  destruct (show_digits_shape 20 v) as [_ Hne]. unfold parse_u.
  destruct (show_u64 v) as [|b r] eqn:E; [by destruct Hne|].
  apply Forall_cons in Hd as [Hb _]. unfold is_ascii_digit in Hb.
  destruct ((b =? PLUS) || (b =? DASH)) eqn:Es; [lia|]. rewrite <- E. unfold show_u64.
  assert (2 ^ w <= 2 ^ 64) by (apply Z.pow_le_mono_r; lia).
  apply parse_show_digits; [|lia|done]. change (Z.of_nat 20) with 20. lia.
Qed.

Lemma parse_digits_range w acc s v :
  0 <= acc < 2 ^ w -> parse_digits w acc s = Some v -> in_u w v.
Proof.
  revert acc. induction s as [|b s IH]; intros acc Ha; cbn [parse_digits]; [by intros [= <-]|].
  unfold is_ascii_digit. repeat case_match; try done. apply IH. lia.
Qed.

Lemma parse_u_range w s v : 0 <= w -> parse_u w s = Some v -> in_u w v.
Proof.
  intros Hw. assert (0 <= 0 < 2 ^ w) as H0 by (apply zero_in_u; lia).
  unfold parse_u. repeat case_match; try done; by apply parse_digits_range.
Qed.

Lemma split_at_cons c w s :
  Forall (fun b => b <> c) w -> split_at c (w ++ c :: s) = w :: split_at c s.
Proof.
  induction 1 as [|b w Hb _ IH]; cbn [app split_at]; [by rewrite Z.eqb_refl|].
  by rewrite (proj2 (Z.eqb_neq b c)), IH.
Qed.

Lemma split_at_last c w : Forall (fun b => b <> c) w -> split_at c w = [w].
Proof.
  induction 1 as [|b w Hb _ IH]; [done|]. cbn [split_at].
  by rewrite (proj2 (Z.eqb_neq b c)), IH.
Qed.
