(* ===== verification/Shell.v ===== *)
(** * Shell structure: the scanners of the command classifier

    The byte scanners of rch-common/src/patterns.rs: what of a command line is exposed to
    the shell (outside quotes and not escaped), whether it holds operators that forbid
    interception, where it splits, and what a [bash -c] wrapper carries. *)

From stdpp Require Import base list strings sets.
From Stdlib Require Import ZArith Lia.
From S2P Require Import Prelude Bytes Text.

Module Shell.

(** ** Quoting, as every scanner tracks it

    The four opening tests of the scanners: an escaped byte, a backslash outside single
    quotes, a quote, a quoted byte.  [None] says that the byte is exposed. *)
Record quotes := Quotes { in_single : bool; in_double : bool; escaped : bool }.

Definition unquoted : quotes := Quotes false false false.

Definition quote_step (q : quotes) (b : Z) : option quotes :=
  if escaped q then Some (Quotes (in_single q) (in_double q) false)
  else if (b =? BACKSLASH) && negb (in_single q) then
    Some (Quotes (in_single q) (in_double q) true)
  else if (b =? SQUOTE) && negb (in_double q) then
    Some (Quotes (negb (in_single q)) (in_double q) false)
  else if (b =? DQUOTE) && negb (in_single q) then
    Some (Quotes (in_single q) (negb (in_double q)) false)
  else if in_single q || in_double q then Some q
  else None.

(** ** Tier 1: [check_structure] *)

Record findings := Findings {
  found_backgrounded : bool;
  found_piped : bool;
  found_subshell : bool;
  found_output_redirect : bool;
  found_input_redirect : bool;
  found_semicolon : bool;
  found_and_chain : bool;
  found_or_chain : bool;
  found_subshell_capture : bool }.

Definition nothing_found : findings :=
  Findings false false false false false false false false false.

Definition set_backgrounded (f : findings) : findings :=
  let 'Findings _ b c d e g h i j := f in Findings true b c d e g h i j.
Definition set_piped (f : findings) : findings :=
  let 'Findings a _ c d e g h i j := f in Findings a true c d e g h i j.
Definition set_subshell (f : findings) : findings :=
  let 'Findings a b _ d e g h i j := f in Findings a b true d e g h i j.
Definition set_output_redirect (f : findings) : findings :=
  let 'Findings a b c _ e g h i j := f in Findings a b c true e g h i j.
Definition set_input_redirect (f : findings) : findings :=
  let 'Findings a b c d _ g h i j := f in Findings a b c d true g h i j.
Definition set_semicolon (f : findings) : findings :=
  let 'Findings a b c d e _ h i j := f in Findings a b c d e true h i j.
Definition set_and_chain (f : findings) : findings :=
  let 'Findings a b c d e g _ i j := f in Findings a b c d e g true i j.
Definition set_or_chain (f : findings) : findings :=
  let 'Findings a b c d e g h _ j := f in Findings a b c d e g h true j.
Definition set_subshell_capture (f : findings) : findings :=
  let 'Findings a b c d e g h i _ := f in Findings a b c d e g h i true.

(** The byte behind the current one, zero at the end. *)
Definition peek (s : str) : Z := match s with n :: _ => n | [] => 0 end.

(** The scan, with the byte before the current one; [None] is the immediate return on an
    exposed line break. *)
Fixpoint scan_structure (q : quotes) (prev : Z) (f : findings) (s : str) : option findings :=
  match s with
  | [] => Some f
  | b :: s1 =>
      match quote_step q b with
      | Some q' => scan_structure q' b f s1
      | None =>
          if (b =? NL) || (b =? CR) then None
          else if b =? AMP then
            match s1 with
            | n :: s2 =>
                if n =? AMP then scan_structure q n (set_and_chain f) s2
                else
                  scan_structure q b
                    (if negb (prev =? GREATER) && negb (n =? GREATER)
                     then set_backgrounded f else f) s1
            | [] =>
                scan_structure q b
                  (if negb (prev =? GREATER) then set_backgrounded f else f) s1
            end
          else if b =? PIPE then
            match s1 with
            | n :: s2 =>
                if n =? PIPE then scan_structure q n (set_or_chain f) s2
                else scan_structure q b (set_piped f) s1
            | [] => scan_structure q b (set_piped f) s1
            end
          else if b =? LPAREN then scan_structure q b (set_subshell f) s1
          else if b =? GREATER then
            match s1 with
            | n :: s2 =>
                if n =? LPAREN then scan_structure q b (set_subshell f) s1
                else if n =? AMP then
                  match s2 with
                  | d :: s3 =>
                      if is_ascii_digit d then scan_structure q d f s3
                      else scan_structure q n f s2
                  | [] => scan_structure q n f s2
                  end
                else if n =? GREATER then scan_structure q n (set_output_redirect f) s2
                else scan_structure q b (set_output_redirect f) s1
            | [] => scan_structure q b (set_output_redirect f) s1
            end
          else if b =? LESS then
            scan_structure q b
              (if peek s1 =? LPAREN then set_subshell f else set_input_redirect f) s1
          else if b =? SEMI then scan_structure q b (set_semicolon f) s1
          else if b =? BACKTICK then scan_structure q b (set_subshell_capture f) s1
          else if (b =? DOLLAR) && (peek s1 =? LPAREN) then
            scan_structure q b (set_subshell_capture f) s1
          else scan_structure q b f s1
      end
  end.

Definition structure_reason (f : findings) : option string :=
  if found_backgrounded f then Some "backgrounded command"%string
  else if found_piped f && negb (found_or_chain f) then Some "piped command"%string
  else if found_subshell f then Some "subshell execution"%string
  else if found_output_redirect f then Some "output redirected"%string
  else if found_input_redirect f then Some "input redirected"%string
  else if found_semicolon f then Some "chained command (;)"%string
  else if found_and_chain f then Some "chained command (&&)"%string
  else if found_or_chain f then Some "chained command (||)"%string
  else if found_subshell_capture f then Some "subshell capture"%string
  else None.

Definition check_structure (cmd : str) : option string :=
  match scan_structure unquoted 0 nothing_found cmd with
  | None => Some "contains embedded newline"%string
  | Some f => structure_reason f
  end.

(** ** File redirects *)

Fixpoint redirect_from (q : quotes) (s : str) : bool :=
  match s with
  | [] => false
  | b :: s1 =>
      match quote_step q b with
      | Some q' => redirect_from q' s1
      | None =>
          if b =? GREATER then
            match s1 with
            | n :: s2 =>
                if n =? AMP then
                  match s2 with
                  | d :: s3 => if is_ascii_digit d then redirect_from q s3 else redirect_from q s2
                  | [] => redirect_from q s2
                  end
                else if n =? LPAREN then redirect_from q s1
                else true
            | [] => true
            end
          else if b =? LESS then
            if peek s1 =? LPAREN then redirect_from q s1 else true
          else redirect_from q s1
      end
  end.
Definition has_file_redirect (cmd : str) : bool := redirect_from unquoted cmd.

(** ** The first structural boundary *)

Inductive BoundaryKind := Pipe | Background | OutputRedirect | InputRedirect.

#[export] Instance BoundaryKind_eq_dec : EqDecision BoundaryKind.
Proof. solve_decision. Defined.

Record StructuralBoundary := { byte_pos : nat; kind : BoundaryKind }.

Fixpoint boundary_from (q : quotes) (prev : Z) (i : nat) (s : str) : option StructuralBoundary :=
  match s with
  | [] => None
  | b :: s1 =>
      match quote_step q b with
      | Some q' => boundary_from q' b (S i) s1
      | None =>
          if b =? PIPE then
            if peek s1 =? PIPE then None else Some {| byte_pos := i; kind := Pipe |}
          else if b =? AMP then
            if peek s1 =? AMP then None
            else if prev =? GREATER then boundary_from q b (S i) s1
            else Some {| byte_pos := i; kind := Background |}
          else if b =? GREATER then
            match s1 with
            | n :: s2 =>
                if n =? AMP then
                  match s2 with
                  | d :: s3 =>
                      if is_ascii_digit d then boundary_from q d (S (S (S i))) s3
                      else boundary_from q n (S (S i)) s2
                  | [] => boundary_from q n (S (S i)) s2
                  end
                else if n =? LPAREN then None
                else Some {| byte_pos := i; kind := OutputRedirect |}
            | [] => Some {| byte_pos := i; kind := OutputRedirect |}
            end
          else if b =? LESS then
            if peek s1 =? LPAREN then None else Some {| byte_pos := i; kind := InputRedirect |}
          else boundary_from q b (S i) s1
      end
  end.
Definition find_first_structural_boundary (cmd : str) : option StructuralBoundary :=
  boundary_from unquoted 0 0 cmd.

Definition BENIGN_PAGER_COMMANDS : list string :=
  ["tee"; "head"; "cat"; "grep"; "less"; "more"; "tail"; "wc"; "rg"]%string.

(** The loop of [suffix_has_disallowed_followup]; each round drops at least a byte. *)
Fixpoint disallowed_loop (fuel : nat) (rest : str) : bool :=
  match fuel with
  | O => false
  | S fuel =>
      match find_first_structural_boundary rest with
      | Some b =>
          match kind b with
          | Pipe | Background | InputRedirect => true
          | OutputRedirect =>
              let next := S (byte_pos b) in
              if Nat.leb (length rest) next then false
              else disallowed_loop fuel (drop next rest)
          end
      | None => false
      end
  end.
Definition suffix_has_disallowed_followup (s : str) : bool := disallowed_loop (S (length s)) s.

Definition suffix_is_benign (kind : BoundaryKind) (suffix : str) : bool :=
  match kind with
  | InputRedirect => false
  | Background =>
      match trim (trim_start_matches AMP suffix) with [] => true | _ => false end
  | OutputRedirect => negb (suffix_has_disallowed_followup suffix)
  | Pipe =>
      match trim (trim_start_matches PIPE suffix) with
      | [] => false
      | rhs =>
          let rhs_cmd := match split_whitespace rhs with w :: _ => w | [] => [] end in
          in_lits (after_last SLASH rhs_cmd) BENIGN_PAGER_COMMANDS
          && negb (suffix_has_disallowed_followup rhs)
      end
  end.

(** ** Splitting *)

Definition push_segment (segment : str) : list str :=
  match trim segment with [] => [] | t => [t] end.

(** The segments from here on, with the bytes of the current one (last first). *)
Fixpoint and_segments (q : quotes) (cur : str) (s : str) : list str :=
  match s with
  | [] => push_segment (rev cur)
  | b :: s1 =>
      match quote_step q b with
      | Some q' => and_segments q' (b :: cur) s1
      | None =>
          match s1 with
          | n :: s2 =>
              if (b =? AMP) && (n =? AMP) then push_segment (rev cur) ++ and_segments q [] s2
              else and_segments q (b :: cur) s1
          | [] => and_segments q (b :: cur) s1
          end
      end
  end.

Definition split_and_chain (cmd : str) : option (list str) :=
  if negb (contains_lit cmd "&&") then None
  else
    let segments := and_segments unquoted [] cmd in
    if Nat.ltb 1 (length segments) then Some segments else None.

(** [split_shell_commands] also knows backticks. *)
Fixpoint command_segments (q : quotes) (in_backtick : bool) (cur : str) (s : str) : list str :=
  match s with
  | [] => push_segment (rev cur)
  | b :: s1 =>
      if escaped q then
        command_segments (Quotes (in_single q) (in_double q) false) in_backtick (b :: cur) s1
      else if (b =? BACKSLASH) && negb (in_single q) then
        command_segments (Quotes (in_single q) (in_double q) true) in_backtick (b :: cur) s1
      else if negb (in_double q) && negb in_backtick && (b =? SQUOTE) then
        command_segments (Quotes (negb (in_single q)) (in_double q) false) in_backtick
          (b :: cur) s1
      else if negb (in_single q) && negb in_backtick && (b =? DQUOTE) then
        command_segments (Quotes (in_single q) (negb (in_double q)) false) in_backtick
          (b :: cur) s1
      else if negb (in_single q) && negb (in_double q) && (b =? BACKTICK) then
        command_segments q (negb in_backtick) (b :: cur) s1
      else if in_single q || in_double q || in_backtick then
        command_segments q in_backtick (b :: cur) s1
      else
        match s1 with
        | n :: s2 =>
            if ((b =? AMP) && (n =? AMP)) || ((b =? PIPE) && (n =? PIPE)) then
              push_segment (rev cur) ++ command_segments q in_backtick [] s2
            else if b =? SEMI then
              push_segment (rev cur) ++ command_segments q in_backtick [] s1
            else command_segments q in_backtick (b :: cur) s1
        | [] =>
            if b =? SEMI then push_segment (rev cur) ++ command_segments q in_backtick [] s1
            else command_segments q in_backtick (b :: cur) s1
        end
  end.
Definition split_shell_commands (cmd : str) : list str := command_segments unquoted false [] cmd.

(** ** [bash -c] wrappers *)

(** The word at the start and what follows it; none when there is none. *)
Fixpoint word_span (s : str) : str * str :=
  match s with
  | b :: s' => if is_ascii_whitespace b then ([], s) else
      let (w, r) := word_span s' in (b :: w, r)
  | [] => ([], [])
  end.
Definition next_word_end (s : str) : option (str * str) :=
  match s with
  | b :: _ => if is_ascii_whitespace b then None else Some (word_span s)
  | [] => None
  end.

Fixpoint skip_spaces (s : str) : str :=
  match s with
  | b :: s' => if is_ascii_whitespace b then skip_spaces s' else s
  | [] => []
  end.

Definition shell_basename_is (word : str) (name : string) : bool :=
  is_lit (after_last SLASH word) name.

Definition strip_shell_dash_c_prefix (cmd : str) : option str :=
  match next_word_end (trim_start cmd) with
  | None => None
  | Some (shell, rest) =>
      if negb (shell_basename_is shell "bash") && negb (shell_basename_is shell "sh") then None
      else
        match next_word_end (skip_spaces rest) with
        | None => None
        | Some (flag, rest) =>
            if negb (is_lit flag "-c") then None
            else match skip_spaces rest with [] => None | r => Some r end
        end
  end.

(** [out.push(b as char)]: the byte taken as a Latin-1 character, encoded again. *)
Definition push_char (b : Z) : str :=
  if b <? 128 then [b] else [0xC0 + b / 64; 0x80 + b mod 64].

Fixpoint quoted_body (quote : Z) (s : str) : option str :=
  match s with
  | [] => None
  | b :: s1 =>
      match s1 with
      | n :: s2 =>
          if (quote =? DQUOTE) && (b =? BACKSLASH) then
            app (push_char n) <$> quoted_body quote s2
          else if b =? quote then (if is_blank s1 then Some [] else None)
          else app (push_char b) <$> quoted_body quote s1
      | [] =>
          if b =? quote then Some []
          else app (push_char b) <$> quoted_body quote s1
      end
  end.

Definition extract_single_quoted_argument (s : str) : option str :=
  match trim s with
  | quote :: s1 =>
      if Nat.ltb (length (trim s)) 2 then None
      else if negb (quote =? DQUOTE) && negb (quote =? SQUOTE) then None
      else quoted_body quote s1
  | [] => None
  end.

(** * Properties *)

(** ** What is exposed to the shell *)

Definition quotes_after (q : quotes) (s : str) : quotes :=
  foldl (fun q b => default q (quote_step q b)) q s.

(** The byte behind [pre] is outside quotes, not escaped and not a quote itself. *)
Definition exposed (q : quotes) (pre : str) (b : Z) : Prop :=
  quote_step (quotes_after q pre) b = None.

(** [pre] ends with an exposed [>]. *)
Definition after_redirect (q : quotes) (pre : str) : Prop :=
  exists pre', pre = pre' ++ [GREATER] /\ exposed q pre' GREATER.

(** What Tier 1 lets pass at a position: an exposed byte is no line break, pipe,
    parenthesis, [<], [;] or backtick; a [>] duplicates a descriptor; an [&] belongs to
    such a duplication, or it is a single one that stands behind the byte [>] (which may
    be an escaped one) or before one. *)
Definition harmless (q : quotes) (prev : Z) (pre : str) (b : Z) (post : str) : Prop :=
  exposed q pre b ->
  contains_byte b [NL; CR; PIPE; LPAREN; LESS; SEMI; BACKTICK] = false
  /\ (b = GREATER -> peek post = AMP)
  /\ (b = AMP ->
      after_redirect q pre \/
      (peek post <> AMP
          /\ (default prev (last pre) = GREATER \/ peek post = GREATER))).

Definition everywhere (P : str -> Z -> str -> Prop) (s : str) : Prop :=
  forall pre b post, s = pre ++ b :: post -> P pre b post.

Lemma everywhere_nil P : everywhere P [].
Proof. intros [|? ?] b post; done. Qed.

Lemma everywhere_cons P b s :
  everywhere P (b :: s) <-> P [] b s /\ everywhere (fun pre => P (b :: pre)) s.
Proof.
  split.
  - intros H. split; [by apply H|]. intros pre c post ->. by apply H.
  - intros [H0 H] [|x pre] c post [= -> ->]; [done|]. by apply H.
Qed.

Lemma everywhere_iff P Q s :
  (forall pre b post, P pre b post <-> Q pre b post) -> (everywhere P s <-> everywhere Q s).
Proof. intros HPQ. split; intros H pre b post Hs; by apply HPQ, H. Qed.

Lemma quote_step_None q b : quote_step q b = None -> q = unquoted.
Proof. destruct q as [[] [] []]; cbn; repeat case_match; done. Qed.

Lemma last_prev (p b : Z) l : default p (last (b :: l)) = default b (last l).
Proof.
  destruct l as [|x l]; [done|]. rewrite last_cons_cons.
  destruct (last (x :: l)) eqn:E; [done|]. by apply last_None in E.
Qed.

(** Looking at a position from one byte further on. *)
Lemma harmless_shift q prev b0 pre b post :
  ~ (exposed q [] b0 /\ b0 = GREATER) ->
  (harmless q prev (b0 :: pre) b post <-> harmless (quotes_after q [b0]) b0 pre b post).
Proof.
  intros Hb0. unfold harmless.
  assert (exposed q (b0 :: pre) b <-> exposed (quotes_after q [b0]) pre b) as -> by done.
  rewrite last_prev.
  assert (after_redirect q (b0 :: pre) <-> after_redirect (quotes_after q [b0]) pre) as ->;
    [|done].
  split.
  - intros ([|x pre'] & [= -> Hpre] & He); [|subst; by exists pre'].
    destruct Hb0. by split.
  - intros (pre' & -> & He). by exists (b0 :: pre').
Qed.

Lemma everywhere_shift q prev b0 s :
  ~ (exposed q [] b0 /\ b0 = GREATER) ->
  (everywhere (harmless q prev) (b0 :: s)
   <-> harmless q prev [] b0 s /\ everywhere (harmless (quotes_after q [b0]) b0) s).
Proof.
  intros H. rewrite everywhere_cons. apply and_iff_compat_l, everywhere_iff.
  intros. by apply harmless_shift.
Qed.

(** A finding is never withdrawn. *)
Lemma scan_structure_keeps q prev f s f' :
  scan_structure q prev f s = Some f' -> f <> nothing_found -> f' <> nothing_found.
Proof.
  remember (length s) as n eqn:Hn. revert q prev f s Hn.
  induction n as [n IH] using lt_wf_ind. intros q prev f s -> Hs Hf.
  destruct s as [|b s1]; cbn [scan_structure] in Hs; [by injection Hs as <-|].
  repeat case_match; simplify_eq;
    (eapply IH; [|reflexivity|eassumption|]; [cbn; lia|]);
    first [exact Hf | by destruct f].
Qed.

Lemma structure_reason_None f : structure_reason f = None <-> f = nothing_found.
Proof. destruct f as [[] [] [] [] [] [] [] [] []]; cbn; done. Qed.

Lemma scan_found q prev f s :
  f <> nothing_found -> scan_structure q prev f s <> Some nothing_found.
Proof. intros Hf Hs. by eapply scan_structure_keeps. Qed.

(** Closes a case in which the scan records a finding and the position is harmful. *)
Ltac found_case Eq :=
  split;
  [ intros Hscan; exfalso; revert Hscan; first [done | apply scan_found; discriminate]
  | intros [Hhere _]%everywhere_cons; destruct (Hhere Eq) as (Hb & Hg & Ha); exfalso;
    first [ discriminate Hb
          | destruct Ha as [([|??] & [=] & _)|[? [?|?]]]; [done|cbn in *; lia..]
          | cbn in *; lia ] ].

Lemma shift_harmless prev b s :
  quote_step unquoted b = None -> b <> GREATER -> harmless unquoted prev [] b s ->
  everywhere (harmless unquoted prev) (b :: s) <-> everywhere (harmless unquoted b) s.
Proof.
  intros Eq Hb Hh. rewrite everywhere_shift by tauto. cbn [quotes_after foldl].
  rewrite Eq. cbn [default]. tauto.
Qed.

(** Behind an exposed [>] that duplicates a descriptor the scan goes on at the [&]. *)
Lemma shift_dup prev s :
  everywhere (harmless unquoted prev) (GREATER :: AMP :: s)
  <-> everywhere (harmless unquoted AMP) s.
Proof.
  rewrite !everywhere_cons. split.
  - intros (_ & _ & H) pre b post Hs. specialize (H pre b post Hs).
    intros He. specialize (H He) as (? & ? & Ha). split_and!; [done..|].
    intros ->. destruct (Ha eq_refl) as [(pre' & Hp & He')|[? Hor]].
    + left. destruct pre' as [|x [|y pre']]; simplify_eq/=. by exists pre'.
    + right. by rewrite !last_prev in Hor.
  - intros H. split; [|split].
    + intros _. split_and!; [done|done|done].
    + intros _. split_and!; [done|done|]. intros _. left. by exists [].
    + intros pre b post Hs He. specialize (H pre b post Hs He) as (? & ? & Ha).
      split_and!; [done..|]. intros ->. destruct (Ha eq_refl) as [(pre' & -> & He')|[? Hor]].
      * left. by exists (GREATER :: AMP :: pre').
      * right. by rewrite !last_prev.
Qed.

Lemma scan_clean q prev s :
  scan_structure q prev nothing_found s = Some nothing_found
  <-> everywhere (harmless q prev) s.
Proof.
  remember (length s) as n eqn:Hn. revert q prev s Hn.
  induction n as [n IH] using lt_wf_ind. intros q prev s ->.
  destruct s as [|b s1]; [split; [intros _; apply everywhere_nil|done]|].
  cbn [scan_structure]. destruct (quote_step q b) as [q'|] eqn:Eq.
  { rewrite everywhere_shift by (intros [He _]; unfold exposed in He; cbn in He; congruence).
    cbn [quotes_after foldl]. rewrite Eq. cbn [default].
    rewrite (IH (length s1)) by (done || (cbn; lia)).
    split; [|by intros []]. intros He. split; [|done]. intros Hx. unfold exposed in Hx.
    cbn in Hx. congruence. }
  pose proof (quote_step_None _ _ Eq) as ->.
  destruct (Z.eqb_spec b NL) as [->|]; [found_case Eq|].
  destruct (Z.eqb_spec b CR) as [->|]; [found_case Eq|]. cbn [orb].
  destruct (Z.eqb_spec b AMP) as [->|].
  { destruct s1 as [|m s2].
    - destruct (Z.eqb_spec prev GREATER) as [->|]; [|found_case Eq].
      split; [|done]. intros _. apply shift_harmless; [done|done| |apply everywhere_nil].
      intros _. split_and!; [done|done|]. right. split; [done|by left].
    - destruct (Z.eqb_spec m AMP) as [->|]; [found_case Eq|].
      destruct (Z.eqb_spec prev GREATER) as [->|]; [|destruct (Z.eqb_spec m GREATER) as [->|];
        [|found_case Eq]];
      cbn [negb andb]; rewrite (IH (S (length s2))) by (cbn; done || lia); symmetry;
      (apply shift_harmless; [done|done|]); intros _; (split_and!; [done|done|]); right; cbn; auto. }
  destruct (Z.eqb_spec b PIPE) as [->|]; [destruct s1 as [|m s2]; [|case_match]; found_case Eq|].
  destruct (Z.eqb_spec b LPAREN) as [->|]; [found_case Eq|].
  destruct (Z.eqb_spec b GREATER) as [->|].
  { destruct s1 as [|m s2]; [found_case Eq|].
    destruct (Z.eqb_spec m LPAREN) as [->|]; [found_case Eq|].
    destruct (Z.eqb_spec m AMP) as [->|]; [|case_match; found_case Eq].
    rewrite shift_dup. destruct s2 as [|d s3]; [rewrite (IH 0%nat) by (cbn; done || lia); done|].
    destruct (is_ascii_digit d) eqn:Ed; [|by rewrite (IH (S (length s3))) by (cbn; done || lia)].
    rewrite (IH (length s3)) by (cbn; done || lia). unfold is_ascii_digit in Ed. symmetry.
    assert (quote_step unquoted d = None) as Eqd by (cbn; repeat case_match; done || lia).
    apply shift_harmless; [done|lia|]. intros _. split_and!; [|lia..]. cbn. lia. }
  destruct (Z.eqb_spec b LESS) as [->|]; [case_match; found_case Eq|].
  destruct (Z.eqb_spec b SEMI) as [->|]; [found_case Eq|].
  destruct (Z.eqb_spec b BACKTICK) as [->|]; [found_case Eq|].
  assert (harmless unquoted prev [] b s1) as Hh.
  { intros _. split_and!; [|done..]. cbn. lia. }
  destruct (Z.eqb_spec b DOLLAR) as [->|]; cbn [andb].
  - destruct (Z.eqb_spec (peek s1) LPAREN) as [Hp|].
    { destruct s1 as [|m s2]; [done|]. cbn in Hp. subst m. split.
      - intros Hscan. exfalso. revert Hscan. by apply scan_found.
      - intros H. by destruct (H [DOLLAR] LPAREN s2) as [? _]. }
    rewrite (IH (length s1)) by (cbn; done || lia). symmetry. by apply shift_harmless.
  - rewrite (IH (length s1)) by (cbn; done || lia). symmetry. by apply shift_harmless.
Qed.

Lemma check_structure_None cmd :
  check_structure cmd = None <-> everywhere (harmless unquoted 0) cmd.
Proof.
  rewrite <- scan_clean. unfold check_structure. destruct (scan_structure _ _ _ _) as [f|]; [|done].
  rewrite structure_reason_None. split; [by intros ->|by intros [=]].
Qed.

(** ** Boundaries *)

Definition boundary_byte (k : BoundaryKind) : Z :=
  match k with
  | Pipe => PIPE | Background => AMP | OutputRedirect => GREATER | InputRedirect => LESS
  end.

(** No boundary here: an exposed byte is no pipe and no [<], a [>] duplicates a
    descriptor, and an [&] stands behind a [>]. *)
Definition calm (q : quotes) (prev : Z) (pre : str) (b : Z) (post : str) : Prop :=
  exposed q pre b ->
  b <> PIPE /\ b <> LESS /\ (b = GREATER -> peek post = AMP)
  /\ (b = AMP -> default prev (last pre) = GREATER).

Lemma calm_cons q prev b0 pre b post :
  calm q prev (b0 :: pre) b post <-> calm (quotes_after q [b0]) b0 pre b post.
Proof. unfold calm. by rewrite last_prev. Qed.

(** The operators the callers of the scan refuse beforehand. *)
Definition unchained (s : str) : Prop :=
  (LPAREN ∉ s) /\ contains_lit s "&&" = false /\ contains_lit s "||" = false.

Lemma contains_suffix p t s : t `suffix_of` s -> contains p s = false -> contains p t = false.
Proof.
  rewrite <- !not_true_iff_false, !contains_spec. intros [k ->] H (l & r & ->). destruct H.
  exists (k ++ l), r. by rewrite <- app_assoc.
Qed.

Lemma unchained_suffix t s : t `suffix_of` s -> unchained s -> unchained t.
Proof.
  intros Hts (H1 & H2 & H3). split_and!; [|by eapply contains_suffix..].
  destruct Hts as [k ->]. set_solver.
Qed.

(** What a scan that starts at [s] found: the text before the boundary is calm, and the
    boundary is exposed. *)
Definition boundary_found (q : quotes) (prev : Z) (i : nat) (s : str)
    (r : option StructuralBoundary) : Prop :=
  match r with
  | None => everywhere (calm q prev) s
  | Some bd =>
      exists pre post,
        s = pre ++ boundary_byte (kind bd) :: post
        /\ byte_pos bd = (i + length pre)%nat
        /\ exposed q pre (boundary_byte (kind bd))
        /\ (kind bd = OutputRedirect -> peek post <> AMP)
        /\ everywhere
             (fun pre' b' post' =>
                calm q prev pre' b' (post' ++ boundary_byte (kind bd) :: post)) pre
  end.

Lemma boundary_found_cons q prev i b s r :
  calm q prev [] b s ->
  boundary_found (quotes_after q [b]) b (S i) s r -> boundary_found q prev i (b :: s) r.
Proof.
  intros Hb. destruct r as [bd|]; cbn [boundary_found].
  - intros (pre & post & -> & Hp & He & Ho & Hc). exists (b :: pre), post.
    split_and!; [done|cbn; lia|done|done|]. apply everywhere_cons. split; [done|].
    intros pre' b' post' Hs. apply calm_cons. by apply Hc.
  - intros Hc. apply everywhere_cons. split; [done|]. intros pre' b' post' Hs.
    apply calm_cons. by apply Hc.
Qed.

Lemma boundary_found_here q prev i b s k :
  quote_step q b = None -> b = boundary_byte k -> (k = OutputRedirect -> peek s <> AMP) ->
  boundary_found q prev i (b :: s) (Some {| byte_pos := i; kind := k |}).
Proof.
  intros Hq -> Ho. exists [], s. cbn. split_and!; [done|lia|done|done|apply everywhere_nil].
Qed.

Lemma quotes_after_exposed b : quote_step unquoted b = None -> quotes_after unquoted [b] = unquoted.
Proof. cbn [quotes_after foldl]. by intros ->. Qed.

Lemma boundary_from_found q prev i s :
  unchained s -> boundary_found q prev i s (boundary_from q prev i s).
Proof.
  remember (length s) as n eqn:Hn. revert q prev i s Hn.
  induction n as [n IH] using lt_wf_ind. intros q prev i s -> Hun.
  destruct s as [|b s1]; [apply everywhere_nil|]. cbn [boundary_from].
  assert (unchained s1) as Hun1.
  { eapply unchained_suffix; [|done]. by apply suffix_cons_r. }
  destruct (quote_step q b) as [q'|] eqn:Eq.
  { apply boundary_found_cons.
    - intros Hx. unfold exposed in Hx. cbn in Hx. congruence.
    - cbn [quotes_after foldl]. rewrite Eq. apply (IH (length s1)); [cbn; lia|done|done]. }
  pose proof (quote_step_None _ _ Eq) as ->. destruct Hun as (Hp & Ha & Ho).
  destruct (Z.eqb_spec b PIPE) as [->|].
  { destruct s1 as [|m s2]; [by apply boundary_found_here|]. cbn [peek].
    destruct (Z.eqb_spec m PIPE) as [->|]; [done|by apply boundary_found_here]. }
  destruct (Z.eqb_spec b AMP) as [->|].
  { assert (peek s1 <> AMP).
    { destruct s1 as [|m s2]; [done|]. cbn. intros ->. done. }
    rewrite (proj2 (Z.eqb_neq _ _)) by done.
    destruct (Z.eqb_spec prev GREATER) as [->|]; [|by apply boundary_found_here].
    apply boundary_found_cons; [intros _; split_and!; done|].
    apply (IH (length s1)); [cbn; lia|done|done]. }
  destruct (Z.eqb_spec b GREATER) as [->|].
  { destruct s1 as [|m s2]; [by apply boundary_found_here|].
    destruct (Z.eqb_spec m LPAREN) as [->|]; [set_solver|].
    destruct (Z.eqb_spec m AMP) as [->|]; [|by apply boundary_found_here].
    assert (unchained s2) as Hun2.
    { eapply unchained_suffix; [|done]. by apply suffix_cons_r. }
    apply boundary_found_cons; [intros _; split_and!; done|]. cbn [quotes_after foldl].
    apply boundary_found_cons; [intros _; split_and!; done|]. cbn [quotes_after foldl].
    change (default unquoted (quote_step unquoted 62)) with unquoted.
    change (default unquoted (quote_step unquoted 38)) with unquoted.
    destruct s2 as [|d s3]; [apply (IH 0%nat); cbn; done || lia|].
    destruct (is_ascii_digit d) eqn:Ed; [|apply (IH (S (length s3))); [cbn; lia|done|done]].
    unfold is_ascii_digit in Ed.
    assert (quote_step unquoted d = None) as Eqd by (cbn; repeat case_match; done || lia).
    apply boundary_found_cons; [intros _; split_and!; lia|]. rewrite quotes_after_exposed by done.
    apply (IH (length s3)); [cbn; lia|done|].
    eapply unchained_suffix; [|done]. by apply suffix_cons_r. }
  destruct (Z.eqb_spec b LESS) as [->|].
  { destruct (Z.eqb_spec (peek s1) LPAREN) as [Hl|]; [|by apply boundary_found_here].
    destruct s1; [done|]. cbn in Hl. set_solver. }
  apply boundary_found_cons; [intros _; split_and!; done|]. rewrite quotes_after_exposed by done.
  apply (IH (length s1)); [cbn; lia|done|done].
Qed.

(** What a benign suffix may expose. *)
Definition quiet (pre : str) (b : Z) (post : str) : Prop :=
  exposed unquoted pre b ->
  b <> PIPE /\ b <> LESS /\ (b = AMP -> default 0 (last pre) = GREATER).

Lemma everywhere_app P l r :
  everywhere P (l ++ r) <->
  everywhere (fun pre b post => P pre b (post ++ r)) l
  /\ everywhere (fun pre => P (l ++ pre)) r.
Proof.
  revert P. induction l as [|b l IH]; intros P; cbn [app].
  - split; [intros H; split; [apply everywhere_nil|done]|by intros []].
  - rewrite !everywhere_cons, IH. tauto.
Qed.

Lemma everywhere_impl (P Q : str -> Z -> str -> Prop) s :
  (forall pre b post, P pre b post -> Q pre b post) -> everywhere P s -> everywhere Q s.
Proof. intros HPQ H pre b post Hs. by apply HPQ, H. Qed.

Lemma disallowed_quiet fuel s :
  (length s < fuel)%nat -> unchained s -> disallowed_loop fuel s = false -> everywhere quiet s.
Proof.
  revert s. induction fuel as [|fuel IH]; intros s Hf Hun; [lia|]. cbn [disallowed_loop].
  pose proof (boundary_from_found unquoted 0 0 s Hun) as Hfound.
  fold (find_first_structural_boundary s) in Hfound.
  destruct (find_first_structural_boundary s) as [[pos k]|]; cbn [boundary_found] in Hfound.
  2: { intros _. eapply everywhere_impl; [|done]. intros pre b post H He.
       destruct (H He) as (? & ? & ? & ?). by split_and!. }
  cbn [kind byte_pos] in *. destruct k; [done|done| |done]. cbn [boundary_byte] in *.
  destruct Hfound as (pre & post & -> & -> & He & Ho & Hc). specialize (Ho eq_refl). cbn [Nat.add].
  intros Hloop. apply everywhere_app. split.
  { eapply everywhere_impl; [|exact Hc]. intros p b q H Hx. destruct (H Hx) as (? & ? & _ & ?).
    by split_and!. }
  apply everywhere_cons. split; [intros _; split_and!; lia|].
  assert (everywhere quiet post) as Hq.
  { rewrite length_app in *. cbn [length] in *. destruct post as [|c post]; [apply everywhere_nil|].
    rewrite (proj2 (Nat.leb_gt _ _)) in Hloop by (cbn; lia).
    replace (drop (S (length pre)) (pre ++ GREATER :: c :: post)) with (c :: post) in Hloop
      by (rewrite drop_app_ge by lia; by replace (S (length pre) - length pre)%nat with 1%nat by lia).
    apply IH; [cbn in *; lia| |done]. eapply unchained_suffix; [|exact Hun].
    exists (pre ++ [GREATER]). by rewrite <- app_assoc. }
  intros p b q Hs Hx. assert (exposed unquoted p b) as Hx'.
  { unfold exposed, quotes_after in *. rewrite foldl_app in Hx. cbn [foldl] in Hx.
    rewrite He in Hx. cbn [default] in Hx. by rewrite (quote_step_None _ _ He) in Hx. }
  destruct (Hq p b q Hs Hx') as (? & ? & Ha). split_and!; [done..|]. intros ->.
  destruct p as [|x p]; [by subst post|]. rewrite last_app_cons, !last_prev. rewrite last_prev in Ha. by apply Ha.
Qed.

Lemma disallowed_false_quiet s :
  unchained s -> suffix_has_disallowed_followup s = false -> everywhere quiet s.
Proof. apply disallowed_quiet. lia. Qed.

(** ** Segments *)

(** [and_pieces s l]: the exposed [&&]s of [s] cut it into the pieces [l]. *)
Inductive and_pieces : str -> list str -> Prop :=
  | and_one s :
      (forall pre post, s = pre ++ AMP :: AMP :: post -> ~ exposed unquoted pre AMP) -> and_pieces s [s]
  | and_more p s l :
      exposed unquoted p AMP ->
      (forall pre post, p ++ AMP :: AMP :: s = pre ++ AMP :: AMP :: post -> exposed unquoted pre AMP ->
         (length p <= length pre)%nat) ->
      and_pieces s l -> and_pieces (p ++ AMP :: AMP :: s) (p :: l).

(** The commands of a chain: the pieces that are not blank, trimmed. *)
Definition commands (pieces : list str) : list str := pieces ≫= push_segment.

Lemma quotes_after_snoc q s b : quotes_after q (s ++ [b]) =
  match quote_step (quotes_after q s) b with Some q' => q' | None => quotes_after q s end.
Proof. unfold quotes_after. rewrite foldl_app. cbn [foldl]. by destruct (quote_step _ b). Qed.

(** The scanner finds these pieces. *)
Lemma and_segments_pieces cur s :
  (forall pre post, rev cur ++ s = pre ++ AMP :: AMP :: post -> exposed unquoted pre AMP ->
     (length (rev cur) <= length pre)%nat) ->
  exists l, and_pieces (rev cur ++ s) l /\ and_segments (quotes_after unquoted (rev cur)) cur s = commands l.
Proof.
  remember (length s) as n eqn:Hn. revert cur s Hn.
  induction n as [n IH] using lt_wf_ind. intros cur s -> Hfirst.
  assert (Hstep : forall b s1, s = b :: s1 ->
    ~ (exposed unquoted (rev cur) b /\ b = AMP /\ peek s1 = AMP) ->
    exists l, and_pieces (rev cur ++ s) l /\ and_segments (quotes_after unquoted (rev (b :: cur))) (b :: cur) s1 = commands l).
  { intros b s1 -> Hno. assert (E : rev cur ++ b :: s1 = rev (b :: cur) ++ s1) by (cbn [rev]; by rewrite <- app_assoc).
    rewrite E in Hfirst |- *. apply (IH (length s1)); [cbn; lia|done|]. intros pre post Hpp Hx.
    pose proof (Hfirst pre post Hpp Hx) as Hle. cbn [rev] in Hpp |- *. rewrite length_app. cbn [length].
    destruct (decide (length pre = length (rev cur))) as [Heq|]; [|lia]. exfalso. apply Hno.
    rewrite <- app_assoc in Hpp. apply app_inj_1 in Hpp as [<- [= -> ->]]; [|done]. by split_and!. }
  destruct s as [|b s1]; cbn [and_segments].
  { rewrite app_nil_r in Hfirst |- *. exists [rev cur]. split; [|by unfold commands; cbn; rewrite app_nil_r].
    constructor. intros pre post Hpp Hx. pose proof (Hfirst pre post Hpp Hx) as Hle.
    apply (f_equal length) in Hpp. rewrite length_app in Hpp. cbn in Hpp. lia. }
  pose proof (quotes_after_snoc unquoted (rev cur) b) as Hq. change (rev cur ++ [b]) with (rev (b :: cur)) in Hq.
  destruct (quote_step (quotes_after unquoted (rev cur)) b) as [q'|] eqn:E.
  { rewrite <- Hq. apply (Hstep b s1 eq_refl). intros (Hx & _). unfold exposed in Hx. congruence. }
  destruct s1 as [|m s2]; [rewrite <- Hq; apply (Hstep b [] eq_refl); by intros (_ & _ & ?)|].
  destruct (Z.eqb_spec b AMP) as [->|Hb]; [|rewrite <- Hq; apply (Hstep b (m :: s2) eq_refl); by intros (_ & ? & _)].
  destruct (Z.eqb_spec m AMP) as [->|Hm]; [|rewrite <- Hq; apply (Hstep AMP (m :: s2) eq_refl); by intros (_ & _ & ?)].
  cbn [andb]. destruct (IH (length s2) ltac:(cbn; lia) [] s2 eq_refl) as (l & Hl & Hs); [intros; cbn; lia|].
  exists (rev cur :: l). split; [by apply and_more|]. rewrite (quote_step_None _ _ E).
  change (quotes_after unquoted (rev [])) with unquoted in Hs. by rewrite Hs.
Qed.

Lemma split_and_chain_pieces cmd l :
  split_and_chain cmd = Some l -> exists pieces, and_pieces cmd pieces /\ l = commands pieces /\ (1 < length l)%nat.
Proof.
  unfold split_and_chain. destruct (negb _); [done|]. destruct (Nat.ltb_spec 1 (length (and_segments unquoted [] cmd))) as [Hl|]; [|done].
  intros [= <-]. destruct (and_segments_pieces [] cmd) as (pieces & Hp & Hs); [intros; cbn; lia|].
  exists pieces. change (quotes_after unquoted (rev [])) with unquoted in Hs. cbn [rev app] in Hp. by split_and!.
Qed.

(** What follows the last command of a chain: blanks and [&&]. *)
Definition and_tail (l : list str) : str := concat ((fun p => AMP :: AMP :: p) <$> l).

Inductive dangling : str -> Prop :=
  | dangling_nil : dangling []
  | dangling_and w r : is_blank w = true -> dangling r -> dangling (w ++ AMP :: AMP :: r).

Lemma dangling_tail w b :
  is_blank w = true -> Forall (fun p => is_blank p = true) b -> last (w :: b) = Some [] -> dangling (w ++ and_tail b).
Proof.
  intros Hw Hb. revert w Hw. induction Hb as [|y b Hy _ IH]; intros w Hw.
  - cbn. intros [= ->]. constructor.
  - rewrite last_cons_cons. intros Hl. change (w ++ and_tail (y :: b)) with (w ++ AMP :: AMP :: (y ++ and_tail b)).
    apply dangling_and; [done|]. by apply IH.
Qed.

Lemma and_pieces_prefix s a x b :
  and_pieces s (a ++ x :: b) -> exists p, s = p ++ x ++ and_tail b.
Proof.
  revert s. induction a as [|y a IH]; intros s Hs.
  - assert (Hj : forall t l, and_pieces t l -> exists y l', l = y :: l' /\ t = y ++ and_tail l').
    { induction 1 as [t|p t l _ _ _ (y & l' & -> & ->)]; [by exists t, []; rewrite app_nil_r|]. by exists p, (y :: l'). }
    destruct (Hj _ _ Hs) as (y & l' & [= <- <-] & ->). by exists [].
  - cbn [app] in Hs. inversion Hs as [t Ht Heq|p t l He Hf Hl]; subst; [by destruct a|].
    destruct (IH _ Hl) as (p & ->). exists (y ++ AMP :: AMP :: p). by rewrite <- app_assoc.
Qed.

Lemma commands_last l c core :
  commands l = c ++ [core] -> exists a x b, l = a ++ x :: b /\ trim x = core /\ Forall (fun p => is_blank p = true) b.
Proof.
  revert c. induction l as [|y l IH] using rev_ind; intros c; [by destruct c|]. unfold commands. rewrite bind_app. cbn.
  rewrite app_nil_r. unfold push_segment at 2. destruct (trim y) as [|z t] eqn:E.
  - rewrite app_nil_r. intros (a & x & b & -> & Hx & Hb)%IH. exists a, x, (b ++ [y]). split; [by rewrite <- app_assoc|].
    split; [done|]. apply Forall_app. split; [done|]. constructor; [by apply trim_nil|done].
  - intros [_ [= <-]]%app_inj_2; [|done]. by exists l, y, [].
Qed.

Lemma trim_split s : exists v w, s = v ++ trim s ++ w /\ is_blank w = true.
Proof.
  destruct (trim_start_suffix s) as [v Hv]. destruct (trim_end_split (trim_start s)) as (w & Hw & Hb).
  exists v, w. split; [|done]. unfold trim. by rewrite <- Hw.
Qed.

(** A trimmed chain is its last command, what stands before it, and what dangles behind it. *)
Lemma chain_text cmd pieces c core :
  trim_end cmd = cmd -> and_pieces cmd pieces -> commands pieces = c ++ [core] ->
  exists p r, cmd = p ++ core ++ r /\ dangling r.
Proof.
  intros Ht Hp (a & x & b & -> & <- & Hb)%commands_last. destruct (and_pieces_prefix _ _ _ _ Hp) as (p & Hs).
  destruct (trim_split x) as (v & w & Hx & Hw). exists (p ++ v), (w ++ and_tail b).
  split; [rewrite Hs; rewrite Hx at 1; by rewrite <- !app_assoc|]. apply dangling_tail; [done..|].
  assert (Hsuf : default [] (last (w :: b)) `suffix_of` cmd).
  { rewrite Hs, Hx. destruct b as [|y b' _] using rev_ind; cbn.
    - rewrite app_nil_r. exists (p ++ v ++ trim x). by rewrite <- !app_assoc.
    - rewrite app_comm_cons, last_snoc. cbn. unfold and_tail. rewrite fmap_app, concat_app. cbn. rewrite app_nil_r.
      exists (p ++ (v ++ trim x ++ w) ++ concat ((fun p => AMP :: AMP :: p) <$> b') ++ [AMP; AMP]). by rewrite <- !app_assoc. }
  assert (Hbl : is_blank (default [] (last (w :: b))) = true).
  { destruct (last (w :: b)) as [y|] eqn:El; [|done]. cbn. apply last_Some_elem_of in El.
    apply elem_of_cons in El as [->|Hin]; [done|]. rewrite Forall_forall in Hb. by apply Hb. }
  pose proof (trim_end_suffix _ _ Hsuf Ht) as He. rewrite (blank_trim_end _ Hbl) in He.
  destruct (last (w :: b)) eqn:El; [cbn in He; by subst|]. by apply last_None in El.
Qed.

(** *** Where the last command starts *)

Definition lower (b : Z) : Prop := 97 <= b <= 122.

Lemma ws_len_lower b s k :
  ws_len (b :: s) = S k -> ~ lower b /\ Forall (fun c => ~ lower c) (take k s).
Proof.
  unfold ws_len, lower. repeat case_match; intros [= <-]; repeat constructor;
    repeat (apply orb_prop in H || apply orb_prop in H0 || apply orb_prop in H1); lia.
Qed.

Lemma blank_from_lower s k :
  Forall (fun c => ~ lower c) (take k s) -> trim_start_from k s = [] -> Forall (fun c => ~ lower c) s.
Proof.
  revert k. induction s as [|b s IH]; intros k Hk Ht; [constructor|]. cbn [trim_start_from] in Ht. destruct k as [|k].
  - destruct (ws_len (b :: s)) as [|k] eqn:E; [done|]. destruct (ws_len_lower b s k E). constructor; [done|]. by apply (IH k).
  - cbn in Hk. inversion Hk; subst. constructor; [done|]. by apply (IH k).
Qed.

Lemma dangling_lower r : dangling r -> Forall (fun c => ~ lower c) r.
Proof.
  assert (~ lower AMP) by (unfold lower; lia).
  induction 1 as [|w r Hw _ IH]; [constructor|]. apply Forall_app. split; [|by repeat constructor].
  apply (blank_from_lower w 0); [constructor|by apply is_blank_spec].
Qed.

(** A text does not occur again where all that follows has none of the letters it has. *)
Lemma no_later_occurrence e p r p' r' :
  p ++ e ++ r = p' ++ e ++ r' -> Forall (fun c => ~ lower c) r -> (length p < length p')%nat ->
  Forall (fun c => ~ lower c) e.
Proof.
  intros Heq Hr Hlt.
  assert (H : forall n i c, (length e - i <= n)%nat -> e !! i = Some c -> ~ lower c).
  { induction n as [|n IH]; intros i c Hn Hi; pose proof (lookup_lt_Some _ _ _ Hi); [lia|].
    assert (Hu : (p ++ e ++ r) !! (length p' + i)%nat = Some c).
    { rewrite Heq, lookup_app_r by lia. replace (length p' + i - length p')%nat with i by lia. by rewrite lookup_app_l. }
    rewrite lookup_app_r in Hu by lia. destruct (decide (length p' + i - length p < length e)%nat).
    - rewrite lookup_app_l in Hu by done. eapply (IH _ c); [|exact Hu]. lia.
    - rewrite lookup_app_r in Hu by lia. by apply (Forall_lookup_1 _ _ _ _ Hr Hu). }
  apply Forall_lookup. intros i c. apply (H (length e)). lia.
Qed.

Lemma rfind_le e s i : rfind e s = Some i -> (i <= length s)%nat.
Proof.
  revert i. induction s as [|b s IH]; intros i; cbn [rfind]; [case_match; [|done]; intros [= <-]; cbn; lia|].
  destruct (rfind e s) as [j|]; [intros [= <-]; specialize (IH j eq_refl); cbn; lia|]. case_match; [|done]. intros [= <-]. lia.
Qed.

Lemma rfind_last e p r i :
  rfind e (p ++ e ++ r) = Some i -> Forall (fun c => ~ lower c) r -> ~ Forall (fun c => ~ lower c) e -> i = length p.
Proof.
  intros Hi Hr He. assert (Hge : (length p <= i)%nat).
  { revert i Hi. induction p as [|b p IH]; intros i; [cbn; lia|]. cbn [app rfind length].
    destruct (rfind e (p ++ e ++ r)) as [j|] eqn:E; [intros [= <-]; specialize (IH j eq_refl); lia|].
    exfalso. clear - E. revert E. induction p as [|b p IH].
    - cbn [app]. destruct (e ++ r) as [|x t] eqn:Ex; cbn [rfind].
      + apply app_eq_nil in Ex as [-> ->]. done.
      + destruct (rfind e t); [done|]. rewrite <- Ex, (proj2 (starts_with_spec _ _)); [done|]. by exists r.
    - cbn [app rfind]. destruct (rfind e (p ++ e ++ r)); [done|]. by destruct IH. }
  destruct (decide (length p = i)) as [|Hne]; [done|]. destruct He. destruct (rfind_spec _ _ _ Hi) as (r' & Hr').
  eapply (no_later_occurrence e p r (take i (p ++ e ++ r)) r'); [exact Hr'|done|].
  pose proof (rfind_le _ _ _ Hi). rewrite length_take. lia.
Qed.

Lemma push_segment_trimmed s t : t ∈ push_segment s -> trim t = t.
Proof.
  unfold push_segment. destruct (trim s) eqn:E; [set_solver|].
  rewrite list_elem_of_singleton. intros ->. rewrite <- E. apply trim_idemp.
Qed.

Lemma and_segments_trimmed q cur s : Forall (fun t => trim t = t) (and_segments q cur s).
Proof.
  remember (length s) as n eqn:Hn. revert q cur s Hn.
  induction n as [n IH] using lt_wf_ind. intros q cur s ->.
  assert (Forall (fun t => trim t = t) (push_segment (rev cur))) as Hpush.
  { apply Forall_forall. intros t. apply push_segment_trimmed. }
  destruct s as [|b s1]; cbn [and_segments]; [done|].
  repeat case_match; subst; try (eapply IH; [|reflexivity]; cbn; lia).
  apply Forall_app. split; [done|]. eapply IH; [|reflexivity]. cbn. lia.
Qed.

(** ** Unwrapping *)

(** The number of ASCII bytes. *)
Definition ascii_count (s : str) : nat := length (filter (fun b => b < 128) s).

Lemma ascii_count_app s t : ascii_count (s ++ t) = (ascii_count s + ascii_count t)%nat.
Proof. unfold ascii_count. by rewrite filter_app, length_app. Qed.

Lemma ascii_count_suffix t s : t `suffix_of` s -> (ascii_count t <= ascii_count s)%nat.
Proof. intros [k ->]. rewrite ascii_count_app. lia. Qed.

Lemma ascii_count_prefix t s : t `prefix_of` s -> (ascii_count t <= ascii_count s)%nat.
Proof. intros [k ->]. rewrite ascii_count_app. lia. Qed.

Lemma ascii_count_trim s : (ascii_count (trim s) <= ascii_count s)%nat.
Proof.
  unfold trim. pose proof (ascii_count_prefix _ _ (trim_end_prefix (trim_start s))).
  pose proof (ascii_count_suffix _ _ (trim_start_suffix s)). lia.
Qed.

(** Reencoding a byte makes no ASCII byte out of another. *)
Lemma ascii_count_push b : ascii_count (push_char b) = ascii_count [b].
Proof.
  unfold push_char, ascii_count. destruct (Z.ltb_spec b 128) as [|Hb]; [done|].
  pose proof (Z.div_pos b 64). pose proof (Z.mod_pos_bound b 64).
  rewrite !filter_cons_False by lia. done.
Qed.

Lemma quoted_body_ascii quote s out :
  quoted_body quote s = Some out -> (ascii_count out <= ascii_count s)%nat.
Proof.
  remember (length s) as n eqn:Hn. revert s out Hn.
  induction n as [n IH] using lt_wf_ind. intros s out -> Hq.
  assert (forall b s' o, (length s' < length s)%nat ->
    app (push_char b) <$> quoted_body quote s' = Some o ->
    (ascii_count o <= ascii_count [b] + ascii_count s')%nat) as Hpush.
  { intros b s' o Hl (o' & Ho & ->)%fmap_Some. rewrite ascii_count_app, ascii_count_push.
    specialize (IH _ Hl s' o' eq_refl Ho). lia. }
  destruct s as [|b [|m s2]]; [done| |]; cbn [quoted_body] in Hq.
  { destruct (b =? quote); [|done]. injection Hq as <-. cbn. lia. }
  pose proof (ascii_count_app [b] (m :: s2)). pose proof (ascii_count_app [m] s2).
  cbn [app] in *.
  destruct ((quote =? DQUOTE) && (b =? BACKSLASH)); [apply Hpush in Hq; cbn [length]; lia|].
  destruct (b =? quote); [|apply (Hpush b (m :: s2)) in Hq; cbn [length]; lia].
  destruct (is_blank _); [|done]. injection Hq as <-. cbn. lia.
Qed.

Lemma word_span_app s w r : word_span s = (w, r) -> s = w ++ r.
Proof.
  revert w. induction s as [|b s IH]; intros w; cbn [word_span]; [by intros [= <- <-]|].
  case_match; [by intros [= <- <-]|]. destruct (word_span s) as [w' r'].
  intros [= <- <-]. cbn. f_equal. by apply IH.
Qed.

Lemma next_word_end_app s w r : next_word_end s = Some (w, r) -> s = w ++ r.
Proof.
  unfold next_word_end. destruct s as [|b s]; [done|]. case_match; [done|].
  intros [= Hw]. by apply word_span_app.
Qed.

Lemma skip_spaces_suffix s : skip_spaces s `suffix_of` s.
Proof.
  induction s as [|b s IH]; [done|]. cbn [skip_spaces]. case_match; [by apply suffix_cons_r|done].
Qed.

(** The shell and its flag are dropped. *)
Lemma strip_shell_ascii cmd rest :
  strip_shell_dash_c_prefix cmd = Some rest -> (ascii_count rest < ascii_count cmd)%nat.
Proof.
  unfold strip_shell_dash_c_prefix. intros H.
  destruct (next_word_end (trim_start cmd)) as [[shell r1]|] eqn:E1; [|done].
  case_match; [done|]. destruct (next_word_end (skip_spaces r1)) as [[flag r2]|] eqn:E2; [|done].
  destruct (is_lit flag "-c") eqn:Ef; [|done]. cbn [negb] in H. apply is_lit_spec in Ef as ->.
  apply next_word_end_app in E1, E2. assert (skip_spaces r2 = rest) as <- by (by case_match; simplify_eq).
  pose proof (ascii_count_suffix _ _ (skip_spaces_suffix r2)).
  pose proof (ascii_count_suffix _ _ (skip_spaces_suffix r1)) as Hr1.
  pose proof (ascii_count_suffix _ _ (trim_start_suffix cmd)) as Hcmd.
  rewrite E1 in Hcmd. rewrite E2 in Hr1. rewrite ascii_count_app in Hr1, Hcmd.
  change (ascii_count (str_bytes "-c")) with 2%nat in Hr1. lia.
Qed.

(** Each unwrapping leaves fewer ASCII bytes, though a reencoded text may be longer. *)
Lemma unwrap_ascii cmd rest inner :
  strip_shell_dash_c_prefix cmd = Some rest ->
  extract_single_quoted_argument (trim_start rest) = Some inner ->
  (ascii_count inner < ascii_count cmd)%nat.
Proof.
  intros Hr%strip_shell_ascii. unfold extract_single_quoted_argument.
  destruct (trim (trim_start rest)) as [|quote s] eqn:Et; [done|]. case_match; [done|].
  case_match; [done|]. intros Hb%quoted_body_ascii.
  pose proof (ascii_count_trim (trim_start rest)) as Htrim. rewrite Et in Htrim.
  change (quote :: s) with ([quote] ++ s) in Htrim. rewrite ascii_count_app in Htrim.
  pose proof (ascii_count_suffix _ _ (trim_start_suffix rest)). lia.
Qed.

Lemma quoted_body_single s :
  SQUOTE ∉ s -> quoted_body SQUOTE (s ++ [SQUOTE]) = Some (flat_map push_char s).
Proof.
  induction s as [|b s IH]; intros Hs; [done|].
  apply not_elem_of_cons in Hs as [Hb Hs]. cbn [app flat_map].
  assert (exists n t, s ++ [SQUOTE] = n :: t) as (n & t & Hnt) by (destruct s; eauto).
  cbn [quoted_body]. rewrite Hnt, <- Hnt. change (SQUOTE =? DQUOTE) with false. cbn [andb].
  rewrite (proj2 (Z.eqb_neq b SQUOTE)), IH by done. done.
Qed.

Lemma reencode_length s : (length s <= length (flat_map push_char s))%nat.
Proof.
  induction s as [|b s IH]; cbn [flat_map length]; [done|]. rewrite length_app.
  unfold push_char at 1. case_match; cbn [length]; lia.
Qed.

Lemma reencode_id s : flat_map push_char s = s <-> Forall (fun b => b < 128) s.
Proof.
  split.
  - induction s as [|b s IH]; [done|]. cbn [flat_map]. unfold push_char at 1.
    destruct (Z.ltb_spec b 128) as [Hb|Hb].
    + intros [= H]. constructor; auto.
    + intros H%(f_equal length). pose proof (reencode_length s). cbn in H. lia.
  - induction 1 as [|b s Hb _ IH]; [done|]. cbn [flat_map]. unfold push_char at 1.
    rewrite (proj2 (Z.ltb_lt b 128)) by done. cbn. by f_equal.
Qed.

(** No white space character ends with a quote. *)
Lemma ws_len_quote t : (ws_len (t ++ [SQUOTE]) <= length t)%nat.
Proof. destruct t as [|b [|c [|d t]]]; cbn; repeat case_match; lia. Qed.

Lemma blank_quote k t : (k <= length t)%nat -> trim_start_from k (t ++ [SQUOTE]) <> [].
Proof.
  revert k. induction t as [|c t IH]; intros k Hk; cbn [app length trim_start_from] in *.
  - by replace k with O by lia.
  - destruct k as [|k]; [|apply IH; lia].
    pose proof (ws_len_quote (c :: t)) as Hl. cbn [app length] in Hl.
    destruct (ws_len (c :: t ++ [SQUOTE])) as [|n]; [done|]. apply IH. lia.
Qed.

Lemma trim_end_quote s : trim_end (s ++ [SQUOTE]) = s ++ [SQUOTE].
Proof.
  induction s as [|c s IH]; [done|]. cbn [app trim_end].
  destruct (is_blank (c :: s ++ [SQUOTE])) eqn:E; [|by rewrite IH].
  apply is_blank_spec in E. by apply (blank_quote 0 (c :: s)) in E; [|lia].
Qed.

(** Opening a [bash -c] wrapper keeps the text only when it is ASCII.  The argument in
    single quotes is copied byte by byte as if each byte were a character, so the inner
    command is the quoted text exactly when that text has no byte of 128 or more; any other
    text comes out longer, its characters encoded twice. *)
Theorem single_quoted_reencoded s :
  SQUOTE ∉ s ->
  exists inner,
    extract_single_quoted_argument (SQUOTE :: s ++ [SQUOTE]) = Some inner
    /\ (inner = s <-> Forall (fun b => b < 128) s).
Proof.
  intros Hs. exists (flat_map push_char s). split.
  - unfold extract_single_quoted_argument.
    assert (trim (SQUOTE :: s ++ [SQUOTE]) = SQUOTE :: s ++ [SQUOTE]) as ->.
    { unfold trim. rewrite trim_start_fix by (by apply ws_len_plain). apply (trim_end_quote (SQUOTE :: s)). }
    rewrite (proj2 (Nat.ltb_ge _ _)) by (cbn; rewrite length_app; cbn; lia). cbn [negb andb Z.eqb].
    by apply quoted_body_single.
  - apply reencode_id.
Qed.

Lemma single_quoted_witness :
  exists inner,
    extract_single_quoted_argument (SQUOTE :: [99; 195; 169] ++ [SQUOTE]) = Some inner
    /\ (inner = [99; 195; 169] <-> Forall (fun b => b < 128) [99; 195; 169]).
Proof.
  apply (single_quoted_reencoded [99; 195; 169]). apply contains_byte_false. reflexivity.
Defined.

End Shell.
