(* ===== verification/Normalize.v ===== *)
(** * Normalization of a command

    [normalize_command] of rch-common/src/patterns.rs: wrappers ([sudo], [env], [timeout],
    ...), their flags, environment assignments and the directory of the program are dropped
    from the front of a command until nothing changes. *)

From stdpp Require Import base list strings.
From Stdlib Require Import ZArith Lia.
From S2P Require Import Prelude Bytes Text Shell.
Import Shell.

Module Normalize.
Local Open Scope string_scope.
Local Open Scope list_scope.
Local Open Scope Z_scope.

Definition wrapper_flag_takes_value (wrapper : string) (flag : str) : bool :=
  in_lits flag
    (if decide (wrapper = "env") then ["-u"; "--unset"]
     else if decide (wrapper = "nice") then ["-n"; "--adjustment"]
     else if decide (wrapper = "ionice") then
       ["-c"; "--class"; "-n"; "--classdata"; "-p"; "--pid"]
     else if decide (wrapper = "taskset") then ["-c"; "--cpu-list"; "-p"; "--pid"]
     else if decide (wrapper = "chrt") then ["-p"; "--pid"]
     else if decide (wrapper = "timeout") then ["-s"; "--signal"; "-k"; "--kill-after"]
     else []).

Definition looks_like_duration_or_priority (token : str) : bool := is_ascii_digit (peek token).

Definition wrappers : list string :=
  ["sudo"; "env"; "time"; "timeout"; "nice"; "ionice"; "chrt"; "strace"; "ltrace"; "perf";
   "taskset"; "numactl"].

(** The [while result.starts_with('-')] loop; each round drops at least a byte. *)
Fixpoint strip_flags (fuel : nat) (wrapper : string) (result : str) : str :=
  match fuel with
  | O => result
  | S fuel =>
      if negb (peek result =? DASH) then result
      else
        let '(flag, rest_after_flag) := split_first_word result in
        let result := trim_start rest_after_flag in
        let result :=
          if wrapper_flag_takes_value wrapper flag
          then trim_start (snd (split_first_word result)) else result in
        strip_flags fuel wrapper result
  end.

(** [timeout 60 cmd] and [chrt 10 cmd]: one bare value is skipped. *)
Definition strip_positional (wrapper : string) (result : str) : str :=
  if bool_decide (wrapper = "timeout") || bool_decide (wrapper = "chrt") then
    match split_once_ws result with
    | Some (first, after_first) =>
        if negb (peek first =? DASH) && looks_like_duration_or_priority first
        then trim_start after_first else result
    | None => result
    end
  else result.

(** One iteration of [for wrapper in wrappers], on [result] and [changed]. *)
Definition strip_wrapper (rc : str * bool) (wrapper : string) : str * bool :=
  let '(result, changed) := rc in
  match strip_prefix (str_bytes wrapper) result with
  | Some rest =>
      if bool_decide (rest = []) || starts_with_ws rest then
        let result := trim_start rest in
        (strip_positional wrapper (strip_flags (length result) wrapper result), true)
      else rc
  | None => rc
  end.

(** The scan of the first token: its length in bytes, [has_equals], whether a quote is
    open at the end, [has_space]. *)
Fixpoint scan_token (in_quote : option Z) (escaped : bool) (token_len : nat)
    (has_equals : bool) (s : str) : nat * bool * bool * bool :=
  match s with
  | [] => (token_len, has_equals, bool_decide (is_Some in_quote), false)
  | c :: s' =>
      if escaped then scan_token in_quote false (S token_len) has_equals s'
      else if c =? BACKSLASH then scan_token in_quote true (S token_len) has_equals s'
      else
        match in_quote with
        | Some q =>
            if c =? q then scan_token None false (S token_len) has_equals s'
            else scan_token in_quote false (S token_len) (has_equals || (c =? EQUALS)) s'
        | None =>
            if (c =? DQUOTE) || (c =? SQUOTE) then
              scan_token (Some c) false (S token_len) has_equals s'
            else if starts_with_ws s then (token_len, has_equals, false, true)
            else scan_token None false (S token_len) (has_equals || (c =? EQUALS)) s'
        end
  end.

(** [VAR=value] in front of the command. *)
Definition strip_assignment (rc : str * bool) : str * bool :=
  let '(result, changed) := rc in
  let '(token_len, has_equals, open_quote, has_space) := scan_token None false 0 false result in
  if has_equals && negb open_quote && has_space then (trim_start (drop token_len result), true)
  else rc.

(** The part before the first space, and the rest from that space on. *)
Fixpoint split_at_space (s : str) : str * str :=
  match s with
  | b :: s' => if b =? SPACE then ([], s) else
      let (x, y) := split_at_space s' in (b :: x, y)
  | [] => ([], [])
  end.

(** [/usr/bin/cargo build] becomes [cargo build]. *)
Definition strip_path (rc : str * bool) : str * bool :=
  let '(result, changed) := rc in
  if peek result =? SLASH then
    let '(cmd_part, rest) := split_at_space result in (after_last SLASH cmd_part ++ rest, true)
  else rc.

(** One iteration of the outer [loop]: the new [result], and [changed]. *)
Definition normalize_pass (result : str) : str * bool :=
  strip_path (strip_assignment (foldl strip_wrapper (result, false) wrappers)).

Fixpoint normalize_loop (fuel : nat) (result : str) : str :=
  match fuel with
  | O => result
  | S fuel =>
      let '(result, changed) := normalize_pass result in
      if changed then normalize_loop fuel result else result
  end.

Definition normalize_command (cmd : str) : str := normalize_loop (S (length cmd)) (trim cmd).

(** * Properties *)

(** Every step drops something from the front and reports it, or leaves all as it is. *)
Definition shrinks (rc rc' : str * bool) : Prop :=
  rc' = rc
  \/ (fst rc' `suffix_of` fst rc /\ (length (fst rc') < length (fst rc))%nat /\ snd rc' = true).

#[export] Instance shrinks_preorder : PreOrder shrinks.
Proof.
  split; [by left|]. intros x y z [->|(Hs & Hl & Hc)] [->|(Hs' & Hl' & Hc')]; [by left|by right..|].
  right. split_and!; [by etrans|lia|done].
Qed.

Lemma strip_flags_suffix fuel w s : strip_flags fuel w s `suffix_of` s.
Proof.
  revert s. induction fuel as [|fuel IH]; intros s; cbn [strip_flags]; [done|].
  case_match; [done|]. destruct (split_first_word s) as [flag rest] eqn:E.
  assert (trim_start rest `suffix_of` s).
  { etrans; [apply trim_start_suffix|]. by eapply split_first_word_suffix. }
  etrans; [apply IH|].
  case_match; [|done]. etrans; [|done]. etrans; [apply trim_start_suffix|].
  eapply split_first_word_suffix. by rewrite <- surjective_pairing.
Qed.

(** A flag has at least one byte, so the loop over flags ends by its own test. *)
Lemma split_first_word_shorter s flag rest :
  split_first_word s = (flag, rest) -> s <> [] -> (length rest < length s)%nat.
Proof.
  unfold split_first_word. destruct (split_once_ws s) as [[x y]|] eqn:E; cbn.
  - intros [= <- <-] _. destruct (split_once_ws_spec _ _ _ E) as (w & -> & Hw).
    rewrite !length_app. lia.
  - intros [= <- <-]. destruct s; cbn; [done|lia].
Qed.

Lemma strip_flags_done fuel w s :
  (length s <= fuel)%nat -> peek (strip_flags fuel w s) <> DASH.
Proof.
  revert s. induction fuel as [|fuel IH]; intros s Hf; cbn [strip_flags].
  { by destruct s; cbn in *; [|lia]. }
  destruct (Z.eqb_spec (peek s) DASH); cbn [negb]; [|done].
  destruct (split_first_word s) as [flag rest] eqn:E.
  assert (length rest < length s)%nat as Hr.
  { eapply split_first_word_shorter; [done|]. by intros ->. }
  pose proof (suffix_length _ _ (trim_start_suffix rest)). apply IH.
  case_match; [|lia]. set (t := trim_start rest) in *.
  assert (snd (split_first_word t) `suffix_of` t) as Hs%suffix_length.
  { eapply split_first_word_suffix. by rewrite <- surjective_pairing. }
  pose proof (suffix_length _ _ (trim_start_suffix (snd (split_first_word t)))). lia.
Qed.

Lemma strip_positional_suffix w s : strip_positional w s `suffix_of` s.
Proof.
  unfold strip_positional. repeat case_match; try done. subst.
  etrans; [apply trim_start_suffix|]. eapply (split_first_word_suffix s l).
  unfold split_first_word. by rewrite H0.
Qed.

Lemma strip_wrapper_shrinks w rc : w <> EmptyString -> shrinks rc (strip_wrapper rc w).
Proof.
  intros Hw. destruct rc as [r c]. unfold strip_wrapper.
  destruct (strip_prefix _ r) as [rest|] eqn:E; [|by left]. apply strip_prefix_spec in E as ->.
  case_match; [|by left]. right. cbn [fst snd].
  assert (strip_positional w (strip_flags (length (trim_start rest)) w (trim_start rest))
            `suffix_of` rest) as Hs.
  { etrans; [apply strip_positional_suffix|]. etrans; [apply strip_flags_suffix|].
    apply trim_start_suffix. }
  split_and!; [by apply suffix_app_r| |done].
  pose proof (suffix_length _ _ Hs). rewrite length_app. destruct w; [done|]. cbn. lia.
Qed.

Lemma foldl_shrinks ws rc :
  Forall (fun w => w <> EmptyString) ws -> shrinks rc (foldl strip_wrapper rc ws).
Proof.
  intros H. revert rc. induction H as [|w ws Hw _ IH]; intros rc; [done|].
  cbn. etrans; [by apply strip_wrapper_shrinks|apply IH].
Qed.

(** The token with an [=] in it is not empty. *)
Lemma scan_token_len q e n eqs s n' eqs' open sp :
  scan_token q e n eqs s = (n', eqs', open, sp) ->
  (n <= n' <= n + length s)%nat /\ (eqs = false -> eqs' = true -> (n < n')%nat).
Proof.
  revert q e n eqs. induction s as [|c s IH]; intros q e n eqs; cbn [scan_token length].
  { intros [= <- <- _ _]. split; [lia|congruence]. }
  repeat case_match;
    first [ intros [Hlen _]%IH; split; [lia|intros; lia]
          | intros [= <- <- _ _]; split; [lia|congruence] ].
Qed.

Lemma strip_assignment_shrinks rc : shrinks rc (strip_assignment rc).
Proof.
  destruct rc as [r c]. unfold strip_assignment.
  destruct (scan_token None false 0 false r) as [[[n eqs] open] sp] eqn:E.
  apply scan_token_len in E as [Hn Hlt]. destruct eqs; cbn [andb]; [|by left].
  case_match; [|by left]. right. cbn [fst snd]. specialize (Hlt eq_refl eq_refl).
  split_and!; [|pose proof (suffix_length _ _ (trim_start_suffix (drop n r)))|done].
  - etrans; [apply trim_start_suffix|apply suffix_drop].
  - rewrite length_drop in *. lia.
Qed.

Lemma split_at_space_app s x y : split_at_space s = (x, y) -> s = x ++ y.
Proof.
  revert x. induction s as [|b s IH]; intros x; cbn [split_at_space].
  - by intros [= <- <-].
  - case_match; [by intros [= <- <-]|]. destruct (split_at_space s) as [x' y'].
    intros [= <- <-]. cbn. f_equal. by apply IH.
Qed.

Lemma strip_path_shrinks rc : shrinks rc (strip_path rc).
Proof.
  destruct rc as [r c]. unfold strip_path. destruct (Z.eqb_spec (peek r) SLASH) as [Hp|]; [|by left].
  destruct (split_at_space r) as [x y] eqn:E. right. cbn [fst snd].
  destruct r as [|b r]; [done|]. cbn in Hp. subst b. cbn [split_at_space] in E.
  change (SLASH =? SPACE) with false in E. cbn iota in E.
  destruct (split_at_space r) as [x' y'] eqn:E'. injection E as <- <-.
  apply split_at_space_app in E' as ->.
  assert (after_last SLASH (SLASH :: x') `suffix_of` x') as Hs.
  { cbn [after_last]. case_match; [apply after_last_suffix|done]. }
  pose proof (suffix_length _ _ Hs). split_and!; [|cbn [app length]; rewrite !length_app; lia|done].
  apply suffix_cons_r. destruct Hs as [k Hk]. rewrite Hk at 2. rewrite <- app_assoc. by eexists.
Qed.

Lemma normalize_pass_shrinks r : shrinks (r, false) (normalize_pass r).
Proof.
  unfold normalize_pass. etrans; [|apply strip_path_shrinks].
  etrans; [|apply strip_assignment_shrinks]. apply foldl_shrinks. by repeat constructor.
Qed.

Lemma normalize_loop_settles fuel r :
  (length r < fuel)%nat ->
  normalize_pass (normalize_loop fuel r) = (normalize_loop fuel r, false)
  /\ normalize_loop fuel r `suffix_of` r.
Proof.
  revert r. induction fuel as [|fuel IH]; intros r Hf; [lia|]. cbn [normalize_loop].
  destruct (normalize_pass r) as [r' c] eqn:E.
  destruct (normalize_pass_shrinks r) as [H|(Hs & Hl & Hc)]; rewrite E in *.
  - injection H as -> ->. by rewrite E.
  - cbn [fst snd] in *. subst c. destruct (IH r') as [Hn Hs']; [lia|]. split; [done|]. by etrans.
Qed.

Lemma normalize_command_spec cmd :
  normalize_pass (normalize_command cmd) = (normalize_command cmd, false)
  /\ normalize_command cmd `suffix_of` trim cmd.
Proof. apply normalize_loop_settles. pose proof (trim_length cmd). lia. Qed.

(** Once nothing changes, normalizing again changes nothing. *)
Lemma normalize_stable r : normalize_pass r = (r, false) -> trim r = r -> normalize_command r = r.
Proof. intros Hp Ht. unfold normalize_command. rewrite Ht. cbn [normalize_loop]. by rewrite Hp. Qed.

Lemma normalize_trim_end cmd : trim_end (normalize_command cmd) = normalize_command cmd.
Proof.
  eapply trim_end_suffix; [apply normalize_command_spec|]. unfold trim. apply trim_end_idemp.
Qed.

Lemma normalize_again cmd :
  starts_with_ws (normalize_command cmd) = false ->
  normalize_command (normalize_command cmd) = normalize_command cmd.
Proof.
  intros Hw%starts_with_ws_false. pose proof (normalize_trim_end cmd) as Ht.
  destruct (normalize_command_spec cmd) as [Hp _]. revert Hw Ht Hp.
  generalize (normalize_command cmd) as r. intros r Hw Ht Hp. apply normalize_stable; [exact Hp|].
  unfold trim. rewrite trim_start_fix; [exact Ht|exact Hw].
Qed.

(** Normalization comes to rest, invents nothing and is idempotent.  The loop ends
    because another pass would change nothing, not because it was cut off; the result is
    the end of the trimmed command, so only a leading part was dropped; no wrapper's flag
    is left over; and unless the result starts with white space (a path that ends in a
    slash leaves it so), normalizing it again gives it back. *)
Theorem normalize_settles cmd :
  normalize_pass (normalize_command cmd) = (normalize_command cmd, false)
  /\ normalize_command cmd `suffix_of` trim cmd
  /\ (forall wrapper rest, peek (strip_flags (length rest) wrapper rest) <> DASH)
  /\ (starts_with_ws (normalize_command cmd) = false ->
      normalize_command (normalize_command cmd) = normalize_command cmd).
Proof.
  destruct (normalize_command_spec cmd) as [Hp Hs].
  split; [exact Hp|split; [exact Hs|split]].
  - intros w rest. by apply strip_flags_done.
  - apply normalize_again.
Qed.

End Normalize.
