(* ===== verification/Classifier.v ===== *)
(** * The command classifier

    rch-common/src/patterns.rs: whether an intercepted command is a compilation that may
    run on a worker.  A command is trimmed, unwrapped ([&&] chains, [bash -c], benign
    suffixes), refused when it exposes shell structure, normalized (wrappers, environment
    assignments and paths dropped) and then matched against the tools. *)

From stdpp Require Import base list strings sets.
From Stdlib Require Import ZArith Lia.
From S2P Require Import Prelude Bytes Text Shell Normalize.
Import Shell Normalize.

Module Classifier.
Local Open Scope string_scope.
Local Open Scope list_scope.
Local Open Scope Z_scope.

(** ** Data *)

Inductive CompilationKind :=
  | CargoBuild | CargoTest | CargoCheck | CargoClippy | CargoDoc | CargoNextest | CargoBench
  | CargoZigbuild | Rustc
  | Gcc | Gpp | Clang | Clangpp
  | Make | CmakeBuild | Ninja | Meson
  | BunTest | BunTypecheck
  | GoBuild | GoTest | GoVet
  | Tsc
  | NixBuild.

#[export] Instance CompilationKind_eq_dec : EqDecision CompilationKind.
Proof. solve_decision. Defined.

Definition is_test_command (k : CompilationKind) : bool :=
  match k with
  | CargoTest | CargoNextest | CargoBench | BunTest | GoTest => true
  | _ => false
  end.

Definition command_base (k : CompilationKind) : string :=
  match k with
  | CargoBuild | CargoTest | CargoCheck | CargoClippy | CargoDoc | CargoBench => "cargo"
  | CargoNextest => "cargo"
  | CargoZigbuild => "cargo"
  | Rustc => "rustc"
  | Gcc => "gcc" | Gpp => "g++" | Clang => "clang" | Clangpp => "clang++"
  | Make => "make" | CmakeBuild => "cmake" | Ninja => "ninja" | Meson => "meson"
  | BunTest | BunTypecheck => "bun"
  | NixBuild => "nix"
  | GoBuild | GoTest | GoVet => "go"
  | Tsc => "tsc"
  end.

(** [f64] literals with two decimals; the division is correctly rounded, as the literal is. *)
Definition hundredths (n : Z) : f64 := f64_div (f64_of_Z n) (f64_of_Z 100).

Record Classification := {
  is_compilation : bool;
  confidence : f64;
  kind : option CompilationKind;
  reason : string;
  command_prefix : option str;
  extracted_command : option str }.

Definition not_compilation (reason : string) : Classification :=
  {| is_compilation := false; confidence := hundredths 0; kind := None; reason := reason;
     command_prefix := None; extracted_command := None |}.

Definition compilation (kind : CompilationKind) (confidence : Z) (reason : string) :
    Classification :=
  {| is_compilation := true; confidence := hundredths confidence; kind := Some kind;
     reason := reason; command_prefix := None; extracted_command := None |}.

Definition compound_compilation (kind : CompilationKind) (confidence : f64) (reason : string)
    (prefix extracted : str) : Classification :=
  {| is_compilation := true; confidence := confidence; kind := Some kind; reason := reason;
     command_prefix := Some prefix; extracted_command := Some extracted |}.

Definition COMPILATION_KEYWORDS : list string :=
  ["cargo"; "cargo-zigbuild"; "rustc"; "gcc"; "g++"; "clang"; "clang++"; "make"; "cmake";
   "ninja"; "meson"; "cc"; "c++"; "bun"; "nextest"; "nix"; "nix-build"; "go"; "tsc"; "npx"].

Definition NEVER_INTERCEPT : list string :=
  ["cargo install"; "cargo publish"; "cargo login"; "cargo fmt"; "cargo fix"; "cargo clean";
   "cargo new"; "cargo init"; "cargo add"; "cargo remove"; "cargo update";
   "cargo generate-lockfile"; "cargo watch"; "cargo --version"; "cargo -V";
   "rustc --version"; "rustc -V"; "gcc --version"; "gcc -v"; "clang --version"; "clang -v";
   "make --version"; "make -v"; "cmake --version";
   "bun install"; "bun add"; "bun remove"; "bun link"; "bun unlink"; "bun pm"; "bun init";
   "bun create"; "bun upgrade"; "bun completions"; "bun run"; "bun build"; "bun --help";
   "bun -h"; "bun --version"; "bun -v"; "bun dev"; "bun repl";
   "cargo nextest list"; "cargo nextest archive"; "cargo nextest show";
   "go get"; "go mod"; "go work"; "go install"; "go run"; "go generate"; "go fmt"; "go clean";
   "go env"; "go doc"; "go version"; "go tool"; "go list";
   "tsc --version"; "tsc -v"; "tsc --init"].

(** ** Tier 2 and 3 *)

Definition command_word_matches (cmd : str) (keyword : string) : bool :=
  match strip_prefix (str_bytes keyword) cmd with
  | Some rest => bool_decide (rest = []) || starts_with_ws rest
  | None => false
  end.

Definition starts_with_compilation_command (cmd : str) : bool :=
  existsb (command_word_matches (trim_start cmd)) COMPILATION_KEYWORDS.

Definition matches_pattern (normalized : str) (pattern : string) : bool :=
  match strip_prefix (str_bytes pattern) normalized with
  | Some rest => bool_decide (rest = []) || (peek rest =? SPACE)
  | None => false
  end.

(** ** Tier 4 *)

(** A command word: alone, or followed by a space. *)
Definition starts_word (cmd : str) (w : string) : bool :=
  starts_lit cmd (w ++ " ")%string || is_lit cmd w.

Fixpoint positional_from (value_flags : list string) (skip : bool) (toks : list str) : list str :=
  match toks with
  | [] => []
  | tok :: toks =>
      if skip then positional_from value_flags false toks
      else if in_lits tok value_flags then positional_from value_flags true toks
      else if (peek tok =? DASH) || contains_byte EQUALS tok then
        positional_from value_flags false toks
      else tok :: positional_from value_flags false toks
  end.
Definition positional_build_targets (cmd : str) (value_flags : list string) : list str :=
  positional_from value_flags false (tail (split_whitespace cmd)).

Definition MAKE_VALUE_FLAGS : list string :=
  ["-f"; "-C"; "-I"; "-o"; "-W"; "--file"; "--directory"; "--include-dir"].
Definition MAKE_MAINTENANCE_TARGETS : list string := ["clean"; "install"; "distclean"; "uninstall"].
Definition NINJA_VALUE_FLAGS : list string := ["-C"; "-f"; "-j"; "-k"; "-l"; "-d"; "-t"; "-w"].
Definition CARGO_VALUE_FLAGS : list string := ["--color"; "-Z"; "-C"; "--config"].
Definition NIX_GLOBAL_VALUE_FLAGS : list string :=
  ["--extra-experimental-features"; "--experimental-features"; "--log-format"; "--max-jobs";
   "-j"; "--cores"; "--builders"; "--store"; "--file"; "-f"; "-I"; "--include"].

Fixpoint eq_ignore_ascii_case (a b : str) : bool :=
  match a, b with
  | [], [] => true
  | x :: a, y :: b =>
      (to_ascii_lowercase x =? to_ascii_lowercase y) && eq_ignore_ascii_case a b
  | _, _ => false
  end.

Fixpoint tsc_tokens (no_emit : bool) (tokens : list str) : option bool :=
  match tokens with
  | [] => Some no_emit
  | token :: tokens =>
      if in_lits token ["-w"; "--watch"; "--watchFile"] then None
      else tsc_tokens (no_emit || eq_ignore_ascii_case token (str_bytes "--noemit")) tokens
  end.

Definition classify_tsc (args : str) : Classification :=
  match tsc_tokens false (split_whitespace args) with
  | None => not_compilation "tsc --watch is interactive (not intercepted)"
  | Some false =>
      not_compilation "tsc without --noEmit emits output files locally (not intercepted)"
  | Some true => compilation Tsc 95 "tsc --noEmit typecheck"
  end.

Definition classify_go (cmd : str) : Classification :=
  match tail (split_whitespace cmd) with
  | [] => not_compilation "bare `go` is not a compilation command"
  | subcommand :: args =>
      if is_lit subcommand "build" then
        if existsb (fun a => is_lit a "-o" || starts_lit a "-o=" || is_lit a "--output") args
        then not_compilation "go build -o emits a local binary (not intercepted)"
        else compilation GoBuild 95 "go build command"
      else if is_lit subcommand "test" then
        if existsb (fun a => is_lit a "-exec" || starts_lit a "-exec=") args
        then not_compilation "go test -exec runs a local wrapper (not intercepted)"
        else if existsb (fun a => is_lit a "-c") args
        then not_compilation "go test -c emits a local test binary (not intercepted)"
        else compilation GoTest 95 "go test command"
      else if is_lit subcommand "vet" then compilation GoVet 95 "go vet command"
      else not_compilation "go subcommand is not a compilation command"
  end.

(** The loop that skips [+toolchain] and global flags to the subcommand; with it the
    tokens behind it. *)
Fixpoint cargo_subcommand (skip : bool) (tokens : list str) : option (str * list str) :=
  match tokens with
  | [] => None
  | tok :: tokens =>
      if skip then cargo_subcommand false tokens
      else if peek tok =? PLUS then cargo_subcommand false tokens
      else if peek tok =? DASH then
        cargo_subcommand (negb (contains_byte EQUALS tok) && in_lits tok CARGO_VALUE_FLAGS) tokens
      else Some (tok, tokens)
  end.

Definition classify_cargo (cmd : str) : Classification :=
  match cargo_subcommand false (tail (split_whitespace cmd)) with
  | None => not_compilation "bare cargo command"
  | Some (subcommand, tokens) =>
      if in_lits subcommand ["build"; "b"] then compilation CargoBuild 95 "cargo build"
      else if in_lits subcommand ["test"; "t"] then compilation CargoTest 95 "cargo test"
      else if in_lits subcommand ["check"; "c"] then compilation CargoCheck 90 "cargo check"
      else if is_lit subcommand "clippy" then compilation CargoClippy 90 "cargo clippy"
      else if is_lit subcommand "doc" then compilation CargoDoc 85 "cargo doc"
      else if in_lits subcommand ["run"; "r"] then
        compilation CargoBuild 85 "cargo run (includes build)"
      else if is_lit subcommand "bench" then compilation CargoBench 90 "cargo bench"
      else if is_lit subcommand "zigbuild" then compilation CargoZigbuild 95 "cargo zigbuild"
      else if is_lit subcommand "nextest" then
        match tokens with
        | [] => not_compilation "bare cargo nextest without subcommand"
        | nextest_sub :: _ =>
            if in_lits nextest_sub ["run"; "r"]
            then compilation CargoNextest 95 "cargo nextest run"
            else not_compilation "cargo nextest subcommand not interceptable"
        end
      else not_compilation "cargo subcommand not interceptable"
  end.

Definition classify_cargo_zigbuild (cmd : str) : Classification :=
  match cargo_subcommand false (tail (split_whitespace cmd)) with
  | None => not_compilation "bare cargo-zigbuild command"
  | Some (subcommand, _) =>
      if in_lits subcommand ["zigbuild"; "build"; "b"]
      then compilation CargoZigbuild 95 "cargo-zigbuild build"
      else not_compilation "cargo-zigbuild subcommand not interceptable"
  end.

Fixpoint nix_subcommand (skip : nat) (tokens : list str) : option (str * list str) :=
  match tokens with
  | [] => None
  | tok :: tokens =>
      match skip with
      | S k => nix_subcommand k tokens
      | O =>
          if peek tok =? DASH then
            nix_subcommand
              (if is_lit tok "--option" then 2
               else if negb (contains_byte EQUALS tok) && in_lits tok NIX_GLOBAL_VALUE_FLAGS
               then 1 else 0)%nat tokens
          else Some (tok, tokens)
      end
  end.

Definition classify_nix (cmd : str) : Classification :=
  if starts_word cmd "nix-build" then
    compilation NixBuild 90 "nix-build (legacy) derivation build"
  else
    match nix_subcommand 0 (tail (split_whitespace cmd)) with
    | None => not_compilation "bare nix command (no subcommand)"
    | Some (subcommand, rest) =>
        if existsb (fun t => in_lits t ["--help"; "-h"]) rest then
          not_compilation "nix --help (not a build)"
        else
          let has_command_flag := existsb (fun t => in_lits t ["-c"; "--command"]) rest in
          if is_lit subcommand "build" then compilation NixBuild 90 "nix build derivation"
          else if is_lit subcommand "flake" then
            match List.find (fun t => negb (peek t =? DASH)) rest with
            | Some flake_sub =>
                if is_lit flake_sub "check" then
                  compilation NixBuild 90 "nix flake check (evaluates + builds all outputs)"
                else not_compilation "nix flake subcommand is not a build"
            | None => not_compilation "nix flake subcommand is not a build"
            end
          else if in_lits subcommand ["develop"; "shell"] then
            if has_command_flag then
              compilation NixBuild 90
                (if is_lit subcommand "develop"
                 then "nix develop -c (non-interactive command in dev shell)"
                 else "nix shell -c (non-interactive command with packages)")
            else not_compilation "interactive nix shell (no -c/--command; not intercepted)"
          else not_compilation "nix subcommand is not an offloadable build"
    end.

(** [cmd.contains(" -c ") || cmd.contains(" -o ") || ...]. *)
Definition mentions (cmd : str) (needles : list string) : bool := existsb (contains_lit cmd) needles.

Definition classify_make (cmd : str) : Classification :=
  if existsb (fun target => in_lits target MAKE_MAINTENANCE_TARGETS)
       (positional_build_targets cmd MAKE_VALUE_FLAGS)
  then not_compilation "make maintenance command"
  else compilation Make 85 "make build".

(** [raw.windows(2).any(|w| w[0] == "-t" && w[1] == "clean")]. *)
Fixpoint has_clean_tool (raw : list str) : bool :=
  match raw with
  | a :: ((b :: _) as raw') => (is_lit a "-t" && is_lit b "clean") || has_clean_tool raw'
  | _ => false
  end.

Definition classify_ninja (cmd : str) : Classification :=
  if has_clean_tool (split_whitespace cmd)
     || existsb (fun t => is_lit t "clean") (positional_build_targets cmd NINJA_VALUE_FLAGS)
  then not_compilation "ninja clean"
  else compilation Ninja 90 "ninja build".

(** The tail of [classify_full], from the Bun commands on. *)
Definition classify_go_or_tsc (cmd : str) : Classification :=
  if starts_lit cmd "go " then classify_go cmd
  else
    match strip_prefix (str_bytes "tsc ") cmd with
    | Some rest => classify_tsc rest
    | None =>
        match strip_prefix (str_bytes "npx tsc ") cmd with
        | Some rest => classify_tsc rest
        | None => not_compilation "no matching pattern"
        end
    end.

Definition watches (args : list str) : bool := existsb (fun a => in_lits a ["-w"; "--watch"]) args.

Definition classify_bun_or_later (cmd : str) : Classification :=
  match split_whitespace cmd with
  | bun :: sub :: args =>
      if is_lit bun "bun" then
        if is_lit sub "test" then
          if watches args
          then not_compilation "bun test --watch is interactive (not intercepted)"
          else compilation BunTest 95 "bun test command"
        else if is_lit sub "typecheck" then
          if watches args
          then not_compilation "bun typecheck --watch is interactive (not intercepted)"
          else compilation BunTypecheck 95 "bun typecheck command"
        else if is_lit sub "x" then not_compilation "bun x runs arbitrary packages"
        else classify_go_or_tsc cmd
      else classify_go_or_tsc cmd
  | _ => classify_go_or_tsc cmd
  end.

(** From the build systems that may fall through to the next test. *)
Definition classify_build_system (cmd : str) : Classification :=
  if starts_word cmd "make" then classify_make cmd
  else if starts_word cmd "cmake"
          && existsb (fun t => is_lit t "--build" || starts_lit t "--build=")
               (tail (split_whitespace cmd)) then
    compilation CmakeBuild 90 "cmake --build"
  else if starts_word cmd "ninja" then classify_ninja cmd
  else if starts_word cmd "meson"
          && match List.find (fun t => negb (peek t =? DASH)) (tail (split_whitespace cmd)) with
             | Some sub => is_lit sub "compile"
             | None => false
             end then
    compilation Meson 85 "meson compile"
  else if starts_word cmd "nix-build" || starts_word cmd "nix" then classify_nix cmd
  else classify_bun_or_later cmd.

Definition classify_full (cmd : str) : Classification :=
  if starts_word cmd "cargo" then classify_cargo cmd
  else if starts_word cmd "cargo-zigbuild" then classify_cargo_zigbuild cmd
  else if starts_word cmd "rustc" then compilation Rustc 95 "rustc invocation"
  else if starts_lit cmd "gcc " && mentions cmd [" -c "; " -o "; ".c"] then
    compilation Gcc 90 "gcc compilation"
  else if starts_lit cmd "g++ " && mentions cmd [" -c "; " -o "; ".cpp"; ".cc"] then
    compilation Gpp 90 "g++ compilation"
  else if starts_lit cmd "clang " && negb (starts_lit cmd "clang++ ")
          && mentions cmd [" -c "; " -o "; ".c"] then
    compilation Clang 90 "clang compilation"
  else if starts_lit cmd "clang++ " && mentions cmd [" -c "; " -o "; ".cpp"; ".cc"] then
    compilation Clangpp 90 "clang++ compilation"
  else if starts_lit cmd "cc " && mentions cmd [" -c "; " -o "; ".c"] then
    compilation Gcc 85 "cc compilation"
  else if starts_lit cmd "c++ " && mentions cmd [" -c "; " -o "; ".cpp"; ".cc"] then
    compilation Gpp 85 "c++ compilation"
  else classify_build_system cmd.

(** ** The tiers *)

(** Tier 1 to 4: a command taken as one simple command. *)
Definition classify_single (cmd : str) : Classification :=
  match check_structure cmd with
  | Some reason => not_compilation reason
  | None =>
      let normalized := normalize_command cmd in
      if negb (starts_with_compilation_command normalized) then
        not_compilation "no compilation keyword"
      else if existsb (matches_pattern normalized) NEVER_INTERCEPT then
        not_compilation "matches never-intercept pattern"
      else classify_full normalized
  end.

(** [classify_command_inner] at depth 1. *)
Definition classify_inner_1 (cmd : str) : Classification :=
  match trim cmd with
  | [] => not_compilation "empty command"
  | cmd => classify_single cmd
  end.

Definition MAX_SPLIT_INPUT_LEN : Z := 10 * 1024.

Definition try_classify_compound_command (cmd : str) : option Classification :=
  if negb (contains_lit cmd "&&") then None
  else if contains_byte PIPE cmd then None
  else if has_file_redirect cmd then None
  else if contains_byte LPAREN cmd || contains_byte BACKTICK cmd || contains_lit cmd "$(" then None
  else if contains_byte SEMI cmd then None
  else
    segments ← split_and_chain cmd;
    last_segment ← trim <$> last segments;
    if bool_decide (last_segment = []) then None
    else
      let last_classification := classify_inner_1 last_segment in
      if negb (is_compilation last_classification) then None
      else if Nat.eqb (length segments) 1 then None
      else
        last_pos ← rfind last_segment cmd;
        k ← kind last_classification;
        Some (compound_compilation k (confidence last_classification)
                "compound command with compilation suffix" (take last_pos cmd) last_segment).

Definition try_classify_benign_suffix_command (cmd : str) : option Classification :=
  let cmd := trim cmd in
  if existsb (fun b => (b =? NL) || (b =? CR)) cmd then None
  else if contains_lit cmd "&&" || contains_lit cmd "||" || contains_byte SEMI cmd then None
  else if contains_byte LPAREN cmd || contains_byte BACKTICK cmd || contains_lit cmd "$(" then None
  else
    boundary ← find_first_structural_boundary cmd;
    let leading := trim (take (byte_pos boundary) cmd) in
    let suffix := drop (byte_pos boundary) cmd in
    if bool_decide (leading = []) then None
    else if negb (suffix_is_benign (Shell.kind boundary) suffix) then None
    else
      let leading_classification := classify_inner_1 leading in
      if negb (is_compilation leading_classification) then None
      else
        k ← kind leading_classification;
        Some (compound_compilation k (confidence leading_classification)
                "compilation command with benign trailing redirect/pipe/background" [] cmd).

(** [bash -c] wrappers recurse into the text they carry, at depth 0. *)
Section wrapped.
Variable classify_inner_0 : str -> Classification.

Definition try_classify_wrapped_command (cmd : str) : option Classification :=
  let cmd := trim cmd in
  rest ← strip_shell_dash_c_prefix cmd;
  inner ← extract_single_quoted_argument (trim_start rest);
  if bool_decide (trim inner = []) then None
  else
    let inner_classification := classify_inner_0 inner in
    if negb (is_compilation inner_classification) then None
    else
      let '(prefix, extracted) :=
        match command_prefix inner_classification, extracted_command inner_classification with
        | Some p, Some e => (p, e)
        | _, _ => ([], trim inner)
        end in
      k ← kind inner_classification;
      Some (compound_compilation k (confidence inner_classification)
              "shell -c wrapper with compilation command" prefix extracted).

(** The three attempts of Tier 0.5 and 0.6, in their order. *)
Definition try_structured (cmd : str) : option Classification :=
  if Z.of_nat (length cmd) <? MAX_SPLIT_INPUT_LEN then
    match try_classify_compound_command cmd with
    | Some c => Some c
    | None =>
        match try_classify_wrapped_command cmd with
        | Some c => Some c
        | None => try_classify_benign_suffix_command cmd
        end
    end
  else None.

(** [classify_command_inner] at depth 0. *)
Definition classify_inner_0_body (cmd : str) : Classification :=
  match trim cmd with
  | [] => not_compilation "empty command"
  | cmd => match try_structured cmd with Some c => c | None => classify_single cmd end
  end.
End wrapped.

(** The recursion through wrappers. *)
Fixpoint classify_inner_0 (fuel : nat) (cmd : str) : Classification :=
  match fuel with
  | O => not_compilation "out of fuel"
  | S fuel => classify_inner_0_body (classify_inner_0 fuel) cmd
  end.

(** Every unwrapping lowers the number of ASCII bytes. *)
Definition classify_command (cmd : str) : Classification :=
  classify_inner_0 (S (ascii_count cmd)) cmd.

Definition declined_compilation_due_to_structure (cmd : str) : option string :=
  match trim cmd with
  | [] => None
  | trimmed =>
      if is_compilation (classify_command trimmed) then None
      else
        reason ← check_structure trimmed;
        if starts_with_compilation_command (normalize_command trimmed) then Some reason else None
  end.

(** * Properties *)

(** ** The recursion through wrappers ends *)

Lemma wrapped_ext f g cmd :
  (forall inner, (ascii_count inner < ascii_count cmd)%nat -> f inner = g inner) ->
  try_classify_wrapped_command f cmd = try_classify_wrapped_command g cmd.
Proof.
  intros Hfg. unfold try_classify_wrapped_command.
  destruct (strip_shell_dash_c_prefix (trim cmd)) as [rest|] eqn:Er; [|done]. cbn [mbind option_bind].
  destruct (extract_single_quoted_argument (trim_start rest)) as [inner|] eqn:Ei; [|done].
  cbn [mbind option_bind]. rewrite Hfg; [done|].
  pose proof (unwrap_ascii _ _ _ Er Ei). pose proof (ascii_count_trim cmd). lia.
Qed.

Lemma body_ext f g cmd :
  (forall inner, (ascii_count inner < ascii_count cmd)%nat -> f inner = g inner) ->
  classify_inner_0_body f cmd = classify_inner_0_body g cmd.
Proof.
  intros Hfg. unfold classify_inner_0_body. destruct (trim cmd) as [|b s] eqn:Et; [done|].
  unfold try_structured. rewrite (wrapped_ext f g); [done|]. intros inner Hi. apply Hfg.
  rewrite <- Et in Hi. pose proof (ascii_count_trim cmd). lia.
Qed.

Lemma classify_inner_0_fuel f1 f2 cmd :
  (ascii_count cmd < f1)%nat -> (ascii_count cmd < f2)%nat ->
  classify_inner_0 f1 cmd = classify_inner_0 f2 cmd.
Proof.
  revert f2 cmd. induction f1 as [|f1 IH]; intros f2 cmd H1 H2; [lia|].
  destruct f2 as [|f2]; [lia|]. cbn [classify_inner_0]. apply body_ext. intros inner Hi.
  apply IH; lia.
Qed.

Lemma classify_command_eq cmd :
  classify_command cmd = classify_inner_0_body classify_command cmd.
Proof.
  unfold classify_command at 1. cbn [classify_inner_0]. apply body_ext. intros inner Hi.
  unfold classify_command. apply classify_inner_0_fuel; lia.
Qed.

(** ** What an accepted command is *)

Lemma classify_single_inv s :
  is_compilation (classify_single s) = true ->
  check_structure s = None
  /\ starts_with_compilation_command (normalize_command s) = true
  /\ existsb (matches_pattern (normalize_command s)) NEVER_INTERCEPT = false
  /\ classify_single s = classify_full (normalize_command s).
Proof.
  unfold classify_single. destruct (check_structure s); [done|].
  destruct (starts_with_compilation_command _); [|done]. cbn [negb].
  by destruct (existsb _ _).
Qed.

Lemma classify_inner_1_single s : trim s = s -> s <> [] -> classify_inner_1 s = classify_single s.
Proof. intros Ht Hs. unfold classify_inner_1. rewrite Ht. by destruct s. Qed.

(** The classification of a rewritten command. *)
Definition rewritten (cmd : str) (c : Classification) : str :=
  match command_prefix c, extracted_command c with
  | Some p, Some e => p ++ e
  | _, _ => cmd
  end.

(** A build names a tool, whose name starts with a letter. *)
Definition starts_lower (w : string) : bool :=
  match str_bytes w with b :: _ => (97 <=? b) && (b <=? 122) | [] => false end.

Lemma keywords_lower : forallb starts_lower COMPILATION_KEYWORDS = true.
Proof. vm_compute. reflexivity. Qed.

Lemma keyword_lower w rest : In w COMPILATION_KEYWORDS -> ~ Forall (fun b => ~ lower b) (str_bytes w ++ rest).
Proof.
  intros Hw. pose proof keywords_lower as Hk. rewrite forallb_forall in Hk. specialize (Hk w Hw). unfold starts_lower in Hk.
  destruct (str_bytes w) as [|b l]; [done|]. cbn [app]. intros Hf. inversion Hf; subst. unfold lower in *. lia.
Qed.

Lemma suffix_lower s t : s `suffix_of` t -> Forall (fun b => ~ lower b) t -> Forall (fun b => ~ lower b) s.
Proof. intros [x ->] H. by apply Forall_app in H as [_ H]. Qed.

Lemma trim_lower s : Forall (fun b => ~ lower b) s -> Forall (fun b => ~ lower b) (trim s).
Proof. destruct (trim_split s) as (v & w & Hs & _). rewrite Hs at 1. rewrite !Forall_app. by intros (_ & H & _). Qed.

Lemma keyword_starts cmd :
  starts_with_compilation_command cmd = true -> ~ Forall (fun b => ~ lower b) cmd.
Proof.
  unfold starts_with_compilation_command. rewrite existsb_exists. intros (w & Hw & Hm) Hall. unfold command_word_matches in Hm.
  destruct (strip_prefix (str_bytes w) (trim_start cmd)) as [rest|] eqn:E; [|done]. apply strip_prefix_spec in E.
  apply (keyword_lower w rest Hw). rewrite <- E. eapply suffix_lower; [apply trim_start_suffix|done].
Qed.

Lemma single_lower e : is_compilation (classify_single e) = true -> ~ Forall (fun b => ~ lower b) e.
Proof.
  intros Hc Hall. destruct (classify_single_inv e Hc) as (_ & Hk & _). apply (keyword_starts _ Hk).
  eapply suffix_lower; [apply (proj2 (normalize_command_spec e))|]. by apply trim_lower.
Qed.

Lemma compound_inv cmd c :
  trim_end cmd = cmd -> try_classify_compound_command cmd = Some c ->
  is_compilation c = true /\
  exists p e r pieces l,
    command_prefix c = Some p /\ extracted_command c = Some e
    /\ cmd = p ++ e ++ r /\ dangling r
    /\ and_pieces cmd pieces /\ commands pieces = l ++ [e] /\ l <> []
    /\ is_compilation (classify_single e) = true /\ kind c = kind (classify_single e)
    /\ confidence c = confidence (classify_single e)
    /\ has_file_redirect cmd = false
    /\ Forall (fun b => contains_byte b cmd = false) [PIPE; LPAREN; BACKTICK; SEMI].
Proof.
  intros Ht. unfold try_classify_compound_command.
  destruct (contains_lit cmd "&&") eqn:Eand; [|done]. cbn [negb].
  destruct (contains_byte PIPE cmd) eqn:Epipe; [done|].
  destruct (has_file_redirect cmd) eqn:Eredir; [done|].
  destruct (contains_byte LPAREN cmd) eqn:Eparen; [done|].
  destruct (contains_byte BACKTICK cmd) eqn:Etick; [done|].
  destruct (contains_lit cmd "$(") eqn:Edollar; [done|]. cbn [orb].
  destruct (contains_byte SEMI cmd) eqn:Esemi; [done|].
  destruct (split_and_chain cmd) as [segments|] eqn:Esp; [|done]. cbn [mbind option_bind].
  destruct (split_and_chain_pieces _ _ Esp) as (pieces & Hp & Hseg & Hlen).
  destruct (last segments) as [e|] eqn:Elast; [|done].
  apply last_Some in Elast as [l Hl]. cbn [fmap option_fmap option_map mbind option_bind].
  assert (trim e = e) as Hte.
  { assert (e ∈ commands pieces) as Hin by (rewrite <- Hseg, Hl; set_solver).
    unfold commands in Hin. apply list_elem_of_bind in Hin as (x & Hx & _). by apply push_segment_trimmed in Hx. }
  rewrite Hte. case_bool_decide as Hne; [done|].
  rewrite classify_inner_1_single by done.
  destruct (is_compilation (classify_single e)) eqn:Ec; [|done]. cbn [negb].
  destruct (Nat.eqb _ 1); [done|]. destruct (rfind e cmd) as [i|] eqn:Ei; [|done].
  cbn [mbind option_bind]. destruct (kind (classify_single e)) as [k|] eqn:Ek; [|done].
  cbn [mbind option_bind]. intros [= <-]. split; [done|]. rewrite Hl in Hseg, Hlen.
  destruct (chain_text cmd pieces l e Ht Hp (eq_sym Hseg)) as (p & r & Hcmd & Hr).
  assert (i = length p) as ->.
  { rewrite Hcmd in Ei. eapply rfind_last; [done|by apply dangling_lower|by apply single_lower]. }
  exists p, e, r, pieces, l. cbn. split_and!; try done; [by rewrite Hcmd, take_app_length| |by repeat constructor].
  intros ->. cbn in Hlen. lia.
Qed.

(** What may follow a build that is offloaded with its suffix: [&] at the very end, output
    redirects, or one pipe into a pager; behind it no exposed pipe, [<] or [&] that is not
    behind a [>]. *)
Inductive benign_tail : str -> Prop :=
  | tail_background w1 w2 :
      is_blank w1 = true -> is_blank w2 = true -> benign_tail (w1 ++ AMP :: w2)
  | tail_redirect w r :
      is_blank w = true -> everywhere quiet (GREATER :: r) -> benign_tail (w ++ GREATER :: r)
  | tail_pipe w r pager args :
      is_blank w = true ->
      split_whitespace (trim r) = pager :: args ->
      in_lits (after_last SLASH pager) BENIGN_PAGER_COMMANDS = true ->
      everywhere quiet (trim r) -> benign_tail (w ++ PIPE :: r).

Lemma trim_start_matches_single c s :
  peek s <> c -> trim_start_matches c (c :: s) = s.
Proof.
  intros H. cbn [trim_start_matches]. rewrite Z.eqb_refl. destruct s as [|b s]; [done|].
  cbn in *. by rewrite (proj2 (Z.eqb_neq b c)).
Qed.

Lemma suffix_is_benign_tail w k r :
  is_blank w = true -> unchained (boundary_byte k :: r) ->
  suffix_is_benign k (boundary_byte k :: r) = true -> benign_tail (w ++ boundary_byte k :: r).
Proof.
  intros Hw Hun. pose proof Hun as (_ & Ha & Ho). destruct k; cbn [suffix_is_benign boundary_byte].
  - rewrite trim_start_matches_single by (destruct r; cbn; [done|intros ->; by cbn in Ho]).
    destruct (trim r) as [|b rhs] eqn:Et; [done|].
    destruct (split_whitespace (b :: rhs)) as [|pager args] eqn:Ew; [done|].
    intros [Hp Hd]%andb_prop. apply negb_true_iff in Hd.
    rewrite <- Et in *. apply (tail_pipe w r pager args); try done.
    apply disallowed_false_quiet; [|done].
    assert (exists x y, r = x ++ trim r ++ y) as (x & y & Hr).
    { destruct (trim_start_suffix r) as [x Hx]. destruct (trim_end_prefix (trim_start r)) as [y Hy].
      exists x, y. unfold trim. congruence. }
    destruct Hun as (Hp' & _ & _). split_and!.
    + rewrite Hr in Hp'. set_solver.
    + apply not_true_iff_false. intros (l & q & Hc)%contains_spec.
      apply not_true_iff_false in Ha. destruct Ha. apply contains_spec.
      exists (PIPE :: x ++ l), (q ++ y). rewrite Hr, Hc. cbn. by rewrite <- !app_assoc.
    + apply not_true_iff_false. intros (l & q & Hc)%contains_spec.
      apply not_true_iff_false in Ho. destruct Ho. apply contains_spec.
      exists (PIPE :: x ++ l), (q ++ y). rewrite Hr, Hc. cbn. by rewrite <- !app_assoc.
  - rewrite trim_start_matches_single by (destruct r; cbn; [done|intros ->; by cbn in Ha]).
    destruct (trim r) eqn:Et; [|done]. intros _. apply tail_background; [done|by apply trim_nil].
  - intros Hd%negb_true_iff. apply tail_redirect; [done|]. by apply disallowed_false_quiet.
  - done.
Qed.

Lemma benign_suffix_inv cmd c :
  trim cmd = cmd -> try_classify_benign_suffix_command cmd = Some c ->
  is_compilation c = true /\ command_prefix c = Some [] /\ extracted_command c = Some cmd
  /\ exists core tail,
       cmd = core ++ tail /\ benign_tail tail
       /\ is_compilation (classify_single core) = true /\ kind c = kind (classify_single core)
       /\ confidence c = confidence (classify_single core)
       /\ Forall (fun b => contains_byte b cmd = false) [NL; CR; LPAREN; BACKTICK; SEMI].
Proof.
  intros Ht. unfold try_classify_benign_suffix_command. rewrite Ht.
  destruct (existsb _ cmd) eqn:Enl; [done|].
  destruct (contains_lit cmd "&&") eqn:Eand; [done|].
  destruct (contains_lit cmd "||") eqn:Eor; [done|].
  destruct (contains_byte SEMI cmd) eqn:Esemi; [done|].
  destruct (contains_byte LPAREN cmd) eqn:Eparen; [done|].
  destruct (contains_byte BACKTICK cmd) eqn:Etick; [done|].
  destruct (contains_lit cmd "$(") eqn:Edollar; [done|]. cbn [orb].
  assert (unchained cmd) as Hun by (split_and!; [by apply contains_byte_false|done|done]).
  pose proof (boundary_from_found unquoted 0 0 cmd Hun) as Hfound.
  fold (find_first_structural_boundary cmd) in Hfound.
  destruct (find_first_structural_boundary cmd) as [[pos k]|]; [|done].
  cbn [boundary_found Shell.kind byte_pos mbind option_bind] in *.
  destruct Hfound as (pre & post & Hcmd & -> & _ & _ & _). cbn [Nat.add].
  assert (take (length pre) cmd = pre) as -> by (by rewrite Hcmd, take_app_length).
  assert (drop (length pre) cmd = boundary_byte k :: post) as -> by (by rewrite Hcmd, drop_app_length).
  case_bool_decide as Hne; [done|].
  destruct (suffix_is_benign k _) eqn:Eben; [|done]. cbn [negb].
  rewrite classify_inner_1_single by (done || apply trim_idemp).
  destruct (is_compilation (classify_single (trim pre))) eqn:Ec; [|done]. cbn [negb].
  destruct (kind (classify_single (trim pre))) as [kd|] eqn:Ek; [|done].
  cbn [mbind option_bind]. intros [= <-]. split_and!; [done..|].
  assert (trim_start pre = pre) as Htp.
  { apply trim_start_fix. pose proof (trim_ws cmd) as Hws. rewrite Ht, Hcmd in Hws.
    destruct (ws_len pre) eqn:E; [done|]. rewrite ws_len_app in Hws; congruence. }
  destruct (trim_end_split pre) as (w & Hpre & Hw).
  assert (trim pre = trim_end pre) as Htrim by (unfold trim; by rewrite Htp).
  exists (trim pre), (w ++ boundary_byte k :: post). split_and!; try done.
  - rewrite Htrim, app_assoc, <- Hpre. done.
  - apply suffix_is_benign_tail; [done| |done]. eapply unchained_suffix; [|exact Hun].
    rewrite Hcmd. by eexists.
  - assert (forall b, (b = NL \/ b = CR) -> contains_byte b cmd = false) as Hline.
    { intros b Hb. apply contains_byte_false. intros Hin. apply not_true_iff_false in Enl.
      apply Enl, existsb_exists. exists b. split; [by apply list_elem_of_In|lia]. }
    repeat constructor; auto.
Qed.

Lemma wrapped_inv f cmd c :
  trim cmd = cmd -> try_classify_wrapped_command f cmd = Some c ->
  is_compilation c = true /\
  exists rest inner,
    strip_shell_dash_c_prefix cmd = Some rest
    /\ extract_single_quoted_argument (trim_start rest) = Some inner
    /\ is_compilation (f inner) = true /\ kind c = kind (f inner)
    /\ confidence c = confidence (f inner)
    /\ ((exists p e, command_prefix (f inner) = Some p /\ extracted_command (f inner) = Some e
           /\ command_prefix c = Some p /\ extracted_command c = Some e)
        \/ (command_prefix (f inner) = None \/ extracted_command (f inner) = None)
           /\ command_prefix c = Some [] /\ extracted_command c = Some (trim inner)).
Proof.
  intros Ht. unfold try_classify_wrapped_command. rewrite Ht.
  destruct (strip_shell_dash_c_prefix cmd) as [rest|] eqn:Er; [|done]. cbn [mbind option_bind].
  destruct (extract_single_quoted_argument (trim_start rest)) as [inner|] eqn:Ei; [|done].
  cbn [mbind option_bind]. case_bool_decide as Hne; [done|].
  destruct (is_compilation (f inner)) eqn:Ec; [|done]. cbn [negb].
  destruct (command_prefix (f inner)) as [p|] eqn:Ep, (extracted_command (f inner)) as [e|] eqn:Ee;
    (destruct (kind (f inner)) as [k|] eqn:Ek; [|done]); cbn [mbind option_bind];
    intros [= <-]; (split; [done|]); exists rest, inner;
    rewrite ?Ep, ?Ee; split_and!; try done; first [left; by eexists _, _|right; auto].
Qed.

(** [unwraps cmd u]: [u] is what some number of [bash -c] wrappers around [cmd] carry. *)
Inductive unwraps : str -> str -> Prop :=
  | unwraps_not s : unwraps s s
  | unwraps_shell s rest inner u :
      strip_shell_dash_c_prefix s = Some rest ->
      extract_single_quoted_argument (trim_start rest) = Some inner ->
      unwraps (trim inner) u -> unwraps s u.

(** [shape u core]: the command line [u] is the build [core]; or the [&&]s of it that the
    shell sees cut it into two or more commands (blank pieces aside) of which [core] is the
    last; or it is [core] with a benign tail. *)
Inductive shape : str -> str -> Prop :=
  | shape_single u : shape u u
  | shape_chain u pieces before core :
      and_pieces u pieces -> commands pieces = before ++ [core] -> before <> [] ->
      has_file_redirect u = false ->
      Forall (fun b => contains_byte b u = false) [PIPE; LPAREN; BACKTICK; SEMI] ->
      shape u core
  | shape_tail core tail :
      Forall (fun b => contains_byte b (core ++ tail) = false) [NL; CR; LPAREN; BACKTICK; SEMI] ->
      benign_tail tail -> shape (core ++ tail) core.

(** The ways a command is accepted. *)
Lemma accepted_cases cmd :
  is_compilation (classify_command cmd) = true ->
  let c := classify_command cmd in
  let u := trim cmd in
  try_classify_compound_command u = Some c
  \/ try_classify_wrapped_command classify_command u = Some c
  \/ try_classify_benign_suffix_command u = Some c
  \/ c = classify_single u.
Proof.
  rewrite classify_command_eq. unfold classify_inner_0_body.
  destruct (trim cmd) as [|b s] eqn:Et; [done|]. intros Hc. cbv zeta. revert Hc.
  unfold try_structured. destruct (_ <? _); [|by intros _; do 3 right].
  destruct (try_classify_compound_command _); [by intros _; left|].
  destruct (try_classify_wrapped_command _ _); [by intros _; right; left|].
  destruct (try_classify_benign_suffix_command _); [by intros _; do 2 right; left|].
  by intros _; do 3 right.
Qed.

Lemma classify_full_of_single core :
  is_compilation (classify_single core) = true ->
  everywhere (harmless unquoted 0) core
  /\ starts_with_compilation_command (normalize_command core) = true
  /\ existsb (matches_pattern (normalize_command core)) NEVER_INTERCEPT = false
  /\ is_compilation (classify_full (normalize_command core)) = true.
Proof.
  intros Hc. pose proof (classify_single_inv _ Hc) as (Hs & Hk & Hn & Heq).
  rewrite Heq in Hc. split_and!; try done. by apply check_structure_None.
Qed.

Lemma accepted_core cmd :
  is_compilation (classify_command cmd) = true ->
  exists u core,
    unwraps (trim cmd) u /\ shape u core
    /\ is_compilation (classify_single core) = true
    /\ kind (classify_command cmd) = kind (classify_single core)
    /\ confidence (classify_command cmd) = confidence (classify_single core).
Proof.
  remember (ascii_count cmd) as n eqn:Hn. revert cmd Hn.
  induction n as [n IH] using lt_wf_ind. intros cmd -> Hc.
  pose proof (trim_idemp cmd) as Ht.
  assert (trim_end (trim cmd) = trim cmd) as Hte by apply trim_end_idemp.
  destruct (accepted_cases cmd Hc) as [H|[H|[H|H]]].
  - apply compound_inv in H as (_ & p & e & r & pieces & l & _ & _ & _ & _ & Hpc & Hcs & Hl & He & Hk & Hcf & Hf & Hall); [|done].
    exists (trim cmd), e. split_and!; [constructor|by eapply shape_chain|done..].
  - apply wrapped_inv in H as (_ & rest & inner & Hrest & Hinner & Hci & Hk & Hcf & _); [|done].
    pose proof (unwrap_ascii _ _ _ Hrest Hinner). pose proof (ascii_count_trim cmd).
    destruct (IH (ascii_count inner) ltac:(lia) inner eq_refl Hci) as (u & core & Hu & ? & ? & ? & ?).
    exists u, core. split_and!; [by eapply unwraps_shell|done|done|congruence|congruence].
  - apply benign_suffix_inv in H as (_ & _ & _ & core & tail & Hcmd & Htail & ? & Hk & Hcf & Hall); [|done].
    exists (trim cmd), core. split_and!; [constructor| |done..].
    rewrite Hcmd in Hall |- *. by constructor.
  - exists (trim cmd), (trim cmd). rewrite H in Hc. rewrite H.
    split_and!; [constructor|constructor|done..].
Qed.



(** What Tier 4 answers has no parts, and as a build a kind and one of three
    confidences. *)
Definition plain (c : Classification) : Prop :=
  command_prefix c = None /\ extracted_command c = None
  /\ (is_compilation c = true ->
      is_Some (kind c) /\ In (confidence c) [hundredths 85; hundredths 90; hundredths 95]).

Lemma plain_not r : plain (not_compilation r).
Proof. done. Qed.

Lemma plain_build k n r : In n [85; 90; 95] -> plain (compilation k n r).
Proof.
  intros Hn. split_and!; [done|done|]. intros _. split; [by eexists|].
  by apply (in_map hundredths) in Hn.
Qed.

Ltac plain_cases :=
  repeat case_match; first [apply plain_not | apply plain_build; cbn; tauto].

Lemma classify_cargo_plain s : plain (classify_cargo s).
Proof. unfold classify_cargo. plain_cases. Qed.
Lemma classify_zigbuild_plain s : plain (classify_cargo_zigbuild s).
Proof. unfold classify_cargo_zigbuild. plain_cases. Qed.
Lemma classify_go_or_tsc_plain s : plain (classify_go_or_tsc s).
Proof. unfold classify_go_or_tsc, classify_go, classify_tsc. plain_cases. Qed.
Lemma classify_nix_plain s : plain (classify_nix s).
Proof. unfold classify_nix. plain_cases. Qed.
Lemma classify_bun_plain s : plain (classify_bun_or_later s).
Proof.
  unfold classify_bun_or_later. repeat case_match; try apply classify_go_or_tsc_plain; plain_cases.
Qed.
Lemma classify_build_system_plain s : plain (classify_build_system s).
Proof.
  unfold classify_build_system, classify_make, classify_ninja.
  repeat case_match; try apply classify_nix_plain; try apply classify_bun_plain; plain_cases.
Qed.

Lemma classify_full_plain s : plain (classify_full s).
Proof.
  unfold classify_full. repeat case_match;
    try apply classify_cargo_plain; try apply classify_zigbuild_plain;
    try apply classify_build_system_plain; plain_cases.
Qed.

Lemma classify_single_plain s : plain (classify_single s).
Proof.
  unfold classify_single. repeat case_match; try apply plain_not. apply classify_full_plain.
Qed.

(** The prefix [p] and the part [e] to run of a command line [u] around the build [core]: all
    of it, which is the build with nothing or a benign tail behind it; or the build that
    ends a chain, with what is before it as the prefix, and behind it only [&&] that
    dangle. *)
Definition runs (u core p e : str) : Prop :=
  (p = [] /\ e = u /\ exists tail, u = core ++ tail /\ (tail = [] \/ benign_tail tail))
  \/ (e = core /\ exists r, u = p ++ core ++ r /\ dangling r).

(** The parts of an accepted command. *)
Lemma accepted_text cmd :
  is_compilation (classify_command cmd) = true ->
  exists u core,
    unwraps (trim cmd) u /\ shape u core /\ is_compilation (classify_single core) = true /\
    match command_prefix (classify_command cmd), extracted_command (classify_command cmd) with
    | Some p, Some e => runs u core p e
    | _, _ => u = trim cmd /\ core = trim cmd
    end.
Proof.
  remember (ascii_count cmd) as n eqn:Hn. revert cmd Hn.
  induction n as [n IH] using lt_wf_ind. intros cmd -> Hc.
  pose proof (trim_idemp cmd) as Ht.
  assert (trim_end (trim cmd) = trim cmd) as Hte by apply trim_end_idemp.
  destruct (accepted_cases cmd Hc) as [H|[H|[H|H]]].
  - apply compound_inv in H as (_ & p & e & r & pieces & l & -> & -> & Hcmd & Hr & Hpc & Hcs & Hl & He & _ & _ & Hf & Hall); [|done].
    exists (trim cmd), e. split_and!; [constructor|by eapply shape_chain|done|]. right. split; [done|]. by exists r.
  - apply wrapped_inv in H as (_ & rest & inner & Hrest & Hinner & Hci & _ & _ & Hparts); [|done].
    pose proof (unwrap_ascii _ _ _ Hrest Hinner). pose proof (ascii_count_trim cmd).
    destruct (IH (ascii_count inner) ltac:(lia) inner eq_refl Hci) as (u & core & Hu & Hs & Hb & Hm).
    exists u, core. split_and!; [by eapply unwraps_shell|done|done|].
    destruct Hparts as [(p & e & Ep & Ee & -> & ->)|(Hnone & -> & ->)]; [by rewrite Ep, Ee in Hm|].
    assert (u = trim inner /\ core = trim inner) as [-> ->]
      by (destruct Hnone as [E|E]; rewrite E in Hm; [|destruct (command_prefix _)]; exact Hm).
    left. split_and!; [done..|]. exists []. rewrite app_nil_r. auto.
  - apply benign_suffix_inv in H as (_ & -> & -> & core & tail & Hcmd & Htail & Hb & _ & _ & Hall); [|done].
    exists (trim cmd), core. split_and!; [constructor| |done|].
    + rewrite Hcmd in Hall |- *. by constructor.
    + left. split_and!; [done..|]. exists tail. auto.
  - rewrite H in Hc |- *. destruct (classify_single_plain (trim cmd)) as (-> & _).
    exists (trim cmd), (trim cmd). by split_and!; [constructor|constructor|..].
Qed.

(** ** Commands that must stay local *)

(** An ASCII word without white space. *)
Definition wordy (w : str) : Prop :=
  Forall (fun b => 0 <= b < 128 /\ (9 <=? b) && (b <=? 13) || (b =? 32) = false) w.

Lemma words_from_word w cur s : wordy w -> words_from 0 cur (w ++ s) = words_from 0 (rev w ++ cur) s.
Proof.
  intros Hw. revert cur. induction Hw as [|b w [Hb Hws] _ IH]; intros cur; [done|].
  cbn [app words_from]. rewrite ws_len_plain by done. rewrite IH. cbn [rev].
  by rewrite <- app_assoc.
Qed.

(** The first word of a text that starts with a word and white space, or is that word. *)
Lemma split_whitespace_word w s :
  wordy w -> w <> [] -> (s = [] \/ starts_with_ws s = true) ->
  split_whitespace (w ++ s) = w :: split_whitespace s.
Proof.
  intros Hw Hne Hs. unfold split_whitespace. rewrite words_from_word, app_nil_r by done.
  assert (rev w <> []) as Hr.
  { intros H. apply Hne. rewrite <- (rev_involutive w), H. done. }
  destruct (rev w) as [|x t] eqn:E; [done|]. rewrite <- E.
  destruct Hs as [->|Hs].
  - cbn. destruct (rev w) eqn:E2; [congruence|]. by rewrite <- E2, rev_involutive.
  - unfold starts_with_ws in Hs. destruct s as [|b s]; [done|]. cbn [words_from].
    destruct (ws_len (b :: s)) as [|k]; [done|].
    destruct (rev w) eqn:E2; [congruence|]. rewrite <- E2, rev_involutive. done.
Qed.

(** A literal that is a word. *)
Definition is_word (w : string) : bool :=
  forallb (fun b => (0 <=? b) && (b <? 128) && negb ((9 <=? b) && (b <=? 13) || (b =? 32)))
    (str_bytes w) && negb (bool_decide (str_bytes w = [])).

Lemma is_word_spec w : is_word w = true -> wordy (str_bytes w) /\ str_bytes w <> [].
Proof.
  unfold is_word. intros [Hall Hne]%andb_prop. apply negb_true_iff, bool_decide_eq_false in Hne.
  split; [|done]. apply Forall_forall. intros b Hb. rewrite forallb_forall in Hall.
  specialize (Hall b (proj1 (list_elem_of_In _ _) Hb)). lia.
Qed.

Lemma str_bytes_app a b : str_bytes (a ++ b)%string = str_bytes a ++ str_bytes b.
Proof. unfold str_bytes. rewrite <- fmap_app. f_equal. 
  induction a as [|c a IH]; [done|]. cbn [String.list_ascii_of_string String.append app].
  by rewrite <- IH.
Qed.

Lemma first_word_lit cmd w :
  is_word w = true -> starts_lit cmd (w ++ " ")%string = true ->
  exists rest, split_whitespace cmd = str_bytes w :: rest.
Proof.
  intros [Hw Hne]%is_word_spec. unfold starts_lit. rewrite starts_with_spec.
  intros [r ->]. rewrite str_bytes_app, <- app_assoc. eexists.
  rewrite split_whitespace_word; [done|done|done|by right].
Qed.

Lemma first_word cmd w :
  is_word w = true -> starts_word cmd w = true ->
  exists rest, split_whitespace cmd = str_bytes w :: rest.
Proof.
  intros Hw [H|H]%orb_prop; [by apply first_word_lit|]. apply is_lit_spec in H as ->.
  apply is_word_spec in Hw as [Hw Hne]. exists [].
  pose proof (split_whitespace_word (str_bytes w) [] Hw Hne (or_introl eq_refl)) as Hs.
  by rewrite app_nil_r in Hs.
Qed.

(** A command whose first word is another one does not start with [w]. *)
Lemma other_word cmd w0 rest w :
  split_whitespace cmd = w0 :: rest -> is_word w = true -> str_bytes w <> w0 ->
  starts_word cmd w = false /\ starts_lit cmd (w ++ " ")%string = false.
Proof.
  intros Hs Hw Hne. split; apply not_true_iff_false; intros H.
  - destruct (first_word _ _ Hw H) as [r Hr]. congruence.
  - destruct (first_word_lit _ _ Hw H) as [r Hr]. congruence.
Qed.

(** The programs a kind stands for: its base name, and the names it also goes by. *)
Definition tools (k : CompilationKind) : list string :=
  command_base k ::
  match k with
  | Gcc => ["cc"] | Gpp => ["c++"] | CargoZigbuild => ["cargo-zigbuild"]
  | NixBuild => ["nix-build"] | Tsc => ["npx"] | _ => []
  end.

Definition names_program (cmd : str) (c : Classification) : Prop :=
  is_compilation c = true ->
  exists k w rest, kind c = Some k /\ In w (tools k) /\ split_whitespace cmd = str_bytes w :: rest.

Lemma names_not cmd r : names_program cmd (not_compilation r).
Proof. done. Qed.

Lemma names_word cmd w k n r :
  (exists rest, split_whitespace cmd = str_bytes w :: rest) -> In w (tools k) ->
  names_program cmd (compilation k n r).
Proof. intros [rest Hs] Hin _. by exists k, w, rest. Qed.

Lemma names_go_or_tsc cmd : names_program cmd (classify_go_or_tsc cmd).
Proof.
  unfold classify_go_or_tsc. destruct (starts_lit cmd "go ") eqn:Ego.
  { apply (first_word_lit _ "go") in Ego; [|done]. unfold classify_go.
    repeat case_match; try apply names_not; (eapply names_word; [done|by left]). }
  unfold classify_tsc. destruct (strip_prefix (str_bytes "tsc ") cmd) as [r|] eqn:Etsc.
  { assert (starts_lit cmd "tsc " = true) as Hs by (unfold starts_lit, starts_with; by rewrite Etsc).
    apply (first_word_lit _ "tsc") in Hs; [|done].
    repeat case_match; try apply names_not. eapply names_word; [done|by left]. }
  destruct (strip_prefix (str_bytes "npx tsc ") cmd) as [r|] eqn:Enpx; [|apply names_not].
  assert (exists rest, split_whitespace cmd = str_bytes "npx" :: rest) as Hs.
  { apply first_word_lit; [done|]. apply strip_prefix_spec in Enpx as ->.
    apply starts_with_spec. by eexists. }
  repeat case_match; try apply names_not. eapply names_word; [done|by right; left].
Qed.

Lemma names_bun cmd : names_program cmd (classify_bun_or_later cmd).
Proof.
  unfold classify_bun_or_later.
  destruct (split_whitespace cmd) as [|bun [|sub args]] eqn:Es; try apply names_go_or_tsc.
  destruct (is_lit bun "bun") eqn:Eb; [|apply names_go_or_tsc]. apply is_lit_spec in Eb as ->.
  repeat case_match; try apply names_not; try apply names_go_or_tsc;
    (eapply names_word; [by rewrite Es; eexists|by left]).
Qed.

Lemma names_build_system cmd : names_program cmd (classify_build_system cmd).
Proof.
  unfold classify_build_system.
  destruct (starts_word cmd "make") eqn:Emake.
  { apply first_word in Emake; [|done]. unfold classify_make.
    case_match; [apply names_not|]. eapply names_word; [done|by left]. }
  destruct (starts_word cmd "cmake" && _) eqn:Ecmake.
  { apply andb_prop in Ecmake as [Ecmake _]. apply first_word in Ecmake; [|done].
    eapply names_word; [done|by left]. }
  destruct (starts_word cmd "ninja") eqn:Eninja.
  { apply first_word in Eninja; [|done]. unfold classify_ninja.
    case_match; [apply names_not|]. eapply names_word; [done|by left]. }
  destruct (starts_word cmd "meson" && _) eqn:Emeson.
  { apply andb_prop in Emeson as [Emeson _]. apply first_word in Emeson; [|done].
    eapply names_word; [done|by left]. }
  destruct (starts_word cmd "nix-build" || starts_word cmd "nix") eqn:Enix; [|apply names_bun].
  unfold classify_nix. destruct (starts_word cmd "nix-build") eqn:Eold.
  { apply first_word in Eold; [|done]. eapply names_word; [done|by right; left]. }
  apply first_word in Enix; [|done].
  repeat case_match; try apply names_not; (eapply names_word; [done|by left]).
Qed.

Ltac named_lit E w :=
  apply andb_prop in E as [E _]; apply (first_word_lit _ w) in E; [|done];
  eapply names_word; [exact E|by cbn; auto].

Lemma names_full cmd : names_program cmd (classify_full cmd).
Proof.
  unfold classify_full. destruct (starts_word cmd "cargo") eqn:E1.
  { apply first_word in E1; [|done]. unfold classify_cargo.
    repeat case_match; try apply names_not; (eapply names_word; [done|by left]). }
  destruct (starts_word cmd "cargo-zigbuild") eqn:E2.
  { apply first_word in E2; [|done]. unfold classify_cargo_zigbuild.
    repeat case_match; try apply names_not; (eapply names_word; [done|by right; left]). }
  destruct (starts_word cmd "rustc") eqn:E3.
  { apply first_word in E3; [|done]. eapply names_word; [done|by left]. }
  destruct (starts_lit cmd "gcc " && _) eqn:E4; [named_lit E4 "gcc"|].
  destruct (starts_lit cmd "g++ " && _) eqn:E5; [named_lit E5 "g++"|].
  destruct (starts_lit cmd "clang " && _ && _) eqn:E6.
  { apply andb_prop in E6 as [E6 _]. named_lit E6 "clang". }
  destruct (starts_lit cmd "clang++ " && _) eqn:E7; [named_lit E7 "clang++"|].
  destruct (starts_lit cmd "cc " && _) eqn:E8; [named_lit E8 "cc"|].
  destruct (starts_lit cmd "c++ " && _) eqn:E9; [named_lit E9 "c++"|].
  apply names_build_system.
Qed.

(** Drops the test for the word [w] from a command whose first word is another one. *)
Ltac other_tool Hs Hne w :=
  let l := eval cbv in (w ++ " ")%string in
  let H1 := fresh in let H2 := fresh in
  edestruct (other_word _ _ _ w Hs eq_refl) as [H1 H2];
  [ intros Heq; apply Hne; rewrite <- Heq; vm_compute; by repeat constructor |];
  rewrite ?H1; change (w ++ " ")%string with l in H2; rewrite ?H2; cbn [andb orb]; clear H1 H2.

(** Past the tools with tests of their own, only cargo, bun, go and tsc are left. *)
Definition other_tools : list str :=
  str_bytes <$> ["cargo-zigbuild"; "rustc"; "gcc"; "g++"; "clang"; "clang++"; "cc"; "c++";
                 "make"; "cmake"; "ninja"; "meson"; "nix-build"; "nix"].

Lemma classify_full_reduces cmd w0 rest :
  split_whitespace cmd = w0 :: rest -> ~ In w0 other_tools ->
  classify_full cmd
  = if starts_word cmd "cargo" then classify_cargo cmd else classify_bun_or_later cmd.
Proof.
  intros Hs Hne. unfold classify_full, classify_build_system.
  destruct (starts_word cmd "cargo"); [done|].
  other_tool Hs Hne "cargo-zigbuild". other_tool Hs Hne "rustc". other_tool Hs Hne "gcc".
  other_tool Hs Hne "g++". other_tool Hs Hne "clang". other_tool Hs Hne "clang++".
  other_tool Hs Hne "cc". other_tool Hs Hne "c++". other_tool Hs Hne "make".
  other_tool Hs Hne "cmake". other_tool Hs Hne "ninja". other_tool Hs Hne "meson".
  other_tool Hs Hne "nix-build". other_tool Hs Hne "nix". done.
Qed.

Lemma go_or_tsc_other cmd w0 rest :
  split_whitespace cmd = w0 :: rest -> ~ In w0 (str_bytes <$> ["tsc"; "npx"]) ->
  is_compilation (classify_go_or_tsc cmd) = true ->
  w0 = str_bytes "go" /\ is_compilation (classify_go cmd) = true.
Proof.
  intros Hs Hne. unfold classify_go_or_tsc. destruct (starts_lit cmd "go ") eqn:Ego.
  { apply (first_word_lit _ "go") in Ego as [r Hr]; [|done]. split; [congruence|done]. }
  destruct (strip_prefix (str_bytes "tsc ") cmd) as [r|] eqn:Etsc.
  { destruct (first_word_lit cmd "tsc" eq_refl) as [r' Hr'].
    - apply strip_prefix_spec in Etsc as ->. apply starts_with_spec. by eexists.
    - destruct Hne. left. congruence. }
  destruct (strip_prefix (str_bytes "npx tsc ") cmd) as [r|] eqn:Enpx; [|done].
  destruct (first_word_lit cmd "npx" eq_refl) as [r' Hr'].
  - apply strip_prefix_spec in Enpx as ->. apply starts_with_spec. by eexists.
  - destruct Hne. right. left. congruence.
Qed.

(** The second line of defence: a subcommand of cargo, bun or go that no build has. *)
Definition refused_words (ws : list str) : bool :=
  match ws with
  | a :: sub :: more =>
      if is_lit a "cargo" then
        negb (peek sub =? PLUS) && negb (peek sub =? DASH)
        && negb (in_lits sub ["build"; "b"; "test"; "t"; "check"; "c"; "clippy"; "doc"; "run";
                              "r"; "bench"; "zigbuild"])
        && (negb (is_lit sub "nextest")
            || match more with m :: _ => negb (in_lits m ["run"; "r"]) | [] => false end)
      else if is_lit a "bun" then negb (in_lits sub ["test"; "typecheck"])
      else is_lit a "go" && negb (in_lits sub ["build"; "test"; "vet"])
  | _ => false
  end.

Lemma refused_cargo cmd a sub args :
  split_whitespace cmd = a :: sub :: args -> is_lit a "cargo" = true ->
  refused_words (a :: sub :: args) = true -> is_compilation (classify_cargo cmd) = false.
Proof.
  intros Hs Ha. unfold refused_words, classify_cargo. rewrite Ha, Hs. cbn [tail].
  intros [[[Hp Hd]%andb_prop Hv]%andb_prop Hn]%andb_prop. cbn [cargo_subcommand].
  apply negb_true_iff in Hp, Hd, Hv. rewrite Hp, Hd.
  unfold in_lits in *. cbn [existsb] in *. rewrite !orb_false_iff in Hv.
  destruct Hv as (-> & -> & -> & -> & -> & -> & -> & -> & -> & -> & -> & -> & _). cbn [orb].
  destruct (is_lit sub "nextest"); [|done]. cbn [negb orb] in Hn. destruct args; [done|].
  apply negb_true_iff in Hn. by rewrite Hn.
Qed.

Lemma refused_words_full cmd ws rest :
  split_whitespace cmd = ws ++ rest -> refused_words ws = true ->
  is_compilation (classify_full cmd) = false.
Proof.
  intros Hs Hr. destruct ws as [|a [|sub more]]; [done|done|]. cbn [app] in Hs.
  assert (refused_words (a :: sub :: more ++ rest) = true) as Hr'.
  { unfold refused_words in *. destruct (is_lit a "cargo"); [|done].
    destruct (is_lit sub "nextest"); cbn [negb orb] in *; [|done].
    destruct more; [by rewrite andb_false_r in Hr|done]. }
  assert (~ In a other_tools /\ ~ In a (str_bytes <$> ["tsc"; "npx"])) as [Ho Ht].
  { unfold refused_words in Hr. destruct (is_lit a "cargo") eqn:Ec.
    { apply is_lit_spec in Ec as ->. split; vm_compute; intuition discriminate. }
    destruct (is_lit a "bun") eqn:Eb.
    { apply is_lit_spec in Eb as ->. split; vm_compute; intuition discriminate. }
    apply andb_prop in Hr as [->%is_lit_spec _]. split; vm_compute; intuition discriminate. }
  rewrite (classify_full_reduces _ _ _ Hs Ho). destruct (starts_word cmd "cargo") eqn:Ecargo.
  { destruct (first_word cmd "cargo" eq_refl Ecargo) as [r Hr2]. eapply refused_cargo; [done| |done].
    apply is_lit_spec. congruence. }
  apply not_true_iff_false. intros Hc. revert Hr'. unfold refused_words.
  assert (is_compilation (classify_go_or_tsc cmd) = true ->
          is_lit a "bun" = false -> is_lit a "cargo" = false ->
          is_lit a "go" && negb (in_lits sub ["build"; "test"; "vet"]) = true -> False) as Hgo.
  { intros Hg _ _ [_ Hv%negb_true_iff]%andb_prop.
    apply (go_or_tsc_other _ _ _ Hs Ht) in Hg as [_ Hg]. unfold classify_go in Hg. rewrite Hs in Hg.
    cbn [tail] in Hg. unfold in_lits in Hv. cbn [existsb] in Hv. rewrite !orb_false_iff in Hv.
    destruct Hv as (Hb & Ht' & Hvet & _). by rewrite Hb, Ht', Hvet in Hg. }
  unfold classify_bun_or_later in Hc. rewrite Hs in Hc.
  destruct (is_lit a "cargo") eqn:Ec.
  { intros _. apply is_lit_spec in Ec as ->. cbn in Hc.
    by apply (go_or_tsc_other _ _ _ Hs Ht) in Hc as [? _]. }
  destruct (is_lit a "bun") eqn:Eb; [|intros Hg; by apply Hgo].
  intros Hv%negb_true_iff. unfold in_lits in Hv. cbn [existsb] in Hv. rewrite !orb_false_iff in Hv.
  destruct Hv as (Ht1 & Ht2 & _). rewrite Ht1, Ht2 in Hc. destruct (is_lit sub "x"); [done|].
  apply is_lit_spec in Eb as ->. by apply (go_or_tsc_other _ _ _ Hs Ht) in Hc as [? _].
Qed.

(** A pattern of cargo, bun or go without flags. *)
Definition subcommand_pattern (p : string) : bool :=
  match split_whitespace (str_bytes p) with
  | a :: ws => in_lits a ["cargo"; "bun"; "go"] && forallb (fun w => negb (peek w =? DASH)) ws
  | [] => false
  end.

Lemma never_intercept_refused p :
  In p NEVER_INTERCEPT -> subcommand_pattern p = true ->
  refused_words (split_whitespace (str_bytes p)) = true.
Proof.
  assert (forallb (fun p => negb (subcommand_pattern p)
                            || refused_words (split_whitespace (str_bytes p))) NEVER_INTERCEPT = true)
    as Hall by (vm_compute; reflexivity).
  intros Hin Hp. rewrite forallb_forall in Hall. specialize (Hall p Hin). by rewrite Hp in Hall.
Qed.

(** Commands that change local state stay local however they are written.  Whatever the
    white space between its words and whatever follows, a command whose program and
    subcommand (after the wrappers, assignments and directories in front are dropped) are
    those of a never-intercept pattern of cargo, bun or go is not a compilation: where the
    pattern itself misses it, the classification of the tool refuses it. *)
Theorem local_commands_stay_local cmd p rest :
  In p NEVER_INTERCEPT -> subcommand_pattern p = true ->
  split_whitespace (normalize_command cmd) = split_whitespace (str_bytes p) ++ rest ->
  is_compilation (classify_full (normalize_command cmd)) = false
  /\ is_compilation (classify_single cmd) = false.
Proof.
  intros Hin Hp Hs. pose proof (never_intercept_refused p Hin Hp) as Hr.
  assert (is_compilation (classify_full (normalize_command cmd)) = false) as Hf
    by (by eapply refused_words_full).
  split; [done|]. apply not_true_iff_false. intros Hc.
  destruct (classify_single_inv _ Hc) as (_ & _ & _ & Heq). rewrite Heq in Hc. congruence.
Qed.

Lemma local_commands_witness :
  is_compilation (classify_single (str_bytes "env A=1 cargo   install x")) = false.
Proof.
  refine (proj2 (local_commands_stay_local (str_bytes "env A=1 cargo   install x") "cargo install"
                   [str_bytes "x"] _ _ _)).
  - vm_compute. by left.
  - vm_compute. reflexivity.
  - vm_compute. reflexivity.
Defined.

(** ** Where the tests miss what they are meant to catch *)

(** An escaped [>] in front of an [&] hides that the command goes to the background: Tier 1
    looks at the byte before, not at whether it is an operator. *)
Theorem escaped_redirect_hides_background :
  let cmd := str_bytes "cargo build \>& touch x" in
  is_compilation (classify_command cmd) = true
  /\ exists pre post,
      cmd = pre ++ AMP :: post /\ exposed unquoted pre AMP /\ last pre = Some GREATER
      /\ quote_step (quotes_after unquoted (removelast pre)) GREATER <> None.
Proof.
  split; [vm_compute; reflexivity|].
  exists (str_bytes "cargo build \>"), (str_bytes " touch x"). by vm_compute.
Qed.

(** An [&&] that dangles at the end is dropped, and the command runs without it. *)
Theorem dangling_and_dropped :
  let c := classify_command (str_bytes "cd x && cargo build &&") in
  is_compilation c = true
  /\ rewritten (str_bytes "cd x && cargo build &&") c = str_bytes "cd x && cargo build".
Proof. by vm_compute. Qed.

(** A version check with two spaces is taken for a build. *)
Theorem spaced_version_check_is_a_build :
  is_compilation (classify_command (str_bytes "make --version")) = false
  /\ is_compilation (classify_command (str_bytes "make  --version")) = true.
Proof. by vm_compute. Qed.

(** The recursion through [bash -c] wrappers ends.  Every wrapper that is opened leaves
    fewer ASCII bytes, although re-encoding may make the text longer, so with that many
    rounds allowed the classifier is the solution of its own recursive definition, and more
    rounds never change an answer. *)
Theorem classification_terminates cmd :
  classify_command cmd = classify_inner_0_body classify_command cmd
  /\ (forall rounds, (ascii_count cmd < rounds)%nat -> classify_inner_0 rounds cmd = classify_command cmd)
  /\ (forall rest inner,
        strip_shell_dash_c_prefix cmd = Some rest ->
        extract_single_quoted_argument (trim_start rest) = Some inner ->
        (ascii_count inner < ascii_count cmd)%nat).
Proof.
  split_and!; [apply classify_command_eq| |apply unwrap_ascii].
  intros rounds Hr. apply classify_inner_0_fuel; [done|lia].
Qed.



End Classifier.
