(* ===== verification/Hook.v ===== *)
(** * The hook: from a classification to the command that runs

    [process_hook] of rch/src/hook.rs, which leaves a command alone or prefixes the build in
    it with [rch exec --], the settings it consults (rch-common/src/types.rs), and the
    explained classification of rch-common/src/patterns.rs.  Loading the configuration is
    an argument: its result, or nothing when it failed. *)

From stdpp Require Import base list strings.
From Stdlib Require Import ZArith Lia.
From S2P Require Import Prelude Bytes Text Shell Normalize Classifier.
Import Shell Normalize Classifier.

Module Hook.
Local Open Scope string_scope.
Local Open Scope list_scope.
Local Open Scope Z_scope.

(** ** The explained classification *)

Inductive TierDecision := Pass | Reject.

Record ClassificationTier := Tier {
  tier : Z; name : string; decision : TierDecision; tier_reason : string }.

Record ClassificationDetails := {
  original : str;
  normalized : str;
  tiers : list ClassificationTier;
  classification : Classification }.

Definition TIER_INSTANT_REJECT : string := "instant_reject".
Definition TIER_STRUCTURE_ANALYSIS : string := "structure_analysis".
Definition TIER_KEYWORD_FILTER : string := "keyword_filter".
Definition TIER_NEVER_INTERCEPT : string := "never_intercept".
Definition TIER_FULL_CLASSIFICATION : string := "full_classification".

(** The attempts of Tier 0.5, with the structure reason each reports. *)
Definition try_structured_detailed (cmd : str) : option (Classification * string) :=
  if Z.of_nat (length cmd) <? MAX_SPLIT_INPUT_LEN then
    match try_classify_compound_command cmd with
    | Some c => Some (c, "safe compound command with compilation suffix")
    | None =>
        match try_classify_wrapped_command classify_command cmd with
        | Some c => Some (c, "shell -c wrapper with compilation command")
        | None =>
            match try_classify_benign_suffix_command cmd with
            | Some c =>
                Some (c, "compilation command with benign trailing redirect/pipe/background")
            | None => None
            end
        end
    end
  else None.

(** Tier 3 and 4, on the normalized command. *)
Definition detail_never_or_full (original norm : str) (passed : list ClassificationTier) :
    ClassificationDetails :=
  match List.find (matches_pattern norm) NEVER_INTERCEPT with
  | Some pattern =>
      let reason := ("matches never-intercept: " ++ pattern)%string in
      {| original := original; normalized := norm;
         tiers := passed ++ [Tier 3 TIER_NEVER_INTERCEPT Reject reason];
         classification := not_compilation reason |}
  | None =>
      let c := classify_full norm in
      {| original := original; normalized := norm;
         tiers := passed ++ [Tier 3 TIER_NEVER_INTERCEPT Pass "no never-intercept match";
                             Tier 4 TIER_FULL_CLASSIFICATION
                               (if is_compilation c then Pass else Reject) (reason c)];
         classification := c |}
  end.

Definition classify_command_detailed (cmd0 : str) : ClassificationDetails :=
  match trim cmd0 with
  | [] =>
      {| original := cmd0; normalized := [];
         tiers := [Tier 0 TIER_INSTANT_REJECT Reject "empty command"];
         classification := not_compilation "empty command" |}
  | cmd =>
      let t0 := Tier 0 TIER_INSTANT_REJECT Pass "command present" in
      match try_structured_detailed cmd with
      | Some (c, structure_reason) =>
          {| original := cmd0; normalized := default cmd (extracted_command c);
             tiers := [t0; Tier 1 TIER_STRUCTURE_ANALYSIS Pass structure_reason;
                       Tier 2 TIER_KEYWORD_FILTER Pass "keyword present in extracted command";
                       Tier 3 TIER_NEVER_INTERCEPT Pass
                         "extracted command passed never-intercept checks";
                       Tier 4 TIER_FULL_CLASSIFICATION Pass (reason c)];
             classification := c |}
      | None =>
          match check_structure cmd with
          | Some r =>
              {| original := cmd0; normalized := cmd;
                 tiers := [t0; Tier 1 TIER_STRUCTURE_ANALYSIS Reject r];
                 classification := not_compilation r |}
          | None =>
              let t1 := Tier 1 TIER_STRUCTURE_ANALYSIS Pass "no pipes/redirects/backgrounding" in
              let norm := normalize_command cmd in
              if negb (starts_with_compilation_command norm) then
                {| original := cmd0; normalized := norm;
                   tiers := [t0; t1; Tier 2 TIER_KEYWORD_FILTER Reject "no compilation keyword"];
                   classification := not_compilation "no compilation keyword" |}
              else
                detail_never_or_full cmd0 norm
                  [t0; t1; Tier 2 TIER_KEYWORD_FILTER Pass "keyword present"]
          end
      end
  end.

(** ** Settings *)

(** What [process_hook] reads of the configuration: [general], [compilation] and
    [execution]. *)
Record HookConfig := {
  enabled : bool;
  force_local : bool;
  force_remote : bool;
  confidence_threshold : f64;
  allowlist : list str }.

Definition default_execution_allowlist : list str :=
  str_bytes <$>
    ["cargo"; "rustc"; "nextest"; "gcc"; "g++"; "clang"; "clang++"; "cc"; "c++"; "make";
     "cmake"; "ninja"; "meson"; "bun"; "nix"; "go"; "tsc"].

Definition default_hook_config : HookConfig :=
  {| enabled := true; force_local := false; force_remote := false;
     confidence_threshold := hundredths 85; allowlist := default_execution_allowlist |}.

Definition is_allowed (config : HookConfig) (command_base : string) : bool :=
  existsb (fun allowed => eq_ignore_ascii_case allowed (str_bytes command_base)) (allowlist config).

(** ** The decision *)

Inductive HookOutput := Allow | AllowWithModifiedCommand (command : str).

Definition rch_exec : str := str_bytes "rch exec -- ".

Definition modified_command (command : str) (c : Classification) : str :=
  match command_prefix c, extracted_command c with
  | Some prefix, Some extracted => prefix ++ rch_exec ++ extracted
  | _, _ => rch_exec ++ command
  end.

(** [classify_hook_command] trims and asks the classifier. *)
Definition classify_hook_command (command : str) : Classification :=
  classify_command (trim command).

Definition process_hook (tool_name : string) (command : str) (load_config : option HookConfig) :
    HookOutput :=
  if negb (bool_decide (tool_name = "Bash")) then Allow
  else
    let c := classify_hook_command command in
    if negb (is_compilation c) then Allow
    else
      match load_config with
      | None => Allow
      | Some config =>
          if negb (enabled config) then Allow
          else if force_local config && force_remote config then Allow
          else if force_local config then Allow
          else
            let threshold :=
              if force_remote config then hundredths 0 else confidence_threshold config in
            if f64_lt (confidence c) threshold then Allow
            else
              match kind c with
              | Some k =>
                  if negb (is_allowed config (command_base k)) then Allow
                  else AllowWithModifiedCommand (modified_command command c)
              | None => AllowWithModifiedCommand (modified_command command c)
              end
      end.

(** * Properties *)

Lemma classify_command_trim cmd : classify_command (trim cmd) = classify_command cmd.
Proof.
  rewrite !(classify_command_eq (trim cmd)), (classify_command_eq cmd).
  unfold classify_inner_0_body. by rewrite trim_idemp.
Qed.

(** An accepted classification has a kind and one of three confidences. *)
Lemma accepted_confidence cmd :
  is_compilation (classify_command cmd) = true ->
  is_Some (kind (classify_command cmd))
  /\ In (confidence (classify_command cmd)) [hundredths 85; hundredths 90; hundredths 95].
Proof.
  intros (u & core & _ & _ & Hc & -> & ->)%accepted_core.
  destruct (classify_single_plain core) as (_ & _ & Hp). by apply Hp.
Qed.

(** ** The two classifiers agree *)

Lemma try_structured_agree cmd :
  try_structured classify_command cmd = fst <$> try_structured_detailed cmd.
Proof.
  unfold try_structured, try_structured_detailed. destruct (_ <? _); [|done].
  destruct (try_classify_compound_command cmd); [done|].
  destruct (try_classify_wrapped_command _ cmd); [done|].
  by destruct (try_classify_benign_suffix_command cmd).
Qed.

Lemma try_structured_accepts cmd c :
  try_structured classify_command (trim cmd) = Some c -> is_compilation c = true.
Proof.
  pose proof (trim_idemp cmd) as Ht. assert (trim_end (trim cmd) = trim cmd) by apply trim_end_idemp.
  unfold try_structured. destruct (_ <? _); [|done].
  destruct (try_classify_compound_command _) eqn:E1.
  { intros [= <-]. by apply compound_inv in E1 as []. }
  destruct (try_classify_wrapped_command _ _) eqn:E2.
  { intros [= <-]. by apply wrapped_inv in E2 as []. }
  intros E3. by apply benign_suffix_inv in E3 as [].
Qed.

(** Equal but for the reason, which names the pattern in the explained one. *)
Definition same_verdict (a b : Classification) : Prop :=
  is_compilation a = is_compilation b /\ confidence a = confidence b /\ kind a = kind b
  /\ command_prefix a = command_prefix b /\ extracted_command a = extracted_command b
  /\ (reason a = reason b \/ reason b = "matches never-intercept pattern").

Lemma same_verdict_refl a : same_verdict a a.
Proof. split_and!; [done..|by left]. Qed.

(** Every tier but the last passed, they are numbered in order, and the last one says
    what the verdict is. *)
Definition tiers_explain (d : ClassificationDetails) : Prop :=
  tier <$> tiers d = seqZ 0 (Z.of_nat (length (tiers d)))
  /\ Forall (fun t => decision t = Pass) (removelast (tiers d))
  /\ exists t, last (tiers d) = Some t
      /\ (decision t = Pass <-> is_compilation (classification d) = true)
      /\ (decision t = Reject -> tier_reason t = reason (classification d)).

Lemma find_existsb {A} (f : A -> bool) l :
  existsb f l = match List.find f l with Some _ => true | None => false end.
Proof. induction l as [|x l IH]; cbn; [done|]. by destruct (f x). Qed.

Lemma detail_never_or_full_ok orig norm passed :
  passed = [Tier 0 TIER_INSTANT_REJECT Pass "command present";
            Tier 1 TIER_STRUCTURE_ANALYSIS Pass "no pipes/redirects/backgrounding";
            Tier 2 TIER_KEYWORD_FILTER Pass "keyword present"] ->
  let d := detail_never_or_full orig norm passed in
  same_verdict (classification d)
    (if existsb (matches_pattern norm) NEVER_INTERCEPT
     then not_compilation "matches never-intercept pattern" else classify_full norm)
  /\ tiers_explain d.
Proof.
  intros ->. unfold detail_never_or_full. rewrite find_existsb.
  destruct (List.find _ NEVER_INTERCEPT) as [p|]; cbn [classification].
  - split; [split_and!; done || by right|]. split_and!; [done|by repeat constructor|].
    eexists. split_and!; [done|done|done].
  - split; [apply same_verdict_refl|]. split_and!; [done|by repeat constructor|].
    eexists. split_and!; [done| |done]. cbn. by destruct (is_compilation _).
Qed.

(** The diagnostics tell the truth.  On every command the explained classification and
    the one the hook acts on give the same verdict, confidence, kind, prefix and extracted
    build, and the same reason unless a never-intercept pattern matched, where the
    explained one names it; its tiers are numbered from zero, all but the last passed, and
    the last one passes exactly when the command is accepted. *)
Theorem detailed_agrees cmd :
  same_verdict (classification (classify_command_detailed cmd)) (classify_command cmd)
  /\ tiers_explain (classify_command_detailed cmd).
Proof.
  rewrite (classify_command_eq cmd). unfold classify_inner_0_body, classify_command_detailed.
  destruct (trim cmd) as [|b s] eqn:Et.
  { split; [apply same_verdict_refl|]. split_and!; [done|by repeat constructor|].
    eexists. by split_and!. }
  rewrite try_structured_agree.
  destruct (try_structured_detailed (b :: s)) as [[c r]|] eqn:Es; cbn [fmap option_fmap option_map fst].
  { split; [apply same_verdict_refl|]. split_and!; [done|by repeat constructor|].
    eexists. split_and!; [done| |done]. cbn. split; [|done]. intros _.
    assert (try_structured classify_command (b :: s) = Some c) as Hts by (by rewrite try_structured_agree, Es).
    rewrite <- Et in Hts. by eapply try_structured_accepts. }
  unfold classify_single. destruct (check_structure (b :: s)) as [r|].
  { split; [apply same_verdict_refl|]. split_and!; [done|by repeat constructor|].
    eexists. by split_and!. }
  destruct (negb (starts_with_compilation_command _)).
  { split; [apply same_verdict_refl|]. split_and!; [done|by repeat constructor|].
    eexists. by split_and!. }
  by apply detail_never_or_full_ok.
Qed.

(** ** What the hook does *)

(** The confidence of a build is below neither 0.85 nor zero. *)
Lemma confidence_passes c :
  In c [hundredths 85; hundredths 90; hundredths 95] ->
  f64_lt c (hundredths 85) = false /\ f64_lt c (hundredths 0) = false.
Proof. intros [<-|[<-|[<-|[]]]]; by split; vm_compute. Qed.

Lemma default_allows k : is_allowed default_hook_config (command_base k) = true.
Proof. by destruct k; vm_compute. Qed.

(** When the hook rewrites. *)
Definition offload_enabled (config : HookConfig) (c : Classification) : Prop :=
  enabled config = true /\ force_local config = false
  /\ (force_remote config = true \/ f64_lt (confidence c) (confidence_threshold config) = false)
  /\ exists k, kind c = Some k /\ is_allowed config (command_base k) = true.

Lemma process_hook_iff tool command cfg m :
  process_hook tool command cfg = AllowWithModifiedCommand m <->
  tool = "Bash" /\ is_compilation (classify_command command) = true
  /\ m = modified_command command (classify_command command)
  /\ exists config, cfg = Some config /\ offload_enabled config (classify_command command).
Proof.
  unfold process_hook, classify_hook_command. rewrite classify_command_trim.
  case_bool_decide as Ht; cbn [negb]; [|split; [done|by intros []]].
  destruct (is_compilation (classify_command command)) eqn:Ec; cbn [negb];
    [|split; [done|by intros (_ & ? & _)]].
  destruct (accepted_confidence _ Ec) as ((k & Hk) & Hconf).
  apply confidence_passes in Hconf as [_ H0].
  destruct cfg as [config|]; [|split; [done|by intros (_ & _ & _ & ? & ? & _)]].
  rewrite Hk. unfold offload_enabled. rewrite Hk.
  destruct (enabled config) eqn:Een; cbn [negb];
    [|split; [done|intros (_ & _ & _ & ? & [= <-] & ? & _); congruence]].
  destruct (force_local config) eqn:Efl; cbn [andb].
  { split; [by case_match|]. intros (_ & _ & _ & ? & [= <-] & _ & ? & _). congruence. }
  destruct (f64_lt _ (if force_remote config then _ else _)) eqn:Elt.
  { split; [done|]. intros (_ & _ & _ & ? & [= <-] & _ & _ & [Hr|Hr] & _).
    - rewrite Hr in Elt. congruence.
    - destruct (force_remote config); congruence. }
  destruct (is_allowed config (command_base k)) eqn:Eal; cbn [negb].
  - split.
    + intros [= <-]. split_and!; [done..|]. exists config. split_and!; [done..| |by exists k].
      destruct (force_remote config); [by left|by right].
    + by intros (_ & _ & -> & _).
  - split; [done|]. intros (_ & _ & _ & ? & [= <-] & _ & _ & _ & ? & [= <-] & ?). congruence.
Qed.

(** C25: when the hook intercepts, and to what.  A command is rewritten exactly when it comes
    from the Bash tool, is classified as a compilation, the configuration loaded and has
    the hook enabled and not forced local, the confidence is not below the threshold (or
    remote is forced) and the tool is on the allowlist; in every other case, a
    configuration that cannot be loaded included, it is left alone.  The command that is
    rewritten, once [bash -c] wrappers are opened, is a build, a build with a benign tail
    ([&] at the end, output redirects, one pipe into a pager) or a chain of [&&] whose last
    command is the build; [rch exec --] is put directly in front of that build, everything
    before it and its tail are kept as they are, and all that is lost are the [&&]s (with
    the blanks between them) that dangle behind the last command of a chain. *)
Theorem hook_rewrites tool command cfg :
  (process_hook tool command cfg = Allow
   \/ exists m, process_hook tool command cfg = AllowWithModifiedCommand m)
  /\ (forall m, process_hook tool command cfg = AllowWithModifiedCommand m <->
       tool = "Bash" /\ is_compilation (classify_command command) = true
       /\ m = modified_command command (classify_command command)
       /\ exists config, cfg = Some config /\ offload_enabled config (classify_command command))
  /\ (forall m, process_hook tool command cfg = AllowWithModifiedCommand m ->
       exists u core,
         unwraps (trim command) u /\ shape u core /\ is_compilation (classify_single core) = true
         /\ ((m = rch_exec ++ command /\ u = trim command /\ core = trim command)
             \/ exists p e, m = p ++ rch_exec ++ e /\ runs u core p e)).
Proof.
  split_and!.
  - destruct (process_hook tool command cfg); [by left|right; by eexists].
  - apply process_hook_iff.
  - intros m (_ & Hc & -> & _)%process_hook_iff. unfold modified_command.
    destruct (accepted_text _ Hc) as (u & core & Hu & Hs & Hb & Hm). exists u, core. split_and!; [done..|].
    destruct (command_prefix _) as [p|]; [|left; by destruct Hm].
    destruct (extracted_command _) as [e|]; [|left; by destruct Hm]. right. by exists p, e.
Qed.

(** With the default settings nothing that is classified as a build escapes: the
    confidence of every accepted command reaches the default threshold and the base name
    of every kind is on the default allowlist, so from the Bash tool exactly the accepted
    commands are rewritten. *)
Theorem default_config_offloads command :
  process_hook "Bash" command (Some default_hook_config)
  = if is_compilation (classify_command command)
    then AllowWithModifiedCommand (modified_command command (classify_command command))
    else Allow.
Proof.
  destruct (is_compilation (classify_command command)) eqn:Ec.
  - apply process_hook_iff. split_and!; [done..|]. exists default_hook_config. split; [done|].
    destruct (accepted_confidence _ Ec) as ((k & Hk) & Hconf).
    apply confidence_passes in Hconf as [H85 _].
    split_and!; [done|done|by right|]. exists k. split; [done|apply default_allows].
  - unfold process_hook, classify_hook_command. rewrite classify_command_trim, Ec. done.
Qed.

End Hook.
