(* ===== verification/Floats.v ===== *)
(** * Binary64 arithmetic

    The operations of [f64] the selector uses beyond those of the prelude, on the standard
    library's specification of IEEE 754 rounding, and the facts its proofs need: [<] is a
    strict order, and sums and products of non-negative numbers are not NaN. *)

From stdpp Require Import base tactics.
From Stdlib Require Import ZArith Lia.
From Corelib Require Import SpecFloat.
From S2P Require Import Prelude.

Definition f64_add (a b : f64) : f64 := SFadd 53 1024 a b.
Definition f64_sub (a b : f64) : f64 := SFsub 53 1024 a b.
Definition f64_mul (a b : f64) : f64 := SFmul 53 1024 a b.
Definition f64_gt (a b : f64) : bool := SFltb b a.
Definition f64_le (a b : f64) : bool := SFleb a b.

Definition is_nan (a : f64) : bool := match a with S754_nan => true | _ => false end.
Definition is_finite (a : f64) : bool :=
  match a with S754_zero _ | S754_finite _ _ _ => true | _ => false end.

(** A decimal literal [n / d]. *)
Definition lit (n d : Z) : f64 := f64_div (f64_of_Z n) (f64_of_Z d).

(** [f64::max], [f64::min]: a NaN gives way to the other operand. *)
Definition f64_max (a b : f64) : f64 :=
  if is_nan a then b else if is_nan b then a else if f64_lt a b then b else a.
Definition f64_min (a b : f64) : f64 :=
  if is_nan a then b else if is_nan b then a else if f64_lt b a then b else a.

(** [f64::clamp]. *)
Definition f64_clamp (a lo hi : f64) : f64 :=
  if f64_lt a lo then lo else if f64_gt a hi then hi else a.

(** ** Floats: the order, and sums and products of non-negative numbers *)

Module FloatFacts.

(** Comparisons of floats, by the signs, exponents and mantissas. *)
Ltac compare_cases :=
  repeat match goal with s : bool |- _ => destruct s end; try done;
  repeat match goal with
         | |- context [(?x ?= ?y)%Z] => destruct (Z.compare_spec x y)
         | |- context [Pos.compare_cont Eq ?x ?y] =>
             change (Pos.compare_cont Eq x y) with (Pos.compare x y);
             destruct (Pos.compare_spec x y)
         end; cbn; try done; lia.

Lemma f64_lt_trans a b c : f64_lt a b = true -> f64_lt b c = true -> f64_lt a c = true.
Proof.
  unfold f64_lt, SFltb, SFcompare.
  destruct a as [sa|sa| |sa ma ea], b as [sb|sb| |sb mb eb], c as [sc|sc| |sc mc ec];
    compare_cases.
Qed.

Lemma f64_le_trans a b c : f64_le a b = true -> f64_le b c = true -> f64_le a c = true.
Proof.
  unfold f64_le, SFleb, SFcompare.
  destruct a as [sa|sa| |sa ma ea], b as [sb|sb| |sb mb eb], c as [sc|sc| |sc mc ec];
    compare_cases.
Qed.

Lemma f64_le_gt a b : f64_le a b = true -> f64_gt a b = false.
Proof.
  unfold f64_le, f64_gt, SFleb, SFltb, SFcompare. destruct a as [sa|sa| |sa ma ea], b as [sb|sb| |sb mb eb];
    compare_cases.
Qed.

Lemma f64_lt_irrefl a : f64_lt a a = false.
Proof.
  unfold f64_lt, SFltb, SFcompare. destruct a as [[]|[]| |[] m e]; try done;
    rewrite Z.compare_refl; change (Pos.compare_cont Eq m m) with (Pos.compare m m);
    by rewrite Pos.compare_refl.
Qed.

(** Non-negative: neither NaN nor below zero. *)
Definition nonneg (a : f64) : Prop :=
  match a with
  | S754_zero _ | S754_infinity false | S754_finite false _ _ => True
  | _ => False
  end.

Lemma nonneg_above a : nonneg a -> f64_gt a (S754_infinity true) = true.
Proof. by destruct a as [?|[]| |[] ? ?]. Qed.

Lemma shr_nonneg r e n : 0 <= shr_m r -> 0 <= shr_m (fst (shr r e n)).
Proof.
  intros H. unfold shr. destruct n as [|p|p]; [done| |done]. cbn [fst].
  enough (Hi : forall p r, 0 <= shr_m r -> 0 <= shr_m (SpecFloat.iter_pos shr_1 p r)) by auto.
  clear. intros p. induction p as [p IH|p IH|]; intros r H; cbn [SpecFloat.iter_pos].
  - apply IH, IH. by destruct r as [[|[]|[]] ? ?]; cbn in *.
  - by apply IH, IH.
  - by destruct r as [[|[]|[]] ? ?]; cbn in *.
Qed.

Lemma round_aux_sign sx mx ex lx : 0 <= mx ->
  match binary_round_aux 53 1024 sx mx ex lx with
  | S754_zero s | S754_infinity s | S754_finite s _ _ => s = sx
  | S754_nan => False
  end.
Proof.
  intros H. unfold binary_round_aux, shr_fexp.
  assert (H1 : 0 <= shr_m (shr_record_of_loc mx lx)) by by destruct lx as [|[]].
  pose proof (shr_nonneg _ ex (fexp 53 1024 (Zdigits2 mx + ex) - ex) H1) as H2.
  destruct (shr _ _ _) as [r1 e1]. cbn [fst] in H2.
  assert (H3 : 0 <= round_nearest_even (shr_m r1) (loc_of_shr_record r1)).
  { unfold round_nearest_even. destruct (loc_of_shr_record r1) as [|[]]; try lia.
    destruct (Z.even _); lia. }
  set (m := round_nearest_even _ _) in *.
  pose proof (shr_nonneg (shr_record_of_loc m loc_Exact) e1
                (fexp 53 1024 (Zdigits2 m + e1) - e1) H3) as H4.
  destruct (shr (shr_record_of_loc m loc_Exact) _ _) as [r2 e2]. cbn [fst] in H4.
  destruct (shr_m r2); [done| |lia]. by destruct (_ <=? _).
Qed.

Lemma round_aux_nonneg mx ex lx : 0 <= mx -> nonneg (binary_round_aux 53 1024 false mx ex lx).
Proof.
  intros H. pose proof (round_aux_sign false mx ex lx H) as Hs.
  by destruct (binary_round_aux _ _ _ _ _ _); cbn in *; subst.
Qed.

Lemma normalize_nonneg m e s : 0 <= m -> nonneg (binary_normalize 53 1024 m e s).
Proof.
  intros H. unfold binary_normalize. destruct m as [|p|p]; [done| |lia].
  unfold binary_round. destruct (shl_align _ _ _) as [mz ez]. by apply round_aux_nonneg.
Qed.

Lemma of_Z_nonneg z : 0 <= z -> nonneg (f64_of_Z z).
Proof. apply normalize_nonneg. Qed.

Lemma add_nonneg a b : nonneg a -> nonneg b -> nonneg (f64_add a b).
Proof.
  unfold f64_add, SFadd.
  destruct a as [[]|[]| |[] ma ea], b as [[]|[]| |[] mb eb]; try done.
  intros _ _. apply normalize_nonneg. unfold cond_Zopp. lia.
Qed.

Lemma mul_nonneg a m e : nonneg a -> nonneg (f64_mul a (S754_finite false m e)).
Proof.
  unfold f64_mul, SFmul. destruct a as [?|[]| |[] ma ea]; try done.
  intros _. by apply round_aux_nonneg.
Qed.

Lemma clamp_nonneg a hi : nonneg hi -> is_finite a = true ->
  nonneg (f64_clamp a (f64_of_Z 0) hi).
Proof.
  intros Hhi Hn. unfold f64_clamp, f64_of_Z, f64_gt, f64_lt. cbn [binary_normalize].
  destruct (SFltb a (S754_zero false)) eqn:E; [done|].
  destruct (SFltb hi a); [done|]. by destruct a as [?|[]| |[] ? ?].
Qed.

End FloatFacts.
