(* ===== verification/Selection.v ===== *)
(** * Worker selection (rchd/src/selection.rs)

    [Affinity]: the tracker of recent builds and last successes per project, and the history
    of selections ([CacheTracker], [SelectionHistory]).  [Selector]: which workers of the
    pool are eligible for a request, the five strategies that choose among them, the
    affinity pin and the last-success fallback.  The older entry point
    [select_worker_with_config], the audit log and the diagnostics are not modelled.

    A [candidate] is what one selection reads of a worker: its state (Worker.v) with the
    score, latency and capabilities stored in it, and what the services around the selector
    said about it (the admission gate, repository convergence, reliability, the toolchain
    probe).  The reads of one selection are taken as one snapshot.  Instants and durations
    are nanoseconds on the monotonic clock.  Scores are binary64; [exp] of the C library and
    the random draw are arguments. *)

From stdpp Require Import base gmap list strings pretty.
From Stdlib Require Import ZArith Lia.
From Corelib Require Import SpecFloat.
From S2P Require Import Prelude Floats Bytes Text Circuit Lifecycle Worker Classifier.
Import WorkerLifecycle.

Module Affinity.

Inductive CacheUse := Build | Test.

#[export] Instance CacheUse_eq_dec : EqDecision CacheUse.
Proof. solve_decision. Defined.

Record CacheState := {
  last_build : option Z;
  last_test : option Z;
  last_success : option Z;
}.

Definition cache_default : CacheState :=
  {| last_build := None; last_test := None; last_success := None |}.

Definition last_activity (s : CacheState) : option Z :=
  match last_build s, last_test s with
  | Some build, Some test => Some (Z.max build test)
  | Some build, None => Some build
  | None, Some test => Some test
  | None, None => None
  end.

Record LastSuccessEntry := { success_worker : string; timestamp : Z }.

Record CacheTracker := {
  workers : gmap string (gmap string CacheState);
  max_projects_per_worker : nat;
  last_success_by_project : gmap string LastSuccessEntry;
  max_success_projects : nat;
}.

Definition tracker_new : CacheTracker :=
  {| workers := ∅; max_projects_per_worker := 50; last_success_by_project := ∅;
     max_success_projects := 200 |}.

Definition HOUR : Z := 3600 * 10 ^ 9.

Section tracker.
(** The order in which a hash map is iterated. *)
Context (iter : forall A, gmap string A -> list (string * A)).
(** [f64::exp]. *)
Context (exp : f64 -> f64).

(** The order of [Option<Instant>]: [None] first. *)
Definition instant_ltb (a b : option Z) : bool :=
  match a, b with
  | None, Some _ => true
  | Some x, Some y => x <? y
  | _, None => false
  end.

(** [min_by_key]: the first of the least. *)
Definition min_by_key {A} (key : A -> option Z) (l : list (string * A)) : option (string * A) :=
  fold_left (fun best x =>
    match best with
    | None => Some x
    | Some b => if instant_ltb (key (snd x)) (key (snd b)) then Some x else best
    end) l None.

(** [while map.len() > max { remove the oldest }]. *)
Fixpoint evict {A} (fuel : nat) (key : A -> option Z) (max : nat) (m : gmap string A) : gmap string A :=
  match fuel with
  | O => m
  | S fuel =>
      if (max <? size m)%nat then
        match min_by_key key (iter A m) with
        | Some (k, _) => evict fuel key max (delete k m)
        | None => evict fuel key max m
        end
      else m
  end.

Definition limit_projects (max : nat) (m : gmap string CacheState) : gmap string CacheState :=
  evict (size m) last_activity max m.

Definition with_workers (t : CacheTracker) (w : gmap string (gmap string CacheState)) : CacheTracker :=
  {| workers := w; max_projects_per_worker := max_projects_per_worker t;
     last_success_by_project := last_success_by_project t;
     max_success_projects := max_success_projects t |}.

Definition touch (use : CacheUse) (now : Z) (s : CacheState) : CacheState :=
  match use with
  | Build => {| last_build := Some now; last_test := last_test s; last_success := last_success s |}
  | Test => {| last_build := Some now; last_test := Some now; last_success := last_success s |}
  end.

Definition record_build (now : Z) (worker project : string) (use : CacheUse) (t : CacheTracker) :
    CacheTracker :=
  let cache := default ∅ (workers t !! worker) in
  let state := default cache_default (cache !! project) in
  with_workers t (<[worker := limit_projects (max_projects_per_worker t)
                                (<[project := touch use now state]> cache)]> (workers t)).

Definition secs_f64 (d : Z) : f64 :=
  f64_add (f64_of_Z (d / 10 ^ 9)) (f64_div (f64_of_Z (d mod 10 ^ 9)) (f64_of_Z (10 ^ 9))).

Definition warmth_from_instant (now t : Z) : f64 :=
  let hours := f64_div (secs_f64 (sat_sub now t)) (f64_of_Z 3600) in
  if f64_lt hours (f64_of_Z 1) then f64_of_Z 1
  else if f64_lt hours (f64_of_Z 6) then
    f64_sub (f64_of_Z 1) (f64_mul (f64_sub hours (f64_of_Z 1)) (lit 1 10))
  else if f64_lt hours (f64_of_Z 24) then
    f64_sub (lit 1 2) (f64_mul (f64_sub hours (f64_of_Z 6)) (f64_div (lit 3 10) (f64_of_Z 18)))
  else
    f64_mul (lit 2 10)
      (exp (SFopp (f64_div (f64_sub hours (f64_of_Z 24)) (f64_of_Z 24)))).

Definition TEST_BUILD_FALLBACK_FACTOR : f64 := lit 4 10.

Definition entry_of (t : CacheTracker) (worker project : string) : option CacheState :=
  c ← workers t !! worker; c !! project.

Definition estimate_warmth (now : Z) (t : CacheTracker) (worker project : string) (use : CacheUse) : f64 :=
  match entry_of t worker project with
  | None => f64_of_Z 0
  | Some s =>
      match use with
      | Build => from_option (warmth_from_instant now) (f64_of_Z 0) (last_activity s)
      | Test =>
          let test_warmth := from_option (warmth_from_instant now) (f64_of_Z 0) (last_test s) in
          let build_warmth :=
            f64_mul (from_option (warmth_from_instant now) (f64_of_Z 0) (last_build s))
              TEST_BUILD_FALLBACK_FACTOR in
          f64_max test_warmth build_warmth
      end
  end.

Definition has_recent_build (now : Z) (t : CacheTracker) (worker project : string) (use : CacheUse)
    (max_age : Z) : bool :=
  match entry_of t worker project with
  | None => false
  | Some s =>
      match use with
      | Build => from_option (fun i => sat_sub now i <? max_age) false (last_activity s)
      | Test =>
          from_option (fun i => sat_sub now i <? max_age) false (last_test s)
          || from_option (fun i => sat_sub now i <? max_age) false (last_build s)
      end
  end.

Definition record_success (now : Z) (worker project : string) (t : CacheTracker) : CacheTracker :=
  let cache := default ∅ (workers t !! worker) in
  let state := default cache_default (cache !! project) in
  let state := {| last_build := Some now; last_test := last_test state; last_success := Some now |} in
  let by_project := <[project := {| success_worker := worker; timestamp := now |}]>
                      (last_success_by_project t) in
  {| workers := <[worker := limit_projects (max_projects_per_worker t) (<[project := state]> cache)]>
                  (workers t);
     max_projects_per_worker := max_projects_per_worker t;
     last_success_by_project :=
       evict (size by_project) (fun e => Some (timestamp e)) (max_success_projects t) by_project;
     max_success_projects := max_success_projects t |}.

End tracker.

Definition get_pinned_worker (now : Z) (t : CacheTracker) (project : string) (pin_window : Z) :
    option string :=
  e ← last_success_by_project t !! project;
  if sat_sub now (timestamp e) <? pin_window then Some (success_worker e) else None.

Definition get_last_success_worker (t : CacheTracker) (project : string) : option LastSuccessEntry :=
  last_success_by_project t !! project.

Definition has_recent_success (now : Z) (t : CacheTracker) (worker project : string) (max_age : Z) : bool :=
  match entry_of t worker project ≫= last_success with
  | Some i => sat_sub now i <? max_age
  | None => false
  end.

(** ** Selection history *)

Record SelectionHistory := {
  selections : gmap string (list Z);
  max_history_per_worker : nat;
}.

Definition history_default : SelectionHistory :=
  {| selections := ∅; max_history_per_worker := 100 |}.

Definition record_selection (now : Z) (worker : string) (h : SelectionHistory) : SelectionHistory :=
  let l := default [] (selections h !! worker) ++ [now] in
  {| selections := <[worker := drop (length l - max_history_per_worker h) l]> (selections h);
     max_history_per_worker := max_history_per_worker h |}.

Definition recent_selections (now : Z) (h : SelectionHistory) (worker : string) (window : Z) : nat :=
  length (filter (fun t => sat_sub now t < window) (default [] (selections h !! worker))).

(** [prune]: old entries are dropped from the front. *)
Fixpoint drop_old (now max_age : Z) (l : list Z) : list Z :=
  match l with
  | [] => []
  | t :: r => if max_age <=? sat_sub now t then drop_old now max_age r else l
  end.

Definition prune (now max_age : Z) (h : SelectionHistory) : SelectionHistory :=
  {| selections := drop_old now max_age <$> selections h;
     max_history_per_worker := max_history_per_worker h |}.

End Affinity.

Module Selector.
Import Affinity WorkerState.

(** ** Configuration and requests (rch-common/src/types.rs) *)

Inductive SelectionStrategy := Priority | Fastest | Balanced | CacheAffinity | FairFastest.

Record SelectionWeightConfig := {
  w_speedscore : f64; w_slots : f64; w_health : f64; w_cache : f64; w_network : f64;
  w_priority : f64; w_half_open_penalty : f64;
}.

Record AffinityConfig := {
  enabled : bool;
  pin_minutes : Z;
  enable_last_success_fallback : bool;
  fallback_min_success_rate : f64;
}.

Record SelectionConfig := {
  strategy : SelectionStrategy;
  min_success_rate : f64;
  weights : SelectionWeightConfig;
  lookback_secs : Z;
  affinity : AffinityConfig;
  max_load_per_core : option f64;
  min_free_gb : option f64;
}.

Definition default_weights : SelectionWeightConfig :=
  {| w_speedscore := lit 5 10; w_slots := lit 4 10; w_health := lit 3 10; w_cache := lit 2 10;
     w_network := lit 1 10; w_priority := lit 5 10; w_half_open_penalty := lit 5 10 |}.

Inductive RequiredRuntime := NoRuntime | Rust | Bun | Node | Nix | Go | Zig.

#[export] Instance RequiredRuntime_eq_dec : EqDecision RequiredRuntime.
Proof. solve_decision. Defined.

Inductive CommandPriority := Low | Normal | High.

Record ToolchainInfo := { channel : str; date : option str; full_version : str }.

Record SelectionRequest := {
  project : string;
  command : option str;
  command_priority : CommandPriority;
  estimated_cores : Z;
  preferred_workers : list string;
  toolchain : option ToolchainInfo;
  required_runtime : RequiredRuntime;
}.

Inductive SelectionReason :=
  | Success | NoWorkersConfigured | AllWorkersUnreachable | AllCircuitsOpen | AllWorkersBusy
  | NoWorkersPassedHealth | AllWorkersFailedPreflight | AllWorkersFailedConvergence
  | NoAdmissibleWorkers (detail : string) | NoMatchingWorkers | NoWorkersWithRuntime (runtime : string)
  | SelectionError (message : string)
  | AffinityPinned | AffinityFallback.

#[export] Instance SelectionReason_eq_dec : EqDecision SelectionReason.
Proof. solve_decision. Defined.

(** ** What a selection reads of a worker *)

Record WorkerCapabilities := {
  rustc_version : option str; bun_version : option str; node_version : option str;
  nix_version : option str; go_version : option str; zig_version : option str;
  cargo_zigbuild_version : option str;
  cpu_microarch_level : option Z;
  num_cpus : option Z;
  load_avg_1 : option f64;
  disk_free_gb : option f64;
  projects_root_ok : option bool;
}.

Definition has_runtime (c : WorkerCapabilities) (r : RequiredRuntime) : bool :=
  match r with
  | NoRuntime => true
  | Rust => bool_decide (is_Some (rustc_version c))
  | Bun => bool_decide (is_Some (bun_version c))
  | Node => bool_decide (is_Some (node_version c))
  | Nix => bool_decide (is_Some (nix_version c))
  | Go => bool_decide (is_Some (go_version c))
  | Zig => bool_decide (is_Some (zig_version c)) && bool_decide (is_Some (cargo_zigbuild_version c))
  end.

Definition load_per_core (c : WorkerCapabilities) : option f64 :=
  match load_avg_1 c, num_cpus c with
  | Some load, Some cpus => if 0 <? cpus then Some (f64_div load (f64_of_Z cpus)) else None
  | _, _ => None
  end.

Definition is_high_load (c : WorkerCapabilities) (max : f64) : option bool :=
  (fun l => f64_gt l max) <$> load_per_core c.

Definition is_low_disk (c : WorkerCapabilities) (min : f64) : option bool :=
  (fun free => f64_lt free min) <$> disk_free_gb c.

Definition is_pre_v3_x86 (c : WorkerCapabilities) : bool :=
  match cpu_microarch_level c with Some l => (l =? 1) || (l =? 2) | None => false end.

Record ToolchainPreflightStatus := { usable : bool; reason : option string; checked_at_unix_ms : Z }.

Inductive PressureState := PressureHealthy | PressureWarning | PressureCritical | TelemetryGap.

#[export] Instance PressureState_eq_dec : EqDecision PressureState.
Proof. solve_decision. Defined.

Inductive AdmissionVerdict := Reject (reason_code : string) | Admit (pressure_penalty : f64).

Inductive ConvergenceDriftState := DriftReady | Drifting | Converging | DriftFailed | DriftStale.

Record candidate := {
  state : WorkerState.t;
  speed_score : f64;
  latency_cell : Z;                                     (* AtomicU64, 0 encodes None *)
  capabilities : WorkerCapabilities;
  preflight_status : option ToolchainPreflightStatus;   (* of the requested toolchain *)
  probe_result : result string unit;                    (* of an SSH probe, if one is made *)
  pressure : PressureState;
  verdict : AdmissionVerdict;                           (* when an admission gate is set *)
  drift_state : ConvergenceDriftState;                  (* when convergence is tracked *)
  hard_exclude : bool; reliability_penalty : f64;       (* when reliability is aggregated *)
}.

Definition worker_id (c : candidate) : string := id (config (state c)).

Definition circuit_state (c : candidate) : CircuitStats.CircuitState := CircuitStats.state (circuit (state c)).

Definition circuit_open (c : candidate) : bool :=
  match circuit_state c with CircuitStats.Open => true | _ => false end.

Definition half_open (c : candidate) : bool :=
  match circuit_state c with CircuitStats.HalfOpen => true | _ => false end.

Definition healthy (c : candidate) : bool :=
  bool_decide (status (state c) = StHealthy) || bool_decide (status (state c) = StDegraded).

(** ** Gates *)

Definition to_lower (s : str) : str := to_ascii_lowercase <$> s.

(** The first well-formed [os:] tag. *)
Definition declared_os (tags : list string) : option str :=
  head (filter (fun os => os <> [])
          ((fun os => to_lower (trim os)) <$> omap (fun tag => strip_prefix (str_bytes "os:") (str_bytes tag)) tags)).

Definition os_gate_admits (declared required : option str) : bool :=
  match declared, required with
  | None, None => true
  | Some d, Some r => bool_decide (to_lower d = to_lower r)
  | _, _ => false
  end.

Definition is_floating_rust_channel (channel : str) : bool :=
  in_lits channel ["stable"; "beta"; "nightly"].

Definition rustc_version_key (value : str) : option str :=
  match split_whitespace value with
  | [] => None
  | first :: rest =>
      version ← (if is_lit first "rustc" then head rest else Some first);
      let version := trim version in
      match version with [] => None | _ => Some version end
  end.

Definition worker_rustc_matches_channel (worker_raw channel : str) : bool :=
  match rustc_version_key worker_raw with
  | None => false
  | Some w =>
      if is_lit channel "nightly" then contains_lit w "-nightly"
      else if is_lit channel "beta" then contains_lit w "-beta"
      else if is_lit channel "stable" then negb (contains_lit w "-nightly") && negb (contains_lit w "-beta")
      else false
  end.

(** Whether the worker's compiler contradicts the requested toolchain; the message is not
    modelled. *)
Definition toolchain_capability_mismatch (toolchain : option ToolchainInfo) (c : WorkerCapabilities) : bool :=
  match toolchain with
  | None => false
  | Some t =>
      if bool_decide (is_Some (date t)) || bool_decide (trim (full_version t) = [])
         || bool_decide (trim (full_version t) = channel t) then false
      else
        match rustc_version c with
        | None => false
        | Some worker_raw =>
            if is_floating_rust_channel (trim (channel t)) then
              negb (worker_rustc_matches_channel worker_raw (trim (channel t)))
            else
              match rustc_version_key (full_version t), rustc_version_key worker_raw with
              | Some local, Some worker => negb (bool_decide (local = worker))
              | _, _ => false
              end
        end
  end.

Definition TOOLCHAIN_PREFLIGHT_TTL_MS : Z := 600 * 1000.

(** [i64::saturating_sub]. *)
Definition i64_sat_sub (a b : Z) : Z := Z.max (- 2 ^ 63) (Z.min (2 ^ 63 - 1) (a - b)).

(** The failure of the toolchain preflight, and the status it leaves recorded: a fresh
    recorded verdict is reused, otherwise the worker is probed. *)
Definition toolchain_preflight_failure (now_ms : Z) (toolchain : option ToolchainInfo) (c : candidate) :
    option string * option ToolchainPreflightStatus :=
  match toolchain with
  | None => (None, preflight_status c)
  | Some _ =>
      let probed :=
        match probe_result c with
        | Ok _ => (None, Some {| usable := true; reason := None; checked_at_unix_ms := now_ms |})
        | Err r => (Some r, Some {| usable := false; reason := Some r; checked_at_unix_ms := now_ms |})
        end in
      match preflight_status c with
      | Some cached =>
          if i64_sat_sub now_ms (checked_at_unix_ms cached) <=? TOOLCHAIN_PREFLIGHT_TTL_MS then
            (if usable cached then None
             else Some (default "cached_toolchain_unusable" (reason cached)), Some cached)
          else probed
      | None => probed
      end
  end.

Definition health_score (c : candidate) : f64 :=
  f64_clamp (f64_sub (f64_of_Z 1) (CircuitStats.error_rate (circuit (state c))))
    (f64_of_Z 0) (f64_of_Z 1).

(** The optional services of a selector. *)
Record services := { admission_gate : bool; repo_convergence : bool; reliability : bool }.

Record selector := {
  cfg : SelectionConfig;
  circuit_config : CircuitStats.CircuitBreakerConfig;
  cache_tracker : CacheTracker;
  selection_history : SelectionHistory;
  wired : services;
}.

Section selection.
(** [f64::exp]. *)
Context (exp : f64 -> f64).
(** [required_os_for_command] (rch-common/src/admit_preflight.rs). *)
Context (required_os_for_command : str -> option str).
(** The number [random_range(0.0..total)] draws when it does not panic. *)
Context (draw : f64 -> f64).

Definition cache_use_for_request (r : SelectionRequest) : CacheUse :=
  match command r with
  | None => Build
  | Some cmd =>
      match Classifier.kind (Classifier.classify_command cmd) with
      | Some (Classifier.CargoTest | Classifier.CargoNextest | Classifier.CargoBench
             | Classifier.BunTest | Classifier.GoTest) => Test
      | _ => Build
      end
  end.

Definition required_os_for_request (r : SelectionRequest) : option str :=
  command r ≫= required_os_for_command.

(** ** Eligibility *)

(** What the loop of [get_eligible_workers] decides about one worker: the [continue] it
    takes, with what that [continue] counts. *)
Inductive judgement :=
  | OutsideAllowSet
  | OsGated
  | CircuitBlocked
  | ActiveForProject (has_required_runtime : bool)
  | MissingRuntime
  | ToolchainRefused
  | NoSlots (over_capacity : bool)
  | TopologyRefused
  | HardBlocked (convergence pressure : bool)
  | SoftFailed
  | BelowHealth (fallback : bool)
  | Eligible.

(** Whether convergence blocks the worker. *)
Definition convergence_blocks (s : selector) (c : candidate) : bool :=
  repo_convergence (wired s)
  && match drift_state c with Converging | DriftFailed => true | _ => false end.

(** The admission gate, or the plain pressure filter when no gate is set: whether the worker
    passes, and whether a failure is critical. *)
Definition pressure_check (s : selector) (c : candidate) : bool * bool :=
  if admission_gate (wired s) then
    match verdict c with
    | Reject code => (false, String.eqb code "admission_critical_pressure")
    | Admit _ => (true, false)
    end
  else
    match pressure c with
    | PressureCritical => (false, true)
    | _ => (true, false)
    end.

Definition load_fails (s : selector) (c : candidate) : bool :=
  match max_load_per_core (cfg s) with
  | Some max => bool_decide (is_high_load (capabilities c) max = Some true)
  | None => false
  end.

Definition disk_fails (s : selector) (c : candidate) : bool :=
  match min_free_gb (cfg s) with
  | Some min => bool_decide (is_low_disk (capabilities c) min = Some true)
  | None => false
  end.

Definition circuit_blocks (s : selector) (c : candidate) : bool :=
  match circuit_state c with
  | CircuitStats.Open => true
  | CircuitStats.HalfOpen => negb (CircuitStats.can_probe (circuit (state c)) (circuit_config s))
  | CircuitStats.Closed => false
  end.

(** The gates before the toolchain preflight. *)
Definition before_preflight (s : selector) (r : SelectionRequest) (excluded : list string)
    (c : candidate) : option judgement :=
  if negb (bool_decide (preferred_workers r = [])) && negb (bool_decide (worker_id c ∈ preferred_workers r))
  then Some OutsideAllowSet
  else if negb (os_gate_admits (declared_os (tags (config (state c)))) (required_os_for_request r))
  then Some OsGated
  else if circuit_blocks s c then Some CircuitBlocked
  else
    let has_required_runtime := has_runtime (capabilities c) (required_runtime r) in
    if bool_decide (worker_id c ∈ excluded) then Some (ActiveForProject has_required_runtime)
    else if negb has_required_runtime then Some MissingRuntime
    else if toolchain_capability_mismatch (toolchain r) (capabilities c) then Some ToolchainRefused
    else None.

(** The gates after it. *)
Definition after_preflight (s : selector) (r : SelectionRequest) (c : candidate) : judgement :=
  if available_slots (state c) <? estimated_cores r then
    NoSlots (total_slots (config (state c)) <? estimated_cores r)
  else if bool_decide (projects_root_ok (capabilities c) = Some false) then TopologyRefused
  else
    let conv := convergence_blocks s c in
    let (passes, critical) := pressure_check s c in
    let quarantined := reliability (wired s) && hard_exclude c in
    if conv || critical || quarantined then HardBlocked conv critical
    else if negb passes || load_fails s c || disk_fails s c then SoftFailed
    else if f64_lt (health_score c) (min_success_rate (cfg s)) then
      BelowHealth (f64_ge (health_score c) (fallback_min_success_rate (affinity (cfg s))))
    else Eligible.

Definition judge (s : selector) (now_ms : Z) (r : SelectionRequest) (excluded : list string)
    (c : candidate) : judgement :=
  match before_preflight s r excluded c with
  | Some j => j
  | None =>
      if bool_decide (is_Some (fst (toolchain_preflight_failure now_ms (toolchain r) c)))
      then ToolchainRefused
      else after_preflight s r c
  end.

(** The vectors and counters of the loop. *)
Record tally := {
  matched_preferred_worker : bool;
  any_has_runtime : bool;
  eligible : list candidate;
  preferred : list candidate;
  eligible_without_health : list candidate;
  preferred_without_health : list candidate;
  by_health : Z; by_hard : Z; by_convergence : Z; by_pressure : Z; by_os : Z; by_slots : Z;
  by_capacity : Z; by_active : Z;
}.

Definition no_tally : tally :=
  {| matched_preferred_worker := false; any_has_runtime := false; eligible := []; preferred := [];
     eligible_without_health := []; preferred_without_health := []; by_health := 0; by_hard := 0;
     by_convergence := 0; by_pressure := 0; by_os := 0; by_slots := 0; by_capacity := 0;
     by_active := 0 |}.

Definition one (b : bool) : Z := if b then 1 else 0.

Definition appended (b : bool) (c : candidate) (l : list candidate) : list candidate :=
  if b then l ++ [c] else l.

(** One turn of the loop. *)
Definition count (has_preferred : bool) (t : tally) (c : candidate) (j : judgement) : tally :=
  let allowed := match j with OutsideAllowSet => false | _ => true end in
  let runtime :=
    match j with
    | OutsideAllowSet | OsGated | CircuitBlocked | ActiveForProject false | MissingRuntime => false
    | _ => true
    end in
  {| matched_preferred_worker := matched_preferred_worker t || allowed;
     any_has_runtime := any_has_runtime t || runtime;
     eligible := appended (match j with Eligible => true | _ => false end) c (eligible t);
     preferred := appended (match j with Eligible => has_preferred | _ => false end) c (preferred t);
     eligible_without_health :=
       appended (match j with
                 | SoftFailed => true
                 | BelowHealth true => negb has_preferred
                 | _ => false
                 end) c (eligible_without_health t);
     preferred_without_health :=
       appended (match j with
                 | SoftFailed => has_preferred
                 | BelowHealth true => has_preferred
                 | _ => false
                 end) c (preferred_without_health t);
     by_health := by_health t + one (match j with BelowHealth _ => true | _ => false end);
     by_hard := by_hard t + one (match j with
                                 | ToolchainRefused | TopologyRefused | HardBlocked _ _ => true
                                 | _ => false
                                 end);
     by_convergence := by_convergence t + one (match j with HardBlocked conv _ => conv | _ => false end);
     by_pressure := by_pressure t + one (match j with HardBlocked _ p => p | _ => false end);
     by_os := by_os t + one (match j with OsGated => true | _ => false end);
     by_slots := by_slots t + one (match j with NoSlots over => negb over | _ => false end);
     by_capacity := by_capacity t + one (match j with NoSlots over => over | _ => false end);
     by_active := by_active t + one (match j with ActiveForProject true => true | _ => false end) |}.

Definition runtime_label (r : RequiredRuntime) : string :=
  match r with
  | NoRuntime => "None" | Rust => "Rust" | Bun => "Bun" | Node => "Node" | Nix => "Nix"
  | Go => "Go" | Zig => "Zig"
  end.

Definition part (name : string) (n : Z) : list string :=
  if 0 <? n then [name +:+ "=" +:+ pretty n] else [].

Definition no_admissible_workers_summary (critical_pressure insufficient_slots insufficient_capacity
    hard_preflight health_below_fallback : Z) : string :=
  String.concat ","
    (part "critical_pressure" critical_pressure ++ part "insufficient_slots" insufficient_slots
     ++ part "insufficient_total_slots" insufficient_capacity
     ++ part "health_below_fallback" health_below_fallback
     ++ part "hard_preflight" (sat_sub hard_preflight critical_pressure)).

Definition no_admissible_workers_summary_with_active_project (critical_pressure insufficient_slots
    insufficient_capacity hard_preflight health_below_fallback active : Z) : string :=
  let summary := no_admissible_workers_summary critical_pressure insufficient_slots
                   insufficient_capacity hard_preflight health_below_fallback in
  if active =? 0 then summary
  else
    (if String.eqb summary "" then summary else summary +:+ ",")
    +:+ "active_project_exclusion=" +:+ pretty active.

Definition quote : string := String (Ascii.ascii_of_nat 34) EmptyString.

Definition str_text (s : str) : string :=
  String.string_of_list_ascii ((fun b => Ascii.ascii_of_N (Z.to_N b)) <$> s).

Definition os_gate_detail (n : Z) (required : option str) : string :=
  "os_gate_excluded=" +:+ pretty n +:+ " required_os="
  +:+ match required with
      | Some os =>
          str_text os +:+ " (no worker declares `os = " +:+ quote +:+ str_text os +:+ quote
          +:+ "` in workers.toml)"
      | None =>
          "none (every candidate declares an `os`, which restricts it to commands targeting "
          +:+ "that OS; an unqualified build needs at least one worker with no `os` set)"
      end.

Definition no_fallback (t : tally) : bool :=
  bool_decide (preferred_without_health t = []) && bool_decide (eligible_without_health t = []).

(** What [get_eligible_workers] returns after the loop. *)
Definition conclude (r : SelectionRequest) (t : tally) : result SelectionReason (list candidate) :=
  let has_preferred := negb (bool_decide (preferred_workers r = [])) in
  if has_preferred && negb (matched_preferred_worker t) then Err NoMatchingWorkers
  else if (0 <? by_os t) && bool_decide (eligible t = []) && bool_decide (preferred t = []) && no_fallback t
  then Err (NoAdmissibleWorkers (os_gate_detail (by_os t) (required_os_for_request r)))
  else if negb (any_has_runtime t) && negb (bool_decide (required_runtime r = NoRuntime))
  then Err (NoWorkersWithRuntime (runtime_label (required_runtime r)))
  else if has_preferred && negb (bool_decide (preferred t = [])) then Ok (preferred t)
  else if has_preferred && negb (bool_decide (preferred_without_health t = []))
  then Ok (preferred_without_health t)
  else if has_preferred && (0 <? by_slots t) then Ok []
  else if has_preferred then Err NoMatchingWorkers
  else if negb (bool_decide (eligible t = [])) then Ok (eligible t)
  else if ((0 <? by_active t) || ((0 <? by_capacity t) && (by_slots t =? 0))) && no_fallback t
  then Err (NoAdmissibleWorkers
              (no_admissible_workers_summary_with_active_project (by_pressure t) (by_slots t)
                 (by_capacity t) (by_hard t) (by_health t) (by_active t)))
  else if (0 <? by_hard t) && no_fallback t then
    if (0 <? by_pressure t) || (0 <? by_slots t) || (0 <? by_capacity t) || (0 <? by_health t)
    then Err (NoAdmissibleWorkers
                (no_admissible_workers_summary (by_pressure t) (by_slots t) (by_capacity t)
                   (by_hard t) (by_health t)))
    else if (0 <? by_convergence t) && (by_hard t <=? by_convergence t)
    then Err AllWorkersFailedConvergence
    else Err AllWorkersFailedPreflight
  else if (0 <? by_health t) && no_fallback t then Err NoWorkersPassedHealth
  else Ok (eligible_without_health t).

(** Why no worker is healthy. *)
Definition no_healthy_reason (pool : list candidate) : SelectionReason :=
  if bool_decide (pool = []) then NoWorkersConfigured
  else if forallb circuit_open pool then AllCircuitsOpen
  else AllWorkersUnreachable.

Definition get_eligible_workers (s : selector) (now_ms : Z) (pool : list candidate)
    (r : SelectionRequest) (excluded : list string) : result SelectionReason (list candidate) :=
  let workers := filter (fun c => healthy c = true) pool in
  if bool_decide (workers = []) then Err (no_healthy_reason pool)
  else
    conclude r
      (fold_left (fun t c => count (negb (bool_decide (preferred_workers r = []))) t c
                               (judge s now_ms r excluded c)) workers no_tally).

(** ** Strategies *)

(** The loop [if score > best_score { best = worker }] from [f64::NEG_INFINITY]. *)
Definition best_by (score : candidate -> f64) (l : list candidate) : option candidate :=
  fst (fold_left (fun acc c => if f64_gt (score c) (snd acc) then (Some c, score c) else acc)
         l (None, S754_infinity true)).

Definition priority_selection_score (priority : Z) (warmth speed : f64) (p : CommandPriority) : f64 :=
  let warmth := if is_finite warmth then f64_clamp warmth (f64_of_Z 0) (f64_of_Z 1) else f64_of_Z 0 in
  let speed := if is_finite speed then f64_clamp speed (f64_of_Z 0) (f64_of_Z 100) else f64_of_Z 0 in
  let tie_break :=
    match p with
    | High => f64_add (f64_mul speed (f64_of_Z 10)) warmth
    | Normal | Low => f64_add (f64_mul warmth (f64_of_Z 1000)) speed
    end in
  f64_add (f64_mul (f64_of_Z priority) (f64_of_Z 10000)) tie_break.

Definition warmth_of (s : selector) (now : Z) (r : SelectionRequest) (c : candidate) : f64 :=
  estimate_warmth exp now (cache_tracker s) (worker_id c) (project r) (cache_use_for_request r).

Definition select_by_priority (s : selector) (now : Z) (r : SelectionRequest) (l : list candidate) :
    option candidate :=
  best_by (fun c => priority_selection_score (priority (config (state c))) (warmth_of s now r c)
                      (speed_score c) (command_priority r)) l.

Definition select_by_fastest (l : list candidate) : option candidate :=
  fold_left (fun best c =>
    match best with
    | None => Some c
    | Some b => if f64_gt (speed_score c) (speed_score b) then Some c else best
    end) l None.

Definition adjust_weights_for_priority (w : SelectionWeightConfig) (r : SelectionRequest) :
    SelectionWeightConfig :=
  match command_priority r with
  | Normal => w
  | High =>
      {| w_speedscore := f64_mul (w_speedscore w) (lit 125 100); w_slots := w_slots w;
         w_health := w_health w; w_cache := f64_mul (w_cache w) (lit 85 100);
         w_network := f64_mul (w_network w) (lit 115 100); w_priority := w_priority w;
         w_half_open_penalty := w_half_open_penalty w |}
  | Low =>
      {| w_speedscore := f64_mul (w_speedscore w) (lit 85 100);
         w_slots := f64_mul (w_slots w) (lit 115 100); w_health := w_health w;
         w_cache := f64_mul (w_cache w) (lit 125 100);
         w_network := f64_mul (w_network w) (lit 85 100); w_priority := w_priority w;
         w_half_open_penalty := w_half_open_penalty w |}
  end.

Definition priority_range (l : list candidate) : Z * Z :=
  let p := fun c => priority (config (state c)) in
  let min_priority := fold_left (fun m c => Z.min m (p c)) l (2 ^ 32 - 1) in
  let max_priority := fold_left (fun m c => Z.max m (p c)) l 0 in
  if min_priority =? 2 ^ 32 - 1 then (0, 0) else (min_priority, max_priority).

Definition normalize_priority (priority min_priority max_priority : Z) : f64 :=
  if max_priority =? min_priority then f64_of_Z 1
  else f64_div (f64_of_Z (sat_sub priority min_priority)) (f64_of_Z (wsub 32 max_priority min_priority)).

Definition last_latency_ms (c : candidate) : option Z :=
  if latency_cell c =? 0 then None else Some (latency_cell c).

Definition normalize_latency_ms (latency_ms : Z) : f64 :=
  f64_clamp (f64_div (f64_of_Z 1)
               (f64_add (f64_of_Z 1) (f64_div (f64_of_Z latency_ms) (f64_of_Z 200))))
    (f64_of_Z 0) (f64_of_Z 1).

Definition network_score (c : candidate) : f64 :=
  from_option normalize_latency_ms (lit 1 2) (last_latency_ms c).

(** [AdmissionVerdict::pressure_penalty] (rchd/src/admission.rs). *)
Definition pressure_penalty_of (v : AdmissionVerdict) : f64 :=
  match v with Admit p => p | Reject _ => f64_of_Z 1 end.

(** [if p > 0.0 { score *= 1.0 - p }]. *)
Definition penalised (score p : f64) : f64 :=
  if f64_gt p (f64_of_Z 0) then f64_mul score (f64_sub (f64_of_Z 1) p) else score.

Definition compute_balanced_score (s : selector) (now : Z) (r : SelectionRequest)
    (w : SelectionWeightConfig) (min_priority max_priority : Z) (c : candidate) : f64 :=
  let speed := f64_clamp (f64_div (speed_score c) (f64_of_Z 100)) (f64_of_Z 0) (f64_of_Z 1) in
  let total := total_slots (config (state c)) in
  let available := available_slots (state c) in
  if total =? 0 then f64_of_Z 0
  else
    let utilization := f64_div (f64_of_Z (sat_sub total available)) (f64_of_Z total) in
    let load_factor := f64_sub (f64_of_Z 1) (f64_mul utilization (lit 1 2)) in
    let slot_score := f64_div (f64_of_Z available) (f64_of_Z total) in
    let warmth := warmth_of s now r c in
    let cache_score :=
      if bool_decide (cache_use_for_request r = Test)
      then f64_min (f64_mul warmth (lit 3 2)) (f64_of_Z 1) else warmth in
    let priority_score := normalize_priority (priority (config (state c))) min_priority max_priority in
    let base_score :=
      f64_add (f64_add (f64_add (f64_add (f64_add
        (f64_mul (w_speedscore w) speed)
        (f64_mul (f64_mul (w_slots w) slot_score) load_factor))
        (f64_mul (w_health w) (health_score c)))
        (f64_mul (w_cache w) cache_score))
        (f64_mul (w_network w) (network_score c)))
        (f64_mul (w_priority w) priority_score) in
    let score := if half_open c then f64_mul base_score (w_half_open_penalty w) else base_score in
    let score := if admission_gate (wired s) then penalised score (pressure_penalty_of (verdict c)) else score in
    let score := if reliability (wired s) then penalised score (reliability_penalty c) else score in
    if is_pre_v3_x86 (capabilities c) then f64_mul score (f64_sub (f64_of_Z 1) (lit 1 2)) else score.

Definition select_balanced (s : selector) (now : Z) (r : SelectionRequest) (l : list candidate) :
    option candidate :=
  let (min_priority, max_priority) := priority_range l in
  best_by (compute_balanced_score s now r (adjust_weights_for_priority (weights (cfg s)) r)
             min_priority max_priority) l.

Definition select_cache_affinity (s : selector) (now : Z) (r : SelectionRequest) (l : list candidate) :
    option candidate :=
  match List.filter (fun c => f64_gt (warmth_of s now r c) (lit 1 2)) l with
  | [] => select_by_fastest l
  | warm => select_by_fastest warm
  end.

Definition fair_weight (s : selector) (now : Z) (c : candidate) : f64 :=
  f64_div (f64_max (speed_score c) (f64_of_Z 10))
    (f64_add (f64_of_Z 1)
       (f64_of_Z (Z.of_nat (recent_selections now (selection_history s) (worker_id c)
                              (lookback_secs (cfg s) * 10 ^ 9))))).

(** The first worker whose cumulative weight reaches the threshold. *)
Fixpoint reach (threshold cumulative : f64) (l : list (candidate * f64)) : option candidate :=
  match l with
  | [] => None
  | (c, w) :: l =>
      let cumulative := f64_add cumulative w in
      if f64_ge cumulative threshold then Some c else reach threshold cumulative l
  end.

(** [random_range(0.0..total)]: it panics ([None]) when the range is empty or not finite. *)
Definition random_range (total : f64) : option f64 :=
  if f64_lt (f64_of_Z 0) total && is_finite total then Some (draw total) else None.

Definition total_weight (weighted : list (candidate * f64)) : f64 :=
  fold_left (fun acc x => f64_add acc (snd x)) weighted (f64_of_Z 0).

(** The outer [None] is a panic. *)
Definition select_fair_fastest (s : selector) (now : Z) (l : list candidate) :
    option (option candidate) :=
  let weighted := (fun c => (c, fair_weight s now c)) <$> l in
  if bool_decide (l = []) then Some None
  else if f64_le (total_weight weighted) (f64_of_Z 0) then Some (head l)
  else
    threshold ← random_range (total_weight weighted);
    match reach threshold (f64_of_Z 0) weighted with
    | Some c => Some (Some c)
    | None => Some (last l)
    end.

(** ** The affinity pin and the fallback *)

Definition pinned_worker_of (s : selector) (now : Z) (project : string) : option string :=
  if enabled (affinity (cfg s)) then
    get_pinned_worker now (cache_tracker s) project
      (wmul 64 (pin_minutes (affinity (cfg s))) 60 * 10 ^ 9)
  else None.

Definition get_fallback_worker (s : selector) (project : string) : option string :=
  if enable_last_success_fallback (affinity (cfg s)) then
    success_worker <$> get_last_success_worker (cache_tracker s) project
  else None.

(** Find a worker by its identifier. *)
Definition by_id (id : string) (l : list candidate) : option candidate :=
  List.find (fun c => bool_decide (worker_id c = id)) l.

Definition try_pinned_worker (s : selector) (now : Z) (r : SelectionRequest) (excluded : list string)
    (l : list candidate) : option candidate :=
  if negb (enabled (affinity (cfg s))) then None
  else
    pinned_worker_id ← pinned_worker_of s now (project r);
    if bool_decide (pinned_worker_id ∈ excluded) then None
    else
      worker ← by_id pinned_worker_id l;
      if existsb (fun c => (priority (config (state worker)) <? priority (config (state c)))
                           && (estimated_cores r <=? available_slots (state c))) l
      then None else Some worker.

Definition try_fallback (s : selector) (pool : list candidate) (r : SelectionRequest)
    (excluded : list string) : option string :=
  if negb (enable_last_success_fallback (affinity (cfg s))) then None
  else
    fallback_id ← get_fallback_worker s (project r);
    if bool_decide (fallback_id ∈ excluded) then None
    else
      c ← by_id fallback_id pool;
      if negb (os_gate_admits (declared_os (tags (config (state c)))) (required_os_for_request r)) then None
      else if negb (healthy c) then None
      else if available_slots (state c) <? estimated_cores r then None
      else if circuit_open c then None
      else if f64_lt (health_score c) (fallback_min_success_rate (affinity (cfg s))) then None
      else Some fallback_id.

(** ** A selection *)

(** The outer [None] is a panic. *)
Definition run_strategy (s : selector) (now : Z) (r : SelectionRequest) (l : list candidate) :
    option (option candidate) :=
  match strategy (cfg s) with
  | Priority => Some (select_by_priority s now r l)
  | Fastest =>
      match command_priority r with
      | Low => select_fair_fastest s now l
      | _ => Some (select_by_fastest l)
      end
  | Balanced => Some (select_balanced s now r l)
  | CacheAffinity =>
      match command_priority r with
      | High => Some (select_by_fastest l)
      | Normal | Low => Some (select_cache_affinity s now r l)
      end
  | FairFastest =>
      match command_priority r with
      | High => Some (select_by_fastest l)
      | _ => select_fair_fastest s now l
      end
  end.

(** The answer, the selector with its history, and the pool with the toolchain verdicts and
    the probe the selection recorded. *)
Record outcome := {
  worker : option string;
  why : SelectionReason;
  selector_after : selector;
  pool_after : list candidate;
}.

Definition with_state (w : WorkerState.t) (p : option ToolchainPreflightStatus) (c : candidate) : candidate :=
  {| state := w; speed_score := speed_score c; latency_cell := latency_cell c;
     capabilities := capabilities c; preflight_status := p; probe_result := probe_result c;
     pressure := pressure c; verdict := verdict c; drift_state := drift_state c;
     hard_exclude := hard_exclude c; reliability_penalty := reliability_penalty c |}.

(** [record_toolchain_preflight] for the workers the loop probed. *)
Definition record_preflight (s : selector) (now_ms : Z) (r : SelectionRequest) (excluded : list string)
    (c : candidate) : candidate :=
  if healthy c && bool_decide (before_preflight s r excluded c = None)
  then with_state (state c) (snd (toolchain_preflight_failure now_ms (toolchain r) c)) c
  else c.

(** [start_probe] on the chosen worker when its circuit is half open. *)
Definition probe_if_half_open (s : selector) (chosen : candidate) (c : candidate) : candidate :=
  if half_open chosen && bool_decide (worker_id c = worker_id chosen)
  then with_state (snd (start_probe (circuit_config s) (state c))) (preflight_status c) c
  else c.

Definition with_history (h : SelectionHistory) (s : selector) : selector :=
  {| cfg := cfg s; circuit_config := circuit_config s; cache_tracker := cache_tracker s;
     selection_history := h; wired := wired s |}.

Definition no_worker (s : selector) (pool : list candidate) (reason : SelectionReason) : outcome :=
  {| worker := None; why := reason; selector_after := s; pool_after := pool |}.

Definition chosen (s : selector) (now : Z) (pool : list candidate) (c : candidate)
    (reason : SelectionReason) : outcome :=
  {| worker := Some (worker_id c); why := reason;
     selector_after := with_history (record_selection now (worker_id c) (selection_history s)) s;
     pool_after := probe_if_half_open s c <$> pool |}.

(** [None] when the strategy panics. *)
Definition select_with_exclusions (s : selector) (now now_ms : Z) (pool : list candidate)
    (r : SelectionRequest) (excluded : list string) : option outcome :=
  let probed := record_preflight s now_ms r excluded <$> pool in
  match get_eligible_workers s now_ms pool r excluded with
  | Err reason => Some (no_worker s probed reason)
  | Ok [] =>
      match (if bool_decide (preferred_workers r = []) then try_fallback s pool r excluded else None) with
      | Some id =>
          Some {| worker := Some id; why := AffinityFallback; selector_after := s; pool_after := probed |}
      | None => Some (no_worker s probed AllWorkersBusy)
      end
  | Ok l =>
      match try_pinned_worker s now r excluded l with
      | Some c => Some (chosen s now probed c AffinityPinned)
      | None =>
          answer ← run_strategy s now r l;
          match answer with
          | Some c => Some (chosen s now probed c Success)
          | None => Some (no_worker s probed AllWorkersBusy)
          end
      end
  end.

End selection.
End Selector.

Module AffinityFacts.
Import Affinity.

Section tracker.
Context (iter : forall A, gmap string A -> list (string * A)).
(** Iterating a hash map visits its entries, each once, in some order. *)
Hypothesis iter_entries : forall A (m : gmap string A), iter A m ≡ₚ map_to_list m.

Lemma min_by_key_spec {A} (key : A -> option Z) (l : list (string * A)) :
  match min_by_key key l with
  | None => l = []
  | Some b => b ∈ l /\ forall x, x ∈ l -> instant_ltb (key (snd x)) (key (snd b)) = false
  end.
Proof.
  unfold min_by_key. induction l as [|c l IH] using rev_ind; [done|].
  assert (Hr : forall o, instant_ltb o o = false) by (intros [?|]; [apply Z.ltb_irrefl|done]).
  rewrite fold_left_app. cbn [fold_left]. destruct (fold_left _ l _) as [b|].
  - destruct IH as [Hin Hmin]. destruct (instant_ltb (key c.2) (key b.2)) eqn:E.
    + split; [apply elem_of_app; right; by apply list_elem_of_singleton|].
      intros x [Hx | ->%list_elem_of_singleton]%elem_of_app; [|done].
      apply Hmin in Hx. destruct (key c.2), (key b.2), (key x.2); cbn in *; try done; lia.
    + split; [apply elem_of_app; by left|].
      intros x [Hx | ->%list_elem_of_singleton]%elem_of_app; auto.
  - subst. split; [by apply list_elem_of_singleton|]. by intros x ->%list_elem_of_singleton.
Qed.

(** The entry the eviction removes is in the map and none is older. *)
Lemma victim {A} (key : A -> option Z) (m : gmap string A) : m <> ∅ ->
  exists k v, min_by_key key (iter A m) = Some (k, v) /\ m !! k = Some v /\
    forall k' v', m !! k' = Some v' -> instant_ltb (key v') (key v) = false.
Proof.
  intros Hne. pose proof (min_by_key_spec key (iter A m)) as H.
  destruct (min_by_key _ _) as [[k v]|].
  - destruct H as [Hin Hmin]. exists k, v. split; [done|].
    rewrite iter_entries in Hin. split; [by apply elem_of_map_to_list|].
    intros k' v' Hk'. apply (Hmin (k', v')). rewrite iter_entries. by apply elem_of_map_to_list.
  - pose proof (iter_entries A m) as Hp. rewrite H in Hp.
    apply Permutation_nil_l in Hp. symmetry in Hp. by apply map_to_list_empty_iff in Hp.
Qed.

Lemma over_nonempty {A} (m : gmap string A) max : (max <? size m)%nat = true -> m <> ∅.
Proof. intros H%Nat.ltb_lt ->. rewrite map_size_empty in H. lia. Qed.

Lemma evict_bounded {A} (key : A -> option Z) max (m : gmap string A) fuel :
  (size m <= fuel)%nat -> (size (evict iter fuel key max m) <= max)%nat.
Proof.
  revert m. induction fuel as [|fuel IH]; intros m Hf; cbn [evict]; [lia|].
  destruct (max <? size m)%nat eqn:E; [|by apply Nat.ltb_ge in E].
  destruct (victim key m (over_nonempty _ _ E)) as (k & v & -> & Hk & _).
  apply IH. rewrite map_size_delete_Some by eauto. apply Nat.ltb_lt in E. lia.
Qed.

Lemma evict_keeps {A} (key : A -> option Z) max (m : gmap string A) fuel k v :
  (1 <= max)%nat -> m !! k = Some v ->
  (forall k' v', m !! k' = Some v' -> k' <> k -> instant_ltb (key v') (key v) = true) ->
  evict iter fuel key max m !! k = Some v.
Proof.
  intros Hmax. revert m. induction fuel as [|fuel IH]; intros m Hk Hold; cbn [evict]; [done|].
  destruct (max <? size m)%nat eqn:E; [|done].
  destruct (victim key m (over_nonempty _ _ E)) as (k' & v' & -> & Hk' & Hmin).
  assert (Hne : k' <> k).
  { intros ->. rewrite Hk in Hk'. injection Hk' as <-.
    assert (Hd : delete k m <> ∅).
    { intros Hd. pose proof (map_size_delete_Some k m (mk_is_Some _ _ Hk)) as Hs. rewrite Hd, map_size_empty in Hs.
      apply Nat.ltb_lt in E. lia. }
    apply map_choose in Hd as (j & x & [Hj Hx]%lookup_delete_Some).
    specialize (Hold j x Hx ltac:(congruence)). by rewrite (Hmin j x Hx) in Hold. }
  apply IH; [by rewrite lookup_delete_ne|].
  intros j x [Hj Hx]%lookup_delete_Some. by apply Hold.
Qed.

(** ** Bounds *)

(** The calls that change the tracker and the history. *)
Inductive call :=
  | Built (now : Z) (worker project : string) (use : CacheUse)
  | Succeeded (now : Z) (worker project : string)
  | Selected (now : Z) (worker : string)
  | Pruned (now max_age : Z).

Definition perform (k : call) (st : CacheTracker * SelectionHistory) : CacheTracker * SelectionHistory :=
  let (t, h) := st in
  match k with
  | Built now w p use => (record_build iter now w p use t, h)
  | Succeeded now w p => (record_success iter now w p t, h)
  | Selected now w => (t, record_selection now w h)
  | Pruned now age => (t, prune now age h)
  end.

Definition run (ks : list call) : CacheTracker * SelectionHistory :=
  fold_left (fun st k => perform k st) ks (tracker_new, history_default).

Record bounded (st : CacheTracker * SelectionHistory) : Prop := {
  b_projects : map_Forall (fun _ m => (size m <= 50)%nat) (workers st.1);
  b_success : (size (last_success_by_project st.1) <= 200)%nat;
  b_history : map_Forall (fun _ l => (length l <= 100)%nat) (selections st.2);
  b_max : max_projects_per_worker st.1 = 50%nat /\ max_success_projects st.1 = 200%nat /\
          max_history_per_worker st.2 = 100%nat;
}.

Lemma drop_old_length now age l : (length (drop_old now age l) <= length l)%nat.
Proof. induction l as [|x l IH]; cbn; [lia|]. destruct (_ <=? _); cbn; lia. Qed.

Lemma perform_bounded k st : bounded st -> bounded (perform k st).
Proof.
  destruct st as [t h]. intros [Hp Hs Hh (H1 & H2 & H3)]. cbn in *.
  destruct k as [now w p use|now w p|now w|now age]; constructor; cbn; try done.
  - apply map_Forall_insert_2; [|done]. rewrite H1. by apply evict_bounded.
  - apply map_Forall_insert_2; [|done]. rewrite H1. by apply evict_bounded.
  - rewrite H2. by apply evict_bounded.
  - apply map_Forall_insert_2; [|done]. rewrite H3, length_drop, length_app. cbn. lia.
  - intros w l. rewrite lookup_fmap, fmap_Some. intros (l0 & Hl0 & ->).
    pose proof (drop_old_length now age l0). specialize (Hh w l0 Hl0). cbn in Hh. lia.
Qed.

(** Whatever builds, successes, selections and prunings happen, and in whatever order a
    hash map is iterated, the tracker holds at most 50 projects per worker and 200 last
    successes, and the history at most 100 selections per worker. *)
Theorem tracker_bounded ks : bounded (run ks).
Proof.
  unfold run. induction ks as [|k ks IH] using rev_ind.
  - constructor; [apply map_Forall_empty| |apply map_Forall_empty|done].
    cbn. rewrite map_size_empty. apply Nat.le_0_l.
  - rewrite fold_left_app. by apply perform_bounded.
Qed.

(** A success is remembered: recorded later than every other project's, it survives the
    eviction it may itself cause, and pins the project to that worker for the whole of the
    pin window and no longer. *)
Theorem success_pins t now w p later window :
  (1 <= max_success_projects t)%nat ->
  (forall q e, last_success_by_project t !! q = Some e -> timestamp e < now) ->
  now <= later ->
  get_pinned_worker later (record_success iter now w p t) p window
  = if later - now <? window then Some w else None.
Proof.
  intros Hmax Hold Hle. unfold get_pinned_worker, record_success.
  cbn [last_success_by_project]. erewrite evict_keeps; [|done|by rewrite lookup_insert_eq|].
  - cbn. unfold sat_sub. by rewrite Z.max_r by lia.
  - intros k v Hk Hne. rewrite lookup_insert_ne in Hk by done. cbn. apply Z.ltb_lt. eauto.
Qed.

End tracker.

Lemma tracker_bounded_witness :
  bounded (run (fun A m => map_to_list m) [Built 1 "css" "rch" Test; Succeeded 2 "css" "rch"]).
Proof. apply (tracker_bounded (fun A m => map_to_list m)). intros. apply Permutation_refl. Defined.

Lemma success_pins_witness :
  get_pinned_worker (60 * 10 ^ 9) (record_success (fun A m => map_to_list m) 5 "css" "rch" tracker_new)
    "rch" HOUR = Some "css".
Proof.
  rewrite (success_pins (fun A m => map_to_list m) ltac:(intros; apply Permutation_refl) tracker_new 5 "css" "rch"
             (60 * 10 ^ 9) HOUR); [reflexivity|cbn; lia| |lia].
  intros q e H. cbn in H. by rewrite lookup_empty in H.
Defined.

End AffinityFacts.
