(* ===== verification/Choice.v ===== *)
(** * Correctness of worker selection

    What the eligibility loop of Selection.v keeps, what each strategy returns, and from
    these the guarantees of a whole selection: the worker returned is admissible, an
    admissible worker is never overlooked, and what the last-success fallback can reach. *)

From stdpp Require Import base gmap list strings.
From Stdlib Require Import ZArith Lia.
From Corelib Require Import SpecFloat.
From S2P Require Import Prelude Floats Bytes Text Circuit Lifecycle Worker Classifier Selection.
Import WorkerLifecycle.

Module SelectionFacts.
Import Affinity WorkerState Selector FloatFacts.

(** Split the conditions of [H], dropping the branches it rules out. *)
Ltac gate H :=
  repeat match type of H with
         | context [if ?b then _ else _] => destruct b eqn:?; try discriminate H
         end.

Section facts.
Context (exp : f64 -> f64) (required_os_for_command : str -> option str) (draw : f64 -> f64).

Abbreviation os_of := (required_os_for_request required_os_for_command).

(** ** The strategies *)

Lemma best_by_spec score l :
  match best_by score l with
  | Some c => c ∈ l /\ (forall d, d ∈ l -> f64_gt (score d) (score c) = false)
  | None => forall d, d ∈ l -> f64_gt (score d) (S754_infinity true) = false
  end.
Proof.
  unfold best_by.
  enough (H : forall best,
    best = fold_left (fun acc c => if f64_gt (score c) (snd acc) then (Some c, score c) else acc)
             l (None, S754_infinity true) ->
    (forall d, d ∈ l -> f64_gt (score d) (snd best) = false) /\
    match fst best with
    | Some c => c ∈ l /\ snd best = score c
    | None => snd best = S754_infinity true
    end).
  { destruct (H _ eq_refl) as [H1 H2]. destruct (fold_left _ _ _) as [[c|] b]; cbn in *.
    - destruct H2 as [? ->]. done.
    - by subst. }
  intros ? ->. induction l as [|c l IH] using rev_ind; [split; [by intros d ?%elem_of_nil|done]|].
  rewrite fold_left_app. cbn [fold_left]. destruct (fold_left _ l _) as [best b].
  cbn [fst snd] in *. destruct IH as [Hmax Hin].
  destruct (f64_gt (score c) b) eqn:E; cbn [fst snd].
  - split; [|split; [apply elem_of_app; right; by apply list_elem_of_singleton|done]].
    intros d [Hd | ->%list_elem_of_singleton]%elem_of_app; [|apply f64_lt_irrefl].
    apply Hmax in Hd. destruct (f64_gt (score d) (score c)) eqn:E2; [|done].
    rewrite <- Hd. symmetry. by apply (f64_lt_trans b (score c)).
  - split.
    + intros d [Hd | ->%list_elem_of_singleton]%elem_of_app; auto.
    + destruct best; [|done]. destruct Hin. split; [|done]. apply elem_of_app. by left.
Qed.

Lemma best_by_in score l c : best_by score l = Some c -> c ∈ l.
Proof. intros E. pose proof (best_by_spec score l) as H. rewrite E in H. apply H. Qed.

Lemma best_by_some score l :
  l <> [] -> (forall c, c ∈ l -> nonneg (score c)) -> is_Some (best_by score l).
Proof.
  intros Hne Hn. pose proof (best_by_spec score l) as H.
  destruct (best_by score l); [done|]. destruct l as [|c l]; [done|].
  specialize (Hn c ltac:(left)). apply nonneg_above in Hn. by rewrite (H c ltac:(left)) in Hn.
Qed.

Lemma fastest_spec l :
  match select_by_fastest l with
  | Some c => c ∈ l /\ forall d, d ∈ l -> f64_gt (speed_score d) (speed_score c) = false
  | None => l = []
  end.
Proof.
  unfold select_by_fastest.
  induction l as [|c l IH] using rev_ind; [done|].
  rewrite fold_left_app. cbn [fold_left]. destruct (fold_left _ l _) as [b|].
  - destruct IH as [Hin Hmax].
    destruct (f64_gt (speed_score c) (speed_score b)) eqn:E.
    + split; [apply elem_of_app; right; by apply list_elem_of_singleton|].
      intros d [Hd | ->%list_elem_of_singleton]%elem_of_app; [|apply f64_lt_irrefl].
      apply Hmax in Hd. destruct (f64_gt (speed_score d) (speed_score c)) eqn:E2; [|done].
      rewrite <- Hd. symmetry. by apply (f64_lt_trans _ (speed_score c)).
    + split; [apply elem_of_app; by left|].
      intros d [Hd | ->%list_elem_of_singleton]%elem_of_app; auto.
  - subst. split; [by apply list_elem_of_singleton|].
    intros d ->%list_elem_of_singleton. apply f64_lt_irrefl.
Qed.

Lemma fastest_in l c : select_by_fastest l = Some c -> c ∈ l.
Proof. intros E. pose proof (fastest_spec l) as H. rewrite E in H. apply H. Qed.

Lemma fastest_some l : l <> [] -> is_Some (select_by_fastest l).
Proof. pose proof (fastest_spec l) as H. by destruct (select_by_fastest l). Qed.

Lemma reach_in threshold cum ws c : reach threshold cum ws = Some c -> c ∈ ws.*1.
Proof.
  revert cum. induction ws as [|[d w] ws IH]; intros cum; cbn; [done|].
  destruct (f64_ge _ _); intros E; [simplify_eq; left|right; eauto].
Qed.

Lemma fair_in s now l c : select_fair_fastest draw s now l = Some (Some c) -> c ∈ l.
Proof.
  unfold select_fair_fastest. case_bool_decide; [done|].
  destruct (f64_le _ _); [by destruct l; intros; simplify_eq/=; left|].
  destruct (random_range _ _) as [t|]; cbn [mbind option_bind]; [|done].
  destruct (reach _ _ _) as [d|] eqn:E; intros Hd; simplify_eq.
  - apply reach_in in E. rewrite <- list_fmap_compose in E. cbn in E. by rewrite list_fmap_id in E.
  - by apply last_Some_elem_of.
Qed.

(** The weights of the fair draw add up to a number that is not finite. *)
Definition overflows (s : selector) (now : Z) (l : list candidate) : Prop :=
  is_finite (total_weight ((fun c => (c, fair_weight s now c)) <$> l)) = false.

Lemma random_range_some total :
  f64_le total (f64_of_Z 0) = false -> is_finite total = true -> is_Some (random_range draw total).
Proof.
  intros Hle Hf. unfold random_range. rewrite Hf.
  assert (f64_lt (f64_of_Z 0) total = true) as -> by (by destruct total as [[]|[]| |[] ? ?]).
  done.
Qed.

Lemma random_range_panics total : random_range draw total = None <->
  f64_lt (f64_of_Z 0) total = false \/ is_finite total = false.
Proof. unfold random_range. destruct (f64_lt _ _), (is_finite total); naive_solver. Qed.

Lemma fair_some s now l :
  l <> [] ->
  (exists c, select_fair_fastest draw s now l = Some (Some c))
  \/ select_fair_fastest draw s now l = None /\ overflows s now l.
Proof.
  intros Hne. unfold select_fair_fastest, overflows. rewrite bool_decide_eq_false_2 by done.
  destruct (f64_le _ _) eqn:E; [left; destruct l; [done|]; by eexists|].
  destruct (is_finite _) eqn:Hf.
  - destruct (random_range_some _ E Hf) as [t ->]. left. cbn [mbind option_bind].
    destruct (reach _ _ _); [by eexists|]. destruct (proj2 (last_is_Some l) Hne) as [x ->]. by eexists.
  - right. by rewrite (proj2 (random_range_panics _) (or_intror Hf)).
Qed.

Lemma affinity_in s now r l c : select_cache_affinity exp s now r l = Some c -> c ∈ l.
Proof.
  unfold select_cache_affinity. destruct (List.filter _ l) as [|d w] eqn:E; [apply fastest_in|].
  intros H%fastest_in. rewrite <- E in H. by apply list_elem_of_In, filter_In in H as [?%list_elem_of_In _].
Qed.

Lemma affinity_some s now r l : l <> [] -> is_Some (select_cache_affinity exp s now r l).
Proof.
  intros H. unfold select_cache_affinity. destruct (List.filter _ l); by apply fastest_some.
Qed.

Lemma run_strategy_in s now r l c : run_strategy exp draw s now r l = Some (Some c) -> c ∈ l.
Proof.
  unfold run_strategy, select_by_priority, select_balanced.
  destruct (strategy (cfg s)), (command_priority r); try destruct (priority_range l);
    try (intros [= E]; revert E); eauto using best_by_in, fastest_in, fair_in, affinity_in.
Qed.

(** The strategy is the weighted random one for this request. *)
Definition draws (s : selector) (r : SelectionRequest) : Prop :=
  strategy (cfg s) = FairFastest /\ command_priority r <> High
  \/ strategy (cfg s) = Fastest /\ command_priority r = Low.

Lemma priority_score_nonneg p warmth speed cp :
  0 <= p -> nonneg (priority_selection_score p warmth speed cp).
Proof.
  intros Hp. unfold priority_selection_score.
  assert (H : forall a hi, nonneg hi ->
    nonneg (if is_finite a then f64_clamp a (f64_of_Z 0) hi else f64_of_Z 0)).
  { intros a hi Hhi. destruct (is_finite a) eqn:E; [by apply clamp_nonneg|done]. }
  pose proof (H warmth (f64_of_Z 1) ltac:(by vm_compute)) as Hw.
  pose proof (H speed (f64_of_Z 100) ltac:(by vm_compute)) as Hs.
  set (w := if is_finite warmth then _ else _) in *. set (v := if is_finite speed then _ else _) in *.
  clearbody w v. apply add_nonneg; [|destruct cp; apply add_nonneg; try done].
  all: match goal with |- nonneg (f64_mul _ ?k) => let k' := eval vm_compute in k in change k with k' end.
  all: apply mul_nonneg; [auto using of_Z_nonneg].
Qed.

Lemma run_strategy_some s now r l :
  l <> [] -> strategy (cfg s) <> Balanced ->
  (forall c, c ∈ l -> 0 <= priority (config (state c))) ->
  (exists c, run_strategy exp draw s now r l = Some (Some c))
  \/ run_strategy exp draw s now r l = None /\ draws s r /\ overflows s now l.
Proof.
  intros Hne Hs Hp. unfold run_strategy, draws.
  assert (Hlift : forall o : option candidate, is_Some o -> exists c, Some o = Some (Some c)).
  { intros o [c ->]. by exists c. }
  destruct (fair_some s now l Hne) as [?|[? ?]];
    destruct (strategy (cfg s)), (command_priority r); try done; try (left; done);
    try (left; apply Hlift; auto using fastest_some, affinity_some; fail);
    try (left; apply Hlift, best_by_some; by auto using priority_score_nonneg);
    right; naive_solver.
Qed.

(** ** Eligibility *)

Section loop.
Context (s : selector) (now_ms : Z) (r : SelectionRequest) (excluded : list string).

Abbreviation verdict_on := (judge required_os_for_command s now_ms r excluded).
Abbreviation pinned_set := (negb (bool_decide (preferred_workers r = []))).

Definition tally_of (l : list candidate) : tally :=
  fold_left (fun t c => count pinned_set t c (verdict_on c)) l no_tally.

Lemma tally_snoc l c : tally_of (l ++ [c]) = count pinned_set (tally_of l) c (verdict_on c).
Proof. unfold tally_of. by rewrite fold_left_app. Qed.

(** The judgements the vectors collect. *)
Definition passes (j : judgement) : bool := match j with Eligible => true | _ => false end.
Definition falls_back (j : judgement) : bool :=
  match j with SoftFailed | BelowHealth true => true | _ => false end.
Definition hard (j : judgement) : bool :=
  match j with ToolchainRefused | TopologyRefused | HardBlocked _ _ => true | _ => false end.
Definition unhealthy (j : judgement) : bool := match j with BelowHealth _ => true | _ => false end.

Lemma tally_lists l :
  eligible (tally_of l) = List.filter (fun c => passes (verdict_on c)) l /\
  preferred (tally_of l)
  = (if pinned_set then List.filter (fun c => passes (verdict_on c)) l else []) /\
  (pinned_set = false ->
   eligible_without_health (tally_of l) = List.filter (fun c => falls_back (verdict_on c)) l) /\
  preferred_without_health (tally_of l)
  = (if pinned_set then List.filter (fun c => falls_back (verdict_on c)) l else []).
Proof.
  induction l as [|c l (H1 & H2 & H3 & H4)] using rev_ind; [by destruct pinned_set|].
  rewrite tally_snoc, !List.filter_app. cbn [List.filter].
  unfold count. cbn [eligible preferred eligible_without_health preferred_without_health].
  rewrite H1, H2, H4. unfold appended.
  split; [|split; [|split]]; destruct (verdict_on c) as [| | | | | | | | | |[]|] eqn:E; cbn;
    try destruct pinned_set; rewrite ?app_nil_r; try done; intros ?; try done;
    rewrite ?H3; by rewrite ?app_nil_r.
Qed.

Lemma tally_counts l :
  by_hard (tally_of l) = Z.of_nat (length (List.filter (fun c => hard (verdict_on c)) l)) /\
  by_health (tally_of l) = Z.of_nat (length (List.filter (fun c => unhealthy (verdict_on c)) l)).
Proof.
  induction l as [|c l [H1 H2]] using rev_ind; [done|].
  rewrite tally_snoc, !List.filter_app, !length_app. cbn [List.filter].
  unfold count. cbn [by_hard by_health]. rewrite H1, H2.
  destruct (verdict_on c); cbn; split; lia.
Qed.

Lemma tally_flags l c :
  c ∈ l -> verdict_on c = Eligible ->
  matched_preferred_worker (tally_of l) = true /\ any_has_runtime (tally_of l) = true.
Proof.
  intros Hin Hc. induction l as [|d l IH] using rev_ind; [by apply elem_of_nil in Hin|].
  rewrite tally_snoc. cbn. apply elem_of_app in Hin as [Hin | ->%list_elem_of_singleton].
  - destruct (IH Hin) as [-> ->]. done.
  - rewrite Hc. by rewrite !orb_true_r.
Qed.

(** What a worker the loop keeps has passed. *)
Record kept (c : candidate) : Prop := {
  kept_allowed : preferred_workers r = [] \/ worker_id c ∈ preferred_workers r;
  kept_os : os_gate_admits (declared_os (tags (config (state c)))) (os_of r) = true;
  kept_circuit : circuit_blocks s c = false;
  kept_excluded : worker_id c ∉ excluded;
  kept_runtime : has_runtime (capabilities c) (required_runtime r) = true;
  kept_toolchain : toolchain_capability_mismatch (toolchain r) (capabilities c) = false;
  kept_preflight : fst (toolchain_preflight_failure now_ms (toolchain r) c) = None;
  kept_slots : estimated_cores r <= available_slots (state c);
  kept_topology : projects_root_ok (capabilities c) <> Some false;
  kept_convergence : convergence_blocks s c = false;
  kept_pressure : snd (pressure_check s c) = false;
  kept_reliability : reliability (wired s) && hard_exclude c = false;
}.

Lemma judged_kept c : passes (verdict_on c) || falls_back (verdict_on c) = true -> kept c.
Proof.
  unfold judge. intros H. destruct (before_preflight _ _ _ _ _) as [j|] eqn:Hb.
  { unfold before_preflight in Hb. gate Hb; simplify_eq; done. }
  unfold before_preflight in Hb. gate Hb.
  destruct (bool_decide _) eqn:Hp in H; [done|].
  unfold after_preflight in H.
  destruct (_ <? _) eqn:Hs in H; [done|].
  destruct (bool_decide _) eqn:Ht in H; [done|].
  destruct (pressure_check s c) as [ok critical] eqn:Hc.
  destruct (convergence_blocks s c || _ || _) eqn:Hh in H; [done|].
  apply orb_false_iff in Hh as [[? ?]%orb_false_iff ?].
  constructor; try done.
  - destruct (decide (preferred_workers r = [])) as [?|Hn]; [by left|]. right.
    rewrite bool_decide_eq_false_2 in * by done. cbn in *.
    by apply negb_false_iff, bool_decide_eq_true in Heqb.
  - by apply negb_false_iff.
  - by apply bool_decide_eq_false in Heqb2.
  - by apply negb_false_iff.
  - apply bool_decide_eq_false in Hp. destruct (fst _); [|done]. by destruct Hp.
  - lia.
  - by apply bool_decide_eq_false in Ht.
  - by rewrite Hc.
Qed.

Lemma filter_keeps l c p : c ∈ List.filter (fun c => p (verdict_on c)) l -> c ∈ l /\ p (verdict_on c) = true.
Proof. by intros [?%list_elem_of_In ?]%list_elem_of_In%filter_In. Qed.

(** What [conclude] returns comes from the vectors. *)
Lemma conclude_kept l out c :
  conclude required_os_for_command r (tally_of l) = Ok out -> c ∈ out -> c ∈ l /\ kept c.
Proof.
  destruct (tally_lists l) as (H1 & H2 & H3 & H4). unfold conclude. intros E Hin.
  gate E; simplify_eq; try by apply elem_of_nil in Hin.
  - rewrite H2 in Hin. destruct pinned_set; [|by apply elem_of_nil in Hin].
    apply filter_keeps in Hin as [? Hp]. split; [done|]. apply judged_kept. by rewrite Hp.
  - rewrite H4 in Hin. destruct pinned_set; [|by apply elem_of_nil in Hin].
    apply filter_keeps in Hin as [? Hp]. split; [done|]. apply judged_kept. by rewrite Hp, orb_true_r.
  - rewrite H1 in Hin.
    apply filter_keeps in Hin as [? Hp]. split; [done|]. apply judged_kept. by rewrite Hp.
  - rewrite H3 in Hin by done.
    apply filter_keeps in Hin as [? Hp]. split; [done|]. apply judged_kept. by rewrite Hp, orb_true_r.
Qed.

Abbreviation eligible_of := (fun pool => get_eligible_workers required_os_for_command s now_ms pool r excluded).

Lemma eligible_kept pool out c :
  eligible_of pool = Ok out -> c ∈ out -> c ∈ pool /\ healthy c = true /\ kept c.
Proof.
  unfold get_eligible_workers. intros E Hin. gate E.
  destruct (conclude_kept _ _ _ E Hin) as [Hl Hk].
  apply list_elem_of_filter in Hl as [? ?]. done.
Qed.

(** A worker that passes every gate makes the list non-empty. *)
Lemma eligible_found pool c :
  c ∈ pool -> healthy c = true -> verdict_on c = Eligible ->
  exists out, eligible_of pool = Ok out /\ out <> [].
Proof.
  intros Hin Hh Hc. unfold get_eligible_workers.
  set (l := filter _ pool). assert (Hl : c ∈ l) by by apply list_elem_of_filter.
  rewrite bool_decide_eq_false_2 by (intros E; rewrite E in Hl; by apply elem_of_nil in Hl).
  change (fold_left _ _ _) with (tally_of l).
  destruct (tally_lists l) as (H1 & H2 & _ & _), (tally_flags l c Hl Hc) as [Hm Hr].
  assert (Hne : List.filter (fun c => passes (verdict_on c)) l <> []).
  { intros E. assert (Hc' : c ∈ List.filter (fun c => passes (verdict_on c)) l).
    { apply list_elem_of_In, filter_In. split; [by apply list_elem_of_In|]. by rewrite Hc. }
    rewrite E in Hc'. by apply elem_of_nil in Hc'. }
  unfold conclude. rewrite Hm, Hr, H1, H2.
  rewrite (bool_decide_eq_false_2 (List.filter _ l = [])) by done.
  rewrite andb_false_r. cbn [negb andb]. rewrite !andb_false_r. cbn [andb].
  destruct pinned_set; cbn [negb andb]; eauto.
  rewrite (bool_decide_eq_false_2 (List.filter _ l = [])) by done. cbn [negb]. eauto.
Qed.

(** An empty answer without an allow-set: no worker was kept, refused for its health, or
    blocked by a hard check. *)
Lemma eligible_empty pool c :
  preferred_workers r = [] -> eligible_of pool = Ok [] -> c ∈ pool -> healthy c = true ->
  passes (verdict_on c) = false /\ falls_back (verdict_on c) = false /\
  hard (verdict_on c) = false /\ unhealthy (verdict_on c) = false.
Proof.
  intros Hp E Hin Hh. unfold get_eligible_workers in E. gate E.
  set (l := filter _ pool) in *. assert (Hl : c ∈ l) by by apply list_elem_of_filter.
  change (fold_left _ _ _) with (tally_of l) in E.
  destruct (tally_lists l) as (H1 & _ & H3 & H4), (tally_counts l) as [H5 H6].
  assert (Hn : pinned_set = false) by by rewrite bool_decide_eq_true_2.
  rewrite Hn in H4. specialize (H3 Hn).
  assert (Hno : forall p, List.filter (fun c => p (verdict_on c)) l = [] -> p (verdict_on c) = false).
  { intros p Hf. destruct (p (verdict_on c)) eqn:Hpc; [|done]. exfalso.
    assert (Hc' : c ∈ List.filter (fun c => p (verdict_on c)) l).
    { apply list_elem_of_In, filter_In. split; [by apply list_elem_of_In|done]. }
    rewrite Hf in Hc'. by apply elem_of_nil in Hc'. }
  unfold conclude in E. rewrite Hn in E. cbn [andb] in E.
  destruct (_ && _ && _ && _) eqn:?; [done|].
  destruct (negb (any_has_runtime _) && _) eqn:?; [done|].
  rewrite H1 in E.
  destruct (bool_decide (List.filter (fun c => passes (verdict_on c)) l = [])) eqn:He in E;
    [apply bool_decide_eq_true in He; cbn [negb] in E
    |apply bool_decide_eq_false in He; cbn [negb] in E; by simplify_eq].
  assert (Hw : eligible_without_health (tally_of l) = []).
  { by gate E; simplify_eq. }
  assert (Hnf : no_fallback (tally_of l) = true).
  { unfold no_fallback. by rewrite H4, Hw, !bool_decide_eq_true_2. }
  rewrite Hnf, !andb_true_r in E. gate E.
  assert (Hz : forall A (f : list A), (0 <? Z.of_nat (length f)) = false -> f = []).
  { intros A [|? ?]; [done|]. intros H%Z.ltb_ge. rewrite length_cons in H. lia. }
  rewrite H5, H6 in *.
  split; [by apply Hno|]. split; [apply Hno; by rewrite <- H3|].
  split; apply Hno; by apply Hz.
Qed.

End loop.

Lemma pinned_in s now r excluded l c :
  try_pinned_worker s now r excluded l = Some c -> c ∈ l.
Proof.
  unfold try_pinned_worker. destruct (negb _); [done|].
  destruct (pinned_worker_of _ _ _) as [id|]; cbn; [|done]. destruct (bool_decide _); [done|].
  destruct (by_id id l) as [d|] eqn:E; cbn; [|done]. destruct (existsb _ l); [done|]. intros [= ->].
  apply find_some in E as [E _]. by apply list_elem_of_In.
Qed.

Lemma fallback_gates s pool r excluded id :
  try_fallback required_os_for_command s pool r excluded = Some id ->
  exists c, c ∈ pool /\ worker_id c = id /\ healthy c = true /\ (id ∉ excluded) /\
    os_gate_admits (declared_os (tags (config (state c)))) (os_of r) = true /\
    estimated_cores r <= available_slots (state c) /\ circuit_open c = false /\
    f64_lt (health_score c) (fallback_min_success_rate (affinity (cfg s))) = false.
Proof.
  unfold try_fallback. destruct (negb _); [done|].
  destruct (get_fallback_worker _ _) as [i|]; cbn; [|done].
  destruct (bool_decide _) eqn:Hx; [done|]. destruct (by_id i pool) as [c|] eqn:E; cbn; [|done].
  intros H. gate H. simplify_eq. apply find_some in E as [Hin Hid].
  apply bool_decide_eq_true in Hid. apply bool_decide_eq_false in Hx.
  exists c. rewrite !negb_false_iff in *. split; [by apply list_elem_of_In|].
  repeat (split; [done|]). split; [lia|]. done.
Qed.


(** A worker was chosen by the strategy or by the pin. *)
Definition assigned (o : outcome) : Prop :=
  is_Some (worker o) /\ (why o = Success \/ why o = AffinityPinned).

(** The two refusals of the loop that [try_fallback] does not repeat. *)
Definition refused_unseen (s : selector) (r : SelectionRequest) (c : candidate) : Prop :=
  (half_open c = true /\ CircuitStats.can_probe (circuit (state c)) (circuit_config s) = false) \/
  has_runtime (capabilities c) (required_runtime r) = false.

(** C21: a request does not come back empty-handed while a worker passes every gate: under the
    Priority, Fastest, CacheAffinity and FairFastest strategies, with a healthy worker in the
    pool judged eligible, a selection yields a worker, chosen by the strategy or by the pin,
    whatever the cache warmth and the random draw are.  The one exception is a panic of the
    weighted random draw: it happens only where the strategy draws (FairFastest below high
    priority, Fastest at low priority), only when no pin applies, and only when the weights of
    the eligible workers add up to a number that is not finite. *)
Theorem selection_succeeds s now now_ms pool r excluded c :
  strategy (cfg s) <> Balanced ->
  (forall d, d ∈ pool -> 0 <= priority (config (state d))) ->
  c ∈ pool -> healthy c = true -> judge required_os_for_command s now_ms r excluded c = Eligible ->
  match select_with_exclusions exp required_os_for_command draw s now now_ms pool r excluded with
  | Some o => assigned o
  | None =>
      exists l, get_eligible_workers required_os_for_command s now_ms pool r excluded = Ok l
        /\ try_pinned_worker s now r excluded l = None /\ draws s r /\ overflows s now l
  end.
Proof.
  intros Hs Hp Hin Hh Hc. unfold assigned, select_with_exclusions.
  destruct (eligible_found _ _ _ _ _ _ Hin Hh Hc) as (out & E & Hne). rewrite E.
  destruct out as [|d out]; [done|].
  destruct (try_pinned_worker _ _ _ _ _) eqn:Hpin; cbn [worker why chosen]; [by eauto|].
  destruct (run_strategy_some s now r (d :: out)) as [[x Hx]|(Hx & Hd & Ho)]; [done|done| |..].
  - intros x Hx. apply Hp. by apply (eligible_kept _ _ _ _ _ _ _ E Hx).
  - rewrite Hx. cbn. eauto.
  - rewrite Hx. cbn [mbind option_bind]. eauto.
Qed.

(** The last-success fallback fires only when the loop kept nobody, and then the worker it
    returns is one the loop itself had refused for a reason the fallback does not look at:
    its circuit is half open with no probe budget left, or it lacks the required runtime. *)
Theorem fallback_only_to_refused s now now_ms pool r excluded id :
  forall o, select_with_exclusions exp required_os_for_command draw s now now_ms pool r excluded = Some o ->
  worker o = Some id -> why o = AffinityFallback ->
  exists c, c ∈ pool /\ worker_id c = id /\ refused_unseen s r c.
Proof.
  intros o. unfold select_with_exclusions, refused_unseen.
  destruct (get_eligible_workers _ _ _ _ _ _) as [[|d out]|reason] eqn:E; cbn; [| |by intros [= <-]].
  2:{ destruct (try_pinned_worker _ _ _ _ _); [by intros [= <-]|].
      by destruct (run_strategy _ _ _ _ _ _) as [[]|]; cbn; intros [= <-]. }
  destruct (bool_decide _) eqn:Hp; [|by intros [= <-]]. apply bool_decide_eq_true in Hp.
  destruct (try_fallback _ _ _ _ _) as [i|] eqn:Hf; cbn; [|by intros [= <-]]. intros [= <-] [= ->] _.
  apply fallback_gates in Hf as (c & Hin & Hid & Hh & Hx & Hos & Hsl & Hop & Hf).
  exists c. split; [done|]. split; [done|].
  destruct (eligible_empty _ _ _ _ _ _ Hp E Hin Hh) as (H1 & H2 & H3 & H4).
  destruct (has_runtime _ _) eqn:Hrt; [left|by right].
  unfold judge, before_preflight in H1, H2, H3, H4.
  rewrite Hp, Hos, Hrt, Hid, (bool_decide_eq_false_2 (id ∈ excluded)) in H1, H2, H3, H4 by done.
  cbn [negb andb] in H1, H2, H3, H4. rewrite bool_decide_eq_true_2 in H1, H2, H3, H4 by done.
  cbn [negb andb] in H1, H2, H3, H4.
  destruct (circuit_blocks s c) eqn:Hb.
  - unfold circuit_blocks, half_open, circuit_open in *. destruct (circuit_state c); try done.
    by apply negb_true_iff in Hb.
  - exfalso. unfold after_preflight in *. revert H1 H2 H3 H4.
    destruct (available_slots (state c) <? estimated_cores r) eqn:Hlt; [lia|].
    destruct (toolchain_capability_mismatch _ _); [done|].
    destruct (bool_decide (is_Some _)); [done|]. destruct (bool_decide _); [done|].
    destruct (pressure_check s c). destruct (_ || _); [done|]. destruct (_ || _); [done|].
    by destruct (f64_lt _ (min_success_rate _)).
Qed.

(** The Fastest strategy returns an eligible worker than which none is faster, and an
    answer whenever there is a worker; the CacheAffinity strategy does the same among the
    workers warm for the project, or among all when none is warm. *)
Theorem fastest_is_max s now r l :
  l <> [] ->
  (exists c, select_by_fastest l = Some c /\ c ∈ l /\
     forall d, d ∈ l -> f64_gt (speed_score d) (speed_score c) = false) /\
  (exists c, select_cache_affinity exp s now r l = Some c /\ c ∈ l /\
     forall d, d ∈ l ->
       f64_gt (warmth_of exp s now r d) (lit 1 2) = f64_gt (warmth_of exp s now r c) (lit 1 2) ->
       f64_gt (speed_score d) (speed_score c) = false).
Proof.
  intros Hne. split.
  - pose proof (fastest_spec l) as H. destruct (select_by_fastest l) as [c|]; [eauto|done].
  - destruct (affinity_some s now r l Hne) as [c Hc]. exists c. split; [done|].
    split; [by apply (affinity_in s now r)|]. revert Hc. unfold select_cache_affinity.
    set (warm := fun c => f64_gt (warmth_of exp s now r c) (lit 1 2)). fold (warm c).
    destruct (List.filter warm l) as [|d w] eqn:E; intros Hc d' Hd' Hw.
    + pose proof (fastest_spec l) as H. rewrite Hc in H. by apply H.
    + pose proof (fastest_spec (d :: w)) as H. rewrite Hc in H. destruct H as [Hin Hmax].
      apply Hmax. rewrite <- E in Hin |- *. apply list_elem_of_In, filter_In in Hin as [_ Hwc].
      apply list_elem_of_In, filter_In. split; [by apply list_elem_of_In|].
      change (warm d' = warm c) in Hw. by rewrite Hw.
Qed.

End facts.

(** ** Concrete selections *)

Definition bare : WorkerCapabilities :=
  {| rustc_version := None; bun_version := None; node_version := None; nix_version := None;
     go_version := None; zig_version := None; cargo_zigbuild_version := None;
     cpu_microarch_level := None; num_cpus := None; load_avg_1 := None; disk_free_gb := None;
     projects_root_ok := None |}.

Definition with_rust : WorkerCapabilities :=
  {| rustc_version := Some (str_bytes "rustc 1.90.0"); bun_version := None; node_version := None;
     nix_version := None; go_version := None; zig_version := None; cargo_zigbuild_version := None;
     cpu_microarch_level := None; num_cpus := Some 8; load_avg_1 := None; disk_free_gb := None;
     projects_root_ok := Some true |}.

Definition sample (name : string) (total used speed : Z) (caps : WorkerCapabilities) : candidate :=
  let w := sample_worker total used in
  {| state := with_config {| id := name; host := host (config w); user := user (config w);
                             identity_file := identity_file (config w); total_slots := total;
                             priority := 100; tags := [] |} w;
     speed_score := f64_of_Z speed; latency_cell := 0; capabilities := caps;
     preflight_status := None; probe_result := Ok tt; pressure := PressureHealthy;
     verdict := Admit (f64_of_Z 0); drift_state := DriftReady; hard_exclude := false;
     reliability_penalty := f64_of_Z 0 |}.

Definition sample_selector (strategy : SelectionStrategy) (t : CacheTracker) : selector :=
  {| cfg := {| strategy := strategy; min_success_rate := lit 8 10; weights := default_weights;
               lookback_secs := 300;
               affinity := {| enabled := true; pin_minutes := 60; enable_last_success_fallback := true;
                              fallback_min_success_rate := lit 5 10 |};
               max_load_per_core := None; min_free_gb := None |};
     circuit_config := CircuitStats.default_config; cache_tracker := t;
     selection_history := history_default;
     wired := {| admission_gate := false; repo_convergence := false; reliability := false |} |}.

Definition rust_request : SelectionRequest :=
  {| project := "rch"; command := None; command_priority := Normal; estimated_cores := 4;
     preferred_workers := []; toolchain := None; required_runtime := Rust |}.

Abbreviation decide_for := (select_with_exclusions (fun x => x) (fun _ => None) (fun t => t)).

Definition after_success : CacheTracker :=
  Affinity.record_success (fun A m => map_to_list m) 5 "bare" "rch" tracker_new.


Lemma selection_succeeds_witness :
  exists o, decide_for (sample_selector Priority tracker_new) 10 10
              [sample "slow" 8 0 20 with_rust] rust_request [] = Some o /\ assigned o.
Proof.
  assert (H := selection_succeeds (fun x => x) (fun _ => None) (fun t => t)
    (sample_selector Priority tracker_new) 10 10 [sample "slow" 8 0 20 with_rust] rust_request []
    (sample "slow" 8 0 20 with_rust)).
  destruct (decide_for _ _ _ _ _ _) as [o|] eqn:E; [|by vm_compute in E].
  exists o. split; [done|]. apply H; [done| |left|by vm_compute|by vm_compute].
  intros d ->%list_elem_of_singleton. by vm_compute.
Defined.

(** One worker whose speed score is infinite makes the fair draw panic, though another
    worker passes every gate. *)
Definition unbounded (c : candidate) : candidate :=
  {| state := state c; speed_score := S754_infinity false; latency_cell := latency_cell c;
     capabilities := capabilities c; preflight_status := preflight_status c;
     probe_result := probe_result c; pressure := pressure c; verdict := verdict c;
     drift_state := drift_state c; hard_exclude := hard_exclude c;
     reliability_penalty := reliability_penalty c |}.

Theorem infinite_score_panics :
  decide_for (sample_selector FairFastest tracker_new) 10 10
    [sample "slow" 8 0 20 with_rust; unbounded (sample "odd" 8 0 20 with_rust)] rust_request [] = None.
Proof. vm_compute. reflexivity. Qed.

(** The busy worker has the compiler; the free one that built the project last does not,
    and is the one returned. *)
Lemma fallback_only_to_refused_witness :
  let pool := [sample "busy" 8 8 90 with_rust; sample "bare" 8 0 20 bare] in
  (decide_for (sample_selector Fastest after_success) 10 10 pool rust_request [] ≫= worker) = Some "bare" /\
  exists c, c ∈ pool /\ worker_id c = "bare" /\
    refused_unseen (sample_selector Fastest after_success) rust_request c.
Proof.
  cbv zeta. split; [by vm_compute|].
  destruct (decide_for (sample_selector Fastest after_success) 10 10
    [sample "busy" 8 8 90 with_rust; sample "bare" 8 0 20 bare] rust_request []) as [o|] eqn:E;
    [|by vm_compute in E].
  apply (fallback_only_to_refused _ _ _ _ _ _ _ _ _ "bare" o E); vm_compute in E; by injection E as <-.
Defined.

Lemma fastest_is_max_witness :
  exists c, select_by_fastest [sample "slow" 8 0 20 bare; sample "fast" 8 0 90 bare] = Some c /\
    forall d, d ∈ [sample "slow" 8 0 20 bare; sample "fast" 8 0 90 bare] ->
      f64_gt (speed_score d) (speed_score c) = false.
Proof.
  destruct (fastest_is_max (fun x => x) (sample_selector Fastest tracker_new) 10 rust_request
              [sample "slow" 8 0 20 bare; sample "fast" 8 0 90 bare] ltac:(done)) as [(c & H1 & _ & H2) _].
  exists c. done.
Defined.

End SelectionFacts.
