(* ===== verification/Builds.v ===== *)
(** * Builds the daemon knows of (rchd/src/history.rs, rch-common/src/job_identity.rs)

    [BuildHistory]: the table of active builds with their heartbeats, the queue, the ring of
    finished builds and its statistics.  [JobIdentity]: the leases clients keep on disk.

    An [Instant] is a number of nanoseconds; a wall-clock timestamp is the millisecond it
    prints.  Log lines and the writing of the history file are left out. *)

From stdpp Require Import base gmap list strings.
From Stdlib Require Import ZArith Lia.
From Corelib Require Import SpecFloat.
From S2P Require Import Prelude Floats Text Numerals Classifier.

Module BuildHistory.

(** What one read of both clocks returns. *)
Record moment := { mono : Z; utc : Z }.

Inductive BuildLocation := Local | Remote.

#[export] Instance BuildLocation_eq_dec : EqDecision BuildLocation.
Proof. solve_decision. Defined.

Inductive BuildHeartbeatPhase := SyncUp | Execute | SyncDown | Finalize.

#[export] Instance BuildHeartbeatPhase_eq_dec : EqDecision BuildHeartbeatPhase.
Proof. solve_decision. Defined.

Record CommandTimingBreakdown := {
  classify : option Z; select : option Z; sync_up : option Z; exec : option Z; sync_down : option Z;
  t_cleanup : option Z; t_total : option Z;
}.

Record BuildCancellationWorkerHealth := {
  h_status : string; h_speed_score : f64; h_used_slots : Z; h_available_slots : Z;
  h_pressure_state : string; h_pressure_reason_code : string;
}.

Record BuildCancellationMetadata := {
  operation_id : str; origin : string; reason_code : string; decision_path : list string;
  escalation_stage : string; m_escalation_count : Z; m_remote_kill_attempted : bool;
  m_cleanup_ok : bool; history_cancelled : bool; final_state : string;
  worker_health : option BuildCancellationWorkerHealth;
}.

Record BuildRecord := {
  r_id : Z; r_started_at : Z; r_completed_at : Z; r_project_id : string; r_worker_id : option string;
  r_command : str; r_exit_code : Z; r_duration_ms : Z; r_location : BuildLocation;
  r_bytes_transferred : option Z; r_timing : option CommandTimingBreakdown;
  r_cancellation : option BuildCancellationMetadata;
}.

Record ActiveBuildState := {
  id : Z; project_id : string; worker_id : string; command : str;
  started_at : Z; started_at_mono : Z;
  hook_pid : Z; local_wrapper_id : option string; remote_pgid_file : option str;
  slots : Z; location : BuildLocation;
  heartbeat_phase : BuildHeartbeatPhase; heartbeat_detail : option str;
  heartbeat_counter : Z; heartbeat_percent : option f64; heartbeat_count : Z;
  last_heartbeat_at : Z; last_heartbeat_mono : Z; last_progress_at : Z; last_progress_mono : Z;
  detector_hook_alive : bool; detector_heartbeat_stale : bool; detector_progress_stale : bool;
  detector_confidence : f64; detector_build_age_secs : Z; detector_slots_owned : Z;
  detector_last_evaluated_at : option Z;
}.

Record StuckDetectorSnapshot := {
  s_hook_alive : bool; s_heartbeat_stale : bool; s_progress_stale : bool; s_confidence : f64;
  s_build_age_secs : Z; s_slots_owned : Z;
}.

Record QueuedBuildState := {
  q_id : Z; q_project_id : string; q_command : str; queued_at : Z; queued_at_mono : Z;
  q_hook_pid : Z; slots_needed : Z; estimated_start : option Z;
}.

Record BuildHeartbeatRequest := {
  hb_build_id : Z; hb_worker_id : string; hb_hook_pid : option Z; hb_local_wrapper_id : option string;
  hb_remote_pgid_file : option str; phase : BuildHeartbeatPhase; detail : option str;
  progress_counter : option Z; progress_percent : option f64;
}.

(** [max_queue_depth] 0 means unlimited. *)
Record t := {
  records : list BuildRecord;
  active : gmap Z ActiveBuildState;
  queued : list QueuedBuildState;
  capacity : nat;
  max_queue_depth : nat;
  next_id : Z;           (* AtomicU64 *)
  next_queue_id : Z;     (* AtomicU64 *)
}.

Definition with_records (v : list BuildRecord) (h : t) : t :=
  {| records := v; active := active h; queued := queued h; capacity := capacity h;
     max_queue_depth := max_queue_depth h; next_id := next_id h; next_queue_id := next_queue_id h |}.
Definition with_active (v : gmap Z ActiveBuildState) (h : t) : t :=
  {| records := records h; active := v; queued := queued h; capacity := capacity h;
     max_queue_depth := max_queue_depth h; next_id := next_id h; next_queue_id := next_queue_id h |}.
Definition with_queued (v : list QueuedBuildState) (h : t) : t :=
  {| records := records h; active := active h; queued := v; capacity := capacity h;
     max_queue_depth := max_queue_depth h; next_id := next_id h; next_queue_id := next_queue_id h |}.

Definition DEFAULT_CAPACITY : nat := 100.
Definition BUILD_ERROR_EXIT : Z := 1.
Definition DEFAULT_MAX_QUEUE_DEPTH : nat := 100.

(** The first identifier of a daemon started at [epoch_secs]. *)
Definition epoch_id (epoch_secs : Z) : Z := Z.lor (wrap 64 (Z.shiftl epoch_secs 24)) 1.

Definition new (epoch_secs : Z) (capacity : nat) : t :=
  {| records := []; active := ∅; queued := []; capacity := capacity;
     max_queue_depth := DEFAULT_MAX_QUEUE_DEPTH; next_id := epoch_id epoch_secs; next_queue_id := 1 |}.

Definition with_max_queue_depth (depth : nat) (h : t) : t :=
  {| records := records h; active := active h; queued := queued h; capacity := capacity h;
     max_queue_depth := depth; next_id := next_id h; next_queue_id := next_queue_id h |}.

(** [fetch_add]: the value before, which the caller gets, and the history after. *)
Definition take_id (h : t) : Z * t :=
  (next_id h,
   {| records := records h; active := active h; queued := queued h; capacity := capacity h;
      max_queue_depth := max_queue_depth h; next_id := wadd 64 (next_id h) 1;
      next_queue_id := next_queue_id h |}).
Definition take_queue_id (h : t) : Z * t :=
  (next_queue_id h,
   {| records := records h; active := active h; queued := queued h; capacity := capacity h;
      max_queue_depth := max_queue_depth h; next_id := next_id h;
      next_queue_id := wadd 64 (next_queue_id h) 1 |}).

Definition record (r : BuildRecord) (h : t) : t :=
  with_records ((if (capacity h <=? length (records h))%nat then tail (records h) else records h) ++ [r]) h.

Definition build_started (i : Z) (project worker : string) (cmd : str) (pid : Z) (wrapper : option string)
    (n : Z) (loc : BuildLocation) (m : moment) : ActiveBuildState :=
  {| id := i; project_id := project; worker_id := worker; command := cmd;
     started_at := utc m; started_at_mono := mono m; hook_pid := pid; local_wrapper_id := wrapper;
     remote_pgid_file := None; slots := n; location := loc; heartbeat_phase := SyncUp;
     heartbeat_detail := Some (Bytes.str_bytes "build_started"); heartbeat_counter := 0;
     heartbeat_percent := None; heartbeat_count := 0; last_heartbeat_at := utc m;
     last_heartbeat_mono := mono m; last_progress_at := utc m; last_progress_mono := mono m;
     detector_hook_alive := true; detector_heartbeat_stale := false; detector_progress_stale := false;
     detector_confidence := f64_of_Z 0; detector_build_age_secs := 0; detector_slots_owned := n;
     detector_last_evaluated_at := None |}.

Definition start_active_build_with_wrapper (project worker : string) (cmd : str) (pid : Z)
    (wrapper : option string) (n : Z) (loc : BuildLocation) (m : moment) (h : t) : ActiveBuildState * t :=
  let (i, h) := take_id h in
  let b := build_started i project worker cmd pid wrapper n loc m in
  (b, with_active (<[i := b]> (active h)) h).

Definition same_job (project worker : string) (b : ActiveBuildState) : bool :=
  bool_decide (project_id b = project) && bool_decide (worker_id b = worker).

Definition has_active_build_for_project_on_worker (project worker : string) (h : t) : bool :=
  existsb (fun kb => same_job project worker (snd kb)) (map_to_list (active h)).

Definition try_start_active_build_with_wrapper (project worker : string) (cmd : str) (pid : Z)
    (wrapper : option string) (n : Z) (loc : BuildLocation) (m : moment) (h : t) : option ActiveBuildState * t :=
  let (i, h) := take_id h in
  let b := build_started i project worker cmd pid wrapper n loc m in
  if has_active_build_for_project_on_worker project worker h then (None, h)
  else (Some b, with_active (<[i := b]> (active h)) h).

(** ** Heartbeats *)

Definition EPSILON : f64 := lit 1 (2 ^ 52).

Definition with_pid (pid : option Z) (b : ActiveBuildState) : Z :=
  match pid with Some p => if 0 <? p then p else hook_pid b | None => hook_pid b end.

Definition with_pgid (file : option str) (b : ActiveBuildState) : option str :=
  match file with
  | Some f => if bool_decide (trim f = []) then remote_pgid_file b else Some f
  | None => remote_pgid_file b
  end.

Definition wrapper_conflict (w : option string) (b : ActiveBuildState) : bool :=
  match w, local_wrapper_id b with
  | Some w, Some recorded => negb (bool_decide (recorded = w))
  | _, _ => false
  end.

Definition percent_after (p : option f64) (before : option f64) : option f64 :=
  match p with
  | Some p => if is_finite p then Some (f64_clamp p (f64_of_Z 0) (f64_of_Z 100)) else before
  | None => before
  end.

Definition percent_progressed (before after : option f64) : bool :=
  match before, after with
  | Some before, Some after => f64_gt after (f64_add before EPSILON)
  | None, Some _ => true
  | _, _ => false
  end.

(** A heartbeat that reached the build of its worker. *)
Definition beat (hb : BuildHeartbeatRequest) (m : moment) (b : ActiveBuildState) : ActiveBuildState :=
  let counter := match progress_counter hb with
                 | Some c => Z.max (heartbeat_counter b) c
                 | None => heartbeat_counter b
                 end in
  let percent := percent_after (progress_percent hb) (heartbeat_percent b) in
  let progressed := (heartbeat_counter b <? counter) || percent_progressed (heartbeat_percent b) percent
                    || negb (bool_decide (detail hb = heartbeat_detail b))
                    || negb (bool_decide (phase hb = heartbeat_phase b)) in
  {| id := id b; project_id := project_id b; worker_id := worker_id b; command := command b;
     started_at := started_at b; started_at_mono := started_at_mono b;
     hook_pid := with_pid (hb_hook_pid hb) b;
     local_wrapper_id := match hb_local_wrapper_id hb with Some w => Some w | None => local_wrapper_id b end;
     remote_pgid_file := with_pgid (hb_remote_pgid_file hb) b;
     slots := slots b; location := location b; heartbeat_phase := phase hb; heartbeat_detail := detail hb;
     heartbeat_counter := counter; heartbeat_percent := percent;
     heartbeat_count := sat_add 64 (heartbeat_count b) 1;
     last_heartbeat_at := utc m; last_heartbeat_mono := mono m;
     last_progress_at := if progressed then utc m else last_progress_at b;
     last_progress_mono := if progressed then mono m else last_progress_mono b;
     detector_hook_alive := detector_hook_alive b; detector_heartbeat_stale := detector_heartbeat_stale b;
     detector_progress_stale := detector_progress_stale b; detector_confidence := detector_confidence b;
     detector_build_age_secs := detector_build_age_secs b; detector_slots_owned := detector_slots_owned b;
     detector_last_evaluated_at := detector_last_evaluated_at b |}.

(** The process id is stored before the wrapper is compared. *)
Definition with_hook_pid (pid : Z) (b : ActiveBuildState) : ActiveBuildState :=
  {| id := id b; project_id := project_id b; worker_id := worker_id b; command := command b;
     started_at := started_at b; started_at_mono := started_at_mono b; hook_pid := pid;
     local_wrapper_id := local_wrapper_id b; remote_pgid_file := remote_pgid_file b; slots := slots b;
     location := location b; heartbeat_phase := heartbeat_phase b; heartbeat_detail := heartbeat_detail b;
     heartbeat_counter := heartbeat_counter b; heartbeat_percent := heartbeat_percent b;
     heartbeat_count := heartbeat_count b; last_heartbeat_at := last_heartbeat_at b;
     last_heartbeat_mono := last_heartbeat_mono b; last_progress_at := last_progress_at b;
     last_progress_mono := last_progress_mono b; detector_hook_alive := detector_hook_alive b;
     detector_heartbeat_stale := detector_heartbeat_stale b;
     detector_progress_stale := detector_progress_stale b; detector_confidence := detector_confidence b;
     detector_build_age_secs := detector_build_age_secs b; detector_slots_owned := detector_slots_owned b;
     detector_last_evaluated_at := detector_last_evaluated_at b |}.

Definition record_build_heartbeat (hb : BuildHeartbeatRequest) (m : moment) (h : t) :
    option ActiveBuildState * t :=
  match active h !! hb_build_id hb with
  | None => (None, h)
  | Some b =>
      if negb (bool_decide (worker_id b = hb_worker_id hb)) then (None, h)
      else if wrapper_conflict (hb_local_wrapper_id hb) b then
        (None, with_active (<[hb_build_id hb := with_hook_pid (with_pid (hb_hook_pid hb) b) b]> (active h)) h)
      else (Some (beat hb m b), with_active (<[hb_build_id hb := beat hb m b]> (active h)) h)
  end.

Definition seen (s : StuckDetectorSnapshot) (m : moment) (b : ActiveBuildState) : ActiveBuildState :=
  {| id := id b; project_id := project_id b; worker_id := worker_id b; command := command b;
     started_at := started_at b; started_at_mono := started_at_mono b; hook_pid := hook_pid b;
     local_wrapper_id := local_wrapper_id b; remote_pgid_file := remote_pgid_file b; slots := slots b;
     location := location b; heartbeat_phase := heartbeat_phase b; heartbeat_detail := heartbeat_detail b;
     heartbeat_counter := heartbeat_counter b; heartbeat_percent := heartbeat_percent b;
     heartbeat_count := heartbeat_count b; last_heartbeat_at := last_heartbeat_at b;
     last_heartbeat_mono := last_heartbeat_mono b; last_progress_at := last_progress_at b;
     last_progress_mono := last_progress_mono b; detector_hook_alive := s_hook_alive s;
     detector_heartbeat_stale := s_heartbeat_stale s; detector_progress_stale := s_progress_stale s;
     detector_confidence := f64_clamp (s_confidence s) (f64_of_Z 0) (f64_of_Z 1);
     detector_build_age_secs := s_build_age_secs s; detector_slots_owned := s_slots_owned s;
     detector_last_evaluated_at := Some (utc m) |}.

Definition record_stuck_detector_snapshot (i : Z) (s : StuckDetectorSnapshot) (m : moment) (h : t) :
    option ActiveBuildState * t :=
  match active h !! i with
  | None => (None, h)
  | Some b => (Some (seen s m b), with_active (<[i := seen s m b]> (active h)) h)
  end.

(** ** The end of a build *)

(** [Instant::elapsed] in milliseconds, which saturates at zero. *)
Definition elapsed_ms (since now : Z) : Z := wrap 64 (sat_sub now since / 1000000).

Definition take_active_build (i : Z) (h : t) : option ActiveBuildState * t :=
  (active h !! i, with_active (delete i (active h)) h).

Definition completed (b : ActiveBuildState) (exit_code : Z) (duration_ms bytes : option Z)
    (timing : option CommandTimingBreakdown) (m : moment) : BuildRecord :=
  {| r_id := id b; r_started_at := started_at b; r_completed_at := utc m; r_project_id := project_id b;
     r_worker_id := Some (worker_id b); r_command := command b; r_exit_code := exit_code;
     r_duration_ms := default (elapsed_ms (started_at_mono b) (mono m)) duration_ms;
     r_location := location b; r_bytes_transferred := bytes; r_timing := timing; r_cancellation := None |}.

Definition record_completed_build (b : ActiveBuildState) (exit_code : Z) (duration_ms bytes : option Z)
    (timing : option CommandTimingBreakdown) (m : moment) (h : t) : BuildRecord * t :=
  let r := completed b exit_code duration_ms bytes timing m in (r, record r h).

Definition finish_active_build (i exit_code : Z) (duration_ms bytes : option Z)
    (timing : option CommandTimingBreakdown) (m : moment) (h : t) : option BuildRecord * t :=
  match take_active_build i h with
  | (None, h) => (None, h)
  | (Some b, h) => let (r, h) := record_completed_build b exit_code duration_ms bytes timing m h in (Some r, h)
  end.

Definition cancelled (b : ActiveBuildState) (bytes : option Z) (c : option BuildCancellationMetadata)
    (m : moment) : BuildRecord :=
  {| r_id := id b; r_started_at := started_at b; r_completed_at := utc m; r_project_id := project_id b;
     r_worker_id := Some (worker_id b); r_command := command b; r_exit_code := 130;
     r_duration_ms := elapsed_ms (started_at_mono b) (mono m);
     r_location := location b; r_bytes_transferred := bytes; r_timing := None; r_cancellation := c |}.

Definition record_cancelled_build (b : ActiveBuildState) (bytes : option Z)
    (c : option BuildCancellationMetadata) (m : moment) (h : t) : BuildRecord * t :=
  let r := cancelled b bytes c m in (r, record r h).

Definition cancel_active_build (i : Z) (bytes : option Z) (c : option BuildCancellationMetadata)
    (m : moment) (h : t) : option BuildRecord * t :=
  match take_active_build i h with
  | (None, h) => (None, h)
  | (Some b, h) => let (r, h) := record_cancelled_build b bytes c m h in (Some r, h)
  end.

Definition active_build (i : Z) (h : t) : option ActiveBuildState := active h !! i.

Definition active_workers_for_project (project : string) (h : t) : list string :=
  (fun kb : Z * ActiveBuildState => worker_id (snd kb))
    <$> filter (fun kb => project_id (snd kb) = project) (map_to_list (active h)).

(** ** The queue *)

Definition enqueue_build (project : string) (cmd : str) (pid needed : Z) (m : moment) (h : t) :
    option QueuedBuildState * t :=
  if (0 <? max_queue_depth h)%nat && (max_queue_depth h <=? length (queued h))%nat then (None, h)
  else
    let (i, h) := take_queue_id h in
    let q := {| q_id := i; q_project_id := project; q_command := cmd; queued_at := utc m;
                queued_at_mono := mono m; q_hook_pid := pid; slots_needed := needed;
                estimated_start := None |} in
    (Some q, with_queued (queued h ++ [q]) h).

Definition dequeue_build (h : t) : option QueuedBuildState * t :=
  match queued h with
  | [] => (None, h)
  | q :: l => (Some q, with_queued l h)
  end.

(** The first entry that satisfies [p], and the queue without it. *)
Fixpoint remove_first (p : QueuedBuildState -> bool) (l : list QueuedBuildState) :
    option QueuedBuildState * list QueuedBuildState :=
  match l with
  | [] => (None, [])
  | q :: l =>
      if p q then (Some q, l)
      else let (r, l) := remove_first p l in (r, q :: l)
  end.

Definition remove_queued_build (i : Z) (h : t) : option QueuedBuildState * t :=
  let (r, l) := remove_first (fun q => q_id q =? i) (queued h) in (r, with_queued l h).

Definition remove_queued_build_by_pid (pid : Z) (h : t) : option QueuedBuildState * t :=
  let (r, l) := remove_first (fun q => q_hook_pid q =? pid) (queued h) in (r, with_queued l h).

Definition queued_build (i : Z) (h : t) : option QueuedBuildState :=
  find (fun q => q_id q =? i) (queued h).

Definition queue_position (i : Z) (h : t) : option nat :=
  (fun p : nat * QueuedBuildState => S (fst p)) <$> list_find (fun q => q_id q = i) (queued h).

(** ** Statistics *)

Definition build_record_succeeded (r : BuildRecord) : bool :=
  if r_exit_code r =? 0 then true
  else
    match Classifier.kind (Classifier.classify_command (r_command r)) with
    | Some k => Classifier.is_test_command k && negb (r_exit_code r =? BUILD_ERROR_EXIT)
    | None => false
    end.

Record BuildStats := {
  total_builds : nat; success_count : nat; failure_count : nat; remote_count : nat; local_count : nat;
  avg_duration_ms : Z;
}.

Definition count {A} (p : A -> bool) (l : list A) : nat := length (List.filter p l).

(** A [u64] sum of a release build. *)
Definition sum_u64 (l : list Z) : Z := fold_left (wadd 64) l 0.

Definition stats (h : t) : BuildStats :=
  let total := length (records h) in
  if (total =? 0)%nat then
    {| total_builds := 0; success_count := 0; failure_count := 0; remote_count := 0; local_count := 0;
       avg_duration_ms := 0 |}
  else
    let successes := count build_record_succeeded (records h) in
    let remote := count (fun r => bool_decide (r_location r = Remote)) (records h) in
    {| total_builds := total; success_count := successes; failure_count := total - successes;
       remote_count := remote; local_count := total - remote;
       avg_duration_ms := sum_u64 (r_duration_ms <$> records h) / Z.of_nat total |}.

Definition wait_ms (avg : Z) (active_count position : nat) : Z :=
  if (0 <? active_count)%nat
  then sadd 64 (swrap 64 (avg / 2)) (swrap 64 (wmul 64 (Z.of_nat position) avg))
  else 0.

Definition with_estimate (v : Z) (q : QueuedBuildState) : QueuedBuildState :=
  {| q_id := q_id q; q_project_id := q_project_id q; q_command := q_command q; queued_at := queued_at q;
     queued_at_mono := queued_at_mono q; q_hook_pid := q_hook_pid q; slots_needed := slots_needed q;
     estimated_start := Some v |}.

Definition update_queue_estimates (now : Z) (h : t) : t :=
  let avg := avg_duration_ms (stats h) in
  let n := size (active h) in
  with_queued (imap (fun i q => with_estimate (now + Z.max 0 (wait_ms avg n (S i))) q) (queued h)) h.

Definition recent (limit : nat) (h : t) : list BuildRecord := take limit (rev (records h)).

Definition by_worker (w : string) (limit : nat) (h : t) : list BuildRecord :=
  take limit (filter (fun r => r_worker_id r = Some w) (rev (records h))).

Definition by_project (p : string) (limit : nat) (h : t) : list BuildRecord :=
  take limit (filter (fun r => r_project_id r = p) (rev (records h))).

Definition clear (h : t) : t := with_records [] h.

(** ** Persistence *)

(** The records of a history file that parse, the newest [capacity] of them, and the largest
    identifier seen; [parse] is the JSON decoder, a line it refuses is skipped. *)
Fixpoint load_lines (parse : str -> option BuildRecord) (capacity : nat) (lines : list str)
    (acc : list BuildRecord) (max_id : Z) : list BuildRecord * Z :=
  match lines with
  | [] => (acc, max_id)
  | l :: lines =>
      if bool_decide (trim l = []) then load_lines parse capacity lines acc max_id
      else
        match parse l with
        | Some r =>
            let acc := if (capacity <=? length acc)%nat then tail acc else acc in
            load_lines parse capacity lines (acc ++ [r]) (Z.max max_id (r_id r))
        | None => load_lines parse capacity lines acc max_id
        end
  end.

Definition load_from_file (parse : str -> option BuildRecord) (capacity : nat) (epoch_secs : Z)
    (lines : list str) : t :=
  let (rs, max_id) := load_lines parse capacity lines [] 0 in
  {| records := rs; active := ∅; queued := []; capacity := capacity;
     max_queue_depth := DEFAULT_MAX_QUEUE_DEPTH;
     next_id := Z.max (wadd 64 max_id 1) (epoch_id epoch_secs); next_queue_id := 1 |}.

End BuildHistory.

(** ** Client leases (rch-common/src/job_identity.rs) *)
Module JobIdentity.

Inductive JobLifecycleState := FailedBeforeAdmission | Queued | Running | Finished | Abandoned.

Definition is_terminal (s : JobLifecycleState) : bool :=
  match s with Finished | Abandoned | FailedBeforeAdmission => true | Queued | Running => false end.

Record JobSignals := { admitted : bool; started : bool; completed : bool; heartbeat_stale : bool }.

Definition derive_job_lifecycle_state (s : JobSignals) : JobLifecycleState :=
  if completed s then Finished
  else if negb (admitted s) then FailedBeforeAdmission
  else if heartbeat_stale s then Abandoned
  else if started s then Running
  else Queued.

Record DurableJobLease := {
  local_wrapper_id : string; remote_build_id : option Z; wrapper_pid : Z; process_start_ticks : option Z;
  boot_id : option string; state : JobLifecycleState; phase : string; worker_id : option string;
  heartbeat_unix_ms : Z; strict_remote : bool; self_healing_enabled : bool; command_fingerprint : string;
  terminal_acknowledged : bool;
}.

Definition new_lease (wrapper : string) (pid : Z) (ticks : option Z) (boot : option string) (at_ : Z)
    (strict healing : bool) (fingerprint : string) : DurableJobLease :=
  {| local_wrapper_id := wrapper; remote_build_id := None; wrapper_pid := pid; process_start_ticks := ticks;
     boot_id := boot; state := Queued; phase := "admission"; worker_id := None; heartbeat_unix_ms := at_;
     strict_remote := strict; self_healing_enabled := healing; command_fingerprint := fingerprint;
     terminal_acknowledged := false |}.

Definition admit_lease (build : Z) (worker : string) (at_ : Z) (l : DurableJobLease) : DurableJobLease :=
  {| local_wrapper_id := local_wrapper_id l; remote_build_id := Some build; wrapper_pid := wrapper_pid l;
     process_start_ticks := process_start_ticks l; boot_id := boot_id l; state := Running; phase := "sync_up";
     worker_id := Some worker; heartbeat_unix_ms := at_; strict_remote := strict_remote l;
     self_healing_enabled := self_healing_enabled l; command_fingerprint := command_fingerprint l;
     terminal_acknowledged := terminal_acknowledged l |}.

Definition heartbeat (ph : string) (at_ : Z) (l : DurableJobLease) : DurableJobLease :=
  {| local_wrapper_id := local_wrapper_id l; remote_build_id := remote_build_id l; wrapper_pid := wrapper_pid l;
     process_start_ticks := process_start_ticks l; boot_id := boot_id l; state := state l; phase := ph;
     worker_id := worker_id l; heartbeat_unix_ms := at_; strict_remote := strict_remote l;
     self_healing_enabled := self_healing_enabled l; command_fingerprint := command_fingerprint l;
     terminal_acknowledged := terminal_acknowledged l |}.

Definition acknowledge_terminal (at_ : Z) (l : DurableJobLease) : DurableJobLease :=
  {| local_wrapper_id := local_wrapper_id l; remote_build_id := remote_build_id l; wrapper_pid := wrapper_pid l;
     process_start_ticks := process_start_ticks l; boot_id := boot_id l; state := Finished; phase := "finished";
     worker_id := worker_id l; heartbeat_unix_ms := at_; strict_remote := strict_remote l;
     self_healing_enabled := self_healing_enabled l; command_fingerprint := command_fingerprint l;
     terminal_acknowledged := true |}.

Definition DEAD_WRAPPER_HEARTBEAT_STALE_MS : Z := 15 * 60 * 1000.

(** [wrapper_alive] answers for the process of the wrapper. *)
Definition lease_blocks_restart (l : DurableJobLease) (now_unix_ms : Z) (wrapper_alive : bool) : bool :=
  if is_terminal (state l) && terminal_acknowledged l then false
  else if negb (DEAD_WRAPPER_HEARTBEAT_STALE_MS <=? sat_sub now_unix_ms (heartbeat_unix_ms l)) then true
  else if wrapper_pid l =? 0 then true
  else wrapper_alive.

End JobIdentity.
