(* ===== verification/Cancellation.v ===== *)
(** * Giving a build up (rchd/src/cleanup.rs, rchd/src/cancellation.rs)

    [StuckDetector]: the evidence on which a build is cancelled without being asked.
    [Cancellation]: the escalation from SIGTERM over a remote kill to SIGKILL, the path it
    reports, and the debt it leaves with the worker.  The cleanup of a cancellation touches
    the pool and the history and is in Daemon.v.

    Events and log lines are left out. *)

From stdpp Require Import base gmap list strings.
From Stdlib Require Import ZArith Lia Btauto.
From Corelib Require Import SpecFloat.
From S2P Require Import Prelude Floats Text Numerals Lifecycle Builds.

Module StuckDetector.
Import BuildHistory.

Definition HEARTBEAT_STALE_SECS : Z := 20.
Definition PROGRESS_STALE_SECS : Z := 90.
Definition RECENT_PROGRESS_GRACE_SECS : Z := 15.
Definition MIN_BUILD_AGE_SECS : Z := 30.
Definition REMEDIATION_CONFIDENCE_THRESHOLD : f64 := lit 85 100.

Record StuckEvidenceInput := {
  in_hook_alive : bool; progress_stall_remediable_phase : bool; in_heartbeat_age_secs : Z;
  in_progress_age_secs : Z; in_build_age_secs : Z; in_slots_owned : Z; in_has_worker_binding : bool;
}.

Record StuckEvidence := {
  hook_alive : bool; heartbeat_stale : bool; progress_stale : bool; remediable_progress_stale : bool;
  heartbeat_age_secs : Z; progress_age_secs : Z; build_age_secs : Z; slots_owned : Z;
  has_worker_binding : bool; confidence : f64;
}.

Definition should_remediate (e : StuckEvidence) : bool :=
  let hard_timeout := 86400 <? build_age_secs e in
  let dead_hook_evidence := negb (hook_alive e) && heartbeat_stale e in
  let phase_stall_evidence := remediable_progress_stale e in
  hard_timeout
  || ((MIN_BUILD_AGE_SECS <=? build_age_secs e) && (0 <? slots_owned e) && has_worker_binding e
      && (dead_hook_evidence || phase_stall_evidence)
      && f64_ge (confidence e) REMEDIATION_CONFIDENCE_THRESHOLD).

Definition plus (b : bool) (v : f64) (c : f64) : f64 := if b then f64_add c v else c.
Definition minus (b : bool) (v : f64) (c : f64) : f64 :=
  if b then f64_max (f64_sub c v) (f64_of_Z 0) else c.

(** The confidence as a function of what the code branches on. *)
Definition score (alive hb_stale prog_stale remediable prog_recent owned bound young : bool) : f64 :=
  let c := f64_of_Z 0 in
  let c := plus (negb alive) (lit 60 100) c in
  let c := plus hb_stale (lit 25 100) c in
  let c := plus prog_stale (lit 15 100) c in
  let c := plus remediable (lit 65 100) c in
  let c := minus prog_recent (lit 20 100) c in
  let c := plus owned (lit 5 100) c in
  let c := plus bound (lit 5 100) c in
  let c := minus young (lit 25 100) c in
  f64_clamp c (f64_of_Z 0) (f64_of_Z 1).

Definition score_stuck_evidence (i : StuckEvidenceInput) : StuckEvidence :=
  let hb_stale := HEARTBEAT_STALE_SECS <=? in_heartbeat_age_secs i in
  let prog_stale := PROGRESS_STALE_SECS <=? in_progress_age_secs i in
  let prog_recent := in_progress_age_secs i <=? RECENT_PROGRESS_GRACE_SECS in
  let corroborated := negb (in_hook_alive i) || hb_stale in
  let remediable := progress_stall_remediable_phase i && prog_stale && negb prog_recent && corroborated in
  {| hook_alive := in_hook_alive i; heartbeat_stale := hb_stale; progress_stale := prog_stale;
     remediable_progress_stale := remediable; heartbeat_age_secs := in_heartbeat_age_secs i;
     progress_age_secs := in_progress_age_secs i; build_age_secs := in_build_age_secs i;
     slots_owned := in_slots_owned i; has_worker_binding := in_has_worker_binding i;
     confidence := score (in_hook_alive i) hb_stale prog_stale remediable prog_recent
                     (0 <? in_slots_owned i) (in_has_worker_binding i)
                     (in_build_age_secs i <? MIN_BUILD_AGE_SECS) |}.

Definition is_progress_stall_remediable_phase (p : BuildHeartbeatPhase) : bool :=
  match p with SyncUp | Execute | SyncDown | Finalize => true end.

(** [checked_duration_since(..).unwrap_or_default().as_secs()]. *)
Definition age_secs (since now : Z) : Z := sat_sub now since / 1000000000.

(** The body of the loop over one build; [alive] answers for its process. *)
Definition evidence_of (alive : Z -> bool) (now : Z) (b : ActiveBuildState) : StuckEvidence :=
  score_stuck_evidence
    {| in_hook_alive := (hook_pid b =? 0) || alive (hook_pid b);
       progress_stall_remediable_phase := is_progress_stall_remediable_phase (heartbeat_phase b);
       in_heartbeat_age_secs := age_secs (last_heartbeat_mono b) now;
       in_progress_age_secs := age_secs (last_progress_mono b) now;
       in_build_age_secs := age_secs (started_at_mono b) now;
       in_slots_owned := slots b;
       in_has_worker_binding := negb (bool_decide (worker_id b = EmptyString)) |}.

Definition snapshot_of (e : StuckEvidence) : StuckDetectorSnapshot :=
  {| s_hook_alive := hook_alive e; s_heartbeat_stale := heartbeat_stale e; s_progress_stale := progress_stale e;
     s_confidence := confidence e; s_build_age_secs := build_age_secs e; s_slots_owned := slots_owned e |}.

(** ** When a build is given up *)

(** The comparison of floats, decided by the branches the code took. *)
Lemma score_threshold alive hb_stale prog_stale prog_recent owned bound young :
  (prog_stale = true -> prog_recent = false) ->
  let remediable := prog_stale && negb prog_recent && (negb alive || hb_stale) in
  owned && bound && negb young && ((negb alive && hb_stale) || remediable)
  && f64_ge (score alive hb_stale prog_stale remediable prog_recent owned bound young)
       REMEDIATION_CONFIDENCE_THRESHOLD
  = owned && bound && negb young && ((negb alive && hb_stale && negb prog_recent) || (prog_stale && (negb alive || hb_stale))).
Proof.
  intros H. destruct prog_stale, prog_recent; try (by specialize (H eq_refl)); clear H;
    destruct alive, hb_stale, owned, bound, young; vm_compute; reflexivity.
Qed.

(** C15: When the stuck detector gives a build up, said without its confidence score: after a day; or when the build
    is thirty seconds old, holds slots and has a worker, and either its hook is dead, the heartbeat is twenty seconds
    old and there was no progress for more than fifteen, or there was no progress for ninety seconds and the hook is
    dead or the heartbeat twenty seconds old.  In particular a build whose hook lives and beats is left alone for a
    day. *)
Theorem remediates_iff alive now b :
  let age := age_secs (started_at_mono b) now in
  let hb := age_secs (last_heartbeat_mono b) now in
  let pr := age_secs (last_progress_mono b) now in
  let dead := negb ((hook_pid b =? 0) || alive (hook_pid b)) in
  should_remediate (evidence_of alive now b)
  = (86400 <? age)
    || ((30 <=? age) && (0 <? slots b) && negb (bool_decide (worker_id b = EmptyString))
        && ((dead && (20 <=? hb) && (15 <? pr)) || ((90 <=? pr) && (dead || (20 <=? hb))))).
Proof.
  cbn zeta. unfold should_remediate, evidence_of, score_stuck_evidence.
  generalize (negb (bool_decide (worker_id b = EmptyString))) as bound. intros bound. cbn -[score f64_ge Z.leb Z.ltb lit].
  unfold HEARTBEAT_STALE_SECS, PROGRESS_STALE_SECS, RECENT_PROGRESS_GRACE_SECS, MIN_BUILD_AGE_SECS.
  set (age := age_secs (started_at_mono b) now). set (hb := age_secs (last_heartbeat_mono b) now).
  set (pr := age_secs (last_progress_mono b) now). set (up := (hook_pid b =? 0) || alive (hook_pid b)).
  assert (Hp : is_progress_stall_remediable_phase (heartbeat_phase b) = true) by (by destruct (heartbeat_phase b)).
  rewrite Hp. cbn [andb]. f_equal.
  pose proof (score_threshold up (20 <=? hb) (90 <=? pr) (pr <=? 15) (0 <? slots b)
                bound (age <? 30)) as Hs.
  assert (E : negb (age <? 30) = (30 <=? age)) by lia. assert (E' : negb (pr <=? 15) = (15 <? pr)) by lia.
  cbn zeta in Hs. rewrite E, E' in *. rewrite <- E' in Hs |- *.
  replace ((30 <=? age) && (0 <? slots b) && bound) with ((0 <? slots b) && bound && (30 <=? age)) by btauto.
  apply Hs. lia.
Qed.

End StuckDetector.

Module Cancellation.
Import BuildHistory.

Inductive CancelReason := User | Timeout | StuckDetector | QueueEviction.

Definition reason_str (r : CancelReason) : string :=
  match r with
  | User => "user" | Timeout => "timeout" | StuckDetector => "stuck_detector" | QueueEviction => "queue_eviction"
  end.

Inductive CancellationState := Requested | TermSent | RemoteKillSent | Escalated | Completed | Failed.

#[export] Instance CancellationState_eq_dec : EqDecision CancellationState.
Proof. solve_decision. Defined.

Definition state_str (s : CancellationState) : string :=
  match s with
  | Requested => "requested" | TermSent => "term_sent" | RemoteKillSent => "remote_kill_sent"
  | Escalated => "escalated" | Completed => "completed" | Failed => "failed"
  end.

Record CancellationRecord := {
  c_build_id : Z; c_worker_id : string; c_state : CancellationState; c_reason : CancelReason;
  requested_at : Z; completed_at : option Z; escalation_count : Z; remote_kill_attempted : bool;
  cleanup_ok : bool; c_slots : Z; slots_released : Z; c_hook_pid : Z; c_remote_pgid_file : option str;
}.

Definition set_state (s : CancellationState) (r : CancellationRecord) : CancellationRecord :=
  {| c_build_id := c_build_id r; c_worker_id := c_worker_id r; c_state := s; c_reason := c_reason r;
     requested_at := requested_at r; completed_at := completed_at r; escalation_count := escalation_count r;
     remote_kill_attempted := remote_kill_attempted r; cleanup_ok := cleanup_ok r; c_slots := c_slots r;
     slots_released := slots_released r; c_hook_pid := c_hook_pid r; c_remote_pgid_file := c_remote_pgid_file r |}.
Definition escalate (r : CancellationRecord) : CancellationRecord :=
  {| c_build_id := c_build_id r; c_worker_id := c_worker_id r; c_state := c_state r; c_reason := c_reason r;
     requested_at := requested_at r; completed_at := completed_at r;
     escalation_count := wadd 32 (escalation_count r) 1;
     remote_kill_attempted := remote_kill_attempted r; cleanup_ok := cleanup_ok r; c_slots := c_slots r;
     slots_released := slots_released r; c_hook_pid := c_hook_pid r; c_remote_pgid_file := c_remote_pgid_file r |}.
Definition set_attempted (r : CancellationRecord) : CancellationRecord :=
  {| c_build_id := c_build_id r; c_worker_id := c_worker_id r; c_state := c_state r; c_reason := c_reason r;
     requested_at := requested_at r; completed_at := completed_at r; escalation_count := escalation_count r;
     remote_kill_attempted := true; cleanup_ok := cleanup_ok r; c_slots := c_slots r;
     slots_released := slots_released r; c_hook_pid := c_hook_pid r; c_remote_pgid_file := c_remote_pgid_file r |}.
(** What the release of the slots leaves. *)
Definition set_released (ok : bool) (n : Z) (r : CancellationRecord) : CancellationRecord :=
  {| c_build_id := c_build_id r; c_worker_id := c_worker_id r; c_state := c_state r; c_reason := c_reason r;
     requested_at := requested_at r; completed_at := completed_at r; escalation_count := escalation_count r;
     remote_kill_attempted := remote_kill_attempted r; cleanup_ok := cleanup_ok r && ok; c_slots := c_slots r;
     slots_released := n; c_hook_pid := c_hook_pid r; c_remote_pgid_file := c_remote_pgid_file r |}.
Definition set_completed (at_ : Z) (r : CancellationRecord) : CancellationRecord :=
  {| c_build_id := c_build_id r; c_worker_id := c_worker_id r; c_state := c_state r; c_reason := c_reason r;
     requested_at := requested_at r; completed_at := Some at_; escalation_count := escalation_count r;
     remote_kill_attempted := remote_kill_attempted r; cleanup_ok := cleanup_ok r; c_slots := c_slots r;
     slots_released := slots_released r; c_hook_pid := c_hook_pid r; c_remote_pgid_file := c_remote_pgid_file r |}.

Definition cancellation_operation_id (i : Z) : str := Bytes.str_bytes "cancel-" ++ show_u64 i.

Definition worker_status_label (s : WorkerLifecycle.WorkerStatus) : string :=
  match s with
  | WorkerLifecycle.StHealthy => "healthy" | WorkerLifecycle.StDegraded => "degraded"
  | WorkerLifecycle.StUnreachable => "unreachable" | WorkerLifecycle.StDraining => "draining"
  | WorkerLifecycle.StDrained => "drained" | WorkerLifecycle.StDisabled => "disabled"
  end.

Definition push_decision_stage (path : list string) (stage : string) : list string :=
  if bool_decide (last path = Some stage) then path else path ++ [stage].

Definition cancellation_decision_path (r : CancellationRecord) : list string :=
  let path := ["requested"%string] in
  let force_path := remote_kill_attempted r && (escalation_count r =? 0)
                    && match c_state r with Completed | Failed | Escalated => true | _ => false end in
  let path :=
    if force_path then push_decision_stage (push_decision_stage path "escalated") "remote_kill_sent"
    else
      let path := push_decision_stage path "term_sent" in
      let path := if remote_kill_attempted r then push_decision_stage path "remote_kill_sent" else path in
      if (1 <? escalation_count r) || bool_decide (c_state r = Escalated)
      then push_decision_stage path "escalated" else path in
  push_decision_stage path (state_str (c_state r)).

Definition cancellation_escalation_stage (r : CancellationRecord) : string :=
  if (1 <? escalation_count r) || bool_decide (c_state r = Escalated) then "sigkill"
  else if remote_kill_attempted r then "remote_kill" else "term".

(** Durations in nanoseconds. *)
Record CancellationConfig := {
  grace_period : Z; kill_timeout : Z; remote_kill_timeout : Z; max_escalations : Z; cleanup_timeout : Z;
}.

Definition SECOND : Z := 1000000000.
Definition config_default : CancellationConfig :=
  {| grace_period := 5 * SECOND; kill_timeout := 3 * SECOND; remote_kill_timeout := 10 * SECOND;
     max_escalations := 3; cleanup_timeout := 15 * SECOND |}.

(** ** The escalation

    What the cancellation does not control: how long each of its calls takes beyond the
    sleep it asks for, whether the process is alive when probed, and whether the remote kill
    succeeds.  A run threads the number of calls made and the time; [deed] is what it does
    to processes, with the time it does it. *)
Record surroundings := { delay : nat -> N; alive : nat -> bool; killed : nat -> bool }.

Inductive deed := Signal (pid : Z) (force : bool) | RemoteKill | Wait (ns : Z).

Record run := { calls : nat; time : Z; deeds : list (Z * deed); rec : CancellationRecord }.

Section escalation.
Context (cfg : CancellationConfig) (env : surroundings).

Definition on_record (f : CancellationRecord -> CancellationRecord) (x : run) : run :=
  {| calls := calls x; time := time x; deeds := deeds x; rec := f (rec x) |}.

Definition pass (ns : Z) (x : run) : run :=
  {| calls := S (calls x); time := time x + ns + Z.of_N (delay env (calls x)); deeds := deeds x; rec := rec x |}.

Definition did (d : deed) (x : run) : run :=
  {| calls := calls x; time := time x; deeds := deeds x ++ [(time x, d)]; rec := rec x |}.

(** [Instant::now()]. *)
Definition now (x : run) : Z * run := let x := pass 0 x in (time x, x).

Definition sleep (ns : Z) (x : run) : run := pass ns (did (Wait ns) x).

Definition send_signal (force : bool) (x : run) : run :=
  if 0 <? c_hook_pid (rec x) then pass 0 (did (Signal (c_hook_pid (rec x)) force) x) else x.

(** [record.hook_pid == 0 || !is_process_alive(record.hook_pid)]. *)
Definition hook_gone (x : run) : bool * run :=
  if c_hook_pid (rec x) =? 0 then (true, x) else (negb (alive env (calls x)), pass 0 x).

(** [known]: the pool still has the worker. *)
Definition try_remote_kill (known : bool) (x : run) : bool * run :=
  let x := on_record set_attempted x in
  if known then (killed env (calls x), pass 0 (did RemoteKill x)) else (false, x).

Definition attempt_remote_kill_stage (known : bool) (x : run) : bool * run :=
  try_remote_kill known (on_record (fun r => set_state RemoteKillSent (escalate r)) x).

Definition POLL : Z := 250000000.

(** The grace period: [true] when the process was found gone. *)
Fixpoint await_exit (fuel : nat) (known : bool) (grace_end deadline : Z) (x : run) : option (bool * run) :=
  match fuel with
  | O => None
  | S fuel =>
      let (t1, x) := now x in
      if negb (t1 <? grace_end) then Some (false, x)
      else
        let (t2, x) := now x in
        if negb (t2 <? deadline) then Some (false, x)
        else
          let (gone, x) := hook_gone x in
          if gone then
            let x := match c_remote_pgid_file (rec x) with
                     | Some _ => snd (attempt_remote_kill_stage known x)
                     | None => x
                     end in
            Some (true, on_record (set_state Completed) x)
          else await_exit fuel known grace_end deadline (sleep POLL x)
  end.

(** After the grace period. *)
Definition escalate_further (known : bool) (deadline : Z) (x : run) : run :=
  let (t, x) := now x in
  if deadline <=? t then on_record (set_state Failed) x
  else
    let (remote_killed, x) := attempt_remote_kill_stage known x in
    let (over, x) :=
      if remote_killed then hook_gone (sleep (SECOND / 2) x) else (false, x) in
    if over then on_record (set_state Completed) x
    else
      let (t, x) := now x in
      if deadline <=? t then on_record (set_state Failed) x
      else
        let x := on_record (fun r => set_state Escalated (escalate r)) x in
        let x := send_signal true x in
        let x := sleep (Z.min (kill_timeout cfg) (2 * SECOND)) x in
        on_record (set_state Completed) x.

(** The polls of a grace period. *)
Definition polls : nat := S (Z.to_nat (grace_period cfg / POLL + 1)).

Definition execute_cancellation (known force : bool) (x : run) : option run :=
  let (t0, x) := now x in
  let deadline := t0 + cleanup_timeout cfg in
  if force then
    let x := on_record (set_state Escalated) x in
    let x := send_signal true x in
    let x := snd (try_remote_kill known x) in
    Some (on_record (set_state Completed) x)
  else
    let x := on_record (set_state TermSent) x in
    let x := send_signal false x in
    let (t1, x) := now x in
    match await_exit polls known (t1 + grace_period cfg) deadline x with
    | None => None
    | Some (true, x) => Some x
    | Some (false, x) => Some (escalate_further known deadline x)
    end.

End escalation.

(** ** Debt *)

Record WorkerCancelStats := {
  recent_cancellations : list Z; recent_escalations : list Z; recent_cleanup_failures : list Z;
  cs_total_builds : Z;
}.

Definition stats_default : WorkerCancelStats :=
  {| recent_cancellations := []; recent_escalations := []; recent_cleanup_failures := []; cs_total_builds := 0 |}.

Definition DEBT_WINDOW : Z := 300 * SECOND.

Definition record_cancellation_stats (now : Z) (r : CancellationRecord)
    (m : gmap string WorkerCancelStats) : gmap string WorkerCancelStats :=
  let e := default stats_default (m !! c_worker_id r) in
  <[c_worker_id r :=
      {| recent_cancellations := recent_cancellations e ++ [now];
         recent_escalations := recent_escalations e ++ replicate (Z.to_nat (escalation_count r)) now;
         recent_cleanup_failures :=
           if cleanup_ok r then recent_cleanup_failures e else recent_cleanup_failures e ++ [now];
         cs_total_builds := cs_total_builds e |}]> m.

Definition in_window (now t : Z) : bool := sat_sub now t <? DEBT_WINDOW.

Definition prune_stats (now : Z) (e : WorkerCancelStats) : WorkerCancelStats :=
  {| recent_cancellations := List.filter (in_window now) (recent_cancellations e);
     recent_escalations := List.filter (in_window now) (recent_escalations e);
     recent_cleanup_failures := List.filter (in_window now) (recent_cleanup_failures e);
     cs_total_builds := cs_total_builds e |}.

Definition debt_of (e : WorkerCancelStats) : f64 :=
  let n (l : list Z) := f64_of_Z (Z.of_nat (length l)) in
  let rate_debt := f64_min (f64_div (n (recent_cancellations e)) (f64_of_Z 5)) (f64_of_Z 1) in
  let escalation_debt := f64_min (f64_mul (n (recent_escalations e)) (lit 2 10)) (lit 6 10) in
  let cleanup_debt := f64_min (f64_mul (n (recent_cleanup_failures e)) (lit 3 10)) (lit 6 10) in
  f64_clamp (f64_add (f64_add (f64_mul rate_debt (lit 4 10)) (f64_mul escalation_debt (lit 3 10)))
               (f64_mul cleanup_debt (lit 3 10))) (f64_of_Z 0) (f64_of_Z 1).

Definition cancellation_debt (now : Z) (w : string) (m : gmap string WorkerCancelStats) :
    f64 * gmap string WorkerCancelStats :=
  match m !! w with
  | None => (f64_of_Z 0, m)
  | Some e => let e := prune_stats now e in (debt_of e, <[w := e]> m)
  end.

Definition record_build (w : string) (m : gmap string WorkerCancelStats) : gmap string WorkerCancelStats :=
  let e := default stats_default (m !! w) in
  <[w := {| recent_cancellations := recent_cancellations e; recent_escalations := recent_escalations e;
            recent_cleanup_failures := recent_cleanup_failures e;
            cs_total_builds := wadd 64 (cs_total_builds e) 1 |}]> m.

End Cancellation.

Module EscalationFacts.
Import Cancellation.

(** What was done to processes. *)
Definition is_act (d : deed) : bool := match d with Wait _ => false | _ => true end.
Definition acts (l : list (Z * deed)) : list deed := List.filter is_act (snd <$> l).

Lemma acts_app a b : acts (a ++ b) = acts a ++ acts b.
Proof. unfold acts. by rewrite fmap_app, List.filter_app. Qed.

(** The deed a stage of the decision path names. *)
Definition stage_act (pid : Z) (stage : string) : option deed :=
  if bool_decide (stage = "term_sent"%string) then Some (Signal pid false)
  else if bool_decide (stage = "remote_kill_sent"%string) then Some RemoteKill
  else if bool_decide (stage = "escalated"%string) then Some (Signal pid true)
  else None.

(** A signal needs a process, a remote kill a worker. *)
Definition has_target (known : bool) (d : deed) : bool :=
  match d with Signal pid _ => 0 <? pid | RemoteKill => known | Wait _ => false end.

Definition stage_deeds (pid : Z) (known : bool) (stage : string) : list deed :=
  List.filter (has_target known) (option_list (stage_act pid stage)).

Lemma stage_term pid known : stage_deeds pid known "term_sent" = if 0 <? pid then [Signal pid false] else [].
Proof. reflexivity. Qed.
Lemma stage_remote pid known : stage_deeds pid known "remote_kill_sent" = if known then [RemoteKill] else [].
Proof. reflexivity. Qed.
Lemma stage_kill pid known : stage_deeds pid known "escalated" = if 0 <? pid then [Signal pid true] else [].
Proof. reflexivity. Qed.

(** The deeds a decision path names, in order. *)
Definition named (pid : Z) (path : list string) : list deed := omap (stage_act pid) path.

Lemma named_deeds pid known path :
  concat (stage_deeds pid known <$> path) = List.filter (has_target known) (named pid path).
Proof.
  induction path as [|stage path IH]; [done|]. cbn [fmap list_fmap concat]. rewrite IH. unfold named at 2. cbn [omap list_omap].
  unfold stage_deeds. destruct (stage_act pid stage) as [d|]; cbn; [|done]. by destruct (has_target known d).
Qed.

Lemma named_targets pid path : 0 < pid -> List.filter (has_target true) (named pid path) = named pid path.
Proof.
  intros Hp. unfold named. induction path as [|stage path IH]; [done|]. cbn [omap list_omap].
  destruct (stage_act pid stage) as [d|] eqn:E; [|done]. cbn. rewrite IH.
  assert (has_target true d = true) as ->; [|done]. unfold stage_act in E. repeat (case_bool_decide; simplify_eq/=); lia.
Qed.

(** Every SIGKILL comes at [ge] or later, every SIGTERM [g] or more before it. *)
Definition spaced (ge g : Z) (l : list (Z * deed)) : Prop :=
  (forall t p, (t, Signal p true) ∈ l -> ge <= t) /\ (forall t p, (t, Signal p false) ∈ l -> t + g <= ge).

Lemma spaced_snoc ge g l t d :
  spaced ge g l -> match d with Signal _ true => ge <= t | Signal _ false => t + g <= ge | _ => True end ->
  spaced ge g (l ++ [(t, d)]).
Proof.
  intros [H1 H2] Hd. split; intros t' p [?|[= -> <-]%list_elem_of_singleton]%elem_of_app; eauto.
Qed.

Section facts.
Context (cfg : CancellationConfig) (env : surroundings) (known : bool).

(** The record after a remote kill was tried, and after the last escalation. *)
Definition remote_stage (r : CancellationRecord) : CancellationRecord :=
  set_attempted (set_state RemoteKillSent (escalate r)).

Lemma remote_kill_spec x :
  exists k x', attempt_remote_kill_stage env known x = (k, x') /\ rec x' = remote_stage (rec x)
    /\ acts (deeds x') = acts (deeds x) ++ stage_deeds 0 known "remote_kill_sent" /\ time x <= time x'
    /\ (k = true -> known = true) /\ (forall ge g, spaced ge g (deeds x) -> spaced ge g (deeds x')).
Proof.
  unfold attempt_remote_kill_stage, try_remote_kill, on_record, pass, did. cbn.
  destruct known; eexists _, _; (split; [reflexivity|]); cbn [rec deeds time fst snd]; rewrite ?acts_app, ?app_nil_r;
    split_and!; try done; try lia. intros. by apply spaced_snoc.
Qed.

Lemma hook_gone_spec x :
  exists g x', hook_gone env x = (g, x') /\ rec x' = rec x /\ deeds x' = deeds x /\ time x <= time x'.
Proof.
  unfold hook_gone. destruct (_ =? _); eexists _, _; (split; [reflexivity|]); cbn; split_and!; try done; lia.
Qed.

(** The grace period ends: the process is gone, or its time is up. *)
Lemma await_exit_spec fuel ge dl x :
  ge - time x <= (Z.of_nat fuel - 1) * POLL -> (0 < fuel)%nat ->
  exists g x', await_exit env fuel known ge dl x = Some (g, x') /\ time x <= time x' /\
    (forall ge g, spaced ge g (deeds x) -> spaced ge g (deeds x')) /\
    if g then exists r, rec x' = set_state Completed r /\
           (r = rec x /\ acts (deeds x') = acts (deeds x) \/
            r = remote_stage (rec x) /\ acts (deeds x') = acts (deeds x) ++ stage_deeds 0 known "remote_kill_sent")
    else rec x' = rec x /\ acts (deeds x') = acts (deeds x) /\ (ge <= time x' \/ dl <= time x').
Proof.
  revert x. induction fuel as [|fuel IH]; intros x Hf Hp; [lia|]. cbn [await_exit now].
  set (x1 := pass env 0 x). assert (H1 : time x <= time x1) by (cbn; lia).
  destruct (Z.ltb_spec (time x1) ge) as [Hlt|Hge]; cbn [negb].
  2: { eexists _, _. split; [done|]. split; [done|]. split; [done|]. by split_and!; [..|left]. }
  set (x2 := pass env 0 x1). assert (H2 : time x1 <= time x2) by (cbn; lia).
  destruct (Z.ltb_spec (time x2) dl) as [Hlt2|Hge2]; cbn [negb].
  2: { eexists _, _. split; [done|]. split; [lia|]. split; [done|]. by split_and!; [..|right]. }
  destruct (hook_gone_spec x2) as (g & x3 & -> & Hr3 & Hd3 & H3).
  assert (Hd3' : deeds x3 = deeds x) by by rewrite Hd3.
  destruct g.
  - eexists _, _. split; [done|]. destruct (c_remote_pgid_file (rec x3)).
    + destruct (remote_kill_spec x3) as (k & x4 & -> & Hr4 & Hd4 & H4 & _ & Hsp). cbn [snd on_record rec deeds time].
      split; [lia|]. split; [intros ge' g'; rewrite <- Hd3'; apply Hsp|].
      exists (rec x4). split; [done|]. right. by rewrite Hr4, Hr3, Hd4, Hd3.
    + cbn [on_record rec deeds time]. split; [lia|]. split; [by rewrite Hd3'|]. exists (rec x3). split; [done|]. left. by rewrite Hr3, Hd3.
  - set (x4 := sleep env POLL x3). assert (H4 : time x3 + POLL <= time x4) by (cbn; lia).
    assert (Hd4 : acts (deeds x4) = acts (deeds x)) by (cbn [x4 sleep pass did deeds]; rewrite acts_app, Hd3; by rewrite app_nil_r).
    destruct (decide (fuel = O)) as [->|Hne].
    { exfalso. unfold POLL in *. lia. }
    destruct (IH x4) as (g & x' & -> & Ht & Hsp & Hs); [unfold POLL in *; lia|lia|].
    eexists _, _. split; [done|]. split; [unfold POLL in *; lia|].
    split; [intros ge' g' Hx; apply Hsp; cbn; rewrite Hd3'; by apply spaced_snoc|].
    assert (Hr4 : rec x4 = rec x) by (cbn; by rewrite Hr3). rewrite Hr4, Hd4 in Hs. done.
Qed.

(** A record as [cancel_build] makes it. *)
Definition fresh (r : CancellationRecord) : Prop :=
  c_state r = Requested /\ escalation_count r = 0 /\ remote_kill_attempted r = false.

(** The record a run may end with. *)
Inductive ending (force : bool) (r : CancellationRecord) : CancellationRecord -> Prop :=
  | forced : force = true -> ending force r (set_state Completed (set_attempted (set_state Escalated r)))
  | exited : force = false -> ending force r (set_state Completed (set_state TermSent r))
  | swept : force = false -> ending force r (set_state Completed (remote_stage (set_state TermSent r)))
  | late : force = false -> ending force r (set_state Failed (set_state TermSent r))
  | later : force = false -> ending force r (set_state Failed (remote_stage (set_state TermSent r)))
  | killed_hard : force = false ->
      ending force r (set_state Completed (set_state Escalated (escalate (remote_stage (set_state TermSent r))))).

Lemma send_signal_spec force x :
  rec (send_signal env force x) = rec x /\ time x <= time (send_signal env force x) /\
  acts (deeds (send_signal env force x))
  = acts (deeds x) ++ (if 0 <? c_hook_pid (rec x) then [Signal (c_hook_pid (rec x)) force] else []).
Proof.
  unfold send_signal. destruct (0 <? _); cbn [pass did rec deeds time]; [|by rewrite app_nil_r].
  rewrite acts_app. split; [done|]. split; [lia|done].
Qed.

Lemma path_deeds r r0 force (Hf : fresh r0) (pid := c_hook_pid r0) :
  ending force r0 r ->
  concat (stage_deeds pid known <$> cancellation_decision_path r)
  = (if force then stage_deeds pid known "escalated" ++ stage_deeds pid known "remote_kill_sent"
     else stage_deeds pid known "term_sent"
          ++ (if remote_kill_attempted r then stage_deeds pid known "remote_kill_sent" else [])
          ++ (if escalation_count r =? 2 then stage_deeds pid known "escalated" else [])).
Proof.
  destruct Hf as (Hs & He & Ha). unfold cancellation_decision_path, pid. destruct r0. cbn in *. subst.
  destruct known, 1; subst force; destruct c_hook_pid0; vm_compute; reflexivity.
Qed.

Lemma escalate_further_spec ge dl r0 x :
  0 <= kill_timeout cfg -> fresh r0 -> rec x = set_state TermSent r0 -> ge <= time x \/ dl <= time x ->
  acts (deeds x) = stage_deeds (c_hook_pid r0) known "term_sent" ->
  exists r, rec (escalate_further cfg env known dl x) = r /\ ending false r0 r /\
    acts (deeds (escalate_further cfg env known dl x))
    = stage_deeds (c_hook_pid r0) known "term_sent"
      ++ (if remote_kill_attempted r then stage_deeds (c_hook_pid r0) known "remote_kill_sent" else [])
      ++ (if escalation_count r =? 2 then stage_deeds (c_hook_pid r0) known "escalated" else []) /\
    (forall g, spaced ge g (deeds x) -> spaced ge g (deeds (escalate_further cfg env known dl x))).
Proof.
  intros Hk (Hs & He & Ha) Hr Ht Hd. unfold escalate_further. cbn [now].
  set (x1 := pass env 0 x). assert (H1 : time x <= time x1) by (cbn; lia).
  destruct (Z.leb_spec dl (time x1)) as [Hle|Hlt].
  { eexists. split; [done|]. cbn [on_record rec]. change (rec x1) with (rec x). rewrite Hr. cbn. rewrite Ha, He. cbn.
    split; [by apply late|]. rewrite app_nil_r. by split. }
  destruct (remote_kill_spec x1) as (k & x2 & -> & Hr2 & Hd2 & H2 & _ & Hsp2).
  change (rec x1) with (rec x) in Hr2. change (deeds x1) with (deeds x) in Hd2. rewrite Hr in Hr2. rewrite Hd in Hd2.
  assert (Hover : exists o x3, (if k then hook_gone env (sleep env (SECOND / 2) x2) else (false, x2)) = (o, x3) /\
    rec x3 = rec x2 /\ acts (deeds x3) = acts (deeds x2) /\ time x2 <= time x3 /\
    (forall ge g, spaced ge g (deeds x2) -> spaced ge g (deeds x3))).
  { destruct k; [|by exists false, x2].
    destruct (hook_gone_spec (sleep env (SECOND / 2) x2)) as (g & x3 & -> & Hr3 & Hd3 & H3).
    exists g, x3. split; [done|]. rewrite Hr3, Hd3. cbn [sleep pass did time rec deeds] in *. rewrite acts_app.
    change (acts [(time x2, Wait (SECOND / 2))]) with (@nil deed). rewrite app_nil_r.
    assert (0 <= SECOND / 2) by (by vm_compute). split_and!; try done; [lia|]. intros. by apply spaced_snoc. }
  destruct Hover as (o & x3 & -> & Hr3 & Hd3 & H3 & Hsp3). rewrite Hr2 in Hr3. rewrite Hd2 in Hd3.
  destruct o.
  { eexists. split; [done|]. cbn [on_record rec deeds time]. rewrite Hr3. cbn. rewrite He. cbn.
    split; [by apply swept|]. rewrite app_nil_r. split; [done|]. intros g Hg. by apply Hsp3, Hsp2. }
  cbn [now]. set (x4 := pass env 0 x3). assert (H4 : time x3 <= time x4) by (cbn; lia).
  destruct (Z.leb_spec dl (time x4)) as [Hle|Hlt4].
  { eexists. split; [done|]. cbn [on_record rec deeds time]. change (rec x4) with (rec x3). rewrite Hr3. cbn. rewrite He. cbn.
    split; [by apply later|]. rewrite app_nil_r. split; [done|]. intros g Hg. by apply Hsp3, Hsp2. }
  set (x5 := on_record _ x4).
  destruct (send_signal_spec true x5) as (Hr6 & H6 & Hd6). set (x6 := send_signal env true x5) in *.
  eexists. split; [done|]. cbn [on_record rec deeds time sleep pass did].
  rewrite Hr6. unfold x5. cbn [on_record rec]. change (rec x4) with (rec x3). rewrite Hr3.
  split; [by apply killed_hard|]. split.
  - rewrite acts_app. cbn [acts List.filter is_act fmap list_fmap snd]. rewrite app_nil_r, Hd6.
    unfold x5. cbn [on_record rec deeds]. change (rec x4) with (rec x3). change (deeds x4) with (deeds x3).
    rewrite Hr3, Hd3. cbn. rewrite He. cbn. by rewrite <- app_assoc.
  - intros g Hg. apply spaced_snoc; [|done]. unfold x6, send_signal. destruct (0 <? _); [|by apply Hsp3, Hsp2].
    apply (spaced_snoc _ _ (deeds x5)); [by apply Hsp3, Hsp2|]. change (ge <= time x4). lia.
Qed.

Lemma ending_facts force r r' :
  fresh r -> ending force r r' ->
  (c_state r' = Completed \/ c_state r' = Failed) /\ 0 <= escalation_count r' <= 2 /\
  c_build_id r' = c_build_id r /\ c_worker_id r' = c_worker_id r /\ c_slots r' = c_slots r /\
  c_hook_pid r' = c_hook_pid r /\ cleanup_ok r' = cleanup_ok r /\ slots_released r' = slots_released r.
Proof.
  intros (Hs & He & Ha). destruct r. cbn in *. subst.
  destruct 1; cbn; split_and!; try done; (by left) || (by right).
Qed.

Lemma elem_acts d l : is_act d = true -> (exists t, (t, d) ∈ l) <-> d ∈ acts l.
Proof.
  intros Hd. unfold acts. rewrite list_elem_of_In, List.filter_In, <- list_elem_of_In, list_elem_of_fmap. split.
  - intros [t Ht]. split; [|done]. by exists (t, d).
  - intros [([t d'] & -> & Ht) _]. by exists t.
Qed.

(** The run, with the deeds its decision path stands for. *)
Lemma execute_spec force x :
  fresh (rec x) -> deeds x = [] -> 0 <= kill_timeout cfg -> 0 <= grace_period cfg ->
  exists x', execute_cancellation cfg env known force x = Some x' /\ ending force (rec x) (rec x') /\
    acts (deeds x') = concat (stage_deeds (c_hook_pid (rec x)) known <$> cancellation_decision_path (rec x')) /\
    (force = false -> exists ge, spaced ge (grace_period cfg) (deeds x')).
Proof.
  intros Hf Hd Hk Hg. unfold execute_cancellation. cbn [now].
  set (x1 := pass env 0 x). assert (H1 : time x <= time x1) by (cbn; lia). destruct force.
  - set (x2 := on_record (set_state Escalated) x1). destruct (send_signal_spec true x2) as (Hr & _ & Ha).
    set (x3 := send_signal env true x2) in *. eexists. split; [done|].
    assert (He : ending true (rec x) (set_state Completed (set_attempted (set_state Escalated (rec x))))) by by apply forced.
    change (deeds x2) with (deeds x) in Ha. rewrite Hd in Ha. change (rec x2) with (set_state Escalated (rec x)) in Hr, Ha.
    assert (Hrec : rec (on_record (set_state Completed) (snd (try_remote_kill env known x3)))
                   = set_state Completed (set_attempted (set_state Escalated (rec x)))).
    { unfold try_remote_kill. destruct known; cbn [fst snd on_record pass did rec]; by rewrite Hr. }
    rewrite Hrec. split; [done|]. split; [|done]. rewrite (path_deeds _ _ _ Hf He).
    unfold try_remote_kill. destruct known; cbn [fst snd on_record pass did rec deeds];
      rewrite ?acts_app, Ha, stage_kill, stage_remote; cbn [rec set_state c_hook_pid]; destruct (0 <? _); by rewrite ?app_nil_r.
  - set (x2 := on_record (set_state TermSent) x1). destruct (send_signal_spec false x2) as (Hr & H3 & Ha).
    set (x3 := send_signal env false x2) in *. set (x4 := pass env 0 x3). assert (H4 : time x3 <= time x4) by (cbn; lia).
    change (rec x2) with (set_state TermSent (rec x)) in Hr, Ha. change (deeds x2) with (deeds x) in Ha. rewrite Hd in Ha.
    change (time x2) with (time x1) in H3. cbn [acts List.filter app fmap list_fmap] in Ha.
    assert (Ha4 : acts (deeds x4) = stage_deeds (c_hook_pid (rec x)) known "term_sent").
    { exact Ha. }
    assert (Hsp : spaced (time x4 + grace_period cfg) (grace_period cfg) (deeds x4)).
    { change (deeds x4) with (deeds x3). unfold x3, send_signal. destruct (0 <? _).
      - apply (spaced_snoc _ _ (deeds x)); [rewrite Hd; split; by intros t p ?%not_elem_of_nil|].
        change (time x2) with (time x1). lia.
      - change (deeds x2) with (deeds x). rewrite Hd. split; by intros t p ?%not_elem_of_nil. }
    destruct (await_exit_spec (polls cfg) (time x4 + grace_period cfg) (time x1 + cleanup_timeout cfg) x4)
      as (g & x5 & -> & H5 & Hsp5 & Hs).
    { unfold polls, POLL. pose proof (Z.div_mod (grace_period cfg) 250000000 ltac:(done)).
      pose proof (Z.mod_pos_bound (grace_period cfg) 250000000 ltac:(done)).
      assert (0 <= grace_period cfg / 250000000) by (apply Z.div_pos; lia). lia. }
    { unfold polls. lia. }
    change (rec x4) with (rec x3) in Hs. rewrite Hr in Hs. destruct g.
    + destruct Hs as (r & Hr5 & Hs). exists x5. split; [done|].
      assert (He : ending false (rec x) (rec x5)).
      { rewrite Hr5. destruct Hs as [[-> _]|[-> _]]; [by apply exited|by apply swept]. }
      split; [done|]. rewrite (path_deeds _ _ _ Hf He), Hr5. destruct Hf as (Hs0 & He0 & Ha0). split; [|eauto].
      destruct Hs as [[-> ->]|[-> ->]]; rewrite Ha4; cbn; rewrite ?Ha0, ?He0; cbn; rewrite ?app_nil_r; done.
    + destruct Hs as (Hr5 & Ha5 & H6). rewrite Ha4 in Ha5.
      destruct (escalate_further_spec (time x4 + grace_period cfg) (time x1 + cleanup_timeout cfg) (rec x) x5 Hk Hf Hr5 H6 Ha5)
        as (r & <- & He & Ha6 & Hsp6).
      eexists. split; [done|]. split; [done|]. rewrite (path_deeds _ _ _ Hf He). split; [done|]. intros _. eauto.
Qed.

(** C14: Every cancellation ends, with at most two escalations, completed or failed and about the same build, whatever
    the process, the worker and the clock do.  What was done to processes are, in order, the deeds named by the decision
    path it reports that have a target: a signal is sent only if there is a hook process (its pid is not 0), a remote
    kill only if the pool still knows the worker; so when both are there the path is exactly what was done.  And a
    cancellation that was not forced sends SIGKILL only if it sent SIGTERM to the same process, at least a full grace
    period before. *)
Theorem cancellation_escalates force x (pid := c_hook_pid (rec x)) :
  fresh (rec x) -> deeds x = [] -> 0 <= kill_timeout cfg -> 0 <= grace_period cfg ->
  exists x', execute_cancellation cfg env known force x = Some x' /\
    (c_state (rec x') = Completed \/ c_state (rec x') = Failed) /\ 0 <= escalation_count (rec x') <= 2 /\
    c_build_id (rec x') = c_build_id (rec x) /\ c_slots (rec x') = c_slots (rec x) /\
    acts (deeds x') = List.filter (has_target known) (named pid (cancellation_decision_path (rec x'))) /\
    (0 < pid -> known = true -> acts (deeds x') = named pid (cancellation_decision_path (rec x'))) /\
    (force = false -> forall p t, (t, Signal p true) ∈ deeds x' ->
       (exists t0, (t0, Signal p false) ∈ deeds x') /\
       forall q t0, (t0, Signal q false) ∈ deeds x' -> t0 + grace_period cfg <= t).
Proof.
  intros Hf Hd Hk Hg. destruct (execute_spec force x Hf Hd Hk Hg) as (x' & He & Hend & Ha & Ht).
  exists x'. destruct (ending_facts _ _ _ Hf Hend) as (H1 & H2 & H3 & _ & H4 & _).
  do 5 (split; [done|]). split; [by rewrite Ha, named_deeds|].
  split; [intros Hp ->; by rewrite Ha, named_deeds, named_targets|].
  intros -> p t Hin. destruct (Ht eq_refl) as (ge & Hs1 & Hs2). split.
  2: { intros q t0 Hq. specialize (Hs1 _ _ Hin). specialize (Hs2 _ _ Hq). lia. }
  apply (elem_acts (Signal p false)); [done|]. assert (Hina : Signal p true ∈ acts (deeds x')) by (apply elem_acts; [done|by exists t]).
  rewrite Ha, (path_deeds _ _ _ Hf Hend) in Hina |- *. revert Hina. rewrite !elem_of_app. intros Hina. left. revert Hina.
  rewrite stage_term, stage_remote, stage_kill.
  destruct (0 <? _), known, (remote_kill_attempted _), (_ =? 2); cbn; set_solver.
Qed.

End facts.

(** ** A hook that does not die *)

Definition stubborn : surroundings := {| delay := fun _ => 0%N; alive := fun _ => true; killed := fun _ => false |}.

Definition request : CancellationRecord :=
  {| c_build_id := 7; c_worker_id := "w1"; c_state := Requested; c_reason := User; requested_at := 0;
     completed_at := None; escalation_count := 0; remote_kill_attempted := false; cleanup_ok := true; c_slots := 4;
     slots_released := 0; c_hook_pid := 41; c_remote_pgid_file := None |}.

Definition begun : run := {| calls := 0; time := 0; deeds := []; rec := request |}.

Lemma cancellation_escalates_witness :
  exists x', execute_cancellation config_default stubborn true false begun = Some x' /\
    acts (deeds x') = [Signal 41 false; RemoteKill; Signal 41 true] /\
    forall t t0, (t, Signal 41 true) ∈ deeds x' -> (t0, Signal 41 false) ∈ deeds x' -> t0 + 5 * SECOND <= t.
Proof.
  destruct (cancellation_escalates config_default stubborn true false begun) as (x' & He & _ & _ & _ & _ & _ & _ & Hg).
  - vm_compute. done.
  - reflexivity.
  - vm_compute. done.
  - vm_compute. done.
  - exists x'. split; [exact He|].
    assert (Hd : acts (deeds x') = [Signal 41 false; RemoteKill; Signal 41 true]).
    { assert (E : (fun x => acts (deeds x)) <$> execute_cancellation config_default stubborn true false begun
                  = Some [Signal 41 false; RemoteKill; Signal 41 true]) by (vm_compute; reflexivity).
      rewrite He in E. exact (f_equal (default []) E). }
    split; [exact Hd|]. intros t t0 H1 H2. exact (proj2 (Hg eq_refl 41 t H1) 41 t0 H2).
Defined.

(** The bound on escalations is not read: with none allowed there are still two. *)
Definition no_escalations : CancellationConfig :=
  {| grace_period := 5 * SECOND; kill_timeout := 3 * SECOND; remote_kill_timeout := 10 * SECOND;
     max_escalations := 0; cleanup_timeout := 15 * SECOND |}.

Theorem max_escalations_ignored :
  (fun x => escalation_count (rec x)) <$> execute_cancellation no_escalations stubborn true false begun = Some 2.
Proof. vm_compute. reflexivity. Qed.

End EscalationFacts.
