(* ===== verification/Daemon.v ===== *)
(** * The handlers of builds (rchd/src/api.rs, rchd/src/cancellation.rs)

    Starting, queueing, releasing and cancelling builds over the worker pool of Pool.v, the
    history of Builds.v and the escalation of Cancellation.v.  Each handler is a composition
    of segments, and a segment touches shared state under one lock; BuildRaces.v interleaves
    the segments of any number of requests.

    The answers of the selector of Selection.v are an argument.  Events, metrics and
    diagnostics are left out. *)

From stdpp Require Import base gmap list strings.
From Stdlib Require Import ZArith Lia.
From Corelib Require Import SpecFloat.
From S2P Require Import Prelude Floats Text Numerals Lifecycle Worker Pool Selection Builds Cancellation.

Module Daemon.
Import BuildHistory Cancellation.

#[local] Existing Instance Selection.Selector.SelectionReason_eq_dec.

(** A reference to a worker ([Arc<WorkerState>]): its name, and which of the workers that
    have had this name it is. *)
Abbreviation handle := (string * nat)%type.

(** The part of [DaemonContext] the handlers of builds touch; [tracker] is the one of the
    selector, whose answers are arguments.  A worker that left the pool lives on in
    [retired] for those who hold a reference to it; [incarnation] counts, by name, the
    workers that left. *)
Record t := {
  history : BuildHistory.t;
  pool : WorkerPool.t;
  incarnation : gmap string nat;
  retired : gmap (string * nat) WorkerState.t;
  cancellations : gmap Z CancellationRecord;
  worker_stats : gmap string WorkerCancelStats;
  tracker : Selection.Affinity.CacheTracker;
  admission_barrier : bool;
}.

Definition with_history (h : BuildHistory.t) (d : t) : t :=
  {| history := h; pool := pool d; incarnation := incarnation d; retired := retired d;
     cancellations := cancellations d; worker_stats := worker_stats d; tracker := tracker d; admission_barrier := admission_barrier d |}.
Definition with_pool (p : WorkerPool.t) (d : t) : t :=
  {| history := history d; pool := p; incarnation := incarnation d; retired := retired d;
     cancellations := cancellations d; worker_stats := worker_stats d; tracker := tracker d; admission_barrier := admission_barrier d |}.
Definition with_incarnation (e : gmap string nat) (d : t) : t :=
  {| history := history d; pool := pool d; incarnation := e; retired := retired d;
     cancellations := cancellations d; worker_stats := worker_stats d; tracker := tracker d; admission_barrier := admission_barrier d |}.
Definition with_retired (r : gmap (string * nat) WorkerState.t) (d : t) : t :=
  {| history := history d; pool := pool d; incarnation := incarnation d; retired := r;
     cancellations := cancellations d; worker_stats := worker_stats d; tracker := tracker d; admission_barrier := admission_barrier d |}.
Definition with_cancellations (c : gmap Z CancellationRecord) (d : t) : t :=
  {| history := history d; pool := pool d; incarnation := incarnation d; retired := retired d;
     cancellations := c; worker_stats := worker_stats d; tracker := tracker d; admission_barrier := admission_barrier d |}.
Definition with_stats (s : gmap string WorkerCancelStats) (d : t) : t :=
  {| history := history d; pool := pool d; incarnation := incarnation d; retired := retired d;
     cancellations := cancellations d; worker_stats := s; tracker := tracker d; admission_barrier := admission_barrier d |}.
Definition with_tracker (k : Selection.Affinity.CacheTracker) (d : t) : t :=
  {| history := history d; pool := pool d; incarnation := incarnation d; retired := retired d;
     cancellations := cancellations d; worker_stats := worker_stats d; tracker := k; admission_barrier := admission_barrier d |}.
Definition with_barrier (b : bool) (d : t) : t :=
  {| history := history d; pool := pool d; incarnation := incarnation d; retired := retired d;
     cancellations := cancellations d; worker_stats := worker_stats d; tracker := tracker d; admission_barrier := b |}.

Definition worker (i : string) (d : t) : option WorkerState.t := WorkerPool.workers (pool d) !! i.

Definition set_worker (i : string) (w : WorkerState.t) (d : t) : t :=
  with_pool {| WorkerPool.workers := <[i := w]> (WorkerPool.workers (pool d));
               WorkerPool.worker_count := WorkerPool.worker_count (pool d) |} d.

(** The worker that has the name now. *)
Definition current (i : string) (d : t) : nat := default O (incarnation d !! i).

Definition reference (i : string) (d : t) : handle := (i, current i d).

(** What a reference leads to, in the pool or no longer in it. *)
Definition object (h : handle) (d : t) : option WorkerState.t :=
  if bool_decide (snd h = current (fst h) d) then worker (fst h) d else retired d !! h.

Definition set_object (h : handle) (w : WorkerState.t) (d : t) : t :=
  if bool_decide (snd h = current (fst h) d) then set_worker (fst h) w d else with_retired (<[h := w]> (retired d)) d.

(** [remove_worker]: the pool drops its reference. *)
Definition retire (i : string) (d : t) : t :=
  match worker i d with
  | Some w =>
      with_pool (snd (WorkerPool.remove_worker i (pool d)))
        (with_incarnation (<[i := S (current i d)]> (incarnation d))
           (with_retired (<[reference i d := w]> (retired d)) d))
  | None => d
  end.

(** Timed code at a moment. *)
Definition at_moment {A} (m : moment) (c : timed A) : A := fst (c (fun _ => utc m / 1000) O).

Section handlers.
Context (iter : forall A, gmap string A -> list (string * A)).

(** *** Release *)

Record ReleaseRequest := {
  rq_worker_id : string; rq_slots : Z; rq_build_id : option Z; rq_exit_code : option Z;
  rq_duration_ms : option Z; rq_bytes_transferred : option Z; rq_timing : option CommandTimingBreakdown;
}.

(** [take_active_build], the claim on a build that every way of ending it makes first. *)
Definition claim (i : Z) (d : t) : option ActiveBuildState * t :=
  let (b, h) := take_active_build i (history d) in (b, with_history h d).

Definition log_completed (b : ActiveBuildState) (rq : ReleaseRequest) (m : moment) (d : t) : t :=
  with_history (snd (record_completed_build b (default 0 (rq_exit_code rq)) (rq_duration_ms rq)
                       (rq_bytes_transferred rq) (rq_timing rq) m (history d))) d.

Definition free_slots (i : string) (n : Z) (m : moment) (d : t) : t :=
  with_pool (at_moment m (WorkerPool.release_slots i n (pool d))) d.

(** The health credit of a successful build. *)
Definition credit (b : ActiveBuildState) (exit_code : Z) (m : moment) (d : t) : t :=
  if exit_code =? 0 then
    let d := match worker (worker_id b) d with
             | Some w => set_worker (worker_id b) (WorkerState.record_success w) d
             | None => d
             end in
    with_tracker (Selection.Affinity.record_success iter (mono m) (worker_id b) (project_id b) (tracker d)) d
  else d.

Definition handle_release_worker (rq : ReleaseRequest) (m : moment) (d : t) : t :=
  match rq_build_id rq with
  | Some i =>
      match claim i d with
      | (None, d) => d
      | (Some b, d) =>
          credit b (default 0 (rq_exit_code rq)) m
            (free_slots (worker_id b) (slots b) m (log_completed b rq m d))
      end
  | None => free_slots (rq_worker_id rq) (rq_slots rq) m d
  end.

(** *** Selection and reservation *)

Record SelectRequest := {
  request : Selection.Selector.SelectionRequest;
  sq_hook_pid : option Z;
  wait_for_worker : bool;
  wait_timeout_secs : option Z;
  sq_local_wrapper_id : option string;
}.

(** The worker of a response; its speed score and the diagnostics are left out. *)
Record SelectedWorker := {
  sw_id : string; sw_host : string; sw_user : string; sw_identity_file : string; slots_available : Z;
  sw_declared_os : option str;
}.

Record SelectionResponse := {
  sr_worker : option SelectedWorker; sr_reason : Selection.Selector.SelectionReason; sr_build_id : option Z;
}.

Definition refused (r : Selection.Selector.SelectionReason) : SelectionResponse :=
  {| sr_worker := None; sr_reason := r; sr_build_id := None |}.

Definition barrier_response : SelectionResponse :=
  refused (Selection.Selector.SelectionError "restart_admission_barrier_active").

(** [reserve_slots] through the reference the selection returned, whether the worker is
    still in the pool or not. *)
Definition reserve (h : handle) (n : Z) (m : moment) (d : t) : bool * t :=
  match object h d with
  | Some w => let (ok, w) := at_moment m (WorkerState.reserve_slots n w) in (ok, set_object h w d)
  | None => (false, d)
  end.

(** [release_slots] through the same reference. *)
Definition hand_back (h : handle) (n : Z) (m : moment) (d : t) : t :=
  match object h d with
  | Some w => set_object h (at_moment m (WorkerState.release_slots n w)) d
  | None => d
  end.

Definition command_of (rq : SelectRequest) : str :=
  default (Bytes.str_bytes "<unknown>") (Selection.Selector.command (request rq)).

(** The process to watch: a build is tracked only when there is one. *)
Definition tracked_pid (rq : SelectRequest) : option Z :=
  match sq_hook_pid rq with Some p => if 0 <? p then Some p else None | None => None end.

(** [try_start_active_build_with_wrapper] after a reservation: [None] when another build of
    the project runs on the worker. *)
Definition register (rq : SelectRequest) (pid : Z) (i : string) (m : moment) (d : t) :
    option ActiveBuildState * t :=
  let (b, h) := try_start_active_build_with_wrapper (Selection.Selector.project (request rq)) i (command_of rq)
                  pid (sq_local_wrapper_id rq) (Selection.Selector.estimated_cores (request rq)) Remote m
                  (history d) in
  (b, with_history h d).

Definition granted (h : handle) (reason : Selection.Selector.SelectionReason) (build : option Z) (d : t) :
    SelectionResponse :=
  {| sr_worker := (fun w =>
       {| sw_id := fst h; sw_host := WorkerState.host (WorkerState.config w);
          sw_user := WorkerState.user (WorkerState.config w);
          sw_identity_file := WorkerState.identity_file (WorkerState.config w);
          slots_available := WorkerState.available_slots w;
          sw_declared_os := Selection.Selector.declared_os (WorkerState.tags (WorkerState.config w)) |})
       <$> object h d;
     sr_reason := reason; sr_build_id := build |}.

Definition MAX_ATTEMPTS : Z := 3.

Context (choose : list string -> t -> option string * Selection.Selector.SelectionReason).

(** The loop of [attempt_select_and_reserve]; [None]: out of fuel. *)
Fixpoint select_loop (fuel : nat) (rq : SelectRequest) (m : moment) (excluded : list string) (attempts : Z)
    (d : t) : option (SelectionResponse * t) :=
  match fuel with
  | O => None
  | S fuel =>
      match choose excluded d with
      | (None, reason) => Some (refused reason, d)
      | (Some i, reason) =>
          let n := Selection.Selector.estimated_cores (request rq) in
          let h := reference i d in
          let attempts := attempts + 1 in
          match reserve h n m d with
          | (true, d) =>
              match tracked_pid rq with
              | Some pid =>
                  match register rq pid i m d with
                  | (Some b, d) => Some (granted h reason (Some (id b)) d, d)
                  | (None, d) => select_loop fuel rq m (excluded ++ [i]) attempts (hand_back h n m d)
                  end
              | None => Some (granted h reason None d, d)
              end
          | (false, d) =>
              if MAX_ATTEMPTS <=? attempts then Some (refused Selection.Selector.AllWorkersBusy, d)
              else select_loop fuel rq m excluded attempts d
          end
      end
  end.

(** Every round but three takes a worker out of the choice. *)
Definition rounds (d : t) : nat := size (WorkerPool.workers (pool d)) + 4.

Definition attempt_select_and_reserve (rq : SelectRequest) (m : moment) (d : t) : option (SelectionResponse * t) :=
  if admission_barrier d then Some (barrier_response, d)
  else
    let excluded := active_workers_for_project (Selection.Selector.project (request rq)) (history d) in
    select_loop (rounds d) rq m excluded 0 d.

(** *** The queue *)

Definition enqueue (rq : SelectRequest) (m : moment) (d : t) : option QueuedBuildState * t :=
  let (q, h) := enqueue_build (Selection.Selector.project (request rq)) (command_of rq)
                  (default 0 (sq_hook_pid rq)) (Selection.Selector.estimated_cores (request rq)) m (history d) in
  (q, with_history h d).

Definition update_estimates (m : moment) (d : t) : t :=
  with_history (update_queue_estimates (utc m) (history d)) d.

Definition leave_queue (i : Z) (m : moment) (d : t) : t :=
  update_estimates m (with_history (snd (remove_queued_build i (history d))) d).

(** A request answered, or waiting in the queue. *)
Inductive progress := Answered (r : SelectionResponse) | Waiting (q : QueuedBuildState).

Definition handle_select_worker_with_wrapper (rq : SelectRequest) (m : moment) (d : t) : option (progress * t) :=
  if admission_barrier d then Some (Answered barrier_response, d)
  else
    match attempt_select_and_reserve rq m d with
    | None => None
    | Some (initial, d) =>
        if bool_decide (is_Some (sr_worker initial)) || negb (wait_for_worker rq)
           || negb (bool_decide (sr_reason initial = Selection.Selector.AllWorkersBusy))
        then Some (Answered initial, d)
        else if admission_barrier d then Some (Answered barrier_response, d)
        else
          match enqueue rq m d with
          | (None, d) => Some (Answered initial, d)
          | (Some q, d) => Some (Waiting q, update_estimates m d)
          end
    end.

Definition effective_queue_timeout_secs (rq : SelectRequest) (daemon_secs : Z) : Z :=
  let daemon_secs := Z.max daemon_secs 1 in
  match wait_timeout_secs rq with
  | Some secs => if 0 <? secs then Z.min secs daemon_secs else daemon_secs
  | None => daemon_secs
  end.

(** What a round of the wait decides before it tries a worker. *)
Definition expired (rq : SelectRequest) (daemon_secs : Z) (q : QueuedBuildState) (m : moment) : bool :=
  effective_queue_timeout_secs rq daemon_secs * SECOND <? sat_sub (mono m) (queued_at_mono q).

Definition hook_exited (rq : SelectRequest) (hook_alive : bool) : bool :=
  (0 <? default 0 (sq_hook_pid rq)) && negb hook_alive.

(** One round; [Some None]: the request waits on. *)
Definition wait_round (rq : SelectRequest) (daemon_secs : Z) (q : QueuedBuildState) (hook_alive : bool)
    (m : moment) (d : t) : option (option SelectionResponse * t) :=
  if expired rq daemon_secs q m then
    Some (Some (refused (Selection.Selector.SelectionError "queue_timeout")), leave_queue (q_id q) m d)
  else if hook_exited rq hook_alive then
    Some (Some (refused (Selection.Selector.SelectionError "hook_exited")), leave_queue (q_id q) m d)
  else
    match attempt_select_and_reserve rq m d with
    | None => None
    | Some (response, d) =>
        if bool_decide (is_Some (sr_worker response))
           || negb (bool_decide (sr_reason response = Selection.Selector.AllWorkersBusy))
        then Some (Some response, leave_queue (q_id q) m d)
        else Some (None, d)
    end.

(** *** Restart *)

Record RestartAdmissionResponse := {
  admission_closed : bool; restart_permitted : bool; active_build_ids : list Z; queued_build_ids : list Z;
  client_lease_ids : list string; client_lease_scan_error : option string;
}.

(** [scan] is what reading the lease directory returned. *)
Definition handle_restart_admission (close : bool) (scan : result string (list string)) (d : t) :
    RestartAdmissionResponse * t :=
  let was_closed := admission_barrier d in
  let d := with_barrier close d in
  let active_ids := (fun kb : Z * ActiveBuildState => id (snd kb)) <$> map_to_list (active (history d)) in
  let queued_ids := q_id <$> queued (history d) in
  let (leases, error) := match scan with Ok ids => (ids, None) | Err e => ([], Some e) end in
  ({| admission_closed := close;
      restart_permitted := close && negb was_closed && bool_decide (active_ids = [])
                           && bool_decide (queued_ids = []) && bool_decide (leases = [])
                           && match error with None => true | Some _ => false end;
      active_build_ids := active_ids; queued_build_ids := queued_ids; client_lease_ids := leases;
      client_lease_scan_error := error |}, d).

(** *** Cancellation *)

Record CancelBuildResponse := {
  cb_status : string; cb_build_id : Z; cb_worker_id : option string; cb_project_id : option string;
  cb_message : string; cb_slots_released : Z;
}.

Definition in_progress (i : Z) (project : option string) (r : CancellationRecord) : CancelBuildResponse :=
  {| cb_status := "cancelling"; cb_build_id := i; cb_worker_id := Some (c_worker_id r); cb_project_id := project;
     cb_message := "Cancellation already in progress (state: " ++ state_str (c_state r) ++ ")";
     cb_slots_released := slots_released r |}.

Definition not_found (i : Z) : CancelBuildResponse :=
  {| cb_status := "error"; cb_build_id := i; cb_worker_id := None; cb_project_id := None;
     cb_message := "Build not found or already completed"; cb_slots_released := 0 |}.

Definition new_record (b : ActiveBuildState) (i : Z) (reason : CancelReason) (m : moment) : CancellationRecord :=
  {| c_build_id := i; c_worker_id := worker_id b; c_state := Requested; c_reason := reason;
     requested_at := mono m; completed_at := None; escalation_count := 0; remote_kill_attempted := false;
     cleanup_ok := true; c_slots := slots b; slots_released := 0; c_hook_pid := hook_pid b;
     c_remote_pgid_file := remote_pgid_file b |}.

(** The check-and-insert: the cancellation already in progress, if there is one. *)
Definition open_cancellation (i : Z) (r : CancellationRecord) (d : t) : option CancellationRecord * t :=
  match cancellations d !! i with
  | Some existing => (Some existing, d)
  | None => (None, with_cancellations (<[i := r]> (cancellations d)) d)
  end.

Definition close_cancellation (i : Z) (d : t) : t := with_cancellations (delete i (cancellations d)) d.

(** Step 2 of [run_cleanup]. *)
Definition free_claimed (claimed : bool) (r : CancellationRecord) (m : moment) (d : t) : CancellationRecord * t :=
  if claimed && (0 <? c_slots r) then
    match worker (c_worker_id r) d with
    | Some w =>
        (set_released true (c_slots r) r,
         set_worker (c_worker_id r) (at_moment m (WorkerState.release_slots (c_slots r) w)) d)
    | None => (set_released false (slots_released r) r, d)
    end
  else (r, d).

Context (speed : string -> f64) (pressure : string -> string * string).

Definition capture_worker_health_snapshot (i : string) (d : t) : option BuildCancellationWorkerHealth :=
  (fun w =>
     {| h_status := worker_status_label (WorkerState.status w); h_speed_score := speed i;
        h_used_slots := WorkerState.used_slots w; h_available_slots := WorkerState.available_slots w;
        h_pressure_state := fst (pressure i); h_pressure_reason_code := snd (pressure i) |}) <$> worker i d.

Definition metadata_of (r : CancellationRecord) (d : t) : BuildCancellationMetadata :=
  {| operation_id := cancellation_operation_id (c_build_id r); origin := reason_str (c_reason r);
     reason_code := reason_str (c_reason r); decision_path := cancellation_decision_path r;
     escalation_stage := cancellation_escalation_stage r; m_escalation_count := escalation_count r;
     m_remote_kill_attempted := remote_kill_attempted r; m_cleanup_ok := cleanup_ok r;
     history_cancelled := true; final_state := state_str (c_state r);
     worker_health := capture_worker_health_snapshot (c_worker_id r) d |}.

(** A build given up by the daemon counts against its worker. *)
Definition blame (r : CancellationRecord) (d : t) : t :=
  match c_reason r, worker (c_worker_id r) d with
  | Timeout, Some w | StuckDetector, Some w =>
      set_worker (c_worker_id r)
        (WorkerState.record_failure (Some ("build cancelled by " ++ reason_str (c_reason r))%string) w) d
  | _, _ => d
  end.

(** Step 3 of [run_cleanup]. *)
Definition log_cancelled (claimed : option ActiveBuildState) (r : CancellationRecord) (m : moment) (d : t) : t :=
  match claimed with
  | Some b =>
      blame r (with_history (snd (record_cancelled_build b None (Some (metadata_of r d)) m (history d))) d)
  | None => d
  end.

Definition run_cleanup (r : CancellationRecord) (m : moment) (d : t) : CancellationRecord * t :=
  let (claimed, d) := claim (c_build_id r) d in
  let (r, d) := free_claimed (bool_decide (is_Some claimed)) r m d in
  let r := set_completed (mono m) r in
  (r, log_cancelled claimed r m d).

Definition cancel_status (s : CancellationState) : string :=
  match s with Failed => "failed" | _ => "cancelled" end.

Definition cancel_message (s : CancellationState) (force : bool) : string :=
  match s with
  | Completed => if force then "Build forcefully terminated" else "Build cancellation completed"
  | Failed => "Cancellation completed with errors"
  | _ => "Cancellation finished in state: " ++ state_str s
  end.

(** [m] is read when the request arrives, [m'] after the escalation. *)
Definition cancel_build (cfg : CancellationConfig) (env : surroundings) (i : Z) (reason : CancelReason)
    (force : bool) (m m' : moment) (d : t) : option (CancelBuildResponse * t) :=
  match active_build i (history d) with
  | None =>
      match cancellations d !! i with
      | Some r => Some (in_progress i None r, d)
      | None => Some (not_found i, d)
      end
  | Some b =>
      match open_cancellation i (new_record b i reason m) d with
      | (Some existing, d) => Some (in_progress i (Some (project_id b)) existing, d)
      | (None, d) =>
          let start := {| calls := 0; time := mono m; deeds := []; rec := new_record b i reason m |} in
          match execute_cancellation cfg env (bool_decide (is_Some (worker (worker_id b) d))) force start with
          | None => None
          | Some x =>
              let (r, d) := run_cleanup (rec x) m' d in
              let d := with_stats (record_cancellation_stats (mono m') r (worker_stats d)) d in
              let d := close_cancellation i d in
              Some ({| cb_status := cancel_status (c_state r); cb_build_id := i;
                       cb_worker_id := Some (worker_id b); cb_project_id := Some (project_id b);
                       cb_message := cancel_message (c_state r) force;
                       cb_slots_released := slots_released r |}, d)
          end
      end
  end.

End handlers.
End Daemon.

Module DaemonFacts.
Import BuildHistory Daemon.

Section selection.
Context (choose : list string -> Daemon.t -> option string * Selection.Selector.SelectionReason).
(** The selector names workers of the pool that are not excluded. *)
Hypothesis choose_sound : forall excluded d i reason,
  choose excluded d = (Some i, reason) -> (i ∉ excluded) /\ is_Some (worker i d).

(** The names of the pool. *)
Definition names (d : Daemon.t) : gset string := dom (WorkerPool.workers (pool d)).

Lemma names_set_worker i w d : is_Some (worker i d) -> names (set_worker i w d) = names d.
Proof. intros Hw. unfold names, set_worker. cbn. apply dom_insert_lookup_L, Hw. Qed.

Lemma names_set_object h w d : is_Some (object h d) -> names (set_object h w d) = names d.
Proof. unfold object, set_object. case_bool_decide; [apply names_set_worker|done]. Qed.

Lemma reserve_names h n m d ok d' : reserve h n m d = (ok, d') -> names d' = names d.
Proof.
  unfold reserve. destruct (object h d) eqn:E; [|by intros [= <- <-]].
  destruct (at_moment m _) as [ok' w']. intros [= <- <-]. by apply names_set_object.
Qed.

Lemma hand_back_names h n m d : names (hand_back h n m d) = names d.
Proof. unfold hand_back. destruct (object h d) eqn:E; [|done]. by apply names_set_object. Qed.

Lemma register_names rq pid i m d o d' : register rq pid i m d = (o, d') -> names d' = names d.
Proof. unfold register. destruct (try_start_active_build_with_wrapper _ _ _ _ _ _ _ _ _). by intros [= <- <-]. Qed.

(** The workers still to choose from, and the reservations that may still fail. *)
Definition measure (excluded : list string) (attempts : Z) (d : Daemon.t) : nat :=
  size (names d ∖ list_to_set excluded) + Z.to_nat (MAX_ATTEMPTS - attempts).

Lemma measure_exclude excluded attempts i (d d' : Daemon.t) :
  i ∉ excluded -> i ∈ names d -> names d' = names d ->
  (measure (excluded ++ [i]) (attempts + 1) d' < measure excluded attempts d)%nat.
Proof.
  intros Hni Hin Hn. unfold measure. rewrite Hn.
  assert (Hs : names d ∖ list_to_set (excluded ++ [i]) = (names d ∖ list_to_set excluded) ∖ {[ i ]}) by set_solver.
  rewrite Hs, size_difference by set_solver. rewrite size_singleton.
  assert (0 < size (names d ∖ list_to_set excluded))%nat; [|lia].
  apply Nat.neq_0_lt_0. intros Hz. apply size_empty_inv in Hz. set_solver.
Qed.

Lemma select_loop_ends rq m fuel excluded attempts d :
  (measure excluded attempts d < fuel)%nat -> is_Some (select_loop choose fuel rq m excluded attempts d).
Proof.
  revert excluded attempts d. induction fuel as [|fuel IH]; intros excluded attempts d Hf; [lia|]. cbn [select_loop].
  destruct (choose excluded d) as [[i|] reason] eqn:Hc; [|by eexists].
  destruct (choose_sound _ _ _ _ Hc) as [Hni Hw].
  destruct (reserve _ _ m d) as [ok d1] eqn:Hr. pose proof (reserve_names _ _ _ _ _ _ Hr) as Hn1. destruct ok.
  - destruct (tracked_pid rq) as [pid|]; [|by eexists]. destruct (register rq pid i m d1) as [[b|] d2] eqn:Hg; [by eexists|].
    apply IH. assert (Hlt : (measure (excluded ++ [i]) (attempts + 1)
        (hand_back (reference i d) (Selection.Selector.estimated_cores (request rq)) m d2) < measure excluded attempts d)%nat); [|lia].
    apply measure_exclude; [done|by apply elem_of_dom|]. rewrite hand_back_names, (register_names _ _ _ _ _ _ _ Hg). done.
  - destruct (Z.leb_spec MAX_ATTEMPTS (attempts + 1)) as [|Ha]; [by eexists|]. apply IH.
    unfold measure in *. rewrite Hn1. unfold MAX_ATTEMPTS in *. lia.
Qed.

(** Every attempt to select and reserve ends, although a request that loses the race for a project tries again without
    counting: the worker it lost is excluded from then on. *)
Theorem selection_ends rq m d : is_Some (attempt_select_and_reserve choose rq m d).
Proof.
  unfold attempt_select_and_reserve. destruct (admission_barrier d); [by eexists|]. apply select_loop_ends.
  unfold measure, rounds, MAX_ATTEMPTS.
  assert (size (names d ∖ list_to_set (active_workers_for_project (Selection.Selector.project (request rq)) (history d)))
          <= size (names d))%nat by (apply subseteq_size; set_solver).
  unfold names in *. rewrite size_dom in *. lia.
Qed.

End selection.
End DaemonFacts.
