(* ===== verification/BuildRaces.v ===== *)
(** * Builds under interleaving

    Any number of requests to start, release and cancel builds, the stuck detector's among
    them, run their segments (Daemon.v) in any order, between them heartbeats, changes of
    the pool made elsewhere, removals of workers at any moment, and a restart that closes admission.  A selection holds the
    admission barrier for reading from its check to its answer, so closing waits for it.

    A client without a process to watch gets slots and no build; it is a task that gives
    back what it got once.  Nothing else about clients is assumed: releases and
    cancellations of any build may be sent by anyone at any time and any number of times. *)

From stdpp Require Import base gmap list strings relations.
From Stdlib Require Import ZArith Lia.
From S2P Require Import Prelude Floats Text Circuit Lifecycle Worker Pool Selection Builds Cancellation Daemon.
Import BuildHistory Cancellation Daemon.

#[local] Existing Instance Selection.Selector.SelectionReason_eq_dec.

Module BuildRaces.

Abbreviation reason := Selection.Selector.SelectionReason.

Inductive task :=
  | Choosing (rq : SelectRequest) (excluded : list string) (attempts : Z) (q : option QueuedBuildState)
  | Reserving (rq : SelectRequest) (excluded : list string) (attempts : Z) (q : option QueuedBuildState) (h : handle)
  | Registering (rq : SelectRequest) (excluded : list string) (attempts : Z) (q : option QueuedBuildState) (h : handle)
  | Undoing (rq : SelectRequest) (excluded : list string) (attempts : Z) (q : option QueuedBuildState) (h : handle)
  | Granted (i : string) (n : Z) (q : option QueuedBuildState)
  | Enqueuing (rq : SelectRequest)
  | InQueue (rq : SelectRequest) (q : QueuedBuildState)
  | Leaving (q : QueuedBuildState)
  | Releasing (k : Z) (rq : ReleaseRequest)
  | Recording (rq : ReleaseRequest) (b : ActiveBuildState)
  | Freeing (rq : ReleaseRequest) (b : ActiveBuildState)
  | Crediting (rq : ReleaseRequest) (b : ActiveBuildState)
  | Cancelling (k : Z) (why : CancelReason) (force : bool)
  | Opening (force : bool) (r : CancellationRecord)
  | Escalating (force : bool) (r : CancellationRecord)
  | Claiming (r : CancellationRecord)
  | Clearing (r : CancellationRecord) (claimed : option ActiveBuildState)
  | Logging (r : CancellationRecord) (claimed : option ActiveBuildState)
  | Counting (r : CancellationRecord)
  | Closing (r : CancellationRecord)
  | Done.

Definition cores (rq : SelectRequest) : Z := Selection.Selector.estimated_cores (request rq).

(** Where a selection without a worker goes. *)
Definition unserved (rq : SelectRequest) (q : option QueuedBuildState) (why : reason) : task :=
  match q with
  | None =>
      if wait_for_worker rq && bool_decide (why = Selection.Selector.AllWorkersBusy) then Enqueuing rq else Done
  | Some q => if bool_decide (why = Selection.Selector.AllWorkersBusy) then InQueue rq q else Leaving q
  end.

Definition served (q : option QueuedBuildState) : task :=
  match q with Some q => Leaving q | None => Done end.

Section races.
Context (iter : forall A, gmap string A -> list (string * A)) (cfg : CancellationConfig) (daemon_secs : Z)
  (speed : string -> f64) (pressure : string -> string * string).

Definition exclusions (rq : SelectRequest) (d : Daemon.t) : list string :=
  active_workers_for_project (Selection.Selector.project (request rq)) (history d).

(** One segment of one task. *)
Inductive tstep (m : moment) (d : Daemon.t) : task -> Daemon.t -> task -> Prop :=
  | s_none rq ex a q why : tstep m d (Choosing rq ex a q) d (unserved rq q why)
  | s_pick rq ex a q i : tstep m d (Choosing rq ex a q) d (Reserving rq ex (a + 1) q (reference i d))
  | s_reserved rq ex a q h d' :
      reserve h (cores rq) m d = (true, d') -> tstep m d (Reserving rq ex a q h) d' (Registering rq ex a q h)
  | s_retry rq ex a q h d' :
      reserve h (cores rq) m d = (false, d') -> a < MAX_ATTEMPTS ->
      tstep m d (Reserving rq ex a q h) d' (Choosing rq ex a q)
  | s_gives_up rq ex a q h d' :
      reserve h (cores rq) m d = (false, d') -> MAX_ATTEMPTS <= a ->
      tstep m d (Reserving rq ex a q h) d' (unserved rq q Selection.Selector.AllWorkersBusy)
  | s_registered rq ex a q h pid b d' :
      tracked_pid rq = Some pid -> next_id (history d) < 2 ^ 64 - 1 -> register rq pid (fst h) m d = (Some b, d') ->
      tstep m d (Registering rq ex a q h) d' (served q)
  | s_lost rq ex a q h pid d' :
      tracked_pid rq = Some pid -> next_id (history d) < 2 ^ 64 - 1 -> register rq pid (fst h) m d = (None, d') ->
      tstep m d (Registering rq ex a q h) d' (Undoing rq ex a q h)
  | s_untracked rq ex a q h :
      tracked_pid rq = None -> tstep m d (Registering rq ex a q h) d (Granted (fst h) (cores rq) q)
  | s_undo rq ex a q h :
      tstep m d (Undoing rq ex a q h) (hand_back h (cores rq) m d) (Choosing rq (ex ++ [fst h]) a q)
  | s_granted_leaves i n q :
      tstep m d (Granted i n (Some q)) (leave_queue (q_id q) m d) (Granted i n None)
  | s_given_back i n : tstep m d (Granted i n None) (free_slots i n m d) Done
  | s_enqueue rq q d' :
      admission_barrier d = false -> enqueue rq m d = (Some q, d') ->
      tstep m d (Enqueuing rq) (update_estimates m d') (InQueue rq q)
  | s_queue_full rq d' :
      admission_barrier d = false -> enqueue rq m d = (None, d') -> tstep m d (Enqueuing rq) d' Done
  | s_enqueue_refused rq : admission_barrier d = true -> tstep m d (Enqueuing rq) d Done
  | s_expired rq q : expired rq daemon_secs q m = true -> tstep m d (InQueue rq q) d (Leaving q)
  | s_hook_exited rq q : hook_exited rq false = true -> tstep m d (InQueue rq q) d (Leaving q)
  | s_try_again rq q :
      admission_barrier d = false -> tstep m d (InQueue rq q) d (Choosing rq (exclusions rq d) 0 (Some q))
  | s_queue_barred rq q : admission_barrier d = true -> tstep m d (InQueue rq q) d (Leaving q)
  | s_leave q : tstep m d (Leaving q) (leave_queue (q_id q) m d) Done
  | s_release_claim k rq b d' : claim k d = (Some b, d') -> tstep m d (Releasing k rq) d' (Recording rq b)
  | s_release_late k rq d' : claim k d = (None, d') -> tstep m d (Releasing k rq) d' Done
  | s_record rq b : tstep m d (Recording rq b) (log_completed b rq m d) (Freeing rq b)
  | s_free rq b : tstep m d (Freeing rq b) (free_slots (worker_id b) (slots b) m d) (Crediting rq b)
  | s_credit rq b : tstep m d (Crediting rq b) (credit iter b (default 0 (rq_exit_code rq)) m d) Done
  | s_lookup k why force b :
      active_build k (history d) = Some b ->
      tstep m d (Cancelling k why force) d (Opening force (new_record b k why m))
  | s_unknown k why force : active_build k (history d) = None -> tstep m d (Cancelling k why force) d Done
  | s_open force r d' :
      open_cancellation (c_build_id r) r d = (None, d') -> tstep m d (Opening force r) d' (Escalating force r)
  | s_already_open force r r' d' :
      open_cancellation (c_build_id r) r d = (Some r', d') -> tstep m d (Opening force r) d' Done
  | s_escalate force r env x :
      execute_cancellation cfg env (bool_decide (is_Some (worker (c_worker_id r) d))) force
        {| calls := 0; time := mono m; deeds := []; rec := r |} = Some x ->
      tstep m d (Escalating force r) d (Claiming (rec x))
  | s_cancel_claim r o d' : claim (c_build_id r) d = (o, d') -> tstep m d (Claiming r) d' (Clearing r o)
  | s_clear r o r' d' :
      free_claimed (bool_decide (is_Some o)) r m d = (r', d') -> tstep m d (Clearing r o) d' (Logging r' o)
  | s_log r o :
      tstep m d (Logging r o) (log_cancelled speed pressure o (set_completed (mono m) r) m d)
        (Counting (set_completed (mono m) r))
  | s_count r :
      tstep m d (Counting r) (with_stats (record_cancellation_stats (mono m) r (worker_stats d)) d) (Closing r)
  | s_close r : tstep m d (Closing r) (close_cancellation (c_build_id r) d) Done.

(** Capacities are below the largest u32, at which the counter of a worker may wrap
    ([full_worker_wraps] of SlotRace.v). *)
Definition capacity_ok (w : WorkerState.t) : Prop :=
  0 <= WorkerState.total_slots (WorkerState.config w) < U32_MAX.

(** What other code does to the workers of the pool: it keeps their slots, and starts new ones
    with none. *)
Definition pool_step (p p' : gmap string WorkerState.t) : Prop := forall i,
  match p !! i, p' !! i with
  | Some w, Some w' => WorkerState.used_slots w' = WorkerState.used_slots w /\ capacity_ok w'
  | Some w, None => False
  | None, Some w' => WorkerState.used_slots w' = 0 /\ capacity_ok w'
  | None, None => True
  end.

(** The task holds the admission barrier for reading. *)
Definition reader (tk : task) : bool :=
  match tk with Choosing _ _ _ _ | Reserving _ _ _ _ _ | Registering _ _ _ _ _ | Undoing _ _ _ _ _ => true | _ => false end.

(** A request as it arrives; a selection finds admission open or is answered at once. *)
Inductive entry (d : Daemon.t) : task -> Prop :=
  | e_select rq : is_u32 (cores rq) -> admission_barrier d = false ->
      entry d (Choosing rq (exclusions rq d) 0 None)
  | e_release k rq : rq_build_id rq = Some k -> entry d (Releasing k rq)
  | e_cancel k why force : entry d (Cancelling k why force).

Definition system : Type := Daemon.t * list task.

(** Steps that do not reopen admission.  A worker may be removed at any moment: a reload and
    a prune look at it before, and what they saw may be out of date; and what is no longer
    in the pool may be changed by whoever holds a reference. *)
Inductive step : system -> system -> Prop :=
  | step_arrive d ts tk : entry d tk -> step (d, ts) (d, ts ++ [tk])
  | step_task m d ts n tk d' tk' :
      ts !! n = Some tk -> tstep m d tk d' tk' -> step (d, ts) (d', <[n := tk']> ts)
  | step_pool d ts p :
      pool_step (WorkerPool.workers (pool d)) (WorkerPool.workers p) -> step (d, ts) (with_pool p d, ts)
  | step_remove d ts i : step (d, ts) (retire i d, ts)
  | step_retired d ts r : step (d, ts) (with_retired r d, ts)
  | step_beat d ts hb m :
      step (d, ts) (with_history (snd (record_build_heartbeat hb m (history d))) d, ts)
  | step_seen d ts k s m :
      step (d, ts) (with_history (snd (record_stuck_detector_snapshot k s m (history d))) d, ts)
  | step_close d ts scan :
      Forall (fun tk => reader tk = false) ts -> step (d, ts) (snd (handle_restart_admission true scan d), ts).

Inductive any_step : system -> system -> Prop :=
  | any_step_on s s' : step s s' -> any_step s s'
  | any_step_reopen d ts scan :
      Forall (fun tk => reader tk = false) ts -> any_step (d, ts) (snd (handle_restart_admission false scan d), ts).

(** A daemon that starts: idle workers, no builds. *)
Definition started (d : Daemon.t) : Prop :=
  (forall i w, worker i d = Some w -> WorkerState.used_slots w = 0 /\ capacity_ok w) /\
  active (history d) = ∅ /\ records (history d) = [] /\ queued (history d) = [] /\
  0 <= next_id (history d).

(** ** What is held *)

Definition on (i j : string) (n : Z) : Z := if bool_decide (i = j) then n else 0.

(** The slots a task has reserved and not yet given back or registered. *)
Definition held (i : string) (tk : task) : Z :=
  match tk with
  | Registering rq _ _ _ h | Undoing rq _ _ _ h => on i (fst h) (cores rq)
  | Granted j n _ => on i j n
  | Recording _ b | Freeing _ b | Clearing _ (Some b) => on i (worker_id b) (slots b)
  | _ => 0
  end.

(** The slots of the active builds on a worker. *)
Definition running (i : string) (m : gmap Z ActiveBuildState) : Z :=
  map_fold (fun _ b n => on i (worker_id b) (slots b) + n) 0 m.

Definition used_on (i : string) (d : Daemon.t) : Z :=
  match worker i d with Some w => WorkerState.used_slots w | None => 0 end.

End races.

(** ** Sums over the active builds *)

Section sums.
Context (i : string).

Lemma running_insert (m : gmap Z ActiveBuildState) k b :
  m !! k = None -> running i (<[k := b]> m) = on i (worker_id b) (slots b) + running i m.
Proof. intros H. unfold running. rewrite map_fold_insert_L; [done| |done]. intros. lia. Qed.

Lemma running_delete (m : gmap Z ActiveBuildState) k b :
  m !! k = Some b -> running i m = on i (worker_id b) (slots b) + running i (delete k m).
Proof.
  intros H. rewrite <- (insert_delete_id m k b H) at 1. by rewrite running_insert by apply lookup_delete_eq.
Qed.

Lemma running_replace (m : gmap Z ActiveBuildState) k b b' :
  m !! k = Some b -> worker_id b' = worker_id b -> slots b' = slots b ->
  running i (<[k := b']> m) = running i m.
Proof.
  intros H Hw Hs. rewrite <- insert_delete_eq, running_insert by apply lookup_delete_eq.
  by rewrite (running_delete m k b H), Hw, Hs.
Qed.

Lemma running_nonneg (m : gmap Z ActiveBuildState) :
  (forall k b, m !! k = Some b -> 0 <= slots b) -> 0 <= running i m.
Proof.
  unfold running. induction m as [|k b m Hk Hf IH] using map_first_key_ind; intros Hb; [by rewrite map_fold_empty|].
  change (0 <= running i (<[k := b]> m)). rewrite running_insert by done.
  assert (0 <= running i m).
  { apply IH. intros k' b' Hb'. apply (Hb k'). rewrite lookup_insert_ne; [done|congruence]. }
  specialize (Hb k b (lookup_insert_eq _ _ _)). unfold on. case_bool_decide; lia.
Qed.
End sums.

Lemma held_insert i (ts : list task) n tk tk' :
  ts !! n = Some tk -> sumZ (held i <$> <[n := tk']> ts) = sumZ (held i <$> ts) - held i tk + held i tk'.
Proof.
  revert n. induction ts as [|x ts IH]; intros [|n] H; simplify_eq/=; [lia|]. rewrite (IH n H). lia.
Qed.

Lemma held_le i (ts : list task) n tk :
  Forall (fun t => 0 <= held i t) ts -> ts !! n = Some tk -> held i tk <= sumZ (held i <$> ts).
Proof.
  intros H. revert n. induction H as [|x ts Hx Hts IH]; intros [|n] Hn; simplify_eq/=.
  - assert (0 <= sumZ (held i <$> ts)); [|lia]. apply sumZ_nonneg, Forall_fmap. done.
  - specialize (IH n Hn). lia.
Qed.

(** ** The pool under one segment *)

Lemma used_set_worker i j w d :
  used_on j (set_worker i w d) = if bool_decide (j = i) then WorkerState.used_slots w else used_on j d.
Proof.
  unfold used_on, worker, set_worker, with_pool. cbn. case_bool_decide as H.
  - subst. by rewrite lookup_insert_eq.
  - by rewrite lookup_insert_ne by congruence.
Qed.

(** Every worker has a capacity below the largest u32. *)
Definition capacities (d : Daemon.t) : Prop := forall i w, worker i d = Some w -> capacity_ok w.

Lemma capacities_set_worker i w d : capacities d -> capacity_ok w -> capacities (set_worker i w d).
Proof.
  intros H Hw j w'. unfold worker, set_worker, with_pool. cbn. intros [[<- <-]|[_ Hj]]%lookup_insert_Some; [done|by apply (H j)].
Qed.

Lemma drain_check_slots m w :
  let w' := at_moment m (WorkerState.check_drain_complete w) in
  WorkerState.used_slots w' = WorkerState.used_slots w /\ WorkerState.config w' = WorkerState.config w.
Proof.
  unfold at_moment, WorkerState.check_drain_complete, WorkerState.current_unix_secs_for_disabled_at.
  unmonad. destruct (_ || _); [done|]. by destruct (WorkerState.drain_completion w).
Qed.

Lemma release_worker m n w :
  let w' := at_moment m (WorkerState.release_slots n w) in
  WorkerState.used_slots w' = sat_sub (WorkerState.used_slots w) n /\ WorkerState.config w' = WorkerState.config w.
Proof. exact (drain_check_slots m (WorkerState.with_used (sat_sub (WorkerState.used_slots w) n) w)). Qed.

Lemma at_moment_release m i n (p : WorkerPool.t) :
  at_moment m (WorkerPool.release_slots i n p) =
  match WorkerPool.workers p !! i with
  | Some w => {| WorkerPool.workers := <[i := at_moment m (WorkerState.release_slots n w)]> (WorkerPool.workers p);
                 WorkerPool.worker_count := WorkerPool.worker_count p |}
  | None => p
  end.
Proof.
  unfold at_moment, WorkerPool.release_slots. destruct (_ !! i); [|done]. unmonad. by destruct (WorkerState.release_slots _ _ _ _).
Qed.

Lemma free_slots_spec i n m d :
  free_slots i n m d =
  match worker i d with
  | Some w => set_worker i (at_moment m (WorkerState.release_slots n w)) d
  | None => d
  end.
Proof.
  unfold free_slots. rewrite at_moment_release. unfold worker, set_worker. destruct (_ !! i); [done|]. by destruct d.
Qed.

(** Slots that are there are given back exactly. *)
Lemma free_used i n m d j :
  0 <= n <= used_on i d -> used_on j (free_slots i n m d) = used_on j d - on j i n.
Proof.
  intros Hn. rewrite free_slots_spec. unfold used_on at 1 in Hn. destruct (worker i d) as [w|] eqn:Hw.
  - rewrite used_set_worker. destruct (release_worker m n w) as [-> _]. unfold on, sat_sub.
    case_bool_decide as E; [|lia]. subst. unfold used_on. rewrite Hw. lia.
  - unfold on. case_bool_decide; lia.
Qed.

Lemma free_capacities i n m d : capacities d -> capacities (free_slots i n m d).
Proof.
  intros H. rewrite free_slots_spec. destruct (worker i d) as [w|] eqn:Hw; [|done].
  apply capacities_set_worker; [done|]. unfold capacity_ok. destruct (release_worker m n w) as [_ ->]. by apply (H i).
Qed.

(** A reservation through a reference that is not out of date. *)
Lemma reserve_slots_of i n m d ok d' :
  is_u32 n -> capacities d -> 0 <= used_on i d -> reserve (reference i d) n m d = (ok, d') ->
  (ok = true -> 0 < n) /\ used_on i d' = used_on i d + (if ok then n else 0).
Proof.
  intros Hn Hc Hu. unfold reserve, object, set_object. cbn [fst snd reference].
  rewrite !(bool_decide_eq_true_2 (current i d = current i d)) by done. unfold used_on in Hu |- * .
  destruct (worker i d) as [w|] eqn:Hw.
  2: { intros [= <- <-]. rewrite Hw. by split. }
  unfold at_moment, WorkerState.reserve_slots.
  pose proof (Hc i w Hw) as Hcap. unfold capacity_ok, U32_MAX in Hcap.
  assert (Hset : forall w', worker i (set_worker i w' d) = Some w').
  { intros w'. unfold worker, set_worker. cbn. apply lookup_insert_eq. }
  destruct (Z.eqb_spec n 0) as [|Hn0]; [intros [= <- <-]; rewrite Hset; split; [done|lia]|].
  destruct (WorkerLifecycle.lifecycle_accepts_new_builds _) eqn:Ha; cbn [negb]; [|intros [= <- <-]; rewrite Hset; split; [done|lia]].
  destruct (Z.ltb_spec (WorkerState.total_slots (WorkerState.config w)) (sat_add 32 (WorkerState.used_slots w) n)) as [|Hfit];
    [intros [= <- <-]; rewrite Hset; split; [done|lia]|].
  unmonad. intros [= <- <-]. rewrite Hset. cbn. unfold in_u, sat_add in *. rewrite wadd_small by lia. split; [intros _; lia|lia].
Qed.

Lemma set_object_other h w d j :
  (fst h = j -> snd h <> current j d) -> used_on j (set_object h w d) = used_on j d.
Proof.
  intros Hne. unfold set_object. case_bool_decide as E; [|done]. rewrite used_set_worker. case_bool_decide; [|done].
  subst. by destruct (Hne eq_refl).
Qed.

(** The parts of the daemon a reservation leaves alone. *)
Record aside (d d' : Daemon.t) : Prop := {
  a_history : history d' = history d;
  a_incarnation : incarnation d' = incarnation d;
  a_barrier : admission_barrier d' = admission_barrier d;
  a_caps : capacities d -> capacities d';
}.

Lemma aside_object h w w' d :
  object h d = Some w -> WorkerState.config w' = WorkerState.config w -> aside d (set_object h w' d).
Proof.
  unfold object, set_object. case_bool_decide; [|by constructor]. intros Hw Hc. constructor; try done.
  intros H'. apply capacities_set_worker; [done|]. unfold capacity_ok. rewrite Hc. by apply (H' (fst h)).
Qed.

Lemma reserve_config n w m : WorkerState.config (snd (at_moment m (WorkerState.reserve_slots n w))) = WorkerState.config w.
Proof.
  unfold at_moment, WorkerState.reserve_slots. destruct (n =? 0); [done|].
  destruct (WorkerLifecycle.lifecycle_accepts_new_builds (WorkerState.life w)) eqn:Ha; [|done]. cbn [negb].
  destruct (_ <? _); [done|]. cbn. by rewrite Ha.
Qed.

Lemma reserve_aside h n m d ok d' : reserve h n m d = (ok, d') -> aside d d'.
Proof.
  unfold reserve. destruct (object h d) as [w|] eqn:E; [|by intros [= <- <-]].
  pose proof (reserve_config n w m) as Hc. destruct (at_moment m _) as [o w']. intros [= <- <-]. by eapply aside_object.
Qed.

Lemma hand_back_aside h n m d : aside d (hand_back h n m d).
Proof.
  unfold hand_back. destruct (object h d) as [w|] eqn:E; [|done]. eapply aside_object; [done|].
  by destruct (release_worker m n w).
Qed.

(** Through a reference that is not out of date, slots go back to the worker of the pool. *)
Lemma hand_back_current h n m d : snd h = current (fst h) d -> hand_back h n m d = free_slots (fst h) n m d.
Proof.
  intros Hc. rewrite free_slots_spec. unfold hand_back, object, set_object. by rewrite !bool_decide_eq_true_2.
Qed.

(** ** The invariant *)

(** A build claimed and not yet in the ring of finished builds. *)
Definition pending (tk : task) : list Z :=
  match tk with Recording _ b | Clearing _ (Some b) | Logging _ (Some b) => [id b] | _ => [] end.

(** Builds that ended: claimed once, and recorded once while the ring holds them. *)
Definition ended (h : BuildHistory.t) (ts : list task) : list Z :=
  concat (pending <$> ts) ++ (r_id <$> records h).

(** A cancellation knows the slots and the worker of its build, while there is one. *)
Definition about (h : BuildHistory.t) (r : CancellationRecord) : Prop :=
  c_build_id r < next_id h /\
  forall b, active h !! c_build_id r = Some b -> worker_id b = c_worker_id r /\ slots b = c_slots r.

Definition task_ok (h : BuildHistory.t) (tk : task) : Prop :=
  match tk with
  | Choosing rq _ _ _ | Reserving rq _ _ _ _ | Enqueuing rq | InQueue rq _ => is_u32 (cores rq)
  | Registering rq _ _ _ _ | Undoing rq _ _ _ _ => is_u32 (cores rq) /\ 0 < cores rq
  | Granted _ n _ => 0 < n
  | Recording _ b | Freeing _ b => 0 < slots b
  | Opening _ r | Escalating _ r => about h r /\ EscalationFacts.fresh r
  | Claiming r => about h r
  | Clearing r (Some b) => worker_id b = c_worker_id r /\ slots b = c_slots r /\ 0 < slots b
  | _ => True
  end.

Lemma held_nonneg i h tk : task_ok h tk -> 0 <= held i tk.
Proof. destruct tk; cbn; unfold on; repeat case_match; intuition lia. Qed.

(** What later histories may differ in: builds end, builds start under new numbers. *)
Definition later (h h' : BuildHistory.t) : Prop :=
  next_id h <= next_id h' /\
  forall k b', k < next_id h -> active h' !! k = Some b' ->
    exists b, active h !! k = Some b /\ worker_id b' = worker_id b /\ slots b' = slots b.

Lemma later_ok h h' tk : later h h' -> task_ok h tk -> task_ok h' tk.
Proof.
  intros [Hn Hl]. assert (Ha : forall r, about h r -> about h' r).
  { intros r [Hi Hr]. split; [lia|]. intros b' Hb'. destruct (Hl _ b' Hi Hb') as (b & Hb & -> & ->). by apply Hr. }
  destruct tk; cbn; try done; try case_match; intuition.
Qed.

Lemma history_later_refl h : later h h.
Proof. split; [lia|]. intros k b _ Hb. by exists b. Qed.

(** The reference a request holds to a worker it chose. *)
Definition handle_of (tk : task) : option handle :=
  match tk with Reserving _ _ _ _ h | Registering _ _ _ _ h | Undoing _ _ _ _ h => Some h | _ => None end.

Definition in_place (i : string) (d : Daemon.t) (tk : task) : Prop :=
  match handle_of tk with Some h => fst h = i -> snd h = current i d | None => True end.

(** The account of one worker: what it counts is what is held, and nobody refers to an
    earlier worker of its name. *)
Record balanced (i : string) (s : system) : Prop := {
  bal_slots : used_on i (fst s) = running i (active (history (fst s))) + sumZ (held i <$> snd s);
  bal_refs : Forall (in_place i (fst s)) (snd s);
}.

(** What holds whatever happens to the pool. *)
Record Inv (s : system) : Prop := {
  inv_caps : capacities (fst s);
  inv_builds : forall k b, active (history (fst s)) !! k = Some b ->
    id b = k /\ k < next_id (history (fst s)) /\ 0 < slots b;
  inv_next : 0 <= next_id (history (fst s));
  inv_tasks : Forall (task_ok (history (fst s))) (snd s);
  inv_jobs : forall k k' b b', active (history (fst s)) !! k = Some b -> active (history (fst s)) !! k' = Some b' ->
    project_id b = project_id b' -> worker_id b = worker_id b' -> k = k';
  inv_ended : NoDup (ended (history (fst s)) (snd s));
  inv_gone : forall k, k ∈ ended (history (fst s)) (snd s) ->
    k < next_id (history (fst s)) /\ active (history (fst s)) !! k = None;
  inv_barrier : admission_barrier (fst s) = true -> Forall (fun tk => reader tk = false) (snd s);
}.

Lemma Inv_running d ts i : Inv (d, ts) -> 0 <= running i (active (history d)).
Proof. intros HI. apply running_nonneg. intros k b Hb. pose proof (inv_builds _ HI k b Hb). lia. Qed.

Lemma Inv_holds d ts i : Inv (d, ts) -> Forall (fun t => 0 <= held i t) ts.
Proof. intros HI. eapply Forall_impl; [apply (inv_tasks _ HI)|]. intros tk. apply held_nonneg. Qed.

Lemma Inv_used d ts i : Inv (d, ts) -> balanced i (d, ts) -> 0 <= used_on i d.
Proof.
  intros HI HB. pose proof (bal_slots _ _ HB) as Hs. cbn in Hs. rewrite Hs. pose proof (Inv_running d ts i HI).
  assert (0 <= sumZ (held i <$> ts)); [|lia]. apply sumZ_nonneg, Forall_fmap, (Inv_holds d ts i HI).
Qed.

(** A task never holds more than the worker has in use. *)
Lemma Inv_held d ts n tk i : Inv (d, ts) -> balanced i (d, ts) -> ts !! n = Some tk -> held i tk <= used_on i d.
Proof.
  intros HI HB Hn. pose proof (bal_slots _ _ HB) as Hs. cbn in Hs. rewrite Hs. pose proof (Inv_running d ts i HI).
  assert (held i tk <= sumZ (held i <$> ts)); [|lia]. apply (held_le i ts n); [apply (Inv_holds d ts i HI)|done].
Qed.

(** ** The effect of a segment *)

Inductive effect (ts : list task) (d : Daemon.t) (tk : task) (d' : Daemon.t) (tk' : task) : Prop :=
  | eff_quiet :
      active (history d') = active (history d) -> records (history d') = records (history d) ->
      next_id (history d) <= next_id (history d') ->
      (forall i, balanced i (d, ts) -> used_on i d' = used_on i d - held i tk + held i tk') -> pending tk' = pending tk ->
      effect ts d tk d' tk'
  | eff_start b :
      active (history d') = <[next_id (history d) := b]> (active (history d)) ->
      records (history d') = records (history d) -> next_id (history d') = next_id (history d) + 1 ->
      id b = next_id (history d) -> 0 < slots b ->
      (forall k b', active (history d) !! k = Some b' -> project_id b = project_id b' -> worker_id b = worker_id b' -> False) ->
      (forall i, used_on i d' = used_on i d) ->
      (forall i, held i tk = on i (worker_id b) (slots b)) -> (forall i, held i tk' = 0) ->
      pending tk = [] -> pending tk' = [] -> effect ts d tk d' tk'
  | eff_claim k b :
      active (history d) !! k = Some b -> active (history d') = delete k (active (history d)) ->
      records (history d') = records (history d) -> next_id (history d') = next_id (history d) ->
      (forall i, used_on i d' = used_on i d) ->
      (forall i, held i tk = 0) -> (forall i, held i tk' = on i (worker_id b) (slots b)) ->
      pending tk = [] -> pending tk' = [k] -> effect ts d tk d' tk'
  | eff_end k :
      active (history d') = active (history d) -> next_id (history d') = next_id (history d) ->
      (exists l, l `suffix_of` records (history d) /\ r_id <$> records (history d') = (r_id <$> l) ++ [k]) ->
      (forall i, used_on i d' = used_on i d) -> (forall i, held i tk' = held i tk) ->
      pending tk = [k] -> pending tk' = [] -> effect ts d tk d' tk'.

Lemma effect_later ts d tk d' tk' :
  effect ts d tk d' tk' -> later (history d) (history d').
Proof.
  destruct 1 as [Ha _ Hn _ _|b Ha _ Hn Hi _ _ _ _ _ _ _|k b Hk Ha _ Hn _ _ _ _ _|k Ha Hn _ _ _ _ _]; (split; [lia|]); intros j c Hj; rewrite Ha.
  - intros Hc. by exists c.
  - rewrite lookup_insert_ne by lia. intros Hc. by exists c.
  - intros [_ Hc]%lookup_delete_Some. by exists c.
  - intros Hc. by exists c.
Qed.

Lemma pending_insert (ts : list task) n tk tk' :
  ts !! n = Some tk -> exists rest, concat (pending <$> ts) ≡ₚ pending tk ++ rest /\
    concat (pending <$> <[n := tk']> ts) ≡ₚ pending tk' ++ rest.
Proof.
  revert n. induction ts as [|x ts IH]; intros [|n] H; simplify_eq/=.
  - by exists (concat (pending <$> ts)).
  - destruct (IH n H) as (rest & H1 & H2). exists (pending x ++ rest). rewrite H1, H2.
    split; by rewrite !app_assoc, (Permutation_app_comm (pending x)).
Qed.

(** Each effect keeps the accounts. *)
Lemma effect_slots d ts n tk d' tk' i :
  Inv (d, ts) -> balanced i (d, ts) -> ts !! n = Some tk -> effect ts d tk d' tk' ->
  used_on i d' = running i (active (history d')) + sumZ (held i <$> <[n := tk']> ts).
Proof.
  intros HI HB Hn He. rewrite (held_insert i ts n tk tk' Hn). pose proof (bal_slots _ _ HB) as Hs. cbn in Hs.
  destruct He as [Ha _ _ Hu _|b Ha _ _ Hi _ _ Hu Ht Ht' _ _|k b Hk Ha _ _ Hu Ht Ht' _ _|k Ha _ _ Hu Ht _ _]; rewrite Ha, Hu by done.
  - lia.
  - rewrite running_insert; [rewrite Ht, Ht'; lia|].
    destruct (active (history d) !! next_id (history d)) as [c|] eqn:E; [|done].
    destruct (inv_builds _ HI _ c E) as (_ & Hlt & _). cbn in Hlt. lia.
  - rewrite (running_delete i _ k b Hk) in Hs. rewrite Ht, Ht'. lia.
  - rewrite Ht. lia.
Qed.

Lemma effect_builds d ts tk d' tk' k b :
  Inv (d, ts) -> effect ts d tk d' tk' -> active (history d') !! k = Some b ->
  id b = k /\ k < next_id (history d') /\ 0 < slots b.
Proof.
  intros HI He. pose proof (inv_builds _ HI) as Hb. cbn in Hb.
  destruct He as [Ha _ Hn _ _|c Ha _ Hn Hi Hp _ _ _ _ _ _|j c Hk Ha _ Hn _ _ _ _ _|j Ha Hn _ _ _ _ _]; rewrite Ha.
  - intros H%Hb. intuition lia.
  - intros [[<- <-]|[_ H%Hb]]%lookup_insert_Some; intuition lia.
  - intros [_ H%Hb]%lookup_delete_Some. intuition lia.
  - intros H%Hb. intuition lia.
Qed.

Lemma effect_jobs d ts tk d' tk' k k' b b' :
  Inv (d, ts) -> effect ts d tk d' tk' -> active (history d') !! k = Some b -> active (history d') !! k' = Some b' ->
  project_id b = project_id b' -> worker_id b = worker_id b' -> k = k'.
Proof.
  intros HI He. pose proof (inv_jobs _ HI) as Hj. cbn in Hj.
  destruct He as [Ha _ _ _ _|c Ha _ _ _ _ Hx _ _ _ _ _|j c _ Ha _ _ _ _ _ _ _|j Ha _ _ _ _ _ _]; rewrite Ha.
  - apply Hj.
  - intros [[<- <-]|[Hne H1]]%lookup_insert_Some [[<- <-]|[Hne' H2]]%lookup_insert_Some Hp Hw; try done.
    + exfalso. by apply (Hx k' b').
    + exfalso. by apply (Hx k b).
    + by apply (Hj k k' b b').
  - intros [_ H1]%lookup_delete_Some [_ H2]%lookup_delete_Some. by apply (Hj k k' b b').
  - apply Hj.
Qed.

Lemma effect_ended d ts n tk d' tk' :
  Inv (d, ts) -> ts !! n = Some tk -> effect ts d tk d' tk' ->
  NoDup (ended (history d') (<[n := tk']> ts)) /\
  forall k, k ∈ ended (history d') (<[n := tk']> ts) ->
    k ∈ ended (history d) ts \/ (is_Some (active (history d) !! k) /\ active (history d') !! k = None).
Proof.
  intros HI Hn He. pose proof (inv_ended _ HI) as Hd. cbn in Hd.
  destruct (pending_insert ts n tk tk' Hn) as (rest & Hp & Hp').
  assert (E : ended (history d) ts ≡ₚ pending tk ++ rest ++ (r_id <$> records (history d)))
    by (unfold ended; by rewrite Hp, app_assoc).
  assert (E' : ended (history d') (<[n := tk']> ts) ≡ₚ pending tk' ++ rest ++ (r_id <$> records (history d')))
    by (unfold ended; by rewrite Hp', app_assoc).
  rewrite E in Hd. enough (NoDup (pending tk' ++ rest ++ (r_id <$> records (history d'))) /\
    forall k, k ∈ pending tk' ++ rest ++ (r_id <$> records (history d')) ->
      k ∈ pending tk ++ rest ++ (r_id <$> records (history d)) \/
      (is_Some (active (history d) !! k) /\ active (history d') !! k = None)) as [H1 H2].
  { rewrite E'. split; [done|]. intros k. rewrite E', E. apply H2. }
  clear Hp Hp' E'.
  destruct He as [_ Hr _ _ Hpe|b _ Hr _ _ _ _ _ _ _ Hpe Hpe'|k b Hk Ha Hr _ _ _ _ Hpe Hpe'|k _ _ (l & [pre Hl] & Hr) _ _ Hpe Hpe'].
  - rewrite Hpe, Hr. split; [done|by left].
  - rewrite Hpe', Hr. rewrite Hpe in Hd |- *. split; [done|by left].
  - rewrite Hpe', Hr. rewrite Hpe in Hd, E |- *. cbn in Hd, E |- *. split.
    + constructor; [|done]. intros Hin. destruct (inv_gone _ HI k) as [_ Hg]; [cbn; by rewrite E|]. cbn in Hg. congruence.
    + intros j [->|Hj]%elem_of_cons; [right|by left]. rewrite Ha. split; [by eexists|apply lookup_delete_eq].
  - rewrite Hpe', Hr. rewrite Hpe, Hl, fmap_app in Hd. rewrite Hpe, Hl, fmap_app. cbn in Hd |- *.
    apply NoDup_cons in Hd as [Hk Hd]. rewrite NoDup_app in Hd. destruct Hd as (H1 & H2 & H3).
    apply NoDup_app in H3 as (_ & _ & H3). split; [|set_solver].
    apply NoDup_app. split; [done|]. split.
    + intros x Hx [Hx'| ->%list_elem_of_singleton]%elem_of_app; [apply (H2 x Hx)|apply Hk]; rewrite !elem_of_app; tauto.
    + apply NoDup_app. split; [done|]. split; [|apply NoDup_singleton].
      intros x Hx ->%list_elem_of_singleton. apply Hk. rewrite !elem_of_app. tauto.
Qed.

(** A step of one task keeps the invariant, and the account of every worker that had one. *)
Definition keeps (s s' : system) : Prop := Inv s' /\ forall i, balanced i s -> balanced i s'.

Lemma effect_Inv d ts n tk d' tk' :
  Inv (d, ts) -> ts !! n = Some tk -> effect ts d tk d' tk' -> capacities d' -> task_ok (history d') tk' ->
  admission_barrier d' = admission_barrier d -> incarnation d' = incarnation d ->
  (forall i, in_place i d tk -> in_place i d tk') ->
  (reader tk' = true -> reader tk = true \/ admission_barrier d = false) -> keeps (d, ts) (d', <[n := tk']> ts).
Proof.
  intros HI Hn He Hc Hok Hb Hinc Hpl Hrd. pose proof (effect_later _ _ _ _ _ He) as Hl.
  destruct (effect_ended d ts n tk d' tk' HI Hn He) as [Hnd Hin].
  split.
  2: { intros i HB. split; [by apply (effect_slots d ts n tk d' tk')|]. cbn [fst snd].
    assert (Hcur : forall t, in_place i d t -> in_place i d' t) by (intros t; unfold in_place, current; by rewrite Hinc).
    pose proof (bal_refs _ _ HB) as Hf. cbn in Hf. apply Forall_insert.
    - eapply Forall_impl; [exact Hf|exact Hcur].
    - apply Hcur, Hpl. by apply (Forall_lookup_1 _ _ _ _ Hf Hn). }
  constructor; cbn [fst snd]; [done| | | | |done| |].
  - intros k b. by apply (effect_builds d ts tk d' tk').
  - destruct Hl as [Hl _]. pose proof (inv_next _ HI). cbn in *. lia.
  - apply Forall_insert; [|done]. eapply Forall_impl; [apply (inv_tasks _ HI)|]. intros t. by apply later_ok.
  - intros k k' b b'. by apply (effect_jobs d ts tk d' tk').
  - intros k Hk. destruct (Hin k Hk) as [Hold|[[b Hb'] Hnone]].
    + destruct (inv_gone _ HI k Hold) as [Hlt Hg]. cbn in *. split; [destruct Hl; lia|].
      destruct (active (history d') !! k) as [c|] eqn:E; [|done]. destruct Hl as [_ Hl].
      destruct (Hl k c Hlt E) as (c' & Hc' & _). congruence.
    + split; [|done]. destruct (inv_builds _ HI k b Hb') as (_ & Hlt & _). cbn in Hlt. destruct Hl. lia.
  - rewrite Hb. intros Hbar. pose proof (inv_barrier _ HI Hbar) as Hf. cbn in Hf. apply Forall_insert; [done|].
    destruct (reader tk') eqn:E; [|done]. destruct (Hrd eq_refl) as [Hr|Hr]; [|congruence].
    pose proof (Forall_lookup_1 _ _ _ _ Hf Hn) as Hf'. cbn in Hf'. congruence.
Qed.

(** ** Segment by segment *)

(** Nothing the accounts look at moved. *)
Record quiet (d d' : Daemon.t) : Prop := {
  q_active : active (history d') = active (history d);
  q_records : records (history d') = records (history d);
  q_next : next_id (history d') = next_id (history d);
  q_used : forall i, used_on i d' = used_on i d;
  q_caps : capacities d -> capacities d';
  q_barrier : admission_barrier d' = admission_barrier d;
  q_incarnation : incarnation d' = incarnation d;
}.

Lemma quiet_refl d : quiet d d.
Proof. by constructor. Qed.

Lemma quiet_trans d1 d2 d3 : quiet d1 d2 -> quiet d2 d3 -> quiet d1 d3.
Proof. intros [] []. constructor; try congruence; auto. Qed.

Lemma quiet_history d h :
  active h = active (history d) -> records h = records (history d) -> next_id h = next_id (history d) ->
  quiet d (with_history h d).
Proof. by constructor. Qed.

Lemma quiet_cancellations c d : quiet d (with_cancellations c d).
Proof. by constructor. Qed.

Lemma quiet_stats v d : quiet d (with_stats v d).
Proof. by constructor. Qed.

Lemma quiet_tracker v d : quiet d (with_tracker v d).
Proof. by constructor. Qed.

(** A change of a worker that leaves its slots and its configuration alone. *)
Lemma quiet_worker i w w' d :
  worker i d = Some w -> WorkerState.used_slots w' = WorkerState.used_slots w ->
  WorkerState.config w' = WorkerState.config w -> quiet d (set_worker i w' d).
Proof.
  intros Hw Hu Hc. constructor; try done.
  - intros j. rewrite used_set_worker. case_bool_decide as E; [|done]. subst. unfold used_on. by rewrite Hw.
  - intros H. apply capacities_set_worker; [done|]. unfold capacity_ok. rewrite Hc. by apply (H i).
Qed.

Lemma quiet_update m d : quiet d (update_estimates m d).
Proof. by apply quiet_history. Qed.

Lemma quiet_leave k m d : quiet d (leave_queue k m d).
Proof.
  unfold leave_queue. eapply quiet_trans; [|apply quiet_update]. unfold remove_queued_build.
  destruct (remove_first _ _). by apply quiet_history.
Qed.

Lemma quiet_enqueue rq m d q d' : enqueue rq m d = (q, d') -> quiet d d'.
Proof.
  unfold enqueue, enqueue_build. destruct (_ && _); intros [= <- <-]; by apply quiet_history.
Qed.

Lemma quiet_credit iter b e m d : quiet d (credit iter b e m d).
Proof.
  unfold credit. destruct (e =? 0); [|apply quiet_refl]. eapply quiet_trans; [|apply quiet_tracker].
  destruct (worker (worker_id b) d) as [w|] eqn:Hw; [|apply quiet_refl]. by eapply quiet_worker.
Qed.

Lemma quiet_open k r d o d' : open_cancellation k r d = (o, d') -> quiet d d'.
Proof.
  unfold open_cancellation. destruct (_ !! k); intros [= <- <-]; [apply quiet_refl|apply quiet_cancellations].
Qed.

Lemma quiet_blame r d : quiet d (blame r d).
Proof.
  unfold blame. destruct (c_reason r), (worker (c_worker_id r) d) as [w|] eqn:Hw; try apply quiet_refl; by eapply quiet_worker.
Qed.

Lemma record_suffix r h :
  exists l, l `suffix_of` records h /\ records (record r h) = l ++ [r].
Proof.
  unfold record. cbn. destruct (_ <=? _)%nat; [|by exists (records h)].
  exists (tail (records h)). split; [|done]. destruct (records h) as [|x l]; [done|]. by exists [x].
Qed.

(** A claimed build is written to the ring. *)
Lemma eff_record ts d d' b r tk tk' :
  quiet (with_history (record r (history d)) d) d' -> r_id r = id b -> (forall i, held i tk' = held i tk) ->
  pending tk = [id b] -> pending tk' = [] -> effect ts d tk d' tk'.
Proof.
  intros Hq Hr Hh Hp Hp'. destruct (record_suffix r (history d)) as (l & Hl & Hrec). apply (eff_end _ _ _ _ _ (id b)); try done.
  - by rewrite (q_active _ _ Hq).
  - by rewrite (q_next _ _ Hq).
  - exists l. split; [done|]. rewrite (q_records _ _ Hq). cbn [with_history history]. rewrite Hrec, fmap_app. cbn. by rewrite Hr.
  - intros i. by rewrite (q_used _ _ Hq).
Qed.

Lemma eff_nothing ts d d' tk tk' :
  quiet d d' -> (forall i, held i tk' = held i tk) -> pending tk' = pending tk -> effect ts d tk d' tk'.
Proof.
  intros Hq Hh Hp. apply eff_quiet; try done; [apply (q_active _ _ Hq)|apply (q_records _ _ Hq)|by rewrite (q_next _ _ Hq)|].
  intros i _. rewrite (q_used _ _ Hq), Hh. lia.
Qed.

Lemma eff_free ts d i n m tk tk' :
  (forall j, held j tk = on j i n) -> (balanced i (d, ts) -> 0 <= n <= used_on i d) -> (forall j, held j tk' = 0) ->
  pending tk' = pending tk -> effect ts d tk (free_slots i n m d) tk'.
Proof.
  intros Ht Hn Ht' Hp.
  assert (Hh : history (free_slots i n m d) = history d) by done.
  apply eff_quiet; rewrite ?Hh; try done. intros j HB. rewrite Ht, Ht'. unfold on. case_bool_decide as E.
  - subst. rewrite free_used by auto. unfold on. rewrite bool_decide_eq_true_2 by done. lia.
  - rewrite free_slots_spec. destruct (worker i d); [|lia]. rewrite used_set_worker, bool_decide_eq_false_2 by done. lia.
Qed.

Lemma eff_claimed ts d k b d' tk tk' :
  claim k d = (Some b, d') -> (forall i, held i tk = 0) -> (forall i, held i tk' = on i (worker_id b) (slots b)) ->
  pending tk = [] -> pending tk' = [k] -> effect ts d tk d' tk'.
Proof.
  unfold claim, take_active_build. destruct (active (history d) !! k) as [c|] eqn:E; [|done].
  intros [= <- <-] Ht Ht' Hp Hp'. by apply (eff_claim _ _ _ _ _ k c).
Qed.

Lemma claim_none d k d' : claim k d = (None, d') -> quiet d d'.
Proof.
  unfold claim, take_active_build. destruct (active (history d) !! k) eqn:E; [done|]. intros [= <-].
  apply quiet_history; try done. cbn. by apply delete_id.
Qed.

Lemma free_claimed_spec r m d r' d' :
  0 < c_slots r -> free_claimed true r m d = (r', d') -> d' = free_slots (c_worker_id r) (c_slots r) m d.
Proof.
  intros Hn. unfold free_claimed. destruct (Z.ltb_spec 0 (c_slots r)); [|lia]. cbn. rewrite free_slots_spec.
  destruct (worker (c_worker_id r) d); by intros [= <- <-].
Qed.

Lemma register_spec rq pid i m d o d' :
  next_id (history d) < 2 ^ 64 - 1 -> 0 <= next_id (history d) -> register rq pid i m d = (o, d') ->
  records (history d') = records (history d) /\ next_id (history d') = next_id (history d) + 1 /\
  (forall j, used_on j d' = used_on j d) /\ (capacities d -> capacities d') /\
  admission_barrier d' = admission_barrier d /\ incarnation d' = incarnation d /\
  match o with
  | None => active (history d') = active (history d)
  | Some b => active (history d') = <[next_id (history d) := b]> (active (history d)) /\ id b = next_id (history d) /\
      worker_id b = i /\ slots b = cores rq /\
      forall k b', active (history d) !! k = Some b' -> project_id b = project_id b' -> worker_id b = worker_id b' -> False
  end.
Proof.
  intros Hn H0. unfold register, try_start_active_build_with_wrapper, take_id, has_active_build_for_project_on_worker.
  cbn [active]. destruct (existsb _ _) eqn:He; intros [= <- <-]; cbn; rewrite wadd_small by lia; split_and!; try done.
  intros k b' Hb' Hp Hw. apply not_true_iff_false in He. apply He. apply existsb_exists. exists (k, b').
  split; [by apply list_elem_of_In, elem_of_map_to_list|]. unfold same_job. cbn in *. rewrite Hp, Hw.
  by rewrite !bool_decide_eq_true_2.
Qed.

(** ** Every step keeps the invariant *)

Section preservation.
Context (iter : forall A, gmap string A -> list (string * A)) (cfg : CancellationConfig) (daemon_secs : Z)
  (speed : string -> f64) (pressure : string -> string * string).
Hypothesis grace_nonneg : 0 <= grace_period cfg.
Hypothesis kill_nonneg : 0 <= kill_timeout cfg.

Abbreviation tstep := (tstep iter cfg daemon_secs speed pressure).

(** A quiet segment to a task that holds as much. *)
Lemma quiet_Inv d ts n tk d' tk' :
  Inv (d, ts) -> ts !! n = Some tk -> quiet d d' -> (forall i, held i tk' = held i tk) -> pending tk' = pending tk ->
  task_ok (history d) tk' -> (reader tk' = true -> reader tk = true \/ admission_barrier d = false) ->
  (forall i, in_place i d tk -> in_place i d tk') -> keeps (d, ts) (d', <[n := tk']> ts).
Proof.
  intros HI Hn Hq Hh Hp Hok Hr Hpl. pose proof (eff_nothing ts d d' tk tk' Hq Hh Hp) as He.
  apply (effect_Inv d ts n tk d' tk'); try done.
  - apply (q_caps _ _ Hq), (inv_caps _ HI).
  - by apply (later_ok (history d)); [apply (effect_later _ _ _ _ _ He)|].
  - apply (q_barrier _ _ Hq).
  - apply (q_incarnation _ _ Hq).
Qed.

Lemma unserved_ok h rq q why :
  is_u32 (cores rq) -> task_ok h (unserved rq q why) /\ (forall i, held i (unserved rq q why) = 0) /\
  pending (unserved rq q why) = [] /\ reader (unserved rq q why) = false /\
  (forall i d, in_place i d (unserved rq q why)).
Proof. intros Hc. unfold unserved. destruct q; [destruct (bool_decide _)|destruct (_ && _)]; by cbn. Qed.

Lemma served_ok h q :
  task_ok h (served q) /\ (forall i, held i (served q) = 0) /\ pending (served q) = [] /\ reader (served q) = false /\
  (forall i d, in_place i d (served q)).
Proof. by destruct q. Qed.

(** What a claimed build of the table is like. *)
Lemma claim_some d ts k b d' :
  Inv (d, ts) -> claim k d = (Some b, d') -> id b = k /\ 0 < slots b /\ active (history d) !! k = Some b /\
  capacities d' /\ admission_barrier d' = admission_barrier d /\ incarnation d' = incarnation d.
Proof.
  intros HI. unfold claim, take_active_build. destruct (active (history d) !! k) as [c|] eqn:E; [|done].
  intros [= <- <-]. destruct (inv_builds _ HI k c E) as (? & _ & ?). split_and!; try done. apply (inv_caps _ HI).
Qed.

(** The selection segments. *)
Lemma eff_reserve ts d n rq ex a q h m ok d' tk' :
  Inv (d, ts) -> ts !! n = Some (Reserving rq ex a q h) -> reserve h (cores rq) m d = (ok, d') ->
  (forall j, held j tk' = if ok then on j (fst h) (cores rq) else 0) -> pending tk' = [] ->
  effect ts d (Reserving rq ex a q h) d' tk'.
Proof.
  intros HI Hn Hr Hh Hp. pose proof (reserve_aside _ _ _ _ _ _ Hr) as Ha.
  pose proof (Forall_lookup_1 _ _ _ _ (inv_tasks _ HI) Hn) as Hu. cbn in Hu.
  apply eff_quiet; rewrite ?(a_history _ _ Ha); try done. intros j HB. rewrite Hh. cbn.
  destruct (decide (fst h = j)) as [Hj|Hj].
  - subst j. pose proof (Forall_lookup_1 _ _ _ _ (bal_refs _ _ HB) Hn eq_refl) as Hc. cbn in Hc.
    assert (Hh' : h = reference (fst h) d) by (destruct h; unfold reference; cbn in *; by subst). rewrite Hh' in Hr.
    destruct (reserve_slots_of (fst h) (cores rq) m d ok d' Hu (inv_caps _ HI) (Inv_used _ _ _ HI HB) Hr) as [_ ->].
    unfold on. rewrite bool_decide_eq_true_2 by done. destruct ok; lia.
  - assert (Hd : used_on j d' = used_on j d).
    { revert Hr. unfold reserve. destruct (object h d); [|by intros [= <- <-]]. destruct (at_moment m _). intros [= <- <-].
      by apply set_object_other. }
    rewrite Hd. unfold on. rewrite bool_decide_eq_false_2 by congruence. destruct ok; lia.
Qed.

(** A reservation that succeeds takes slots. *)
Lemma reserve_positive h n m d d' : 0 <= n -> reserve h n m d = (true, d') -> 0 < n.
Proof.
  intros Hn. unfold reserve. destruct (object h d) as [w|]; [|done]. unfold at_moment, WorkerState.reserve_slots.
  destruct (Z.eqb_spec n 0); [done|lia].
Qed.

Lemma reserve_Inv d ts n rq ex a q h m ok d' tk' :
  Inv (d, ts) -> ts !! n = Some (Reserving rq ex a q h) -> reserve h (cores rq) m d = (ok, d') ->
  (forall j, held j tk' = if ok then on j (fst h) (cores rq) else 0) -> pending tk' = [] ->
  (is_u32 (cores rq) -> (ok = true -> 0 < cores rq) -> task_ok (history d) tk') ->
  (forall i, in_place i d (Reserving rq ex a q h) -> in_place i d tk') -> keeps (d, ts) (d', <[n := tk']> ts).
Proof.
  intros HI Hn Hr Hh Hp Hok Hpl. pose proof (reserve_aside _ _ _ _ _ _ Hr) as Ha.
  pose proof (Forall_lookup_1 _ _ _ _ (inv_tasks _ HI) Hn) as Hu. cbn in Hu.
  apply (effect_Inv d ts n (Reserving rq ex a q h)); try done.
  - by eapply eff_reserve.
  - apply (a_caps _ _ Ha), (inv_caps _ HI).
  - rewrite (a_history _ _ Ha). apply Hok; [done|]. intros ->. unfold in_u in Hu. eapply reserve_positive; [|done]. lia.
  - apply (a_barrier _ _ Ha).
  - apply (a_incarnation _ _ Ha).
  - by left.
Qed.

Lemma register_Inv d ts n rq ex a q h pid m o d' :
  Inv (d, ts) -> ts !! n = Some (Registering rq ex a q h) -> next_id (history d) < 2 ^ 64 - 1 ->
  register rq pid (fst h) m d = (o, d') ->
  keeps (d, ts) (d', <[n := match o with Some _ => served q | None => Undoing rq ex a q h end]> ts).
Proof.
  intros HI Hn Hid Hr. pose proof (Forall_lookup_1 _ _ _ _ (inv_tasks _ HI) Hn) as Hu. cbn in Hu.
  destruct (register_spec rq pid (fst h) m d o d' Hid (inv_next _ HI) Hr) as (Hrec & Hnext & Hused & Hcap & Hb & Hinc & Ho).
  destruct o as [b|].
  - destruct Ho as (Ha & Hi & Hw & Hs & Hx). destruct (served_ok (history d') q) as (S1 & S2 & S3 & S4 & S5).
    apply (effect_Inv d ts n (Registering rq ex a q h)); try done.
    + apply (eff_start _ _ _ _ _ b); try done; [rewrite Hs; apply Hu|]. intros j. cbn. by rewrite Hw, Hs.
    + apply Hcap, (inv_caps _ HI).
    + by rewrite S4.
  - apply (effect_Inv d ts n (Registering rq ex a q h)); try done.
    + apply eff_quiet; try done; [lia|]. intros j _. rewrite Hused. cbn. lia.
    + apply Hcap, (inv_caps _ HI).
    + by left.
Qed.

Lemma free_Inv d ts n tk tk' i k m :
  Inv (d, ts) -> ts !! n = Some tk -> (forall j, held j tk = on j i k) -> 0 < k -> (forall j, held j tk' = 0) ->
  pending tk' = pending tk -> task_ok (history d) tk' -> (reader tk' = true -> reader tk = true) ->
  (forall i, in_place i d tk -> in_place i d tk') -> keeps (d, ts) (free_slots i k m d, <[n := tk']> ts).
Proof.
  intros HI Hn Ht Hk Ht' Hp Hok Hr Hpl.
  apply (effect_Inv d ts n tk); try done.
  - apply eff_free; try done. intros HB. pose proof (Inv_held d ts n tk i HI HB Hn) as Hle. rewrite Ht in Hle.
    unfold on in Hle. rewrite bool_decide_eq_true_2 in Hle by done. lia.
  - apply free_capacities, (inv_caps _ HI).
  - intros H. left. by apply Hr.
Qed.

(** A reservation is undone where it was made. *)
Lemma undo_Inv d ts n rq ex a q h m :
  Inv (d, ts) -> ts !! n = Some (Undoing rq ex a q h) ->
  keeps (d, ts) (hand_back h (cores rq) m d, <[n := Choosing rq (ex ++ [fst h]) a q]> ts).
Proof.
  intros HI Hn. pose proof (Forall_lookup_1 _ _ _ _ (inv_tasks _ HI) Hn) as [Hu Hpos]. pose proof (hand_back_aside h (cores rq) m d) as Ha.
  apply (effect_Inv d ts n (Undoing rq ex a q h)); try done.
  - apply eff_quiet; rewrite ?(a_history _ _ Ha); try done. intros j HB. cbn. destruct (decide (fst h = j)) as [Hj|Hj].
    + subst j. pose proof (Forall_lookup_1 _ _ _ _ (bal_refs _ _ HB) Hn eq_refl) as Hc. cbn in Hc.
      pose proof (Inv_held d ts n _ (fst h) HI HB Hn) as Hle. cbn in Hle. unfold on in Hle. rewrite bool_decide_eq_true_2 in Hle by done.
      rewrite (hand_back_current h _ m d Hc), free_used by lia. lia.
    + unfold on. rewrite bool_decide_eq_false_2 by congruence. unfold hand_back. destruct (object h d); [|lia].
      rewrite set_object_other by done. lia.
  - apply (a_caps _ _ Ha), (inv_caps _ HI).
  - apply (a_barrier _ _ Ha).
  - apply (a_incarnation _ _ Ha).
  - by left.
Qed.

Lemma execute_about force r env known m x h :
  EscalationFacts.fresh r -> about h r ->
  execute_cancellation cfg env known force {| calls := 0; time := mono m; deeds := []; rec := r |} = Some x ->
  about h (rec x).
Proof.
  intros Hf Ha He. destruct (EscalationFacts.execute_spec cfg env known force
    {| calls := 0; time := mono m; deeds := []; rec := r |} Hf eq_refl kill_nonneg grace_nonneg) as (x' & He' & Hend & _).
  rewrite He in He'. injection He' as <-.
  destruct (EscalationFacts.ending_facts _ _ _ Hf Hend) as (_ & _ & H1 & H2 & H3 & _). cbn in *.
  unfold about. by rewrite H1, H2, H3.
Qed.

(** A segment that moves no account: closes the side conditions it can. *)
Ltac still HI Hn :=
  eapply (quiet_Inv _ _ _ _ _ _ HI Hn);
  first [ done | apply quiet_refl | apply quiet_leave | apply quiet_credit | apply quiet_stats
        | apply quiet_cancellations | by eapply quiet_open | by eapply claim_none | by eapply quiet_enqueue
        | by auto | idtac ].

Lemma tstep_Inv m d ts n tk d' tk' :
  Inv (d, ts) -> ts !! n = Some tk -> tstep m d tk d' tk' -> keeps (d, ts) (d', <[n := tk']> ts).
Proof.
  intros HI Hn Hs. pose proof (Forall_lookup_1 _ _ _ _ (inv_tasks _ HI) Hn) as Hok. cbn in Hok.
  destruct Hs; cbn in Hok.
  - destruct (unserved_ok (history d) rq q why Hok) as (U1 & U2 & U3 & U4 & U5). still HI Hn.
  - still HI Hn. intros j _. unfold in_place. cbn. by intros ->.
  - eapply reserve_Inv; try done. cbn. auto.
  - eapply reserve_Inv; try done.
  - destruct (unserved_ok (history d) rq q Selection.Selector.AllWorkersBusy Hok) as (U1 & U2 & U3 & U4 & U5).
    eapply reserve_Inv; try done.
  - by eapply (register_Inv d ts n rq ex a q h pid m (Some b)).
  - by eapply (register_Inv d ts n rq ex a q h pid m None).
  - still HI Hn. by destruct Hok.
  - by apply undo_Inv.
  - still HI Hn.
  - eapply free_Inv; try done.
  - still HI Hn. eapply quiet_trans; [by eapply quiet_enqueue|apply quiet_update].
  - still HI Hn.
  - still HI Hn.
  - still HI Hn.
  - still HI Hn.
  - still HI Hn.
  - still HI Hn.
  - still HI Hn.
  - destruct (claim_some d ts k b d' HI ltac:(done)) as (Hi & Hp & Hk & Hc & Hb & Hinc).
    apply (effect_Inv d ts n (Releasing k rq)); try done. by apply (eff_claimed ts d k b); try done; cbn; rewrite Hi.
  - still HI Hn.
  - apply (effect_Inv d ts n (Recording rq b)); try done; [|apply (inv_caps _ HI)].
    by eapply (eff_record ts d _ b (completed b _ _ _ _ m)); [apply quiet_refl|..].
  - eapply free_Inv; try done.
  - still HI Hn.
  - still HI Hn. cbn. destruct (inv_builds _ HI k b ltac:(done)) as (_ & Hlt & _). split; [|done]. split; [done|].
    cbn. intros b' Hb'. unfold active_build in *. by simplify_eq.
  - still HI Hn.
  - still HI Hn.
  - still HI Hn.
  - still HI Hn. cbn. destruct Hok. by eapply execute_about.
  - destruct o as [b|]; [|by still HI Hn].
    destruct (claim_some d ts (c_build_id r) b d' HI ltac:(done)) as (Hi & Hp & Hk & Hc & Hb & Hinc).
    apply (effect_Inv d ts n (Claiming r)); try done.
    + by apply (eff_claimed ts d (c_build_id r) b); try done; cbn; rewrite Hi.
    + cbn. destruct Hok as [_ Hab]. by destruct (Hab b Hk).
  - destruct o as [b|]; cbn in *; [|by simplify_eq; still HI Hn]. destruct Hok as (Hw & Hsl & Hp). rewrite (free_claimed_spec r m d r' d') by (lia || done).
    rewrite <- Hw, <- Hsl. eapply free_Inv; try done.
  - destruct o as [b|]; [|by still HI Hn]. apply (effect_Inv d ts n (Logging r (Some b))); try done.
    + by eapply (eff_record ts d _ b (cancelled b None _ m)); [apply quiet_blame|..].
    + apply (q_caps _ _ (quiet_blame _ _)). exact (inv_caps _ HI).
    + etrans; [apply (q_barrier _ _ (quiet_blame _ _))|done].
    + etrans; [apply (q_incarnation _ _ (quiet_blame _ _))|done].
  - still HI Hn.
  - still HI Hn.
Qed.

Lemma beat_Inv d ts h :
  Inv (d, ts) -> records h = records (history d) -> next_id h = next_id (history d) ->
  (active h = active (history d) \/ exists k b b', active (history d) !! k = Some b /\
     active h = <[k := b']> (active (history d)) /\
     id b' = id b /\ worker_id b' = worker_id b /\ slots b' = slots b /\ project_id b' = project_id b) ->
  keeps (d, ts) (with_history h d, ts).
Proof.
  intros HI Hr Hn Hact.
  assert (Hl : forall j c, active h !! j = Some c -> exists c', active (history d) !! j = Some c' /\ id c = id c' /\
    worker_id c = worker_id c' /\ slots c = slots c' /\ project_id c = project_id c').
  { intros j c. destruct Hact as [->|(k & b & b' & Hk & -> & Hi & Hw & Hs & Hp)]; [by exists c|].
    intros [[<- <-]|[_ Hc]]%lookup_insert_Some; [by exists b|by exists c]. }
  assert (Hnone : forall j, active (history d) !! j = None -> active h !! j = None).
  { intros j Hj. destruct (active h !! j) as [c|] eqn:E; [|done]. destruct (Hl j c E) as (c' & Hc & _). congruence. }
  split.
  - constructor; cbn [fst snd with_history history].
    + exact (inv_caps _ HI).
    + intros j c (c' & Hc & -> & _ & -> & _)%Hl. rewrite Hn. exact (inv_builds _ HI j c' Hc).
    + rewrite Hn. exact (inv_next _ HI).
    + eapply Forall_impl; [apply (inv_tasks _ HI)|]. intros tk. apply later_ok. split; [by rewrite Hn|].
      intros j c _ (c' & Hc & _ & -> & -> & _)%Hl. by exists c'.
    + intros j j' c c' (x & Hx & _ & -> & _ & ->)%Hl (x' & Hx' & _ & -> & _ & ->)%Hl. exact (inv_jobs _ HI j j' x x' Hx Hx').
    + unfold ended. rewrite Hr. exact (inv_ended _ HI).
    + intros j. unfold ended. rewrite Hr, Hn. intros Hj. destruct (inv_gone _ HI j Hj) as [Hlt Hg]. split; [done|]. by apply Hnone.
    + exact (inv_barrier _ HI).
  - intros i [Hs Hf]. split; [|exact Hf]. cbn in Hs |- *. change (used_on i (with_history h d)) with (used_on i d).
    rewrite Hs. f_equal. destruct Hact as [->|(k & b & b' & Hk & -> & _ & Hw & Hsl & _)]; [done|].
    by rewrite (running_replace i _ k b b' Hk Hw Hsl).
Qed.

(** A change of the workers that leaves the rest of the daemon alone. *)
Lemma pool_Inv d ts p :
  Inv (d, ts) -> pool_step (WorkerPool.workers (pool d)) (WorkerPool.workers p) -> keeps (d, ts) (with_pool p d, ts).
Proof.
  intros HI Hp. split.
  - destruct HI. constructor; cbn in *; try done.
    intros i w Hw. specialize (Hp i). unfold worker in Hw. cbn in Hw. rewrite Hw in Hp.
    by destruct (WorkerPool.workers (pool d) !! i), Hp.
  - intros i [Hs Hf]. split; [|exact Hf]. cbn in Hs |- *. rewrite <- Hs. specialize (Hp i). unfold used_on, worker. cbn.
    destruct (WorkerPool.workers (pool d) !! i), (WorkerPool.workers p !! i); intuition congruence.
Qed.

Lemma retire_history i d : history (retire i d) = history d /\ admission_barrier (retire i d) = admission_barrier d.
Proof. unfold retire. by destruct (worker i d). Qed.

Lemma retire_worker i j d : worker j (retire i d) = if bool_decide (j = i) then None else worker j d.
Proof.
  unfold retire, worker. destruct (WorkerPool.workers (pool d) !! i) as [w|] eqn:E.
  - cbn. unfold WorkerPool.remove_worker. rewrite E. cbn. case_bool_decide; [subst; apply lookup_delete_eq|].
    by rewrite lookup_delete_ne.
  - case_bool_decide; [by subst|done].
Qed.

Lemma retire_Inv i d ts : Inv (d, ts) -> Inv (retire i d, ts).
Proof.
  intros HI. destruct (retire_history i d) as [Hh Hb]. destruct HI. constructor; cbn [fst snd] in *; rewrite ?Hh, ?Hb; try done.
  intros j w. rewrite retire_worker. case_bool_decide; [done|]. by apply inv_caps0.
Qed.

Lemma arrive_Inv d ts tk : Inv (d, ts) -> entry d tk -> keeps (d, ts) (d, ts ++ [tk]).
Proof.
  intros HI He. assert (Ht : task_ok (history d) tk /\ (forall i, held i tk = 0) /\ pending tk = [] /\
    (reader tk = true -> admission_barrier d = false) /\ forall i, in_place i d tk) by by destruct He.
  destruct Ht as (Hok & Hh & Hp & Hr & Hpl).
  assert (Hen : ended (history d) (ts ++ [tk]) = ended (history d) ts).
  { unfold ended. rewrite fmap_app, concat_app. cbn. by rewrite Hp, !app_nil_r. }
  split.
  - constructor; cbn [fst snd]; rewrite ?Hen.
    + exact (inv_caps _ HI).
    + exact (inv_builds _ HI).
    + exact (inv_next _ HI).
    + apply Forall_app. split; [exact (inv_tasks _ HI)|by constructor].
    + exact (inv_jobs _ HI).
    + exact (inv_ended _ HI).
    + exact (inv_gone _ HI).
    + intros Hb. apply Forall_app. split; [exact (inv_barrier _ HI Hb)|]. constructor; [|done].
      destruct (reader tk); [|done]. specialize (Hr eq_refl). congruence.
  - intros i [Hs Hf]. split; cbn in *.
    + rewrite fmap_app, sumZ_app. cbn. rewrite Hh. lia.
    + apply Forall_app. split; [done|by constructor].
Qed.

Lemma barrier_Inv d ts b :
  Inv (d, ts) -> Forall (fun tk => reader tk = false) ts -> keeps (d, ts) (with_barrier b d, ts).
Proof. intros [] Hf. split; [by constructor|]. by intros i []. Qed.

Abbreviation any_step := (any_step iter cfg daemon_secs speed pressure).
Abbreviation step := (step iter cfg daemon_secs speed pressure).

(** No worker of this name leaves the pool in the step while it has slots in use or while a
    request that chose it has yet to reserve. *)
Definition stays (i : string) (s s' : system) : Prop :=
  current i (fst s') <> current i (fst s) ->
  used_on i (fst s) = 0 /\ forall rq ex a q h, Reserving rq ex a q h ∈ snd s -> fst h <> i.

(** A worker that leaves idle leaves no reference behind. *)
Lemma idle_unreferenced i d ts :
  Inv (d, ts) -> balanced i (d, ts) -> used_on i d = 0 -> (forall rq ex a q h, Reserving rq ex a q h ∈ ts -> fst h <> i) ->
  Forall (fun tk => forall h, handle_of tk = Some h -> fst h <> i) ts.
Proof.
  intros HI HB Hu Hno. apply Forall_lookup. intros n tk Hn h Hh Hi.
  pose proof (Inv_held d ts n tk i HI HB Hn) as Hle. pose proof (Forall_lookup_1 _ _ _ _ (inv_tasks _ HI) Hn) as Hok.
  destruct tk; cbn in Hh; simplify_eq.
  - eapply Hno; [|done]. by eapply list_elem_of_lookup_2.
  - destruct Hok as [_ Hp]. cbn in Hle. unfold on in Hle. rewrite bool_decide_eq_true_2 in Hle by done. lia.
  - destruct Hok as [_ Hp]. cbn in Hle. unfold on in Hle. rewrite bool_decide_eq_true_2 in Hle by done. lia.
Qed.

Lemma retire_balanced i j d ts :
  Inv (d, ts) -> stays i (d, ts) (retire j d, ts) -> balanced i (d, ts) -> balanced i (retire j d, ts).
Proof.
  intros HI Hst HB. destruct (worker j d) as [w|] eqn:Ew; [|unfold retire; by rewrite Ew].
  assert (Hcur : forall k, current k (retire j d) = if bool_decide (k = j) then S (current k d) else current k d).
  { intros k. unfold retire. rewrite Ew. unfold current. cbn. case_bool_decide; [subst; by rewrite lookup_insert_eq|].
    by rewrite lookup_insert_ne. }
  destruct (decide (i = j)) as [->|Hne].
  - destruct Hst as [Hu Hno]; [cbn; rewrite Hcur, bool_decide_eq_true_2 by done; lia|]. cbn in Hu, Hno.
    pose proof (idle_unreferenced j d ts HI HB Hu Hno) as Hun. split; cbn [fst snd].
    + destruct (retire_history j d) as [-> _]. pose proof (bal_slots _ _ HB) as Hs. cbn in Hs. rewrite <- Hs, Hu.
      unfold used_on. by rewrite retire_worker, bool_decide_eq_true_2.
    + eapply Forall_impl; [exact Hun|]. intros tk Htk. unfold in_place. destruct (handle_of tk) as [h|] eqn:Eh; [|done].
      intros Hi. by destruct (Htk h Eh).
  - destruct HB as [Hs Hf]. split; cbn [fst snd] in *.
    + destruct (retire_history j d) as [-> _]. rewrite <- Hs. unfold used_on. by rewrite retire_worker, bool_decide_eq_false_2.
    + eapply Forall_impl; [exact Hf|]. intros tk. unfold in_place. by rewrite Hcur, bool_decide_eq_false_2.
Qed.

Lemma step_Inv s s' : Inv s -> step s s' -> Inv s' /\ forall i, stays i s s' -> balanced i s -> balanced i s'.
Proof.
  assert (Hk : forall t t', keeps t t' -> Inv t' /\ forall i, stays i t t' -> balanced i t -> balanced i t').
  { intros t t' [H1 H2]. split; [done|]. intros i _. apply H2. }
  intros HI Hs. destruct Hs as [d ts tk He|m d ts n tk d' tk' Hn Ht|d ts p Hp|d ts i|d ts r|d ts hb m|d ts k x m|d ts scan Hf].
  - apply Hk. by apply arrive_Inv.
  - apply Hk. by eapply tstep_Inv.
  - apply Hk. by apply pool_Inv.
  - split; [by apply retire_Inv|]. intros j. by apply retire_balanced.
  - apply Hk. destruct HI. split; [by constructor|]. by intros j [].
  - apply Hk. unfold record_build_heartbeat. destruct (active (history d) !! hb_build_id hb) as [b|] eqn:E; [|by apply beat_Inv; auto].
    destruct (negb _); [by apply beat_Inv; auto|].
    destruct (wrapper_conflict _ _); apply beat_Inv; try done; right; by exists (hb_build_id hb), b; eexists.
  - apply Hk. unfold record_stuck_detector_snapshot. destruct (active (history d) !! k) as [b|] eqn:E; [|by apply beat_Inv; auto].
    apply beat_Inv; try done. right. by exists k, b; eexists.
  - apply Hk. unfold handle_restart_admission. destruct scan; by apply barrier_Inv.
Qed.

Lemma any_step_Inv s s' : Inv s -> any_step s s' -> Inv s' /\ forall i, stays i s s' -> balanced i s -> balanced i s'.
Proof.
  intros HI Hs. destruct Hs as [s s' Hs|d ts scan Hf]; [by eapply step_Inv|].
  assert (Hk : keeps (d, ts) (snd (handle_restart_admission false scan d), ts)).
  { unfold handle_restart_admission. destruct scan; by apply barrier_Inv. }
  destruct Hk as [H1 H2]. split; [done|]. intros i _. apply H2.
Qed.

Lemma started_Inv d : started d -> Inv (d, []) /\ forall i, balanced i (d, []).
Proof.
  intros (Hw & Ha & Hr & Hq & Hn). split.
  - constructor; cbn; unfold ended; rewrite ?Ha, ?Hr; cbn; try done.
    + intros i w Hi. by apply (Hw i).
    + constructor.
    + intros k ?%elem_of_nil. done.
  - intros i. split; [|constructor]. cbn. rewrite Ha. unfold used_on.
    destruct (worker i d) as [w|] eqn:E; [by destruct (Hw i w E)|done].
Qed.

Lemma reached_Inv d s : started d -> rtc any_step (d, []) s -> Inv s.
Proof.
  intros Hd. eapply (invariant_rtc any_step Inv); [intros; by eapply any_step_Inv|by apply started_Inv].
Qed.

(** Any steps, in which no worker [i] leaves the pool in use. *)
Definition staying (i : string) (s s' : system) : Prop := any_step s s' /\ stays i s s'.

Lemma reached_balanced i d s : started d -> rtc (staying i) (d, []) s -> Inv s /\ balanced i s.
Proof.
  intros Hd. eapply (invariant_rtc (staying i) (fun s => Inv s /\ balanced i s)); [|by split; apply started_Inv].
  intros s1 s2 [HI HB] [Hs Hst]. destruct (any_step_Inv s1 s2 HI Hs) as [H1 H2]. split; [done|]. by apply H2.
Qed.

End preservation.

(** ** What holds whatever the interleaving *)

Section theorems.
Context (iter : forall A, gmap string A -> list (string * A)) (cfg : CancellationConfig) (daemon_secs : Z)
  (speed : string -> f64) (pressure : string -> string * string).

Abbreviation any_step := (any_step iter cfg daemon_secs speed pressure).
Abbreviation step := (step iter cfg daemon_secs speed pressure).
Abbreviation tstep := (tstep iter cfg daemon_secs speed pressure).

Lemma running_ge (m : gmap Z ActiveBuildState) k b :
  (forall k b, m !! k = Some b -> 0 <= slots b) -> m !! k = Some b -> slots b <= running (worker_id b) m.
Proof.
  intros Hm Hk. rewrite (running_delete (worker_id b) m k b Hk). unfold on. rewrite bool_decide_eq_true_2 by done.
  assert (0 <= running (worker_id b) (delete k m)); [|lia].
  apply running_nonneg. intros j c [_ Hc]%lookup_delete_Some. by apply (Hm j).
Qed.


(** C12: Every build ends at most once.  The builds that were claimed for a release or a cancellation and those in the
    ring of finished builds are all different and none of them is active any more, so of any number of releases and
    cancellations of a build one ends it; and no worker runs two builds of one project. *)
Theorem build_ends_once d s :
  0 <= grace_period cfg -> 0 <= kill_timeout cfg -> started d -> rtc any_step (d, []) s ->
  NoDup (ended (history (fst s)) (snd s)) /\
  (forall k, k ∈ ended (history (fst s)) (snd s) -> active (history (fst s)) !! k = None) /\
  forall k k' b b', active (history (fst s)) !! k = Some b -> active (history (fst s)) !! k' = Some b' ->
    project_id b = project_id b' -> worker_id b = worker_id b' -> k = k'.
Proof.
  intros Hg Hk Hd Hs. pose proof (reached_Inv _ _ _ _ _ Hg Hk _ _ Hd Hs) as HI.
  split; [apply (inv_ended _ HI)|]. split; [|apply (inv_jobs _ HI)]. intros k Hin. by apply (inv_gone _ HI).
Qed.

(** *** Restart *)

Definition closed (d : Daemon.t) : Prop :=
  admission_barrier d = true /\ active (history d) = ∅ /\ queued (history d) = [].

Lemma closed_history d d' :
  closed d -> admission_barrier d' = admission_barrier d -> history d' = history d -> closed d'.
Proof. unfold closed. by intros H -> ->. Qed.

Lemma history_credit b e m d : history (credit iter b e m d) = history d.
Proof. unfold credit. destruct (e =? 0); [|done]. by destruct (worker (worker_id b) d). Qed.

Lemma history_blame r d : history (blame r d) = history d /\ admission_barrier (blame r d) = admission_barrier d.
Proof. unfold blame. by destruct (c_reason r), (worker (c_worker_id r) d). Qed.

(** While admission is closed and nothing runs, no segment starts or queues anything. *)
Lemma tstep_closed m d tk d' tk' :
  tstep m d tk d' tk' -> reader tk = false -> closed d -> closed d' /\ reader tk' = false.
Proof.
  intros Hs Hr Hc. destruct Hc as (Hb & Ha & Hq).
  assert (Hcl : forall k o d1, claim k d = (o, d1) -> closed d1).
  { unfold claim, take_active_build, closed. intros k o d1 [= _ <-]. cbn. by rewrite Ha, delete_empty. }
  assert (Hlv : forall k, closed (leave_queue k m d)).
  { intros k. unfold leave_queue, remove_queued_build, update_estimates, update_queue_estimates, closed. cbn. rewrite Hq.
    cbn. by split_and!. }
  destruct Hs; try done; (split; [|try done]); try (by apply (Hcl _ _ _ ltac:(eassumption))); try apply Hlv;
    try (by eapply closed_history; [by split_and!|..]); try congruence; try (by split_and!).
  - eapply closed_history; [by split_and!|apply (q_barrier _ _ (quiet_credit _ _ _ _ _))|apply history_credit].
  - unfold open_cancellation in *. destruct (cancellations d !! _); simplify_eq; by split_and!.
  - unfold open_cancellation in *. destruct (cancellations d !! _); simplify_eq; by split_and!.
  - unfold free_claimed in *. destruct (_ && _); [destruct (worker (c_worker_id r) d)|]; simplify_eq; by split_and!.
  - destruct o as [b|]; [|by split_and!]. unfold log_cancelled, closed. destruct (history_blame (set_completed (mono m) r)
      (with_history (record_cancelled_build b None (Some (metadata_of speed pressure (set_completed (mono m) r) d)) m (history d)).2 d)) as [-> ->].
    by split_and!.
Qed.

Lemma step_closed s s' :
  closed (fst s) /\ Forall (fun tk => reader tk = false) (snd s) -> step s s' ->
  closed (fst s') /\ Forall (fun tk => reader tk = false) (snd s').
Proof.
  intros [Hc Hf] Hs. destruct Hs as [d ts tk He|m d ts n tk d' tk' Hn Ht|d ts p Hp|d ts i|d ts r|d ts hb m|d ts k x m|d ts scan Hf'];
    cbn [fst snd] in *.
  - split; [done|]. apply Forall_app. split; [done|]. constructor; [|done]. destruct Hc as [Hb _]. destruct He; congruence || done.
  - destruct (tstep_closed m d tk d' tk' Ht (Forall_lookup_1 _ _ _ _ Hf Hn) Hc) as [Hc' Hr]. split; [done|].
    by apply Forall_insert.
  - by split.
  - split; [|done]. destruct (retire_history i d) as [Hh Hb]. by eapply closed_history.
  - by split.
  - split; [|done]. destruct Hc as (Hb & Ha & Hq). unfold record_build_heartbeat. rewrite Ha, lookup_empty. by split_and!.
  - split; [|done]. destruct Hc as (Hb & Ha & Hq). unfold record_stuck_detector_snapshot. rewrite Ha, lookup_empty. by split_and!.
  - split; [|done]. unfold handle_restart_admission. destruct Hc as (Hb & Ha & Hq). destruct scan; by split_and!.
Qed.

(** C13: A permitted restart is safe.  Admission is closed while no selection is under way; when the answer permits the
    restart nothing was active or queued, and from then on, until admission is opened again, no request, however it
    interleaves, starts or queues a build. *)
Theorem restart_admission_sound d1 ts scan s :
  Forall (fun tk => reader tk = false) ts ->
  restart_permitted (fst (handle_restart_admission true scan d1)) = true ->
  rtc step (snd (handle_restart_admission true scan d1), ts) s ->
  admission_barrier d1 = false /\ admission_barrier (fst s) = true /\ active (history (fst s)) = ∅ /\
  queued (history (fst s)) = [].
Proof.
  intros Hf Hp Hs.
  assert (H0 : admission_barrier d1 = false /\ closed (snd (handle_restart_admission true scan d1))).
  { unfold handle_restart_admission in *. destruct scan; cbn in Hp |- *;
      rewrite ?andb_true_iff, ?andb_false_r in Hp; [|naive_solver].
    destruct Hp as ((((Hb & Ha%bool_decide_eq_true) & Hq%bool_decide_eq_true) & _) & _).
    split; [by destruct (admission_barrier d1)|]. split; [done|]. cbn.
    apply fmap_nil_inv in Ha, Hq. by apply map_to_list_empty_iff in Ha. }
  destruct H0 as [Hb Hc]. split; [done|].
  assert (H : closed (fst s) /\ Forall (fun tk => reader tk = false) (snd s)).
  { eapply (invariant_rtc step (fun s => closed (fst s) /\ Forall (fun tk => reader tk = false) (snd s)));
      [exact step_closed| |exact Hs]. by split. }
  by destruct H as [(? & ? & ?) _].
Qed.

End theorems.

(** ** A daemon with one worker *)

Definition iter0 (A : Type) (m : gmap string A) : list (string * A) := map_to_list m.
Definition noon : moment := {| mono := 1000; utc := 5000 |}.

Definition one_worker (used : Z) : Daemon.t :=
  {| history := BuildHistory.new 1 100;
     pool := {| WorkerPool.workers := {[ "css"%string := WorkerState.sample_worker 8 used ]}; WorkerPool.worker_count := 1 |};
     incarnation := ∅; retired := ∅; cancellations := ∅; worker_stats := ∅; tracker := Selection.Affinity.tracker_new; admission_barrier := false |}.

Definition ask (project : string) : SelectRequest :=
  {| request := {| Selection.Selector.project := project; Selection.Selector.command := None;
                   Selection.Selector.command_priority := Selection.Selector.Normal;
                   Selection.Selector.estimated_cores := 4; Selection.Selector.preferred_workers := [];
                   Selection.Selector.toolchain := None;
                   Selection.Selector.required_runtime := Selection.Selector.NoRuntime |};
     sq_hook_pid := Some 41; wait_for_worker := false; wait_timeout_secs := None; sq_local_wrapper_id := None |}.

Definition css : handle := ("css"%string, O).
Definition reserved : Daemon.t := snd (reserve css 4 noon (one_worker 0)).
Definition building : Daemon.t := snd (register (ask "p") 41 "css" noon reserved).
Definition build1 : ActiveBuildState := build_started (epoch_id 1) "p" "css" (command_of (ask "p")) 41 None 4 Remote noon.
Definition give_back : ReleaseRequest :=
  {| rq_worker_id := "css"; rq_slots := 4; rq_build_id := Some (epoch_id 1); rq_exit_code := Some 0;
     rq_duration_ms := None; rq_bytes_transferred := None; rq_timing := None |}.

Abbreviation walk := (any_step iter0 config_default 300 (fun _ => f64_of_Z 1) (fun _ => ("", "")%string)).

(** A build is started, its release has claimed it, and a cancellation arrives. *)
Definition racing : system :=
  (snd (claim (epoch_id 1) building), [Done; Recording give_back build1; Cancelling (epoch_id 1) User true]).

Lemma one_worker_started : started (one_worker 0).
Proof.
  split; [|done]. intros i w. unfold worker, one_worker. cbn [pool WorkerPool.workers].
  intros [_ <-]%lookup_singleton_Some. by vm_compute.
Qed.

Abbreviation walk_staying := (staying iter0 config_default 300 (fun _ => f64_of_Z 1) (fun _ => ("", "")%string) "css").

Lemma walk_stays s s' : walk s s' -> current "css" (fst s') = current "css" (fst s) -> walk_staying s s'.
Proof. intros Hs Hc. split; [done|]. intros Hn. by destruct Hn. Qed.

Lemma racing_stays : rtc walk_staying (one_worker 0, []) racing.
Proof.
  eapply rtc_l; [apply walk_stays; [apply any_step_on, step_arrive, (e_select _ (ask "p")); [by vm_compute|reflexivity]|done]|].
  eapply rtc_l; [apply walk_stays; [apply any_step_on; eapply (step_task _ _ _ _ _ noon _ _ 0); [reflexivity|apply (s_pick _ _ _ _ _ _ _ _ _ _ _ "css")]|done]|].
  eapply rtc_l; [apply walk_stays; [apply any_step_on; eapply (step_task _ _ _ _ _ noon _ _ 0); [reflexivity|apply (s_reserved _ _ _ _ _ _ _ _ _ _ _ _ reserved); reflexivity]|done]|].
  eapply rtc_l; [apply walk_stays; [apply any_step_on; eapply (step_task _ _ _ _ _ noon _ _ 0); [reflexivity|
    apply (s_registered _ _ _ _ _ _ _ _ _ _ _ _ 41 build1 building); [reflexivity|by vm_compute|reflexivity]]|done]|].
  eapply rtc_l; [apply walk_stays; [apply any_step_on, step_arrive, (e_release _ (epoch_id 1) give_back); reflexivity|done]|].
  eapply rtc_l; [apply walk_stays; [apply any_step_on; eapply (step_task _ _ _ _ _ noon _ _ 1); [reflexivity|apply s_release_claim; reflexivity]|done]|].
  apply rtc_once. apply walk_stays; [|done]. apply any_step_on.
  exact (step_arrive _ _ _ _ _ _ [Done; Recording give_back build1] _ (e_cancel _ (epoch_id 1) User true)).
Qed.

Lemma racing_reached : rtc walk (one_worker 0, []) racing.
Proof. eapply rtc_subrel; [|exact racing_stays]. by intros s s' []. Qed.


Lemma build_ends_once_witness : NoDup (ended (history (fst racing)) (snd racing)) /\
  ended (history (fst racing)) (snd racing) = [epoch_id 1].
Proof.
  destruct (build_ends_once iter0 config_default 300 (fun _ => f64_of_Z 1) (fun _ => ("", "")%string)
    (one_worker 0) racing) as [H _].
  - vm_compute. done.
  - vm_compute. done.
  - exact one_worker_started.
  - exact racing_reached.
  - split; [exact H|]. vm_compute. reflexivity.
Defined.

Lemma restart_admission_sound_witness :
  admission_barrier (one_worker 0) = false /\
  active (history (fst (with_barrier true (one_worker 0), @nil task))) = ∅.
Proof.
  destruct (restart_admission_sound iter0 config_default 300 (fun _ => f64_of_Z 1) (fun _ => ("", "")%string)
    (one_worker 0) [] (Ok []) (with_barrier true (one_worker 0), [])) as (H1 & _ & H2 & _).
  - constructor.
  - vm_compute. reflexivity.
  - apply rtc_refl.
  - split; [exact H1|exact H2].
Defined.

(** ** What the code does not give *)

(** A heartbeat under another wrapper is answered as ignored, but its process id was stored: the process that a
    cancellation signals and that the stuck detector watches is then the stranger's. *)
Definition owned_build : BuildHistory.t :=
  snd (start_active_build_with_wrapper "p" "css" [] 41 (Some "lw-1"%string) 4 Remote noon (BuildHistory.new 1 100)).

Definition stranger : BuildHeartbeatRequest :=
  {| hb_build_id := epoch_id 1; hb_worker_id := "css"; hb_hook_pid := Some 99; hb_local_wrapper_id := Some "lw-2"%string;
     hb_remote_pgid_file := None; phase := Execute; detail := None; progress_counter := None; progress_percent := None |}.

Theorem foreign_heartbeat_moves_pid :
  fst (record_build_heartbeat stranger noon owned_build) = None /\
  hook_pid <$> active (snd (record_build_heartbeat stranger noon owned_build)) !! epoch_id 1 = Some 99.
Proof. split; vm_compute; reflexivity. Qed.

(** A reload reads that a worker is idle and removes it in two steps.  A build that starts in between stays active on
    a worker that is gone; when the configuration brings the worker back, the release of that build frees the slots
    of another one. *)
Definition readded : Daemon.t :=
  with_pool (at_moment noon (WorkerPool.add_worker (WorkerState.config (WorkerState.sample_worker 8 0))
               (pool (retire "css" building)))) (retire "css" building).
Definition other_building : Daemon.t :=
  snd (register (ask "other") 42 "css" noon (snd (reserve (reference "css" readded) 4 noon readded))).
Definition first_released : Daemon.t := handle_release_worker iter0 give_back noon other_building.

Theorem reload_race_frees_others :
  used_on "css" (one_worker 0) = 0 /\ used_on "css" other_building = 4 /\ size (active (history other_building)) = 2%nat /\
  used_on "css" first_released = 0 /\ running "css" (active (history first_released)) = 4.
Proof. split_and!; vm_compute; reflexivity. Qed.

End BuildRaces.
