(* ===== verification/Gate.v ===== *)
(** * Worker risk: disk pressure, headroom, admission and reliability

    The verdicts the selector of Selection.v asks for before it ranks a worker.  [Pressure]
    is the disk pressure policy (rchd/src/disk_pressure.rs), [Headroom] the estimator with
    its reservations (rchd/src/headroom.rs), [Gate] the admission gate with its hysteresis
    (rchd/src/admission.rs), and [Reliability] the aggregator of all signals with its
    quarantine (rchd/src/reliability.rs).

    An evaluation of the gate takes its locks one after the other, and other evaluations and
    resets may come in between: [GateFacts] interleaves them at these points and shows that the
    gate, a handful of counters, decides exactly what the history of decisions implies, as long
    as no refusal lands between the two halves of an admission.  [ReliabilityFacts] shows the
    same of the quarantine, whose update is one acquisition of its lock.

    Instants are nanoseconds.  Texts for people and metrics are left out. *)

From stdpp Require Import base gmap list strings.
From Stdlib Require Import ZArith Lia.
From Corelib Require Import SpecFloat.
From S2P Require Import Prelude Floats Text Circuit Worker Selection Builds Cancellation.

Abbreviation PressureState := Selection.Selector.PressureState.
Abbreviation Healthy := Selection.Selector.PressureHealthy.
Abbreviation Warning := Selection.Selector.PressureWarning.
Abbreviation Critical := Selection.Selector.PressureCritical.
Abbreviation TelemetryGap := Selection.Selector.TelemetryGap.

#[local] Existing Instance Selection.Selector.PressureState_eq_dec.

Module Pressure.

Inductive PressureConfidence := High | Medium | Low.

Record PressureAssessment := {
  state : PressureState;
  confidence : PressureConfidence;
  reason_code : string;
  policy_rule : string;
  disk_free_gb : option f64;
  disk_total_gb : option f64;
  disk_free_ratio : option f64;
  disk_io_util_pct : option f64;
  memory_pressure : option f64;
  telemetry_age_secs : option Z;
  telemetry_fresh : bool;
  evaluated_at_unix_ms : Z;
}.

Definition assessment_default (now_ms : Z) : PressureAssessment :=
  {| state := TelemetryGap; confidence := Low; reason_code := "pressure_not_evaluated";
     policy_rule := "default_uninitialized"; disk_free_gb := None; disk_total_gb := None;
     disk_free_ratio := None; disk_io_util_pct := None; memory_pressure := None;
     telemetry_age_secs := None; telemetry_fresh := false; evaluated_at_unix_ms := now_ms |}.

Record DiskPressurePolicyConfig := {
  telemetry_stale_after_secs : Z;
  warning_free_gb : f64; critical_free_gb : f64;
  warning_free_ratio : f64; critical_free_ratio : f64;
  warning_disk_io_util_pct : f64; critical_disk_io_util_pct : f64;
  warning_memory_pressure : f64; critical_memory_pressure : f64;
}.

Definition policy_default : DiskPressurePolicyConfig :=
  {| telemetry_stale_after_secs := 90;
     warning_free_gb := f64_of_Z 25; critical_free_gb := f64_of_Z 10;
     warning_free_ratio := lit 12 100; critical_free_ratio := lit 5 100;
     warning_disk_io_util_pct := f64_of_Z 85; critical_disk_io_util_pct := f64_of_Z 95;
     warning_memory_pressure := f64_of_Z 80; critical_memory_pressure := f64_of_Z 92 |}.

(** What the policy reads of the latest sample of a worker. *)
Record ReceivedTelemetry := {
  received_at : Z;                          (* epoch milliseconds *)
  pressure_score : f64;
  max_io_utilization_pct : option f64;
}.

Definition decision : Type := PressureState * PressureConfidence * string * string.

Definition reaches (limit : f64) (v : option f64) : bool := from_option (fun x => f64_ge x limit) false v.

Definition saturated (config : DiskPressurePolicyConfig) (free : f64) (io : option f64) : bool :=
  from_option (fun util => f64_ge util (critical_disk_io_util_pct config) && f64_le free (warning_free_gb config)) false io.

Definition classify_with_fresh_telemetry (free ratio : f64) (io memory : option f64)
    (config : DiskPressurePolicyConfig) : decision :=
  if f64_le free (critical_free_gb config) then
    (Critical, High, "disk_free_below_critical_gb", "disk_free_gb<=critical_free_gb")%string
  else if f64_le ratio (critical_free_ratio config) then
    (Critical, High, "disk_ratio_below_critical", "disk_free_ratio<=critical_free_ratio")%string
  else if saturated config free io then
    (Critical, High, "disk_io_saturated_with_low_headroom",
     "disk_io>=critical && disk_free_gb<=warning_free_gb")%string
  else if reaches (critical_memory_pressure config) memory then
    (Critical, High, "memory_pressure_critical", "memory_pressure>=critical_memory_pressure")%string
  else if f64_le free (warning_free_gb config) then
    (Warning, High, "disk_free_below_warning_gb", "disk_free_gb<=warning_free_gb")%string
  else if f64_le ratio (warning_free_ratio config) then
    (Warning, High, "disk_ratio_below_warning", "disk_free_ratio<=warning_free_ratio")%string
  else if reaches (warning_disk_io_util_pct config) io then
    (Warning, High, "disk_io_high", "disk_io>=warning_disk_io_util_pct")%string
  else if reaches (warning_memory_pressure config) memory then
    (Warning, High, "memory_pressure_warning", "memory_pressure>=warning_memory_pressure")%string
  else (Healthy, High, "pressure_healthy", "all_pressure_rules_within_threshold")%string.

Definition classify_without_fresh_telemetry (free ratio : f64) (config : DiskPressurePolicyConfig) : decision :=
  if f64_le free (critical_free_gb config) || f64_le ratio (critical_free_ratio config) then
    (Critical, Medium, "disk_critical_without_fresh_telemetry", "disk_threshold_breach_without_telemetry")%string
  else if f64_le free (warning_free_gb config) || f64_le ratio (warning_free_ratio config) then
    (Warning, Medium, "disk_warning_without_fresh_telemetry", "disk_warning_threshold_without_telemetry")%string
  else (TelemetryGap, Low, "telemetry_unavailable", "fail_open_telemetry_gap")%string.

(** The share of the disk that is free, where both numbers are known. *)
Definition free_ratio (free total : option f64) : option f64 :=
  match free, total with
  | Some f, Some t =>
      if f64_gt t (f64_of_Z 0) then Some (f64_clamp (f64_div f t) (f64_of_Z 0) (f64_of_Z 1)) else None
  | _, _ => None
  end.

(** [num_seconds] truncates, and a sample from the future has no age. *)
Definition age_secs (now_ms : Z) (t : ReceivedTelemetry) : Z := Z.max 0 (Z.quot (now_ms - received_at t) 1000).

Definition evaluate_pressure_policy (free total : option f64) (latest : option ReceivedTelemetry)
    (config : DiskPressurePolicyConfig) (now_ms : Z) : PressureAssessment :=
  let ratio := free_ratio free total in
  let age := age_secs now_ms <$> latest in
  let fresh := from_option (fun a => a <=? telemetry_stale_after_secs config) false age in
  let memory := pressure_score <$> latest in
  let io := latest ≫= max_io_utilization_pct in
  let '(state, confidence, reason, rule) :=
    match free, total with
    | Some f, Some _ =>
        if fresh then classify_with_fresh_telemetry f (default (f64_of_Z 0) ratio) io memory config
        else classify_without_fresh_telemetry f (default (f64_of_Z 0) ratio) config
    | _, _ => (TelemetryGap, Low, "disk_metrics_unavailable", "fail_open_missing_disk_metrics")%string
    end in
  {| state := state; confidence := confidence; reason_code := reason; policy_rule := rule;
     disk_free_gb := free; disk_total_gb := total; disk_free_ratio := ratio;
     disk_io_util_pct := io; memory_pressure := memory; telemetry_age_secs := age;
     telemetry_fresh := fresh; evaluated_at_unix_ms := now_ms |}.

End Pressure.

Module Headroom.
Import BuildHistory.

Record HeadroomConfig := {
  default_build_size_gb : f64; safety_multiplier : f64; max_sample_size : nat; floor_free_gb : f64;
  use_historical_data : bool;
}.

Definition headroom_default : HeadroomConfig :=
  {| default_build_size_gb := f64_of_Z 5; safety_multiplier := lit 15 10; max_sample_size := 20;
     floor_free_gb := f64_of_Z 10; use_historical_data := true |}.

Record HeadroomEstimate := {
  min_gb : f64; expected_gb : f64; max_gb : f64; estimate_confidence : f64; sample_count : nat; is_fallback : bool;
}.

Record HeadroomDecision := {
  sufficient : bool; estimate : HeadroomEstimate; free_gb : f64; reserved_gb : f64; effective_free_gb : f64;
  floor_gb : f64; headroom_reason_code : string;
}.

Record Reservation := { res_worker_id : string; res_reserved_gb : f64; res_project_id : string }.

(** The reservations by build. *)
Abbreviation reservations := (gmap Z Reservation).

(** [iter().sum::<f64>()]. *)
Definition f64_sum (l : list f64) : f64 := fold_left f64_add l (f64_of_Z 0).

Definition fallback_estimate (config : HeadroomConfig) : HeadroomEstimate :=
  let d := default_build_size_gb config in
  {| min_gb := f64_mul d (lit 5 10); expected_gb := f64_mul d (safety_multiplier config);
     max_gb := f64_mul (f64_mul d (safety_multiplier config)) (f64_of_Z 2);
     estimate_confidence := lit 2 10; sample_count := 0; is_fallback := true |}.

(** The sizes of the successful remote builds among those sampled, in gigabytes. *)
Definition transfer_sizes (builds : list BuildRecord) : list f64 :=
  (fun bytes => f64_div (f64_of_Z bytes) (f64_of_Z (2 ^ 30)))
  <$> omap r_bytes_transferred
        (List.filter (fun b => bool_decide (r_location b = Remote) && (r_exit_code b =? 0)) builds).

(** [powi(2)] is a product, [sqrt] is rounded correctly. *)
Definition variance (sizes : list f64) (mean : f64) : f64 :=
  if Nat.ltb 1 (length sizes) then
    f64_div (f64_sum ((fun x => f64_mul (f64_sub x mean) (f64_sub x mean)) <$> sizes))
            (f64_of_Z (Z.of_nat (length sizes - 1)))
  else f64_of_Z 0.

Definition estimate_build_headroom (config : HeadroomConfig) (history : BuildHistory.t) (project : string) :
    HeadroomEstimate :=
  if negb (use_historical_data config) then fallback_estimate config
  else
    match transfer_sizes (by_project project (max_sample_size config) history) with
    | [] => fallback_estimate config
    | sizes =>
        let n := length sizes in
        let mean := f64_div (f64_sum sizes) (f64_of_Z (Z.of_nat n)) in
        let std_dev := SFsqrt 53 1024 (variance sizes mean) in
        {| min_gb := f64_mul (f64_max (f64_sub mean std_dev) (lit 1 10)) (safety_multiplier config);
           expected_gb := f64_mul mean (safety_multiplier config);
           max_gb := f64_mul (f64_add mean (f64_mul (f64_of_Z 2) std_dev)) (safety_multiplier config);
           estimate_confidence :=
             f64_sub (f64_of_Z 1) (f64_div (f64_of_Z 1) (f64_add (f64_of_Z (Z.of_nat n)) (f64_of_Z 1)));
           sample_count := n; is_fallback := false |}
    end.

Section estimator.
(** The order in which the reservations are iterated. *)
Context (iter : reservations -> list (Z * Reservation)).

Definition total_reserved_for_worker (worker : string) (m : reservations) : f64 :=
  f64_sum (res_reserved_gb
           <$> List.filter (fun r => bool_decide (res_worker_id r = worker)) (snd <$> iter m)).

Definition required_gb (config : HeadroomConfig) (e : HeadroomEstimate) : f64 :=
  f64_add (expected_gb e) (floor_free_gb config).

Definition check_headroom (config : HeadroomConfig) (history : BuildHistory.t) (m : reservations)
    (worker project : string) (disk_free_gb : f64) : HeadroomDecision :=
  let e := estimate_build_headroom config history project in
  let reserved := total_reserved_for_worker worker m in
  let effective := f64_sub disk_free_gb reserved in
  let enough := f64_ge effective (required_gb config e) in
  {| sufficient := enough; estimate := e; free_gb := disk_free_gb; reserved_gb := reserved;
     effective_free_gb := effective; floor_gb := floor_free_gb config;
     headroom_reason_code := if enough then "headroom_sufficient" else "headroom_insufficient" |}.

Definition headroom_score (config : HeadroomConfig) (history : BuildHistory.t) (m : reservations)
    (worker project : string) (disk_free_gb : f64) : f64 :=
  let e := estimate_build_headroom config history project in
  let effective := f64_sub disk_free_gb (total_reserved_for_worker worker m) in
  let required := required_gb config e in
  if f64_le required (f64_of_Z 0) then f64_of_Z 1
  else f64_clamp (f64_div (f64_div effective required) (f64_of_Z 2)) (f64_of_Z 0) (f64_of_Z 1).

End estimator.

Definition reserve (config : HeadroomConfig) (history : BuildHistory.t) (build : Z) (worker project : string)
    (m : reservations) : f64 * reservations :=
  let gb := expected_gb (estimate_build_headroom config history project) in
  (gb, <[build := {| res_worker_id := worker; res_reserved_gb := gb; res_project_id := project |}]> m).

Definition release (build : Z) (m : reservations) : option f64 * reservations :=
  (res_reserved_gb <$> m !! build, delete build m).

End Headroom.

Module Gate.
Import Pressure.

Record AdmissionConfig := {
  min_headroom_score : f64;
  warning_pressure_penalty : f64;
  telemetry_gap_penalty : f64;
  hysteresis_recover_count : Z;             (* u32 *)
  hysteresis_cooldown : Z;
}.

Definition admission_default : AdmissionConfig :=
  {| min_headroom_score := lit 2 10; warning_pressure_penalty := lit 4 10; telemetry_gap_penalty := lit 15 100;
     hysteresis_recover_count := 3; hysteresis_cooldown := 30 * 1000000000 |}.

Inductive AdmissionVerdict :=
  | Admit (pressure_penalty headroom_score : f64)
  | Reject (reason_code : string).

Definition is_admitted (v : AdmissionVerdict) : bool := match v with Admit _ _ => true | Reject _ => false end.

Definition pressure_penalty (v : AdmissionVerdict) : f64 :=
  match v with Admit p _ => p | Reject _ => f64_of_Z 1 end.

Record WorkerHysteresis := {
  last_admitted : bool;
  last_rejected_at : option Z;
  consecutive_healthy : Z;                  (* u32 *)
}.

Definition hysteresis_default : WorkerHysteresis :=
  {| last_admitted := true; last_rejected_at := None; consecutive_healthy := 0 |}.

Record t := {
  hysteresis : gmap string WorkerHysteresis;
  latest_verdicts : gmap string AdmissionVerdict;
}.

Definition new : t := {| hysteresis := ∅; latest_verdicts := ∅ |}.

(** The operations from here to [is_hysteresis_blocked] run under one lock each. *)

Definition begin_round (g : t) : t := {| hysteresis := hysteresis g; latest_verdicts := ∅ |}.

Definition cache_verdict (w : string) (v : AdmissionVerdict) (g : t) : t :=
  {| hysteresis := hysteresis g; latest_verdicts := <[w := v]> (latest_verdicts g) |}.

Definition entry (w : string) (g : t) : WorkerHysteresis := default hysteresis_default (hysteresis g !! w).

Definition set_entry (w : string) (e : WorkerHysteresis) (g : t) : t :=
  {| hysteresis := <[w := e]> (hysteresis g); latest_verdicts := latest_verdicts g |}.

Definition record_rejection (now : Z) (w : string) (g : t) : t :=
  set_entry w {| last_admitted := false; last_rejected_at := Some now; consecutive_healthy := 0 |} g.

Definition record_admission (w : string) (g : t) : t :=
  let e := entry w g in
  set_entry w {| last_admitted := true; last_rejected_at := last_rejected_at e;
                 consecutive_healthy := sat_add 32 (consecutive_healthy e) 1 |} g.

(** Whether the cooldown of the last rejection runs. *)
Definition cooling (config : AdmissionConfig) (now : Z) (e : WorkerHysteresis) : bool :=
  match last_rejected_at e with
  | Some at_ => sat_sub now at_ <? hysteresis_cooldown config
  | None => false
  end.

Definition is_hysteresis_blocked (config : AdmissionConfig) (now : Z) (w : string) (g : t) : bool * t :=
  let e := entry w g in
  if last_admitted e then (false, set_entry w e g)
  else if cooling config now e then (true, set_entry w e g)
  else
    let n := sat_add 32 (consecutive_healthy e) 1 in
    if hysteresis_recover_count config <=? n then
      (false, set_entry w {| last_admitted := true; last_rejected_at := None; consecutive_healthy := 0 |} g)
    else
      (true, set_entry w {| last_admitted := false; last_rejected_at := last_rejected_at e;
                            consecutive_healthy := n |} g).

Definition penalty_of (config : AdmissionConfig) (s : PressureState) : f64 :=
  match s with
  | Warning => warning_pressure_penalty config
  | TelemetryGap => telemetry_gap_penalty config
  | Healthy | Critical => f64_of_Z 0
  end.

(** An evaluation between two acquisitions of the gate's locks: it has read the pressure and
    has the headroom score at hand, it passed the hysteresis and has its admission to record,
    it has its verdict to cache, or it has returned.  [score] is the headroom score of the disk
    space the assessment names, or of none. *)
Inductive stage :=
  | Entering (score : f64 -> f64) (p : PressureAssessment)
  | Admitting (v : AdmissionVerdict)
  | Caching (v : AdmissionVerdict)
  | Returned (v : AdmissionVerdict).

(** What an evaluation of worker [w] does under its next lock, at the time [now]. *)
Definition proceed (config : AdmissionConfig) (now : Z) (w : string) (e : stage) (g : t) : stage * t :=
  match e with
  | Entering score p =>
      if bool_decide (state p = Critical) then
        (Caching (Reject "admission_critical_pressure"), record_rejection now w g)
      else
        let h := score (default (f64_of_Z 0) (disk_free_gb p)) in
        if f64_lt h (min_headroom_score config) then
          (Caching (Reject "admission_insufficient_headroom"), record_rejection now w g)
        else
          let (blocked, g) := is_hysteresis_blocked config now w g in
          if blocked then (Caching (Reject "admission_hysteresis_cooldown"), g)
          else (Admitting (Admit (penalty_of config (state p)) h), g)
  | Admitting v => (Caching v, record_admission w g)
  | Caching v => (Returned v, cache_verdict w v g)
  | Returned v => (Returned v, g)
  end.

(** An evaluation that nothing interrupts, under the same time throughout. *)
Definition evaluate (config : AdmissionConfig) (score : f64 -> f64) (p : PressureAssessment) (now : Z) (w : string)
    (g : t) : stage * t :=
  let (e, g) := proceed config now w (Entering score p) g in
  let (e, g) := proceed config now w e g in
  proceed config now w e g.

Definition get_pressure_penalty (w : string) (g : t) : f64 :=
  from_option pressure_penalty (f64_of_Z 0) (latest_verdicts g !! w).

Definition cached_verdict (w : string) (g : t) : option AdmissionVerdict := latest_verdicts g !! w.

Definition worker_hysteresis_state (w : string) (g : t) : option (bool * Z) :=
  (fun e => (last_admitted e, consecutive_healthy e)) <$> hysteresis g !! w.

Definition reset_hysteresis (w : string) (g : t) : t :=
  {| hysteresis := delete w (hysteresis g); latest_verdicts := latest_verdicts g |}.

End Gate.

Module GateFacts.
Import Pressure Gate.

(** ** The gate as a function of what it saw *)

(** The gate and the evaluations in flight or finished, each of one worker. *)
Record system := { gate : Gate.t; evaluations : list (string * stage) }.

Definition idle : system := {| gate := Gate.new; evaluations := [] |}.

(** An evaluation is started, an evaluation takes its next lock, a round begins, or the
    hysteresis of a worker is reset. *)
Inductive event :=
  | Start (w : string) (score : f64 -> f64) (p : PressureAssessment)
  | Proceed (i : nat) (now : Z)
  | BeginRound
  | Reset (w : string).

Section gate.
Context (config : AdmissionConfig).

Definition happen (s : system) (o : event) : system :=
  match o with
  | Start w score p => {| gate := gate s; evaluations := evaluations s ++ [(w, Entering score p)] |}
  | Proceed i now =>
      match evaluations s !! i with
      | Some (w, e) =>
          let (e, g) := proceed config now w e (gate s) in
          {| gate := g; evaluations := <[i := (w, e)]> (evaluations s) |}
      | None => s
      end
  | BeginRound => {| gate := begin_round (gate s); evaluations := evaluations s |}
  | Reset w => {| gate := reset_hysteresis w (gate s); evaluations := evaluations s |}
  end.

Definition run (os : list event) (s : system) : system := fold_left happen os s.

(** What refuses a worker whatever happened before: [None] when nothing does. *)
Definition objection (score : f64 -> f64) (p : PressureAssessment) : option string :=
  if bool_decide (state p = Critical) then Some "admission_critical_pressure"%string
  else if f64_lt (score (default (f64_of_Z 0) (disk_free_gb p))) (min_headroom_score config) then
    Some "admission_insufficient_headroom"%string
  else None.

(** The decision on worker [w] an event makes: when, and whether nothing objected. *)
Definition decision_on (w : string) (s : system) (o : event) : option (Z * bool) :=
  match o with
  | Proceed i now =>
      match evaluations s !! i with
      | Some (w', Entering score p) =>
          if bool_decide (w' = w) then Some (now, bool_decide (objection score p = None)) else None
      | _ => None
      end
  | _ => None
  end.

(** The decisions on a worker since its last reset, newest first. *)
Definition note (w : string) (s : system) (h : list (Z * bool)) (o : event) : list (Z * bool) :=
  match o with
  | Reset w' => if bool_decide (w' = w) then [] else h
  | _ => match decision_on w s o with Some d => d :: h | None => h end
  end.

Fixpoint past (w : string) (os : list event) (s : system) (h : list (Z * bool)) : list (Z * bool) :=
  match os with
  | [] => h
  | o :: os => past w os (happen s o) (note w s h o)
  end.

(** An admission of the worker has passed the hysteresis and is still to be recorded. *)
Definition admitting (w : string) (s : system) : Prop :=
  exists i v, evaluations s !! i = Some (w, Admitting v).

(** No refusal of the worker is recorded while an admission of it is still to be. *)
Fixpoint unraced (w : string) (os : list event) (s : system) : Prop :=
  match os with
  | [] => True
  | o :: os => (admitting w s -> snd <$> decision_on w s o <> Some false) /\ unraced w os (happen s o)
  end.

(** The last refusal, and when the worker passed since. *)
Fixpoint last_refusal (h : list (Z * bool)) : option (Z * list Z) :=
  match h with
  | [] => None
  | (t, false) :: _ => Some (t, [])
  | (t, true) :: h => (fun rl : Z * list Z => (fst rl, t :: snd rl)) <$> last_refusal h
  end.

(** The passes that count towards recovery. *)
Definition credits (r : Z) (l : list Z) : Z :=
  Z.of_nat (length (List.filter (fun t => hysteresis_cooldown config <=? sat_sub t r) l)).

Definition recovered (r : Z) (l : list Z) : bool :=
  Z.max 1 (hysteresis_recover_count config) <=? credits r l.

(** A worker that was never refused passes at once; after a refusal it needs its passes
    after the cooldown, this one among them. *)
Definition trusted (h : list (Z * bool)) (now : Z) : bool :=
  match last_refusal h with None => true | Some (r, l) => recovered r (now :: l) end.

(** What the entry of a worker says of its past. *)
Definition tells (e : WorkerHysteresis) (h : list (Z * bool)) : Prop :=
  match last_refusal h with
  | None => last_admitted e = true
  | Some (r, l) =>
      if recovered r l then last_admitted e = true
      else last_admitted e = false /\ last_rejected_at e = Some r /\ consecutive_healthy e = credits r l
  end.

Lemma credits_cons r t l :
  credits r (t :: l) = (if hysteresis_cooldown config <=? sat_sub t r then 1 else 0) + credits r l.
Proof. unfold credits. cbn. destruct (_ <=? _); cbn [length]; lia. Qed.

Lemma recovered_cons r t l : recovered r l = true -> recovered r (t :: l) = true.
Proof. unfold recovered. rewrite credits_cons. destruct (_ <=? sat_sub _ _); lia. Qed.

Lemma entry_set w e w' g : entry w' (set_entry w e g) = if bool_decide (w = w') then e else entry w' g.
Proof.
  unfold entry, set_entry. cbn. case_bool_decide as Hw; [subst; by rewrite lookup_insert_eq|].
  by rewrite lookup_insert_ne.
Qed.

Lemma entry_cache w v w' g : entry w' (cache_verdict w v g) = entry w' g.
Proof. done. Qed.

Hypothesis counted : is_u32 (hysteresis_recover_count config).

(** The hysteresis lock answers what the past implies, and keeps telling it. *)
Lemma blocked_exact now w g h :
  tells (entry w g) h ->
  fst (is_hysteresis_blocked config now w g) = negb (trusted h now) /\
  tells (entry w (snd (is_hysteresis_blocked config now w g))) ((now, true) :: h) /\
  (forall w', w' <> w -> entry w' (snd (is_hysteresis_blocked config now w g)) = entry w' g).
Proof.
  intros Ht. unfold is_hysteresis_blocked, trusted, tells in *. cbn [last_refusal].
  assert (Ho : forall e w', w' <> w -> entry w' (set_entry w e g) = entry w' g).
  { intros e w' Hw. rewrite entry_set. by case_bool_decide; [subst|]. }
  destruct (last_refusal h) as [[r l]|]; cbn [fmap option_fmap option_map fst snd].
  2:{ rewrite Ht. cbn. rewrite entry_set, bool_decide_eq_true_2 by done. by split_and!; eauto. }
  destruct (recovered r l) eqn:Er.
  { rewrite Ht. cbn. rewrite entry_set, bool_decide_eq_true_2, recovered_cons by done. by split_and!; eauto. }
  destruct Ht as (Hl & Hr & Hc). unfold cooling. rewrite Hl, Hr, Hc.
  unfold recovered in *. rewrite credits_cons. unfold in_u in counted.
  destruct (Z.ltb_spec (sat_sub now r) (hysteresis_cooldown config)).
  - destruct (Z.leb_spec (hysteresis_cooldown config) (sat_sub now r)); [lia|]. cbn [fst snd].
    rewrite Z.add_0_l, Er. rewrite entry_set, bool_decide_eq_true_2 by done. by split_and!; eauto.
  - destruct (Z.leb_spec (hysteresis_cooldown config) (sat_sub now r)); [|lia].
    assert (0 <= credits r l) by (unfold credits; lia).
    assert (Hn : sat_add 32 (credits r l) 1 = 1 + credits r l) by (unfold sat_add; lia). rewrite Hn.
    assert (He : (hysteresis_recover_count config <=? 1 + credits r l)
                 = (Z.max 1 (hysteresis_recover_count config) <=? 1 + credits r l)).
    { by destruct (Z.leb_spec (hysteresis_recover_count config) (1 + credits r l)),
        (Z.leb_spec (Z.max 1 (hysteresis_recover_count config)) (1 + credits r l)); try lia. }
    rewrite He. destruct (Z.max 1 _ <=? 1 + credits r l); cbn [fst snd];
      rewrite entry_set, bool_decide_eq_true_2 by done; by split_and!; eauto.
Qed.

Lemma blocked_admits now w g :
  fst (is_hysteresis_blocked config now w g) = negb (last_admitted (entry w (snd (is_hysteresis_blocked config now w g)))).
Proof.
  unfold is_hysteresis_blocked. destruct (last_admitted (entry w g)) eqn:E; [|destruct (cooling config now (entry w g))].
  1,2: cbn [fst snd]; by rewrite entry_set, bool_decide_eq_true_2, E.
  destruct (_ <=? _); cbn [fst snd]; by rewrite entry_set, bool_decide_eq_true_2.
Qed.

(** A lock taken for one worker leaves the others. *)
Lemma proceed_other now w' e g w : w' <> w -> entry w (snd (proceed config now w' e g)) = entry w g.
Proof.
  intros Hne. assert (Hd : forall g e, entry w (set_entry w' e g) = entry w g).
  { intros. rewrite entry_set. by case_bool_decide. }
  destruct e as [score p|v|v|v]; cbn; [|apply Hd|done|done].
  unfold record_rejection. case_bool_decide; [apply Hd|]. destruct (f64_lt _ _); [apply Hd|]. unfold is_hysteresis_blocked.
  destruct (last_admitted (entry w' g)); cbn; [by rewrite Hd|].
  destruct (cooling config now (entry w' g)); cbn; [by rewrite Hd|]. destruct (_ <=? _); cbn; by rewrite Hd.
Qed.

(** The verdict the past of a worker implies. *)
Definition implied (h : list (Z * bool)) (score : f64 -> f64) (p : PressureAssessment) (now : Z) : AdmissionVerdict :=
  match objection score p with
  | Some why => Reject why
  | None => if trusted h now then Admit (penalty_of config (state p)) (score (default (f64_of_Z 0) (disk_free_gb p)))
            else Reject "admission_hysteresis_cooldown"
  end.

Definition verdict_of (e : stage) : option AdmissionVerdict :=
  match e with Entering _ _ => None | Admitting v | Caching v | Returned v => Some v end.

(** The entry tells the past, and says admitted while an admission is to be recorded. *)
Definition faithful (w : string) (s : system) (h : list (Z * bool)) : Prop :=
  tells (entry w (gate s)) h /\ (admitting w s -> last_admitted (entry w (gate s)) = true).

Lemma tells_rejected now w g h :
  tells (entry w (record_rejection now w g)) ((now, false) :: h).
Proof.
  unfold record_rejection. rewrite entry_set, bool_decide_eq_true_2 by done. unfold tells. cbn. unfold recovered.
  change (credits now []) with 0. by destruct (Z.leb_spec (Z.max 1 (hysteresis_recover_count config)) 0); [lia|].
Qed.

(** A decision is the implied one. *)
Lemma entering_exact now w score p g h :
  tells (entry w g) h ->
  let r := proceed config now w (Entering score p) g in
  verdict_of (fst r) = Some (implied h score p now)
  /\ tells (entry w (snd r)) ((now, bool_decide (objection score p = None)) :: h)
  /\ ((exists v, fst r = Admitting v) <-> objection score p = None /\ trusted h now = true)
  /\ (objection score p = None -> last_admitted (entry w (snd r)) = trusted h now).
Proof.
  intros Ht. cbn zeta. unfold proceed, implied, objection.
  case_bool_decide; [|destruct (f64_lt _ _)].
  1,2: cbn [fst snd verdict_of]; rewrite bool_decide_eq_false_2 by done; split_and!; [done|apply tells_rejected| |done];
    split; [by intros [? ?]|by intros [? _]].
  destruct (blocked_exact now w g h Ht) as (Hb & Hs & _). pose proof (blocked_admits now w g) as Ha.
  destruct (is_hysteresis_blocked config now w g) as [blocked g']. cbn [fst snd] in *.
  rewrite bool_decide_eq_true_2 by done. rewrite Ha in Hb. apply (f_equal negb) in Hb. rewrite !negb_involutive in Hb. rewrite Hb in Ha. subst blocked.
  destruct (trusted h now); cbn [negb fst snd verdict_of]; (split_and!; [done|done| |done]).
  - split; [done|]. intros _. by eexists.
  - split; [by intros [? ?]|by intros [_ ?]].
Qed.

Lemma tells_admitted w g h : last_admitted (entry w g) = true -> tells (entry w g) h ->
  tells (entry w (record_admission w g)) h.
Proof.
  intros Ha. unfold record_admission. rewrite entry_set, bool_decide_eq_true_2 by done. unfold tells.
  destruct (last_refusal h) as [[r l]|]; [|done]. destruct (recovered r l); [done|]. intros [? _]. congruence.
Qed.

Lemma admitting_insert w s i x g :
  admitting w {| gate := g; evaluations := <[i := x]> (evaluations s) |} ->
  (exists v, x = (w, Admitting v)) \/ admitting w s.
Proof.
  intros (j & v & Hj). cbn in Hj. apply list_lookup_insert_Some in Hj as [(_ & Hx & _)|[_ Hj]];
    [left|right]; [by exists v|by exists j, v].
Qed.

Lemma faithful_happen w s h o :
  faithful w s h -> (admitting w s -> snd <$> decision_on w s o <> Some false) -> faithful w (happen s o) (note w s h o).
Proof.
  intros [Ht Ha] Hrace. destruct o as [w' score p|i now| |w']; cbn [happen note decision_on].
  - split; [done|]. intros (j & v & Hj). apply Ha. exists j, v. cbn in Hj.
    apply lookup_snoc_Some in Hj as [[_ Hj]|[_ Hj]]; done.
  - unfold decision_on in Hrace. destruct (evaluations s !! i) as [[w' e]|] eqn:Ei; [|done].
    destruct (proceed config now w' e (gate s)) as [e' g'] eqn:Ep.
    destruct (decide (w' = w)) as [->|Hne].
    2:{ assert (He : entry w g' = entry w (gate s)) by (rewrite <- (proceed_other now w' e (gate s) w Hne), Ep; done).
        destruct e; rewrite ?bool_decide_eq_false_2 by done; (split; cbn; rewrite He; [done|]);
          intros [[? [=]]|Hadm]%admitting_insert; by auto. }
    destruct e as [score p|v|v|v].
    + rewrite bool_decide_eq_true_2 in * by done.
      destruct (entering_exact now w score p (gate s) h Ht) as (_ & Ht' & Hadm & Hl). rewrite Ep in Ht', Hadm, Hl.
      cbn [fst snd] in *. split; [done|]. cbn [gate]. intros [[v [= Hv]]|Hold]%admitting_insert.
      * destruct (proj1 Hadm (ex_intro _ v Hv)) as [Ho Htr]. by rewrite Hl, Htr.
      * specialize (Hrace Hold). cbn in Hrace. case_bool_decide as Ho; [|done].
        rewrite (Hl Ho). revert Ht. specialize (Ha Hold). unfold tells, trusted.
        destruct (last_refusal h) as [[r l]|]; [|done]. destruct (recovered r l) eqn:Er; [by rewrite recovered_cons|].
        intros [? _]. congruence.
    + assert (Hla : last_admitted (entry w (gate s)) = true) by (apply Ha; by exists i, v).
      cbn in Ep. simplify_eq. split; cbn [gate]; [by apply tells_admitted|]. intros _. unfold record_admission.
      by rewrite entry_set, bool_decide_eq_true_2.
    + cbn in Ep. simplify_eq. split; [done|]. by intros [[v' [=]]|Hold]%admitting_insert; auto.
    + cbn in Ep. simplify_eq. split; [done|]. by intros [[v' [=]]|Hold]%admitting_insert; auto.
  - by split.
  - unfold faithful, entry, reset_hysteresis. cbn. case_bool_decide as Hw.
    + subst. rewrite lookup_delete_eq. by split.
    + rewrite lookup_delete_ne by done. by split.
Qed.

Lemma faithful_run w os s h :
  faithful w s h -> unraced w os s -> faithful w (run os s) (past w os s h).
Proof.
  revert s h. induction os as [|o os IH]; intros s h Hf; [done|]. intros [Hr Hu]. cbn.
  apply IH; [|done]. by apply faithful_happen.
Qed.

(** A verdict, once made, is the one of its evaluation for good. *)
Lemma verdict_kept os s i w e v :
  evaluations s !! i = Some (w, e) -> verdict_of e = Some v ->
  exists e', evaluations (run os s) !! i = Some (w, e') /\ verdict_of e' = Some v.
Proof.
  revert s e. induction os as [|o os IH]; intros s e Hi Hv; [by exists e|]. cbn [run fold_left].
  assert (exists e', evaluations (happen s o) !! i = Some (w, e') /\ verdict_of e' = Some v) as (e' & He & Hv'); [|by apply (IH _ e')].
  destruct o as [w' score p|j now| |w']; cbn; [|..|by exists e|by exists e].
  - exists e. split; [by apply lookup_app_l_Some|done].
  - destruct (evaluations s !! j) as [[w' e1]|] eqn:Ej; [|by exists e].
    destruct (proceed config now w' e1 (gate s)) as [e2 g2] eqn:Ep. cbn.
    destruct (decide (j = i)) as [->|Hne]; [|exists e; by rewrite list_lookup_insert_ne].
    simplify_eq. exists e2. rewrite list_lookup_insert_eq by (by eapply lookup_lt_Some). split; [done|].
    destruct e; cbn in Ep; simplify_eq/=; done.
Qed.

End gate.

(** C37: The admission gate decides exactly what its history implies.  Evaluations of any workers run at the same time,
    interleaved at their acquisitions of the gate's locks with each other, with rounds and with resets.  As long as no
    refusal of the worker is recorded between the two halves of an admission of it, its hysteresis check and the record of
    the admission, an evaluation decides this: the worker is refused for critical pressure or missing headroom when it
    has them; otherwise it is admitted when it was never so refused since its last reset, or when it passed the required
    number of evaluations, this one included, after the cooldown of the last refusal, in the order in which the
    decisions were made.  Whatever happens then, this is the verdict the evaluation returns, and the one it caches.  (A
    refusal between the two halves is overwritten, [refusal_forgotten_in_race].) *)
Theorem admission_exact config os i w score p now rest :
  is_u32 (hysteresis_recover_count config) ->
  unraced config w os idle -> evaluations (run config os idle) !! i = Some (w, Entering score p) ->
  let s := run config (os ++ Proceed i now :: rest) idle in
  let v := implied config (past config w os idle []) score p now in
  exists e, evaluations s !! i = Some (w, e) /\ verdict_of e = Some v
    /\ forall later, e = Caching v ->
          evaluations (happen config s (Proceed i later)) !! i = Some (w, Returned v)
          /\ cached_verdict w (gate (happen config s (Proceed i later))) = Some v.
Proof.
  intros Hc Hu Hi. cbn zeta. unfold run. rewrite fold_left_app. cbn [fold_left]. fold (run config os idle).
  destruct (faithful_run config Hc w os idle []) as [Ht _]; [|done|].
  { split; [done|]. by intros (j & v & Hj). }
  set (s1 := happen config (run config os idle) (Proceed i now)).
  assert (exists e, evaluations s1 !! i = Some (w, e) /\ verdict_of e = Some (implied config (past config w os idle []) score p now))
    as (e1 & He1 & Hv1).
  { unfold s1, happen. rewrite Hi.
    destruct (entering_exact config Hc now w score p (gate (run config os idle)) _ Ht) as (Hv & _).
    destruct (proceed _ _ _ _ _) as [e g]. exists e. cbn [evaluations fst] in *. split; [|done].
    apply list_lookup_insert_eq. by eapply lookup_lt_Some. }
  destruct (verdict_kept config rest s1 i w e1 _ He1 Hv1) as (e & He & Hv). exists e. split; [done|]. split; [done|].
  intros later ->. fold (run config rest s1). revert He. generalize (run config rest s1). intros s He.
  unfold happen. rewrite He. cbn [proceed evaluations gate].
  split; [apply list_lookup_insert_eq; by eapply lookup_lt_Some|]. unfold cached_verdict. cbn. by rewrite lookup_insert_eq.
Qed.

(** Two gigabytes free once, then plenty: three passes after the cooldown. *)
Definition at_free (gb : Z) : PressureAssessment :=
  {| state := Healthy; confidence := High; reason_code := "test"; policy_rule := "test";
     disk_free_gb := Some (f64_of_Z gb); disk_total_gb := Some (f64_of_Z 500); disk_free_ratio := None;
     disk_io_util_pct := None; memory_pressure := None; telemetry_age_secs := None; telemetry_fresh := true;
     evaluated_at_unix_ms := 0 |}.
Definition empty_history : BuildHistory.t := BuildHistory.new 1 100.
Definition score_of (free : f64) : f64 :=
  Headroom.headroom_score map_to_list Headroom.headroom_default empty_history ∅ "css" "p" free.
Definition second : Z := 1000000000.

(** An evaluation of worker [w] that nothing interrupts is the whole of it. *)
Definition whole (i : nat) (gb secs : Z) : list event :=
  [Start "css" score_of (at_free gb); Proceed i (secs * second); Proceed i (secs * second); Proceed i (secs * second)].

Definition rounds_after_refusal : list event :=
  whole 0 2 0 ++ [BeginRound] ++ whole 1 200 10 ++ [BeginRound] ++ whole 2 200 31 ++ [BeginRound] ++ whole 3 200 32
  ++ [BeginRound; Start "css" score_of (at_free 200)].

(** Whether nothing races, for a concrete history. *)
Fixpoint unracedb (config : AdmissionConfig) (w : string) (os : list event) (s : system) : bool :=
  match os with
  | [] => true
  | o :: os =>
      negb (existsb (fun e => bool_decide (fst e = w) && match snd e with Admitting _ => true | _ => false end) (evaluations s)
            && bool_decide (snd <$> decision_on config w s o = Some false))
      && unracedb config w os (happen config s o)
  end.

Lemma unracedb_spec config w os s : unracedb config w os s = true -> unraced config w os s.
Proof.
  revert s. induction os as [|o os IH]; intros s; [done|]. cbn. rewrite andb_true_iff, negb_true_iff. intros [Hr Hu].
  split; [|by apply IH]. intros (j & v & Hj) Hd. rewrite (bool_decide_eq_true_2 _ Hd), andb_true_r in Hr.
  enough (existsb (fun e => bool_decide (fst e = w) && match snd e with Admitting _ => true | _ => false end) (evaluations s) = true)
    by congruence.
  apply existsb_exists. exists (w, Admitting v). split; [apply list_elem_of_In; by eapply list_elem_of_lookup_2|].
  cbn. by rewrite bool_decide_eq_true_2.
Qed.

Lemma admission_exact_witness :
  exists e, evaluations (run admission_default (rounds_after_refusal ++ [Proceed 4 (33 * second)]) idle) !! 4%nat = Some ("css"%string, e)
    /\ verdict_of e = Some (Admit (f64_of_Z 0) (f64_of_Z 1)).
Proof.
  destruct (admission_exact admission_default rounds_after_refusal 4 "css" score_of (at_free 200) (33 * second) [])
    as (e & He & Hv & _).
  - unfold in_u. cbn. lia.
  - apply unracedb_spec. vm_compute. reflexivity.
  - reflexivity.
  - exists e. split; [exact He|]. rewrite Hv. vm_compute. reflexivity.
Defined.

(** ** What the gate does not give *)

(** A worker whose disk numbers are missing is a telemetry gap, which the configuration meets with a small penalty; the
    gate takes the unknown space as none and refuses the worker for its headroom. *)
Theorem missing_metrics_refused now_ms now :
  let p := evaluate_pressure_policy None None None policy_default now_ms in
  state p = TelemetryGap /\ policy_rule p = "fail_open_missing_disk_metrics"%string /\
  fst (evaluate admission_default score_of p now "css" Gate.new) = Returned (Reject "admission_insufficient_headroom").
Proof. split_and!; vm_compute; reflexivity. Qed.

(** An admission in two steps forgets a refusal that lands between them: of two evaluations of a worker at the same time
    one passes the hysteresis and the other refuses it, then the first records its admission.  The next evaluation
    admits the worker without any cooldown, though the last decision on it was a refusal a second before. *)
Definition raced : list event :=
  [Start "css" score_of (at_free 200); Start "css" score_of (at_free 2); Proceed 0 (5 * second); Proceed 1 (5 * second);
   Proceed 0 (5 * second); Start "css" score_of (at_free 200); Proceed 2 (6 * second)].

Theorem refusal_forgotten_in_race :
  (fmap snd (evaluations (run admission_default raced idle)) !! 2%nat) = Some (Admitting (Admit (f64_of_Z 0) (f64_of_Z 1)))
  /\ implied admission_default (past admission_default "css" (take 6 raced) idle []) score_of (at_free 200) (6 * second)
     = Reject "admission_hysteresis_cooldown".
Proof. vm_compute. by split. Qed.

(** A round that begins while another one ranks its workers clears the verdicts of both: the penalty of a worker under
    warning is not applied. *)
Theorem penalty_lost_to_other_round now :
  let p := evaluate_pressure_policy (Some (f64_of_Z 20)) (Some (f64_of_Z 100)) None policy_default 0 in
  let g := snd (evaluate admission_default score_of p now "css" Gate.new) in
  state p = Warning /\ get_pressure_penalty "css" g = lit 4 10 /\
  get_pressure_penalty "css" (begin_round g) = f64_of_Z 0.
Proof. split_and!; vm_compute; reflexivity. Qed.

End GateFacts.

Module PressureFacts.
Import Pressure.

Definition severity (s : PressureState) : Z :=
  match s with Healthy => 0 | TelemetryGap => 0 | Warning => 1 | Critical => 2 end.

Definition decided (d : decision) : PressureState := fst (fst (fst d)).

(** At least as much, where a missing measurement says nothing. *)
Definition at_least (a b : option f64) : Prop :=
  match a, b with
  | Some x, Some y => f64_le x y = true
  | None, _ => True
  | Some _, None => False
  end.

Lemma reaches_mono limit a b : at_least a b -> reaches limit a = true -> reaches limit b = true.
Proof.
  destruct a as [a|], b as [b|]; cbn; try done. unfold f64_ge, f64_le. intros Hab Ha.
  by eapply FloatFacts.f64_le_trans.
Qed.

(** Less space, a smaller share of the disk, more traffic or more memory pressure never make a worker look better. *)
Theorem pressure_monotone config free free' ratio ratio' io io' memory memory' :
  f64_le free' free = true -> f64_le ratio' ratio = true -> at_least io io' -> at_least memory memory' ->
  severity (decided (classify_with_fresh_telemetry free ratio io memory config))
  <= severity (decided (classify_with_fresh_telemetry free' ratio' io' memory' config)).
Proof.
  intros Hf Hr Hi Hm.
  assert (Lf : forall l, f64_le free l = true -> f64_le free' l = true) by (intros; by eapply FloatFacts.f64_le_trans).
  assert (Lr : forall l, f64_le ratio l = true -> f64_le ratio' l = true) by (intros; by eapply FloatFacts.f64_le_trans).
  pose proof (fun l => reaches_mono l _ _ Hi) as Li. pose proof (fun l => reaches_mono l _ _ Hm) as Lm.
  assert (Ls : saturated config free io = true -> saturated config free' io' = true).
  { unfold saturated. specialize (Li (critical_disk_io_util_pct config)).
    destruct io as [u|], io' as [u'|]; cbn in *; try done. rewrite !andb_true_iff. intros [? ?]. auto. }
  unfold classify_with_fresh_telemetry.
  repeat match goal with
         | |- context [if ?c then _ else _] =>
             let E := fresh "E" in destruct c eqn:E; cbn [decided fst severity]; try lia
         end; exfalso;
    repeat match goal with
           | H : f64_le free _ = true |- _ => apply Lf in H
           | H : f64_le ratio _ = true |- _ => apply Lr in H
           | H : reaches _ io = true |- _ => apply Li in H
           | H : reaches _ memory = true |- _ => apply Lm in H
           | H : saturated _ free io = true |- _ => apply Ls in H
           end; congruence.
Qed.

End PressureFacts.

Module Reliability.
Import Gate.

Record SignalWeights := { w_circuit : f64; w_convergence : f64; w_pressure : f64; w_process : f64; w_cancellation : f64 }.

Definition weights_default : SignalWeights :=
  {| w_circuit := lit 30 100; w_convergence := lit 22 100; w_pressure := lit 22 100; w_process := lit 13 100;
     w_cancellation := lit 13 100 |}.

Definition normalized (w : SignalWeights) : SignalWeights :=
  let sum := f64_add (f64_add (f64_add (f64_add (w_circuit w) (w_convergence w)) (w_pressure w)) (w_process w))
               (w_cancellation w) in
  if f64_le sum (f64_of_Z 0) then weights_default
  else {| w_circuit := f64_div (w_circuit w) sum; w_convergence := f64_div (w_convergence w) sum;
          w_pressure := f64_div (w_pressure w) sum; w_process := f64_div (w_process w) sum;
          w_cancellation := f64_div (w_cancellation w) sum |}.

Record ReliabilityConfig := {
  weights : SignalWeights;
  quarantine_threshold : f64; recovery_threshold : f64;
  recovery_ticks : Z;                       (* u32 *)
  min_quarantine_duration : Z;
  probing_penalty : f64; degraded_penalty_floor : f64;
}.

Definition reliability_default : ReliabilityConfig :=
  {| weights := weights_default; quarantine_threshold := lit 7 10; recovery_threshold := lit 3 10; recovery_ticks := 3;
     min_quarantine_duration := 60 * 1000000000; probing_penalty := lit 5 10; degraded_penalty_floor := lit 5 100 |}.

Inductive WorkerHealthState := RHealthy | Degraded | Quarantined | ProbingRecovery.

#[export] Instance WorkerHealthState_eq_dec : EqDecision WorkerHealthState.
Proof. solve_decision. Defined.

Record SignalDebts := {
  circuit_debt : f64; convergence_debt : f64; pressure_debt : f64; process_debt : f64; cancel_debt : f64;
}.

Definition no_debts : SignalDebts :=
  {| circuit_debt := f64_of_Z 0; convergence_debt := f64_of_Z 0; pressure_debt := f64_of_Z 0;
     process_debt := f64_of_Z 0; cancel_debt := f64_of_Z 0 |}.

Record WorkerReliabilityTracker := {
  health : WorkerHealthState; last_debt : f64; last_signals : SignalDebts; quarantined_at : option Z;
  recovery_tick_count : Z;                  (* u32 *)
  last_evaluated_at : option Z;
}.

Definition tracker_default : WorkerReliabilityTracker :=
  {| health := RHealthy; last_debt := f64_of_Z 0; last_signals := no_debts; quarantined_at := None;
     recovery_tick_count := 0; last_evaluated_at := None |}.

Record ReliabilityAssessment := {
  health_state : WorkerHealthState; aggregated_debt : f64; penalty : f64; hard_exclude : bool; signals : SignalDebts;
}.

(** What the services answer for a worker; an absent one costs nothing. *)
Record services := {
  drift : option (Selection.Selector.ConvergenceDriftState * option (nat * nat));
                                            (* the drift state, and the repositories required and missing *)
  verdict_cached : option AdmissionVerdict; (* of a gate that is set *)
  remediation : option (Z * Z * Z);         (* hard terminations, consecutive failures, actions *)
  cancel_stats : option (gmap string Cancellation.WorkerCancelStats);
}.

Definition ratio_of (missing total : nat) : f64 :=
  f64_clamp (f64_div (f64_of_Z (Z.of_nat missing)) (f64_of_Z (Z.of_nat total))) (f64_of_Z 0) (f64_of_Z 1).

Definition compute_convergence_debt (s : services) : f64 :=
  match drift s with
  | None => f64_of_Z 0
  | Some (Selection.Selector.DriftReady, _) => f64_of_Z 0
  | Some (Selection.Selector.Drifting, Some (O, _)) => lit 3 10
  | Some (Selection.Selector.Drifting, Some (total, missing)) =>
      f64_add (lit 3 10) (f64_mul (ratio_of missing total) (lit 4 10))
  | Some (Selection.Selector.Drifting, None) => lit 4 10
  | Some (Selection.Selector.Converging, _) => lit 5 10
  | Some (Selection.Selector.DriftFailed, _) => f64_of_Z 1
  | Some (Selection.Selector.DriftStale, _) => lit 2 10
  end.

Definition mentions (part s : string) : bool := bool_decide (is_Some (String.index 0 part s)).

Definition compute_pressure_debt (s : services) (p : Pressure.PressureAssessment) : f64 :=
  match verdict_cached s with
  | Some (Admit pen _) =>
      if f64_le pen BuildHistory.EPSILON then f64_of_Z 0 else f64_clamp pen (f64_of_Z 0) (f64_of_Z 1)
  | Some (Reject _) => f64_of_Z 1
  | None =>
      match Pressure.state p with
      | Healthy => f64_of_Z 0
      | TelemetryGap => if mentions "not_evaluated" (Pressure.reason_code p) then f64_of_Z 0 else lit 15 100
      | Warning => lit 6 10
      | Critical => f64_of_Z 1
      end
  end.

Definition compute_process_debt (s : services) : f64 :=
  match remediation s with
  | None => f64_of_Z 0
  | Some (terminations, failures, actions) =>
      let hard := f64_min (f64_mul (f64_of_Z terminations) (lit 3 10)) (lit 6 10) in
      let failure := f64_min (f64_mul (f64_of_Z failures) (lit 15 100)) (lit 3 10) in
      let churn := f64_min (f64_mul (f64_of_Z actions) (lit 2 100)) (lit 2 10) in
      f64_clamp (f64_add (f64_add hard failure) churn) (f64_of_Z 0) (f64_of_Z 1)
  end.

Definition compute_cancellation_debt (now : Z) (w : string) (s : services) : f64 :=
  from_option (fun m => fst (Cancellation.cancellation_debt now w m)) (f64_of_Z 0) (cancel_stats s).

Definition penalty_for_state (config : ReliabilityConfig) (s : WorkerHealthState) (debt : f64) : f64 * bool :=
  match s with
  | RHealthy => (f64_of_Z 0, false)
  | Degraded => (f64_clamp (f64_max debt (degraded_penalty_floor config)) (f64_of_Z 0) (lit 8 10), false)
  | Quarantined => (f64_of_Z 1, true)
  | ProbingRecovery => (probing_penalty config, false)
  end.

(** The new state, and the recovery ticks before the bookkeeping of a transition. *)
Definition next_health (config : ReliabilityConfig) (now : Z) (debt : f64) (k : WorkerReliabilityTracker) :
    WorkerHealthState * Z :=
  let n := recovery_tick_count k in
  match health k with
  | RHealthy =>
      (if f64_ge debt (quarantine_threshold config) then Quarantined
       else if f64_ge debt (degraded_penalty_floor config) then Degraded else RHealthy, n)
  | Degraded =>
      (if f64_ge debt (quarantine_threshold config) then Quarantined
       else if f64_lt debt (degraded_penalty_floor config) then RHealthy else Degraded, n)
  | Quarantined =>
      let dwelt := from_option (fun at_ => min_quarantine_duration config <=? sat_sub now at_) false (quarantined_at k) in
      if dwelt && f64_le debt (recovery_threshold config) then
        let n := wadd 32 n 1 in
        (if recovery_ticks config <=? n then ProbingRecovery else Quarantined, n)
      else (Quarantined, if f64_gt debt (recovery_threshold config) then 0 else n)
  | ProbingRecovery =>
      (if f64_ge debt (quarantine_threshold config) then Quarantined
       else if f64_le debt (recovery_threshold config) then RHealthy else ProbingRecovery, n)
  end.

(** One tracker, moved on. *)
Definition advance (config : ReliabilityConfig) (now : Z) (debt : f64) (sig : SignalDebts)
    (k : WorkerReliabilityTracker) : WorkerReliabilityTracker :=
  let (s, n) := next_health config now debt k in
  let moved := negb (bool_decide (health k = s)) in
  let into s' := moved && bool_decide (s = s') in
  {| health := s; last_debt := debt; last_signals := sig;
     quarantined_at := if into Quarantined then Some now else if into RHealthy then None else quarantined_at k;
     recovery_tick_count := if into Quarantined || into RHealthy then 0 else n;
     last_evaluated_at := Some now |}.

Abbreviation trackers := (gmap string WorkerReliabilityTracker).

Definition transition_state (config : ReliabilityConfig) (w : string) (now : Z) (debt : f64) (sig : SignalDebts)
    (m : trackers) : WorkerHealthState * f64 * bool * trackers :=
  let k := advance config now debt sig (default tracker_default (m !! w)) in
  let (p, x) := penalty_for_state config (health k) debt in
  (health k, p, x, <[w := k]> m).

Definition aggregate (w : SignalWeights) (d : SignalDebts) : f64 :=
  f64_clamp
    (f64_add (f64_add (f64_add (f64_add
       (f64_mul (w_circuit w) (circuit_debt d)) (f64_mul (w_convergence w) (convergence_debt d)))
       (f64_mul (w_pressure w) (pressure_debt d))) (f64_mul (w_process w) (process_debt d)))
       (f64_mul (w_cancellation w) (cancel_debt d)))
    (f64_of_Z 0) (f64_of_Z 1).

Definition assess (config : ReliabilityConfig) (s : services) (circuit : CircuitStats.t)
    (p : Pressure.PressureAssessment) (now : Z) (w : string) (m : trackers) : ReliabilityAssessment * trackers :=
  let sig := {| circuit_debt := f64_clamp (CircuitStats.error_rate circuit) (f64_of_Z 0) (f64_of_Z 1);
                convergence_debt := compute_convergence_debt s; pressure_debt := compute_pressure_debt s p;
                process_debt := compute_process_debt s; cancel_debt := compute_cancellation_debt now w s |} in
  let debt := aggregate (normalized (weights config)) sig in
  let '(h, pen, x, m) := transition_state config w now debt sig m in
  ({| health_state := h; aggregated_debt := debt; penalty := pen; hard_exclude := x; signals := sig |}, m).

Definition get_assessment (config : ReliabilityConfig) (w : string) (m : trackers) : option ReliabilityAssessment :=
  (fun k =>
     let (pen, x) := penalty_for_state config (health k) (last_debt k) in
     {| health_state := health k; aggregated_debt := last_debt k; penalty := pen; hard_exclude := x;
        signals := last_signals k |}) <$> m !! w.

Definition reset (w : string) (m : trackers) : trackers := delete w m.

End Reliability.

Module ReliabilityFacts.
Import Reliability.

Section quarantine.
Context (config : ReliabilityConfig).

(** Evaluations of workers: which, when, and with what debt. *)
Record look := { l_worker : string; l_now : Z; l_debt : f64; l_signals : SignalDebts }.

Definition run (es : list look) (m : trackers) : trackers :=
  fold_left (fun m e => snd (transition_state config (l_worker e) (l_now e) (l_debt e) (l_signals e) m)) es m.

Definition health_of (w : string) (m : trackers) : WorkerHealthState :=
  health (default tracker_default (m !! w)).

(** An evaluation of the worker with a debt too high to recover, and one that counts towards recovery. *)
Definition spikes (e : look) : bool := f64_gt (l_debt e) (recovery_threshold config).
Definition counts (t0 : Z) (e : look) : bool :=
  (min_quarantine_duration config <=? sat_sub (l_now e) t0) && f64_le (l_debt e) (recovery_threshold config).

(** The evaluations since the last spike, newest first. *)
Fixpoint calm (h : list look) : list look :=
  match h with [] => [] | e :: h => if spikes e then [] else e :: calm h end.

Definition ticks (t0 : Z) (h : list look) : Z := Z.of_nat (length (List.filter (counts t0) (calm h))).

Definition of_worker (w : string) (es : list look) : list look :=
  List.filter (fun e => bool_decide (l_worker e = w)) es.

Lemma transition_eq w now debt sig m :
  snd (transition_state config w now debt sig m)
  = <[w := advance config now debt sig (default tracker_default (m !! w))]> m.
Proof. unfold transition_state. by destruct (penalty_for_state _ _ _). Qed.

(** Workers do not influence each other. *)
Lemma run_of_worker w es m : run es m !! w = run (of_worker w es) m !! w.
Proof.
  enough (H : forall m', m !! w = m' !! w -> run es m !! w = run (of_worker w es) m' !! w) by by apply H.
  revert m. induction es as [|e es IH]; intros m m' Hm; [done|]. cbn. rewrite transition_eq.
  case_bool_decide as Hw; cbn.
  - rewrite transition_eq. apply IH. subst w. by rewrite !lookup_insert_eq, Hm.
  - apply IH. by rewrite lookup_insert_ne.
Qed.

(** A tracker that entered quarantine at [t0] and has seen [h], newest first, since. *)
Definition held_since (t0 : Z) (h : list look) (k : WorkerReliabilityTracker) : Prop :=
  health k = Quarantined /\ quarantined_at k = Some t0 /\ recovery_tick_count k = ticks t0 h /\
  ticks t0 h < Z.max 1 (recovery_ticks config).

Lemma entered now debt sig k :
  health k <> Quarantined -> health (advance config now debt sig k) = Quarantined ->
  held_since now [] (advance config now debt sig k).
Proof.
  unfold advance. destruct (next_health config now debt k) as [s n] eqn:E. cbn. intros Hk ->.
  rewrite bool_decide_eq_false_2 by done. rewrite bool_decide_eq_true_2 by done. cbn.
  unfold held_since, ticks. cbn. split_and!; try done. lia.
Qed.

Hypothesis counted : is_u32 (recovery_ticks config).

(** The ticks after one more evaluation. *)
Lemma ticks_cons t0 e h :
  ticks t0 (e :: h) = if spikes e then 0 else (if counts t0 e then 1 else 0) + ticks t0 h.
Proof.
  unfold ticks. cbn [calm]. destruct (spikes e); [done|]. cbn [List.filter]. destruct (counts t0 e); cbn [length]; lia.
Qed.

Lemma advance_held t0 h e k :
  held_since t0 h k ->
  let k' := advance config (l_now e) (l_debt e) (l_signals e) k in
  if Z.max 1 (recovery_ticks config) <=? ticks t0 (e :: h) then health k' = ProbingRecovery
  else held_since t0 (e :: h) k'.
Proof.
  intros (Hh & Hq & Hn & Hlt). cbn zeta. unfold in_u in counted. assert (0 <= ticks t0 h) by (unfold ticks; lia).
  unfold advance, next_health. rewrite Hh, Hq, Hn. cbn [from_option]. fold (counts t0 e). fold (spikes e).
  rewrite ticks_cons. destruct (counts t0 e) eqn:Ec.
  - assert (Hs : spikes e = false). { apply FloatFacts.f64_le_gt. unfold counts in Ec. by apply andb_true_iff in Ec as [_ ?]. }
    rewrite Hs, wadd_small by (cbn in *; lia).
    assert (He : (recovery_ticks config <=? ticks t0 h + 1) = (Z.max 1 (recovery_ticks config) <=? 1 + ticks t0 h)).
    { by destruct (Z.leb_spec (recovery_ticks config) (ticks t0 h + 1)),
        (Z.leb_spec (Z.max 1 (recovery_ticks config)) (1 + ticks t0 h)); try lia. }
    rewrite He. destruct (Z.leb_spec (Z.max 1 (recovery_ticks config)) (1 + ticks t0 h)); [done|].
    unfold held_since. rewrite (bool_decide_eq_true_2 (Quarantined = Quarantined)) by done.
    cbn -[Z.add ticks Z.max]. rewrite ticks_cons, Ec, Hs. split_and!; try done; lia.
  - set (n := if spikes e then 0 else 0 + ticks t0 h).
    assert (Hnle : n < Z.max 1 (recovery_ticks config)) by (unfold n; destruct (spikes e); lia).
    destruct (Z.leb_spec (Z.max 1 (recovery_ticks config)) n); [lia|].
    unfold held_since. rewrite (bool_decide_eq_true_2 (Quarantined = Quarantined)) by done.
    cbn -[Z.add ticks Z.max]. rewrite ticks_cons, Ec. fold n. by split_and!.
Qed.

(** The tracker of a worker after evaluations of its own. *)
Lemma assess_snoc es e m :
  run (es ++ [e]) m = <[l_worker e := advance config (l_now e) (l_debt e) (l_signals e)
                                        (default tracker_default (run es m !! l_worker e))]> (run es m).
Proof. unfold run. rewrite fold_left_app. cbn. apply transition_eq. Qed.

Lemma default_some {A} (x y : A) : default x (Some y) = y.
Proof. done. Qed.

Lemma stays_held w pre e0 es :
  l_worker e0 = w -> Forall (fun e => l_worker e = w) es -> health_of w (run pre ∅) <> Quarantined ->
  (forall p, p `prefix_of` es -> health_of w (run (pre ++ e0 :: p) ∅) = Quarantined) ->
  held_since (l_now e0) (reverse es) (default tracker_default (run (pre ++ e0 :: es) ∅ !! w)).
Proof.
  intros Hw Hes Hpre. induction es as [|e es IH] using rev_ind; intros Hp.
  - specialize (Hp [] ltac:(done)). rewrite reverse_nil. revert Hp. unfold health_of. rewrite assess_snoc, Hw, lookup_insert_eq.
    rewrite default_some. intros Hh. apply entered; [|done]. done.
  - apply Forall_app in Hes as [Hes He]. inversion_clear He as [|? ? Hwe _].
    assert (Hk : held_since (l_now e0) (reverse es) (default tracker_default (run (pre ++ e0 :: es) ∅ !! w))).
    { apply IH; [done|]. intros p Hpe. apply Hp. etrans; [exact Hpe|]. by apply prefix_app_r. }
    specialize (Hp (es ++ [e]) ltac:(done)). revert Hp. unfold health_of.
    change (pre ++ e0 :: es ++ [e]) with (pre ++ (e0 :: es) ++ [e]). rewrite app_assoc, assess_snoc, Hwe, lookup_insert_eq.
    rewrite default_some. intros Hh. pose proof (advance_held _ _ e _ Hk) as Ha. cbn zeta in Ha.
    rewrite reverse_snoc. destruct (_ <=? _); [congruence|done].
Qed.

(** What a quarantined worker becomes at its next evaluation. *)
Lemma held_next w pre e0 es e :
  Forall (fun e => l_worker e = w) (e0 :: es ++ [e]) -> health_of w (run pre ∅) <> Quarantined ->
  (forall p, p `prefix_of` es -> health_of w (run (pre ++ e0 :: p) ∅) = Quarantined) ->
  health_of w (run (pre ++ e0 :: es ++ [e]) ∅)
  = if Z.max 1 (recovery_ticks config) <=? ticks (l_now e0) (e :: reverse es) then ProbingRecovery else Quarantined.
Proof.
  intros Hf Hpre Hp. inversion_clear Hf as [|? ? Hw Hes]. apply Forall_app in Hes as [Hes He].
  inversion_clear He as [|? ? Hwe _]. pose proof (stays_held w pre e0 es Hw Hes Hpre Hp) as Hk.
  unfold health_of. change (pre ++ e0 :: es ++ [e]) with (pre ++ (e0 :: es) ++ [e]).
  rewrite app_assoc, assess_snoc, Hwe, lookup_insert_eq. rewrite default_some.
  pose proof (advance_held _ _ e _ Hk) as Ha. cbn zeta in Ha. destruct (_ <=? _); [done|apply Ha].
Qed.

End quarantine.

Lemma prefix_filter {A} (f : A -> bool) (p es : list A) :
  p `prefix_of` List.filter f es -> exists p', p' `prefix_of` es /\ List.filter f p' = p.
Proof.
  revert p. induction es as [|e es IH]; intros p Hp.
  - cbn in Hp. apply prefix_nil_inv in Hp as ->. by exists [].
  - cbn in Hp. destruct (f e) eqn:E.
    + destruct p as [|x p]; [exists []; split; [apply prefix_nil|done]|].
      apply prefix_cons_inv_1 in Hp as Hx. apply prefix_cons_inv_2 in Hp as Hp'. subst x.
      destruct (IH p Hp') as (p' & Hp'' & <-). exists (e :: p'). split; [by apply prefix_cons|]. cbn. by rewrite E.
    + destruct (IH p Hp) as (p' & Hp' & <-). exists (e :: p'). split; [by apply prefix_cons|]. cbn. by rewrite E.
Qed.

(** A quarantine is exact.  From the evaluation that put a worker into quarantine, however evaluations of other
    workers interleave, it stays excluded until it has the required number of evaluations with low debt after the
    minimal stay and since the last spike of its debt; the evaluation that completes them makes it a probe. *)
Theorem quarantine_exact config w pre e0 es e :
  is_u32 (recovery_ticks config) -> l_worker e0 = w -> l_worker e = w ->
  health_of w (run config pre ∅) <> Quarantined ->
  (forall p, p `prefix_of` es -> health_of w (run config (pre ++ e0 :: p) ∅) = Quarantined) ->
  health_of w (run config (pre ++ e0 :: es ++ [e]) ∅)
  = if Z.max 1 (recovery_ticks config) <=? ticks config (l_now e0) (e :: reverse (of_worker w es))
    then ProbingRecovery else Quarantined.
Proof.
  intros Hc Hw0 Hwe Hpre Hp.
  assert (Hof : forall l, health_of w (run config (pre ++ e0 :: l) ∅)
                          = health_of w (run config (of_worker w pre ++ e0 :: of_worker w l) ∅)).
  { intros l. unfold health_of. rewrite run_of_worker. unfold of_worker. rewrite List.filter_app. cbn.
    by rewrite bool_decide_eq_true_2. }
  rewrite Hof. unfold of_worker at 2. rewrite List.filter_app. cbn [List.filter].
  rewrite (bool_decide_eq_true_2 (l_worker e = w)) by done. fold (of_worker w es).
  apply (held_next config Hc).
  - assert (Ho : Forall (fun e => l_worker e = w) (of_worker w es)).
    { apply Forall_forall. intros x Hx. apply list_elem_of_In, List.filter_In in Hx as [_ Hx]. by apply bool_decide_eq_true in Hx. }
    constructor; [done|]. apply Forall_app. split; [done|]. by constructor.
  - unfold health_of in *. rewrite run_of_worker in Hpre. exact Hpre.
  - intros p Hpo. destruct (prefix_filter _ _ _ Hpo) as (p' & Hp' & <-). rewrite <- (Hp p' Hp'), (Hof p'). done.
Qed.

(** Debts of a worker, and of another one in between. *)
Definition seen (w : string) (secs : Z) (debt : f64) : look :=
  {| l_worker := w; l_now := secs * 1000000000; l_debt := debt; l_signals := no_debts |}.
Definition stay : list look :=
  [seen "css" 10 (lit 1 10); seen "other" 61 (lit 9 10); seen "css" 70 (lit 1 10); seen "css" 80 (lit 5 10);
   seen "css" 90 (lit 1 10); seen "css" 100 (lit 2 10)].

Lemma quarantine_exact_witness :
  health_of "css" (run reliability_default (([] : list look) ++ seen "css" 0 (lit 8 10) :: stay ++ [seen "css" 110 (lit 1 10)]) ∅)
  = ProbingRecovery.
Proof.
  rewrite (quarantine_exact reliability_default "css" [] (seen "css" 0 (lit 8 10)) stay (seen "css" 110 (lit 1 10))).
  - vm_compute. reflexivity.
  - unfold in_u. cbn. lia.
  - reflexivity.
  - reflexivity.
  - vm_compute. discriminate.
  - intros p [l Hl]. destruct p as [|? [|? [|? [|? [|? [|? [|? p]]]]]]]; inversion Hl; subst; vm_compute; reflexivity.
Defined.

(** What scoring reads later is what the evaluation in the eligibility loop returned, and a worker is excluded exactly
    while it is quarantined. *)
Theorem assessment_kept config s circuit p now w m :
  get_assessment config w (snd (assess config s circuit p now w m)) = Some (fst (assess config s circuit p now w m)) /\
  hard_exclude (fst (assess config s circuit p now w m))
  = bool_decide (health_state (fst (assess config s circuit p now w m)) = Quarantined).
Proof.
  unfold assess. match goal with |- context [aggregate ?w ?s] => generalize (aggregate w s) as debt; generalize s as sig end.
  intros sig debt. unfold transition_state, get_assessment. set (k := advance config now debt sig _).
  assert (Hk : last_debt k = debt /\ last_signals k = sig) by (unfold k, advance; by destruct (next_health _ _ _ _)).
  destruct Hk as [Hd Hs]. destruct (penalty_for_state config (health k) debt) as [pen x] eqn:E. cbn [fst snd].
  rewrite lookup_insert_eq. cbn. rewrite Hd, Hs, E. split; [done|]. by destruct (health k); inversion E.
Qed.

End ReliabilityFacts.
