(* ===== verification/Streams.v ===== *)
(** * Byte streams between wrapper, edge and subscribers
    (rabs-protocol/src/framing.rs, stream_chunker.rs, subscriber_queue.rs)

    [Framing] is the length-prefixed frame codec of the local socket, [Chunker] the
    two-stream line splitter with its hard memory bound and its spill sink, and
    [SubscriberQueue] the bounded queue that isolates a slow subscriber. *)

From stdpp Require Import base list strings.
From Stdlib Require Import ZArith Lia.
From S2P Require Import Prelude Bytes.

Module Framing.

Definition DEFAULT_MAX_FRAME_BYTES : Z := 1024 * 1024.

Inductive FrameError :=
  | PayloadTooLarge (len : Z) (max : Z)
  | ClaimedLengthTooLarge (claimed : Z) (max : Z).

Inductive Decoded :=
  | Frame (payload : list Z) (consumed : nat)
  | NeedMoreData.

Record FrameCodec := { max_frame_bytes : Z (* u32 *) }.

Definition default_codec : FrameCodec := {| max_frame_bytes := DEFAULT_MAX_FRAME_BYTES |}.

(** [to_le_bytes] and [from_le_bytes]. *)
Definition le_bytes (w : nat) (v : Z) : list Z := reverse (be_bytes w v).
Definition from_le (bs : list Z) : Z := from_be (reverse bs).

Definition encode (c : FrameCodec) (payload : list Z) : result FrameError (list Z) :=
  let len := Z.of_nat (length payload) in
  if U32_MAX <? len then Err (PayloadTooLarge len (max_frame_bytes c))
  else if max_frame_bytes c <? len then Err (PayloadTooLarge len (max_frame_bytes c))
  else Ok (le_bytes 4 len ++ payload).

(** [buf.get(..n)]. *)
Definition get_to (n : nat) (buf : list Z) : option (list Z) :=
  if Nat.leb n (length buf) then Some (take n buf) else None.

Definition decode (c : FrameCodec) (buf : list Z) : result FrameError Decoded :=
  match get_to 4 buf with
  | None => Ok NeedMoreData
  | Some header =>
      let claimed := from_le header in
      if max_frame_bytes c <? claimed
      then Err (ClaimedLengthTooLarge claimed (max_frame_bytes c))
      else
        let total := (4 + Z.to_nat claimed)%nat in
        match get_to total buf with
        | None => Ok NeedMoreData
        | Some frame => Ok (Frame (drop 4 frame) total)
        end
  end.

(** A receiver: decodes from the front until more bytes are needed; returns the
    payloads and the bytes left over. *)
Fixpoint decode_all (fuel : nat) (c : FrameCodec) (buf : list Z)
    : result FrameError (list (list Z) * list Z) :=
  match fuel with
  | O => Ok ([], buf)
  | S fuel =>
      match decode c buf with
      | Err e => Err e
      | Ok NeedMoreData => Ok ([], buf)
      | Ok (Frame p n) =>
          r ← decode_all fuel c (drop n buf);
          mret (p :: fst r, snd r)
      end
  end.

Lemma le_bytes_length w v : length (le_bytes w v) = w.
Proof. unfold le_bytes. by rewrite length_reverse, be_bytes_length. Qed.

Lemma from_le_le w v : 0 <= v < 256 ^ Z.of_nat w -> from_le (le_bytes w v) = v.
Proof. intros Hv. unfold from_le, le_bytes. rewrite reverse_involutive. by apply from_be_be. Qed.

Lemma le_from_le bs : all_bytes bs -> le_bytes (length bs) (from_le bs) = bs.
Proof.
  intros Hb. unfold le_bytes, from_le. rewrite <- (length_reverse bs), be_from_be.
  - by rewrite reverse_involutive.
  - by apply Forall_reverse.
Qed.

Lemma encode_Ok c p f :
  encode c p = Ok f <->
  Z.of_nat (length p) <= Z.min U32_MAX (max_frame_bytes c)
  /\ f = le_bytes 4 (Z.of_nat (length p)) ++ p.
Proof.
  unfold encode. destruct (Z.ltb_spec U32_MAX (Z.of_nat (length p)));
    [|destruct (Z.ltb_spec (max_frame_bytes c) (Z.of_nat (length p)))];
    split; try done; try (intros [= <-]; split; [lia|done]); intros [? ->]; try lia; done.
Qed.

(** A complete frame decodes to its payload, whatever follows it. *)
Lemma decode_frame c p f tl :
  encode c p = Ok f -> decode c (f ++ tl) = Ok (Frame p (length f)).
Proof.
  intros [Hlen ->]%encode_Ok. unfold decode, get_to.
  rewrite !length_app, le_bytes_length, <- app_assoc.
  rewrite (proj2 (Nat.leb_le _ _)) by lia.
  rewrite take_app_length' by (by rewrite le_bytes_length).
  rewrite from_le_le by (unfold U32_MAX in *; lia).
  destruct (Z.ltb_spec (max_frame_bytes c) (Z.of_nat (length p))); [lia|].
  rewrite Nat2Z.id, (proj2 (Nat.leb_le _ _)) by lia.
  rewrite app_assoc, take_app_length' by (rewrite length_app, le_bytes_length; lia).
  by rewrite drop_app_length' by (by rewrite le_bytes_length).
Qed.

(** A proper prefix of a frame is never delivered in part. *)
Lemma decode_prefix c p f buf tl :
  encode c p = Ok f -> f = buf ++ tl -> tl <> [] -> decode c buf = Ok NeedMoreData.
Proof.
  intros [Hlen Hf]%encode_Ok Heq Htl. rewrite Hf in Heq. unfold decode, get_to.
  assert (length buf < 4 + length p)%nat as Hb.
  { apply (f_equal length) in Heq. rewrite !length_app, le_bytes_length in Heq.
    destruct tl; [done|]. cbn in Heq. lia. }
  destruct (Nat.leb_spec 4 (length buf)); [|done].
  assert (take 4 buf = le_bytes 4 (Z.of_nat (length p))) as ->.
  { apply (f_equal (take 4)) in Heq. rewrite take_app_length' in Heq by (by rewrite le_bytes_length).
    by rewrite take_app_le in Heq by lia. }
  rewrite from_le_le by (unfold U32_MAX in *; lia).
  destruct (Z.ltb_spec (max_frame_bytes c) (Z.of_nat (length p))); [lia|].
  rewrite Nat2Z.id. by rewrite (proj2 (Nat.leb_gt _ _)) by lia.
Qed.

Lemma decode_all_frames fuel c ps fs buf :
  Forall2 (fun p f => encode c p = Ok f) ps fs -> (length ps <= fuel)%nat ->
  decode_all fuel c (concat fs ++ buf)
  = (r ← decode_all (fuel - length ps) c buf; mret (ps ++ fst r, snd r)).
Proof.
  intros Hall. revert fuel. induction Hall as [|p f ps fs Hf Hall IH]; intros fuel Hfuel.
  { cbn. rewrite Nat.sub_0_r. destruct (decode_all fuel c buf) as [[]|]; done. }
  destruct fuel as [|fuel]; cbn [length] in Hfuel; [lia|]. cbn [decode_all concat].
  rewrite <- app_assoc, (decode_frame _ _ _ _ Hf), drop_app_length, IH by lia.
  cbn [length Nat.sub]. by destruct (decode_all (fuel - length ps) c buf) as [[]|].
Qed.

(** The receiver of a framed stream gets exactly the frames that were sent.
    However the stream is cut, from the complete frames and a proper prefix of the
    next one it decodes precisely the payloads sent, in order, keeps the incomplete
    tail untouched, delivers no part of it, and raises no error. *)
Theorem framed_stream_exact c ps fs p f buf tl fuel :
  Forall2 (fun p f => encode c p = Ok f) ps fs ->
  encode c p = Ok f -> f = buf ++ tl -> tl <> [] -> (length ps < fuel)%nat ->
  decode_all fuel c (concat fs ++ buf) = Ok (ps, buf).
Proof.
  intros Hall Hf Heq Htl Hfuel. rewrite (decode_all_frames _ _ ps) by (done || lia).
  destruct (fuel - length ps)%nat as [|k] eqn:Hk; [lia|]. cbn [decode_all].
  rewrite (decode_prefix c p f buf tl Hf Heq Htl). cbn. by rewrite app_nil_r.
Qed.

Lemma framed_stream_exact_witness :
  decode_all 3 default_codec ([2; 0; 0; 0; 104; 105] ++ [1; 0; 0; 0; 33] ++ [4; 0; 0; 0; 9])
  = Ok ([[104; 105]; [33]], [4; 0; 0; 0; 9]).
Proof.
  apply (framed_stream_exact default_codec [[104; 105]; [33]]
           [[2; 0; 0; 0; 104; 105]; [1; 0; 0; 0; 33]] [9; 9; 9; 9] [4; 0; 0; 0; 9; 9; 9; 9]
           [4; 0; 0; 0; 9] [9; 9; 9]); [repeat constructor|done|done|done|cbn; lia].
Defined.

(** An oversized claim is refused from its header alone. *)
Lemma decode_refuses_early c buf tl :
  length buf = 4%nat -> max_frame_bytes c < from_le buf ->
  decode c (buf ++ tl) = Err (ClaimedLengthTooLarge (from_le buf) (max_frame_bytes c)).
Proof.
  intros Hb Hc. unfold decode, get_to. rewrite length_app, (proj2 (Nat.leb_le _ _)) by lia.
  rewrite take_app_length' by done. by destruct (Z.ltb_spec (max_frame_bytes c) (from_le buf)); [|lia].
Qed.

End Framing.

Module Chunker.

Inductive StdStream := Stdout | Stderr.

#[export] Instance StdStream_eq_dec : EqDecision StdStream.
Proof. solve_decision. Defined.

Inductive StreamItem :=
  | Line (stream : StdStream) (seq : Z) (bytes : list Z)
  | SpilledLine (stream : StdStream) (seq : Z) (spill_id : Z) (total_bytes : Z).

Record SpillSink := {
  objects : list (Z * Z); (* id, total bytes *)
  open_bytes : Z;         (* u64 *)
  next_id : Z;            (* u64 *)
}.

Definition default_sink : SpillSink := {| objects := []; open_bytes := 0; next_id := 0 |}.

Definition sink_open (k : SpillSink) : Z * SpillSink :=
  let id := wadd 64 (next_id k) 1 in
  (id, {| objects := objects k; open_bytes := 0; next_id := id |}).

Definition sink_append (n : Z) (k : SpillSink) : SpillSink :=
  {| objects := objects k; open_bytes := wadd 64 (open_bytes k) n; next_id := next_id k |}.

Definition sink_close (id : Z) (k : SpillSink) : Z * SpillSink :=
  let total := open_bytes k in
  (total, {| objects := objects k ++ [(id, total)]; open_bytes := 0; next_id := next_id k |}).

Record LaneState := { partial : list Z; spilling : option Z }.

Record StreamMux := {
  max_line_bytes : nat; (* usize *)
  stdout : LaneState;
  stderr : LaneState;
  seq : Z;              (* u64 *)
}.

Definition mux_new (max : nat) : StreamMux :=
  {| max_line_bytes := max; stdout := {| partial := []; spilling := None |};
     stderr := {| partial := []; spilling := None |}; seq := 0 |}.

Definition resident_bytes (m : StreamMux) : nat :=
  length (partial (stdout m)) + length (partial (stderr m)).

Definition lane (s : StdStream) (m : StreamMux) : LaneState :=
  match s with Stdout => stdout m | Stderr => stderr m end.

Definition set_lane (s : StdStream) (l : LaneState) (n : Z) (m : StreamMux) : StreamMux :=
  match s with
  | Stdout => {| max_line_bytes := max_line_bytes m; stdout := l; stderr := stderr m; seq := n |}
  | Stderr => {| max_line_bytes := max_line_bytes m; stdout := stdout m; stderr := l; seq := n |}
  end.

(** One piece of a line, or the end of one; returns the items pushed. *)
Definition absorb (s : StdStream) (bytes : list Z) (line_complete : bool)
    (st : StreamMux * SpillSink) : list StreamItem * (StreamMux * SpillSink) :=
  let (m, k) := st in
  let l := lane s m in
  let next := wadd 64 (seq m) 1 in
  match spilling l with
  | Some id =>
      let k := sink_append (Z.of_nat (length bytes)) k in
      if line_complete then
        let (total, k) := sink_close id k in
        ([SpilledLine s next id total],
         (set_lane s {| partial := partial l; spilling := None |} next m, k))
      else ([], (m, k))
  | None =>
      if Nat.ltb (max_line_bytes m) (length (partial l) + length bytes) then
        let (id, k) := sink_open k in
        let k := sink_append (Z.of_nat (length (partial l))) k in
        let k := sink_append (Z.of_nat (length bytes)) k in
        if line_complete then
          let (total, k) := sink_close id k in
          ([SpilledLine s next id total],
           (set_lane s {| partial := []; spilling := None |} next m, k))
        else ([], (set_lane s {| partial := []; spilling := Some id |} (seq m) m, k))
      else
        let line := partial l ++ bytes in
        if line_complete && negb (Nat.eqb (length line) 0)
        then ([Line s next line], (set_lane s {| partial := []; spilling := None |} next m, k))
        else ([], (set_lane s {| partial := line; spilling := None |} (seq m) m, k))
  end.

(** The loop over a chunk: up to the next newline, or all that is left. *)
Fixpoint feed_loop (fuel : nat) (s : StdStream) (rest : list Z) (st : StreamMux * SpillSink)
    : list StreamItem * (StreamMux * SpillSink) :=
  match fuel, rest with
  | O, _ | _, [] => ([], st)
  | S fuel, _ =>
      let '(piece, complete) :=
        match list_find (fun b => b = 10) rest with
        | Some (i, _) => (take (S i) rest, true)
        | None => (rest, false)
        end in
      let (items, st1) := absorb s piece complete st in
      let (more, st2) := feed_loop fuel s (drop (length piece) rest) st1 in
      (items ++ more, st2)
  end.

(** Every round takes at least one byte. *)
Definition feed (s : StdStream) (chunk : list Z) (st : StreamMux * SpillSink)
    : list StreamItem * (StreamMux * SpillSink) := feed_loop (length chunk) s chunk st.

Definition finish (s : StdStream) (st : StreamMux * SpillSink)
    : option StreamItem * (StreamMux * SpillSink) :=
  let l := lane s (fst st) in
  match spilling l, partial l with
  | None, [] => (None, st)
  | _, _ => let (items, st1) := absorb s [] true st in (last items, st1)
  end.

(** ** What the splitter should emit *)

(** The lines completed by [bs] after the unfinished line [cur], terminators
    included, and the line left unfinished. *)
Fixpoint cut (cur bs : list Z) : list (list Z) * list Z :=
  match bs with
  | [] => ([], cur)
  | b :: bs =>
      if b =? 10 then let (ls, cur') := cut [] bs in ((cur ++ [b]) :: ls, cur')
      else cut (cur ++ [b]) bs
  end.

Lemma cut_concat cur bs : let (ls, cur') := cut cur bs in concat ls ++ cur' = cur ++ bs.
Proof.
  revert cur. induction bs as [|b bs IH]; intros cur; cbn [cut]; [by rewrite app_nil_r|].
  destruct (b =? 10).
  - specialize (IH []). destruct (cut [] bs). cbn. rewrite <- app_assoc, IH. by rewrite <- app_assoc.
  - specialize (IH (cur ++ [b])). destruct (cut (cur ++ [b]) bs). rewrite IH. by rewrite <- app_assoc.
Qed.

Lemma cut_none cur bs : 10 ∉ bs -> cut cur bs = ([], cur ++ bs).
Proof.
  revert cur. induction bs as [|b bs IH]; intros cur Hn; cbn [cut]; [by rewrite app_nil_r|].
  apply not_elem_of_cons in Hn as [Hb Hn]. destruct (Z.eqb_spec b 10); [congruence|].
  rewrite IH by done. by rewrite <- app_assoc.
Qed.

Lemma cut_line cur pre post :
  10 ∉ pre -> cut cur (pre ++ 10 :: post)
  = let (ls, cur') := cut [] post in ((cur ++ pre ++ [10]) :: ls, cur').
Proof.
  revert cur. induction pre as [|b pre IH]; intros cur Hn; cbn [cut app]; [done|].
  apply not_elem_of_cons in Hn as [Hb Hn]. destruct (Z.eqb_spec b 10); [congruence|].
  rewrite IH by done. destruct (cut [] post). by rewrite <- !app_assoc.
Qed.

(** The lane holds the unfinished line [cur]: in memory within the bound, in the
    spill sink beyond it. *)
Definition lane_rel (max : nat) (cur : list Z) (l : LaneState) : Prop :=
  if Nat.leb (length cur) max then l = {| partial := cur; spilling := None |}
  else partial l = [] /\ is_Some (spilling l).

(** The item [it], numbered [n], stands for [line] of stream [s]. *)
Definition shows (max : nat) (n : Z) (s : StdStream) (line : list Z) (it : StreamItem) : Prop :=
  match it with
  | Line s' n' bs => s' = s /\ n' = n /\ bs = line /\ (length line <= max)%nat
  | SpilledLine s' n' _ _ => s' = s /\ n' = n /\ (max < length line)%nat
  end.

(** One item per line, in order, numbered on from [n]. *)
Fixpoint emits (max : nat) (n : Z) (lines : list (StdStream * list Z)) (items : list StreamItem)
    : Prop :=
  match lines, items with
  | [], [] => True
  | (s, line) :: lines, it :: items =>
      shows max (wadd 64 n 1) s line it /\ emits max (wadd 64 n 1) lines items
  | _, _ => False
  end.

Fixpoint seq_after {A} (n : Z) (l : list A) : Z :=
  match l with [] => n | _ :: l => seq_after (wadd 64 n 1) l end.

Lemma emits_app max n l1 l2 i1 i2 :
  emits max n l1 i1 -> emits max (seq_after n l1) l2 i2 -> emits max n (l1 ++ l2) (i1 ++ i2).
Proof.
  revert n i1. induction l1 as [|[s line] l1 IH]; intros n [|it i1]; cbn; try done.
  intros [? ?] ?. split; [done|]. by apply IH.
Qed.

Lemma seq_after_app {A} n (l1 l2 : list A) : seq_after n (l1 ++ l2) = seq_after (seq_after n l1) l2.
Proof. revert n. induction l1; intros; cbn; auto. Qed.

(** The spill sink holds exactly the unfinished line while it is spilled. *)
Definition sink_rel (max : nat) (cur : list Z) (k : SpillSink) : Prop :=
  (max < length cur)%nat -> open_bytes k = wrap 64 (Z.of_nat (length cur)).

Definition total_exact (line : list Z) (it : StreamItem) : Prop :=
  match it with
  | Line _ _ _ => True
  | SpilledLine _ _ _ total => total = wrap 64 (Z.of_nat (length line))
  end.

Definition ends (complete : bool) (line : list Z) : list (list Z) :=
  if complete && negb (Nat.eqb (length line) 0) then [line] else [].

Lemma set_lane_lane s l n m : lane s (set_lane s l n m) = l.
Proof. by destruct s. Qed.

Lemma set_lane_other s l n m s' : s' <> s -> lane s' (set_lane s l n m) = lane s' m.
Proof. by destruct s, s'. Qed.

Lemma set_lane_rest s l n m :
  max_line_bytes (set_lane s l n m) = max_line_bytes m /\ seq (set_lane s l n m) = n.
Proof. by destruct s. Qed.

Lemma wadd_0_l n : wadd 64 0 n = wrap 64 n.
Proof. done. Qed.

Lemma wadd_wrap a b : wadd 64 (wrap 64 a) b = wrap 64 (a + b).
Proof. unfold wadd, wrap. apply Zplus_mod_idemp_l. Qed.

Lemma lane_rel_spilled max cur l :
  (max < length cur)%nat -> partial l = [] -> is_Some (spilling l) -> lane_rel max cur l.
Proof. intros. unfold lane_rel. by destruct (Nat.leb_spec (length cur) max); [lia|]. Qed.

(** From the unfinished line [cur], lane [s] completed [lines] and is left with
    [cur']: the other lane is untouched, the items stand for the lines and, as long
    as the sink holds only this lane's line, the totals are exact. *)
Definition moved (s : StdStream) (cur : list Z) (lines : list (list Z)) (cur' : list Z)
    (m : StreamMux) (k : SpillSink) (items : list StreamItem) (m' : StreamMux) (k' : SpillSink)
    : Prop :=
  max_line_bytes m' = max_line_bytes m
  /\ (forall s', s' <> s -> lane s' m' = lane s' m)
  /\ lane_rel (max_line_bytes m) cur' (lane s m')
  /\ emits (max_line_bytes m) (seq m) (pair s <$> lines) items
  /\ seq m' = seq_after (seq m) lines
  /\ (sink_rel (max_line_bytes m) cur k ->
        sink_rel (max_line_bytes m) cur' k' /\ Forall2 total_exact lines items).

Definition absorbed s cur bytes (complete : bool) m k items m' k' : Prop :=
  moved s cur (ends complete (cur ++ bytes)) (if complete then [] else cur ++ bytes) m k items m' k'.

Lemma seq_after_fmap {A B} (f : A -> B) n l : seq_after n (f <$> l) = seq_after n l.
Proof. revert n. induction l; intros; cbn; auto. Qed.

Lemma moved_trans s cur l1 c1 l2 c2 m k i1 m1 k1 i2 m2 k2 :
  moved s cur l1 c1 m k i1 m1 k1 -> moved s c1 l2 c2 m1 k1 i2 m2 k2 ->
  moved s cur (l1 ++ l2) c2 m k (i1 ++ i2) m2 k2.
Proof.
  intros (Hm1 & Ho1 & Hl1 & He1 & Hs1 & Hk1) (Hm2 & Ho2 & Hl2 & He2 & Hs2 & Hk2).
  rewrite Hm1 in *. split_and!; [congruence| | | | |].
  - intros s' Hs'. by rewrite Ho2, Ho1.
  - done.
  - rewrite fmap_app. apply emits_app; [done|]. by rewrite seq_after_fmap, <- Hs1.
  - by rewrite seq_after_app, <- Hs1.
  - intros Hk. destruct (Hk1 Hk) as [Hk' ?]. destruct (Hk2 Hk'). split; [done|]. by apply Forall2_app.
Qed.

Lemma absorbed_spilled s cur bytes m k id total k' :
  (max_line_bytes m < length (cur ++ bytes))%nat ->
  (sink_rel (max_line_bytes m) cur k -> total = wrap 64 (Z.of_nat (length (cur ++ bytes)))) ->
  absorbed s cur bytes true m k [SpilledLine s (wadd 64 (seq m) 1) id total]
    (set_lane s {| partial := []; spilling := None |} (wadd 64 (seq m) 1) m) k'.
Proof.
  intros Hover Ht. unfold absorbed, moved, ends. cbn [andb].
  destruct (set_lane_rest s {| partial := []; spilling := None |} (wadd 64 (seq m) 1) m) as [Hm Hs].
  rewrite (proj2 (Nat.eqb_neq _ _)) by lia. cbn [negb].
  split_and!; [done|by intros; apply set_lane_other|by rewrite set_lane_lane|done|done|].
  intros Hk. split; [intros ?; cbn in *; lia|]. repeat constructor. cbn. auto.
Qed.

Lemma absorbed_open s cur bytes m k l n k' :
  (max_line_bytes m < length (cur ++ bytes))%nat -> partial l = [] -> is_Some (spilling l) ->
  n = seq m ->
  (sink_rel (max_line_bytes m) cur k -> open_bytes k' = wrap 64 (Z.of_nat (length (cur ++ bytes)))) ->
  absorbed s cur bytes false m k [] (set_lane s l n m) k'.
Proof.
  intros Hover Hp Hs -> Hk. unfold absorbed, moved.
  destruct (set_lane_rest s l (seq m) m) as [Hm Hq].
  split_and!; [done|by intros; apply set_lane_other| |done|done|].
  - rewrite set_lane_lane. by apply lane_rel_spilled.
  - intros H. split; [|constructor]. intros _. auto.
Qed.

Lemma absorbed_fits s cur bytes complete m k :
  (length (cur ++ bytes) <= max_line_bytes m)%nat ->
  let ok := complete && negb (Nat.eqb (length (cur ++ bytes)) 0) in
  let n := if ok then wadd 64 (seq m) 1 else seq m in
  absorbed s cur bytes complete m k (if ok then [Line s n (cur ++ bytes)] else [])
    (set_lane s {| partial := if ok then [] else cur ++ bytes; spilling := None |} n m) k.
Proof.
  intros Hfit ok n. unfold absorbed, moved, ends. fold ok.
  destruct (set_lane_rest s {| partial := if ok then [] else cur ++ bytes; spilling := None |} n m) as [Hm Hs].
  rewrite Hm, Hs, set_lane_lane.
  split_and!; [done|by intros; apply set_lane_other| | | |].
  - unfold lane_rel, ok. destruct complete; cbn [andb length Nat.leb].
    + destruct (cur ++ bytes); done.
    + by rewrite (proj2 (Nat.leb_le _ _)).
  - unfold n. by destruct ok.
  - unfold n. by destruct ok.
  - intros _. split.
    + intros Hgt. destruct complete; cbn in Hgt; lia.
    + destruct ok; by repeat constructor.
Qed.

Lemma absorb_rel s bytes complete m k cur :
  lane_rel (max_line_bytes m) cur (lane s m) ->
  let '(items, (m', k')) := absorb s bytes complete (m, k) in
  absorbed s cur bytes complete m k items m' k'.
Proof.
  unfold lane_rel. intros Hrel. unfold absorb.
  destruct (Nat.leb_spec (length cur) (max_line_bytes m)) as [Hle|Hgt].
  - rewrite Hrel. cbn [spilling partial].
    destruct (Nat.ltb_spec (max_line_bytes m) (length cur + length bytes)) as [Hover|Hfit].
    + rewrite <- length_app in Hover. cbn [sink_open sink_close sink_append open_bytes].
      assert (wadd 64 (wadd 64 0 (Z.of_nat (length cur))) (Z.of_nat (length bytes))
              = wrap 64 (Z.of_nat (length (cur ++ bytes)))) as Ht
        by (by rewrite wadd_0_l, wadd_wrap, <- Nat2Z.inj_add, <- length_app).
      destruct complete; [by apply absorbed_spilled|].
      apply absorbed_open; [done|done|by eexists|done|by intros _].
    + rewrite <- length_app in Hfit. pose proof (absorbed_fits s cur bytes complete m k Hfit) as H.
      cbn zeta in H. by destruct (complete && _).
  - destruct Hrel as [Hp [id Hid]]. rewrite Hid, Hp. cbn [sink_append sink_close open_bytes].
    assert (max_line_bytes m < length (cur ++ bytes))%nat as Hover by (rewrite length_app; lia).
    assert (sink_rel (max_line_bytes m) cur k ->
      wadd 64 (open_bytes k) (Z.of_nat (length bytes)) = wrap 64 (Z.of_nat (length (cur ++ bytes)))) as Ht.
    { intros Hs. rewrite Hs by done. by rewrite wadd_wrap, <- Nat2Z.inj_add, <- length_app. }
    destruct complete; [by apply absorbed_spilled|].
    assert (set_lane s (lane s m) (seq m) m = m) as Hsame by (by destruct s, m).
    rewrite <- Hsame at 2. apply absorbed_open; [done|done|by rewrite Hid|done|done].
Qed.

(** ** A whole chunk *)

Lemma moved_none s cur m k :
  lane_rel (max_line_bytes m) cur (lane s m) -> moved s cur [] cur m k [] m k.
Proof. intros. split_and!; try done. Qed.

Lemma feed_loop_rel fuel s rest m k cur :
  (length rest <= fuel)%nat -> lane_rel (max_line_bytes m) cur (lane s m) ->
  let '(items, (m', k')) := feed_loop fuel s rest (m, k) in
  let (lines, cur') := cut cur rest in
  moved s cur lines cur' m k items m' k'.
Proof.
  revert rest m k cur. induction fuel as [|fuel IH]; intros rest m k cur Hf Hr.
  { destruct rest; cbn in *; [by apply moved_none|lia]. }
  destruct rest as [|b0 rest0]; [by apply moved_none|]. set (rest := b0 :: rest0) in *.
  change (feed_loop (S fuel) s rest (m, k)) with
    (let '(piece, complete) :=
       match list_find (fun b => b = 10) rest with
       | Some (i, _) => (take (S i) rest, true)
       | None => (rest, false)
       end in
     let (items, st1) := absorb s piece complete (m, k) in
     let (more, st2) := feed_loop fuel s (drop (length piece) rest) st1 in
     (items ++ more, st2)).
  destruct (list_find _ rest) as [[i x]|] eqn:Hfind.
  - apply list_find_Some in Hfind as (Hi & -> & Hpre).
    rewrite (take_S_r _ _ _ Hi).
    assert (rest = take i rest ++ 10 :: drop (S i) rest) as Hrest by (symmetry; by apply take_drop_middle).
    assert (10 ∉ take i rest) as Hni.
    { intros (j & Hj)%list_elem_of_lookup. apply lookup_take_Some in Hj as [Hj Hlt]. by eapply Hpre. }
    replace (drop (length (take i rest ++ [10])) rest) with (drop (S i) rest).
    2: { rewrite length_app, length_take. apply lookup_lt_Some in Hi. cbn [length]. f_equal. lia. }
    pose proof (absorb_rel s (take i rest ++ [10]) true m k cur Hr) as Ha.
    destruct (absorb s (take i rest ++ [10]) true (m, k)) as [items [m1 k1]].
    unfold absorbed, ends in Ha. rewrite (proj2 (Nat.eqb_neq _ _)) in Ha by (rewrite !length_app; cbn; lia).
    cbn [andb negb] in Ha.
    specialize (IH (drop (S i) rest) m1 k1 []).
    destruct (feed_loop fuel s (drop (S i) rest) (m1, k1)) as [more [m2 k2]].
    assert (cut cur rest = let (ls, c) := cut [] (drop (S i) rest) in
                           ((cur ++ take i rest ++ [10]) :: ls, c)) as ->
      by (rewrite <- cut_line by done; f_equal; exact Hrest).
    destruct (cut [] (drop (S i) rest)) as [lines cur'].
    apply (moved_trans s cur [cur ++ take i rest ++ [10]] [] lines cur' m k items m1 k1); [done|].
    apply IH.
    + rewrite length_drop. cbn [length] in Hf. lia.
    + destruct Ha as (Hm & _ & Hl & _). by rewrite Hm.
  - apply list_find_None in Hfind.
    pose proof (absorb_rel s rest false m k cur Hr) as Ha.
    destruct (absorb s rest false (m, k)) as [items [m1 k1]].
    rewrite drop_all. assert (feed_loop fuel s [] (m1, k1) = ([], (m1, k1))) as -> by (by destruct fuel).
    rewrite app_nil_r, cut_none; [done|]. intros Hin. rewrite Forall_forall in Hfind. by apply (Hfind 10).
Qed.

Lemma finish_rel s m k cur :
  lane_rel (max_line_bytes m) cur (lane s m) ->
  let '(item, (m', k')) := finish s (m, k) in
  moved s cur (ends true cur) [] m k (option_list item) m' k'.
Proof.
  intros Hr. unfold finish. cbn [fst].
  pose proof (absorb_rel s [] true m k cur Hr) as Ha. unfold absorbed in Ha. rewrite app_nil_r in Ha.
  assert (cur = [] -> moved s cur (ends true cur) [] m k [] m k) as Hnone.
  { intros ->. by apply moved_none. }
  assert (cur = [] <-> spilling (lane s m) = None /\ partial (lane s m) = []) as Hempty.
  { unfold lane_rel in Hr. destruct (Nat.leb_spec (length cur) (max_line_bytes m)).
    - rewrite Hr. cbn. tauto.
    - destruct Hr as [Hp [id Hid]]. rewrite Hid. split; [intros ->; cbn in *; lia|by intros []]. }
  assert (cur <> [] -> let '(items, (m', k')) := absorb s [] true (m, k) in
            moved s cur (ends true cur) [] m k (option_list (last items)) m' k') as Hsome.
  { intros Hne. destruct (absorb s [] true (m, k)) as [items [m' k']].
    assert (ends true cur = [cur]) as He by (destruct cur; done). rewrite He in *.
    pose proof Ha as (_ & _ & _ & Hem & _). destruct items as [|it [|? ?]]; cbn in *; try tauto. }
  destruct (spilling (lane s m)) as [id|].
  - assert (cur <> []) as Hne by (intros [? _]%Hempty; done). specialize (Hsome Hne).
    by destruct (absorb s [] true (m, k)) as [items [m' k']].
  - destruct (partial (lane s m)) as [|b bs].
    + apply Hnone. by apply Hempty.
    + assert (cur <> []) as Hne by (intros [_ ?]%Hempty; done). specialize (Hsome Hne).
      by destruct (absorb s [] true (m, k)) as [items [m' k']].
Qed.

(** ** Any interleaving of the two streams *)

Inductive op := Feed (s : StdStream) (chunk : list Z) | Finish (s : StdStream).

Definition op_stream (o : op) : StdStream := match o with Feed s _ | Finish s => s end.

Definition perform (o : op) (st : StreamMux * SpillSink) : list StreamItem * (StreamMux * SpillSink) :=
  match o with
  | Feed s chunk => feed s chunk st
  | Finish s => let (item, st) := finish s st in (option_list item, st)
  end.

Fixpoint run (os : list op) (st : StreamMux * SpillSink) : list StreamItem * (StreamMux * SpillSink) :=
  match os with
  | [] => ([], st)
  | o :: os =>
      let (items, st1) := perform o st in
      let (more, st2) := run os st1 in
      (items ++ more, st2)
  end.

(** The lines an operation completes on its lane, and what is left unfinished. *)
Definition lines_of (o : op) (cur : list Z) : list (list Z) * list Z :=
  match o with
  | Feed _ chunk => cut cur chunk
  | Finish _ => (ends true cur, [])
  end.

(** The unfinished line of every lane. *)
Definition update (s : StdStream) (c : list Z) (curs : StdStream -> list Z) : StdStream -> list Z :=
  fun s' => if decide (s' = s) then c else curs s'.

(** All lines, in the order in which they are completed. *)
Fixpoint expected (os : list op) (curs : StdStream -> list Z)
    : list (StdStream * list Z) * (StdStream -> list Z) :=
  match os with
  | [] => ([], curs)
  | o :: os =>
      let (lines, c) := lines_of o (curs (op_stream o)) in
      let (more, curs') := expected os (update (op_stream o) c curs) in
      ((pair (op_stream o) <$> lines) ++ more, curs')
  end.

(** The bytes fed to one stream. *)
Fixpoint input (s : StdStream) (os : list op) : list Z :=
  match os with
  | [] => []
  | Feed s' chunk :: os => (if decide (s' = s) then chunk else []) ++ input s os
  | Finish _ :: os => input s os
  end.

Definition fresh (s : StdStream) : list Z := [].

Lemma perform_rel o m k cur :
  lane_rel (max_line_bytes m) cur (lane (op_stream o) m) ->
  let '(items, (m', k')) := perform o (m, k) in
  let (lines, cur') := lines_of o cur in
  moved (op_stream o) cur lines cur' m k items m' k'.
Proof.
  intros Hr. destruct o as [s chunk|s]; cbn [perform lines_of op_stream] in *.
  - by apply feed_loop_rel.
  - pose proof (finish_rel s m k cur Hr) as H. by destruct (finish s (m, k)) as [item [m' k']].
Qed.

Lemma expected_input s os curs :
  let (lines, curs') := expected os curs in
  concat (snd <$> filter (fun x => fst x = s) lines) ++ curs' s = curs s ++ input s os.
Proof.
  revert curs. induction os as [|o os IH]; intros curs; cbn [expected input].
  { by rewrite app_nil_r. }
  destruct (lines_of o (curs (op_stream o))) as [lines c] eqn:Hl.
  specialize (IH (update (op_stream o) c curs)).
  destruct (expected os (update (op_stream o) c curs)) as [more curs'].
  rewrite filter_app, fmap_app, concat_app, <- app_assoc, IH. unfold update.
  assert (concat lines ++ c = curs (op_stream o) ++ match o with Feed _ chunk => chunk | _ => [] end) as Hc.
  { destruct o as [s0 chunk|s0]; cbn in Hl |- *.
    - pose proof (cut_concat (curs s0) chunk) as H. by rewrite Hl in H.
    - injection Hl as <- <-. unfold ends. destruct (curs s0); cbn; by rewrite ?app_nil_r. }
  case_decide as Hs.
  - subst s. assert (snd <$> filter (fun x => fst x = op_stream o) (pair (op_stream o) <$> lines) = lines) as ->.
    { clear. induction lines as [|l lines IH]; [done|]. rewrite fmap_cons, filter_cons. cbn.
      rewrite decide_True by done. cbn. by rewrite IH. }
    rewrite app_assoc, Hc, <- app_assoc. f_equal.
    destruct o; cbn; [by rewrite decide_True|done].
  - assert (filter (fun x => fst x = s) (pair (op_stream o) <$> lines) = []) as ->.
    { clear -Hs. induction lines as [|l lines IH]; [done|]. rewrite fmap_cons, filter_cons. cbn.
      by rewrite decide_False by congruence. }
    cbn. f_equal. destruct o; cbn in *; [by rewrite decide_False by congruence|done].
Qed.

Lemma run_rel os m k curs :
  (forall s, lane_rel (max_line_bytes m) (curs s) (lane s m)) ->
  let '(items, (m', k')) := run os (m, k) in
  let (lines, curs') := expected os curs in
  max_line_bytes m' = max_line_bytes m
  /\ (forall s, lane_rel (max_line_bytes m) (curs' s) (lane s m'))
  /\ emits (max_line_bytes m) (seq m) lines items.
Proof.
  revert m k curs. induction os as [|o os IH]; intros m k curs Hr; cbn [run expected]; [done|].
  pose proof (perform_rel o m k (curs (op_stream o)) (Hr _)) as Hp.
  destruct (perform o (m, k)) as [items [m1 k1]].
  destruct (lines_of o (curs (op_stream o))) as [lines c].
  destruct Hp as (Hm & Ho & Hl & He & Hs & _).
  specialize (IH m1 k1 (update (op_stream o) c curs)).
  destruct (run os (m1, k1)) as [more [m2 k2]].
  destruct (expected os (update (op_stream o) c curs)) as [rest curs'].
  rewrite Hm in IH. destruct IH as (Hm2 & Hl2 & He2).
  - intros s. unfold update. case_decide as Hd; [by subst|]. by rewrite Ho.
  - split_and!; [done|done|]. apply emits_app; [done|]. by rewrite seq_after_fmap, <- Hs.
Qed.

(** C26: the stream splitter is byte exact, ordered and bounded.  However stdout and
    stderr are cut into chunks and interleaved, it emits one item per completed line
    in the order of completion, numbered consecutively across both streams: the
    exact bytes for a line within the bound, a spill marker for a longer one; the
    lines of a stream and what is still unfinished are together exactly the bytes it
    was fed; and at no time does a lane keep more than the bound in memory. *)
Theorem mux_exact max k os s :
  let '(items, (m, _)) := run os (mux_new max, k) in
  let (lines, curs) := expected os fresh in
  emits max 0 lines items
  /\ concat (snd <$> filter (fun x => fst x = s) lines) ++ curs s = input s os
  /\ (length (partial (lane s m)) <= max)%nat /\ (resident_bytes m <= 2 * max)%nat.
Proof.
  pose proof (run_rel os (mux_new max) k fresh) as H.
  pose proof (expected_input s os fresh) as Hi.
  destruct (run os (mux_new max, k)) as [items [m k']].
  destruct (expected os fresh) as [lines curs]. cbn [max_line_bytes mux_new] in H.
  destruct H as (_ & Hl & He); [by intros []|].
  assert (forall s', length (partial (lane s' m)) <= max)%nat as Hb.
  { intros s'. specialize (Hl s'). unfold lane_rel in Hl.
    destruct (Nat.leb_spec (length (curs s')) max); [by rewrite Hl|]. destruct Hl as [-> _]. cbn. lia. }
  split_and!; [done|done|done|]. unfold resident_bytes.
  pose proof (Hb Stdout). pose proof (Hb Stderr). cbn in *. lia.
Qed.

Lemma run_totals s os m k cur :
  Forall (fun o => op_stream o = s) os ->
  lane_rel (max_line_bytes m) cur (lane s m) -> sink_rel (max_line_bytes m) cur k ->
  forall curs, curs s = cur ->
  Forall2 (fun x => total_exact (snd x)) (fst (expected os curs)) (fst (run os (m, k))).
Proof.
  intros Hos. revert m k cur. induction Hos as [|o os Ho Hos IH]; intros m k cur Hr Hk curs Hc;
    cbn [run expected]; [constructor|].
  subst s. pose proof (perform_rel o m k cur Hr) as Hp. rewrite Hc.
  destruct (perform o (m, k)) as [items [m1 k1]]. destruct (lines_of o cur) as [lines c].
  destruct Hp as (Hm & _ & Hl & _ & _ & Hsk). destruct (Hsk Hk) as [Hk1 Hex].
  specialize (IH m1 k1 c). rewrite Hm in IH.
  specialize (IH Hl Hk1 (update (op_stream o) c curs)). unfold update in IH at 1.
  rewrite decide_True in IH by done. specialize (IH eq_refl).
  destruct (run os (m1, k1)) as [more st2]. destruct (expected os _) as [rest curs'].
  cbn [fst] in *. apply Forall2_app; [|done]. by apply Forall2_fmap_l.
Qed.

(** A spilled line is accounted for exactly when one stream uses the sink: for
    any feeding of a single stream, every spill marker carries the length of its
    line. *)
Theorem single_stream_totals s max k os :
  Forall (fun o => op_stream o = s) os ->
  Forall2 (fun x => total_exact (snd x)) (fst (expected os fresh)) (fst (run os (mux_new max, k))).
Proof. intros Hos. apply (run_totals s os _ _ []); [done|by destruct s|by intros ?; cbn in *; lia|done]. Qed.

Lemma single_stream_totals_witness :
  Forall2 (fun x => total_exact (snd x))
    [(Stdout, [97; 10]); (Stdout, [98; 98; 98; 10])]
    [Line Stdout 1 [97; 10]; SpilledLine Stdout 2 1 4].
Proof.
  apply (single_stream_totals Stdout 2 default_sink
           [Feed Stdout [97; 10; 98]; Feed Stdout [98; 98]; Feed Stdout [10]]).
  repeat constructor.
Defined.

(** Both streams in the middle of an oversized line. *)
Definition both_spill : list op :=
  [Feed Stdout [97; 97; 97; 97; 97]; Feed Stderr [98; 98; 98; 98; 98; 98];
   Feed Stdout [10]; Feed Stderr [10]].

(** Two streams that spill at once corrupt each other's totals, because the sink
    counts one open object: the lines are six and seven bytes long, the markers say
    seven and one. *)
Theorem concurrent_spills_miscount :
  fst (expected both_spill fresh)
  = [(Stdout, [97; 97; 97; 97; 97; 10]); (Stderr, [98; 98; 98; 98; 98; 98; 10])]
  /\ fst (run both_spill (mux_new 4, default_sink))
     = [SpilledLine Stdout 1 1 7; SpilledLine Stderr 2 2 1]
  /\ objects (snd (snd (run both_spill (mux_new 4, default_sink)))) = [(1, 7); (2, 1)].
Proof. vm_compute. done. Qed.

End Chunker.

Module SubscriberQueue.

Record QueuedFrame := { frame_seq : Z; bytes : list Z }.

Record QueueBudgets := { memory_bytes : nat; spill_bytes : nat }.

Inductive EnqueueOutcome :=
  | InMemory
  | Spilled
  | DetachSlowSubscriber (needed spill_available : nat).

Record queue := {
  budgets : QueueBudgets;
  memory : list QueuedFrame;
  memory_used : nat;
  spill : list QueuedFrame;
  spill_used : nat;
}.

Definition queue_new (b : QueueBudgets) : queue :=
  {| budgets := b; memory := []; memory_used := 0; spill := []; spill_used := 0 |}.

Definition queue_len (q : queue) : nat := length (memory q) + length (spill q).

Definition enqueue (f : QueuedFrame) (q : queue) : EnqueueOutcome * queue :=
  let size := length (bytes f) in
  if (match spill q with [] => true | _ => false end)
     && Nat.leb (memory_used q + size) (memory_bytes (budgets q))
  then (InMemory, {| budgets := budgets q; memory := memory q ++ [f];
                     memory_used := memory_used q + size; spill := spill q;
                     spill_used := spill_used q |})
  else if Nat.leb (spill_used q + size) (spill_bytes (budgets q))
  then (Spilled, {| budgets := budgets q; memory := memory q; memory_used := memory_used q;
                    spill := spill q ++ [f]; spill_used := spill_used q + size |})
  else (DetachSlowSubscriber size (spill_bytes (budgets q) - spill_used q), q).

Definition dequeue (q : queue) : option QueuedFrame * queue :=
  match memory q with
  | f :: rest =>
      (Some f, {| budgets := budgets q; memory := rest;
                  memory_used := memory_used q - length (bytes f); spill := spill q;
                  spill_used := spill_used q |})
  | [] =>
      match spill q with
      | f :: rest =>
          (Some f, {| budgets := budgets q; memory := []; memory_used := memory_used q;
                      spill := rest; spill_used := spill_used q - length (bytes f) |})
      | [] => (None, q)
      end
  end.

Definition clear (q : queue) : queue :=
  {| budgets := budgets q; memory := []; memory_used := 0; spill := []; spill_used := 0 |}.

(** ** A bounded FIFO *)

(** The frames waiting, oldest first. *)
Definition waiting (q : queue) : list QueuedFrame := memory q ++ spill q.

Definition size_of (l : list QueuedFrame) : nat := length (concat (bytes <$> l)).

(** The counters are exact and within the budgets. *)
Record wf (q : queue) : Prop := {
  wf_memory : memory_used q = size_of (memory q);
  wf_spill : spill_used q = size_of (spill q);
  wf_memory_bound : (memory_used q <= memory_bytes (budgets q))%nat;
  wf_spill_bound : (spill_used q <= spill_bytes (budgets q))%nat;
}.

Inductive op := Enqueue (f : QueuedFrame) | Dequeue | Clear.

(** The abstract queue: a list, with the frames dropped by a refusal. *)
Definition perform (o : op) (q : queue) : option QueuedFrame * queue :=
  match o with
  | Enqueue f => (None, snd (enqueue f q))
  | Dequeue => dequeue q
  | Clear => (None, clear q)
  end.

(** What the operation does to the list of waiting frames. *)
Definition spec (o : op) (refused : bool) (l : list QueuedFrame)
    : option QueuedFrame * list QueuedFrame :=
  match o with
  | Enqueue f => (None, if refused then l else l ++ [f])
  | Dequeue => match l with [] => (None, []) | f :: l => (Some f, l) end
  | Clear => (None, [])
  end.

(** A frame is refused only when it fits neither budget: memory is full, or closed
    because older frames are spilled, and the spill region is full. *)
Definition refuses (o : op) (q : queue) : bool :=
  match o with
  | Enqueue f =>
      Nat.ltb (spill_bytes (budgets q)) (size_of (spill q) + length (bytes f))
      && (negb (Nat.eqb (length (spill q)) 0)
          || Nat.ltb (memory_bytes (budgets q)) (size_of (memory q) + length (bytes f)))
  | _ => false
  end.

Lemma size_of_app l1 l2 : size_of (l1 ++ l2) = (size_of l1 + size_of l2)%nat.
Proof. unfold size_of. by rewrite fmap_app, concat_app, length_app. Qed.

Lemma size_of_cons f l : size_of (f :: l) = (length (bytes f) + size_of l)%nat.
Proof. unfold size_of. cbn. by rewrite length_app. Qed.

Lemma size_of_one f : size_of [f] = length (bytes f).
Proof. rewrite size_of_cons. cbn. lia. Qed.

(** A subscriber's queue is a FIFO within hard bounds.  Every operation does to
    the frames waiting, in memory or spilled, what it does to a plain list: enqueue
    appends, dequeue takes the oldest, clear empties; an enqueue is refused exactly
    when neither budget has room, and then nothing changes; and the byte counters
    stay exact and within both budgets. *)
Theorem queue_refines_fifo o q :
  wf q ->
  let '(r, q') := perform o q in
  wf q' /\ budgets q' = budgets q /\ (r, waiting q') = spec o (refuses o q) (waiting q)
  /\ (refuses o q = true -> q' = q).
Proof.
  intros Hw. pose proof Hw as [Hm Hs Hmb Hsb]. destruct o as [f| |]; cbn [perform spec refuses].
  - unfold enqueue. rewrite <- Hs, <- Hm.
    destruct (spill q) as [|g gs] eqn:Hsp; cbn [length Nat.eqb negb orb andb].
    + destruct (Nat.leb_spec (memory_used q + length (bytes f)) (memory_bytes (budgets q))) as [H1|H1].
      * rewrite (proj2 (Nat.ltb_ge (memory_bytes (budgets q)) _)) by lia.
        rewrite andb_false_r. split_and!; try done; [|unfold waiting; cbn; by rewrite Hsp, !app_nil_r].
        constructor; cbn [snd memory memory_used spill spill_used budgets]; rewrite ?Hsp; try lia.
        rewrite size_of_app, size_of_one. lia.
      * rewrite (proj2 (Nat.ltb_lt (memory_bytes (budgets q)) _)) by lia. rewrite andb_true_r.
        destruct (Nat.leb_spec (spill_used q + length (bytes f)) (spill_bytes (budgets q))) as [H2|H2].
        -- rewrite (proj2 (Nat.ltb_ge _ _)) by lia.
           split_and!; try done; [|unfold waiting; cbn; by rewrite Hsp, app_nil_r].
           constructor; cbn [snd memory memory_used spill spill_used budgets app]; try lia.
           rewrite size_of_one, Hs. cbn. lia.
        -- rewrite (proj2 (Nat.ltb_lt _ _)) by lia. by split_and!.
    + rewrite andb_true_r.
      destruct (Nat.leb_spec (spill_used q + length (bytes f)) (spill_bytes (budgets q))) as [H2|H2].
      * rewrite (proj2 (Nat.ltb_ge _ _)) by lia.
        split_and!; try done; [|unfold waiting; cbn; rewrite Hsp; by rewrite <- app_assoc].
        constructor; cbn [snd memory memory_used spill spill_used budgets]; try lia.
        rewrite size_of_app, size_of_one. lia.
      * rewrite (proj2 (Nat.ltb_lt _ _)) by lia. by split_and!.
  - unfold dequeue, waiting. destruct (memory q) as [|f rest] eqn:Hmem.
    + destruct (spill q) as [|g gs] eqn:Hsp; cbn; [by rewrite Hmem, Hsp|].
      split_and!; try done. rewrite size_of_cons in Hs.
      constructor; cbn [snd memory memory_used spill spill_used budgets]; lia.
    + cbn. split_and!; try done. rewrite size_of_cons in Hm.
      constructor; cbn [snd memory memory_used spill spill_used budgets]; lia.
  - split_and!; try done. constructor; cbn; lia.
Qed.

Lemma queue_new_wf b : wf (queue_new b).
Proof. constructor; cbn; lia. Qed.

(** Four bytes of memory, three of spill; two frames in memory and one spilled. *)
Definition sample_queue : queue :=
  snd (enqueue {| frame_seq := 3; bytes := [7; 7] |}
    (snd (enqueue {| frame_seq := 2; bytes := [6; 6] |}
      (snd (enqueue {| frame_seq := 1; bytes := [5] |}
        (queue_new {| memory_bytes := 4; spill_bytes := 3 |})))))).

Lemma queue_refines_fifo_witness :
  refuses (Enqueue {| frame_seq := 4; bytes := [8; 8] |}) sample_queue = true
  /\ snd (perform (Enqueue {| frame_seq := 4; bytes := [8; 8] |}) sample_queue) = sample_queue.
Proof.
  split; [reflexivity|].
  apply (queue_refines_fifo (Enqueue {| frame_seq := 4; bytes := [8; 8] |}) sample_queue);
    [constructor; cbn; lia|reflexivity].
Defined.

End SubscriberQueue.
