(* ===== verification/Manifest.v ===== *)
(** * Result manifests and their byte encoding
    (rabs-protocol/src/result_identity.rs, rabs-cas/src/manifest_codec.rs)

    [ResultIdentity] holds the typed digests and the canonical result manifest with
    its validation and the same-key divergence classes.  [ManifestCodec] is the
    encoding of a manifest as a CAS object: the writer, the cursor with its typed
    refusals and the decoder.  The decoder is shown to accept exactly the bytes the
    writer produces, in both directions, field by field. *)

From stdpp Require Import base list strings sorting.
From Stdlib Require Import ZArith Lia.
From S2P Require Import Prelude Bytes.

Module ResultIdentity.

(** One variant, as in the source: other algorithms are unrepresentable. *)
Inductive DigestAlgorithm := Sha256V1.

Record TypedDigest := {
  algorithm : DigestAlgorithm;
  domain : string;
  digest_bytes : list Z;  (* [u8; 32] *)
}.

#[export] Instance DigestAlgorithm_eq_dec : EqDecision DigestAlgorithm.
Proof. solve_decision. Defined.
#[export] Instance TypedDigest_eq_dec : EqDecision TypedDigest.
Proof. solve_decision. Defined.

(** [ObjectId(TypedDigest)]. *)
Definition ObjectId : Type := TypedDigest.

Inductive ResultKind := Success | DeterministicFailure.

Inductive OutputRole :=
  | Materializable | DepInfo | ProvisionalMetadata | BuildScriptMetadata | TestSideEffect.

#[export] Instance ResultKind_eq_dec : EqDecision ResultKind.
Proof. solve_decision. Defined.
#[export] Instance OutputRole_eq_dec : EqDecision OutputRole.
Proof. solve_decision. Defined.

Record LogicalOutput := {
  role : OutputRole;
  virtual_path : list Z;  (* RawBytes *)
  object : ObjectId;
}.

Record CanonicalActionResultManifest := {
  action_key : TypedDigest;
  canonical_descriptor_digest : TypedDigest;
  key_epoch : Z;         (* u32 *)
  projection_epoch : Z;  (* u32 *)
  result_kind : ResultKind;
  artifact_bundle_root : option ObjectId;
  logical_outputs : list LogicalOutput;
  semantic_result_digest : TypedDigest;
  observable_result_digest : TypedDigest;
}.

Definition same_slot (a b : LogicalOutput) : bool :=
  bool_decide (role a = role b) && bool_decide (virtual_path a = virtual_path b).

(** The nested loop over pairs [i < j]. *)
Fixpoint has_duplicate (outputs : list LogicalOutput) : bool :=
  match outputs with
  | [] => false
  | a :: rest => existsb (same_slot a) rest || has_duplicate rest
  end.

Definition validate (m : CanonicalActionResultManifest) : result string unit :=
  let failed := bool_decide (result_kind m = DeterministicFailure) in
  if failed && match logical_outputs m with [] => false | _ => true end
  then Err "deterministic failures must have an empty output map"
  else if failed && match artifact_bundle_root m with None => false | Some _ => true end
  then Err "deterministic failures must have no artifact bundle root"
  else if has_duplicate (logical_outputs m)
  then Err "duplicate (role, virtual_path) in logical-output map"
  else Ok tt.

Inductive DivergenceClass :=
  | IdempotentSameResult | SemanticDivergence
  | ObservableOnlyDivergence | ProjectionCompletenessIncident.

Definition classify_same_key_candidate (committed : CanonicalActionResultManifest)
    (committed_manifest_id : ObjectId) (candidate : CanonicalActionResultManifest)
    (candidate_manifest_id : ObjectId) : DivergenceClass :=
  if decide ((committed_manifest_id : TypedDigest) = candidate_manifest_id)
  then IdempotentSameResult
  else if decide (semantic_result_digest committed ≠ semantic_result_digest candidate)
  then SemanticDivergence
  else if decide (observable_result_digest committed ≠ observable_result_digest candidate)
  then ObservableOnlyDivergence
  else ProjectionCompletenessIncident.

(** No two outputs share their role and path. *)
Definition distinct_slots (outputs : list LogicalOutput) : Prop :=
  NoDup ((fun o => (role o, virtual_path o)) <$> outputs).

Lemma has_duplicate_false outputs : has_duplicate outputs = false <-> distinct_slots outputs.
Proof.
  unfold distinct_slots. induction outputs as [|a rest IH]; cbn; [split; [constructor|done]|].
  rewrite orb_false_iff, NoDup_cons, IH. apply and_iff_compat_r.
  rewrite <- not_true_iff_false, existsb_exists. apply not_iff_compat. split.
  - intros (b & Hin & Hs). unfold same_slot in Hs. apply andb_prop in Hs as [H1 H2].
    apply bool_decide_eq_true in H1, H2. apply list_elem_of_fmap. exists b.
    split; [by rewrite H1, H2|]. by apply list_elem_of_In.
  - intros (b & Heq & Hin)%list_elem_of_fmap. exists b. split; [by apply list_elem_of_In|].
    unfold same_slot. simplify_eq. apply andb_true_intro.
    split; by apply bool_decide_eq_true.
Qed.

#[export] Instance distinct_slots_proper : Proper (Permutation ==> iff) distinct_slots.
Proof. intros l1 l2 Hp. unfold distinct_slots. by rewrite Hp. Qed.

(** The duplicate check does not depend on the order of the outputs. *)
#[export] Instance has_duplicate_proper : Proper (Permutation ==> eq) has_duplicate.
Proof.
  intros l1 l2 Hp. pose proof (has_duplicate_false l1) as H1.
  pose proof (has_duplicate_false l2) as H2. rewrite Hp in H1 at 2.
  destruct (has_duplicate l1), (has_duplicate l2); intuition congruence.
Qed.

End ResultIdentity.

Module ManifestCodec.
Import ResultIdentity.

(** ** Constants and tags *)

Definition DOMAIN_ACTION_KEY : string := "rabs.action-key.sha256.v1".
Definition DOMAIN_DESCRIPTOR : string := "rabs.descriptor.sha256.v1".
Definition DOMAIN_ARTIFACT_BUNDLE_ROOT : string := "rabs.artifact-bundle-root.v1".
Definition ATP_OBJECT_CONTENT_DOMAIN : string := "rabs.object.sha256.v1".
Definition SEMANTIC_PROJECTION_DOMAIN : string := "rabs.semantic-result-projection.sha256.v1".
Definition OBSERVABLE_PROJECTION_DOMAIN : string := "rabs.observable-result-projection.sha256.v1".

Definition MAGIC : list Z := str_bytes "RMF1".
Definition VERSION : Z := 1.
Definition ALGO_SHA256_V1 : Z := 1.

(** [UnexpectedDomain] carries the bytes found; the source shows them as text. *)
Inductive ManifestCodecError :=
  | BadMagic
  | UnsupportedVersion (v : Z)
  | Truncated (field : string)
  | TrailingBytes (n : nat)
  | UnexpectedDomain (field expected : string) (found : list Z)
  | UnknownAlgorithm (tag : Z)
  | UnknownResultKind (tag : Z)
  | UnknownOutputRole (tag : Z)
  | LengthOverflow (field : string).

Definition result_kind_tag (k : ResultKind) : Z :=
  match k with Success => 0 | DeterministicFailure => 1 end.
Definition result_kind_from_tag (t : Z) : option ResultKind :=
  match t with 0 => Some Success | 1 => Some DeterministicFailure | _ => None end.

Definition output_role_tag (r : OutputRole) : Z :=
  match r with
  | Materializable => 0 | DepInfo => 1 | ProvisionalMetadata => 2
  | BuildScriptMetadata => 3 | TestSideEffect => 4
  end.
Definition output_role_from_tag (t : Z) : option OutputRole :=
  match t with
  | 0 => Some Materializable | 1 => Some DepInfo | 2 => Some ProvisionalMetadata
  | 3 => Some BuildScriptMetadata | 4 => Some TestSideEffect | _ => None
  end.

(** ** The writer *)

(** The order [(role tag, path)] on outputs. *)
Definition output_leb (a b : LogicalOutput) : bool :=
  match output_role_tag (role a) ?= output_role_tag (role b) with
  | Lt => true
  | Gt => false
  | Eq => match bytes_cmp (virtual_path a) (virtual_path b) with Gt => false | _ => true end
  end.

Definition canonical_outputs (m : CanonicalActionResultManifest) : list LogicalOutput :=
  sort_by output_leb (logical_outputs m).

(** [uN::try_from(len).unwrap_or(uN::MAX)]. *)
Definition saturating_len (max : Z) (n : nat) : Z :=
  if Z.of_nat n <=? max then Z.of_nat n else max.

Definition put_digest (d : TypedDigest) : list Z :=
  let algo := match algorithm d with Sha256V1 => ALGO_SHA256_V1 end in
  let dom := str_bytes (domain d) in
  [algo] ++ be_bytes 2 (saturating_len U16_MAX (length dom)) ++ dom ++ digest_bytes d.

Definition put_output (o : LogicalOutput) : list Z :=
  [output_role_tag (role o)]
  ++ be_bytes 4 (saturating_len U32_MAX (length (virtual_path o)))
  ++ virtual_path o
  ++ put_digest (object o).

Definition put_root (r : option ObjectId) : list Z :=
  match r with None => [0] | Some root => [1] ++ put_digest root end.

(** The encoding with the outputs in the order given. *)
Definition encode_in_order (outputs : list LogicalOutput)
    (m : CanonicalActionResultManifest) : list Z :=
  MAGIC ++ [VERSION]
  ++ put_digest (action_key m)
  ++ put_digest (canonical_descriptor_digest m)
  ++ be_bytes 4 (key_epoch m)
  ++ be_bytes 4 (projection_epoch m)
  ++ [result_kind_tag (result_kind m)]
  ++ put_root (artifact_bundle_root m)
  ++ be_bytes 4 (saturating_len U32_MAX (length outputs))
  ++ concat (put_output <$> outputs)
  ++ put_digest (semantic_result_digest m)
  ++ put_digest (observable_result_digest m).

Definition encode_manifest_v1 (m : CanonicalActionResultManifest) : list Z :=
  encode_in_order (canonical_outputs m) m.

(** ** The reader *)

Record Reader := { buffer : list Z; at_ : nat }.

Definition reader_new (bs : list Z) : Reader := {| buffer := bs; at_ := 0 |}.

Abbreviation reading := (method Reader ManifestCodecError).

Definition take_n (n : Z) (field : string) : reading (list Z) := fun r =>
  match checked_add 64 (Z.of_nat (at_ r)) n with
  | None => (Err (LengthOverflow field), r)
  | Some end_ =>
      if end_ <=? Z.of_nat (length (buffer r)) then
        (Ok (firstn (Z.to_nat n) (skipn (at_ r) (buffer r))),
         {| buffer := buffer r; at_ := Z.to_nat end_ |})
      else (Err (Truncated field), r)
  end.

Definition read_u8 (field : string) : reading Z := b ← take_n 1 field; mret (from_be b).
Definition read_u16 (field : string) : reading Z := b ← take_n 2 field; mret (from_be b).
Definition read_u32 (field : string) : reading Z := b ← take_n 4 field; mret (from_be b).

Definition read_digest (field expected : string) : reading TypedDigest :=
  algo ← read_u8 field;
  _ ← refuse_if (negb (algo =? ALGO_SHA256_V1)) (UnknownAlgorithm algo);
  len ← read_u16 field;
  dom ← take_n len field;
  _ ← refuse_if (bool_decide (dom ≠ str_bytes expected)) (UnexpectedDomain field expected dom);
  b ← take_n 32 field;
  mret {| algorithm := Sha256V1; domain := expected; digest_bytes := b |}.

Definition read_output : reading LogicalOutput :=
  role_tag ← read_u8 "output_role";
  r ← lift_result (ok_or (output_role_from_tag role_tag) (UnknownOutputRole role_tag));
  path_len ← read_u32 "output_path_len";
  path ← take_n path_len "output_path";
  obj ← read_digest "output_object" ATP_OBJECT_CONTENT_DOMAIN;
  mret {| role := r; virtual_path := path; object := obj |}.

Fixpoint read_outputs (count : nat) : reading (list LogicalOutput) :=
  match count with
  | O => mret []
  | S count => o ← read_output; os ← read_outputs count; mret (o :: os)
  end.

Definition read_root : reading (option ObjectId) :=
  tag ← read_u8 "bundle_root_present";
  match tag with
  | 0 => mret None
  | 1 => root ← read_digest "bundle_root" DOMAIN_ARTIFACT_BUNDLE_ROOT; mret (Some root)
  | other => throw (UnknownResultKind other)
  end.

(** Everything the decoder reads before the end-of-buffer check. *)
Definition read_manifest : reading CanonicalActionResultManifest :=
  magic ← take_n 4 "magic";
  _ ← refuse_if (bool_decide (magic ≠ MAGIC)) BadMagic;
  version ← read_u8 "version";
  _ ← refuse_if (negb (version =? VERSION)) (UnsupportedVersion version);
  akey ← read_digest "action_key" DOMAIN_ACTION_KEY;
  desc ← read_digest "descriptor" DOMAIN_DESCRIPTOR;
  kep ← read_u32 "key_epoch";
  pep ← read_u32 "projection_epoch";
  kind_tag ← read_u8 "result_kind";
  kind ← lift_result (ok_or (result_kind_from_tag kind_tag) (UnknownResultKind kind_tag));
  root ← read_root;
  count ← read_u32 "output_count";
  outputs ← read_outputs (Z.to_nat count);
  sem ← read_digest "semantic_digest" SEMANTIC_PROJECTION_DOMAIN;
  obs ← read_digest "observable_digest" OBSERVABLE_PROJECTION_DOMAIN;
  mret {| action_key := akey; canonical_descriptor_digest := desc; key_epoch := kep;
          projection_epoch := pep; result_kind := kind; artifact_bundle_root := root;
          logical_outputs := outputs; semantic_result_digest := sem;
          observable_result_digest := obs |}.

Definition decode_manifest_v1 (bs : list Z)
    : result ManifestCodecError CanonicalActionResultManifest :=
  match read_manifest (reader_new bs) with
  | (Err e, _) => Err e
  | (Ok m, r) =>
      if Nat.eqb (at_ r) (length bs) then Ok m
      else Err (TrailingBytes (length bs - at_ r))
  end.

(** ** Readers that invert writers *)

(** A reader over a buffer of bytes; slices are shorter than [isize::MAX]. *)
Definition good (r : Reader) : Prop :=
  (at_ r <= length (buffer r))%nat /\ Z.of_nat (length (buffer r)) < 2 ^ 63
  /\ all_bytes (buffer r).

Definition rest (r : Reader) : list Z := skipn (at_ r) (buffer r).

(** [p] reads exactly the bytes [e] writes for the values [P] describes: it accepts
    every written value and leaves what follows it, and whatever it accepts was
    written. *)
Record codec {A} (P : A -> Prop) (e : A -> list Z) (p : reading A) : Prop := {
  codec_complete : forall r a tl, good r -> P a -> rest r = e a ++ tl ->
    exists r', p r = (Ok a, r') /\ good r' /\ rest r' = tl /\ buffer r' = buffer r;
  codec_sound : forall r a r', good r -> p r = (Ok a, r') ->
    P a /\ good r' /\ rest r = e a ++ rest r' /\ buffer r' = buffer r;
}.

Lemma codec_ret {A} (v : A) (P : A -> Prop) e :
  P v -> (forall a, P a -> a = v) -> e v = [] -> codec P e (mret v).
Proof.
  intros Hv Hu He. split.
  - intros r a tl Hg Ha Hr. rewrite (Hu a Ha), He in *. eauto.
  - intros r a r' Hg Hp. cbv in Hp. simplify_eq. by rewrite He.
Qed.

Lemma codec_bind {A B} (P1 : A -> Prop) e1 p (Q : B -> Prop) e2 e (k : A -> reading B) (π : B -> A) :
  codec P1 e1 p -> (forall b, Q b -> P1 (π b)) -> (forall b, Q b -> e b = e1 (π b) ++ e2 b) ->
  (forall a, P1 a -> codec (fun b => Q b /\ π b = a) e2 (k a)) ->
  codec Q e (x ← p; k x).
Proof.
  intros Hp Hπ He Hk. split.
  - intros r b tl Hg Hb Hr. rewrite (He b Hb), <- app_assoc in Hr.
    destruct (codec_complete _ _ _ Hp r (π b) _ Hg (Hπ b Hb) Hr) as (r1 & Hp1 & Hg1 & Hr1 & Hb1).
    destruct (codec_complete _ _ _ (Hk (π b) (Hπ b Hb)) r1 b tl Hg1 (conj Hb eq_refl) Hr1)
      as (r2 & Hp2 & Hg2 & Hr2 & Hb2).
    exists r2. unfold mbind, method_bind. rewrite Hp1. split_and!; try done. congruence.
  - intros r b r' Hg Hrun. unfold mbind, method_bind in Hrun.
    destruct (p r) as [[a|err] r1] eqn:Hp1; [|done].
    destruct (codec_sound _ _ _ Hp r a r1 Hg Hp1) as (Ha & Hg1 & Hr1 & Hb1).
    destruct (codec_sound _ _ _ (Hk a Ha) r1 b r' Hg1 Hrun) as ([Hb Heq] & Hg2 & Hr2 & Hb2).
    split_and!; try done; [|congruence].
    rewrite (He b Hb), Heq, Hr1, Hr2, <- app_assoc. done.
Qed.

Lemma codec_guard {B} (Q : B -> Prop) e (c : bool) err (k : reading B) :
  (forall b, Q b -> c = false) -> (c = false -> codec Q e k) ->
  codec Q e (_ ← refuse_if c err; k).
Proof.
  intros Hc Hk. split.
  - intros r b tl Hg Hb Hr. specialize (Hk (Hc b Hb)). rewrite (Hc b Hb).
    by apply (codec_complete _ _ _ Hk).
  - intros r b r' Hg Hrun. destruct c; [done|]. by apply (codec_sound _ _ _ (Hk eq_refl)).
Qed.

Lemma codec_lift {A B} (Q : B -> Prop) e (o : option A) err (k : A -> reading B) :
  (forall b, Q b -> is_Some o) -> (forall x, o = Some x -> codec Q e (k x)) ->
  codec Q e (x ← lift_result (ok_or o err); k x).
Proof.
  intros Ho Hk. destruct o as [x|]; [exact (Hk x eq_refl)|]. split.
  - intros r b tl Hg Hb. by destruct (Ho b Hb).
  - done.
Qed.

Lemma skipn_add_app {A} (n m : nat) (l pre tl : list A) :
  skipn n l = pre ++ tl -> m = length pre -> skipn (n + m) l = tl.
Proof. intros H ->. rewrite <- drop_drop, H. apply drop_app_length. Qed.

Lemma codec_take n field :
  0 <= n < 2 ^ 32 ->
  codec (fun b => Z.of_nat (length b) = n /\ all_bytes b) (fun b => b) (take_n n field).
Proof.
  intros Hn. split.
  - intros r b tl (Hat & Hlen & Hall) [Hl Hb] Hr. unfold take_n, checked_add, rest in *.
    assert (Z.of_nat (at_ r) + n <= Z.of_nat (length (buffer r))) as Hle.
    { apply (f_equal length) in Hr. rewrite length_app, length_skipn in Hr. lia. }
    destruct (Z.ltb_spec (Z.of_nat (at_ r) + n) (2 ^ 64)); [|lia].
    destruct (Z.leb_spec (Z.of_nat (at_ r) + n) (Z.of_nat (length (buffer r)))); [|lia].
    eexists. split; [|split; [|split]].
    + rewrite Hr. replace (Z.to_nat n) with (length b) by lia. by rewrite take_app_length.
    + split_and!; cbn; [lia|done|done].
    + unfold rest. cbn. replace (Z.to_nat (Z.of_nat (at_ r) + n)) with (at_ r + length b)%nat by lia.
      by eapply skipn_add_app.
    + done.
  - intros r b r' (Hat & Hlen & Hall) Hrun. unfold take_n, checked_add in Hrun.
    destruct (Z.ltb_spec (Z.of_nat (at_ r) + n) (2 ^ 64)); [|done].
    destruct (Z.leb_spec (Z.of_nat (at_ r) + n) (Z.of_nat (length (buffer r)))); [|done].
    simplify_eq. split_and!; cbn.
    + rewrite length_firstn, length_skipn. lia.
    + by apply Forall_take, Forall_drop.
    + split_and!; cbn; [lia|done|done].
    + unfold rest. cbn. replace (Z.to_nat (Z.of_nat (at_ r) + n)) with (at_ r + Z.to_nat n)%nat by lia.
      rewrite <- drop_drop. by rewrite take_drop.
    + done.
Qed.

Lemma codec_be w field :
  Z.of_nat w < 2 ^ 32 ->
  codec (fun v => 0 <= v < 256 ^ Z.of_nat w) (be_bytes w)
    (b ← take_n (Z.of_nat w) field; mret (from_be b)).
Proof.
  intros Hw. eapply (codec_bind _ _ _ _ (fun _ => []) _ _ (be_bytes w)).
  - apply codec_take. lia.
  - intros v Hv. cbn beta. rewrite be_bytes_length. split; [done|apply be_bytes_all].
  - intros v Hv. by rewrite app_nil_r.
  - intros b [Hl Hb]. apply codec_ret; [| |done].
    + assert (length b = w) as <- by lia. split; [by apply from_be_range | by apply be_from_be].
    + intros v [Hv <-]. by rewrite from_be_be.
Qed.

Lemma codec_u8 field : codec is_byte (fun v => [v]) (read_u8 field).
Proof.
  pose proof (codec_be 1 field ltac:(lia)) as [Hc Hs]. split.
  - intros r v tl Hg Hv Hr. apply Hc; [done|exact Hv|]. cbn.
    by rewrite Z.mod_small by exact Hv.
  - intros r v r' Hg Hrun. destruct (Hs r v r' Hg Hrun) as (Hv & ? & Hr & ?).
    split_and!; try done. cbn in Hr. by rewrite Z.mod_small in Hr by exact Hv.
Qed.

Lemma codec_u16 field : codec is_u16 (be_bytes 2) (read_u16 field).
Proof. exact (codec_be 2 field ltac:(lia)). Qed.

Lemma codec_u32 field : codec is_u32 (be_bytes 4) (read_u32 field).
Proof. exact (codec_be 4 field ltac:(lia)). Qed.

(** ** Digests *)

Definition wf_digest (dom : string) (d : TypedDigest) : Prop :=
  domain d = dom /\ Z.of_nat (length (digest_bytes d)) = 32 /\ all_bytes (digest_bytes d).

(** Domains are compile-time constants shorter than [u16::MAX]. *)
Definition short (dom : string) : Prop := Z.of_nat (length (str_bytes dom)) <= U16_MAX.

Lemma saturating_len_small max n : Z.of_nat n <= max -> saturating_len max n = Z.of_nat n.
Proof. intros H. unfold saturating_len. by destruct (Z.leb_spec (Z.of_nat n) max); [|lia]. Qed.

Lemma codec_digest field dom :
  short dom -> codec (wf_digest dom) put_digest (read_digest field dom).
Proof.
  intros Hshort. unfold read_digest, short in *.
  pose (tail2 := fun d => str_bytes (domain d) ++ digest_bytes d).
  pose (tail1 := fun d => be_bytes 2 (saturating_len U16_MAX (length (str_bytes (domain d)))) ++ tail2 d).
  eapply (codec_bind _ _ _ _ tail1 _ _ (fun _ => ALGO_SHA256_V1)); [apply codec_u8|..].
  { intros _ _. unfold is_byte, ALGO_SHA256_V1. lia. }
  { by intros [[] d b] _. }
  intros algo _. apply codec_guard; [by intros d [_ <-]|]. intros Halgo.
  eapply (codec_bind _ _ _ _ tail2 _ _ (fun _ => Z.of_nat (length (str_bytes dom))));
    [apply codec_u16|..].
  { intros d _. unfold in_u, U16_MAX in *. lia. }
  { intros d [[<- _] _]. unfold tail1. by rewrite saturating_len_small. }
  intros len Hlen. unfold in_u in Hlen.
  eapply (codec_bind _ _ _ _ digest_bytes _ _ (fun _ => str_bytes dom)); [apply codec_take; lia|..].
  { intros d [_ <-]. split; [done|apply str_bytes_all]. }
  { by intros d [[[<- _] _] _]. }
  intros got [Hgot _]. apply codec_guard; [by intros d [_ <-]; apply bool_decide_eq_false_2; auto|].
  intros Hdom%bool_decide_eq_false. apply dec_stable in Hdom as ->.
  eapply (codec_bind _ _ _ _ (fun _ => []) _ _ digest_bytes); [apply codec_take; lia|..].
  { by intros d [[[(_ & ? & ?) _] _] _]. }
  { intros d _. by rewrite app_nil_r. }
  intros b [Hb1 Hb2]. apply codec_ret; [| |done].
  - split_and!; try done. lia.
  - by intros [[] d b'] [[[[(<- & _) _] _] _] <-].
Qed.

(** ** Outputs and the whole manifest *)

Definition wf_output (o : LogicalOutput) : Prop :=
  is_u32 (Z.of_nat (length (virtual_path o))) /\ all_bytes (virtual_path o)
  /\ wf_digest ATP_OBJECT_CONTENT_DOMAIN (object o).

Lemma output_role_round r : output_role_from_tag (output_role_tag r) = Some r.
Proof. by destruct r. Qed.

Lemma output_role_inv t r : output_role_from_tag t = Some r -> output_role_tag r = t.
Proof.
  intros H. destruct t as [|p|p]; [|do 3 (try destruct p as [p|p|])|]; cbn in H; by simplify_eq.
Qed.

Lemma codec_output : codec wf_output put_output read_output.
Proof.
  unfold read_output.
  pose (tail2 := fun o => virtual_path o ++ put_digest (object o)).
  pose (tail1 := fun o => be_bytes 4 (saturating_len U32_MAX (length (virtual_path o))) ++ tail2 o).
  eapply (codec_bind _ _ _ _ tail1 _ _ (fun o => output_role_tag (role o))); [apply codec_u8|..].
  { intros o _. unfold is_byte. destruct (role o); cbn; lia. }
  { done. }
  intros tag _. apply codec_lift.
  { intros o [_ <-]. rewrite output_role_round. eauto. }
  intros r Hr. eapply (codec_bind _ _ _ _ tail2 _ _ (fun o => Z.of_nat (length (virtual_path o))));
    [apply codec_u32|..].
  { by intros o [(? & _) _]. }
  { intros o [(Hl & _) _]. unfold tail1, in_u, U32_MAX in *. rewrite saturating_len_small by lia. done. }
  intros len Hlen. unfold in_u in Hlen.
  eapply (codec_bind _ _ _ _ (fun o => put_digest (object o)) _ _ virtual_path);
    [apply codec_take; lia|..].
  { by intros o [[(_ & ? & _) _] <-]. }
  { done. }
  intros path [Hpl Hpb].
  eapply (codec_bind _ _ _ _ (fun _ => []) _ _ object); [by apply codec_digest|..].
  { by intros o [[[(_ & _ & ?) _] _] _]. }
  { intros o _. by rewrite app_nil_r. }
  intros obj Hobj. apply codec_ret; [| |done].
  - cbn. unfold wf_output, in_u. cbn. rewrite Hpl. split_and!; try done; try lia.
    by apply output_role_inv.
  - intros [r' p' o'] [[[[_ Htag] _] Hp] Ho]. cbn in *. subst.
    rewrite output_role_round in Hr. congruence.
Qed.

Lemma codec_outputs n :
  codec (fun os => length os = n /\ Forall wf_output os) (fun os => concat (put_output <$> os))
    (read_outputs n).
Proof.
  induction n as [|n IH]; cbn [read_outputs].
  { apply codec_ret; [by repeat constructor| |done]. intros os [H _]. by apply length_zero_iff_nil. }
  pose (hd := fun os => match os with
                        | [] => {| role := DepInfo; virtual_path := [];
                                   object := {| algorithm := Sha256V1; domain := "";
                                                digest_bytes := [] |} |}
                        | o :: _ => o end : LogicalOutput).
  eapply (codec_bind _ _ _ _ (fun os => concat (put_output <$> tail os)) _ _ hd);
    [apply codec_output|..].
  { intros [|o os] [Hl Hf]; [done|]. by apply Forall_cons_1 in Hf as [? _]. }
  { intros [|o os] [Hl Hf]; [done|]. done. }
  intros o Ho. eapply (codec_bind _ _ _ _ (fun _ => []) _ _ tail); [apply IH|..].
  { intros [|o' os] [[Hl Hf] _]; [done|]. apply Forall_cons_1 in Hf as [_ ?]. cbn in *. split; [lia|done]. }
  { intros os _. by rewrite app_nil_r. }
  intros os [Hl Hf]. apply codec_ret; [| |done].
  - split_and!; try done; [cbn; lia|by constructor].
  - intros [|o' os'] [[[Hl' _] Ho'] Hos]; [done|]. cbn in *. by subst.
Qed.

Definition wf_root (r : option ObjectId) : Prop :=
  match r with None => True | Some d => wf_digest DOMAIN_ARTIFACT_BUNDLE_ROOT d end.

Lemma codec_root : codec wf_root put_root read_root.
Proof.
  unfold read_root.
  eapply (codec_bind _ _ _ _ (fun r => match r with None => [] | Some d => put_digest d end)
            _ _ (fun r => match r with None => 0 | Some _ => 1 end)); [apply codec_u8|..].
  { intros [|] _; unfold is_byte; lia. }
  { by intros []. }
  intros tag Htag. destruct (decide (tag = 0)) as [->|H0].
  { apply codec_ret; [done| |done]. by intros [] [_ ?]. }
  destruct (decide (tag = 1)) as [->|H1].
  { eapply (codec_bind _ _ _ _ (fun _ => []) _ _
              (default {| algorithm := Sha256V1; domain := ""; digest_bytes := [] |}));
      [by apply (codec_digest _ DOMAIN_ARTIFACT_BUNDLE_ROOT)|..].
    - by intros [d|] [Hd ?].
    - intros [d|] [Hd ?]; [by rewrite app_nil_r|done].
    - intros d Hd. apply codec_ret; [done| |done]. by intros [d'|] [[_ ?] <-]. }
  assert (match tag with 0 => mret None
          | 1 => root ← read_digest "bundle_root" DOMAIN_ARTIFACT_BUNDLE_ROOT; mret (Some root)
          | other => throw (UnknownResultKind other) end
          = throw (A := option ObjectId) (S := Reader) (UnknownResultKind tag)) as ->.
  { destruct tag as [|[]|]; done. }
  split; [|done]. intros r [d|] tl _ [_ ?]; done.
Qed.

Definition wf_manifest (m : CanonicalActionResultManifest) : Prop :=
  wf_digest DOMAIN_ACTION_KEY (action_key m)
  /\ wf_digest DOMAIN_DESCRIPTOR (canonical_descriptor_digest m)
  /\ is_u32 (key_epoch m) /\ is_u32 (projection_epoch m)
  /\ wf_root (artifact_bundle_root m)
  /\ is_u32 (Z.of_nat (length (logical_outputs m))) /\ Forall wf_output (logical_outputs m)
  /\ wf_digest SEMANTIC_PROJECTION_DOMAIN (semantic_result_digest m)
  /\ wf_digest OBSERVABLE_PROJECTION_DOMAIN (observable_result_digest m).

Lemma result_kind_inv t k : result_kind_from_tag t = Some k -> result_kind_tag k = t.
Proof. intros H. destruct t as [|[|p|]|p]; cbn in H; try destruct p; by simplify_eq. Qed.

(** One field of the manifest, read by [rd] and followed by [tl]. *)
Ltac read_field tl proj rd :=
  eapply (codec_bind _ _ _ _ tl _ _ proj);
  [by apply rd | unfold wf_manifest; tauto | done |].

Lemma codec_manifest :
  codec wf_manifest (fun m => encode_in_order (logical_outputs m) m) read_manifest.
Proof.
  unfold read_manifest.
  pose (t9 := fun m => put_digest (observable_result_digest m)).
  pose (t8 := fun m => put_digest (semantic_result_digest m) ++ t9 m).
  pose (t7 := fun m => concat (put_output <$> logical_outputs m) ++ t8 m).
  pose (t6 := fun m => be_bytes 4 (saturating_len U32_MAX (length (logical_outputs m))) ++ t7 m).
  pose (t5 := fun m => put_root (artifact_bundle_root m) ++ t6 m).
  pose (t4 := fun m => [result_kind_tag (result_kind m)] ++ t5 m).
  pose (t3 := fun m => be_bytes 4 (projection_epoch m) ++ t4 m).
  pose (t2 := fun m => be_bytes 4 (key_epoch m) ++ t3 m).
  pose (t1 := fun m => put_digest (canonical_descriptor_digest m) ++ t2 m).
  pose (t0 := fun m => put_digest (action_key m) ++ t1 m).
  eapply (codec_bind _ _ _ _ (fun m => [VERSION] ++ t0 m) _ _ (fun _ => MAGIC));
    [apply codec_take; lia | by intros m _; split; [|apply str_bytes_all] | done |].
  intros magic _. apply codec_guard; [by intros m [_ <-]; apply bool_decide_eq_false_2; auto|].
  intros Hmagic%bool_decide_eq_false. apply dec_stable in Hmagic as ->.
  eapply (codec_bind _ _ _ _ t0 _ _ (fun _ => VERSION));
    [apply codec_u8 | by intros m _; unfold is_byte, VERSION | done |].
  intros version _. apply codec_guard; [by intros m [_ <-]|]. intros Hversion.
  read_field t1 action_key codec_digest. intros akey Hakey.
  read_field t2 canonical_descriptor_digest codec_digest. intros desc Hdesc.
  read_field t3 key_epoch codec_u32. intros kep Hkep.
  read_field t4 projection_epoch codec_u32. intros pep Hpep.
  eapply (codec_bind _ _ _ _ t5 _ _ (fun m => result_kind_tag (result_kind m)));
    [apply codec_u8 | intros m _; unfold is_byte; destruct (result_kind m); cbn; lia | done |].
  intros tag _. apply codec_lift; [intros m [_ <-]; destruct (result_kind m); eauto|].
  intros kind Hkind%result_kind_inv.
  read_field t6 artifact_bundle_root codec_root. intros root Hroot.
  eapply (codec_bind _ _ _ _ t7 _ _ (fun m => Z.of_nat (length (logical_outputs m))));
    [apply codec_u32 | unfold wf_manifest; tauto | |].
  { intros m Hm. unfold t6. rewrite saturating_len_small; [done|].
    unfold wf_manifest, in_u, U32_MAX in *. lia. }
  intros count Hcount. unfold in_u in Hcount.
  eapply (codec_bind _ _ _ _ t8 _ _ logical_outputs); [apply codec_outputs | | done |].
  { intros m [Hm <-]. unfold wf_manifest in Hm. rewrite Nat2Z.id. tauto. }
  intros outputs [Hol Hof].
  read_field t9 semantic_result_digest codec_digest. intros sem Hsem.
  eapply (codec_bind _ _ _ _ (fun _ => []) _ _ observable_result_digest);
    [by apply codec_digest | unfold wf_manifest; tauto | |].
  { intros m _. by rewrite app_nil_r. }
  intros obs Hobs. apply codec_ret; [| |done].
  - assert (VERSION = version) as -> by lia.
    unfold wf_manifest, in_u in *. cbn. rewrite Hol. split_and!; try done; lia.
  - intros [] Hm. cbn in Hm. destruct_and!. subst.
    f_equal. by destruct kind, result_kind0.
Qed.

Lemma put_digest_bytes dom d : wf_digest dom d -> all_bytes (put_digest d).
Proof.
  intros (_ & _ & Hb). unfold put_digest.
  rewrite !Forall_app; split_and!; auto using be_bytes_all, str_bytes_all.
  repeat constructor; destruct (algorithm d); unfold ALGO_SHA256_V1; lia.
Qed.

Lemma put_output_bytes o : wf_output o -> all_bytes (put_output o).
Proof.
  intros (_ & Hp & Hd). unfold put_output.
  rewrite !Forall_app; split_and!; eauto using be_bytes_all, put_digest_bytes.
  repeat constructor; destruct (role o); cbn; lia.
Qed.

Lemma put_outputs_bytes os : Forall wf_output os -> all_bytes (concat (put_output <$> os)).
Proof.
  induction 1 as [|o os Ho Hos IH]; [constructor|].
  rewrite fmap_cons. cbn [concat]. apply Forall_app. auto using put_output_bytes.
Qed.

Lemma encode_bytes m : wf_manifest m -> all_bytes (encode_in_order (logical_outputs m) m).
Proof.
  intros (? & ? & ? & ? & Hr & ? & ? & ? & ?). unfold encode_in_order.
  rewrite !Forall_app; split_and!; eauto using be_bytes_all, str_bytes_all, put_digest_bytes,
    put_outputs_bytes.
  - repeat constructor; unfold VERSION; lia.
  - repeat constructor; destruct (result_kind m); cbn; lia.
  - destruct (artifact_bundle_root m); unfold put_root.
    + apply Forall_app. split; [repeat constructor; lia | by eapply put_digest_bytes].
    + repeat constructor; lia.
Qed.

Lemma decode_exact_ok bs m :
  all_bytes bs -> Z.of_nat (length bs) < 2 ^ 63 ->
  decode_manifest_v1 bs = Ok m
  <-> wf_manifest m /\ bs = encode_in_order (logical_outputs m) m.
Proof.
  intros Hall Hlen. unfold decode_manifest_v1.
  assert (good (reader_new bs)) as Hg by (split_and!; cbn; [lia|done|done]).
  split.
  - destruct (read_manifest (reader_new bs)) as [[m'|e] r'] eqn:Hrun; [|done].
    destruct (codec_sound _ _ _ codec_manifest _ _ _ Hg Hrun) as (Hm & Hg' & Hr & Hb).
    destruct (Nat.eqb_spec (at_ r') (length bs)) as [Hat|]; [|done]. intros [= <-].
    split; [done|]. unfold rest in Hr. cbn in Hr, Hb. rewrite drop_0 in Hr. rewrite Hr at 1.
    rewrite Hb, Hat, drop_all, app_nil_r. done.
  - intros [Hm Hbs].
    destruct (codec_complete _ _ _ codec_manifest (reader_new bs) m [] Hg Hm)
      as (r' & Hrun & (Hat & _) & Hr & Hb).
    { unfold rest. cbn. by rewrite drop_0, app_nil_r. }
    rewrite Hrun. cbn in Hb. rewrite Hb in Hat.
    assert (length (rest r') = 0%nat) as Hz by (by rewrite Hr).
    unfold rest in Hz. rewrite length_drop, Hb in Hz.
    by destruct (Nat.eqb_spec (at_ r') (length bs)); [|lia].
Qed.

(** C16: the decoder is exact.  On any byte buffer it accepts precisely the encodings
    of well-formed manifests (with their outputs in any order: the decoder does not
    require the canonical one), and returns the manifest that was encoded: no wrong
    magic, version, domain, tag, length, truncation or trailing byte gets through,
    and no two manifests share an encoding. *)
Theorem decode_exact bs m :
  all_bytes bs -> Z.of_nat (length bs) < 2 ^ 63 ->
  decode_manifest_v1 bs = Ok m
  <-> wf_manifest m /\ bs = encode_in_order (logical_outputs m) m.
Proof. apply decode_exact_ok. Qed.

(** ** Canonical order *)

Definition with_outputs (os : list LogicalOutput) (m : CanonicalActionResultManifest)
    : CanonicalActionResultManifest :=
  {| action_key := action_key m; canonical_descriptor_digest := canonical_descriptor_digest m;
     key_epoch := key_epoch m; projection_epoch := projection_epoch m;
     result_kind := result_kind m; artifact_bundle_root := artifact_bundle_root m;
     logical_outputs := os; semantic_result_digest := semantic_result_digest m;
     observable_result_digest := observable_result_digest m |}.

Definition canonical (m : CanonicalActionResultManifest) : CanonicalActionResultManifest :=
  with_outputs (canonical_outputs m) m.

Lemma output_leb_trans x y z :
  output_leb x y = true -> output_leb y z = true -> output_leb x z = true.
Proof.
  unfold output_leb.
  destruct (Z.compare_spec (output_role_tag (role x)) (output_role_tag (role y))) as [->|Hxy|];
    [|intros _|done].
  - destruct (Z.compare_spec (output_role_tag (role y)) (output_role_tag (role z))); try done.
    destruct (bytes_cmp (virtual_path x) (virtual_path y)) eqn:E1; try done.
    + by apply bytes_cmp_eq in E1 as ->.
    + destruct (bytes_cmp (virtual_path y) (virtual_path z)) eqn:E2; try done; intros _ _.
      * apply bytes_cmp_eq in E2 as <-. by rewrite E1.
      * by rewrite (bytes_cmp_trans _ _ _ E1 E2).
  - destruct (Z.compare_spec (output_role_tag (role y)) (output_role_tag (role z))); try done;
      destruct (Z.compare_spec (output_role_tag (role x)) (output_role_tag (role z))); done || lia.
Qed.

Lemma output_leb_total x y : output_leb x y = false -> output_leb y x = true.
Proof.
  unfold output_leb. rewrite (Z.compare_antisym (output_role_tag (role x))).
  rewrite (bytes_cmp_antisym (virtual_path x)).
  destruct (output_role_tag (role x) ?= output_role_tag (role y)); cbn; try done.
  by destruct (bytes_cmp (virtual_path x) (virtual_path y)).
Qed.

Lemma output_leb_antisym x y :
  output_leb x y = true -> output_leb y x = true ->
  role x = role y /\ virtual_path x = virtual_path y.
Proof.
  unfold output_leb. rewrite (Z.compare_antisym (output_role_tag (role x))).
  rewrite (bytes_cmp_antisym (virtual_path x)).
  destruct (Z.compare_spec (output_role_tag (role x)) (output_role_tag (role y))) as [He| |]; cbn; try done.
  destruct (bytes_cmp (virtual_path x) (virtual_path y)) eqn:E; try done. intros _ _.
  apply bytes_cmp_eq in E. split; [|done].
  pose proof (output_role_round (role x)) as Hx. rewrite He, output_role_round in Hx. congruence.
Qed.

Lemma canonical_outputs_perm m : canonical_outputs m ≡ₚ logical_outputs m.
Proof. apply sort_by_perm. Qed.

Lemma canonical_wf m : wf_manifest m -> wf_manifest (canonical m).
Proof.
  unfold wf_manifest. cbn. by rewrite canonical_outputs_perm.
Qed.

(** A manifest survives storage: decoding the canonical encoding of a
    well-formed manifest gives it back with its outputs in canonical order, so its
    key, epochs, outcome, bundle root and both projection digests are unchanged. *)
Theorem manifest_round_trip m :
  wf_manifest m -> Z.of_nat (length (encode_manifest_v1 m)) < 2 ^ 63 ->
  decode_manifest_v1 (encode_manifest_v1 m) = Ok (canonical m).
Proof.
  intros Hm Hlen. pose proof (canonical_wf m Hm) as Hc.
  apply decode_exact_ok; [|done|done]. exact (encode_bytes _ Hc).
Qed.

Lemma distinct_slots_eq os x y :
  distinct_slots os -> x ∈ os -> y ∈ os -> role x = role y -> virtual_path x = virtual_path y ->
  x = y.
Proof.
  intros Hd (i & Hx)%list_elem_of_lookup_1 (j & Hy)%list_elem_of_lookup_1 Hr Hp.
  assert (i = j) as ->; [|congruence].
  eapply (NoDup_lookup _ i j _ Hd).
  - by rewrite list_lookup_fmap, Hx.
  - rewrite list_lookup_fmap, Hy. cbn. by rewrite Hr, Hp.
Qed.

(** One result, one object id: for a manifest that passes validation the
    encoding does not depend on the order in which its outputs were collected. *)
Theorem encoding_deterministic m os :
  validate m = Ok tt -> os ≡ₚ logical_outputs m ->
  encode_manifest_v1 (with_outputs os m) = encode_manifest_v1 m.
Proof.
  intros Hv Hp. assert (distinct_slots (logical_outputs m)) as Hd.
  { apply has_duplicate_false. unfold validate in Hv. by repeat case_match. }
  unfold encode_manifest_v1, canonical_outputs. cbn [logical_outputs with_outputs].
  assert (sort_by output_leb os = sort_by output_leb (logical_outputs m)) as ->; [|done].
  apply (sorted_perm_unique output_leb).
  - intros x y. rewrite sort_by_perm, Hp. intros Hx Hy H1 H2.
    destruct (output_leb_antisym x y H1 H2). by eapply distinct_slots_eq.
  - apply sort_by_sorted; [apply output_leb_trans|apply output_leb_total].
  - apply sort_by_sorted; [apply output_leb_trans|apply output_leb_total].
  - by rewrite !sort_by_perm, Hp.
Qed.

(** A reload invents no divergence: comparing any same-key candidate against
    the committed manifest and against the one decoded from its stored bytes gives
    the same class. *)
Theorem reload_preserves_classification m m' id candidate candidate_id :
  wf_manifest m -> Z.of_nat (length (encode_manifest_v1 m)) < 2 ^ 63 ->
  decode_manifest_v1 (encode_manifest_v1 m) = Ok m' ->
  classify_same_key_candidate m' id candidate candidate_id
  = classify_same_key_candidate m id candidate candidate_id
  /\ validate m' = validate m.
Proof.
  intros Hm Hlen Hdec. pose proof (canonical_wf m Hm) as Hc.
  assert (m' = canonical m) as ->.
  { assert (decode_manifest_v1 (encode_manifest_v1 m) = Ok (canonical m)) as H; [|congruence].
    apply decode_exact_ok; [|done|done]. exact (encode_bytes _ Hc). }
  split; [done|]. unfold validate. cbn.
  assert (has_duplicate (canonical_outputs m) = has_duplicate (logical_outputs m)) as ->
    by (apply has_duplicate_proper, canonical_outputs_perm).
  pose proof (Permutation_length (canonical_outputs_perm m)) as Hl.
  by destruct (canonical_outputs m), (logical_outputs m).
Qed.

(** ** A two-output manifest *)

Definition sample_digest (dom : string) (tag : Z) : TypedDigest :=
  {| algorithm := Sha256V1; domain := dom; digest_bytes := replicate 32 tag |}.

Definition sample_output (r : OutputRole) (path : string) (tag : Z) : LogicalOutput :=
  {| role := r; virtual_path := str_bytes path;
     object := sample_digest ATP_OBJECT_CONTENT_DOMAIN tag |}.

Definition sample_outputs : list LogicalOutput :=
  [sample_output DepInfo "/out/lib.d" 4; sample_output Materializable "/out/lib.rlib" 3].

Definition sample_manifest : CanonicalActionResultManifest :=
  {| action_key := sample_digest DOMAIN_ACTION_KEY 1;
     canonical_descriptor_digest := sample_digest DOMAIN_DESCRIPTOR 2;
     key_epoch := 1; projection_epoch := 1; result_kind := Success;
     artifact_bundle_root := Some (sample_digest DOMAIN_ARTIFACT_BUNDLE_ROOT 9);
     logical_outputs := sample_outputs;
     semantic_result_digest := sample_digest SEMANTIC_PROJECTION_DOMAIN 5;
     observable_result_digest := sample_digest OBSERVABLE_PROJECTION_DOMAIN 6 |}.

Lemma sample_digest_wf dom tag : is_byte tag -> wf_digest dom (sample_digest dom tag).
Proof. intros H. split_and!; [done|done|]. by apply Forall_replicate. Qed.

Lemma sample_manifest_wf : wf_manifest sample_manifest.
Proof.
  unfold wf_manifest. cbn. unfold in_u.
  split_and!; try (apply sample_digest_wf; unfold is_byte); try lia.
  repeat constructor; cbn; unfold in_u, is_byte; try lia;
    try (apply str_bytes_all); try (apply Forall_replicate); unfold is_byte; lia.
Qed.

Lemma manifest_round_trip_witness :
  decode_manifest_v1 (encode_manifest_v1 sample_manifest) = Ok (canonical sample_manifest)
  /\ logical_outputs (canonical sample_manifest) = rev sample_outputs.
Proof.
  split; [|vm_compute; reflexivity].
  apply (manifest_round_trip sample_manifest); [apply sample_manifest_wf | reflexivity].
Defined.

Lemma decode_exact_witness :
  wf_manifest sample_manifest.
Proof.
  apply (decode_exact (encode_in_order sample_outputs sample_manifest) sample_manifest).
  - apply (encode_bytes sample_manifest), sample_manifest_wf.
  - reflexivity.
  - vm_compute. reflexivity.
Defined.

Lemma encoding_deterministic_witness :
  encode_manifest_v1 (with_outputs (rev sample_outputs) sample_manifest)
  = encode_manifest_v1 sample_manifest.
Proof.
  apply (encoding_deterministic sample_manifest (rev sample_outputs)).
  - reflexivity.
  - apply (Permutation_swap _ _ []).
Defined.

Lemma reload_preserves_classification_witness :
  validate (canonical sample_manifest) = Ok tt.
Proof.
  apply (reload_preserves_classification sample_manifest (canonical sample_manifest)
           (sample_digest ATP_OBJECT_CONTENT_DOMAIN 8) sample_manifest
           (sample_digest ATP_OBJECT_CONTENT_DOMAIN 8)).
  - apply sample_manifest_wf.
  - reflexivity.
  - vm_compute. reflexivity.
Defined.

End ManifestCodec.
