(* ===== verification/Digest.v ===== *)
(** * Content ids by streaming (rabs-cas/src/digest_set.rs)

    The one-pass writer that computes an object's identity and, on request, its
    local fingerprint and raw digest.  The hash functions are third-party code: they
    enter through the [Hasher] interface, whose law is their documented contract
    (the digest of a sequence of updates is the digest of the concatenation). *)

From stdpp Require Import base list strings.
From Stdlib Require Import ZArith Lia.
From S2P Require Import Prelude Bytes Manifest.
Import ResultIdentity.

(** A streaming hasher and the function it computes. *)
Class Hasher (H : Type) := {
  h_new : H;
  h_update : list Z -> H -> H;
  h_finalize : H -> list Z;
}.

Class HasherLaw (H : Type) `{Hasher H} (hash : list Z -> list Z) : Prop := {
  h_chunks : forall chunks,
    h_finalize (fold_left (fun h c => h_update c h) chunks h_new) = hash (concat chunks);
  h_width : forall bs, length (hash bs) = 32%nat;
  h_bytes : forall bs, all_bytes (hash bs);
}.

Module DigestSet.

Section writer.
Context {SHA BLAKE : Type} `{Hasher SHA} `{Hasher BLAKE}.

Definition BLAKE3_FINGERPRINT_DOMAIN : string := "rabs.fingerprint.blake3.v1".

Record Blake3Fingerprint := { fp_domain : string; fp_bytes : list Z }.

(** [DigestSet]. *)
Record digests := {
  atp_content_id : TypedDigest;
  blake3 : option Blake3Fingerprint;
  raw_sha256 : option (list Z);
  logical_size : Z; (* u64 *)
}.

Record DigestRequest := { want_blake3 : bool; want_raw_sha256 : bool }.
Definition default_request : DigestRequest :=
  {| want_blake3 := false; want_raw_sha256 := false |}.

Inductive DigestError :=
  | LogicalSizeMismatch (expected actual : Z)
  | SizeOverflow.

Definition domain_prefix (dom : string) : list Z * list Z :=
  (be_bytes 8 (Z.of_nat (length (str_bytes dom))), str_bytes dom).

Record StreamingObjectWriter := {
  content : SHA;
  w_blake3 : option BLAKE;
  w_raw : option SHA;
  expected_size : option Z;
  written : Z; (* u64 *)
}.

Definition writer_new (request : DigestRequest) (expected : option Z) : StreamingObjectWriter :=
  let '(len, dom) := domain_prefix ManifestCodec.ATP_OBJECT_CONTENT_DOMAIN in
  let '(blen, bdom) := domain_prefix BLAKE3_FINGERPRINT_DOMAIN in
  {| content := h_update dom (h_update len h_new);
     w_blake3 := if want_blake3 request then Some (h_update bdom (h_update blen h_new)) else None;
     w_raw := if want_raw_sha256 request then Some h_new else None;
     expected_size := expected; written := 0 |}.

Definition write (chunk : list Z) : method StreamingObjectWriter DigestError unit := fun w =>
  match checked_add 64 (written w) (Z.of_nat (length chunk)) with
  | None => (Err SizeOverflow, w)
  | Some total =>
      (Ok tt, {| content := h_update chunk (content w);
                 w_blake3 := h_update chunk <$> w_blake3 w;
                 w_raw := h_update chunk <$> w_raw w;
                 expected_size := expected_size w; written := total |})
  end.

Definition finish (w : StreamingObjectWriter) : result DigestError digests :=
  let set :=
    {| atp_content_id :=
         {| algorithm := Sha256V1; domain := ManifestCodec.ATP_OBJECT_CONTENT_DOMAIN;
            digest_bytes := h_finalize (content w) |};
       blake3 := (fun h => {| fp_domain := BLAKE3_FINGERPRINT_DOMAIN;
                              fp_bytes := h_finalize h |}) <$> w_blake3 w;
       raw_sha256 := h_finalize <$> w_raw w;
       logical_size := written w |} in
  match expected_size w with
  | Some expected =>
      if negb (expected =? written w) then Err (LogicalSizeMismatch expected (written w))
      else Ok set
  | None => Ok set
  end.

Definition digest_set (bs : list Z) (request : DigestRequest) (expected : option Z)
    : result DigestError digests :=
  match write bs (writer_new request expected) with
  | (Ok _, w) => finish w
  | (Err e, _) => Err e
  end.

(** A caller that streams an object in chunks. *)
Fixpoint write_all (chunks : list (list Z)) : method StreamingObjectWriter DigestError unit :=
  match chunks with
  | [] => mret tt
  | c :: chunks => _ ← write c; write_all chunks
  end.

Definition stream_digest (chunks : list (list Z)) (request : DigestRequest)
    (expected : option Z) : result DigestError digests :=
  match write_all chunks (writer_new request expected) with
  | (Ok _, w) => finish w
  | (Err e, _) => Err e
  end.

Context (sha blk : list Z -> list Z) `{!HasherLaw SHA sha} `{!HasherLaw BLAKE blk}.

(** The framing a hasher is primed with. *)
Definition framed (dom : string) : list (list Z) :=
  [fst (domain_prefix dom); snd (domain_prefix dom)].

(** The writer after the chunks [cs]. *)
Definition writer_at (request : DigestRequest) (expected : option Z) (cs : list (list Z))
    : StreamingObjectWriter :=
  {| content := fold_left (fun h c => h_update c h)
                  (framed ManifestCodec.ATP_OBJECT_CONTENT_DOMAIN ++ cs) h_new;
     w_blake3 := if want_blake3 request
                 then Some (fold_left (fun h c => h_update c h)
                              (framed BLAKE3_FINGERPRINT_DOMAIN ++ cs) h_new)
                 else None;
     w_raw := if want_raw_sha256 request
              then Some (fold_left (fun h c => h_update c h) cs h_new) else None;
     expected_size := expected;
     written := Z.of_nat (length (concat cs)) |}.

Lemma write_at request expected cs c :
  write c (writer_at request expected cs)
  = if Z.of_nat (length (concat (cs ++ [c]))) <? 2 ^ 64
    then (Ok tt, writer_at request expected (cs ++ [c]))
    else (Err SizeOverflow, writer_at request expected cs).
Proof.
  unfold write, checked_add, writer_at.
  cbn [written content w_blake3 w_raw expected_size].
  rewrite concat_app, length_app. cbn [concat]. rewrite app_nil_r, Nat2Z.inj_add.
  destruct (_ <? _); [|done]. rewrite !app_assoc, !fold_left_app. cbn [fold_left].
  by destruct (want_blake3 request), (want_raw_sha256 request).
Qed.

Lemma write_all_at request expected todo cs :
  Z.of_nat (length (concat (cs ++ todo))) < 2 ^ 64 ->
  write_all todo (writer_at request expected cs)
  = (Ok tt, writer_at request expected (cs ++ todo)).
Proof.
  revert cs. induction todo as [|c todo IH]; intros cs Hlen; cbn [write_all].
  { by rewrite app_nil_r. }
  unmonad. rewrite write_at.
  replace (cs ++ c :: todo) with ((cs ++ [c]) ++ todo) in * by (by rewrite <- app_assoc).
  rewrite concat_app, length_app in Hlen.
  destruct (Z.ltb_spec (Z.of_nat (length (concat (cs ++ [c])))) (2 ^ 64)); [|lia].
  apply IH. rewrite concat_app, length_app. lia.
Qed.

Lemma write_all_overflow request expected todo cs :
  2 ^ 64 <= Z.of_nat (length (concat (cs ++ todo))) ->
  Z.of_nat (length (concat cs)) < 2 ^ 64 ->
  fst (write_all todo (writer_at request expected cs)) = Err SizeOverflow.
Proof.
  revert cs. induction todo as [|c todo IH]; intros cs Hlen Hcs; cbn [write_all].
  { rewrite app_nil_r in Hlen. lia. }
  unmonad. rewrite write_at.
  replace (cs ++ c :: todo) with ((cs ++ [c]) ++ todo) in * by (by rewrite <- app_assoc).
  destruct (Z.ltb_spec (Z.of_nat (length (concat (cs ++ [c])))) (2 ^ 64)); [|done].
  by apply IH.
Qed.

(** The set computed from the bytes [bs], as one function of them. *)
Definition ideal_set (request : DigestRequest) (bs : list Z) : digests :=
  {| atp_content_id :=
       {| algorithm := Sha256V1; domain := ManifestCodec.ATP_OBJECT_CONTENT_DOMAIN;
          digest_bytes :=
            sha (concat (framed ManifestCodec.ATP_OBJECT_CONTENT_DOMAIN) ++ bs) |};
     blake3 := if want_blake3 request
               then Some {| fp_domain := BLAKE3_FINGERPRINT_DOMAIN;
                            fp_bytes := blk (concat (framed BLAKE3_FINGERPRINT_DOMAIN) ++ bs) |}
               else None;
     raw_sha256 := if want_raw_sha256 request then Some (sha bs) else None;
     logical_size := Z.of_nat (length bs) |}.

Definition ideal (request : DigestRequest) (expected : option Z) (bs : list Z)
    : result DigestError digests :=
  if 2 ^ 64 <=? Z.of_nat (length bs) then Err SizeOverflow
  else
    match expected with
    | Some n => if n =? Z.of_nat (length bs) then Ok (ideal_set request bs)
                else Err (LogicalSizeMismatch n (Z.of_nat (length bs)))
    | None => Ok (ideal_set request bs)
    end.

Lemma finish_at request expected cs :
  finish (writer_at request expected cs)
  = match expected with
    | Some n => if n =? Z.of_nat (length (concat cs)) then Ok (ideal_set request (concat cs))
                else Err (LogicalSizeMismatch n (Z.of_nat (length (concat cs))))
    | None => Ok (ideal_set request (concat cs))
    end.
Proof.
  unfold finish, writer_at, ideal_set. cbn [written content w_blake3 w_raw expected_size].
  assert (forall cs, h_finalize (fold_left (fun (h : SHA) c => h_update c h) cs h_new)
                     = sha (concat cs)) as Hs by apply h_chunks.
  assert (forall cs, h_finalize (fold_left (fun (h : BLAKE) c => h_update c h) cs h_new)
                     = blk (concat cs)) as Hb by apply h_chunks.
  rewrite Hs, concat_app.
  assert ((h_finalize <$> (if want_raw_sha256 request
             then Some (fold_left (fun (h : SHA) c => h_update c h) cs h_new) else None))
          = if want_raw_sha256 request then Some (sha (concat cs)) else None) as ->
    by (destruct (want_raw_sha256 request); cbn; by rewrite ?Hs).
  destruct (want_blake3 request); unfold fmap, option_fmap, option_map; rewrite ?Hb, ?concat_app.
  all: destruct expected as [n|]; [destruct (n =? _)|]; done.
Qed.

Lemma stream_ideal chunks request expected :
  stream_digest chunks request expected = ideal request expected (concat chunks).
Proof.
  unfold stream_digest, ideal.
  assert (writer_new request expected = writer_at request expected []) as ->.
  { unfold writer_new, writer_at. cbn. done. }
  destruct (Z.leb_spec (2 ^ 64) (Z.of_nat (length (concat chunks)))) as [Hbig|Hsmall].
  - pose proof (write_all_overflow request expected chunks [] Hbig ltac:(cbn; lia)) as He.
    destruct (write_all chunks _) as [[[]|e] w]; cbn in He; by simplify_eq.
  - rewrite (write_all_at request expected chunks []) by done. apply finish_at.
Qed.

Lemma digest_set_ideal bs request expected :
  digest_set bs request expected = ideal request expected bs.
Proof.
  pose proof (stream_ideal [bs] request expected) as H1.
  unfold stream_digest in H1. cbn [write_all] in H1. unmonad in H1.
  cbn [concat] in H1. rewrite app_nil_r in H1. rewrite <- H1. unfold digest_set.
  by destruct (write bs _) as [[]?].
Qed.

(** An object has one identity however it is streamed: splitting the bytes into
    chunks in any way gives the result of the one-shot digest, the same error
    included, and a declared size is enforced exactly. *)
Theorem digest_chunking_irrelevant chunks request expected :
  stream_digest chunks request expected = digest_set (concat chunks) request expected
  /\ (forall set n, stream_digest chunks request (Some n) = Ok set ->
        logical_size set = n /\ n = Z.of_nat (length (concat chunks))).
Proof.
  split.
  - by rewrite stream_ideal, digest_set_ideal.
  - intros set n. rewrite stream_ideal. unfold ideal. destruct (_ <=? _); [done|].
    destruct (Z.eqb_spec n (Z.of_nat (length (concat chunks)))) as [->|]; [|done].
    by intros [= <-].
Qed.

End writer.

(** ** A concrete hasher: buffer everything, then sum *)

Definition toy_hash (bs : list Z) : list Z := replicate 32 (sumZ bs mod 256).

#[export] Instance toy_hasher : Hasher (list Z) := {
  h_new := [];
  h_update c h := h ++ c;
  h_finalize := toy_hash;
}.

#[export] Instance toy_law : HasherLaw (list Z) toy_hash.
Proof.
  split.
  - intros chunks.
    assert (forall acc, fold_left (fun h c => h ++ c) chunks acc = acc ++ concat chunks) as Hf.
    { induction chunks as [|c cs IH]; intros acc; cbn; [by rewrite app_nil_r|].
      by rewrite IH, <- app_assoc. }
    exact (f_equal toy_hash (Hf [])).
  - intros bs. apply length_replicate.
  - intros bs. apply Forall_replicate. apply Z.mod_pos_bound. lia.
Qed.

Lemma digest_chunking_irrelevant_witness :
  stream_digest (SHA := list Z) (BLAKE := list Z) [[1; 2]; []; [3]]
    {| want_blake3 := true; want_raw_sha256 := true |} (Some 3)
  = digest_set [1; 2; 3] {| want_blake3 := true; want_raw_sha256 := true |} (Some 3).
Proof.
  apply (digest_chunking_irrelevant (SHA := list Z) (BLAKE := list Z) toy_hash toy_hash
           [[1; 2]; []; [3]]).
Defined.

End DigestSet.
