(* ===== verification/Pack.v ===== *)
(** * Small-object packs (rabs-cas/src/pack.rs)

    Many small objects stored as one: a header, an index sorted by digest key, the
    payload.  [build_pack] is the canonical writer, [parse] the bounded and
    validating index reader, [member_bytes] the access to one member.  Keys are the
    UTF-8 bytes of the source's strings. *)

From stdpp Require Import base list strings sorting sets.
From Stdlib Require Import ZArith Lia.
From S2P Require Import Prelude Bytes Manifest Digest.
Import ResultIdentity DigestSet.

Module Pack.

(** ** Digest keys *)

Definition hex_nibble (d : Z) : Z := if d <? 10 then 48 + d else 87 + d.

(** [hex]: two lower-case digits per byte. *)
Definition hex (bs : list Z) : list Z :=
  concat ((fun b => [hex_nibble (b / 16); hex_nibble (b mod 16)]) <$> bs).

Definition digest_key (d : TypedDigest) : list Z :=
  str_bytes (domain d) ++ [58] ++ hex (digest_bytes d).

(** ** UTF-8 validity, as [str::from_utf8] decides it *)

Definition between (lo hi b : Z) : bool := (lo <=? b) && (b <=? hi).
Definition continuation (b : Z) : bool := between 128 191 b.

Definition valid3 (b0 b1 b2 : Z) : bool :=
  continuation b2
  && ((b0 =? 224) && between 160 191 b1
      || between 225 236 b0 && continuation b1
      || (b0 =? 237) && between 128 159 b1
      || between 238 239 b0 && continuation b1).

Definition valid4 (b0 b1 b2 b3 : Z) : bool :=
  continuation b2 && continuation b3
  && ((b0 =? 240) && between 144 191 b1
      || between 241 243 b0 && continuation b1
      || (b0 =? 244) && between 128 143 b1).

Fixpoint utf8_valid (bs : list Z) : bool :=
  match bs with
  | [] => true
  | b0 :: r0 =>
      if b0 <? 128 then utf8_valid r0
      else
        match r0 with
        | [] => false
        | b1 :: r1 =>
            if between 194 223 b0 then continuation b1 && utf8_valid r1
            else
              match r1 with
              | [] => false
              | b2 :: r2 =>
                  if between 224 239 b0 then valid3 b0 b1 b2 && utf8_valid r2
                  else
                    match r2 with
                    | [] => false
                    | b3 :: r3 => valid4 b0 b1 b2 b3 && utf8_valid r3
                    end
              end
        end
  end.

(** ** Data *)

Definition PACK_MAGIC_V1 : list Z := str_bytes "RBSPACK1".
Definition MAX_PACK_MEMBERS : Z := 4096.
Definition MAX_PACK_INDEX_BYTES : Z := 1024 * 1024.

Inductive PackError :=
  | EmptyPack
  | TooManyMembers (count : Z)
  | MemberDigestMismatch (claimed : list Z)
  | DuplicateDivergentMember (digest : list Z)
  | BadMagic
  | Truncated
  | IndexTooLarge (declared : Z)
  | BrokenTiling (key_at : list Z)
  | MalformedEntry.

Record PackMember := { key : list Z; offset : Z; len : Z }. (* length : u64 *)

Record PackIndex := {
  members : list PackMember;
  payload_start : Z; (* u64 *)
  pack_len : Z;      (* u64 *)
}.

(** [slice.get(a..b)]. *)
Definition slice (bs : list Z) (a b : nat) : option (list Z) :=
  if Nat.leb a b && Nat.leb b (length bs) then Some (firstn (b - a) (skipn a bs)) else None.

Section pack.
Context {SHA BLAKE : Type} `{Hasher SHA} `{Hasher BLAKE}.

(** ** Building *)

(** The first loop of [build_pack]: verify, deduplicate, refuse divergence. *)
Fixpoint collect (ms : list (TypedDigest * list Z)) (canonical : list (list Z * list Z))
    : result PackError (list (list Z * list Z)) :=
  match ms with
  | [] => Ok canonical
  | (d, bs) :: ms =>
      match digest_set (SHA := SHA) (BLAKE := BLAKE) bs default_request None with
      | Err _ => Err (MemberDigestMismatch (digest_key d))
      | Ok set =>
          if decide (atp_content_id set ≠ d) then Err (MemberDigestMismatch (digest_key d))
          else
            let k := digest_key d in
            match find (fun e => bool_decide (fst e = k)) canonical with
            | Some (_, existing) =>
                if decide (existing ≠ bs) then Err (DuplicateDivergentMember k)
                else collect ms canonical
            | None => collect ms (canonical ++ [(k, bs)])
            end
      end
  end.

(** [sort_by] on the keys. *)
Definition key_leb (a b : list Z * list Z) : bool :=
  match bytes_cmp (fst a) (fst b) with Gt => false | _ => true end.

(** The index loop: entries with derived offsets. *)
Fixpoint put_index (off : Z) (es : list (list Z * list Z)) : list Z :=
  match es with
  | [] => []
  | (k, bs) :: es =>
      be_bytes 2 (wrap 16 (Z.of_nat (length k))) ++ k ++ be_bytes 8 off
      ++ be_bytes 8 (Z.of_nat (length bs))
      ++ put_index (wadd 64 off (Z.of_nat (length bs))) es
  end.

Definition put_pack (es : list (list Z * list Z)) (index : list Z) : list Z :=
  PACK_MAGIC_V1 ++ be_bytes 4 (Z.of_nat (length es))
  ++ be_bytes 8 (Z.of_nat (length index)) ++ index ++ concat (snd <$> es).

Definition build_pack (ms : list (TypedDigest * list Z)) : result PackError (list Z) :=
  match ms with
  | [] => Err EmptyPack
  | _ =>
      match collect ms [] with
      | Err e => Err e
      | Ok collected =>
          let canonical := sort_by key_leb collected in
          if MAX_PACK_MEMBERS <? Z.of_nat (length canonical)
          then Err (TooManyMembers (Z.of_nat (length canonical)))
          else
            let index := put_index 0 canonical in
            if MAX_PACK_INDEX_BYTES <? Z.of_nat (length index)
            then Err (IndexTooLarge (Z.of_nat (length index)))
            else Ok (put_pack canonical index)
      end
  end.

(** ** Parsing *)

(** One round of the entry loop; returns the entry and its encoded size. *)
Definition parse_entry (index : list Z) (cursor : nat) : result PackError (PackMember * nat) :=
  match slice index cursor (cursor + 2) with
  | None => Err Truncated
  | Some b =>
      let key_len := Z.to_nat (from_be b) in
      match slice index (cursor + 2) (cursor + 2 + key_len) with
      | None => Err Truncated
      | Some k =>
          if negb (utf8_valid k) then Err MalformedEntry
          else
            match slice index (cursor + 2 + key_len) (cursor + 2 + key_len + 16) with
            | None => Err Truncated
            | Some rest =>
                Ok ({| key := k; offset := from_be (firstn 8 rest);
                       len := from_be (skipn 8 rest) |}, (2 + key_len + 16)%nat)
            end
      end
  end.

Fixpoint parse_entries (count : nat) (index : list Z) (cursor : nat) (expected_offset : Z)
    (acc : list PackMember) : result PackError (list PackMember * nat * Z) :=
  match count with
  | O => Ok (acc, cursor, expected_offset)
  | S count =>
      match parse_entry index cursor with
      | Err e => Err e
      | Ok (m, size) =>
          if negb (offset m =? expected_offset) then Err (BrokenTiling (key m))
          else
            match checked_add 64 (offset m) (len m) with
            | None => Err (BrokenTiling (key m))
            | Some next =>
                if match last acc with
                   | Some prev => match bytes_cmp (key prev) (key m) with Lt => false | _ => true end
                   | None => false
                   end
                then Err (BrokenTiling (key m))
                else parse_entries count index (cursor + size) next (acc ++ [m])
            end
      end
  end.

Definition parse (pack : list Z) : result PackError PackIndex :=
  match slice pack 0 20 with
  | None => Err Truncated
  | Some header =>
      if decide (firstn 8 header ≠ PACK_MAGIC_V1) then Err BadMagic
      else
        let count := from_be (firstn 4 (skipn 8 header)) in
        if count =? 0 then Err EmptyPack
        else if MAX_PACK_MEMBERS <? count then Err (TooManyMembers count)
        else
          let index_len := from_be (skipn 12 header) in
          if MAX_PACK_INDEX_BYTES <? index_len then Err (IndexTooLarge index_len)
          else
            match checked_add 64 20 index_len with
            | None => Err (IndexTooLarge index_len)
            | Some index_end =>
                match slice pack 20 (Z.to_nat index_end) with
                | None => Err Truncated
                | Some index_bytes =>
                    match parse_entries (Z.to_nat count) index_bytes 0 0 [] with
                    | Err e => Err e
                    | Ok (ms, cursor, expected_offset) =>
                        if negb (Z.of_nat cursor =? index_len) then Err Truncated
                        else
                          match checked_sub (Z.of_nat (length pack)) index_end with
                          | None => Err Truncated
                          | Some payload_len =>
                              if negb (payload_len =? expected_offset)
                              then Err (BrokenTiling (default [] (key <$> last ms)))
                              else Ok {| members := ms; payload_start := index_end;
                                         pack_len := Z.of_nat (length pack) |}
                          end
                    end
                end
            end
  end.

(** ** Member access *)

(** [binary_search_by] on the keys: halve [lo, hi) until it is empty. *)
Fixpoint bsearch (fuel : nat) (ms : list PackMember) (k : list Z) (lo hi : nat) : option nat :=
  match fuel with
  | O => None
  | S fuel =>
      if Nat.ltb lo hi then
        let mid := Nat.div2 (lo + hi) in
        match ms !! mid with
        | None => None
        | Some m =>
            match bytes_cmp (key m) k with
            | Eq => Some mid
            | Lt => bsearch fuel ms k (S mid) hi
            | Gt => bsearch fuel ms k lo mid
            end
        end
      else None
  end.

Definition binary_search (ms : list PackMember) (k : list Z) : option nat :=
  bsearch (S (length ms)) ms k 0 (length ms).

Definition member_bytes (idx : PackIndex) (pack : list Z) (d : TypedDigest)
    : option (list Z) :=
  if negb (Z.of_nat (length pack) =? pack_len idx) then None
  else
    i ← binary_search (members idx) (digest_key d);
    m ← members idx !! i;
    let start := Z.to_nat (wadd 64 (payload_start idx) (offset m)) in
    slice pack start (start + Z.to_nat (len m)).

(** ** Binary search on sorted keys *)

Definition sorted_keys (ms : list PackMember) : Prop :=
  forall i j a b, (i < j)%nat -> ms !! i = Some a -> ms !! j = Some b ->
  bytes_cmp (key a) (key b) = Lt.

Lemma bsearch_spec fuel ms k lo hi :
  sorted_keys ms -> (hi <= length ms)%nat -> (hi - lo < fuel)%nat ->
  match bsearch fuel ms k lo hi with
  | Some i => exists m, ms !! i = Some m /\ key m = k
  | None => forall i m, (lo <= i < hi)%nat -> ms !! i = Some m -> key m <> k
  end.
Proof.
  intros Hs Hhi. revert lo hi Hhi. induction fuel as [|fuel IH]; intros lo hi Hhi Hf; [lia|].
  cbn [bsearch]. destruct (Nat.ltb_spec lo hi) as [Hlt|]; [|intros; lia].
  set (mid := Nat.div2 (lo + hi)).
  assert (lo <= mid < hi)%nat as Hmid by (unfold mid; rewrite Nat.div2_div;
    pose proof (Nat.div_mod_eq (lo + hi) 2); pose proof (Nat.mod_upper_bound (lo + hi) 2); lia).
  destruct (lookup_lt_is_Some_2 ms mid ltac:(lia)) as [m Hm]. rewrite Hm.
  destruct (bytes_cmp (key m) k) eqn:Hc.
  - exists m. split; [done|]. by apply bytes_cmp_eq.
  - specialize (IH (S mid) hi Hhi ltac:(lia)). destruct (bsearch fuel ms k (S mid) hi); [done|].
    intros i m' Hi Hm' <-. destruct (decide (i = mid)) as [->|Hne].
    + simplify_eq. by rewrite bytes_cmp_refl in Hc.
    + destruct (decide (i < mid)%nat); [|by apply (IH i m'); [lia|done..]].
      pose proof (Hs i mid m' m ltac:(lia) Hm' Hm) as Hlt'.
      rewrite bytes_cmp_antisym, Hlt' in Hc. done.
  - specialize (IH lo mid ltac:(lia) ltac:(lia)). destruct (bsearch fuel ms k lo mid); [done|].
    intros i m' Hi Hm' <-. destruct (decide (i = mid)) as [->|Hne].
    + simplify_eq. by rewrite bytes_cmp_refl in Hc.
    + destruct (decide (mid < i)%nat); [|by apply (IH i m'); [lia|done..]].
      pose proof (Hs mid i m m' ltac:(lia) Hm Hm') as Hlt'. congruence.
Qed.

Lemma binary_search_found ms i m :
  sorted_keys ms -> ms !! i = Some m -> binary_search ms (key m) = Some i.
Proof.
  intros Hs Hi. pose proof (lookup_lt_Some _ _ _ Hi).
  pose proof (bsearch_spec (S (length ms)) ms (key m) 0 (length ms) Hs ltac:(lia) ltac:(lia)) as H'.
  unfold binary_search. destruct (bsearch _ _ _ _ _) as [j|].
  - destruct H' as (m' & Hj & Hk). f_equal.
    destruct (decide (i < j)%nat) as [Hij|]; [|destruct (decide (j < i)%nat) as [Hij|]; [|lia]].
    + pose proof (Hs i j m m' Hij Hi Hj) as Hc. by rewrite Hk, bytes_cmp_refl in Hc.
    + pose proof (Hs j i m' m Hij Hj Hi) as Hc. by rewrite Hk, bytes_cmp_refl in Hc.
  - exfalso. by apply (H' i m); [lia|done..].
Qed.

Lemma binary_search_absent ms k :
  sorted_keys ms -> (forall m, m ∈ ms -> key m <> k) -> binary_search ms k = None.
Proof.
  intros Hs Hn.
  pose proof (bsearch_spec (S (length ms)) ms k 0 (length ms) Hs ltac:(lia) ltac:(lia)) as H'.
  unfold binary_search. destruct (bsearch _ _ _ _ _) as [j|]; [|done].
  destruct H' as (m & Hj & Hk). exfalso. apply (Hn m); [|done]. by eapply list_elem_of_lookup_2.
Qed.

(** ** What a parsed index guarantees *)

(** The spans follow each other from [off] to [total]. *)
Fixpoint tiles (off : Z) (ms : list PackMember) (total : Z) : Prop :=
  match ms with
  | [] => off = total
  | m :: ms => offset m = off /\ 0 <= len m /\ tiles (off + len m) ms total
  end.

Lemma tiles_snoc off ms m total :
  tiles off ms (offset m) -> 0 <= len m -> total = offset m + len m -> tiles off (ms ++ [m]) total.
Proof.
  revert off. induction ms as [|m' ms IH]; intros off; cbn.
  - intros -> ? ->. by split_and!.
  - intros (? & ? & ?) ? ?. split_and!; auto.
Qed.

Lemma tiles_le off ms total : tiles off ms total -> off <= total.
Proof.
  revert off. induction ms as [|m ms IH]; intros off; cbn; [lia|].
  intros (_ & ? & Ht). apply IH in Ht. lia.
Qed.

Lemma sorted_keys_snoc ms m :
  sorted_keys ms ->
  match last ms with Some p => bytes_cmp (key p) (key m) = Lt | None => True end ->
  sorted_keys (ms ++ [m]).
Proof.
  intros Hs Hl i j a b Hij Hi Hj.
  apply lookup_app_Some in Hj as [Hj|[Hlen Hj]].
  - pose proof (lookup_lt_Some _ _ _ Hj).
    rewrite lookup_app_l in Hi by lia. by apply (Hs i j).
  - apply list_lookup_singleton_Some in Hj as [Hj <-].
    assert (j = length ms) as -> by lia. rewrite lookup_app_l in Hi by lia.
    destruct (last ms) as [p|] eqn:Hp; [|by apply last_None in Hp as ->].
    rewrite last_lookup in Hp. destruct (decide (i = pred (length ms))) as [->|].
    + by simplify_eq.
    + eapply bytes_cmp_trans; [|exact Hl]. apply (Hs i (pred (length ms))); [lia|done|done].
Qed.

Lemma from_be_firstn_nonneg bs n : all_bytes bs -> 0 <= from_be (firstn n bs).
Proof. intros Hb. by apply (from_be_range (firstn n bs)), Forall_take. Qed.

Lemma from_be_skipn_nonneg bs n : all_bytes bs -> 0 <= from_be (skipn n bs).
Proof. intros Hb. by apply (from_be_range (skipn n bs)), Forall_drop. Qed.

Lemma slice_bytes bs a b sl : all_bytes bs -> slice bs a b = Some sl -> all_bytes sl.
Proof.
  intros Hb Hs. unfold slice in Hs. destruct (_ && _); [|done]. simplify_eq.
  by apply Forall_take, Forall_drop.
Qed.

Lemma parse_entry_len index cursor m size :
  all_bytes index -> parse_entry index cursor = Ok (m, size) -> 0 <= len m.
Proof.
  intros Hb Hp. unfold parse_entry in Hp. repeat case_match; simplify_eq/=.
  apply from_be_skipn_nonneg. by eapply slice_bytes.
Qed.

Lemma parse_entries_sound count index cursor off acc ms cursor' total :
  all_bytes index -> tiles 0 acc off -> sorted_keys acc ->
  parse_entries count index cursor off acc = Ok (ms, cursor', total) ->
  tiles 0 ms total /\ sorted_keys ms /\ length ms = (length acc + count)%nat.
Proof.
  intros Hb. revert cursor off acc.
  induction count as [|count IH]; intros cursor off acc Ht Hs Hp; cbn in Hp.
  { simplify_eq. split_and!; [done|done|lia]. }
  destruct (parse_entry index cursor) as [[m size]|] eqn:He; [|done].
  pose proof (parse_entry_len _ _ _ _ Hb He) as Hlen.
  destruct (Z.eqb_spec (offset m) off) as [<-|]; [|done]. cbn [negb] in Hp.
  unfold checked_add in Hp. destruct (_ <? _); [|done].
  destruct (match last acc with Some _ => _ | None => _ end) eqn:Hord; [done|].
  apply IH in Hp as (? & ? & Hl).
  - split_and!; [done|done|]. rewrite Hl, length_app. cbn. lia.
  - by apply tiles_snoc.
  - apply sorted_keys_snoc; [done|]. destruct (last acc); [|done].
    by destruct (bytes_cmp _ _).
Qed.

Lemma parse_sound pack idx :
  all_bytes pack -> parse pack = Ok idx ->
  sorted_keys (members idx)
  /\ 20 <= payload_start idx <= Z.of_nat (length pack)
  /\ tiles 0 (members idx) (Z.of_nat (length pack) - payload_start idx)
  /\ pack_len idx = Z.of_nat (length pack)
  /\ 0 < Z.of_nat (length (members idx)) <= MAX_PACK_MEMBERS.
Proof.
  intros Hb Hp. unfold parse in Hp.
  destruct (slice pack 0 20) as [header|] eqn:Hh; [|done].
  destruct (decide _); [done|].
  destruct (Z.eqb_spec (from_be (firstn 4 (skipn 8 header))) 0) as [|Hc0]; [done|].
  destruct (Z.ltb_spec MAX_PACK_MEMBERS (from_be (firstn 4 (skipn 8 header)))); [done|].
  destruct (_ <? _); [done|].
  unfold checked_add in Hp. destruct (_ <? _); [|done].
  destruct (slice pack 20 _) as [index|] eqn:Hi; [|done].
  destruct (parse_entries _ _ _ _ _) as [[[ms cursor] total]|] eqn:He; [|done].
  destruct (_ =? _); [|done]. cbn [negb] in Hp. unfold checked_sub in Hp.
  destruct (Z.leb_spec (20 + from_be (skipn 12 header)) (Z.of_nat (length pack))); [|done].
  destruct (Z.eqb_spec (Z.of_nat (length pack) - (20 + from_be (skipn 12 header))) total) as [Ht|];
    [|done].
  cbn [negb] in Hp. simplify_eq. cbn [members payload_start pack_len].
  pose proof (slice_bytes _ _ _ _ Hb Hh) as Hhb. pose proof (slice_bytes _ _ _ _ Hb Hi) as Hib.
  pose proof (from_be_skipn_nonneg header 12 Hhb).
  pose proof (from_be_firstn_nonneg (skipn 8 header) 4 ltac:(by apply Forall_drop)).
  apply parse_entries_sound in He as (Htl & Hs & Hl); [| |done| ].
  - cbn in Hl. split_and!; try done; try lia.
  - done.
  - intros i j a b _ Ha. done.
Qed.

(** The bytes of one member of a parsed pack. *)
Definition span (idx : PackIndex) (pack : list Z) (m : PackMember) : list Z :=
  firstn (Z.to_nat (len m)) (skipn (Z.to_nat (payload_start idx + offset m)) pack).

Lemma tiles_spans (payload : list Z) off ms total :
  0 <= off -> tiles off ms total -> total = Z.of_nat (length payload) ->
  concat ((fun m => firstn (Z.to_nat (len m)) (skipn (Z.to_nat (offset m)) payload)) <$> ms)
  = skipn (Z.to_nat off) payload.
Proof.
  revert off. induction ms as [|m ms IH]; intros off Hoff Ht Htot.
  - cbn in *. rewrite drop_ge by lia. done.
  - destruct Ht as (Hm & Hl & Ht). rewrite fmap_cons. cbn [concat].
    rewrite (IH (off + len m)) by (done || lia). rewrite Hm.
    replace (Z.to_nat (off + len m)) with (Z.to_nat off + Z.to_nat (len m))%nat by lia.
    rewrite <- drop_drop. apply take_drop.
Qed.

Lemma tiles_member off ms total m :
  0 <= off -> tiles off ms total -> m ∈ ms -> 0 <= offset m /\ 0 <= len m /\ offset m + len m <= total.
Proof.
  revert off. induction ms as [|m' ms IH]; intros off Hoff Ht Hin; [by apply elem_of_nil in Hin|].
  destruct Ht as (Hm & Hl & Ht). apply elem_of_cons in Hin as [->|Hin].
  - apply tiles_le in Ht. lia.
  - by apply (IH (off + len m')); [lia|..].
Qed.

Lemma member_bytes_spec idx pack d :
  sorted_keys (members idx) -> 0 <= payload_start idx <= Z.of_nat (length pack) ->
  tiles 0 (members idx) (Z.of_nat (length pack) - payload_start idx) ->
  pack_len idx = Z.of_nat (length pack) -> Z.of_nat (length pack) < 2 ^ 63 ->
  (forall m, m ∈ members idx -> key m = digest_key d ->
     member_bytes idx pack d = Some (span idx pack m)
     /\ Z.of_nat (length (span idx pack m)) = len m)
  /\ ((forall m, m ∈ members idx -> key m <> digest_key d) -> member_bytes idx pack d = None).
Proof.
  intros Hs Hst Ht Hlen Hmax. unfold member_bytes. rewrite Hlen, Z.eqb_refl. cbn [negb]. split.
  - intros m Hin Hk. destruct (tiles_member 0 _ _ _ ltac:(lia) Ht Hin) as (Ho & Hl & Hle).
    pose proof Hin as (i & Hi)%list_elem_of_lookup_1.
    rewrite <- Hk, (binary_search_found _ i m) by done. cbn. rewrite Hi. cbn.
    unfold slice, span. rewrite wadd_small by lia.
    destruct (Nat.leb_spec (Z.to_nat (payload_start idx + offset m))
                (Z.to_nat (payload_start idx + offset m) + Z.to_nat (len m))); [|lia].
    destruct (Nat.leb_spec (Z.to_nat (payload_start idx + offset m) + Z.to_nat (len m))
                (length pack)); [|lia].
    cbn [andb]. split; [do 2 f_equal; lia|]. rewrite length_firstn, length_skipn. lia.
  - intros Hn. by rewrite binary_search_absent.
Qed.

(** A parsed index can be trusted.  Whatever bytes were offered, if the index
    parses then its keys are strictly sorted, there are at most [MAX_PACK_MEMBERS]
    of them, the members' spans concatenate to exactly the payload region (no gap,
    no overlap, nothing behind the last), and member access returns the whole span
    of a listed key and nothing for any other. *)
Theorem parsed_index_tiles pack idx :
  all_bytes pack -> Z.of_nat (length pack) < 2 ^ 63 -> parse pack = Ok idx ->
  concat (span idx pack <$> members idx) = skipn (Z.to_nat (payload_start idx)) pack
  /\ sorted_keys (members idx) /\ Z.of_nat (length (members idx)) <= MAX_PACK_MEMBERS
  /\ forall d,
       (forall m, m ∈ members idx -> key m = digest_key d ->
          member_bytes idx pack d = Some (span idx pack m)
          /\ Z.of_nat (length (span idx pack m)) = len m)
       /\ ((forall m, m ∈ members idx -> key m <> digest_key d) ->
          member_bytes idx pack d = None).
Proof.
  intros Hb Hmax Hp. destruct (parse_sound _ _ Hb Hp) as (Hs & Hst & Ht & Hlen & Hn).
  split_and!; [|done|lia|].
  - change (skipn (Z.to_nat (payload_start idx)) pack)
      with (skipn (Z.to_nat 0) (skipn (Z.to_nat (payload_start idx)) pack)).
    rewrite <- (tiles_spans (skipn (Z.to_nat (payload_start idx)) pack) 0 (members idx) _
                  ltac:(lia) Ht) by (rewrite length_skipn; lia).
    f_equal. apply list_fmap_ext. intros i m Hi. unfold span.
    destruct (tiles_member 0 _ _ m ltac:(lia) Ht) as (Ho & _ & _);
      [by eapply list_elem_of_lookup_2|].
    rewrite drop_drop. do 2 f_equal. lia.
  - intros d. apply member_bytes_spec; [done|lia|done..].
Qed.

(** ** Building and reading back *)

Lemma slice_mid pre mid post :
  slice (pre ++ mid ++ post) (length pre) (length pre + length mid) = Some mid.
Proof.
  unfold slice. rewrite !length_app.
  destruct (Nat.leb_spec (length pre) (length pre + length mid)); [|lia].
  destruct (Nat.leb_spec (length pre + length mid) (length pre + (length mid + length post))); [|lia].
  cbn. rewrite drop_app_length. replace (length pre + length mid - length pre)%nat
    with (length mid) by lia. by rewrite take_app_length.
Qed.

(** A key the writer can emit: a UTF-8 string of less than 2^16 bytes. *)
Definition key_ok (k : list Z) : Prop := utf8_valid k = true /\ Z.of_nat (length k) < 2 ^ 16.

Lemma parse_entry_built pre k off n post :
  key_ok k -> 0 <= off < 2 ^ 64 -> 0 <= n < 2 ^ 64 ->
  parse_entry (pre ++ (be_bytes 2 (wrap 16 (Z.of_nat (length k))) ++ k ++ be_bytes 8 off
                       ++ be_bytes 8 n) ++ post) (length pre)
  = Ok ({| key := k; offset := off; len := n |}, (2 + length k + 16)%nat).
Proof.
  intros [Hu Hk] Ho Hn. unfold parse_entry.
  set (b2 := be_bytes 2 (wrap 16 (Z.of_nat (length k)))).
  assert (length b2 = 2%nat) as Hb2 by apply be_bytes_length.
  assert (from_be b2 = Z.of_nat (length k)) as Hf2.
  { unfold b2. rewrite wrap_small by (unfold in_u; lia). apply from_be_be. lia. }
  set (b16 := be_bytes 8 off ++ be_bytes 8 n).
  assert (length b16 = 16%nat) as Hb16 by (unfold b16; by rewrite length_app, !be_bytes_length).
  rewrite <- !(app_assoc _ _ post).
  pose proof (slice_mid pre b2 (k ++ b16 ++ post)) as H1.
  pose proof (slice_mid (pre ++ b2) k (b16 ++ post)) as H2.
  pose proof (slice_mid (pre ++ b2 ++ k) b16 post) as H3.
  rewrite !length_app, <- !app_assoc, ?Hb2, ?Hb16 in *. rewrite H1, Hf2, Nat2Z.id.
  rewrite H2, Hu. cbn [negb]. rewrite Nat.add_assoc in H3. rewrite H3.
  unfold b16. rewrite take_app_length' by (symmetry; apply be_bytes_length).
  rewrite drop_app_length' by (symmetry; apply be_bytes_length). by rewrite !from_be_be by lia.
Qed.

(** The index entries of the sorted members. *)
Fixpoint entries_of (off : Z) (es : list (list Z * list Z)) : list PackMember :=
  match es with
  | [] => []
  | (k, bs) :: es =>
      {| key := k; offset := off; len := Z.of_nat (length bs) |}
      :: entries_of (off + Z.of_nat (length bs)) es
  end.

Definition payload_len (es : list (list Z * list Z)) : Z := Z.of_nat (length (concat (snd <$> es))).

(** Strictly increasing keys, above [lower] if there is one. *)
Fixpoint increasing (lower : option (list Z)) (es : list (list Z * list Z)) : Prop :=
  match es with
  | [] => True
  | (k, _) :: es =>
      match lower with Some l => bytes_cmp l k = Lt | None => True end
      /\ increasing (Some k) es
  end.

Lemma parse_entries_built es : forall pre off acc,
  Forall (fun e => key_ok (fst e)) es -> 0 <= off -> off + payload_len es < 2 ^ 64 ->
  increasing (key <$> last acc) es ->
  parse_entries (length es) (pre ++ put_index off es) (length pre) off acc
  = Ok (acc ++ entries_of off es, length (pre ++ put_index off es), off + payload_len es).
Proof.
  induction es as [|[k bs] es IH]; intros pre off acc Hk Hoff Hmax Hinc.
  { cbn. rewrite !app_nil_r, Z.add_0_r. done. }
  apply Forall_cons_1 in Hk as [Hk1 Hk]. cbn [fst] in Hk1.
  unfold payload_len in *. cbn [fmap list_fmap snd concat] in *.
  rewrite length_app, Nat2Z.inj_add in *. destruct Hinc as [Hlow Hinc].
  cbn [length parse_entries put_index].
  set (entry := be_bytes 2 (wrap 16 (Z.of_nat (length k))) ++ k ++ be_bytes 8 off
                ++ be_bytes 8 (Z.of_nat (length bs))).
  set (tl := put_index (wadd 64 off (Z.of_nat (length bs))) es).
  assert (pre ++ be_bytes 2 (wrap 16 (Z.of_nat (length k))) ++ k ++ be_bytes 8 off
          ++ be_bytes 8 (Z.of_nat (length bs)) ++ tl = pre ++ entry ++ tl) as ->
    by (unfold entry; by rewrite <- !app_assoc).
  unfold entry at 1. rewrite parse_entry_built by (done || lia). cbn [offset len key].
  rewrite Z.eqb_refl. cbn [negb]. unfold checked_add.
  destruct (Z.ltb_spec (off + Z.of_nat (length bs)) (2 ^ 64)); [|lia].
  assert (match last acc with
          | Some prev => match bytes_cmp (key prev) k with Lt => false | _ => true end
          | None => false end = false) as ->.
  { destruct (last acc) as [p|]; [|done]. cbn in Hlow. by rewrite Hlow. }
  assert (length entry = 2 + length k + 16)%nat as Hle
    by (unfold entry; rewrite !length_app, !be_bytes_length; lia).
  unfold tl. rewrite wadd_small by lia.
  specialize (IH (pre ++ entry) (off + Z.of_nat (length bs))
                (acc ++ [{| key := k; offset := off; len := Z.of_nat (length bs) |}]) Hk
                ltac:(lia) ltac:(lia)).
  rewrite last_snoc in IH. specialize (IH Hinc).
  rewrite length_app, Hle, <- !app_assoc in IH.
  rewrite IH. unfold entry. f_equal. f_equal; [f_equal|].
  - rewrite !length_app. lia.
  - rewrite length_app. lia.
Qed.

Definition packable (es : list (list Z * list Z)) : Prop :=
  es <> [] /\ Forall (fun e => key_ok (fst e)) es /\ increasing None es
  /\ Z.of_nat (length es) <= MAX_PACK_MEMBERS
  /\ Z.of_nat (length (put_index 0 es)) <= MAX_PACK_INDEX_BYTES
  /\ payload_len es < 2 ^ 63.

Definition built_index (es : list (list Z * list Z)) : PackIndex :=
  {| members := entries_of 0 es;
     payload_start := 20 + Z.of_nat (length (put_index 0 es));
     pack_len := Z.of_nat (length (put_pack es (put_index 0 es))) |}.

Lemma parse_built es : packable es -> parse (put_pack es (put_index 0 es)) = Ok (built_index es).
Proof.
  intros (Hne & Hk & Hinc & Hn & Hi & Hp). unfold MAX_PACK_MEMBERS, MAX_PACK_INDEX_BYTES in *.
  set (idx := put_index 0 es) in *. unfold parse, put_pack.
  set (header := PACK_MAGIC_V1 ++ be_bytes 4 (Z.of_nat (length es)) ++ be_bytes 8 (Z.of_nat (length idx))).
  assert (length header = 20%nat) as Hh
    by (unfold header; by rewrite !length_app, !be_bytes_length).
  assert (PACK_MAGIC_V1 ++ be_bytes 4 (Z.of_nat (length es)) ++ be_bytes 8 (Z.of_nat (length idx))
          ++ idx ++ concat es.*2 = header ++ idx ++ concat es.*2) as ->
    by (unfold header; by rewrite <- !app_assoc).
  pose proof (slice_mid [] header (idx ++ concat es.*2)) as Hsl1. cbn [length app Nat.add] in Hsl1.
  rewrite Hh in Hsl1. rewrite Hsl1.
  assert (firstn 8 header = PACK_MAGIC_V1) as -> by done.
  rewrite decide_False by auto.
  assert (firstn 4 (skipn 8 header) = be_bytes 4 (Z.of_nat (length es))) as ->.
  { unfold header. rewrite drop_app_length' by done. by rewrite take_app_length' by (by rewrite be_bytes_length). }
  assert (skipn 12 header = be_bytes 8 (Z.of_nat (length idx))) as ->.
  { unfold header. rewrite app_assoc. by rewrite drop_app_length' by (by rewrite length_app, be_bytes_length). }
  rewrite !from_be_be by lia.
  destruct (Z.eqb_spec (Z.of_nat (length es)) 0); [by destruct es|].
  unfold MAX_PACK_MEMBERS, MAX_PACK_INDEX_BYTES.
  destruct (Z.ltb_spec 4096 (Z.of_nat (length es))); [lia|].
  destruct (Z.ltb_spec (1024 * 1024) (Z.of_nat (length idx))); [lia|].
  unfold checked_add. destruct (Z.ltb_spec (20 + Z.of_nat (length idx)) (2 ^ 64)); [|lia].
  pose proof (slice_mid header idx (concat es.*2)) as Hsl2. rewrite Hh in Hsl2.
  replace (Z.to_nat (20 + Z.of_nat (length idx))) with (20 + length idx)%nat by lia.
  rewrite Hsl2, Nat2Z.id.
  pose proof (parse_entries_built es [] 0 [] Hk ltac:(lia) ltac:(lia) Hinc) as Hsl3.
  cbn [length app] in Hsl3. fold idx in Hsl3. rewrite Hsl3, Z.eqb_refl. cbn [negb].
  unfold checked_sub. rewrite !length_app, Hh. unfold payload_len in *.
  destruct (Z.leb_spec (20 + Z.of_nat (length idx))
              (Z.of_nat (20 + (length idx + length (concat es.*2))))); [|lia].
  destruct (Z.eqb_spec (Z.of_nat (20 + (length idx + length (concat es.*2)))
              - (20 + Z.of_nat (length idx))) (0 + Z.of_nat (length (concat es.*2)))); [|lia].
  cbn [negb]. unfold built_index. fold idx. f_equal. f_equal.
  unfold put_pack. rewrite !length_app, !be_bytes_length. done.
Qed.

Lemma entries_of_span off es e :
  0 <= off -> e ∈ es ->
  exists m, m ∈ entries_of off es /\ key m = fst e /\ len m = Z.of_nat (length (snd e))
    /\ off <= offset m
    /\ firstn (length (snd e)) (skipn (Z.to_nat (offset m - off)) (concat es.*2)) = snd e.
Proof.
  revert off. induction es as [|[k bs] es IH]; intros off Hoff Hin; [by apply elem_of_nil in Hin|].
  apply elem_of_cons in Hin as [->|Hin].
  - eexists. split; [constructor|]. cbn [key len offset fst snd]. split_and!; [done..|lia|].
    rewrite Z.sub_diag. change (Z.to_nat 0) with 0%nat. rewrite drop_0.
    apply take_app_length.
  - destruct (IH (off + Z.of_nat (length bs)) ltac:(lia) Hin) as (m & Hm & Hk & Hl & Ho & Hs).
    exists m. cbn [entries_of]. split_and!; [by constructor|done|done|lia|].
    cbn [fmap list_fmap snd concat]. rewrite skipn_app, drop_ge by lia.
    cbn [app]. rewrite <- Hs at 2. do 2 f_equal. lia.
Qed.

Lemma entries_of_keys off es m : m ∈ entries_of off es -> exists bs, (key m, bs) ∈ es.
Proof.
  revert off. induction es as [|[k bs] es IH]; intros off Hin; [by apply elem_of_nil in Hin|].
  cbn in Hin. apply elem_of_cons in Hin as [->|Hin].
  - exists bs. constructor.
  - destruct (IH _ Hin) as [bs' ?]. exists bs'. by constructor.
Qed.

Lemma built_member es d bs :
  packable es -> all_bytes (put_pack es (put_index 0 es)) ->
  Z.of_nat (length (put_pack es (put_index 0 es))) < 2 ^ 63 ->
  ((digest_key d, bs) ∈ es -> member_bytes (built_index es) (put_pack es (put_index 0 es)) d = Some bs)
  /\ ((forall bs, (digest_key d, bs) ∉ es) ->
        member_bytes (built_index es) (put_pack es (put_index 0 es)) d = None).
Proof.
  intros Hp Hb Hmax.
  destruct (parse_sound _ _ Hb (parse_built es Hp)) as (Hs & Hst & Ht & Hl & _).
  destruct (member_bytes_spec (built_index es) (put_pack es (put_index 0 es)) d Hs ltac:(lia) Ht Hl Hmax)
    as [Hfound Hnone].
  split.
  - intros Hin. destruct (entries_of_span 0 es _ ltac:(lia) Hin) as (m & Hm & Hk & Hlen & Ho & Hsp).
    destruct (Hfound m Hm Hk) as [-> _]. f_equal. unfold span. cbn [fst snd] in *.
    rewrite Hlen, Nat2Z.id. rewrite Z.sub_0_r in Hsp. rewrite <- Hsp at 2. f_equal.
    cbn [payload_start built_index]. unfold put_pack.
    replace (Z.to_nat (20 + Z.of_nat (length (put_index 0 es)) + offset m))
      with ((20 + length (put_index 0 es)) + Z.to_nat (offset m))%nat by lia.
    rewrite <- drop_drop. f_equal. rewrite !app_assoc. apply drop_app_length'.
    rewrite !length_app, !be_bytes_length. done.
  - intros Hn. apply Hnone. intros m Hm Hk. apply entries_of_keys in Hm as [bs' Hin].
    rewrite Hk in Hin. by apply (Hn bs').
Qed.

(** ** From offered members to packable entries *)

Context (sha blk : list Z -> list Z) `{!HasherLaw SHA sha} `{!HasherLaw BLAKE blk}.

(** The member's claimed digest is the content id of its bytes. *)
Definition verified (m : TypedDigest * list Z) : Prop :=
  Z.of_nat (length (snd m)) < 2 ^ 64
  /\ fst m = atp_content_id (ideal_set sha blk default_request (snd m)).

Definition entry_of (m : TypedDigest * list Z) : list Z * list Z := (digest_key (fst m), snd m).

Lemma find_key (k : list Z) (es : list (list Z * list Z)) :
  match find (fun e => bool_decide (fst e = k)) es with
  | Some e => e ∈ es /\ fst e = k
  | None => k ∉ es.*1
  end.
Proof.
  induction es as [|e es IH]; cbn; [apply not_elem_of_nil|].
  case_bool_decide as Hk; [split; [constructor|done]|].
  destruct (find _ es) as [e'|].
  - destruct IH. split; [by constructor|done].
  - apply not_elem_of_cons. split; [congruence|done].
Qed.

Lemma collect_member d bs ms acc :
  collect ((d, bs) :: ms) acc
  = if bool_decide (2 ^ 64 <= Z.of_nat (length bs)) then Err (MemberDigestMismatch (digest_key d))
    else if decide (atp_content_id (ideal_set sha blk default_request bs) ≠ d)
    then Err (MemberDigestMismatch (digest_key d))
    else match find (fun e => bool_decide (fst e = digest_key d)) acc with
         | Some (_, existing) =>
             if decide (existing ≠ bs) then Err (DuplicateDivergentMember (digest_key d))
             else collect ms acc
         | None => collect ms (acc ++ [(digest_key d, bs)])
         end.
Proof.
  cbn [collect]. rewrite (digest_set_ideal sha blk). unfold ideal.
  destruct (Z.leb_spec (2 ^ 64) (Z.of_nat (length bs))).
  - by rewrite bool_decide_eq_true_2 by lia.
  - by rewrite bool_decide_eq_false_2 by lia.
Qed.

Lemma collect_sound ms acc out :
  NoDup acc.*1 -> collect ms acc = Ok out ->
  NoDup out.*1 /\ Forall verified ms
  /\ forall e, e ∈ out <-> e ∈ acc \/ e ∈ entry_of <$> ms.
Proof.
  revert acc. induction ms as [|[d bs] ms IH]; intros acc Hnd Hc.
  { cbn in Hc. simplify_eq. split_and!; [done|constructor|]. intros e. set_solver. }
  rewrite collect_member in Hc.
  case_bool_decide as Hlen; [done|]. destruct (decide _) as [|Hid]; [done|].
  apply dec_stable in Hid. assert (verified (d, bs)) as Hv by (split; cbn; [lia|done]).
  pose proof (find_key (digest_key d) acc) as Hf.
  destruct (find _ acc) as [[k existing]|].
  - destruct (decide _) as [|He]; [done|]. apply dec_stable in He as ->.
    destruct Hf as [Hin Hk]. cbn in Hk. subst k.
    destruct (IH acc Hnd Hc) as (Hnd' & Hall & Hel). split_and!; [done|by constructor|].
    intros e. rewrite Hel, fmap_cons, elem_of_cons. unfold entry_of at 2. cbn [fst snd].
    split; [intros [?|?]; auto|]. intros [?|[->|?]]; auto.
  - destruct (IH (acc ++ [(digest_key d, bs)])) as (Hnd' & Hall & Hel); [|done|].
    { rewrite fmap_app. apply NoDup_app. split_and!; [done| |apply NoDup_singleton].
      intros x Hx ->%list_elem_of_singleton. done. }
    split_and!; [done|by constructor|]. intros e.
    rewrite Hel, fmap_cons, elem_of_cons, elem_of_app, list_elem_of_singleton.
    unfold entry_of at 2. cbn [fst snd]. tauto.
Qed.

Lemma collect_complete ms acc :
  NoDup acc.*1 -> Forall verified ms ->
  (forall e e', e ∈ acc \/ e ∈ entry_of <$> ms -> e' ∈ acc \/ e' ∈ entry_of <$> ms ->
     fst e = fst e' -> e = e') ->
  exists out, collect ms acc = Ok out.
Proof.
  revert acc. induction ms as [|[d bs] ms IH]; intros acc Hnd Hall Hu; [by eexists|].
  apply Forall_cons_1 in Hall as [[Hlen Hid] Hall]. cbn [fst snd] in Hlen, Hid.
  rewrite collect_member. rewrite bool_decide_eq_false_2 by lia.
  rewrite decide_False by auto. pose proof (find_key (digest_key d) acc) as Hf.
  destruct (find _ acc) as [[k existing]|].
  - destruct Hf as [Hin Hk]. cbn in Hk. subst k.
    assert ((digest_key d, existing) = (digest_key d, bs)) as [= ->].
    { apply Hu; [by left|right; rewrite fmap_cons; constructor|done]. }
    rewrite decide_False by auto. apply IH; [done|done|]. intros e e' He He'. apply Hu; set_solver.
  - apply IH; [|done|].
    { rewrite fmap_app. apply NoDup_app. split_and!; [done| |apply NoDup_singleton].
      intros x Hx ->%list_elem_of_singleton. done. }
    intros e e' He He'. apply Hu; rewrite ?fmap_cons, ?elem_of_cons, ?elem_of_app,
      ?list_elem_of_singleton in *; unfold entry_of in *; cbn in *; tauto.
Qed.

(** ** Keys and their order *)

Lemma ascii_valid bs : Forall (fun b => 0 <= b < 128) bs -> utf8_valid bs = true.
Proof.
  induction 1 as [|b bs Hb _ IH]; cbn [utf8_valid]; [done|].
  by destruct (Z.ltb_spec b 128); [|lia].
Qed.

Lemma hex_ascii bs : all_bytes bs -> Forall (fun b => 0 <= b < 128) (hex bs).
Proof.
  induction 1 as [|b bs Hb _ IH]; [constructor|].
  unfold hex. rewrite fmap_cons. cbn [concat app]. unfold is_byte in Hb.
  assert (0 <= b / 16 < 16) by (split; [apply Z.div_pos|apply Z.div_lt_upper_bound]; lia).
  assert (0 <= b mod 16 < 16) by (apply Z.mod_pos_bound; lia).
  repeat constructor; try exact IH; unfold hex_nibble;
    destruct (Z.ltb_spec (b / 16) 10), (Z.ltb_spec (b mod 16) 10); lia.
Qed.

Lemma hex_length bs : length (hex bs) = (2 * length bs)%nat.
Proof.
  induction bs as [|b bs IH]; [done|]. unfold hex in *. rewrite fmap_cons.
  cbn [concat app length]. rewrite IH. cbn [length]. lia.
Qed.

Lemma verified_key_ok m : verified m -> key_ok (digest_key (fst m)).
Proof.
  intros [_ ->]. unfold digest_key, ideal_set. cbn [atp_content_id domain digest_bytes].
  set (bs := sha _). split.
  - apply ascii_valid. rewrite !Forall_app. split_and!.
    + apply Forall_forall. intros b Hb. vm_compute in Hb. set_unfold in Hb. lia.
    + repeat constructor; lia.
    + apply hex_ascii, (h_bytes (H := SHA)).
  - rewrite !length_app, hex_length.
    assert (length bs = 32%nat) as -> by apply (h_width (H := SHA)). done.
Qed.

Lemma key_leb_trans x y z : key_leb x y = true -> key_leb y z = true -> key_leb x z = true.
Proof.
  unfold key_leb. destruct (bytes_cmp (fst x) (fst y)) eqn:E1; try done.
  - by apply bytes_cmp_eq in E1 as ->.
  - destruct (bytes_cmp (fst y) (fst z)) eqn:E2; try done; intros _ _.
    + apply bytes_cmp_eq in E2 as <-. by rewrite E1.
    + by rewrite (bytes_cmp_trans _ _ _ E1 E2).
Qed.

Lemma key_leb_total x y : key_leb x y = false -> key_leb y x = true.
Proof.
  unfold key_leb. rewrite (bytes_cmp_antisym (fst x)). by destruct (bytes_cmp (fst x) (fst y)).
Qed.

Lemma sorted_increasing lower es :
  StronglySorted (fun x y => key_leb x y = true) es -> NoDup es.*1 ->
  match lower with
  | Some l => Forall (fun e => bytes_cmp l (fst e) = Lt) es
  | None => True
  end -> increasing lower es.
Proof.
  intros Hs. revert lower. induction Hs as [|[k bs] es Hs IH Hall]; intros lower Hnd Hlow; cbn; [done|].
  cbn in Hnd. apply NoDup_cons in Hnd as [Hni Hnd]. split.
  - destruct lower; [|done]. by apply Forall_cons_1 in Hlow as [? _].
  - apply IH; [done|]. apply Forall_forall. intros e He. rewrite Forall_forall in Hall.
    specialize (Hall e He). unfold key_leb in Hall. cbn [fst] in Hall.
    destruct (bytes_cmp k (fst e)) eqn:Hc; try done.
    apply bytes_cmp_eq in Hc as ->. exfalso. apply Hni, list_elem_of_fmap. eauto.
Qed.

(** What a successful build went through. *)
Lemma build_pack_inv ms pack :
  build_pack ms = Ok pack ->
  exists out, collect ms [] = Ok out
    /\ let es := sort_by key_leb out in
       pack = put_pack es (put_index 0 es) /\ NoDup es.*1 /\ Forall verified ms
       /\ (forall e, e ∈ es <-> e ∈ entry_of <$> ms)
       /\ (payload_len es < 2 ^ 63 -> packable es).
Proof.
  intros Hb. unfold build_pack in Hb.
  destruct ms as [|m ms'] eqn:Hms; [done|]. rewrite <- Hms in *.
  destruct (collect ms []) as [out|] eqn:Hc; [|done]. exists out. split; [done|].
  destruct (collect_sound ms [] out) as (Hnd & Hall & Hel); [constructor|done|].
  cbn zeta. set (es := sort_by key_leb out) in *.
  assert (es ≡ₚ out) as Hperm by apply sort_by_perm.
  assert (forall e, e ∈ es <-> e ∈ entry_of <$> ms) as Hes.
  { intros e. rewrite Hperm, Hel. split; [intros [He|]; [by apply elem_of_nil in He|done]|auto]. }
  destruct (Z.ltb_spec MAX_PACK_MEMBERS (Z.of_nat (length es))); [done|].
  destruct (Z.ltb_spec MAX_PACK_INDEX_BYTES (Z.of_nat (length (put_index 0 es)))); [done|].
  simplify_eq. assert (NoDup es.*1) as Hnd' by (by rewrite Hperm).
  split_and!; try done. intros Hp. split_and!; try done; try lia.
  - intros Hnil. assert (entry_of m ∈ es) as He by (apply Hes; constructor).
    rewrite Hnil in He. by apply elem_of_nil in He.
  - apply Forall_forall. intros e (m' & -> & Hm')%Hes%list_elem_of_fmap.
    rewrite Forall_forall in Hall. by apply verified_key_ok, Hall.
  - apply sorted_increasing; [|done|done].
    apply sort_by_sorted; [apply key_leb_trans|apply key_leb_total].
Qed.

Lemma put_index_bytes off es : Forall (fun e => all_bytes (fst e)) es -> all_bytes (put_index off es).
Proof.
  revert off. induction es as [|[k bs] es IH]; intros off Hk; [constructor|].
  apply Forall_cons_1 in Hk as [Hk1 Hk]. cbn [put_index].
  rewrite !Forall_app. split_and!; auto using be_bytes_all.
Qed.

Lemma hex_bytes bs : all_bytes bs -> all_bytes (hex bs).
Proof.
  intros H'. eapply Forall_impl; [by apply hex_ascii|]. intros b Hb. cbn in Hb. unfold is_byte. lia.
Qed.

(** What is packed can be read back.  Whenever members can be packed, the pack
    parses, every member is found under its digest with exactly its bytes, and a
    digest whose key is not among the members is reported absent. *)
Theorem pack_round_trip ms pack :
  Forall (fun m => all_bytes (snd m)) ms -> Z.of_nat (length pack) < 2 ^ 63 ->
  build_pack ms = Ok pack ->
  exists idx, parse pack = Ok idx
    /\ (forall d bs, (d, bs) ∈ ms -> member_bytes idx pack d = Some bs)
    /\ (forall d, (forall d' bs, (d', bs) ∈ ms -> digest_key d' <> digest_key d) ->
          member_bytes idx pack d = None).
Proof.
  intros Hbytes Hmax Hb. destruct (build_pack_inv _ _ Hb) as (out & _ & -> & Hnd & Hver & Hes & Hpk).
  set (es := sort_by key_leb out) in *.
  assert (packable es) as Hp.
  { apply Hpk. unfold payload_len. unfold put_pack in Hmax. rewrite !length_app in Hmax. lia. }
  assert (all_bytes (put_pack es (put_index 0 es))) as Hall.
  { unfold put_pack. rewrite !Forall_app. split_and!; auto using be_bytes_all.
    - apply str_bytes_all.
    - apply put_index_bytes, Forall_forall.
      intros e (m & -> & Hm)%Hes%list_elem_of_fmap. rewrite Forall_forall in Hver.
      destruct (Hver m Hm) as [_ Hid]. cbn [fst entry_of]. rewrite Hid. unfold digest_key.
      rewrite !Forall_app. split_and!; [apply str_bytes_all|repeat constructor; lia|].
      apply hex_bytes. cbn [digest_bytes atp_content_id ideal_set]. apply (h_bytes (H := SHA)).
    - apply Forall_concat, Forall_fmap, Forall_forall.
      intros e (m & -> & Hm)%Hes%list_elem_of_fmap. cbn. rewrite Forall_forall in Hbytes. auto. }
  exists (built_index es). split; [by apply parse_built|]. split.
  - intros d bs Hin. apply built_member; [done..|]. apply Hes, list_elem_of_fmap. by exists (d, bs).
  - intros d Hn. apply (built_member es d []); [done..|].
    intros bs ([d' bs'] & Heq & Hm)%Hes%list_elem_of_fmap. cbn in Heq.
    injection Heq as Hk ->. by apply (Hn d' bs').
Qed.

(** Packs are deterministic: the same set of members gives the byte-identical
    pack, whatever the order and repetition in which they were offered. *)
Theorem pack_deterministic ms ms' pack :
  (forall m, m ∈ ms <-> m ∈ ms') -> build_pack ms = Ok pack -> build_pack ms' = Ok pack.
Proof.
  intros Hset Hb. destruct (build_pack_inv _ _ Hb) as (out & Hc & Hpack & Hnd & Hver & Hes & _).
  cbn zeta in *. assert (NoDup out.*1) as Hndo by (by rewrite <- (sort_by_perm key_leb out)).
  assert (forall e, e ∈ out <-> e ∈ entry_of <$> ms') as Hout.
  { intros e. rewrite <- (sort_by_perm key_leb out), Hes.
    rewrite !list_elem_of_fmap. split; intros (m & -> & Hm); exists m; split; try done; by apply Hset. }
  assert (forall e e', e ∈ out -> e' ∈ out -> fst e = fst e' -> e = e') as Huniq.
  { intros e e' (i & Hi)%list_elem_of_lookup_1 (j & Hj)%list_elem_of_lookup_1 Hk.
    assert (i = j) as ->; [|congruence].
    eapply (NoDup_lookup _ i j _ Hndo); rewrite list_lookup_fmap, ?Hi, ?Hj; cbn; by rewrite ?Hk. }
  destruct (collect_complete ms' []) as [out' Hc']; [constructor| | |].
  { apply Forall_forall. intros m Hm. rewrite Forall_forall in Hver. by apply Hver, Hset. }
  { intros e e' [He|He] [He'|He'] Hk; try (by apply elem_of_nil in He);
      try (by apply elem_of_nil in He'). by apply Huniq; [apply Hout|apply Hout|]. }
  destruct (collect_sound ms' [] out') as (Hndo' & _ & Hel'); [constructor|done|].
  assert (sort_by key_leb out' = sort_by key_leb out) as Heq.
  { apply (sorted_perm_unique key_leb).
    - intros x y Hx Hy H1' H2'. rewrite sort_by_perm in Hx, Hy.
      assert (forall e, e ∈ out' -> e ∈ out) as Hsub.
      { intros e He. apply Hout. apply Hel' in He as [He|?]; [by apply elem_of_nil in He|done]. }
      apply Huniq; [by apply Hsub|by apply Hsub|]. apply bytes_cmp_eq.
      unfold key_leb in H1', H2'. rewrite (bytes_cmp_antisym (fst x)) in H2'.
      by destruct (bytes_cmp (fst x) (fst y)).
    - apply sort_by_sorted; [apply key_leb_trans|apply key_leb_total].
    - apply sort_by_sorted; [apply key_leb_trans|apply key_leb_total].
    - rewrite !sort_by_perm. apply NoDup_Permutation; [by eapply NoDup_fmap_1..|].
      intros e. rewrite Hout, Hel'. split; [intros [He|?]; [by apply elem_of_nil in He|done]|auto]. }
  unfold build_pack in *. rewrite Hc'. rewrite Hc in Hb. rewrite Heq.
  destruct ms as [|m ms]; [done|]. destruct ms' as [|m' ms']; [|exact Hb].
  exfalso. apply (not_elem_of_nil m), Hset. constructor.
Qed.

End pack.

(** ** A pack of two objects *)

Definition toy_member (bs : list Z) : TypedDigest * list Z :=
  (atp_content_id (ideal_set toy_hash toy_hash default_request bs), bs).

Definition toy_members : list (TypedDigest * list Z) :=
  [toy_member [3; 4]; toy_member []; toy_member [3; 4]].

Definition toy_pack : list Z :=
  match build_pack (SHA := list Z) (BLAKE := list Z) toy_members with Ok p => p | Err _ => [] end.

Lemma pack_round_trip_witness :
  exists idx, parse toy_pack = Ok idx
    /\ member_bytes idx toy_pack (fst (toy_member [3; 4])) = Some [3; 4].
Proof.
  destruct (pack_round_trip (SHA := list Z) (BLAKE := list Z) toy_hash toy_hash toy_members toy_pack)
    as (idx & Hp & Hm & _).
  - repeat constructor; unfold is_byte; cbn; lia.
  - vm_compute. reflexivity.
  - vm_compute. reflexivity.
  - exists idx. split; [exact Hp|]. apply Hm. constructor.
Defined.

Lemma pack_deterministic_witness :
  build_pack (SHA := list Z) (BLAKE := list Z) [toy_member []; toy_member [3; 4]] = Ok toy_pack.
Proof.
  apply (pack_deterministic (SHA := list Z) (BLAKE := list Z) toy_hash toy_hash toy_members).
  - intros m. unfold toy_members. rewrite !elem_of_cons. tauto.
  - vm_compute. reflexivity.
Defined.

Lemma parsed_index_tiles_witness :
  exists idx, parse toy_pack = Ok idx
    /\ concat (span idx toy_pack <$> members idx)
       = skipn (Z.to_nat (payload_start idx)) toy_pack.
Proof.
  eexists. split; [vm_compute; reflexivity|].
  apply (parsed_index_tiles toy_pack).
  - apply Forall_forall. intros b Hb. vm_compute in Hb. unfold is_byte. set_unfold in Hb. lia.
  - vm_compute. reflexivity.
  - vm_compute. reflexivity.
Defined.

End Pack.
