(* ===== verification/Closure.v ===== *)
(** * Dependency closure planning

    rch-common/src/cargo_path_deps.rs, the graph half: collecting packages and edges
    ([PartialGraph]), the depth-first traversal that keeps what is reachable and refuses
    cycles ([finalize_graph]), and the closure of what must be copied.
    rch-common/src/dependency_closure_planner.rs, whole: the dependency-first order, the
    synchronisation plan, and the plans that let the build run locally.

    The properties are in Planning.v.

    A path is the list of its components, as [Path] compares them; all paths are absolute.
    Ordered maps and sets are finite maps and sets, traversed in order.  The two resolvers,
    which run [cargo metadata] and parse manifests, are parameters of the plan; so is the
    debug format of a list of paths. *)

From stdpp Require Import base gmap list strings.
From Stdlib Require Import ZArith Lia.
From S2P Require Import Prelude Bytes Text Numerals Pack.
Import Pack.

Module Paths.

Definition path : Type := list str.

(** [Ord] of [Path]: component by component. *)
Fixpoint path_cmp (a b : path) : comparison :=
  match a, b with
  | [], [] => Eq
  | [], _ :: _ => Lt
  | _ :: _, [] => Gt
  | x :: a, y :: b => match bytes_cmp x y with Eq => path_cmp a b | c => c end
  end.

Definition is_le (c : comparison) : bool := match c with Gt => false | _ => true end.

Definition path_leb (a b : path) : bool := is_le (path_cmp a b).

Definition join (p : path) (name : string) : path := p ++ [str_bytes name].
Definition parent (p : path) : option path := match p with [] => None | _ => Some (removelast p) end.
Definition file_name (p : path) : option str := last p.

(** [display]. *)
Definition display (p : path) : str :=
  match p with
  | [] => str_bytes "/"
  | _ => concat ((fun c => str_bytes "/" ++ c) <$> p)
  end.

(** The elements of a [BTreeSet], in order. *)
Definition iter_paths (s : gset path) : list path := sort_by path_leb (elements s).

End Paths.

Module CargoGraph.
Import Paths.

Inductive CargoPathDependencyErrorKind :=
  | ManifestParseFailure | MissingPathDependency | CyclicDependency
  | PathPolicyViolation | MetadataParseFailure | MetadataInvocationFailure.

Definition kind_str (k : CargoPathDependencyErrorKind) : string :=
  match k with
  | ManifestParseFailure => "manifest parse failure"
  | MissingPathDependency => "missing path dependency"
  | CyclicDependency => "cyclic path dependency"
  | PathPolicyViolation => "path policy violation"
  | MetadataParseFailure => "metadata parse failure"
  | MetadataInvocationFailure => "metadata invocation failure"
  end.

Record CargoPathDependencyError := {
  kind : CargoPathDependencyErrorKind;
  detail : str;
  err_manifest_path : option path;
  err_dependency_name : option str;
  err_dependency_path : option path;
  cycle : list path;
  err_diagnostics : list str;
}.

Definition error_new (k : CargoPathDependencyErrorKind) (d : str) : CargoPathDependencyError :=
  {| kind := k; detail := d; err_manifest_path := None; err_dependency_name := None;
     err_dependency_path := None; cycle := []; err_diagnostics := [] |}.

Definition with_cycle (c : list path) (e : CargoPathDependencyError) : CargoPathDependencyError :=
  {| kind := kind e; detail := detail e; err_manifest_path := err_manifest_path e;
     err_dependency_name := err_dependency_name e; err_dependency_path := err_dependency_path e;
     cycle := c; err_diagnostics := err_diagnostics e |}.

Record CargoPathDependencyPackage := {
  package_root : path;
  manifest_path : path;
  package_name : str;
  workspace_member : bool;
}.

(** From, to, and the key in the manifest, ordered as tuples. *)
Record CargoPathDependencyEdge := { from : path; to : path; dependency_name : str }.

Record CargoPathDependencyGraph := {
  entry_manifest_path : path;
  workspace_root : option path;
  root_packages : list path;
  packages : list CargoPathDependencyPackage;
  edges : list CargoPathDependencyEdge;
}.

(** The materialization closure has the same fields. *)
Definition CargoPathMaterializationClosure : Type := CargoPathDependencyGraph.

(** ** Collecting the graph *)

Record PackageRecord := { rec_manifest_path : path; rec_package_name : str; rec_workspace_member : bool }.

(** Target and dependency name. *)
Definition EdgeTail : Type := path * str.

Record PartialGraph := {
  p_workspace_root : option path;
  roots : gset path;
  p_packages : gmap path PackageRecord;
  adjacency : gmap path (gset EdgeTail);
}.

Definition partial_default : PartialGraph :=
  {| p_workspace_root := None; roots := ∅; p_packages := ∅; adjacency := ∅ |}.

Definition default_package_name (root : path) : str :=
  match file_name root with
  | Some segment => if utf8_valid segment then segment else display root
  | None => display root
  end.

Definition add_root (root : path) (g : PartialGraph) : PartialGraph :=
  {| p_workspace_root := p_workspace_root g; roots := roots g ∪ {[ root ]};
     p_packages := p_packages g; adjacency := adjacency g |}.

Definition add_package (root manifest : path) (name : str) (member : bool) (g : PartialGraph) : PartialGraph :=
  let record :=
    match p_packages g !! root with
    | Some existing =>
        {| rec_manifest_path := manifest;
           rec_package_name :=
             if bool_decide (rec_package_name existing = default_package_name root)
                && negb (bool_decide (name = rec_package_name existing))
             then name else rec_package_name existing;
           rec_workspace_member := rec_workspace_member existing || member |}
    | None => {| rec_manifest_path := manifest; rec_package_name := name; rec_workspace_member := member |}
    end in
  {| p_workspace_root := p_workspace_root g; roots := roots g;
     p_packages := <[root := record]> (p_packages g);
     adjacency := <[root := default ∅ (adjacency g !! root)]> (adjacency g) |}.

Definition add_edge (f t : path) (name : str) (g : PartialGraph) : PartialGraph :=
  {| p_workspace_root := p_workspace_root g; roots := roots g; p_packages := p_packages g;
     adjacency := <[f := default ∅ (adjacency g !! f) ∪ {[ (t, name) ]}]> (adjacency g) |}.

(** ** The traversal *)

Inductive VisitState := Visiting | Visited.

#[export] Instance VisitState_eq_dec : EqDecision VisitState.
Proof. solve_decision. Defined.

Definition EdgeRecord : Type := path * path * str.

Record visit := {
  states : gmap path VisitState;
  stack : list path;
  reachable_nodes : gset path;
  reachable_edges : gset EdgeRecord;
}.

Definition visit_start : visit :=
  {| states := ∅; stack := []; reachable_nodes := ∅; reachable_edges := ∅ |}.

(** [stack.push(node)], [reachable_nodes.insert(node)]. *)
Definition enter (n : path) (v : visit) : visit :=
  {| states := <[n := Visiting]> (states v); stack := stack v ++ [n];
     reachable_nodes := reachable_nodes v ∪ {[ n ]}; reachable_edges := reachable_edges v |}.

Definition add_reachable_edge (e : EdgeRecord) (v : visit) : visit :=
  {| states := states v; stack := stack v; reachable_nodes := reachable_nodes v;
     reachable_edges := reachable_edges v ∪ {[ e ]} |}.

Definition leave (n : path) (v : visit) : visit :=
  {| states := <[n := Visited]> (states v); stack := removelast (stack v);
     reachable_nodes := reachable_nodes v; reachable_edges := reachable_edges v |}.

Fixpoint from_position (terminal : path) (l : list path) : option (list path) :=
  match l with
  | [] => None
  | n :: l' => if bool_decide (n = terminal) then Some l else from_position terminal l'
  end.

Definition cycle_from_stack (stack : list path) (terminal : path) : list path :=
  match from_position terminal stack with
  | Some suffix => suffix ++ [terminal]
  | None => [terminal]
  end.

Definition tail_leb (a b : EdgeTail) : bool :=
  match path_cmp (fst a) (fst b) with Eq => is_le (bytes_cmp (snd a) (snd b)) | c => is_le c end.

Definition edge_leb (a b : EdgeRecord) : bool :=
  match path_cmp (fst (fst a)) (fst (fst b)) with
  | Eq => tail_leb (snd (fst a), snd a) (snd (fst b), snd b)
  | c => is_le c
  end.

Definition cyclic_at (v : visit) (n : path) (detail : str) : CargoPathDependencyError :=
  with_cycle (cycle_from_stack (stack v) n) (error_new CyclicDependency detail).

(** The edges of [node], in order, descending into each target; [descend] is the recursive
    call. *)
Fixpoint traverse_edges (descend : path -> visit -> option (result CargoPathDependencyError visit))
    (node : path) (tails : list EdgeTail) (v : visit) : option (result CargoPathDependencyError visit) :=
  match tails with
  | [] => Some (Ok v)
  | (t, name) :: tails =>
      let v := add_reachable_edge (node, t, name) v in
      if bool_decide (states v !! t = Some Visiting) then
        Some (Err (cyclic_at v t (str_bytes "cycle detected between " ++ display node
                                  ++ str_bytes " and " ++ display t)))
      else
        match descend t v with
        | None => None
        | Some (Err e) => Some (Err e)
        | Some (Ok v) => traverse_edges descend node tails v
        end
  end.

(** [None]: out of fuel. *)
Fixpoint traverse_for_reachable (fuel : nat) (adj : gmap path (gset EdgeTail)) (node : path) (v : visit) :
    option (result CargoPathDependencyError visit) :=
  match fuel with
  | O => None
  | S fuel =>
      match states v !! node with
      | Some Visited => Some (Ok v)
      | Some Visiting => Some (Err (cyclic_at v node (str_bytes "cycle detected while traversing dependency graph")))
      | None =>
          let v := enter node v in
          let tails := sort_by tail_leb (elements (default ∅ (adj !! node))) in
          match traverse_edges (traverse_for_reachable fuel adj) node tails v with
          | Some (Ok v) => Some (Ok (leave node v))
          | r => r
          end
      end
  end.

Fixpoint traverse_roots (fuel : nat) (adj : gmap path (gset EdgeTail)) (rs : list path) (v : visit) :
    option (result CargoPathDependencyError visit) :=
  match rs with
  | [] => Some (Ok v)
  | r :: rs =>
      match traverse_for_reachable fuel adj r v with
      | Some (Ok v) => traverse_roots fuel adj rs v
      | r => r
      end
  end.

(** Every node the graph mentions; the traversal nests at most this deep. *)
Definition all_nodes (g : PartialGraph) : gset path :=
  roots g ∪ dom (adjacency g)
  ∪ list_to_set (fst <$> concat (elements <$> (snd <$> map_to_list (adjacency g)))).

Definition package_at (g : PartialGraph) (root : path) : CargoPathDependencyPackage :=
  match p_packages g !! root with
  | Some package =>
      {| package_root := root; manifest_path := rec_manifest_path package;
         package_name := rec_package_name package; workspace_member := rec_workspace_member package |}
  | None =>
      {| package_root := root; manifest_path := join root "Cargo.toml";
         package_name := default_package_name root; workspace_member := bool_decide (root ∈ roots g) |}
  end.

Definition edge_of (e : EdgeRecord) : CargoPathDependencyEdge :=
  {| from := fst (fst e); to := snd (fst e); dependency_name := snd e |}.

Definition finalize_graph (entry : path) (g : PartialGraph) :
    option (result CargoPathDependencyError CargoPathDependencyGraph) :=
  match traverse_roots (S (size (all_nodes g))) (adjacency g) (iter_paths (roots g)) visit_start with
  | None => None
  | Some (Err e) => Some (Err e)
  | Some (Ok v) =>
      Some (Ok {| entry_manifest_path := entry; workspace_root := p_workspace_root g;
                  root_packages := iter_paths (roots g);
                  packages := package_at g <$> iter_paths (reachable_nodes v);
                  edges := edge_of <$> sort_by edge_leb (elements (reachable_edges v)) |})
  end.

Definition finalize_materialization_closure (entry : path) (g : PartialGraph) : CargoPathMaterializationClosure :=
  {| entry_manifest_path := entry; workspace_root := p_workspace_root g;
     root_packages := iter_paths (roots g);
     packages := package_at g <$> iter_paths (dom (p_packages g));
     edges := concat ((fun f => (fun t => {| from := f; to := fst t; dependency_name := snd t |})
                                <$> sort_by tail_leb (elements (default ∅ (adjacency g !! f))))
                      <$> iter_paths (dom (adjacency g))) |}.

End CargoGraph.

Module Planner.
Import Paths CargoGraph.

Inductive DependencyClosurePlanState := Ready | FailOpen.
Inductive DependencyRiskClass := Low | Medium | High | Critical.
Inductive DependencySyncReason := EntryPoint | WorkspaceMember | TransitivePathDependency.

Record DependencySyncMetadata := {
  reason : DependencySyncReason;
  m_workspace_member : bool;
  root_package : bool;
  inbound_dependency_names : list str;
  dependent_roots : list path;
  notes : list str;
}.

Record DependencySyncAction := {
  order_index : Z;
  a_package_root : path;
  a_manifest_path : path;
  a_package_name : str;
  a_risk : DependencyRiskClass;
  metadata : DependencySyncMetadata;
}.

Record DependencyPlanIssue := {
  code : string;
  message : str;
  i_risk : DependencyRiskClass;
  diagnostics : list str;
}.

Record DependencyClosurePlan := {
  state : DependencyClosurePlanState;
  plan_entry_manifest_path : path;
  plan_workspace_root : option path;
  canonical_roots : list path;
  sync_order : list DependencySyncAction;
  fail_open : bool;
  fail_open_reason : option str;
  issues : list DependencyPlanIssue;
}.

Definition is_ready (p : DependencyClosurePlan) : bool :=
  match state p with Ready => negb (fail_open p) | FailOpen => false end.

Definition sync_roots (p : DependencyClosurePlan) : list path := a_package_root <$> sync_order p.

Definition classify_sync_risk (r : DependencySyncReason) (dependent_root_count : nat) : DependencyRiskClass :=
  match r with
  | EntryPoint | WorkspaceMember => Low
  | TransitivePathDependency => if (1 <? dependent_root_count)%nat then High else Medium
  end.

(** ** The order *)

Definition graph_nodes (ps : list CargoPathDependencyPackage) (es : list CargoPathDependencyEdge) : gset path :=
  list_to_set (package_root <$> ps) ∪ list_to_set (from <$> es) ∪ list_to_set (to <$> es).

Abbreviation counts := (gmap path Z).
Abbreviation dependents := (gmap path (gset path)).

Definition insert_at (k x : path) (m : dependents) : dependents := <[k := default ∅ (m !! k) ∪ {[ x ]}]> m.

Fixpoint count_edges (es : list CargoPathDependencyEdge) (indegree : counts) (deps : dependents) :
    option (counts * dependents) :=
  match es with
  | [] => Some (indegree, deps)
  | e :: es =>
      match indegree !! from e with
      | None => None
      | Some n => count_edges es (<[from e := n + 1]> indegree) (insert_at (to e) (from e) deps)
      end
  end.

(** The dependents of a node that was placed. *)
Fixpoint release (ds : list path) (indegree : counts) (ready : gset path) : option (counts * gset path) :=
  match ds with
  | [] => Some (indegree, ready)
  | d :: ds =>
      match indegree !! d with
      | None => None
      | Some degree =>
          if degree =? 0 then None
          else
            let degree := degree - 1 in
            release ds (<[d := degree]> indegree) (if degree =? 0 then ready ∪ {[ d ]} else ready)
      end
  end.

Definition pop_first (s : gset path) : option (path * gset path) :=
  match iter_paths s with
  | [] => None
  | x :: _ => Some (x, s ∖ {[ x ]})
  end.

(** The loop; the outer [None] is out of fuel. *)
Fixpoint place (fuel : nat) (deps : dependents) (indegree : counts) (ready : gset path) (order : list path) :
    option (option (list path)) :=
  match fuel with
  | O => None
  | S fuel =>
      match pop_first ready with
      | None => Some (Some order)
      | Some (node, ready) =>
          match release (iter_paths (default ∅ (deps !! node))) indegree ready with
          | None => Some None
          | Some (indegree, ready) => place fuel deps indegree ready (order ++ [node])
          end
      end
  end.

Definition ready_nodes (indegree : counts) : gset path := dom (filter (fun e => snd e = 0) indegree).

Definition dependency_first_topological_order (ps : list CargoPathDependencyPackage)
    (es : list CargoPathDependencyEdge) : option (option (list path)) :=
  let nodes := graph_nodes ps es in
  match count_edges es (gset_to_gmap 0 nodes) ∅ with
  | None => Some None
  | Some (indegree, deps) =>
      match place (S (size nodes)) deps indegree (ready_nodes indegree) [] with
      | Some (Some order) => Some (if (length order =? size nodes)%nat then Some order else None)
      | r => r
      end
  end.

(** ** The plan *)

Definition inbound_names_of (es : list CargoPathDependencyEdge) (root : path) : list str :=
  sort_by (fun a b => is_le (bytes_cmp a b))
    (elements (list_to_set (C := gset str) (dependency_name <$> filter (fun e => to e = root) es))).

Definition dependents_of (es : list CargoPathDependencyEdge) (root : path) : list path :=
  iter_paths (list_to_set (from <$> filter (fun e => to e = root) es)).

Definition package_by_root (ps : list CargoPathDependencyPackage) : gmap path CargoPathDependencyPackage :=
  fold_left (fun m p => <[package_root p := p]> m) ps ∅.

Definition missing_package (root : path) : CargoPathDependencyPackage :=
  {| package_root := root; manifest_path := join root "Cargo.toml";
     package_name := match file_name root with
                     | Some segment => if utf8_valid segment then segment else str_bytes "unknown"
                     | None => str_bytes "unknown"
                     end;
     workspace_member := false |}.

Definition count_note (n : nat) : str := str_bytes "dependent_root_count=" ++ show_u64 (Z.of_nat n).

(** The action of a package for a reason. *)
Definition action_for (es : list CargoPathDependencyEdge) (roots : list path)
    (p : CargoPathDependencyPackage) (r : DependencySyncReason) (more_notes : list str) : DependencySyncAction :=
  let ds := dependents_of es (package_root p) in
  {| order_index := 0; a_package_root := package_root p; a_manifest_path := manifest_path p;
     a_package_name := package_name p; a_risk := classify_sync_risk r (length ds);
     metadata := {| reason := r; m_workspace_member := workspace_member p;
                    root_package := bool_decide (package_root p ∈ roots);
                    inbound_dependency_names := inbound_names_of es (package_root p);
                    dependent_roots := ds; notes := count_note (length ds) :: more_notes |} |}.

Definition active_action (g : CargoPathDependencyGraph) (root : path) : DependencySyncAction :=
  let entry_root := default [] (parent (entry_manifest_path g)) in
  let p := default (missing_package root) (package_by_root (packages g) !! root) in
  let r := if bool_decide (package_root p = entry_root) then EntryPoint
           else if workspace_member p then WorkspaceMember else TransitivePathDependency in
  action_for (edges g) (root_packages g) p r [].

Definition materialization_action (m : CargoPathMaterializationClosure) (p : CargoPathDependencyPackage) :
    DependencySyncAction :=
  let r := if workspace_member p then WorkspaceMember else TransitivePathDependency in
  action_for (edges m) (root_packages m) p r
    [str_bytes "materialization_only=true"; str_bytes "active_execution_edge=false"].

Definition with_index (i : Z) (a : DependencySyncAction) : DependencySyncAction :=
  {| order_index := i; a_package_root := a_package_root a; a_manifest_path := a_manifest_path a;
     a_package_name := a_package_name a; a_risk := a_risk a; metadata := metadata a |}.

Definition number (l : list DependencySyncAction) : list DependencySyncAction :=
  imap (fun i a => with_index (Z.of_nat i) a) l.

Definition unordered_plan (g : CargoPathDependencyGraph) : DependencyClosurePlan :=
  {| state := FailOpen; plan_entry_manifest_path := entry_manifest_path g;
     plan_workspace_root := workspace_root g; canonical_roots := []; sync_order := []; fail_open := true;
     fail_open_reason := Some (str_bytes "planner could not derive deterministic order from dependency graph");
     issues := [{| code := "planner_non_deterministic_order";
                   message := str_bytes "dependency graph order is unverifiable; planner switched to fail-open";
                   i_risk := Critical;
                   diagnostics := [str_bytes "packages=" ++ show_u64 (Z.of_nat (length (packages g)));
                                   str_bytes "edges=" ++ show_u64 (Z.of_nat (length (edges g)))] |}] |}.

Definition plan_dependency_closure_from_graph_and_materialization (g : CargoPathDependencyGraph)
    (m : option CargoPathMaterializationClosure) : option DependencyClosurePlan :=
  match dependency_first_topological_order (packages g) (edges g) with
  | None => None
  | Some None => Some (unordered_plan g)
  | Some (Some order) =>
      let active := active_action g <$> order in
      let active_roots := package_root <$> packages g in
      let only := match m with
                  | Some m => materialization_action m
                              <$> filter (fun p => package_root p ∉ active_roots) (packages m)
                  | None => []
                  end in
      let sync := number (only ++ active) in
      Some {| state := Ready; plan_entry_manifest_path := entry_manifest_path g;
              plan_workspace_root := workspace_root g;
              canonical_roots := a_package_root <$> sync; sync_order := sync; fail_open := false;
              fail_open_reason := None; issues := [] |}
  end.

Definition plan_dependency_closure_from_graph (g : CargoPathDependencyGraph) : option DependencyClosurePlan :=
  plan_dependency_closure_from_graph_and_materialization g None.

(** ** Failing open *)

Section build.
(** [{:?}] of a list of paths, and the resolvers with their topology policy. *)
Context (debug_paths : list path -> str).
Context (resolve_graph : path -> result CargoPathDependencyError CargoPathDependencyGraph).
Context (resolve_materialization : path -> result CargoPathDependencyError CargoPathMaterializationClosure).

Definition issue_class (k : CargoPathDependencyErrorKind) : string * DependencyRiskClass :=
  match k with
  | ManifestParseFailure => ("manifest-parse-failure", Critical)
  | MetadataParseFailure => ("metadata-parse-failure", Critical)
  | MetadataInvocationFailure => ("metadata-invocation-failure", Critical)
  | CyclicDependency => ("cyclic-path-dependency", Critical)
  | PathPolicyViolation => ("path-policy-violation", High)
  | MissingPathDependency => ("missing-path-dependency", High)
  end%string.

Definition kind_and_detail (e : CargoPathDependencyError) : str :=
  str_bytes (kind_str (kind e)) ++ str_bytes ": " ++ detail e.

Definition issue_from_resolver_error (e : CargoPathDependencyError) : DependencyPlanIssue :=
  {| code := fst (issue_class (kind e)); message := kind_and_detail e; i_risk := snd (issue_class (kind e));
     diagnostics := err_diagnostics e
       ++ match err_dependency_name e with Some n => [str_bytes "dependency_name=" ++ n] | None => [] end
       ++ match err_dependency_path e with Some p => [str_bytes "dependency_path=" ++ display p] | None => [] end
       ++ match cycle e with [] => [] | c => [str_bytes "cycle=" ++ debug_paths c] end |}.

Definition fail_open_plan_from_resolver_error (entrypoint : path) (e : CargoPathDependencyError) :
    DependencyClosurePlan :=
  {| state := FailOpen; plan_entry_manifest_path := default entrypoint (err_manifest_path e);
     plan_workspace_root := None; canonical_roots := []; sync_order := []; fail_open := true;
     fail_open_reason := Some (str_bytes "resolver produced " ++ kind_and_detail e);
     issues := [issue_from_resolver_error e] |}.

Definition unavailable_issue (materialization_entrypoint : path) (e : CargoPathDependencyError) : DependencyPlanIssue :=
  {| code := "materialization-closure-unavailable";
     message := str_bytes "Cargo path materialization closure is unavailable: " ++ kind_and_detail e;
     i_risk := Critical;
     diagnostics := [str_bytes "materialization_entrypoint=" ++ display materialization_entrypoint;
                     str_bytes "source_error_kind=" ++ str_bytes (kind_str (kind e))] |}.

Definition build_dependency_closure_plan_with_policy (entrypoint : path) : option DependencyClosurePlan :=
  match resolve_graph entrypoint with
  | Err e => Some (fail_open_plan_from_resolver_error entrypoint e)
  | Ok g =>
      let materialization_entrypoint := default entrypoint (workspace_root g) in
      match resolve_materialization materialization_entrypoint with
      | Err e =>
          let plan := fail_open_plan_from_resolver_error entrypoint e in
          Some {| state := state plan; plan_entry_manifest_path := plan_entry_manifest_path plan;
                  plan_workspace_root := plan_workspace_root plan; canonical_roots := canonical_roots plan;
                  sync_order := sync_order plan; fail_open := fail_open plan;
                  fail_open_reason := Some (str_bytes "materialization closure produced " ++ kind_and_detail e);
                  issues := unavailable_issue materialization_entrypoint e :: issues plan |}
      | Ok m => plan_dependency_closure_from_graph_and_materialization g (Some m)
      end
  end.

End build.
End Planner.
