(* ===== verification/Planning.v ===== *)
(** * What the closure planner computes

    The traversal of Closure.v ends, refuses exactly the graphs with a reachable cycle and
    otherwise keeps what is reachable; the order it is then given exists exactly when no two
    dependencies of a package lead to the same place, and lists every package once, after all
    it depends on. *)

From stdpp Require Import base gmap list strings relations.
From Stdlib Require Import ZArith Lia.
From S2P Require Import Prelude Bytes Text Numerals Pack Closure.
Import Paths CargoGraph Planner.

Module PlanFacts.

(** ** Orders and chains *)

Section order.
Context {A : Type} (R : A -> A -> Prop).

(** Everything an element depends on comes before it. *)
Definition dependency_first (l : list A) : Prop :=
  forall l1 x l2 y, l = l1 ++ x :: l2 -> R x y -> y ∈ l1.

Lemma dependency_first_nil : dependency_first [].
Proof. intros [|? ?] x l2 y E; by inversion E. Qed.

Lemma dependency_first_snoc l x :
  dependency_first l -> (forall y, R x y -> y ∈ l) -> dependency_first (l ++ [x]).
Proof.
  intros Hl Hx l1 z l2 y E Hz. destruct l2 as [|w l2 _] using rev_ind.
  - apply app_inj_tail in E as [-> ->]. by apply Hx.
  - rewrite app_comm_cons, app_assoc in E. apply app_inj_tail in E as [E _]. by apply (Hl l1 z l2 y).
Qed.

Lemma dependency_first_targets l x y : dependency_first l -> x ∈ l -> R x y -> y ∈ l.
Proof.
  intros Hl Hx Hxy. apply list_elem_of_split in Hx as (l1 & l2 & ->). apply elem_of_app. left. by eapply Hl.
Qed.

Fixpoint linked (l : list A) : Prop :=
  match l with
  | x :: (y :: _) as l' => R x y /\ linked l'
  | _ => True
  end.

Lemma linked_app l1 l2 : linked (l1 ++ l2) -> linked l2.
Proof.
  induction l1 as [|x l1 IH]; [done|]. intros Hl. apply IH. cbn in Hl. destruct (l1 ++ l2); [done|]. by destruct Hl.
Qed.

Lemma linked_snoc l x : linked l -> (forall y, last l = Some y -> R y x) -> linked (l ++ [x]).
Proof.
  induction l as [|y l IH]; [done|]. intros Hl Hx. destruct l as [|z l]; cbn.
  - split; [by apply Hx|done].
  - destruct Hl as [Hyz Hl]. split; [done|]. by apply IH.
Qed.

Lemma linked_reaches l x y : linked (x :: l ++ [y]) -> tc R x y.
Proof.
  revert x. induction l as [|z l IH]; intros x; cbn.
  - intros [Hxy _]. by apply tc_once.
  - intros [Hxz Hl]. eapply tc_l; [done|]. by apply IH.
Qed.

Lemma split_unique (a b c d : list A) x : NoDup (a ++ x :: b) -> a ++ x :: b = c ++ x :: d -> a = c.
Proof.
  revert c. induction a as [|w a IH]; intros [|w' c] Hnd E; [done| | |]; cbn in *.
  - injection E as -> E. apply NoDup_cons in Hnd as [Hni _]. destruct Hni. rewrite E.
    apply elem_of_app. right. by left.
  - injection E as -> E. apply NoDup_cons in Hnd as [Hni _]. destruct Hni. apply elem_of_app. right. by left.
  - injection E as <- E. apply NoDup_cons in Hnd as [_ Hnd]. f_equal. by apply IH.
Qed.

(** In such an order no element depends on itself. *)
Lemma first_acyclic l x y :
  dependency_first l -> NoDup l -> x ∈ l -> tc R x y ->
  exists l1 l2, l = l1 ++ x :: l2 /\ y ∈ l1.
Proof.
  intros Hl Hnd Hx Hxy. induction Hxy as [x y Hxy|x z y Hxz Hzy IH].
  - apply list_elem_of_split in Hx as (l1 & l2 & ->). exists l1, l2. split; [done|]. by eapply Hl.
  - apply list_elem_of_split in Hx as (l1 & l2 & ->). exists l1, l2. split; [done|].
    assert (Hz : z ∈ l1) by by eapply Hl.
    destruct IH as (k1 & k2 & E & Hy); [apply elem_of_app; by left|].
    apply list_elem_of_split in Hz as (m1 & m2 & ->).
    rewrite <- app_assoc in E. cbn in E.
    rewrite <- app_assoc in Hnd. rewrite (split_unique _ _ _ _ _ Hnd E).
    apply elem_of_app. by left.
Qed.

Lemma first_no_cycle l x : dependency_first l -> NoDup l -> x ∈ l -> ~ tc R x x.
Proof.
  intros Hl Hnd Hx Hxx. destruct (first_acyclic l x x Hl Hnd Hx Hxx) as (l1 & l2 & -> & Hin).
  apply NoDup_app in Hnd as (_ & Hni & _). apply (Hni x Hin). by left.
Qed.

End order.

(** ** The traversal *)

Section traversal.
Context (adj : gmap path (gset EdgeTail)).
(** The nodes the graph mentions, and where the traversal starts. *)
Context (U : gset path) (from_roots : path -> Prop).

Definition leads (x y : path) : Prop := exists name, (y, name) ∈ default ∅ (adj !! x).

Context (U_closed : forall x y, leads x y -> y ∈ U).
Context (roots_closed : forall x y, from_roots x -> leads x y -> from_roots y).

(** The state of a traversal that has finished the nodes of [done], in this order. *)
Record visiting (done : list path) (v : visit) : Prop := {
  v_visited : forall n, states v !! n = Some Visited <-> n ∈ done;
  v_visiting : forall n, states v !! n = Some Visiting <-> n ∈ stack v;
  v_done : NoDup done;
  v_stack : NoDup (stack v);
  v_nodes : forall n, n ∈ reachable_nodes v <-> n ∈ done \/ n ∈ stack v;
  v_universe : reachable_nodes v ⊆ U;
  v_rooted : forall n, n ∈ reachable_nodes v -> from_roots n;
  v_linked : linked leads (stack v);
  v_first : dependency_first leads done;
  v_edges : forall x y name, (x, y, name) ∈ reachable_edges v ->
    (y, name) ∈ default ∅ (adj !! x) /\ x ∈ reachable_nodes v;
  v_all_edges : forall x y name, x ∈ done -> (y, name) ∈ default ∅ (adj !! x) ->
    (x, y, name) ∈ reachable_edges v;
}.

(** A cycle as the error reports it. *)
Definition real_cycle (c : list path) : Prop :=
  exists x mid, c = x :: mid ++ [x] /\ linked leads c /\ from_roots x.

Definition reports_cycle (e : CargoPathDependencyError) : Prop :=
  kind e = CyclicDependency /\ real_cycle (cycle e).

Lemma from_position_spec t l : t ∈ l -> exists l1 l2, l = l1 ++ t :: l2 /\ from_position t l = Some (t :: l2).
Proof.
  induction l as [|n l IH]; [by intros ?%elem_of_nil|]. intros Hin. cbn.
  destruct (decide (n = t)) as [->|Hne].
  - rewrite bool_decide_eq_true_2 by done. by exists [], l.
  - rewrite bool_decide_eq_false_2 by done. apply elem_of_cons in Hin as [->|Hin]; [done|].
    destruct (IH Hin) as (l1 & l2 & -> & ->). by exists (n :: l1), l2.
Qed.

Lemma stack_cycle done v t d :
  visiting done v -> t ∈ stack v -> (forall x, last (stack v) = Some x -> leads x t) ->
  reports_cycle (cyclic_at v t d).
Proof.
  intros Hv Ht Hlast. split; [done|]. cbn. unfold cycle_from_stack.
  destruct (from_position_spec t (stack v) Ht) as (l1 & l2 & Hs & ->).
  exists t, l2. split; [done|]. split.
  - pose proof (v_linked _ _ Hv) as Hl. rewrite Hs in Hl, Hlast. apply linked_app in Hl.
    apply (linked_snoc leads (t :: l2)); [done|]. intros y Hy. apply Hlast. by rewrite last_app, Hy.
  - apply (v_rooted _ _ Hv), (v_nodes _ _ Hv). by right.
Qed.

(** What a call leaves: more nodes done, the same stack. *)
Definition finished (done : list path) (v : visit) (done' : list path) (v' : visit) : Prop :=
  visiting done' v' /\ stack v' = stack v /\ (exists more, done' = done ++ more) /\
  reachable_nodes v ⊆ reachable_nodes v' /\ reachable_edges v ⊆ reachable_edges v'.

Definition outcome (P : visit -> Prop) (r : option (result CargoPathDependencyError visit)) : Prop :=
  match r with
  | Some (Ok v') => P v'
  | Some (Err e) => reports_cycle e
  | None => False
  end.

Lemma finished_trans d1 v1 d2 v2 d3 v3 :
  finished d1 v1 d2 v2 -> finished d2 v2 d3 v3 -> finished d1 v1 d3 v3.
Proof.
  intros (_ & Hs1 & [m1 ->] & Hn1 & He1) (Hv3 & Hs2 & [m2 ->] & Hn2 & He2).
  split; [done|]. split; [congruence|]. split; [exists (m1 ++ m2); by rewrite app_assoc|].
  split; by etrans.
Qed.

Lemma visiting_edge done v node t name :
  visiting done v -> node ∈ stack v -> (t, name) ∈ default ∅ (adj !! node) ->
  visiting done (add_reachable_edge (node, t, name) v).
Proof.
  intros [] Hn Ht. constructor; cbn; try done.
  - intros x y nm [Hin|[= -> -> ->]%elem_of_singleton]%elem_of_union; [by auto|].
    split; [done|]. apply v_nodes0. by right.
  - intros x y nm Hx Hy. apply elem_of_union. left. by apply v_all_edges0.
Qed.

Lemma enter_visiting done v node :
  visiting done v -> states v !! node = None -> node ∈ U -> from_roots node ->
  (forall x, last (stack v) = Some x -> leads x node) -> visiting done (enter node v).
Proof.
  intros Hv Hst HU Hr Hlast.
  assert (Hnd : node ∉ done) by (intros Hd; apply (v_visited _ _ Hv) in Hd; congruence).
  assert (Hns : node ∉ stack v) by (intros Hs; apply (v_visiting _ _ Hv) in Hs; congruence).
  destruct Hv. constructor; cbn; try done.
  - intros n. destruct (decide (node = n)) as [<-|Hne]; [|by rewrite lookup_insert_ne].
    rewrite lookup_insert_eq. by split.
  - intros n. rewrite elem_of_app, list_elem_of_singleton.
    destruct (decide (node = n)) as [<-|Hne]; [rewrite lookup_insert_eq; naive_solver|].
    rewrite lookup_insert_ne by done. rewrite v_visiting0. naive_solver.
  - apply NoDup_app. split; [done|]. split; [|apply NoDup_singleton].
    by intros n Hn ->%list_elem_of_singleton.
  - intros n. rewrite elem_of_union, elem_of_singleton, elem_of_app, list_elem_of_singleton, v_nodes0. naive_solver.
  - intros n [?|<-%elem_of_singleton]%elem_of_union; [by apply v_universe0|done].
  - intros n [?| ->%elem_of_singleton]%elem_of_union; [by apply v_rooted0|done].
  - by apply linked_snoc.
  - intros x y nm Hin. destruct (v_edges0 x y nm Hin) as [? ?]. split; [done|]. apply elem_of_union. by left.
Qed.

Lemma leave_visiting done v node s :
  visiting done v -> stack v = s ++ [node] ->
  (forall y name, (y, name) ∈ default ∅ (adj !! node) -> y ∈ done /\ (node, y, name) ∈ reachable_edges v) ->
  visiting (done ++ [node]) (leave node v).
Proof.
  intros Hv Hs Hall.
  assert (Hns : node ∈ stack v) by (rewrite Hs; apply elem_of_app; right; by left).
  assert (Hnd : node ∉ done).
  { intros Hd. apply (v_visited _ _ Hv) in Hd. apply (v_visiting _ _ Hv) in Hns. congruence. }
  destruct Hv. rewrite Hs in v_stack0. apply NoDup_app in v_stack0 as (Hnds & Hni & _).
  assert (Hnis : node ∉ s) by (intros Hin; apply (Hni node Hin); by left).
  constructor; cbn; rewrite ?Hs, ?removelast_last; try done.
  - intros n. rewrite elem_of_app, list_elem_of_singleton.
    destruct (decide (node = n)) as [<-|Hne]; [rewrite lookup_insert_eq; naive_solver|].
    rewrite lookup_insert_ne by done. rewrite v_visited0. naive_solver.
  - intros n. destruct (decide (node = n)) as [<-|Hne]; [rewrite lookup_insert_eq; naive_solver|].
    rewrite lookup_insert_ne by done. rewrite v_visiting0, Hs, elem_of_app, list_elem_of_singleton. naive_solver.
  - apply NoDup_app. split; [done|]. split; [|apply NoDup_singleton]. by intros n Hn ->%list_elem_of_singleton.
  - intros n. rewrite v_nodes0, Hs, !elem_of_app, !list_elem_of_singleton. naive_solver.
  - rewrite Hs in v_linked0. clear -v_linked0. induction s as [|x s IH]; [done|].
    destruct s as [|y s]; [done|]. destruct v_linked0 as [? ?]. split; [done|]. by apply IH.
  - apply dependency_first_snoc; [done|]. intros y [nm Hy]. by apply (Hall y nm).
  - intros x y nm [Hx| ->%list_elem_of_singleton]%elem_of_app Hy; [by apply v_all_edges0|]. by apply Hall.
Qed.

Definition budget (fuel : nat) (v : visit) : Prop := (size (U ∖ reachable_nodes v) < fuel)%nat.

Lemma budget_mono fuel v v' : reachable_nodes v ⊆ reachable_nodes v' -> budget fuel v -> budget fuel v'.
Proof.
  intros Hsub Hb. unfold budget in *. eapply Nat.le_lt_trans; [|exact Hb].
  apply subseteq_size. set_solver.
Qed.

Definition visits (node : path) (done : list path) (v : visit) : visit -> Prop := fun v' =>
  exists done', finished done v done' v' /\ node ∈ done'.

Lemma edges_spec fuel descend node :
  (forall t done v, visiting done v -> t ∈ U -> from_roots t ->
     (forall x, last (stack v) = Some x -> leads x t) -> budget fuel v ->
     outcome (visits t done v) (descend t v)) ->
  forall tails done v, visiting done v -> last (stack v) = Some node -> from_roots node ->
    (forall t name, (t, name) ∈ tails -> (t, name) ∈ default ∅ (adj !! node)) -> budget fuel v ->
    outcome (fun v' => exists done', finished done v done' v' /\
               forall t name, (t, name) ∈ tails -> t ∈ done' /\ (node, t, name) ∈ reachable_edges v')
      (traverse_edges descend node tails v).
Proof.
  intros Hdesc tails. induction tails as [|[t nm] tails IH]; intros done v Hv Hlast Hr Htails Hb; cbn [traverse_edges].
  { exists done. split; [|by intros ?? ?%elem_of_nil].
    split; [done|]. split; [done|]. split; [exists []; by rewrite app_nil_r|done]. }
  assert (Hns : node ∈ stack v) by by apply last_Some_elem_of.
  assert (Ht : (t, nm) ∈ default ∅ (adj !! node)) by (apply Htails; by left).
  set (v1 := add_reachable_edge (node, t, nm) v).
  assert (Hv1 : visiting done v1) by by apply visiting_edge.
  assert (Hl1 : forall x, last (stack v1) = Some x -> leads x t).
  { intros x Hx. cbn in Hx. rewrite Hlast in Hx. injection Hx as <-. by exists nm. }
  assert (Htl : leads node t) by by exists nm.
  destruct (bool_decide (states v1 !! t = Some Visiting)) eqn:Hst.
  { apply bool_decide_eq_true in Hst. apply (stack_cycle done v1); [done| |done]. by apply (v_visiting _ _ Hv1). }
  specialize (Hdesc t done v1 Hv1 (U_closed _ _ Htl) (roots_closed _ _ Hr Htl) Hl1 Hb).
  destruct (descend t v1) as [[v2|e]|]; [|done|done].
  destruct Hdesc as (d2 & Hf2 & Htd). pose proof Hf2 as (Hv2 & Hs2 & _ & Hn2 & He2).
  assert (Hlast2 : last (stack v2) = Some node) by (rewrite Hs2; exact Hlast).
  specialize (IH d2 v2 Hv2 Hlast2 Hr (fun t' nm' Hin => Htails t' nm' (list_elem_of_further _ _ _ Hin))
                (budget_mono _ v _ Hn2 Hb)).
  destruct (traverse_edges descend node tails v2) as [[v3|e]|]; [|done|done].
  destruct IH as (d3 & Hf3 & Hall). exists d3.
  assert (Hf1 : finished done v done v1).
  { split; [done|]. split; [done|]. split; [exists []; by rewrite app_nil_r|]. split; [done|]. cbn. set_solver. }
  split; [eapply finished_trans; [exact Hf1|]; by eapply finished_trans|].
  destruct Hf3 as (Hv3 & _ & [more ->] & _ & He3).
  intros t' nm' [[= -> ->]|Hin]%elem_of_cons; [|by apply Hall].
  split; [apply elem_of_app; by left|]. apply He3, He2. cbn. set_solver.
Qed.

Lemma traverse_spec fuel node done v :
  visiting done v -> node ∈ U -> from_roots node ->
  (forall x, last (stack v) = Some x -> leads x node) -> budget fuel v ->
  outcome (visits node done v) (traverse_for_reachable fuel adj node v).
Proof.
  revert node done v. induction fuel as [|fuel IH]; intros node done v Hv HU Hr Hlast Hb.
  { unfold budget in Hb. lia. }
  cbn [traverse_for_reachable]. destruct (states v !! node) as [[]|] eqn:Hst.
  - apply (stack_cycle done v); [done| |done]. by apply (v_visiting _ _ Hv).
  - exists done. split; [|by apply (v_visited _ _ Hv)].
    split; [done|]. split; [done|]. split; [exists []; by rewrite app_nil_r|done].
  - pose proof (enter_visiting done v node Hv Hst HU Hr Hlast) as Hv1.
    assert (Hnr : node ∉ reachable_nodes v).
    { intros [Hd|Hs]%(v_nodes _ _ Hv); [apply (v_visited _ _ Hv) in Hd|apply (v_visiting _ _ Hv) in Hs]; congruence. }
    assert (Hb1 : budget fuel (enter node v)).
    { unfold budget in *. cbn. assert (Hlt : (size (U ∖ (reachable_nodes v ∪ {[node]})) < size (U ∖ reachable_nodes v))%nat).
      { apply subset_size. split; [set_solver|]. intros Hsub. assert (node ∈ U ∖ reachable_nodes v) by set_solver.
        set_solver. }
      lia. }
    set (tails := sort_by tail_leb _).
    assert (Htails : forall t nm, (t, nm) ∈ tails <-> (t, nm) ∈ default ∅ (adj !! node)).
    { intros t nm. unfold tails. by rewrite sort_by_perm, elem_of_elements. }
    pose proof (edges_spec fuel (traverse_for_reachable fuel adj) node IH tails done (enter node v) Hv1) as He.
    specialize (He ltac:(cbn; by rewrite last_snoc) Hr (fun t nm => proj1 (Htails t nm)) Hb1).
    destruct (traverse_edges _ node tails (enter node v)) as [[v2|e]|]; [|done|done].
    destruct He as (d2 & (Hv2 & Hs2 & [more ->] & Hn2 & He2) & Hall).
    exists ((done ++ more) ++ [node]). cbn in Hs2. split; [|apply elem_of_app; right; by left].
    split; [by eapply leave_visiting; [| |intros y nm Hy; apply Hall, Htails]|].
    split; [cbn; by rewrite Hs2, removelast_last|].
    split; [exists (more ++ [node]); by rewrite app_assoc|]. split; [|done].
    cbn in Hn2 |- *. set_solver.
Qed.

Lemma roots_spec fuel rs done v :
  visiting done v -> stack v = [] -> (forall r, r ∈ rs -> r ∈ U /\ from_roots r) -> budget fuel v ->
  outcome (fun v' => exists done', finished done v done' v' /\ forall r, r ∈ rs -> r ∈ done')
    (traverse_roots fuel adj rs v).
Proof.
  revert done v. induction rs as [|r rs IH]; intros done v Hv Hs Hrs Hb; cbn [traverse_roots].
  { exists done. split; [|by intros ? ?%elem_of_nil].
    split; [done|]. split; [done|]. split; [exists []; by rewrite app_nil_r|done]. }
  destruct (Hrs r) as [HU Hr]; [by left|].
  pose proof (traverse_spec fuel r done v Hv HU Hr ltac:(by rewrite Hs) Hb) as Ht.
  destruct (traverse_for_reachable fuel adj r v) as [[v1|e]|]; [|done|done].
  destruct Ht as (d1 & Hf1 & Hin). pose proof Hf1 as (Hv1 & Hs1 & _ & Hn1 & _). rewrite Hs in Hs1.
  specialize (IH d1 v1 Hv1 Hs1 (fun r' Hr' => Hrs r' (list_elem_of_further _ _ _ Hr')) (budget_mono _ _ _ Hn1 Hb)).
  destruct (traverse_roots fuel adj rs v1) as [[v2|e]|]; [|done|done].
  destruct IH as (d2 & Hf2 & Hall). exists d2. split; [by eapply finished_trans|].
  destruct Hf2 as (_ & _ & [more ->] & _). intros r' [->|Hr']%elem_of_cons; [|by apply Hall].
  apply elem_of_app. by left.
Qed.

End traversal.
(** ** The graph *)

Section finalize.
Context (g : PartialGraph).

Abbreviation dep := (leads (adjacency g)).

(** What the roots depend on, directly or not, themselves included. *)
Definition reachable (n : path) : Prop := exists r, r ∈ roots g /\ rtc dep r n.

Lemma nodes_closed x y : dep x y -> y ∈ all_nodes g.
Proof.
  intros [nm Hin]. unfold all_nodes. apply elem_of_union. right. apply elem_of_list_to_set.
  destruct (adjacency g !! x) as [s|] eqn:Hs; [|by apply not_elem_of_empty in Hin]. cbn in Hin.
  apply list_elem_of_fmap. exists (y, nm). split; [done|]. apply list_elem_of_In, in_concat.
  exists (elements s). split; [|by apply list_elem_of_In, elem_of_elements].
  apply list_elem_of_In, list_elem_of_fmap. exists s. split; [done|]. apply list_elem_of_fmap.
  exists (x, s). split; [done|]. by apply elem_of_map_to_list.
Qed.

Lemma reachable_closed x y : reachable x -> dep x y -> reachable y.
Proof. intros (r & Hr & Hx) Hxy. exists r. split; [done|]. by eapply rtc_r. Qed.

Lemma start_visiting : visiting (adjacency g) (all_nodes g) reachable [] visit_start.
Proof.
  constructor; cbn; try (intros n; rewrite ?lookup_empty; set_solver); try set_solver; try constructor; try done.
  all: apply dependency_first_nil.
Qed.

Lemma elem_iter_paths s n : n ∈ iter_paths s <-> n ∈ s.
Proof. unfold iter_paths. by rewrite sort_by_perm, elem_of_elements. Qed.

Lemma iter_paths_nodup s : NoDup (iter_paths s).
Proof. unfold iter_paths. rewrite sort_by_perm. apply NoDup_elements. Qed.

Lemma start_roots r : r ∈ iter_paths (roots g) -> r ∈ all_nodes g /\ reachable r.
Proof. intros Hr%elem_iter_paths. split; [unfold all_nodes; set_solver|]. by exists r. Qed.

Lemma start_budget : budget (all_nodes g) (S (size (all_nodes g))) visit_start.
Proof.
  unfold budget. assert ((size (all_nodes g ∖ reachable_nodes visit_start) <= size (all_nodes g))%nat)
    by (apply subseteq_size; set_solver). lia.
Qed.

Lemma package_at_root n : package_root (package_at g n) = n.
Proof. unfold package_at. by destruct (p_packages g !! n). Qed.

Lemma package_roots (l : list path) : package_root <$> (package_at g <$> l) = l.
Proof. rewrite <- list_fmap_compose. rewrite <- (list_fmap_id l) at 2. apply list_fmap_ext. intros i x _. apply package_at_root. Qed.

(** What a graph that was accepted holds. *)
Definition accepted (G : CargoPathDependencyGraph) : Prop :=
  NoDup (package_root <$> packages G) /\
  (forall n, n ∈ package_root <$> packages G <-> reachable n) /\
  (forall e, e ∈ edges G <-> reachable (from e) /\ (to e, dependency_name e) ∈ default ∅ (adjacency g !! from e)) /\
  NoDup (edges G) /\
  exists order, NoDup order /\ (forall n, n ∈ order <-> reachable n) /\ dependency_first dep order.

Lemma finalize_result entry :
  match finalize_graph entry g with
  | None => False
  | Some (Err e) => reports_cycle (adjacency g) reachable e
  | Some (Ok G) => entry_manifest_path G = entry /\ accepted G
  end.
Proof.
  unfold finalize_graph.
  pose proof (roots_spec (adjacency g) (all_nodes g) reachable nodes_closed reachable_closed
    (S (size (all_nodes g))) (iter_paths (roots g)) [] visit_start start_visiting eq_refl) as Hr.
  specialize (Hr start_roots start_budget).
  destruct (traverse_roots _ _ _ _) as [[v|e]|]; [|exact Hr|exact Hr].
  destruct Hr as (done & (Hv & Hs & _ & _ & _) & Hall). split; [done|]. cbn in Hs.
  assert (Hdone : forall n, n ∈ done <-> n ∈ reachable_nodes v).
  { intros n. rewrite (v_nodes _ _ _ _ _ Hv), Hs. set_solver. }
  assert (Hreach : forall n, n ∈ done <-> reachable n).
  { intros n. split; [intros Hn; by apply (v_rooted _ _ _ _ _ Hv), Hdone|].
    intros (r & Hr & Hrn). apply elem_iter_paths, Hall in Hr. induction Hrn as [|x y z Hxy _ IH]; [done|].
    apply IH. apply list_elem_of_split in Hr as (l1 & l2 & E).
    rewrite E. apply elem_of_app. left. by apply (v_first _ _ _ _ _ Hv l1 x l2 y). }
  unfold accepted. cbn [packages edges]. rewrite package_roots. split; [apply iter_paths_nodup|].
  split; [intros n; by rewrite elem_iter_paths, <- Hdone|].
  split; [|split; [|by exists done; split; [apply (v_done _ _ _ _ _ Hv)|split; [|apply (v_first _ _ _ _ _ Hv)]]]].
  - intros [f t nm]. rewrite list_elem_of_fmap. cbn [from to dependency_name]. split.
    + intros ([[f' t'] nm'] & [= -> -> ->] & Hin). rewrite sort_by_perm, elem_of_elements in Hin.
       destruct (v_edges _ _ _ _ _ Hv _ _ _ Hin) as [Hadj Hn]. split; [by apply Hreach, Hdone|done].
    + intros [Hf Hadj]. exists (f, t, nm). split; [done|]. rewrite sort_by_perm, elem_of_elements.
       apply (v_all_edges _ _ _ _ _ Hv); [by apply Hreach|done].
  - apply NoDup_fmap; [|rewrite sort_by_perm; apply NoDup_elements].
    intros [[f t] nm] [[f' t'] nm'] E. by injection E as -> -> ->.
Qed.

End finalize.
(** ** The order *)

Lemma size_list_to_set_le {A} `{Countable A} (l : list A) : (size (list_to_set (C := gset A) l) <= length l)%nat.
Proof.
  induction l as [|x l IH]; [cbn [list_to_set]; rewrite size_empty; cbn; lia|]. cbn [list_to_set].
  pose proof (size_union_alt {[x]} (list_to_set l : gset A)) as Hu. rewrite Hu, size_singleton. cbn [length].
  assert (size (list_to_set l ∖ {[x]} : gset A) <= size (list_to_set l : gset A))%nat
    by (apply subseteq_size; set_solver). lia.
Qed.

Lemma size_list_to_set_nodup {A} `{Countable A} (l : list A) :
  size (list_to_set (C := gset A) l) = length l -> NoDup l.
Proof.
  induction l as [|x l IH]; [by constructor|]. cbn [list_to_set length]. intros Hs.
  destruct (decide (x ∈ l)) as [Hin|Hni].
  - rewrite (subseteq_union_1_L {[x]}) in Hs by set_solver.
    pose proof (size_list_to_set_le l). lia.
  - rewrite size_union, size_singleton in Hs by set_solver. constructor; [done|]. apply IH. lia.
Qed.

Section kahn.
Context (ps : list CargoPathDependencyPackage) (es : list CargoPathDependencyEdge).

Abbreviation N := (graph_nodes ps es).

Definition edges_from (x : path) : list CargoPathDependencyEdge := filter (fun e => from e = x) es.
Definition targets (x : path) : gset path := list_to_set (to <$> edges_from x).
Definition depends (x y : path) : Prop := y ∈ targets x.
Definition degree (x : path) : Z := Z.of_nat (length (edges_from x)).

(** How many of its targets are among [o]. *)
Definition met (x : path) (o : list path) : Z := Z.of_nat (size (targets x ∩ list_to_set o)).

Lemma depends_edge x y : depends x y <-> exists e, e ∈ es /\ from e = x /\ to e = y.
Proof.
  unfold depends, targets, edges_from. rewrite elem_of_list_to_set, list_elem_of_fmap. split.
  - intros (e & -> & [He Hin]%list_elem_of_filter). by exists e.
  - intros (e & Hin & He & <-). exists e. split; [done|]. by apply list_elem_of_filter.
Qed.

Lemma depends_nodes x y : depends x y -> x ∈ N /\ y ∈ N.
Proof.
  intros (e & Hin & <- & <-)%depends_edge. unfold graph_nodes. rewrite !elem_of_union, !elem_of_list_to_set.
  split; [left; right|right]; apply list_elem_of_fmap; by exists e.
Qed.

Lemma targets_degree x : Z.of_nat (size (targets x)) <= degree x.
Proof.
  unfold targets, degree. pose proof (size_list_to_set_le (to <$> edges_from x)) as Hs.
  rewrite length_fmap in Hs. lia.
Qed.

Lemma met_targets x o : met x o <= Z.of_nat (size (targets x)).
Proof. unfold met. apply inj_le, subseteq_size. set_solver. Qed.

Lemma met_all x o : degree x = met x o -> forall y, depends x y -> y ∈ o.
Proof.
  intros Hd y Hy. pose proof (targets_degree x). unfold met in Hd.
  assert (Heq : targets x ∩ list_to_set o = targets x)
    by (apply set_subseteq_size_eq; [set_solver|lia]).
  unfold depends in Hy. rewrite <- Heq in Hy. set_solver.
Qed.

Lemma met_snoc x o n :
  n ∉ o -> met x (o ++ [n]) = met x o + (if bool_decide (n ∈ targets x) then 1 else 0).
Proof.
  intros Hn. unfold met, depends. rewrite list_to_set_app_L. cbn [list_to_set]. rewrite union_empty_r_L.
  destruct (bool_decide_reflect (n ∈ targets x)) as [Hin|Hni].
  - replace (targets x ∩ (list_to_set o ∪ {[n]})) with (targets x ∩ list_to_set o ∪ {[n]}) by set_solver.
    rewrite size_union, size_singleton by set_solver. lia.
  - replace (targets x ∩ (list_to_set o ∪ {[n]})) with (targets x ∩ list_to_set o) by set_solver. lia.
Qed.

Lemma count_edges_spec l ind deps :
  (forall e, e ∈ l -> is_Some (ind !! from e)) ->
  exists ind' deps', count_edges l ind deps = Some (ind', deps') /\
    (forall n, ind' !! n = (fun k => k + Z.of_nat (length (filter (fun e => from e = n) l))) <$> ind !! n) /\
    (forall t x, x ∈ default ∅ (deps' !! t) <->
       x ∈ default ∅ (deps !! t) \/ exists e, e ∈ l /\ from e = x /\ to e = t).
Proof.
  revert ind deps. induction l as [|e l IH]; intros ind deps Hl; cbn [count_edges].
  { exists ind, deps. split; [done|]. split; [|set_solver]. intros n. cbn. destruct (ind !! n); [|done].
    cbn. f_equal. lia. }
  destruct (Hl e) as [k Hk]; [by left|]. rewrite Hk.
  destruct (IH (<[from e := k + 1]> ind) (insert_at (to e) (from e) deps)) as (ind' & deps' & -> & Hi & Hd).
  { intros e' He'. destruct (decide (from e = from e')) as [Heq|Hne]; [rewrite <- Heq; by rewrite lookup_insert_eq|].
    rewrite lookup_insert_ne by done. apply Hl. by right. }
  exists ind', deps'. split; [done|]. split.
  - intros n. rewrite Hi, filter_cons. destruct (decide (from e = n)) as [<-|Hne].
    + rewrite lookup_insert_eq, Hk. cbn. f_equal. lia.
    + by rewrite lookup_insert_ne.
  - intros t x. rewrite Hd. unfold insert_at. destruct (decide (to e = t)) as [<-|Hne].
    + rewrite lookup_insert_eq. cbn. rewrite elem_of_union, elem_of_singleton. setoid_rewrite elem_of_cons.
      split; [naive_solver|]. intros [?|(e' & [->|?] & <- & Ht)]; [naive_solver..|]. right. by exists e'.
    + rewrite lookup_insert_ne by done. setoid_rewrite elem_of_cons. naive_solver.
Qed.

Lemma release_indegrees ds ind ready :
  NoDup ds -> (forall d, d ∈ ds -> exists k, ind !! d = Some k /\ 0 < k) ->
  exists ind' ready', release ds ind ready = Some (ind', ready') /\
    (forall n, ind' !! n = (fun k => k - (if bool_decide (n ∈ ds) then 1 else 0)) <$> ind !! n) /\
    (forall n, n ∈ ready' <-> n ∈ ready \/ n ∈ ds /\ ind !! n = Some 1).
Proof.
  intros Hnd. revert ind ready. induction Hnd as [|d ds Hni Hnd IH]; intros ind ready Hds; cbn [release].
  { exists ind, ready. split; [done|]. split; [|set_solver]. intros n. rewrite bool_decide_eq_false_2 by set_solver.
    destruct (ind !! n); [|done]. cbn. f_equal. lia. }
  destruct (Hds d) as (k & Hk & Hpos); [by left|]. rewrite Hk.
  destruct (Z.eqb_spec k 0) as [->|_]; [lia|].
  destruct (IH (<[d := k - 1]> ind) (if k - 1 =? 0 then ready ∪ {[d]} else ready)) as (ind' & ready' & -> & Hi & Hr).
  { intros d' Hd'. destruct (decide (d = d')) as [->|Hne]; [done|]. rewrite lookup_insert_ne by done.
    apply Hds. by right. }
  exists ind', ready'. split; [done|]. split.
  - intros n. rewrite Hi. destruct (decide (d = n)) as [<-|Hne].
    + rewrite lookup_insert_eq, Hk. cbn. rewrite bool_decide_eq_false_2, bool_decide_eq_true_2 by set_solver.
      f_equal. lia.
    + rewrite lookup_insert_ne by done. replace (bool_decide (n ∈ d :: ds)) with (bool_decide (n ∈ ds)); [done|].
      apply bool_decide_ext. rewrite elem_of_cons. naive_solver.
  - intros n. rewrite Hr. destruct (decide (d = n)) as [<-|Hne].
    + rewrite lookup_insert_eq, Hk. destruct (Z.eqb_spec (k - 1) 0) as [Hk0|Hk0].
      * assert (k = 1) as -> by lia. set_solver.
      * split; [naive_solver|]. intros [?|[_ [= ->]]]; [by left|lia].
    + rewrite lookup_insert_ne by done. rewrite elem_of_cons. destruct (k - 1 =? 0); set_solver.
Qed.

(** The loop has placed [o]. *)
Record placed (o : list path) (ind : gmap path Z) (ready : gset path) : Prop := {
  p_nodup : NoDup o;
  p_nodes : forall n, n ∈ o -> n ∈ N;
  p_counts : forall n, n ∈ N -> ind !! n = Some (degree n - met n o);
  p_ready : forall n, n ∈ ready <-> n ∈ N /\ (n ∉ o) /\ degree n = met n o;
  p_first : dependency_first depends o;
  p_single : forall n, n ∈ o -> degree n = Z.of_nat (size (targets n));
}.

Lemma pop_first_spec s :
  match pop_first s with
  | None => s = ∅
  | Some (x, s') => x ∈ s /\ s' = s ∖ {[x]}
  end.
Proof.
  unfold pop_first. destruct (iter_paths s) as [|x l] eqn:E.
  - apply set_eq. intros n. rewrite <- elem_iter_paths, E. set_solver.
  - split; [|done]. rewrite <- elem_iter_paths, E. by left.
Qed.

Lemma place_step (deps : gmap path (gset path)) o ind ready node :
  (forall t x, x ∈ default ∅ (deps !! t) <-> depends x t) ->
  placed o ind ready -> node ∈ ready ->
  exists ind' ready', release (iter_paths (default ∅ (deps !! node))) ind (ready ∖ {[node]}) = Some (ind', ready') /\
    placed (o ++ [node]) ind' ready'.
Proof.
  intros Hdeps Hp Hnode. pose proof (proj1 (p_ready _ _ _ Hp node) Hnode) as (HN & Hno & Hdeg).
  pose proof (met_all node o Hdeg) as Hall.
  assert (Hds : forall d, d ∈ iter_paths (default ∅ (deps !! node)) <-> depends d node)
    by (intros d; by rewrite elem_iter_paths).
  assert (Hgap : forall d, depends d node -> 0 < degree d - met d o).
  { intros d Hd. pose proof (targets_degree d). pose proof (met_targets d (o ++ [node])) as Hm.
    rewrite met_snoc, bool_decide_eq_true_2 in Hm by done. lia. }
  destruct (release_indegrees (iter_paths (default ∅ (deps !! node))) ind (ready ∖ {[node]}) (iter_paths_nodup _))
    as (ind' & ready' & -> & Hi & Hr).
  { intros d Hd%Hds. exists (degree d - met d o). split; [|by apply Hgap].
    apply (p_counts _ _ _ Hp). by apply (depends_nodes d node). }
  exists ind', ready'. split; [done|]. constructor.
  - apply NoDup_app. split; [apply (p_nodup _ _ _ Hp)|]. split; [|apply NoDup_singleton].
    by intros n Hn ->%list_elem_of_singleton.
  - intros n [Hn| ->%list_elem_of_singleton]%elem_of_app; [by apply (p_nodes _ _ _ Hp)|done].
  - intros n Hn. rewrite Hi, (p_counts _ _ _ Hp n Hn), met_snoc by done. cbn. f_equal.
    rewrite (bool_decide_ext _ (node ∈ targets n) (Hds n)). destruct (bool_decide _); lia.
  - intros n. rewrite Hr, elem_of_difference, not_elem_of_singleton, (p_ready _ _ _ Hp), Hds, met_snoc by done.
    rewrite not_elem_of_app, list_elem_of_singleton. split.
    + intros [[(Hn & Hno' & Hd) Hne]|[Hd Hone]].
      * split; [done|]. split; [done|]. rewrite bool_decide_eq_false_2; [lia|].
        intros Hdep. by apply (met_all n o Hd) in Hdep.
      * destruct (depends_nodes _ _ Hd) as [Hn _]. rewrite (p_counts _ _ _ Hp n Hn) in Hone. injection Hone as Hone.
        rewrite bool_decide_eq_true_2 by done. split; [done|].
        assert (n ∉ o) by (intros Hin; by apply (dependency_first_targets _ _ _ _ (p_first _ _ _ Hp) Hin) in Hd).
        split; [split; [done|]|lia]. intros ->. by apply Hall in Hd.
    + intros (Hn & [Hno' Hne] & Hd). destruct (bool_decide_reflect (node ∈ targets n)) as [Hdep|Hndep].
      * right. split; [done|]. rewrite (p_counts _ _ _ Hp n Hn). f_equal. lia.
      * left. split; [|done]. split; [done|]. split; [done|]. lia.
  - apply dependency_first_snoc; [apply (p_first _ _ _ Hp)|]. intros y Hy. by apply Hall.
  - intros n [Hn| ->%list_elem_of_singleton]%elem_of_app; [by apply (p_single _ _ _ Hp)|].
    pose proof (targets_degree node). pose proof (met_targets node o). lia.
Qed.

Lemma placed_length o ind ready : placed o ind ready -> (length o <= size N)%nat.
Proof.
  intros Hp. rewrite <- (size_list_to_set (C := gset path) o (p_nodup _ _ _ Hp)).
  apply subseteq_size. intros n Hn%elem_of_list_to_set. by apply (p_nodes _ _ _ Hp).
Qed.

Lemma place_spec (fuel : nat) (deps : gmap path (gset path)) o ind ready :
  (forall t x, x ∈ default ∅ (deps !! t) <-> depends x t) ->
  placed o ind ready -> (size N - length o < fuel)%nat ->
  exists o' ind', place fuel deps ind ready o = Some (Some o') /\ placed o' ind' ∅.
Proof.
  intros Hdeps. revert o ind ready. induction fuel as [|fuel IH]; intros o ind ready Hp Hf; [lia|].
  cbn [place]. pose proof (pop_first_spec ready) as Hpop. destruct (pop_first ready) as [[node ready']|].
  - destruct Hpop as [Hnode ->].
    destruct (place_step deps o ind ready node Hdeps Hp Hnode) as (ind' & ready' & -> & Hp').
    apply (IH _ _ _ Hp'). pose proof (placed_length _ _ _ Hp') as Hl. rewrite length_app in *. cbn in *. lia.
  - subst. by exists o, ind.
Qed.

(** No two dependencies of a package lead to the same place. *)
Definition no_parallel (l : list CargoPathDependencyEdge) : Prop := NoDup ((fun e => (from e, to e)) <$> l).

Lemma no_parallel_targets l :
  no_parallel l <-> forall n, NoDup (to <$> filter (fun e => from e = n) l).
Proof.
  unfold no_parallel. induction l as [|e l IH]; [split; constructor|].
  rewrite fmap_cons, NoDup_cons, IH, list_elem_of_fmap. split.
  - intros [Hni Hl] n. rewrite filter_cons. destruct (decide (from e = n)) as [<-|Hne]; [|done].
    rewrite fmap_cons. constructor; [|done]. intros (e' & Ht & [Hf Hin]%list_elem_of_filter)%list_elem_of_fmap.
    destruct Hni. exists e'. by rewrite Hf, Ht.
  - intros Hl. split.
    + intros (e' & [= Hf Ht] & Hin). specialize (Hl (from e)). rewrite filter_cons, decide_True in Hl by done.
      rewrite fmap_cons in Hl. apply NoDup_cons in Hl as [Hni _]. destruct Hni.
      apply list_elem_of_fmap. exists e'. split; [done|]. by apply list_elem_of_filter.
    + intros n. specialize (Hl n). rewrite filter_cons in Hl. destruct (decide (from e = n)); [|done].
      rewrite fmap_cons in Hl. by apply NoDup_cons in Hl as [_ ?].
Qed.

Lemma no_parallel_degree : no_parallel es <-> forall n, degree n = Z.of_nat (size (targets n)).
Proof.
  rewrite no_parallel_targets. unfold degree, targets. split; intros Hl n.
  - rewrite size_list_to_set, length_fmap; [done|]. apply Hl.
  - apply size_list_to_set_nodup. specialize (Hl n). rewrite length_fmap. unfold edges_from in *. lia.
Qed.

Lemma degree_outside n : n ∉ N -> degree n = 0 /\ size (targets n) = 0%nat.
Proof.
  intros Hn. assert (Hnil : edges_from n = []).
  { unfold edges_from. destruct (filter (fun e => from e = n) es) as [|e l] eqn:E; [done|]. destruct Hn.
    assert (Hin : e ∈ filter (fun e => from e = n) es) by (rewrite E; by left).
    apply list_elem_of_filter in Hin as [<- Hin]. apply (depends_nodes (from e) (to e)), depends_edge. by exists e. }
  unfold degree, targets. rewrite Hnil. split; [done|]. apply size_empty.
Qed.

Lemma first_such {A} (P : A -> Prop) `{!forall x, Decision (P x)} l :
  (exists x, x ∈ l /\ P x) -> exists l1 x l2, l = l1 ++ x :: l2 /\ P x /\ forall y, y ∈ l1 -> ~ P y.
Proof.
  induction l as [|z l IH]; [by intros (x & ?%elem_of_nil & _)|]. intros (x & Hx & HP).
  destruct (decide (P z)) as [Hz|Hz]; [exists [], z, l; set_solver|].
  destruct IH as (l1 & x' & l2 & -> & HP' & Hl1).
  { apply elem_of_cons in Hx as [->|Hx]; [done|]. by exists x. }
  exists (z :: l1), x', l2. split; [done|]. split; [done|]. intros y [->|Hy]%elem_of_cons; [done|]. by apply Hl1.
Qed.

(** A list of all the packages with each after all it depends on. *)
Definition has_order : Prop := exists l, (forall n, n ∈ N -> n ∈ l) /\ dependency_first depends l.

Lemma stuck_unordered o ind :
  placed o ind ∅ -> length o <> size N -> no_parallel es -> ~ has_order.
Proof.
  intros Hp Hlen Hnp (l & Hall & Hl). pose proof (placed_length _ _ _ Hp) as Hle.
  assert (Hmiss : exists n, n ∈ N /\ n ∉ o).
  { destruct (decide (set_Exists (fun n => n ∉ o) N)) as [(n & Hn & Hno)|Hne]; [by exists n|]. destruct Hlen.
    rewrite <- (size_list_to_set (C := gset path) o (p_nodup _ _ _ Hp)). f_equal. apply set_eq. intros n.
    rewrite elem_of_list_to_set. split; [apply (p_nodes _ _ _ Hp)|]. intros Hn.
    destruct (decide (n ∈ o)) as [|Hno]; [done|]. destruct Hne. by exists n. }
  destruct Hmiss as (n & HnN & Hno).
  destruct (first_such (fun x => x ∈ N /\ x ∉ o) l) as (l1 & x & l2 & -> & [HxN Hxo] & Hl1);
    [exists n; by split; [apply Hall|]|].
  assert (Hin : forall y, depends x y -> y ∈ o).
  { intros y Hy. assert (Hy1 : y ∈ l1) by by eapply Hl. specialize (Hl1 y Hy1).
    destruct (decide (y ∈ o)) as [|Hyo]; [done|]. destruct Hl1. split; [|done]. by apply (depends_nodes x y). }
  assert (x ∈ (∅ : gset path)); [|set_solver]. apply (p_ready _ _ _ Hp). split; [done|]. split; [done|].
  rewrite (proj1 no_parallel_degree Hnp x). unfold met. do 2 f_equal. apply set_eq. intros y.
  rewrite elem_of_intersection, elem_of_list_to_set. split; [|by intros [? _]]. intros Hy. split; [done|]. by apply Hin.
Qed.

Lemma start_placed ind :
  (forall n, ind !! n = (fun k => k + Z.of_nat (length (edges_from n))) <$> gset_to_gmap 0 N !! n) ->
  placed [] ind (ready_nodes ind).
Proof.
  intros Hi. assert (Hmet : forall n, met n [] = 0).
  { intros n. unfold met. cbn [list_to_set]. by rewrite intersection_empty_r_L, size_empty. }
  assert (HN : forall n, n ∈ N -> ind !! n = Some (degree n)).
  { intros n Hn. rewrite Hi.
    assert (gset_to_gmap 0 N !! n = Some 0) as -> by (by apply lookup_gset_to_gmap_Some). done. }
  constructor.
  - constructor.
  - by intros n ?%elem_of_nil.
  - intros n Hn. rewrite HN, Hmet by done. f_equal. lia.
  - intros n. unfold ready_nodes. rewrite elem_of_dom. unfold is_Some. setoid_rewrite map_lookup_filter_Some. cbn.
    rewrite Hmet. split.
    + intros (k & Hk & ->). destruct (decide (n ∈ N)) as [Hn|Hn].
      * rewrite HN in Hk by done. injection Hk as Hk. split; [done|]. split; [by intros ?%elem_of_nil|done].
      * rewrite Hi in Hk. assert (gset_to_gmap 0 N !! n = None) as E by (by apply lookup_gset_to_gmap_None).
        by rewrite E in Hk.
    + intros (Hn & _ & Hd). exists 0. rewrite HN by done. by rewrite Hd.
  - apply dependency_first_nil.
  - by intros n ?%elem_of_nil.
Qed.

Lemma order_result :
  exists r, dependency_first_topological_order ps es = Some r /\
    match r with
    | Some order => NoDup order /\ (forall n, n ∈ order <-> n ∈ N) /\ dependency_first depends order /\ no_parallel es
    | None => ~ (no_parallel es /\ has_order)
    end.
Proof.
  unfold dependency_first_topological_order.
  destruct (count_edges_spec es (gset_to_gmap 0 N) ∅) as (ind & deps & -> & Hi & Hd).
  { intros e He. exists 0. apply lookup_gset_to_gmap_Some. split; [|done].
    apply (depends_nodes (from e) (to e)), depends_edge. by exists e. }
  assert (Hdeps : forall t x, x ∈ default ∅ (deps !! t) <-> depends x t).
  { intros t x. rewrite Hd, lookup_empty, depends_edge. set_solver. }
  destruct (place_spec (S (size N)) deps [] ind (ready_nodes ind) Hdeps (start_placed ind Hi) ltac:(cbn; lia))
    as (o & ind' & -> & Hp).
  destruct (Nat.eqb_spec (length o) (size N)) as [Hlen|Hlen].
  - exists (Some o). split; [done|]. split; [apply (p_nodup _ _ _ Hp)|].
    assert (Hall : forall n, n ∈ o <-> n ∈ N).
    { assert (Heq : list_to_set o = N).
      { apply set_subseteq_size_eq; [intros n Hn%elem_of_list_to_set; by apply (p_nodes _ _ _ Hp)|].
        rewrite (size_list_to_set (C := gset path) o (p_nodup _ _ _ Hp)). lia. }
      intros n. rewrite <- Heq. by rewrite elem_of_list_to_set. }
    split; [done|]. split; [apply (p_first _ _ _ Hp)|]. apply no_parallel_degree. intros n.
    destruct (decide (n ∈ N)) as [Hn|Hn]; [by apply (p_single _ _ _ Hp), Hall|].
    destruct (degree_outside n Hn) as [-> ->]. done.
  - exists None. split; [done|]. intros [Hnp Ho]. by apply (stuck_unordered o ind').
Qed.

End kahn.
(** ** The plan *)

(** The resolver's traversal ends on every graph.  It refuses exactly the graphs with a
    cycle among what the roots reach, and then the cycle it reports is one, closed and
    followed edge by edge; otherwise the graph it returns holds each reachable package once
    and each of their dependencies once, and nothing else. *)
Theorem graph_refuses_cycles entry g :
  exists r, finalize_graph entry g = Some r /\
    match r with
    | Err e => kind e = CyclicDependency /\ exists x mid, cycle e = x :: mid ++ [x] /\
        linked (leads (adjacency g)) (cycle e) /\ reachable g x
    | Ok G => NoDup (package_root <$> packages G) /\ NoDup (edges G) /\
        (forall n, n ∈ package_root <$> packages G <-> reachable g n) /\
        (forall e, e ∈ edges G <->
           reachable g (from e) /\ (to e, dependency_name e) ∈ default ∅ (adjacency g !! from e)) /\
        (forall n, reachable g n -> ~ tc (leads (adjacency g)) n n)
    end.
Proof.
  pose proof (finalize_result g entry) as Hf. destruct (finalize_graph entry g) as [r|]; [|done].
  exists r. split; [done|]. destruct r as [G|e].
  - destruct Hf as (_ & Hnd & Hps & Hes & Hnde & order & Hndo & Hor & Hfirst).
    split; [done|]. split; [done|]. split; [done|]. split; [done|]. intros n Hn.
    apply (first_no_cycle _ order); [done|done|by apply Hor].
  - exact Hf.
Qed.

Section plan.
Context (g : PartialGraph) (G : CargoPathDependencyGraph) (HG : accepted g G).

Lemma edge_reachable x y : depends (edges G) x y <-> reachable g x /\ leads (adjacency g) x y.
Proof.
  destruct HG as (_ & _ & Hes & _). rewrite depends_edge. split.
  - intros (e & [Hr Hin]%Hes & <- & <-). split; [done|]. by eexists.
  - intros [Hr [nm Hin]]. exists {| from := x; to := y; dependency_name := nm |}.
    split; [by apply Hes|done].
Qed.

Lemma nodes_reachable n : n ∈ graph_nodes (packages G) (edges G) <-> reachable g n.
Proof.
  pose proof HG as (_ & Hps & _). split.
  - unfold graph_nodes. rewrite !elem_of_union, !elem_of_list_to_set.
    intros [[Hn|(e & -> & He)%list_elem_of_fmap]|(e & -> & He)%list_elem_of_fmap]; [by apply Hps| |].
    + by apply (edge_reachable (from e) (to e)), depends_edge; exists e.
    + assert (Hd : depends (edges G) (from e) (to e)) by (apply depends_edge; by exists e).
      apply edge_reachable in Hd as [Hr Hl]. by eapply reachable_closed.
  - intros Hn. unfold graph_nodes. rewrite !elem_of_union, !elem_of_list_to_set. left. left. by apply Hps.
Qed.

Lemma accepted_has_order : has_order (packages G) (edges G).
Proof.
  destruct HG as (_ & _ & _ & _ & order & _ & Hor & Hfirst). exists order. split.
  - intros n Hn%nodes_reachable. by apply Hor.
  - intros l1 x l2 y E Hd. apply edge_reachable in Hd as [_ Hl]. by eapply Hfirst.
Qed.

Lemma package_by_root_lookup (ps : list CargoPathDependencyPackage) (m : gmap path CargoPathDependencyPackage) root p :
  (forall r q, m !! r = Some q -> package_root q = r) ->
  fold_left (fun m p => <[package_root p := p]> m) ps m !! root = Some p -> package_root p = root.
Proof.
  revert m. induction ps as [|q ps IH]; intros m Hm; cbn [fold_left]; [by apply Hm|]. apply IH.
  intros r q' [[<- <-]|[_ Hq]]%lookup_insert_Some; [done|by apply Hm].
Qed.

Lemma active_root n : a_package_root (active_action G n) = n.
Proof.
  cbn. unfold package_by_root. destruct (fold_left _ (packages G) ∅ !! n) as [p|] eqn:Hp; [|done].
  by apply package_by_root_lookup in Hp.
Qed.

Lemma active_roots (l : list path) : a_package_root <$> (active_action G <$> l) = l.
Proof.
  rewrite <- list_fmap_compose. rewrite <- (list_fmap_id l) at 2. apply list_fmap_ext. intros i x _. apply active_root.
Qed.

Lemma number_roots (l : list DependencySyncAction) : a_package_root <$> number l = a_package_root <$> l.
Proof.
  unfold number. apply list_eq. intros i. rewrite !list_lookup_fmap, list_lookup_imap. by destruct (l !! i).
Qed.

Lemma number_indices (l : list DependencySyncAction) : order_index <$> number l = Z.of_nat <$> seq 0 (length l).
Proof.
  unfold number. apply list_eq. intros i. rewrite !list_lookup_fmap, list_lookup_imap.
  destruct (l !! i) as [x|] eqn:Hi; cbn.
  - rewrite lookup_seq_lt; [done|]. by eapply lookup_lt_Some.
  - rewrite lookup_seq_ge; [done|]. by apply lookup_ge_None.
Qed.

End plan.

(** C39: of a graph the resolver accepted the planner always makes a plan.  It is ready exactly
    when no two dependencies of a package lead to the same place, and then it synchronises,
    numbered from zero, first the packages that only the materialization closure names and
    then every reachable package once, each after all it depends on; otherwise it fails open
    with nothing to synchronise. *)
Theorem closure_plan_exact entry g G m :
  finalize_graph entry g = Some (Ok G) ->
  exists plan, plan_dependency_closure_from_graph_and_materialization G m = Some plan /\
    (is_ready plan = true <-> no_parallel (edges G)) /\
    (is_ready plan = false -> fail_open plan = true /\ sync_order plan = []) /\
    (is_ready plan = true ->
       order_index <$> sync_order plan = Z.of_nat <$> seq 0 (length (sync_order plan)) /\
       exists extra order, sync_roots plan = extra ++ order /\
         (forall n, n ∈ extra <-> (exists M, m = Some M /\ n ∈ package_root <$> packages M) /\ ~ reachable g n) /\
         NoDup order /\ (forall n, n ∈ order <-> reachable g n) /\
         dependency_first (leads (adjacency g)) order).
Proof.
  intros Hfin. pose proof (finalize_result g entry) as HG. rewrite Hfin in HG. destruct HG as [_ HG].
  unfold plan_dependency_closure_from_graph_and_materialization.
  destruct (order_result (packages G) (edges G)) as (r & -> & Hr). destruct r as [order|].
  - destruct Hr as (Hnd & Hall & Hfirst & Hnp). eexists. split; [done|]. cbn [is_ready state fail_open negb].
    split; [by split|]. split; [done|]. intros _. cbn [sync_order]. rewrite number_indices.
    split; [unfold number; by rewrite length_imap|].
    set (only := match m with Some _ => _ | None => _ end). exists (a_package_root <$> only), order.
    split; [unfold sync_roots; cbn [sync_order]; by rewrite number_roots, fmap_app, active_roots|].
    split; [|split; [done|split]].
    + intros n. unfold only. destruct m as [M|]; [|set_solver].
      rewrite <- list_fmap_compose, list_elem_of_fmap. setoid_rewrite list_elem_of_filter.
      pose proof HG as (_ & Hps & _). split.
      * intros (p & -> & Hni & Hin). cbn. rewrite <- Hps. split; [|done]. exists M. split; [done|].
        apply list_elem_of_fmap. by exists p.
      * intros [(M' & [= <-] & (p & -> & Hin)%list_elem_of_fmap) Hni]. exists p. split; [done|].
        rewrite Hps. by split.
    + intros n. rewrite Hall. by apply nodes_reachable.
    + intros l1 x l2 y E Hl. apply (Hfirst l1 x l2 y E). apply (edge_reachable g G HG). split; [|done].
      apply (nodes_reachable g G HG), Hall. rewrite E. apply elem_of_app. right. by left.
  - eexists. split; [done|]. split; [|by split]. split; [done|]. intros Hnp. destruct Hr.
    split; [done|]. by eapply accepted_has_order.
Qed.

(** ** Concrete graphs *)

Definition at_root (name : string) : path := [str_bytes "data"; str_bytes "projects"; str_bytes name].
Definition app : path := at_root "app".
Definition lib : path := at_root "lib".
Definition util : path := at_root "util".

Definition with_package (name : string) (g : PartialGraph) : PartialGraph :=
  add_package (at_root name) (join (at_root name) "Cargo.toml") (str_bytes name) false g.

Definition base_graph : PartialGraph :=
  with_package "util" (with_package "lib" (with_package "app" (add_root app partial_default))).

(** [app] uses [lib] and [util], [lib] uses [util]. *)
Definition diamond : PartialGraph :=
  add_edge lib util (str_bytes "util") (add_edge app util (str_bytes "util") (add_edge app lib (str_bytes "lib") base_graph)).

Definition graph_of (g : PartialGraph) : CargoPathDependencyGraph :=
  match finalize_graph (join app "Cargo.toml") g with
  | Some (Ok G) => G
  | _ => {| entry_manifest_path := []; workspace_root := None; root_packages := []; packages := []; edges := [] |}
  end.

Example diamond_plan :
  sync_roots <$> plan_dependency_closure_from_graph (graph_of diamond) = Some [util; lib; app].
Proof. by vm_compute. Qed.

Lemma closure_plan_exact_witness :
  exists plan, plan_dependency_closure_from_graph_and_materialization (graph_of diamond) None = Some plan /\
    fail_open plan = false.
Proof.
  destruct (closure_plan_exact (join app "Cargo.toml") diamond (graph_of diamond) None ltac:(by vm_compute))
    as (plan & Hp & _).
  exists plan. split; [exact Hp|]. revert Hp.
  set (r := plan_dependency_closure_from_graph_and_materialization _ _).
  assert (Hr : fail_open <$> r = Some false) by (vm_compute; reflexivity).
  intros Hp. rewrite Hp in Hr. by injection Hr.
Defined.

(** A cycle is refused with the cycle. *)
Example cycle_refused :
  (fun r => match r with Err e => cycle e | Ok _ => [] end)
    <$> finalize_graph (join app "Cargo.toml") (add_edge util app (str_bytes "app") diamond)
  = Some [app; lib; util; app].
Proof. by vm_compute. Qed.

(** [app] names [lib] twice, under its own name and under another. *)
Definition renamed : PartialGraph := add_edge app lib (str_bytes "lib_alias") diamond.

(** A package may depend on the same directory under two names, for instance once renamed.
    The graph has no cycle and is accepted, but the planner counts two dependencies and
    resolves one, and gives up the whole plan. *)
Theorem renamed_dependency_fails_open :
  (exists G, finalize_graph (join app "Cargo.toml") renamed = Some (Ok G)) /\
  is_ready <$> plan_dependency_closure_from_graph (graph_of renamed) = Some false /\
  is_ready <$> plan_dependency_closure_from_graph (graph_of diamond) = Some true.
Proof. split; [eexists; by vm_compute|]. split; by vm_compute. Qed.

End PlanFacts.
