(* ===== verification/Wrapper.v ===== *)
(** * The wrapper and its persisted breaker

    rabs-protocol/src/wrapper_breaker.rs and rabs-wrap/src/main.rs: every compiler call
    starts a fresh process that reads a small state file, decides whether to ask the edge,
    and writes the file back before it becomes the compiler.  The breaker and its text
    format are [Breaker]; [Wrap] is one run of the wrapper over the file and any history
    of runs one after the other; [Race] splits a run into its file accesses and
    interleaves any number of wrappers, where a write is a truncation followed by an
    overwrite from the start.

    Times are milliseconds in a u64, counts are u32. *)

From stdpp Require Import base list strings relations sorting.
From Stdlib Require Import ZArith Lia.
From S2P Require Import Prelude Bytes Text Numerals Pack.

Module Breaker.

Record BreakerPolicy := {
  connect_timeout_ms : Z;
  decision_timeout_ms : Z;
  open_after_consecutive_failures : Z;
  cooldown_ms : Z;
}.

Definition default_policy : BreakerPolicy :=
  {| connect_timeout_ms := 25;
     decision_timeout_ms := 50;
     open_after_consecutive_failures := 3;
     cooldown_ms := 5000 |}.

Inductive BreakerState :=
  | Closed (consecutive_failures : Z)
  | Open (opened_at_ms : Z) (last_probe_started_at_ms : option Z).

#[export] Instance BreakerState_eq_dec : EqDecision BreakerState.
Proof. solve_decision. Defined.

Definition fresh : BreakerState := Closed 0.

Definition probe_started (s : BreakerState) (now_ms : Z) : BreakerState :=
  match s with
  | Closed _ => s
  | Open opened_at_ms _ => Open opened_at_ms (Some now_ms)
  end.

Inductive ConnectDecision :=
  | Attempt (connect_timeout_ms decision_timeout_ms : Z)
  | Probe (connect_timeout_ms decision_timeout_ms : Z)
  | SkipToLocal.

Inductive AttemptOutcome := Succeeded | Failed.

#[export] Instance AttemptOutcome_eq_dec : EqDecision AttemptOutcome.
Proof. solve_decision. Defined.

Definition cooldown_reference (s : BreakerState) : Z :=
  match s with
  | Closed _ => 0
  | Open opened_at_ms (Some probe) => if opened_at_ms <? probe then probe else opened_at_ms
  | Open opened_at_ms None => opened_at_ms
  end.

Definition decide (policy : BreakerPolicy) (s : BreakerState) (now_ms : Z) : ConnectDecision :=
  let attempt := Attempt (connect_timeout_ms policy) (decision_timeout_ms policy) in
  match s with
  | Closed _ => attempt
  | Open _ _ =>
      let reference := cooldown_reference s in
      if sat_add 64 now_ms (cooldown_ms policy) <? reference then attempt
      else if cooldown_ms policy <=? sat_sub now_ms reference then
        Probe (connect_timeout_ms policy) (decision_timeout_ms policy)
      else SkipToLocal
  end.

Definition on_outcome (policy : BreakerPolicy) (s : BreakerState) (outcome : AttemptOutcome)
    (now_ms : Z) : BreakerState :=
  match outcome with
  | Succeeded => fresh
  | Failed =>
      match s with
      | Closed consecutive_failures =>
          let failures := sat_add 32 consecutive_failures 1 in
          if open_after_consecutive_failures policy <=? failures then Open now_ms None
          else Closed failures
      | Open _ _ => Open now_ms None
      end
  end.

(** ** The text format *)

(** [str::lines]: a line ends at a line feed, with a carriage return before it dropped; an
    unterminated last line is kept. *)
Fixpoint lines (s : str) : list str :=
  match s with
  | [] => []
  | b :: r =>
      if b =? NL then [] :: lines r
      else if (b =? CR) && bool_decide (head r = Some NL) then lines r
      else
        match lines r with
        | [] => [[b]]
        | l :: ls => (b :: l) :: ls
        end
  end.

Definition HEADER : string := "rabs-breaker v1".

Definition encode_state (s : BreakerState) : str :=
  match s with
  | Closed consecutive_failures =>
      str_bytes HEADER ++ NL :: str_bytes "closed " ++ show_u64 consecutive_failures ++ [NL]
  | Open opened_at_ms last_probe_started_at_ms =>
      let probe := match last_probe_started_at_ms with
                   | None => [DASH]
                   | Some probe => show_u64 probe
                   end in
      str_bytes HEADER ++ NL :: str_bytes "open " ++ show_u64 opened_at_ms
        ++ SPACE :: probe ++ [NL]
  end.

Definition decode_record (record : str) : option BreakerState :=
  match split_at SPACE record with
  | [word; failures] =>
      if is_lit word "closed" then Closed <$> parse_u 32 failures else None
  | [word; opened_at_ms; probe_field] =>
      if is_lit word "open" then
        opened_at_ms ← parse_u 64 opened_at_ms;
        last ← (if bool_decide (probe_field = [DASH]) then Some None
                else Some <$> parse_u 64 probe_field);
        Some (Open opened_at_ms last)
      else None
  | _ => None
  end.

Definition decode_state (bytes : list Z) : option BreakerState :=
  if negb (Pack.utf8_valid bytes) then None
  else
    match lines bytes with
    | [header; record] => if is_lit header HEADER then decode_record record else None
    | _ => None
    end.

End Breaker.

Module Wrap.
Import Breaker.

(** ** One run *)

(** The state file: absent, or its bytes. *)
Definition file : Type := option (list Z).

Definition load_state (f : file) : BreakerState := default fresh (f ≫= decode_state).

Definition store_state (s : BreakerState) : file := Some (encode_state s).

(** Compiler calls that only ask for a version or for target information. *)
Fixpoint crate_name_probe (args : list str) : bool :=
  match args with
  | a :: ((b :: _) as rest) =>
      (is_lit a "--crate-name" && is_lit b "___") || crate_name_probe rest
  | _ => false
  end.

Definition is_probe (args : list str) : bool :=
  existsb (fun a => is_lit a "-vV" || is_lit a "-V") args || crate_name_probe args.

(** What the socket gave within the budgets; [None] is an error or a timeout. *)
Record edge_io := {
  connected : bool;
  hello_line : option str;
  decision_line : option str;
}.

Definition json_field (name value : string) : str :=
  DQUOTE :: str_bytes name ++ [DQUOTE; 58; DQUOTE] ++ str_bytes value ++ [DQUOTE].

Definition consult_succeeded (reply : str) : bool :=
  if negb (contains (json_field "kind" "decision") reply) then false
  else negb (contains (json_field "mode" "shadow-error") reply).

Definition consult (io : edge_io) : AttemptOutcome :=
  if negb (connected io) then Failed
  else
    match hello_line io with
    | Some line =>
        if contains_lit line "hello-ok" then
          match decision_line io with
          | Some line => if consult_succeeded line then Succeeded else Failed
          | None => Failed
          end
        else Failed
    | None => Failed
    end.

(** One run of the wrapper: its arguments, the clock, and the exchange with the edge, or
    [None] when the process is killed while it waits for it. *)
Record run := { args : list str; now : Z; exchange : option edge_io }.

Inductive contact := NoContact | Attempted | Probed.

#[export] Instance contact_eq_dec : EqDecision contact.
Proof. solve_decision. Defined.

(** The file a run leaves and whether it turned to the edge.  Whatever happened, a run
    that is not killed then executes the real compiler with the same arguments. *)
Definition main (policy : BreakerPolicy) (r : run) (f : file) : contact * file :=
  if is_probe (args r) then (NoContact, f)
  else
    let s := load_state f in
    match decide policy s (now r) with
    | SkipToLocal => (NoContact, f)
    | Attempt _ _ =>
        (Attempted, match exchange r with
                    | Some io => store_state (on_outcome policy s (consult io) (now r))
                    | None => f
                    end)
    | Probe _ _ =>
        let probing := probe_started s (now r) in
        (Probed, match exchange r with
                 | Some io => store_state (on_outcome policy probing (consult io) (now r))
                 | None => store_state probing
                 end)
    end.

(** Runs one after the other. *)
Fixpoint history (policy : BreakerPolicy) (rs : list run) (f : file) : list (run * contact) * file :=
  match rs with
  | [] => ([], f)
  | r :: rs =>
      let (c, f) := main policy r f in
      let (cs, f) := history policy rs f in
      ((r, c) :: cs, f)
  end.

End Wrap.

Module Race.
Import Breaker Wrap.

(** ** Wrappers at the same time

    A wrapper between two file accesses: it has not read the file, it is about to truncate
    the file or to overwrite it from the start with a state, it is waiting for the edge,
    or it is done.  [then_] says what follows a write: the exchange under a state, or
    nothing. *)
Inductive phase :=
  | Start
  | Truncating (now : Z) (s : BreakerState) (then_ : option BreakerState)
  | Overwriting (now : Z) (s : BreakerState) (then_ : option BreakerState)
  | Consulting (now : Z) (s : BreakerState)
  | Done.

Record system := { shared : file; wrappers : list phase }.

Definition after_load (policy : BreakerPolicy) (now : Z) (s : BreakerState) : phase :=
  match decide policy s now with
  | SkipToLocal => Done
  | Attempt _ _ => Consulting now s
  | Probe _ _ => let probing := probe_started s now in Truncating now probing (Some probing)
  end.

Definition after_write (now : Z) (then_ : option BreakerState) : phase :=
  match then_ with Some s => Consulting now s | None => Done end.

(** Bytes written at the start of a file that may have grown since it was truncated. *)
Definition overwrite (bs : list Z) (f : file) : file :=
  Some (bs ++ drop (length bs) (default [] f)).

(** One access of one wrapper, with the states it writes. *)
Inductive access (policy : BreakerPolicy) :
    file -> phase -> list BreakerState -> file -> phase -> Prop :=
  | access_load f now :
      is_u64 now -> access policy f Start [] f (after_load policy now (load_state f))
  | access_truncate f now s k :
      access policy f (Truncating now s k) [] (Some []) (Overwriting now s k)
  | access_overwrite f now s k :
      access policy f (Overwriting now s k) [s] (overwrite (encode_state s) f) (after_write now k)
  | access_consult f now s outcome :
      access policy f (Consulting now s) [] f
        (Truncating now (on_outcome policy s outcome now) None)
  | access_killed f p :
      access policy f p [] f Done.

(** Any interleaving, with the states written in order. *)
Inductive steps (policy : BreakerPolicy) : system -> list BreakerState -> system -> Prop :=
  | steps_nil y : steps policy y [] y
  | steps_snoc y ws f ps i p w f' p' :
      steps policy y ws {| shared := f; wrappers := ps |} ->
      ps !! i = Some p -> access policy f p w f' p' ->
      steps policy y (ws ++ w) {| shared := f'; wrappers := <[i := p']> ps |}.

End Race.

(** * Properties *)

Module BreakerFacts.
Import Breaker.

(** ** Lines *)

Lemma lines_terminated l s :
  Forall (fun b => b <> NL /\ b <> CR) l -> lines (l ++ NL :: s) = l :: lines s.
Proof.
  induction 1 as [|b l [Hn Hc] _ IH]; [done|]. cbn [app lines]. rewrite IH.
  rewrite (proj2 (Z.eqb_neq b NL)), (proj2 (Z.eqb_neq b CR)) by done. done.
Qed.

Lemma lines_nonempty s : s <> [] -> lines s <> [].
Proof.
  induction s as [|b s IH]; [done|]. intros _. cbn [lines].
  case_match; [done|]. case_match; [|by case_match].
  apply IH. destruct s; [|done]. apply andb_true_iff in H0 as [_ H0].
  by apply bool_decide_eq_true in H0.
Qed.

(** ** The format *)

Definition in_range (s : BreakerState) : Prop :=
  match s with
  | Closed n => is_u32 n
  | Open t p => is_u64 t /\ (forall q, p = Some q -> is_u64 q)
  end.

(** The characters of a record line. *)
Definition plain (b : Z) : bool := (32 <=? b) && (b <? 128).

Definition record_of (s : BreakerState) : str :=
  match s with
  | Closed n => str_bytes "closed" ++ SPACE :: show_u64 n
  | Open t p =>
      str_bytes "open" ++ SPACE :: show_u64 t ++ SPACE :: match p with
                                                          | None => [DASH]
                                                          | Some q => show_u64 q
                                                          end
  end.

Lemma encode_lines s : encode_state s = str_bytes HEADER ++ NL :: record_of s ++ [NL].
Proof.
  destruct s as [n|t p]; unfold encode_state, record_of; f_equal; f_equal.
  rewrite <- !app_assoc. cbn [app]. by rewrite <- app_assoc.
Qed.

Lemma digits_plain w (P : Z -> Prop) :
  Forall (fun b => is_ascii_digit b = true) w -> (forall b, 48 <= b <= 57 -> P b) -> Forall P w.
Proof.
  intros Hw HP. eapply Forall_impl; [exact Hw|]. intros b Hb. apply HP.
  unfold is_ascii_digit in Hb. lia.
Qed.

Lemma plain_record s : Forall (fun b => plain b = true) (record_of s).
Proof.
  assert (Hd : forall v, Forall (fun b => plain b = true) (show_u64 v)).
  { intros v. apply (digits_plain _ _ (show_u64_digits v)). unfold plain. lia. }
  destruct s as [n|t [p|]]; cbn [record_of]; rewrite ?Forall_app, ?Forall_cons, ?Forall_app, ?Forall_cons;
    repeat split; try apply Hd; try done; apply Forall_forall; vm_compute; intros; set_solver.
Qed.

Lemma plain_header : Forall (fun b => plain b = true) (str_bytes HEADER).
Proof. vm_compute. repeat constructor. Qed.

Lemma plain_terminates w : Forall (fun b => plain b = true) w -> Forall (fun b => b <> NL /\ b <> CR) w.
Proof. intros H. eapply Forall_impl; [exact H|]. unfold plain. lia. Qed.

Lemma encode_valid s tl : Pack.utf8_valid (encode_state s ++ tl) = Pack.utf8_valid tl.
Proof.
  assert (Hascii : forall w tl, Forall (fun b => plain b = true) w ->
    Pack.utf8_valid (w ++ tl) = Pack.utf8_valid tl).
  { intros w tl' H. induction H as [|b w Hb _ IH]; [done|]. cbn [app Pack.utf8_valid].
    unfold plain in Hb. by rewrite (proj2 (Z.ltb_lt b 128)) by lia. }
  rewrite encode_lines, <- !app_assoc. cbn [app]. rewrite <- app_assoc.
  rewrite (Hascii _ _ plain_header). cbn [Pack.utf8_valid].
  change (NL <? 128) with true. cbn iota. rewrite (Hascii _ _ (plain_record s)). done.
Qed.

Lemma record_round_trip s : in_range s -> decode_record (record_of s) = Some s.
Proof.
  assert (Hd : forall v, Forall (fun b => b <> SPACE) (show_u64 v)).
  { intros v. apply (digits_plain _ _ (show_u64_digits v)). lia. }
  assert (Hdash : forall v, show_u64 v <> [DASH]).
  { intros v E. pose proof (show_u64_digits v) as H. rewrite E in H.
    by apply Forall_cons in H as [H _]. }
  assert (Hc : Forall (fun b => b <> SPACE) (str_bytes "closed")) by (vm_compute; repeat constructor; done).
  assert (Ho : Forall (fun b => b <> SPACE) (str_bytes "open")) by (vm_compute; repeat constructor; done).
  unfold decode_record. destruct s as [n|t p]; cbn [record_of in_range].
  - intros Hn. rewrite (split_at_cons _ _ _ Hc), split_at_last by apply Hd.
    change (is_lit (str_bytes "closed") "closed") with true. cbn iota. by rewrite parse_show.
  - intros [Ht Hp]. rewrite (split_at_cons _ _ _ Ho), split_at_cons by apply Hd.
    destruct p as [q|].
    + rewrite split_at_last by apply Hd. change (is_lit (str_bytes "open") "open") with true. cbn iota.
      rewrite (parse_show 64 t), (parse_show 64 q), bool_decide_eq_false_2;
        [done|done|by apply Hp|lia|done|lia].
    + change (split_at SPACE [DASH]) with [[DASH]].
      change (is_lit (str_bytes "open") "open") with true. cbn iota. by rewrite parse_show.
Qed.

(** What is left of a longer record after a shorter one was written over it makes the file
    undecodable; without such a rest the state is read back. *)
Lemma decode_overwritten s tl :
  in_range s ->
  decode_state (encode_state s ++ tl) = Some s /\ tl = []
  \/ decode_state (encode_state s ++ tl) = None /\ tl <> [].
Proof.
  intros Hs. unfold decode_state.
  destruct (negb (Pack.utf8_valid _)) eqn:E.
  - right. split; [done|]. intros ->. by rewrite encode_valid in E.
  - assert (lines (encode_state s ++ tl) = str_bytes HEADER :: record_of s :: lines tl) as ->.
    { rewrite encode_lines, <- !app_assoc. cbn [app]. rewrite <- app_assoc. cbn [app].
      rewrite (lines_terminated _ _ (plain_terminates _ plain_header)).
      by rewrite (lines_terminated _ _ (plain_terminates _ (plain_record s))). }
    assert (tl = [] \/ tl <> []) as [->|Htl] by (destruct tl; [by left|by right]).
    + left. cbn [lines]. change (is_lit (str_bytes HEADER) HEADER) with true. cbn iota.
      by rewrite record_round_trip.
    + right. split; [|done]. pose proof (lines_nonempty tl Htl). by destruct (lines tl).
Qed.

Lemma breaker_round_trip s : in_range s -> decode_state (encode_state s) = Some s.
Proof.
  intros Hs. pose proof (decode_overwritten s [] Hs) as H. rewrite app_nil_r in H. naive_solver.
Qed.

Lemma decode_in_range bs s : decode_state bs = Some s -> in_range s.
Proof.
  unfold decode_state, decode_record. intros H. repeat case_match; simplify_eq.
  - apply fmap_Some in H as (n & H & ->). apply parse_u_range in H; [done|lia].
  - apply bind_Some in H as (t & Ht & [= <-]). apply parse_u_range in Ht; [done|lia].
  - apply bind_Some in H as (t & Ht & H). apply bind_Some in H as (p & Hp & [= <-]).
    apply parse_u_range in Ht; [|lia]. split; [done|]. intros q ->.
    apply fmap_Some in Hp as (? & Hp & [= ->]). apply parse_u_range in Hp; [done|lia].
Qed.

Lemma fresh_in_range : in_range fresh.
Proof. cbn. auto with rch. Qed.

Lemma probe_in_range s now : is_u64 now -> in_range s -> in_range (probe_started s now).
Proof. destruct s; cbn; [done|]. intros ? [? _]. split; [done|]. by intros ? [= <-]. Qed.

Lemma outcome_in_range policy s o now : is_u64 now -> in_range s -> in_range (on_outcome policy s o now).
Proof.
  intros Hn Hs. destruct o; cbn; [apply fresh_in_range|]. destruct s as [n|]; cbn in *; [|done].
  case_match; cbn; [done|]. apply sat_add_range; lia || apply Hs.
Qed.

End BreakerFacts.

Module WrapFacts.
Import Breaker BreakerFacts Wrap.

(** ** Runs as transitions of the decoded state *)

Lemma load_store s : in_range s -> load_state (store_state s) = s.
Proof. intros Hs. unfold load_state. cbn. by rewrite breaker_round_trip. Qed.

Lemma load_in_range f : in_range (load_state f).
Proof.
  unfold load_state. destruct (f ≫= decode_state) as [s|] eqn:E; cbn.
  - apply bind_Some in E as (bs & _ & E). by eapply decode_in_range.
  - apply fresh_in_range.
Qed.

Definition after (policy : BreakerPolicy) (r : run) (s : BreakerState) : contact * BreakerState :=
  if is_probe (args r) then (NoContact, s)
  else
    match decide policy s (now r) with
    | SkipToLocal => (NoContact, s)
    | Attempt _ _ =>
        (Attempted, from_option (fun io => on_outcome policy s (consult io) (now r)) s (exchange r))
    | Probe _ _ =>
        let probing := probe_started s (now r) in
        (Probed, from_option (fun io => on_outcome policy probing (consult io) (now r)) probing
                   (exchange r))
    end.

Lemma main_after policy r f :
  is_u64 (now r) ->
  fst (main policy r f) = fst (after policy r (load_state f))
  /\ load_state (snd (main policy r f)) = snd (after policy r (load_state f)).
Proof.
  intros Hn. pose proof (load_in_range f) as Hs.
  pose proof (probe_in_range _ _ Hn Hs) as Hp. unfold main, after.
  destruct (is_probe (args r)); [done|].
  destruct (decide policy (load_state f) (now r)); cbn [fst snd]; [| |done]; (split; [done|]);
    destruct (exchange r); cbn [from_option]; try done;
    apply load_store; auto using outcome_in_range.
Qed.

Fixpoint trace (policy : BreakerPolicy) (rs : list run) (s : BreakerState) : list (run * contact) :=
  match rs with
  | [] => []
  | r :: rs => (r, fst (after policy r s)) :: trace policy rs (snd (after policy r s))
  end.

Lemma history_trace policy rs f :
  Forall (fun r => is_u64 (now r)) rs ->
  fst (history policy rs f) = trace policy rs (load_state f).
Proof.
  intros H. revert f. induction H as [|r rs Hr _ IH]; intros f; [done|]. cbn [history trace].
  destruct (main_after policy r f Hr) as [Hc Hl]. destruct (main policy r f) as [c f1].
  cbn [fst snd] in Hc, Hl. specialize (IH f1). destruct (history policy rs f1) as [cs f2].
  cbn [fst] in *. by rewrite Hc, IH, Hl.
Qed.

(** ** The price of a dead edge *)

Definition probes (cs : list (run * contact)) : Z :=
  Z.of_nat (length (filter (fun x => snd x = Probed) cs)).

Definition failed_attempts (cs : list (run * contact)) : Z :=
  Z.of_nat (length (filter (fun x => snd x = Attempted /\ is_Some (exchange (fst x))) cs)).

(** Attempts of wrappers killed before the outcome is recorded. *)
Definition killed_attempts (cs : list (run * contact)) : Z :=
  Z.of_nat (length (filter (fun x => snd x = Attempted /\ exchange (fst x) = None) cs)).

(** Every time a run turned to the edge. *)
Definition contacts (cs : list (run * contact)) : Z :=
  Z.of_nat (length (filter (fun x => snd x <> NoContact) cs)).

Lemma contacts_split cs : contacts cs = probes cs + failed_attempts cs + killed_attempts cs.
Proof.
  unfold contacts, probes, failed_attempts, killed_attempts.
  induction cs as [|[r c] cs IH]; [done|]. rewrite !filter_cons. cbn [fst snd].
  destruct c, (exchange r) eqn:E; repeat case_decide; cbn [length];
    repeat match goal with H : _ /\ _ |- _ => destruct H | H : is_Some None |- _ => destruct H end;
    first [congruence | lia | exfalso; naive_solver].
Qed.

Lemma probes_cons r c cs :
  probes ((r, c) :: cs) = (if bool_decide (c = Probed) then 1 else 0) + probes cs.
Proof. unfold probes. rewrite filter_cons. cbn. repeat case_match; case_bool_decide; cbn; lia || done. Qed.

Lemma failed_cons r c cs :
  failed_attempts ((r, c) :: cs)
  = (if bool_decide (c = Attempted /\ is_Some (exchange r)) then 1 else 0) + failed_attempts cs.
Proof.
  unfold failed_attempts. rewrite filter_cons. cbn.
  repeat case_match; case_bool_decide; cbn; lia || done.
Qed.

Section dead_edge.
Context (policy : BreakerPolicy).
Abbreviation c := (cooldown_ms policy).
Abbreviation threshold := (open_after_consecutive_failures policy).
Hypothesis Hc : 0 < c.
Hypothesis Ht : threshold <= U32_MAX.

(** The run is not answered by a working edge. *)
Definition unanswered (r : run) : Prop := forall io, exchange r = Some io -> consult io = Failed.

(** How many attempts may still fail before the breaker is open. *)
Definition left (s : BreakerState) (t : Z) : Z :=
  match s with
  | Closed n => Z.max 1 (threshold - n)
  | Open _ _ => if sat_add 64 t c <? cooldown_reference s then 1 else 0
  end.

Definition is_open (s : BreakerState) : Prop := match s with Open _ _ => True | Closed _ => False end.

(** What an unanswered run does to an open breaker whose reference is not in the future. *)
Lemma after_open r s :
  is_u64 (now r) -> unanswered r -> is_open s -> cooldown_reference s <= now r ->
  after policy r s = (NoContact, s)
  \/ fst (after policy r s) = Probed
     /\ cooldown_reference s + c <= now r
     /\ is_open (snd (after policy r s)) /\ cooldown_reference (snd (after policy r s)) = now r.
Proof.
  intros Hn Hu Ho Hr. unfold after. destruct (is_probe _); [by left|].
  destruct s as [|t p]; [done|]. unfold decide.
  destruct (_ <? _) eqn:E1; [unfold sat_add, in_u in *; lia|].
  destruct (c <=? _) eqn:E2; [|by left]. right.
  assert (cooldown_reference (Open t p) + c <= now r) by (unfold sat_sub in E2; lia).
  cbn [fst snd]. split; [done|]. split; [done|].
  destruct (exchange r) as [io|] eqn:Ee; cbn [from_option probe_started].
  - by rewrite (Hu io Ee).
  - split; [done|]. cbn. cbn in H. repeat case_match; lia.
Qed.

Lemma after_any r s :
  is_u64 (now r) -> unanswered r -> fst (after policy r s) = Probed ->
  is_open (snd (after policy r s)) /\ cooldown_reference (snd (after policy r s)) = now r.
Proof.
  intros Hn Hu Hp. assert (is_open s /\ cooldown_reference s <= now r) as [Ho Hr].
  { revert Hp. unfold after, decide. destruct (is_probe _); [done|]. destruct s; [done|].
    destruct (_ <? _); [done|]. destruct (c <=? _) eqn:E; [|done]. intros _. split; [done|].
    unfold sat_sub in E. lia. }
  destruct (after_open r s Hn Hu Ho Hr) as [E|(? & ? & ? & ?)]; [by rewrite E in Hp|done].
Qed.

Lemma left_open s t : is_u64 t -> is_open s -> cooldown_reference s = t -> left s t = 0.
Proof.
  destruct s; [done|]. intros Hn _ E. unfold left. rewrite E. unfold sat_add, in_u in *.
  case_match; lia.
Qed.

Lemma left_nonneg s t : 0 <= left s t.
Proof. destruct s; cbn [left]; [lia|]. case_match; lia. Qed.

Lemma left_step r s t :
  is_u64 (now r) -> unanswered r -> in_range s -> t <= now r ->
  left (snd (after policy r s)) (now r)
    + (if bool_decide (fst (after policy r s) = Attempted /\ is_Some (exchange r)) then 1 else 0)
  <= left s t.
Proof.
  intros Hn Hu Hs Htn.
  assert (Hsame : left s (now r) <= left s t).
  { destruct s; cbn [left]; [lia|]. unfold sat_add. repeat case_match; lia. }
  destruct (fst (after policy r s)) eqn:Ef.
  - rewrite bool_decide_eq_false_2 by naive_solver. revert Ef. unfold after.
    destruct (is_probe _); [cbn [snd]; lia|]. by case_match; [..|cbn [snd]; lia].
  - revert Ef. unfold after. destruct (is_probe _); [done|].
    destruct (decide policy s (now r)) eqn:E; [|done..]. intros _.
    destruct (exchange r) as [io|] eqn:Ee; cbn [snd from_option].
    + rewrite bool_decide_eq_true_2 by eauto. rewrite (Hu io Ee).
      pose proof (left_open (Open (now r) None) (now r) Hn I eq_refl) as H0.
      destruct s as [n|t0 p]; cbn [on_outcome].
      * cbn in Hs. unfold in_u, U32_MAX in *. case_match; [rewrite H0; cbn [left]; lia|].
        cbn [left]. unfold sat_add in *. lia.
      * rewrite H0. revert E Hsame. unfold decide. case_match; [|by case_match].
        intros _. unfold left at 1. rewrite H. lia.
    + rewrite bool_decide_eq_false_2; [lia|]. by intros [_ [? ?]].
  - destruct (after_any r s Hn Hu Ef) as [Ho Hr]. rewrite (left_open _ _ Hn Ho Hr).
    rewrite bool_decide_eq_false_2 by naive_solver. pose proof (left_nonneg s t). lia.
Qed.

Lemma after_in_range r s : is_u64 (now r) -> in_range s -> in_range (snd (after policy r s)).
Proof.
  intros Hn Hs. unfold after. destruct (is_probe _); [done|].
  destruct (decide policy s (now r)); [..|done]; destruct (exchange r); cbn [snd from_option];
    auto using outcome_in_range, probe_in_range.
Qed.

(** Unanswered runs with a clock that does not run backwards, between two times. *)
Definition dead_period (t0 t1 : Z) (rs : list run) : Prop :=
  StronglySorted Z.le (now <$> rs)
  /\ Forall (fun r => is_u64 (now r) /\ unanswered r /\ t0 <= now r <= t1) rs.

Lemma dead_period_cons t0 t1 r rs :
  dead_period t0 t1 (r :: rs) ->
  is_u64 (now r) /\ unanswered r /\ t0 <= now r <= t1 /\ dead_period (now r) t1 rs.
Proof.
  intros [Hs Hf]. cbn in Hs. apply StronglySorted_inv in Hs as [Hs Hle].
  apply Forall_cons in Hf as [(Hn & Hu & Hb) Hf].
  split; [done|]. split; [done|]. split; [done|]. split; [done|].
  rewrite Forall_fmap in Hle. rewrite Forall_forall in Hle, Hf |- *. intros x Hx.
  destruct (Hf x Hx) as (? & ? & ?). specialize (Hle x Hx). cbn in Hle.
  split; [done|]. split; [done|lia].
Qed.

Lemma attempts_bounded rs s t0 t1 :
  in_range s -> dead_period t0 t1 rs -> failed_attempts (trace policy rs s) <= left s t0.
Proof.
  revert s t0. induction rs as [|r rs IH]; intros s t0 Hs H; [apply left_nonneg|].
  apply dead_period_cons in H as (Hn & Hu & Hb & H). cbn [trace]. rewrite failed_cons.
  pose proof (left_step r s t0 Hn Hu Hs (proj1 Hb)).
  specialize (IH _ _ (after_in_range r s Hn Hs) H). lia.
Qed.

Lemma open_probes rs s t0 t1 :
  is_open s -> cooldown_reference s <= t0 -> t0 <= t1 -> dead_period t0 t1 rs ->
  probes (trace policy rs s) * c <= t1 - cooldown_reference s.
Proof.
  revert s t0. induction rs as [|r rs IH]; intros s t0 Ho Hr Ht1 H; [change (probes (trace policy [] s)) with 0; lia|].
  apply dead_period_cons in H as (Hn & Hu & Hb & H). cbn [trace]. rewrite probes_cons.
  destruct (after_open r s Hn Hu Ho) as [E|(Ef & Hc' & Ho' & Hr')]; [lia| |].
  - rewrite E. cbn [fst snd]. rewrite bool_decide_eq_false_2 by done.
    pose proof (IH s (now r) Ho ltac:(lia) ltac:(lia) H). lia.
  - rewrite Ef. rewrite bool_decide_eq_true_2 by done.
    pose proof (IH _ (now r) Ho' ltac:(lia) ltac:(lia) H) as Hi. rewrite Hr' in Hi. lia.
Qed.

Lemma probes_spaced rs s t0 t1 :
  t0 <= t1 -> dead_period t0 t1 rs -> probes (trace policy rs s) * c <= t1 - t0 + c.
Proof.
  revert s t0. induction rs as [|r rs IH]; intros s t0 Ht1 H; [change (probes (trace policy [] s)) with 0; lia|].
  apply dead_period_cons in H as (Hn & Hu & Hb & H). cbn [trace]. rewrite probes_cons.
  case_bool_decide as Ef.
  - destruct (after_any r s Hn Hu Ef) as [Ho Hr].
    pose proof (open_probes rs _ (now r) t1 Ho ltac:(lia) ltac:(lia) H). lia.
  - pose proof (IH (snd (after policy r s)) (now r) ltac:(lia) H). lia.
Qed.

End dead_edge.

(** C19: compiler calls that run one after the other, over a state file that can be written and
    with a clock that does not run backwards, turn to an edge that does not answer a bounded
    number of times, however many of them there are and whatever the state file holds at
    first.  In a period of length [t1 - t0] at most one contact per cooldown and one more are
    probes, also when wrappers are killed while they wait for their probe, and at most as many
    other attempts fail as the threshold allows (at least one).  The only other contacts are
    those of wrappers killed while they wait for an attempt of a closed breaker: such a death
    is not recorded and adds one contact each.  All other runs go to the local compiler at
    once.  (Wrappers that run at the same time are not covered: two of them may probe in the
    same cooldown, and a reader may find the file torn and ask again.) *)
Theorem dead_edge_cost policy rs f t0 t1 :
  0 < cooldown_ms policy -> open_after_consecutive_failures policy <= U32_MAX ->
  t0 <= t1 -> dead_period t0 t1 rs ->
  let cs := fst (history policy rs f) in
  length cs = length rs
  /\ probes cs <= 1 + (t1 - t0) / cooldown_ms policy
  /\ failed_attempts cs <= Z.max 1 (open_after_consecutive_failures policy)
  /\ contacts cs = probes cs + failed_attempts cs + killed_attempts cs.
Proof.
  intros Hc Ht Ht1 H. cbn zeta.
  assert (Forall (fun r => is_u64 (now r)) rs) as Hn
    by (eapply Forall_impl; [apply H|]; naive_solver).
  rewrite (history_trace policy rs f Hn). split; [|split; [|split; [|apply contacts_split]]].
  - generalize (load_state f). clear. induction rs; intros s; cbn; auto.
  - pose proof (probes_spaced policy Hc rs (load_state f) t0 t1 Ht1 H).
    apply Z.add_le_mono_l with (p := -1). rewrite Z.add_assoc. cbn [Z.add Z.opp].
    apply Z.div_le_lower_bound; lia.
  - pose proof (attempts_bounded policy Hc Ht rs (load_state f) t0 t1 (load_in_range f) H) as Hl.
    etrans; [exact Hl|]. pose proof (load_in_range f) as Hs.
    destruct (load_state f); cbn [left in_range] in *; [destruct Hs; lia|]. case_match; lia.
Qed.

(** The breaker never skips for good: whatever the state file holds, of two compiler calls at
    least two cooldowns apart one turns to the edge, or a call between them does. *)
Theorem never_stranded policy f r0 rs r1 :
  Forall (fun r => is_u64 (now r)) (r0 :: rs ++ [r1]) ->
  0 <= cooldown_ms policy ->
  is_probe (args r0) = false -> is_probe (args r1) = false ->
  now r0 + 2 * cooldown_ms policy <= now r1 ->
  exists r c, (r, c) ∈ fst (history policy (r0 :: rs ++ [r1]) f) /\ c <> NoContact.
Proof.
  intros Hn Hc Hp0 Hp1 Hlate. rewrite (history_trace _ _ _ Hn). generalize (load_state f). intros s.
  assert (Hquiet : forall r s, fst (after policy r s) = NoContact -> snd (after policy r s) = s).
  { intros r s'. unfold after. repeat case_match; done. }
  assert (Hall : forall l s, (forall x, x ∈ trace policy (l ++ [r1]) s -> snd x = NoContact) ->
    fst (after policy r1 s) = NoContact).
  { clear s. intros l. induction l as [|r l IH]; intros s H; cbn [app trace] in H.
    - apply (H (r1, _)). constructor.
    - apply IH. intros x Hx. apply H. rewrite (Hquiet r s); [by constructor|].
      apply (H (r, _)). constructor. }
  destruct (Exists_dec (fun x => snd x <> NoContact) (trace policy (r0 :: rs ++ [r1]) s)) as [He|He].
  { apply Exists_exists in He as ([r c] & Hin & Hx). eauto. }
  exfalso. assert (H : forall x, x ∈ trace policy (r0 :: rs ++ [r1]) s -> snd x = NoContact).
  { intros x Hx. destruct (snd x) eqn:E; [done|..]; destruct He; apply Exists_exists; exists x;
      (split; [done|by rewrite E]). }
  pose proof (H (r0, _) ltac:(constructor)) as H0. cbn [snd] in H0.
  pose proof (Hall (r0 :: rs) s H) as H1. revert H0 H1. unfold after, decide. rewrite Hp0, Hp1.
  apply Forall_cons in Hn as [Hn0 Hn]. apply Forall_app in Hn as [_ Hn1].
  apply Forall_cons in Hn1 as [Hn1 _]. unfold in_u in *.
  destruct s; [done|]. unfold sat_add, sat_sub. repeat case_match; try done. lia.
Qed.

(** An edge that cannot be reached, asked every second for thirteen seconds; the wrappers of
    the second call and of the first probe are killed. *)
Definition dead_run (now : Z) : run :=
  {| args := [str_bytes "--crate-name"; str_bytes "serde"]; now := now;
     exchange := if (now =? 2000) || (now =? 9000) then None
                 else Some {| connected := false; hello_line := None; decision_line := None |} |}.

Definition dead_runs : list run := (fun n => dead_run (1000 * Z.of_nat n)) <$> seq 1 14.

Lemma dead_edge_cost_witness :
  let cs := fst (history default_policy dead_runs None) in
  (snd <$> cs) = [Attempted; Attempted; Attempted; Attempted; NoContact; NoContact; NoContact;
                  NoContact; Probed; NoContact; NoContact; NoContact; NoContact; Probed]
  /\ killed_attempts cs = 1
  /\ probes cs <= 1 + 13000 / 5000 /\ failed_attempts cs <= 3
  /\ contacts cs = probes cs + failed_attempts cs + killed_attempts cs.
Proof.
  split; [vm_compute; reflexivity|]. split; [vm_compute; reflexivity|].
  apply (dead_edge_cost default_policy dead_runs None 1000 14000); [cbn; lia|vm_compute; congruence|lia|].
  split.
  - apply Sorted_StronglySorted; [intros ? ? ?; lia|]. vm_compute. repeat constructor; congruence.
  - apply Forall_fmap, Forall_seq. intros j Hj. cbn [now dead_run compose].
    split; [unfold in_u; lia|]. split; [|lia]. intros io H. cbn in H. case_match; by simplify_eq.
Defined.

(** A file whose time is far ahead: the first call already asks. *)
Lemma never_stranded_witness :
  exists r c, (r, c) ∈ fst (history default_policy (dead_run 1000 :: [] ++ [dead_run 11000])
                             (store_state (Open 4000 None))) /\ c <> NoContact.
Proof.
  apply (never_stranded default_policy); [|cbn; lia|vm_compute; reflexivity..|cbn; lia].
  repeat constructor; cbn; lia.
Defined.

End WrapFacts.

Module RaceFacts.
Import Breaker BreakerFacts Wrap WrapFacts Race.

Section race.
Context (policy : BreakerPolicy) (s0 : BreakerState).

(** States the code's own transitions lead to. *)
Inductive earned : BreakerState -> Prop :=
  | earned_start : earned s0
  | earned_fresh : earned fresh
  | earned_probe s now : earned s -> is_u64 now -> earned (probe_started s now)
  | earned_outcome s o now : earned s -> is_u64 now -> earned (on_outcome policy s o now).

Definition good (s : BreakerState) : Prop := earned s /\ in_range s.

Definition phase_good (p : phase) : Prop :=
  match p with
  | Start | Done => True
  | Truncating now s k | Overwriting now s k =>
      is_u64 now /\ good s /\ (forall s', k = Some s' -> good s')
  | Consulting now s => is_u64 now /\ good s
  end.

Lemma good_probe s now : is_u64 now -> good s -> good (probe_started s now).
Proof. intros ? [? ?]. split; [by constructor|by apply probe_in_range]. Qed.

Lemma good_outcome s o now : is_u64 now -> good s -> good (on_outcome policy s o now).
Proof. intros ? [? ?]. split; [by constructor|by apply outcome_in_range]. Qed.

Lemma load_overwrite s f :
  in_range s ->
  load_state (overwrite (encode_state s) f) = s \/ load_state (overwrite (encode_state s) f) = fresh.
Proof.
  intros Hs. unfold load_state, overwrite. cbn.
  destruct (decode_overwritten s (drop (length (encode_state s)) (default [] f)) Hs) as [[-> _]|[-> _]];
    auto.
Qed.

(** What is in the file, and in the hands of every wrapper, after the states [ws] were written. *)
Definition sound (ws : list BreakerState) (y : system) : Prop :=
  (load_state (shared y) = s0 \/ load_state (shared y) = fresh \/ load_state (shared y) ∈ ws)
  /\ Forall good ws /\ Forall phase_good (wrappers y).

Lemma access_sound ws f p w f' p' :
  (load_state f = s0 \/ load_state f = fresh \/ load_state f ∈ ws) -> Forall good ws ->
  phase_good p -> access policy f p w f' p' ->
  (load_state f' = s0 \/ load_state f' = fresh \/ load_state f' ∈ ws ++ w)
  /\ Forall good (ws ++ w) /\ phase_good p'.
Proof.
  intros Hf Hw Hp H.
  assert (Hg : good (load_state f)).
  { split; [|apply load_in_range]. destruct Hf as [->|[->|Hin]]; [constructor..|].
    rewrite Forall_forall in Hw. by apply Hw. }
  destruct H as [f now Hn|f now s k|f now s k|f now s o|f p]; rewrite ?app_nil_r.
  - split; [done|]. split; [done|]. unfold after_load. case_match; cbn; [done| |done].
    pose proof (good_probe _ _ Hn Hg). split; [done|]. split; [done|]. by intros ? [= <-].
  - split; [by right; left|]. done.
  - destruct Hp as (Hn & Hs & Hk). split; [|split].
    + destruct (load_overwrite s f (proj2 Hs)) as [-> | ->]; [|by right; left].
      right. right. set_solver.
    + apply Forall_app. split; [done|]. by apply Forall_singleton.
    + destruct k as [s'|]; cbn; [|done]. split; [done|]. by apply Hk.
  - destruct Hp as [Hn Hs]. split; [done|]. split; [done|]. cbn. split; [done|].
    split; [by apply good_outcome|done].
  - done.
Qed.

Lemma steps_sound y ws y' : sound [] y -> steps policy y ws y' -> sound ws y'.
Proof.
  intros Hy H. induction H as [y|y ws f ps i p w f' p' _ IH Hi Ha]; [done|].
  destruct (IH Hy) as (Hf & Hw & Hp). cbn [shared wrappers] in *.
  pose proof (Forall_lookup_1 _ _ _ _ Hp Hi) as Hpi.
  destruct (access_sound ws f p w f' p' Hf Hw Hpi Ha) as (? & ? & ?).
  split; [done|]. split; [done|]. by apply Forall_insert.
Qed.

End race.

(** Writes that tear each other never invent a breaker state: however the file accesses of any
    number of wrappers interleave, and wherever they are killed, what the next wrapper
    reads is the state of the file they started with, a closed breaker without failures, or
    a state one of them wrote whole; and each of these follows from the first by transitions
    of the breaker. *)
Theorem torn_writes_fail_open policy f ps ws y :
  Forall (fun p => p = Start) ps ->
  steps policy {| shared := f; wrappers := ps |} ws y ->
  (load_state (shared y) = load_state f \/ load_state (shared y) = fresh
   \/ load_state (shared y) ∈ ws)
  /\ Forall (earned policy (load_state f)) ws.
Proof.
  intros Hps H. apply (steps_sound policy (load_state f)) in H.
  - destruct H as (Hf & Hw & _). split; [done|]. eapply Forall_impl; [exact Hw|]. by intros ? [? _].
  - split; [by left|]. split; [constructor|]. eapply Forall_impl; [exact Hps|]. by intros ? ->.
Qed.

(** A wrapper alone takes the accesses of its run and leaves the file the run leaves. *)
Lemma alone_is_main policy r f :
  is_u64 (now r) -> is_probe (args r) = false ->
  exists ws p, steps policy {| shared := f; wrappers := [Start] |} ws
              {| shared := snd (main policy r f); wrappers := [p] |}.
Proof.
  intros Hn Hp.
  assert (Hover : forall s, overwrite (encode_state s) (Some []) = store_state s).
  { intros s. unfold overwrite, store_state.
    change (default [] (Some [])) with (@nil Z). by rewrite drop_nil, app_nil_r. }
  assert (Hload : forall ph, after_load policy (now r) (load_state f) = ph ->
    steps policy {| shared := f; wrappers := [Start] |} [] {| shared := f; wrappers := [ph] |}).
  { intros ph <-. apply (steps_snoc _ _ [] f [Start] 0 Start [] f); [constructor|done|].
    by constructor. }
  assert (Hstore : forall ws f1 s k,
    steps policy {| shared := f; wrappers := [Start] |} ws
      {| shared := f1; wrappers := [Truncating (now r) s k] |} ->
    steps policy {| shared := f; wrappers := [Start] |} ((ws ++ []) ++ [s])
      {| shared := store_state s; wrappers := [after_write (now r) k] |}).
  { intros ws f1 s k H. rewrite <- Hover.
    eapply (steps_snoc _ _ _ _ [Overwriting (now r) s k] 0); [|done|constructor].
    eapply (steps_snoc _ _ _ _ [Truncating (now r) s k] 0); [done|done|constructor]. }
  assert (Hconsult : forall ws f1 s io,
    steps policy {| shared := f; wrappers := [Start] |} ws
      {| shared := f1; wrappers := [Consulting (now r) s] |} ->
    exists ws', steps policy {| shared := f; wrappers := [Start] |} ws'
      {| shared := store_state (on_outcome policy s (consult io) (now r)); wrappers := [Done] |}).
  { intros ws f1 s io H. eexists. eapply (Hstore _ f1 _ None).
    eapply (steps_snoc _ _ ws f1 [Consulting (now r) s] 0); [done|done|constructor]. }
  unfold main. rewrite Hp. unfold after_load in Hload.
  destruct (decide policy (load_state f) (now r)) eqn:E; cbn [snd].
  - specialize (Hload _ eq_refl). destruct (exchange r) as [io|]; [|by eauto].
    destruct (Hconsult _ _ _ io Hload) as [ws H]. eauto.
  - specialize (Hload _ eq_refl). apply Hstore in Hload. cbn [after_write] in Hload.
    destruct (exchange r) as [io|]; [|by eauto]. destruct (Hconsult _ _ _ io Hload) as [ws H]. eauto.
  - specialize (Hload _ eq_refl). eauto.
Qed.

(** ** Schedules *)

Definition opened : file := store_state (Open 1000 None).

Definition probing : BreakerState := Open 1000 (Some 6000).

(** One wrapper is killed after truncating the file. *)
Lemma torn_writes_fail_open_witness :
  (load_state (Some []) = load_state opened \/ load_state (Some []) = fresh
   \/ load_state (Some []) ∈ [])
  /\ Forall (earned default_policy (load_state opened)) [].
Proof.
  apply (torn_writes_fail_open default_policy opened [Start] [] {| shared := Some []; wrappers := [Done] |});
    [by repeat constructor|].
  apply (steps_snoc _ _ [] (Some []) [Overwriting 6000 probing (Some probing)] 0
           (Overwriting 6000 probing (Some probing)) []); [|done|constructor].
  apply (steps_snoc _ _ [] opened [Truncating 6000 probing (Some probing)] 0
           (Truncating 6000 probing (Some probing)) []); [|done|constructor].
  apply (steps_snoc _ _ [] opened [Start] 0 Start []); [constructor|done|].
  apply (access_load default_policy opened 6000). unfold in_u. lia.
Defined.

(** Two wrappers that read the file before either has written it probe in the same window:
    nothing excludes the second between the first one's read and its write-ahead. *)
Theorem two_probes_in_one_window :
  exists ws f,
    steps default_policy {| shared := opened; wrappers := [Start; Start] |} ws
      {| shared := f; wrappers := [Consulting 6000 probing; Consulting 6000 probing] |}.
Proof.
  assert (Hl : access default_policy opened Start [] opened
                 (Truncating 6000 probing (Some probing))).
  { apply (access_load default_policy opened 6000). unfold in_u. lia. }
  do 2 eexists.
  eapply (steps_snoc _ _ _ _ [_; Overwriting 6000 probing (Some probing)] 1); [|done|constructor].
  eapply (steps_snoc _ _ _ _ [_; Truncating 6000 probing (Some probing)] 1); [|done|constructor].
  eapply (steps_snoc _ _ _ _ [Overwriting 6000 probing (Some probing); _] 0); [|done|constructor].
  eapply (steps_snoc _ _ _ _ [Truncating 6000 probing (Some probing); _] 0); [|done|constructor].
  eapply (steps_snoc _ _ _ opened [_; Start] 1); [|done|exact Hl].
  eapply (steps_snoc _ _ _ opened [Start; _] 0); [|done|exact Hl].
  constructor.
Qed.

(** A wrapper that reads between the truncation and the write of another finds a fresh
    breaker and asks the edge inside the cooldown, as an ordinary attempt. *)
Theorem torn_read_asks_again :
  exists ws f,
    steps default_policy {| shared := opened; wrappers := [Start; Start] |} ws
      {| shared := f; wrappers := [Overwriting 6000 probing (Some probing); Consulting 6001 fresh] |}.
Proof.
  do 2 eexists.
  eapply (steps_snoc _ _ _ (Some []) [_; Start] 1 Start []); [|done|].
  - eapply (steps_snoc _ _ _ _ [Truncating 6000 probing (Some probing); _] 0); [|done|constructor].
    eapply (steps_snoc _ _ _ opened [Start; _] 0 Start []); [constructor|done|].
    apply (access_load default_policy opened 6000). unfold in_u. lia.
  - apply (access_load default_policy (Some []) 6001). unfold in_u. lia.
Qed.

End RaceFacts.
