(* ===== verification/Store.v ===== *)
(** * The metadata store: locations, edges, pins and collector rows
    (rabs-cas/src/metadata_store.rs)

    The slice of [SqlMetadataStore] that garbage collection and the pin leases use.
    A table is a map from its primary key to the other columns, an SQL statement is
    its effect on the tables, and [in_txn] undoes the statements of a body that
    fails.  TEXT keys are their bytes, compared the way SQLite's binary collation
    and Rust's [Ord] compare them.  The engine itself does not fail here, except
    where a statement violates a primary key. *)

From stdpp Require Import base gmap list strings sorting relations.
From Stdlib Require Import ZArith Lia.
From S2P Require Import Prelude Bytes Manifest Digest Pack.
Import ResultIdentity.

Module Store.

Abbreviation text := (list Z).

Definition I64_MAX : Z := 2 ^ 63 - 1.

Inductive StoreError :=
  | Backend                          (* the engine's message is not modelled *)
  | AuthorityHeld (holder : text)
  | NotActiveAuthority
  | GenerationIdNotAboveHighWater
  | DuplicateAttempt
  | UnknownGeneration
  | UnknownLease
  | LeaseReleased
  | NonMonotonicRenewal
  | UnknownPin
  | PinOwnerMismatch
  | PinReleased
  | NonMonotonicPinRenewal
  | StaleOperatorReset
  | StalePeerAuthority
  | StaleWorkerIncarnation
  | StaleEdgeIncarnation
  | EdgeHandoffActive
  | AdoptionEdgeConflict
  | EdgeHandoffPredecessorMismatch
  | UnknownEdgeHandoff
  | NonMonotonicTrustEvaluation
  | DuplicateOperation
  | UnknownOperation
  | ManifestDivergence
  | AppendConflict (table : string)
  | UnknownMaterialization
  | StaleServingRevision
  | UnknownQuarantineReference
  | DomainNotInterned (dom : string)
  | Corruption (what : string).

Record PinRow := {
  root_key : text;
  owner : string;
  class : string;
  expires_at_seq : option Z; (* u64 *)
  released : bool;
  renewal_seq : Z;           (* u64 *)
}.

(** The columns of [pins] that [pin_row] does not read. *)
Record PinNote := { evidence : option string; pin_durable : bool; reason : string }.

Record location := {
  verified_seq : option Z; (* u64 *)
  encoding : string;
  quarantined : bool;
  loc_durable : bool;
}.

Record GcReceiptRow := {
  receipt_seq : Z; receipt_mode : string; receipt_planned : Z; receipt_reclaimed : Z;
  receipt_skipped : Z; receipt_truncated : bool;
}.

Record AuthorityRow := {
  auth_digest : TypedDigest;
  cluster_id : string;
  incarnation : Z;   (* u128 *)
  term : Z;          (* u64 *)
  acquired_seq : Z;  (* u64 *)
}.

Record store := {
  locations : gmap (text * text) location;     (* object_locations *)
  edges : gset (text * text * string);         (* object_edges *)
  pins : gmap Z (PinRow * PinNote);
  tombstones : gmap (text * text) (Z * Z);     (* gc_tombstones: marked, grace until *)
  gc_runs : list (Z * Z * Z * Z);
  gc_receipts : list GcReceiptRow;
  authorities : gmap text (AuthorityRow * bool); (* coordinator_authorities: row, released *)
  domains : gset string;                       (* interned digest domains of this process *)
}.

Definition with_locations v s :=
  {| locations := v; edges := edges s; pins := pins s; tombstones := tombstones s;
     gc_runs := gc_runs s; gc_receipts := gc_receipts s; authorities := authorities s;
     domains := domains s |}.
Definition with_edges v s :=
  {| locations := locations s; edges := v; pins := pins s; tombstones := tombstones s;
     gc_runs := gc_runs s; gc_receipts := gc_receipts s; authorities := authorities s;
     domains := domains s |}.
Definition with_pins v s :=
  {| locations := locations s; edges := edges s; pins := v; tombstones := tombstones s;
     gc_runs := gc_runs s; gc_receipts := gc_receipts s; authorities := authorities s;
     domains := domains s |}.
Definition with_tombstones v s :=
  {| locations := locations s; edges := edges s; pins := pins s; tombstones := v;
     gc_runs := gc_runs s; gc_receipts := gc_receipts s; authorities := authorities s;
     domains := domains s |}.
Definition with_gc_runs v s :=
  {| locations := locations s; edges := edges s; pins := pins s; tombstones := tombstones s;
     gc_runs := v; gc_receipts := gc_receipts s; authorities := authorities s;
     domains := domains s |}.
Definition with_gc_receipts v s :=
  {| locations := locations s; edges := edges s; pins := pins s; tombstones := tombstones s;
     gc_runs := gc_runs s; gc_receipts := v; authorities := authorities s;
     domains := domains s |}.
Definition with_authorities v s :=
  {| locations := locations s; edges := edges s; pins := pins s; tombstones := tombstones s;
     gc_runs := gc_runs s; gc_receipts := gc_receipts s; authorities := v;
     domains := domains s |}.
Definition with_domains v s :=
  {| locations := locations s; edges := edges s; pins := pins s; tombstones := tombstones s;
     gc_runs := gc_runs s; gc_receipts := gc_receipts s; authorities := authorities s;
     domains := v |}.

Definition empty_store : store :=
  {| locations := ∅; edges := ∅; pins := ∅; tombstones := ∅; gc_runs := []; gc_receipts := [];
     authorities := ∅; domains := ∅ |}.

Abbreviation db := (method store StoreError).

(** A transaction: what a failing body did is rolled back. *)
Definition in_txn {A} (body : db A) : db A := fun s =>
  match body s with
  | (Ok a, s') => (Ok a, s')
  | (Err e, _) => (Err e, s)
  end.

(** [i64::try_from(v).map_err(..)] with the name of the column. *)
Definition to_i64 (what : string) (v : Z) : result StoreError Z :=
  if I64_MAX <? v then Err (Corruption (what +:+ " out of range")) else Ok v.

(** ** Locations and edges *)

Definition add_location (object : TypedDigest) (path : text) (verified : option Z)
    (enc : string) (durable : bool) : db unit :=
  v ← lift_result match verified with
                  | None => Ok None
                  | Some v => Some <$> to_i64 "verified_seq" v
                  end;
  in_txn (modify (fun s =>
    with_locations (<[(Pack.digest_key object, path) :=
      {| verified_seq := v; encoding := enc; quarantined := false; loc_durable := durable |}]>
      (locations s)) s)).

Definition set_location_quarantined (object : TypedDigest) (path : text) (q : bool) : db unit :=
  in_txn (fun s =>
    match locations s !! (Pack.digest_key object, path) with
    | None => (Err (Corruption "unknown location"), s)
    | Some l =>
        (Ok tt, with_locations (<[(Pack.digest_key object, path) :=
           {| verified_seq := verified_seq l; encoding := encoding l; quarantined := q;
              loc_durable := loc_durable l |}]> (locations s)) s)
    end).

Definition add_object_edge (parent child : TypedDigest) (kind : string) : db unit :=
  in_txn (modify (fun s =>
    with_edges ({[(Pack.digest_key parent, Pack.digest_key child, kind)]} ∪ edges s) s)).

Definition remove_location_by_key (object_key path : text) : db bool :=
  in_txn (fun s =>
    (Ok (bool_decide (is_Some (locations s !! (object_key, path)))),
     with_locations (delete (object_key, path) (locations s)) s)).

(** ** Pins *)

Definition create_pin (id : Z) (root : TypedDigest) (own cls : string) (expires : option Z)
    (ev : option string) (durable : bool) (why : string) : db unit :=
  exp ← lift_result match expires with
                    | None => Ok None
                    | Some v => Some <$> to_i64 "expires_at_seq" v
                    end;
  in_txn (fun s =>
    match pins s !! id with
    | Some _ => (Err Backend, s)
    | None =>
        (Ok tt, with_pins (<[id :=
          ({| root_key := Pack.digest_key root; owner := own; class := cls;
              expires_at_seq := exp; released := false; renewal_seq := 0 |},
           {| evidence := ev; pin_durable := durable; reason := why |})]> (pins s)) s)
    end).

Definition pin_row (id : Z) : db (option PinRow) := fun s => (Ok (fst <$> pins s !! id), s).

Definition renew_pin (id : Z) (renewal : Z) : db unit :=
  in_txn (fun s =>
    match pins s !! id with
    | None => (Err UnknownPin, s)
    | Some (p, note) =>
        if released p then (Err PinReleased, s)
        else if renewal <=? renewal_seq p then (Err NonMonotonicPinRenewal, s)
        else match to_i64 "renewal_seq" renewal with
             | Err e => (Err e, s)
             | Ok r =>
                 (Ok tt, with_pins (<[id :=
                   ({| root_key := root_key p; owner := owner p; class := class p;
                       expires_at_seq := expires_at_seq p; released := released p;
                       renewal_seq := r |}, note)]> (pins s)) s)
             end
    end).

Definition set_released (p : PinRow) : PinRow :=
  {| root_key := root_key p; owner := owner p; class := class p;
     expires_at_seq := expires_at_seq p; released := true; renewal_seq := renewal_seq p |}.

Definition release_pin (id : Z) (own : string) : db unit :=
  in_txn (fun s =>
    match pins s !! id with
    | None => (Err UnknownPin, s)
    | Some (p, note) =>
        if bool_decide (owner p = own)
        then (Ok tt, with_pins (<[id := (set_released p, note)]> (pins s)) s)
        else (Err PinOwnerMismatch, s)
    end).

(** ** Coordinator authority *)

Definition unreleased (s : store) : list (text * (AuthorityRow * bool)) :=
  filter (fun r => snd (snd r) = false) (map_to_list (authorities s)).

Definition active_authority_key : db (option text) := fun s =>
  (match unreleased s with
   | [] => Ok None
   | [(k, _)] => Ok (Some k)
   | _ => Err (Corruption "more than one active authority")
   end, s).

Definition intern (dom : string) (s : store) : store := with_domains ({[dom]} ∪ domains s) s.

Definition acquire_authority (row : AuthorityRow) : db unit :=
  _ ← modify (intern (domain (auth_digest row)));
  t ← lift_result (to_i64 "term" (term row));
  a ← lift_result (to_i64 "acquired_seq" (acquired_seq row));
  in_txn (
    active ← active_authority_key;
    match active with
    | Some k => if bool_decide (k = Pack.digest_key (auth_digest row)) then mret tt
                else throw (AuthorityHeld k)
    | None =>
        modify (fun s => with_authorities
          (<[Pack.digest_key (auth_digest row) :=
             ({| auth_digest := auth_digest row; cluster_id := cluster_id row;
                 incarnation := incarnation row; term := t; acquired_seq := a |}, false)]>
           (authorities s)) s)
    end).

Definition release_authority (d : TypedDigest) : db unit :=
  in_txn (modify (fun s =>
    with_authorities (alter (fun r => (fst r, true)) (Pack.digest_key d) (authorities s)) s)).

Definition active_authority : db (option AuthorityRow) := fun s =>
  (match unreleased s with
   | [] => Ok None
   | [(_, (row, _))] =>
       if bool_decide (domain (auth_digest row) ∈ domains s) then Ok (Some row)
       else Err (DomainNotInterned (domain (auth_digest row)))
   | _ => Err (Corruption "more than one active authority")
   end, s).

(** ** What the collector reads *)

Definition text_leb (a b : text) : bool :=
  match bytes_cmp a b with Gt => false | _ => true end.

Definition pair_leb (a b : text * text) : bool :=
  match bytes_cmp (fst a) (fst b) with Lt => true | Eq => text_leb (snd a) (snd b) | Gt => false end.

Record GcSnapshot := {
  pinned_roots : list text;
  located_objects : list text;
  reachable_from_pins : list text;
}.

Definition edge_leb (a b : text * text * string) : bool := pair_leb (fst a) (fst b).

(** The rows of [object_edges], by parent and child. *)
Definition edge_rows (s : store) : list (text * text) :=
  fst <$> sort_by edge_leb (elements (edges s)).

(** [children.entry(parent).or_default().push(child)] over the rows. *)
Definition children_of (rows : list (text * text)) : gmap text (list text) :=
  fold_left (fun m r => <[fst r := default [] (m !! fst r) ++ [snd r]]> m) rows ∅.

(** The worklist; the stack's top is the head of the list. *)
Fixpoint close (fuel : nat) (children : gmap text (list text)) (frontier : list text)
    (reachable : gset text) : option (gset text) :=
  match fuel with
  | O => None
  | S fuel =>
      match frontier with
      | [] => Some reachable
      | k :: frontier =>
          if bool_decide (k ∈ reachable) then close fuel children frontier reachable
          else close fuel children (reverse (default [] (children !! k)) ++ frontier)
                 ({[k]} ∪ reachable)
      end
  end.

(** One round per pop, and every root and every edge is pushed at most once. *)
Definition closure (rows : list (text * text)) (roots : list text) : gset text :=
  default ∅ (close (S (length roots + length rows)) (children_of rows) (reverse roots) ∅).

Definition gc_snapshot (seq : Z) : db GcSnapshot :=
  n ← lift_result (to_i64 "seq" seq);
  in_txn (fun s =>
    let pinned :=
      sort_by text_leb ((fun p => root_key (fst (snd p)))
        <$> filter (fun p => released (fst (snd p)) = false) (map_to_list (pins s))) in
    let located :=
      sort_by text_leb (elements (set_map fst (dom (locations s)) : gset text)) in
    let rows := edge_rows s in
    let reachable :=
      sort_by text_leb (elements (closure rows pinned)) in
    (Ok {| pinned_roots := pinned; located_objects := located;
           reachable_from_pins := reachable |},
     with_gc_runs (gc_runs s ++ [(n, Z.of_nat (length pinned), Z.of_nat (length located),
                                  Z.of_nat (length reachable))]) s)).

(** The keys of the location rows, by object and path. *)
Definition reconciliation_scan : db (list ((text * text) * location)) := fun s =>
  (Ok (sort_by (fun a b => pair_leb (fst a) (fst b)) (map_to_list (locations s))), s).

(** ** Tombstones and receipts *)

Definition add_gc_tombstone (object_key path : text) (marked grace : Z) : db unit :=
  m ← lift_result (to_i64 "marked_seq" marked);
  g ← lift_result (to_i64 "grace_until_seq" grace);
  in_txn (fun s =>
    match tombstones s !! (object_key, path) with
    | Some _ => (Ok tt, s)
    | None => (Ok tt, with_tombstones (<[(object_key, path) := (m, g)]> (tombstones s)) s)
    end).

Definition due_gc_tombstones (now_seq : Z) : db (list ((text * text) * (Z * Z))) := fun s =>
  (Ok (sort_by (fun a b => pair_leb (fst a) (fst b))
         (filter (fun t => snd (snd t) <= Z.min now_seq I64_MAX) (map_to_list (tombstones s)))), s).

Definition remove_gc_tombstone (object_key path : text) : db bool :=
  in_txn (fun s =>
    (Ok (bool_decide (is_Some (tombstones s !! (object_key, path)))),
     with_tombstones (delete (object_key, path) (tombstones s)) s)).

Definition record_gc_receipt (r : GcReceiptRow) : db unit :=
  _ ← lift_result (to_i64 "seq" (receipt_seq r));
  _ ← lift_result (to_i64 "planned" (receipt_planned r));
  _ ← lift_result (to_i64 "reclaimed" (receipt_reclaimed r));
  _ ← lift_result (to_i64 "skipped" (receipt_skipped r));
  in_txn (modify (fun s => with_gc_receipts (gc_receipts s ++ [r]) s)).

(** ** The order of rows *)

Lemma text_leb_trans a b d : text_leb a b = true -> text_leb b d = true -> text_leb a d = true.
Proof.
  unfold text_leb. destruct (bytes_cmp a b) eqn:Hab; [|intros _|done].
  - by apply bytes_cmp_eq in Hab as ->.
  - destruct (bytes_cmp b d) eqn:Hbd; [|intros _|done].
    + apply bytes_cmp_eq in Hbd as ->. by rewrite Hab.
    + by rewrite (bytes_cmp_trans a b d).
Qed.

Lemma text_leb_total a b : text_leb a b = false -> text_leb b a = true.
Proof. unfold text_leb. rewrite (bytes_cmp_antisym a b). by destruct (bytes_cmp a b). Qed.

Lemma pair_leb_trans a b d : pair_leb a b = true -> pair_leb b d = true -> pair_leb a d = true.
Proof.
  unfold pair_leb. destruct (bytes_cmp (fst a) (fst b)) eqn:Hab; [|intros _|done].
  - apply bytes_cmp_eq in Hab as ->.
    destruct (bytes_cmp (fst b) (fst d)); [apply text_leb_trans|done|done].
  - destruct (bytes_cmp (fst b) (fst d)) eqn:Hbd; [intros _|intros _|done].
    + apply bytes_cmp_eq in Hbd as <-. by rewrite Hab.
    + by rewrite (bytes_cmp_trans _ _ _ Hab Hbd).
Qed.

Lemma pair_leb_total a b : pair_leb a b = false -> pair_leb b a = true.
Proof.
  unfold pair_leb. rewrite (bytes_cmp_antisym (fst a) (fst b)).
  destruct (bytes_cmp (fst a) (fst b)); cbn; [apply text_leb_total|done|done].
Qed.

(** ** The closure is reachability *)

(** An object edge, whatever its kind. *)
Definition edge (s : store) (a b : text) : Prop := exists kind, (a, b, kind) ∈ edges s.

(** Reachable from the root of an unreleased pin. *)
Definition preserved (s : store) (k : text) : Prop :=
  exists id p note, pins s !! id = Some (p, note) /\ released p = false
    /\ rtc (edge s) (root_key p) k.

Lemma elem_of_edge_rows s a b : (a, b) ∈ edge_rows s <-> edge s a b.
Proof.
  unfold edge_rows, edge. rewrite list_elem_of_fmap. split.
  - intros ([ab kind] & -> & Hin). rewrite sort_by_perm in Hin.
    apply elem_of_elements in Hin. by exists kind.
  - intros [kind Hin]. exists (a, b, kind). split; [done|].
    rewrite sort_by_perm. by apply elem_of_elements.
Qed.

Lemma children_of_spec rows k :
  default [] (children_of rows !! k) = snd <$> filter (fun r => fst r = k) rows.
Proof.
  unfold children_of.
  set (push := fun (m : gmap text (list text)) (r : text * text) =>
                 <[fst r := default [] (m !! fst r) ++ [snd r]]> m).
  assert (forall m, default [] (fold_left push rows m !! k)
                    = default [] (m !! k) ++ (snd <$> filter (fun r => fst r = k) rows)) as H.
  { induction rows as [|[a b] rows IH]; intros m; cbn [fold_left]; [by rewrite app_nil_r|].
    rewrite IH. unfold push. cbn [fst snd]. rewrite filter_cons. cbn [fst].
    destruct (decide (a = k)) as [->|Hne].
    - rewrite lookup_insert_eq. cbn. by rewrite <- app_assoc.
    - by rewrite lookup_insert_ne. }
  rewrite H. by rewrite lookup_empty.
Qed.

Section close.
Context (rows : list (text * text)).

Let R (a b : text) : Prop := (a, b) ∈ rows.
Let ch (k : text) : list text := default [] (children_of rows !! k).

Lemma elem_of_children a b : b ∈ ch a <-> R a b.
Proof.
  unfold ch, R. rewrite children_of_spec, list_elem_of_fmap. split.
  - intros ([x y] & -> & [Hx Hin]%list_elem_of_filter). cbn in *. by subst.
  - intros Hin. exists (a, b). by rewrite list_elem_of_filter.
Qed.

(** The rows not yet pushed. *)
Let unseen (reach : gset text) : list (text * text) := filter (fun r => fst r ∉ reach) rows.

Lemma unseen_insert k reach :
  k ∉ reach -> length (unseen reach) = (length (ch k) + length (unseen ({[k]} ∪ reach)))%nat.
Proof.
  intros Hk. unfold unseen, ch. rewrite children_of_spec, length_fmap.
  clear R ch unseen. induction rows as [|[a b] l IH]; [done|]. rewrite !filter_cons. cbn [fst].
  destruct (decide (a = k)) as [->|Hne].
  - rewrite (decide_True (P := k ∉ reach)) by done.
    rewrite (decide_False (P := k ∉ {[k]} ∪ reach)) by set_solver. cbn [length]. lia.
  - destruct (decide (a ∈ reach)).
    + rewrite !(decide_False (P := a ∉ _)) by set_solver. done.
    + rewrite !(decide_True (P := a ∉ _)) by set_solver. cbn [length]. lia.
Qed.

Lemma close_total fuel frontier reach :
  (length frontier + length (unseen reach) < fuel)%nat ->
  is_Some (close fuel (children_of rows) frontier reach).
Proof.
  revert frontier reach. induction fuel as [|fuel IH]; intros frontier reach Hf; [lia|].
  destruct frontier as [|k frontier]; cbn [close]; [eauto|]. cbn [length] in Hf.
  case_bool_decide as Hk; apply IH; [lia|].
  pose proof (unseen_insert k reach Hk) as Hu. fold (ch k).
  rewrite length_app, length_reverse. lia.
Qed.

Lemma close_spec fuel frontier reach res :
  (forall a b, a ∈ reach -> R a b -> b ∈ reach \/ b ∈ frontier) ->
  close fuel (children_of rows) frontier reach = Some res ->
  reach ⊆ res /\ (forall k, k ∈ frontier -> k ∈ res)
  /\ (forall a b, a ∈ res -> R a b -> b ∈ res)
  /\ (forall k, k ∈ res -> k ∈ reach \/ exists r, r ∈ frontier /\ rtc R r k).
Proof.
  revert frontier reach. induction fuel as [|fuel IH]; intros frontier reach Hinv; [done|].
  destruct frontier as [|k frontier]; cbn [close].
  { intros [= <-]. split_and!; try done; [by intros ? ?%elem_of_nil| |auto].
    intros a b Ha Hab. destruct (Hinv a b Ha Hab) as [|?%elem_of_nil]; done. }
  case_bool_decide as Hk; intros Hres.
  - destruct (IH frontier reach) as (H1 & H2 & H3 & H4); [|done|].
    { intros a b Ha Hab. destruct (Hinv a b Ha Hab) as [|[->|]%elem_of_cons]; auto. }
    split_and!; try done.
    + intros x [->|]%elem_of_cons; auto.
    + intros x Hx. destruct (H4 x Hx) as [|(r & ? & ?)]; [auto|].
      right. exists r. by rewrite elem_of_cons; auto.
  - fold (ch k) in Hres.
    destruct (IH (reverse (ch k) ++ frontier) ({[k]} ∪ reach)) as (H1 & H2 & H3 & H4); [|done|].
    { intros a b [->%elem_of_singleton|Ha]%elem_of_union Hab.
      - right. apply elem_of_app. left. apply elem_of_reverse. by apply elem_of_children.
      - destruct (Hinv a b Ha Hab) as [|[->|]%elem_of_cons]; [set_solver..|].
        right. apply elem_of_app. auto. }
    split_and!; try done.
    + set_solver.
    + intros x [->|]%elem_of_cons; [set_solver|]. apply H2, elem_of_app. auto.
    + intros x Hx. destruct (H4 x Hx) as [[->%elem_of_singleton|?]%elem_of_union|(r & Hr & Hrx)].
      * right. exists k. split; [constructor|done].
      * auto.
      * right. apply elem_of_app in Hr as [Hr|Hr].
        -- exists k. split; [constructor|]. apply elem_of_reverse, elem_of_children in Hr.
           by eapply rtc_l.
        -- exists r. by rewrite elem_of_cons; auto.
Qed.

(** The worklist never runs out of fuel and returns exactly what its roots reach. *)
Lemma closure_spec roots k : k ∈ closure rows roots <-> exists r, r ∈ roots /\ rtc R r k.
Proof.
  unfold closure.
  destruct (close_total (S (length roots + length rows)) (reverse roots) ∅) as [res Hres].
  { rewrite length_reverse. enough (length (unseen ∅) <= length rows)%nat by lia.
    apply length_filter. }
  rewrite Hres. cbn [default].
  apply close_spec in Hres as (_ & H2 & H3 & H4); [|set_solver]. split.
  - intros Hk. destruct (H4 k Hk) as [|(r & Hr & ?)]; [set_solver|].
    exists r. by rewrite <- elem_of_reverse.
  - intros (r & Hr & Hrk). assert (r ∈ res) as Hin by (apply H2; by apply elem_of_reverse).
    clear Hr. induction Hrk; eauto.
Qed.

End close.

Lemma rtc_edge_rows s a b : rtc (fun a b => (a, b) ∈ edge_rows s) a b <-> rtc (edge s) a b.
Proof. split; apply rtc_subrel; intros ? ?; by rewrite elem_of_edge_rows. Qed.

Lemma with_gc_runs_preserved v s k : preserved (with_gc_runs v s) k <-> preserved s k.
Proof. done. Qed.

Lemma elem_of_pinned s r :
  r ∈ sort_by text_leb ((fun p => root_key (fst (snd p)))
        <$> filter (fun p => released (fst (snd p)) = false) (map_to_list (pins s)))
  <-> exists id p note, pins s !! id = Some (p, note) /\ released p = false /\ root_key p = r.
Proof.
  rewrite sort_by_perm, list_elem_of_fmap. split.
  - intros ([id [p note]] & -> & [Hr Hin]%list_elem_of_filter).
    apply elem_of_map_to_list in Hin. by exists id, p, note.
  - intros (id & p & note & Hp & Hr & <-). exists (id, (p, note)).
    by rewrite list_elem_of_filter, elem_of_map_to_list.
Qed.

(** The snapshot fails only on a sequence number the database cannot hold, changes
    nothing but its own log, and lists exactly the preserved objects. *)
Lemma gc_snapshot_ok seq s :
  match gc_snapshot seq s with
  | (Ok snap, s') =>
      seq <= I64_MAX /\ (exists runs, s' = with_gc_runs runs s)
      /\ (forall k, k ∈ reachable_from_pins snap <-> preserved s k)
      /\ (forall k, k ∈ pinned_roots snap -> preserved s k)
  | (Err _, s') => I64_MAX < seq /\ s' = s
  end.
Proof.
  unfold gc_snapshot, to_i64. unmonad. destruct (Z.ltb_spec I64_MAX seq); [done|].
  unfold in_txn. cbn zeta. cbn [pinned_roots reachable_from_pins].
  split_and!; [done|by eexists| |].
  - intros k. rewrite sort_by_perm, elem_of_elements, closure_spec. unfold preserved. split.
    + intros (r & (id & p & note & Hp & Hr & <-)%elem_of_pinned & Hk%rtc_edge_rows). eauto 10.
    + intros (id & p & note & Hp & Hr & Hk). exists (root_key p).
      rewrite elem_of_pinned, rtc_edge_rows. eauto 10.
  - intros k (id & p & note & Hp & Hr & <-)%elem_of_pinned. unfold preserved. eauto 10 using rtc_refl.
Qed.

End Store.
