(* ===== verification/Gc.v ===== *)
(** * Garbage collection and pin leases (rabs-cas/src/gc.rs, pin_leases.rs)

    [Gc] plans, executes, marks and unlinks over the tables of Store.v; [PinLeases]
    scopes the release of a pin and judges whether it still protects.  The last part
    puts both beside the other operations of the store and follows an object
    through any history of them. *)

From stdpp Require Import base gmap list strings sorting relations.
From Stdlib Require Import ZArith Lia.
From S2P Require Import Prelude Bytes Manifest Digest Pack Store.
Import ResultIdentity Store.

Module Gc.

Inductive GcMode := Normal | Emergency.

#[export] Instance GcMode_eq_dec : EqDecision GcMode.
Proof. solve_decision. Defined.

Definition mode_str (m : GcMode) : string :=
  match m with Normal => "normal" | Emergency => "emergency" end.

Inductive PolicyClass :=
  | ProvisionalStaging | CommittedResult | HotDependency | Toolchain | AuthoritativeEvidence.

Inductive ProtectionReason :=
  | PinnedOrReachable | ActiveBuild | Materialization | Transfer | OpenReader
  | EvidenceClass | AwaitingReconciliation | RetainedByPolicy | BudgetTruncated.

Record ActiveProtections := {
  active_builds : gset text;
  materializations : gset text;
  transfers : gset text;
  open_readers : gset text;
}.

Record ObjectPolicy := { policy_class : PolicyClass; last_use_seq : Z (* u64 *) }.

Record GcWorld := {
  protections : ActiveProtections;
  policies : gmap text ObjectPolicy;
  reconciliation_complete : bool;
  reclaim_budget : nat; (* usize *)
}.

(** Object key and store path. *)
Abbreviation LocationRef := (text * text)%type.

Record GcPlan := {
  mode : GcMode;
  reclaim : list LocationRef;
  protected : list (LocationRef * ProtectionReason);
  truncated : bool;
  seq : Z; (* u64 *)
}.

Record GcExecutionReceipt := {
  planned : nat;
  reclaimed : list LocationRef;
  skipped : list LocationRef;
}.

Definition default_policy : ObjectPolicy :=
  {| policy_class := CommittedResult; last_use_seq := 0 |}.

Definition eviction_layer (c : PolicyClass) : Z :=
  match c with
  | ProvisionalStaging => 0
  | CommittedResult => 1
  | HotDependency => 2
  | Toolchain => 3
  | AuthoritativeEvidence => 4
  end.

Definition protection_for (preserved : gset text) (world : GcWorld) (m : GcMode)
    (object_key : text) (policy : ObjectPolicy) : option ProtectionReason :=
  if bool_decide (object_key ∈ preserved) then Some PinnedOrReachable
  else if bool_decide (object_key ∈ active_builds (protections world)) then Some ActiveBuild
  else if bool_decide (object_key ∈ materializations (protections world)) then Some Materialization
  else if bool_decide (object_key ∈ transfers (protections world)) then Some Transfer
  else if bool_decide (object_key ∈ open_readers (protections world)) then Some OpenReader
  else
    match policy_class policy with
    | AuthoritativeEvidence => Some EvidenceClass
    | ProvisionalStaging =>
        if negb (reconciliation_complete world) then Some AwaitingReconciliation else None
    | HotDependency | Toolchain =>
        if bool_decide (m = Normal) then Some RetainedByPolicy else None
    | CommittedResult => None
    end.

Definition preserved_set (snapshot : GcSnapshot) : gset text :=
  list_to_set (pinned_roots snapshot ++ reachable_from_pins snapshot).

Definition policy_of (world : GcWorld) (object_key : text) : ObjectPolicy :=
  default default_policy (policies world !! object_key).

(** The loop over the scan: protected locations and candidates, in scan order. *)
Fixpoint judge (preserved : gset text) (world : GcWorld) (m : GcMode)
    (scan : list LocationRef)
    : list (LocationRef * ProtectionReason) * list (LocationRef * ObjectPolicy) :=
  match scan with
  | [] => ([], [])
  | l :: scan =>
      let (ps, cs) := judge preserved world m scan in
      let policy := policy_of world (fst l) in
      match protection_for preserved world m (fst l) policy with
      | Some reason => ((l, reason) :: ps, cs)
      | None => (ps, (l, policy) :: cs)
      end
  end.

(** The order of eviction: layer, last use, location. *)
Definition candidate_leb (a b : LocationRef * ObjectPolicy) : bool :=
  let la := eviction_layer (policy_class (snd a)) in
  let lb := eviction_layer (policy_class (snd b)) in
  if la <? lb then true
  else if lb <? la then false
  else if last_use_seq (snd a) <? last_use_seq (snd b) then true
  else if last_use_seq (snd b) <? last_use_seq (snd a) then false
  else pair_leb (fst a) (fst b).

Definition plan_gc (world : GcWorld) (m : GcMode) (n : Z) : db GcPlan :=
  snapshot ← gc_snapshot n;
  scan ← reconciliation_scan;
  let '(ps, cs) := judge (preserved_set snapshot) world m (fst <$> scan) in
  let candidates := fst <$> sort_by candidate_leb cs in
  mret {| mode := m;
          reclaim := take (reclaim_budget world) candidates;
          protected := ps ++ ((fun l => (l, BudgetTruncated))
                                <$> drop (reclaim_budget world) candidates);
          truncated := Nat.ltb (reclaim_budget world) (length candidates);
          seq := n |}.

Fixpoint reclaim_all (ls : list LocationRef) : db (list LocationRef * list LocationRef) :=
  match ls with
  | [] => mret ([], [])
  | l :: ls =>
      removed ← remove_location_by_key (fst l) (snd l);
      r ← reclaim_all ls;
      mret (if removed : bool then (l :: fst r, snd r) else (fst r, l :: snd r))
  end.

Definition execute_gc (plan : GcPlan) : db GcExecutionReceipt :=
  r ← reclaim_all (reclaim plan);
  _ ← record_gc_receipt
        {| receipt_seq := seq plan; receipt_mode := mode_str (mode plan);
           receipt_planned := Z.of_nat (length (reclaim plan));
           receipt_reclaimed := Z.of_nat (length (fst r));
           receipt_skipped := Z.of_nat (length (snd r));
           receipt_truncated := truncated plan |};
  mret {| planned := length (reclaim plan); reclaimed := fst r; skipped := snd r |}.

Record UnlinkReceipt := {
  unlinked : list LocationRef;
  rescued : list (LocationRef * ProtectionReason);
}.

Fixpoint mark_each (ls : list LocationRef) (marked grace : Z) : db unit :=
  match ls with
  | [] => mret tt
  | l :: ls => _ ← add_gc_tombstone (fst l) (snd l) marked grace; mark_each ls marked grace
  end.

Definition mark_plan (plan : GcPlan) (grace_windows : Z) : db nat :=
  _ ← mark_each (reclaim plan) (seq plan) (sat_add 64 (seq plan) grace_windows);
  mret (length (reclaim plan)).

Fixpoint unlink_each (preserved : gset text) (world : GcWorld) (m : GcMode)
    (due : list LocationRef) : db UnlinkReceipt :=
  match due with
  | [] => mret {| unlinked := []; rescued := [] |}
  | l :: due =>
      match protection_for preserved world m (fst l) (policy_of world (fst l)) with
      | Some reason =>
          _ ← remove_gc_tombstone (fst l) (snd l);
          r ← unlink_each preserved world m due;
          mret {| unlinked := unlinked r; rescued := (l, reason) :: rescued r |}
      | None =>
          _ ← remove_location_by_key (fst l) (snd l);
          _ ← remove_gc_tombstone (fst l) (snd l);
          r ← unlink_each preserved world m due;
          mret {| unlinked := l :: unlinked r; rescued := rescued r |}
      end
  end.

Definition unlink_due (world : GcWorld) (m : GcMode) (now_seq : Z) : db UnlinkReceipt :=
  due ← due_gc_tombstones now_seq;
  match due with
  | [] => mret {| unlinked := []; rescued := [] |}
  | _ =>
      snapshot ← gc_snapshot now_seq;
      unlink_each (preserved_set snapshot) world m (fst <$> due)
  end.

(** ** What may be collected *)

Definition in_use (world : GcWorld) (k : text) : Prop :=
  k ∈ active_builds (protections world) \/ k ∈ materializations (protections world)
  \/ k ∈ transfers (protections world) \/ k ∈ open_readers (protections world).

Definition evictable (world : GcWorld) (m : GcMode) (k : text) : Prop :=
  match policy_class (policy_of world k) with
  | AuthoritativeEvidence => False
  | ProvisionalStaging => reconciliation_complete world = true
  | HotDependency | Toolchain => m = Emergency
  | CommittedResult => True
  end.

(** Nothing pinned reaches the object, nobody uses it, and its class may go. *)
Definition collectable (s : store) (world : GcWorld) (m : GcMode) (k : text) : Prop :=
  ~ preserved s k /\ ~ in_use world k /\ evictable world m k.

Lemma protection_for_None P s world m k :
  (forall k, k ∈ P <-> preserved s k) ->
  protection_for P world m k (policy_of world k) = None <-> collectable s world m k.
Proof.
  intros HP. unfold protection_for, collectable, in_use, evictable. rewrite <- HP.
  do 5 (case_bool_decide; [split; [done|tauto]|]).
  destruct (policy_class (policy_of world k)).
  - destruct (reconciliation_complete world); cbn; naive_solver.
  - tauto.
  - destruct m; cbn; naive_solver.
  - destruct m; cbn; naive_solver.
  - naive_solver.
Qed.

Lemma preserved_set_spec n s :
  match gc_snapshot n s with
  | (Ok snap, s') => (exists runs, s' = with_gc_runs runs s)
      /\ forall k, k ∈ preserved_set snap <-> preserved s k
  | (Err _, s') => s' = s
  end.
Proof.
  pose proof (gc_snapshot_ok n s) as H. destruct (gc_snapshot n s) as [[snap|e] s']; [|tauto].
  destruct H as (_ & Hs & Hr & Hp). split; [done|]. intros k. unfold preserved_set.
  rewrite elem_of_list_to_set, elem_of_app, Hr. naive_solver.
Qed.

Lemma judge_spec P world m scan :
  let '(ps, cs) := judge P world m scan in
  ps.*1 ++ cs.*1 ≡ₚ scan
  /\ Forall (fun p => protection_for P world m (fst (fst p)) (policy_of world (fst (fst p)))
                      = Some (snd p)) ps
  /\ Forall (fun x => protection_for P world m (fst (fst x)) (policy_of world (fst (fst x))) = None
                      /\ snd x = policy_of world (fst (fst x))) cs.
Proof.
  induction scan as [|l scan IH]; cbn [judge]; [done|].
  destruct (judge P world m scan) as [ps cs]. destruct IH as (Hp & H1 & H2).
  destruct (protection_for P world m (fst l) _) as [reason|] eqn:Hr; cbn.
  - split_and!; [by rewrite Hp|by constructor|done].
  - split_and!; [|done|by constructor]. rewrite <- Hp. by rewrite Permutation_middle.
Qed.

Lemma candidate_leb_trans a b d :
  candidate_leb a b = true -> candidate_leb b d = true -> candidate_leb a d = true.
Proof.
  unfold candidate_leb. pose proof (pair_leb_trans (fst a) (fst b) (fst d)).
  repeat match goal with |- context [?x <? ?y] => destruct (Z.ltb_spec x y) end;
    auto; try done; lia.
Qed.

Lemma candidate_leb_total a b : candidate_leb a b = false -> candidate_leb b a = true.
Proof.
  unfold candidate_leb. pose proof (pair_leb_total (fst a) (fst b)).
  repeat match goal with |- context [?x <? ?y] => destruct (Z.ltb_spec x y) end;
    auto; try done; lia.
Qed.

(** [l] is evicted no later than [l']. *)
Definition evicted_before (world : GcWorld) (l l' : LocationRef) : Prop :=
  candidate_leb (l, policy_of world (fst l)) (l', policy_of world (fst l')) = true.

(** What the candidates of the plan are, in their order. *)
Lemma candidates_spec P world m scan :
  let cs := (judge P world m scan).2 in
  let sorted := fst <$> sort_by candidate_leb cs in
  sorted ≡ₚ cs.*1 /\ StronglySorted (evicted_before world) sorted.
Proof.
  intros cs sorted. split; [unfold sorted; by rewrite sort_by_perm|].
  pose proof (judge_spec P world m scan) as Hj. subst cs sorted.
  destruct (judge P world m scan) as [ps cs]. destruct Hj as (_ & _ & Hcs). cbn [snd].
  rewrite <- (sort_by_perm candidate_leb cs) in Hcs.
  pose proof (sort_by_sorted _ candidate_leb_trans candidate_leb_total cs) as Hs.
  induction Hs as [|x l Hs IH Hall]; cbn; constructor.
  - apply IH. by apply Forall_cons_1 in Hcs as [_ ?].
  - apply Forall_cons_1 in Hcs as [[_ Hx] Hcs].
    apply Forall_fmap. rewrite Forall_forall in Hall, Hcs |- *. intros y Hy.
    cbn. unfold evicted_before. specialize (Hall y Hy). destruct (Hcs y Hy) as [_ Hy'].
    destruct x, y; cbn in *. by subst.
Qed.

(** A plan that judges the locations of the store safely, completely and in order. *)
Record judged (world : GcWorld) (m : GcMode) (s : store) (plan : GcPlan) : Prop := {
  judged_once : reclaim plan ++ (protected plan).*1 ≡ₚ (map_to_list (locations s)).*1;
  judged_safe : forall l, l ∈ reclaim plan -> collectable s world m (fst l);
  judged_spared : forall l r, (l, r) ∈ protected plan -> collectable s world m (fst l) ->
    r = BudgetTruncated /\ length (reclaim plan) = reclaim_budget world
    /\ truncated plan = true /\ forall l', l' ∈ reclaim plan -> evicted_before world l' l;
  judged_budget : (length (reclaim plan) <= reclaim_budget world)%nat;
  judged_order : StronglySorted (evicted_before world) (reclaim plan);
}.

Lemma plan_gc_judged world m n s :
  match plan_gc world m n s with
  | (Err _, s') => s' = s
  | (Ok plan, s') => (exists runs, s' = with_gc_runs runs s) /\ judged world m s plan
  end.
Proof.
  unfold plan_gc. unmonad. pose proof (preserved_set_spec n s) as Hsnap.
  destruct (gc_snapshot n s) as [[snap|e] s1]; [|done]. destruct Hsnap as [[runs ->] HP].
  unfold reconciliation_scan. cbn [locations with_gc_runs].
  set (scan := fst <$> sort_by _ (map_to_list (locations s))).
  assert (scan ≡ₚ (map_to_list (locations s)).*1) as Hscan
    by (unfold scan; by rewrite sort_by_perm).
  pose proof (judge_spec (preserved_set snap) world m scan) as Hj.
  pose proof (candidates_spec (preserved_set snap) world m scan) as Hc.
  destruct (judge (preserved_set snap) world m scan) as [ps cs]. cbn [snd] in Hc.
  destruct Hj as (Hperm & Hps & Hcs), Hc as [Hsp Hss].
  set (sorted := fst <$> sort_by candidate_leb cs) in *.
  rewrite <- (take_drop (reclaim_budget world) sorted) in Hss.
  apply StronglySorted_app in Hss as (Hbetween & Hst & _).
  assert (forall l, l ∈ sorted -> collectable s world m (fst l)) as Hcol.
  { intros l Hl. rewrite Hsp in Hl. apply list_elem_of_fmap in Hl as (x & -> & Hx).
    rewrite Forall_forall in Hcs. destruct (Hcs x Hx) as [Hn _].
    by apply (protection_for_None (preserved_set snap)). }
  split; [by eexists|]. split; cbn [reclaim protected truncated].
  - assert (forall xs : list LocationRef, ((fun l => (l, BudgetTruncated)) <$> xs).*1 = xs) as Hfst
      by (induction xs; cbn; congruence).
    rewrite fmap_app, Hfst, <- Hscan, <- Hperm, <- Hsp.
    rewrite <- (take_drop (reclaim_budget world) sorted) at 3.
    by rewrite !app_assoc, (Permutation_app_comm (take _ _)).
  - intros l Hl. apply Hcol. rewrite <- (take_drop (reclaim_budget world) sorted). set_solver.
  - intros l r [Hl|Hl]%elem_of_app Hcoll.
    + rewrite Forall_forall in Hps. specialize (Hps _ Hl). cbn in Hps.
      apply (protection_for_None (preserved_set snap)) in Hcoll; [|done]. congruence.
    + apply list_elem_of_fmap in Hl as (l0 & [= -> ->] & Hl).
      assert (reclaim_budget world < length sorted)%nat.
      { destruct (decide (length sorted <= reclaim_budget world)%nat) as [Hle|]; [|lia].
        rewrite drop_ge in Hl by done. by apply elem_of_nil in Hl. }
      split_and!; [done|rewrite length_take; lia|by apply Nat.ltb_lt|].
      intros l' Hl'. by apply Hbetween.
  - rewrite length_take. lia.
  - done.
Qed.

(** A plan is a safe, complete and ordered judgment of the store.  It changes
    nothing but the snapshot log; every location of the store is in it exactly once,
    to be reclaimed or protected; only collectable objects are reclaimed, that is
    objects no unreleased pin reaches, nobody uses, and whose class may go in this
    mode; the others are protected; a collectable one is spared only for the budget,
    which is used up in that case; and eviction follows the layers, then last use,
    with everything spared coming after everything reclaimed. *)
Theorem plan_gc_spec world m n s :
  match plan_gc world m n s with
  | (Err _, s') => s' = s
  | (Ok plan, s') => (exists runs, s' = with_gc_runs runs s) /\ judged world m s plan
  end.
Proof. apply plan_gc_judged. Qed.

(** The tables a collection leaves alone. *)
Definition same_roots (s s' : store) : Prop := pins s' = pins s /\ edges s' = edges s.

Lemma reclaim_all_spec ls s :
  exists rec skp locs,
    reclaim_all ls s = (Ok (rec, skp), with_locations locs s)
    /\ (forall l, locs !! l = if decide (l ∈ ls) then None else locations s !! l)
    /\ rec ++ skp ≡ₚ ls /\ (forall l, l ∈ rec -> is_Some (locations s !! l))
    /\ (NoDup ls -> forall l, l ∈ skp -> locations s !! l = None).
Proof.
  revert s. induction ls as [|l ls IH]; intros s.
  { exists [], [], (locations s). split_and!; try done; [by destruct s|set_solver..]. }
  cbn [reclaim_all]. unfold remove_location_by_key, in_txn. unmonad.
  rewrite <- !surjective_pairing.
  destruct (IH (with_locations (delete l (locations s)) s)) as (rec & skp & locs & Hr & Hl & Hp & Hrec & Hskp).
  rewrite Hr. cbn [locations with_locations fst snd] in *.
  assert (forall x, locs !! x = if decide (x ∈ l :: ls) then None else locations s !! x) as Hlocs.
  { intros x. rewrite Hl. destruct (decide (x = l)) as [->|Hne].
    - rewrite lookup_delete_eq. repeat case_decide; set_solver.
    - rewrite lookup_delete_ne by done. repeat case_decide; set_solver. }
  assert (forall x, x ∈ rec -> is_Some (locations s !! x)) as Hin.
  { intros x [_ ?]%Hrec%lookup_delete_is_Some. done. }
  assert (NoDup (l :: ls) -> forall x, x ∈ skp -> locations s !! x = None) as Hno.
  { intros [Hni Hnd]%NoDup_cons x Hx. pose proof (Hskp Hnd x Hx) as Hd.
    apply lookup_delete_None in Hd as [<-|]; [|done].
    exfalso. apply Hni. rewrite <- Hp. set_solver. }
  case_bool_decide as Hsome.
  - exists (l :: rec), skp, locs. split_and!; try done.
    + cbn. by rewrite Hp.
    + intros x [->|]%elem_of_cons; auto.
  - exists rec, (l :: skp), locs. split_and!; try done.
    + by rewrite <- Permutation_middle, Hp.
    + intros Hnd x [->|Hx]%elem_of_cons; [by apply eq_None_not_Some|auto].
Qed.

Lemma execute_gc_tables plan s :
  let '(r, s') := execute_gc plan s in
  (forall l, locations s' !! l = if decide (l ∈ reclaim plan) then None else locations s !! l)
  /\ same_roots s s'.
Proof.
  unfold execute_gc. unmonad.
  destruct (reclaim_all_spec (reclaim plan) s) as (rec & skp & locs & -> & Hl & _).
  unfold record_gc_receipt, to_i64, in_txn. unmonad. repeat (case_match; simplify_eq); done.
Qed.

(** Executing a plan removes exactly the planned locations and accounts for each
    of them: the pins, edges and tombstones stay, the receipt splits the plan into
    what was there and what was already gone, and its counts are the row recorded. *)
Theorem execute_gc_spec plan s :
  let '(r, s') := execute_gc plan s in
  (forall l, locations s' !! l = if decide (l ∈ reclaim plan) then None else locations s !! l)
  /\ same_roots s s' /\ tombstones s' = tombstones s
  /\ (forall rc, r = Ok rc ->
        reclaimed rc ++ skipped rc ≡ₚ reclaim plan
        /\ (forall l, l ∈ reclaimed rc -> is_Some (locations s !! l))
        /\ (NoDup (reclaim plan) -> forall l, l ∈ skipped rc -> locations s !! l = None)
        /\ gc_receipts s' = gc_receipts s ++
             [{| receipt_seq := seq plan; receipt_mode := mode_str (mode plan);
                 receipt_planned := Z.of_nat (planned rc);
                 receipt_reclaimed := Z.of_nat (length (reclaimed rc));
                 receipt_skipped := Z.of_nat (length (skipped rc));
                 receipt_truncated := truncated plan |}]).
Proof.
  unfold execute_gc. unmonad.
  destruct (reclaim_all_spec (reclaim plan) s) as (rec & skp & locs & -> & Hl & Hp & Hrec & Hskp).
  unfold record_gc_receipt, to_i64, in_txn. unmonad. cbn [fst snd].
  repeat (case_match; simplify_eq);
    (split; [exact Hl|]; split; [done|]; split; [done|]; intros rc Hrc; simplify_eq/=; done).
Qed.

(** ** Unlinking *)

(** A tombstone whose grace window has elapsed. *)
Definition due (s : store) (now : Z) (l : LocationRef) : Prop :=
  exists marked grace, tombstones s !! l = Some (marked, grace) /\ grace <= Z.min now I64_MAX.

Lemma due_gc_tombstones_spec now s :
  exists rows, due_gc_tombstones now s = (Ok rows, s) /\ forall l, l ∈ rows.*1 <-> due s now l.
Proof.
  eexists. split; [done|]. intros l. rewrite list_elem_of_fmap. split.
  - intros ([l' [mk g]] & -> & Hin). rewrite sort_by_perm in Hin.
    apply list_elem_of_filter in Hin as [Hg Hin%elem_of_map_to_list]. by exists mk, g.
  - intros (mk & g & Ht & Hg). exists (l, (mk, g)). split; [done|].
    rewrite sort_by_perm, list_elem_of_filter, elem_of_map_to_list. done.
Qed.

Lemma unlink_each_spec P world m ls s :
  let gone l := protection_for P world m (fst l) (policy_of world (fst l)) in
  exists r locs tombs,
    unlink_each P world m ls s = (Ok r, with_tombstones tombs (with_locations locs s))
    /\ (forall l, tombs !! l = if decide (l ∈ ls) then None else tombstones s !! l)
    /\ (forall l, locs !! l = if decide (l ∈ ls /\ gone l = None) then None else locations s !! l)
    /\ (forall l, l ∈ unlinked r <-> l ∈ ls /\ gone l = None)
    /\ (forall l reason, (l, reason) ∈ rescued r <-> l ∈ ls /\ gone l = Some reason).
Proof.
  intros gone. revert s. induction ls as [|l ls IH]; intros s.
  { eexists {| unlinked := []; rescued := [] |}, (locations s), (tombstones s).
    split_and!; [by destruct s|set_solver..]. }
  cbn [unlink_each]. fold (gone l). unfold remove_gc_tombstone, remove_location_by_key, in_txn.
  destruct (gone l) as [reason|] eqn:Hg; unmonad; rewrite <- !surjective_pairing; cbn [locations tombstones with_locations].
  - destruct (IH (with_tombstones (delete l (tombstones s)) s))
      as (r & locs & tombs & -> & Ht & Hl & Hu & Hr).
    eexists {| unlinked := unlinked r; rescued := (l, reason) :: rescued r |}, locs, tombs.
    cbn [locations tombstones with_tombstones unlinked rescued] in *. split_and!.
    + done.
    + intros x. rewrite Ht, lookup_delete. repeat case_decide; set_solver.
    + intros x. rewrite Hl. repeat case_decide; set_solver.
    + intros x. rewrite Hu. set_solver.
    + intros x w. rewrite elem_of_cons, Hr. set_solver.
  - destruct (IH (with_tombstones (delete l (tombstones s)) (with_locations (delete l (locations s)) s)))
      as (r & locs & tombs & -> & Ht & Hl & Hu & Hr).
    eexists {| unlinked := l :: unlinked r; rescued := rescued r |}, locs, tombs.
    cbn [locations tombstones with_tombstones with_locations unlinked rescued] in *. split_and!.
    + done.
    + intros x. rewrite Ht, lookup_delete. repeat case_decide; set_solver.
    + intros x. rewrite Hl, lookup_delete. repeat case_decide; set_solver.
    + intros x. rewrite elem_of_cons, Hu. set_solver.
    + intros x w. rewrite Hr. set_solver.
Qed.

(** An unlink pass that rechecked and settled every due tombstone. *)
Record settled (world : GcWorld) (m : GcMode) (now : Z) (s s' : store) (r : UnlinkReceipt)
    : Prop := {
  settled_unlinked : forall l, l ∈ unlinked r <-> due s now l /\ collectable s world m (fst l);
  settled_rescued :
    forall l, l ∈ (rescued r).*1 <-> due s now l /\ ~ collectable s world m (fst l);
  settled_gone : forall l, l ∈ unlinked r -> locations s' !! l = None;
  settled_kept : forall l, l ∉ unlinked r -> locations s' !! l = locations s !! l;
  settled_due : forall l, due s now l -> tombstones s' !! l = None;
  settled_waiting : forall l, ~ due s now l -> tombstones s' !! l = tombstones s !! l;
}.

Lemma unlink_due_settled world m now s :
  match unlink_due world m now s with
  | (Err _, s') => s' = s
  | (Ok r, s') => same_roots s s' /\ settled world m now s s' r
  end.
Proof.
  unfold unlink_due. unmonad. destruct (due_gc_tombstones_spec now s) as (rows & -> & Hdue).
  destruct rows as [|row rows].
  { cbn in *. assert (forall l, ~ due s now l) as Hno by (intros l; rewrite <- Hdue; set_solver).
    split; [done|]. split; cbn; try done; set_solver. }
  pose proof (preserved_set_spec now s) as Hsnap.
  destruct (gc_snapshot now s) as [[snap|e] s1]; [|done]. destruct Hsnap as [[runs ->] HP].
  destruct (unlink_each_spec (preserved_set snap) world m (row :: rows).*1 (with_gc_runs runs s))
    as (r & locs & tombs & -> & Ht & Hl & Hu & Hr).
  cbn [locations tombstones with_gc_runs with_tombstones with_locations] in *.
  assert (forall l, l ∈ unlinked r <-> due s now l /\ collectable s world m (fst l)) as Hun.
  { intros l. rewrite Hu, Hdue. by rewrite (protection_for_None _ s). }
  split; [done|]. split; try done.
  - intros l. rewrite list_elem_of_fmap, <- (protection_for_None (preserved_set snap) s), <- Hdue by done.
    split.
    + intros ([l' reason] & -> & [Hin Hsome]%Hr). cbn. by rewrite Hsome.
    + intros [Hin Hnone]. destruct (protection_for _ _ _ _ _) as [reason|] eqn:Hp; [|done].
      exists (l, reason). by rewrite Hr.
  - intros l Hin. rewrite Hl. apply Hu in Hin. by case_decide.
  - intros l Hni. rewrite Hl. case_decide as Hd; [|done]. by apply Hu in Hd.
  - intros l Hd%Hdue. rewrite Ht. by case_decide.
  - intros l Hd. rewrite Ht. case_decide as Hin; [|done]. by apply Hdue in Hin.
Qed.

(** Unlinking rechecks everything.  A location is removed exactly when it was
    tombstoned, its grace window has elapsed, and it is collectable at that moment by
    the store and the protections of that moment, not of the plan that marked it; a
    due location that became protected again is rescued; every due tombstone is
    settled one way or the other, the receipt lists which, and nothing else of the
    tables changes.  On an error nothing changes. *)
Theorem unlink_due_spec world m now s :
  match unlink_due world m now s with
  | (Err _, s') => s' = s
  | (Ok r, s') => same_roots s s' /\ settled world m now s s' r
  end.
Proof. apply unlink_due_settled. Qed.

End Gc.

Module PinLeases.

Definition PUBLICATION_PIN_CLASS : string := "action-publication".
Definition AUTHORITY_DIGEST_DOMAIN : string := "rabs.coordinator-authority.sha256.v1".

Record CoordinatorAuthority := {
  authority_cluster : string;
  credential_generation : Z; (* u64 *)
  authority_term : Z;        (* u64 *)
  incarnation_id : Z;        (* u128 *)
}.

Inductive Releaser :=
  | Coordinator (authority : CoordinatorAuthority)
  | Worker (worker_owner : string).

Inductive ReleaseOutcome :=
  | Released | AlreadyReleased | NoSuchPin | RefusedWorkerOnPublicationRoot
  | RefusedNotOwner | RefusedNotActiveAuthority.

Section leases.
Context {SHA : Type} `{Hasher SHA}.

(** [Framing]: every field behind its length. *)
Definition framing_field (bs : list Z) (h : SHA) : SHA :=
  h_update bs (h_update (be_bytes 8 (Z.of_nat (length bs))) h).

Definition framing_new (dom : string) : SHA := framing_field (str_bytes dom) h_new.

Definition authority_digest (a : CoordinatorAuthority) : TypedDigest :=
  {| algorithm := Sha256V1; domain := AUTHORITY_DIGEST_DOMAIN;
     digest_bytes :=
       h_finalize
         (framing_field (be_bytes 16 (incarnation_id a))
           (framing_field (be_bytes 8 (authority_term a))
             (framing_field (be_bytes 8 (credential_generation a))
               (framing_field (str_bytes (authority_cluster a))
                 (framing_new AUTHORITY_DIGEST_DOMAIN))))) |}.

Definition release_pin_scoped (pin_id : Z) (releaser : Releaser) : db ReleaseOutcome :=
  row ← pin_row pin_id;
  match row with
  | None => mret NoSuchPin
  | Some row =>
      if released row then mret AlreadyReleased
      else
        match releaser with
        | Worker worker_owner =>
            if bool_decide (class row = PUBLICATION_PIN_CLASS)
            then mret RefusedWorkerOnPublicationRoot
            else if bool_decide (owner row ≠ worker_owner) then mret RefusedNotOwner
            else _ ← release_pin pin_id worker_owner; mret Released
        | Coordinator authority =>
            active ← active_authority;
            match active with
            | Some a =>
                if bool_decide (auth_digest a = authority_digest authority)
                then _ ← release_pin pin_id (owner row); mret Released
                else mret RefusedNotActiveAuthority
            | None => mret RefusedNotActiveAuthority
            end
        end
  end.

Inductive PinProtection := Protecting | GraceProtecting | Expired.

Definition pin_protection (pin_id now_seq : Z) (reconciliation_confirmed : bool)
    (grace_windows : Z) : db (option PinProtection) :=
  row ← pin_row pin_id;
  match row with
  | None => mret None
  | Some row =>
      if released row then mret (Some Expired)
      else
        match expires_at_seq row with
        | None => mret (Some Protecting)
        | Some e =>
            if now_seq <=? e then mret (Some Protecting)
            else if negb reconciliation_confirmed then mret (Some GraceProtecting)
            else if now_seq <=? sat_add 64 e grace_windows then mret (Some GraceProtecting)
            else mret (Some Expired)
        end
  end.

(** The release a scoped request asks for and is entitled to. *)
Definition entitled (s : store) (p : PinRow) (releaser : Releaser) : Prop :=
  match releaser with
  | Worker w => class p <> PUBLICATION_PIN_CLASS /\ owner p = w
  | Coordinator a =>
      exists row, fst (active_authority s) = Ok (Some row) /\ auth_digest row = authority_digest a
  end.

Lemma release_pin_owner id s p note :
  pins s !! id = Some (p, note) ->
  release_pin id (owner p) s = (Ok tt, with_pins (<[id := (set_released p, note)]> (pins s)) s).
Proof.
  intros Hp. unfold release_pin, in_txn. rewrite Hp. by rewrite bool_decide_eq_true_2.
Qed.

Lemma active_authority_pure s : exists r, active_authority s = (r, s).
Proof. by eexists. Qed.

Lemma release_pin_scoped_cases id releaser s :
  (exists p note, pins s !! id = Some (p, note) /\ released p = false /\ entitled s p releaser
    /\ release_pin_scoped id releaser s
       = (Ok Released, with_pins (<[id := (set_released p, note)]> (pins s)) s))
  \/ (exists r, release_pin_scoped id releaser s = (r, s) /\ r <> Ok Released
    /\ forall p note, pins s !! id = Some (p, note) ->
        if released p then r = Ok AlreadyReleased else ~ entitled s p releaser).
Proof.
  unfold release_pin_scoped, pin_row. unmonad.
  destruct (pins s !! id) as [[p note]|] eqn:Hp; cbn -[entitled release_pin active_authority];
    [|right; by eexists].
  assert (forall out : result StoreError ReleaseOutcome, out <> Ok Released -> released p = false -> ~ entitled s p releaser ->
    exists r, (out, s) = (r, s) /\ r <> Ok Released
      /\ forall q m, Some (p, note) = Some (q, m) ->
          if released q then r = Ok AlreadyReleased else ~ entitled s q releaser) as Hno.
  { intros out Ho Hr Hne. exists out. split_and!; [done..|]. intros q m [= <- <-]. by rewrite Hr. }
  destruct (released p) eqn:Hr.
  { right. exists (Ok AlreadyReleased). split_and!; [done..|]. intros q m [= <- <-]. by rewrite Hr. }
  pose proof (release_pin_owner id s p note Hp) as Hrel. destruct releaser as [a|w].
  - destruct (active_authority_pure s) as [r Hact]. rewrite Hact.
    destruct r as [[row|]|e]; [case_bool_decide as Ha|..].
    + left. exists p, note. rewrite Hrel. split_and!; try done. exists row. by rewrite Hact.
    + right. apply Hno; [done..|]. intros (row' & Hr' & Hd). rewrite Hact in Hr'. cbn in Hr'. congruence.
    + right. apply Hno; [done..|]. intros (row' & Hr' & Hd). by rewrite Hact in Hr'.
    + right. apply Hno; [done..|]. intros (row' & Hr' & Hd). by rewrite Hact in Hr'.
  - case_bool_decide; [right; apply Hno; [done..|]; by intros []|].
    case_bool_decide as Hw; [right; apply Hno; [done..|]; by intros []|].
    subst w. left. exists p, note. by rewrite Hrel.
Qed.

(** A pin is released only by someone entitled to it.  A request marks the pin
    released exactly when it exists, is not released yet, and the releaser is its
    owner and the pin is no publication root, or a coordinator that presents the
    active authority; every other request, from whatever identity, leaves the store
    as it was; and a request for a released pin is a no-op that says so. *)
Theorem release_pin_scoped_spec id releaser s :
  let '(r, s') := release_pin_scoped id releaser s in
  (r = Ok Released <->
     exists p note, pins s !! id = Some (p, note) /\ released p = false /\ entitled s p releaser)
  /\ (forall p note, pins s !! id = Some (p, note) -> r = Ok Released ->
        s' = with_pins (<[id := (set_released p, note)]> (pins s)) s)
  /\ (r <> Ok Released -> s' = s)
  /\ (forall p note, pins s !! id = Some (p, note) -> released p = true -> r = Ok AlreadyReleased).
Proof.
  destruct (release_pin_scoped_cases id releaser s)
    as [(p & note & Hp & Hr & He & ->)|(r & -> & Hr & Hno)].
  - split_and!; [split; eauto 10|by intros q m [= <- <-]%(eq_trans (eq_sym Hp))|done|].
    intros q m Hq. rewrite Hp in Hq. simplify_eq. congruence.
  - split_and!; [split; [done|]|done|done|].
    + intros (p & note & Hp & Hf & He). specialize (Hno p note Hp). by rewrite Hf in Hno.
    + intros p note Hp Ht. specialize (Hno p note Hp). by rewrite Ht in Hno.
Qed.

End leases.
End PinLeases.

(** ** The collector beside the other operations *)

Module Collection.
Import Gc PinLeases DigestSet.

Section history.
Context {SHA : Type} `{Hasher SHA}.

(** What a coordinator process does to its store.  A plan is kept once it is made;
    [Execute] and [Mark] take any plan made so far, however old and however often. *)
Inductive op :=
  | AddLocation (object : TypedDigest) (path : text) (verified : option Z) (enc : string) (durable : bool)
  | Quarantine (object : TypedDigest) (path : text) (q : bool)
  | AddEdge (parent child : TypedDigest) (kind : string)
  | CreatePin (id : Z) (root : TypedDigest) (own cls : string) (expires : option Z)
      (ev : option string) (durable : bool) (why : string)
  | RenewPin (id renewal : Z)
  | ReleasePin (id : Z) (releaser : Releaser)
  | Acquire (row : AuthorityRow)
  | ReleaseAuthority (d : TypedDigest)
  | Plan (world : GcWorld) (m : GcMode) (n : Z)
  | Execute (i : nat)
  | Mark (plan : GcPlan) (grace_windows : Z)
  | Unlink (world : GcWorld) (m : GcMode) (now_seq : Z).

(** What an operation other than planning and executing does to the store. *)
Definition alter_store (o : op) (s : store) : store :=
  match o with
  | AddLocation object path verified enc durable =>
      snd (add_location object path verified enc durable s)
  | Quarantine object path q => snd (set_location_quarantined object path q s)
  | AddEdge parent child kind => snd (add_object_edge parent child kind s)
  | CreatePin id root own cls expires ev durable why =>
      snd (create_pin id root own cls expires ev durable why s)
  | RenewPin id renewal => snd (renew_pin id renewal s)
  | ReleasePin id releaser => snd (release_pin_scoped id releaser s)
  | Acquire row => snd (acquire_authority row s)
  | ReleaseAuthority d => snd (release_authority d s)
  | Mark plan grace_windows => snd (mark_plan plan grace_windows s)
  | Unlink world m now_seq => snd (unlink_due world m now_seq s)
  | Plan _ _ _ | Execute _ => s
  end.

(** The store and the plans made so far. *)
Definition coordinator : Type := store * list GcPlan.

Definition perform (o : op) (c : coordinator) : coordinator :=
  match o with
  | Plan world m n =>
      match plan_gc world m n (fst c) with
      | (Ok plan, s) => (s, snd c ++ [plan])
      | (Err _, s) => (s, snd c)
      end
  | Execute i =>
      match snd c !! i with
      | Some plan => (snd (execute_gc plan (fst c)), snd c)
      | None => c
      end
  | _ => (alter_store o (fst c), snd c)
  end.

Definition run (os : list op) (c : coordinator) : coordinator := fold_left (fun c o => perform o c) os c.

(** Pin [id] protects with root [r] and class [cls]. *)
Definition holds (id : Z) (r : text) (cls : string) (s : store) : Prop :=
  exists p note, pins s !! id = Some (p, note) /\ released p = false
    /\ root_key p = r /\ class p = cls.

(** The requests that may end its protection. *)
Definition may_end (id : Z) (cls : string) (o : op) : bool :=
  match o with
  | ReleasePin id' (Coordinator _) => id =? id'
  | ReleasePin id' (Worker _) => (id =? id') && negb (bool_decide (cls = PUBLICATION_PIN_CLASS))
  | _ => false
  end.

(** The object [k] is pinned through [id] and has a copy at [path]. *)
Record anchored (id : Z) (r : text) (cls : string) (k path : text) (s : store) : Prop := {
  anchored_pin : holds id r cls s;
  anchored_edge : rtc (edge s) r k;
  anchored_copy : is_Some (locations s !! (k, path));
}.

Lemma anchored_preserved id r cls k path s : anchored id r cls k path s -> preserved s k.
Proof. intros [(p & note & Hp & Hr & <- & _) He _]. unfold preserved. eauto 10. Qed.

(** A step that keeps the pin, grows the edges and keeps the copies keeps the anchor. *)
Lemma anchored_mono id r cls k path s s' :
  anchored id r cls k path s -> holds id r cls s' -> edges s ⊆ edges s' ->
  (is_Some (locations s !! (k, path)) -> is_Some (locations s' !! (k, path))) ->
  anchored id r cls k path s'.
Proof.
  intros [Hp He Hc] Hp' Hsub Hloc. split; [done| |auto].
  eapply rtc_subrel; [|exact He]. intros a b [kind Hk]. exists kind. by apply Hsub.
Qed.

Lemma holds_pins id r cls s s' : pins s' = pins s -> holds id r cls s -> holds id r cls s'.
Proof. unfold holds. by intros ->. Qed.

Lemma mark_each_tables ls marked grace s :
  let s' := snd (mark_each ls marked grace s) in
  same_roots s s' /\ locations s' = locations s.
Proof.
  revert s. induction ls as [|l ls IH]; intros s; cbn [mark_each]; [by repeat split|].
  unfold add_gc_tombstone, to_i64, in_txn. unmonad.
  destruct (I64_MAX <? marked); [by repeat split|].
  destruct (I64_MAX <? grace); [by repeat split|].
  destruct (tombstones s !! (fst l, snd l)); [apply IH|].
  exact (IH (with_tombstones (<[(fst l, snd l) := (marked, grace)]> (tombstones s)) s)).
Qed.

(** Operations that touch neither pins, edges nor copies. *)
Lemma anchored_same id r cls k path s s' :
  same_roots s s' -> locations s' = locations s ->
  anchored id r cls k path s -> anchored id r cls k path s'.
Proof.
  intros [Hp He] Hl Ha. eapply anchored_mono; [done| | |].
  - eapply holds_pins; [done|apply Ha].
  - by rewrite He.
  - by rewrite Hl.
Qed.

Lemma anchored_location id r cls k path s l v :
  anchored id r cls k path s ->
  anchored id r cls k path (with_locations (<[l := v]> (locations s)) s).
Proof.
  intros Ha. eapply anchored_mono; [done|apply Ha|done|]. cbn. intros Hs.
  destruct (decide (l = (k, path))) as [->|]; [rewrite lookup_insert_eq; eauto|].
  by rewrite lookup_insert_ne.
Qed.

(** A pin row changed without releasing or redirecting [id]. *)
Lemma anchored_pins id r cls k path s v :
  anchored id r cls k path s -> holds id r cls (with_pins v s) ->
  anchored id r cls k path (with_pins v s).
Proof. intros Ha Hh. by eapply anchored_mono. Qed.

Lemma anchored_release id r cls k path s id' releaser :
  may_end id cls (ReleasePin id' releaser) = false -> anchored id r cls k path s ->
  anchored id r cls k path (alter_store (ReleasePin id' releaser) s).
Proof.
  intros Hm Ha. cbn [alter_store].
  destruct (release_pin_scoped_cases id' releaser s) as [(p & note & Hp & Hr & He & ->)|(o & -> & _)]; [|done].
  apply anchored_pins; [done|]. destruct (anchored_pin _ _ _ _ _ _ Ha) as (q & m & Hq & Hf & Hroot & Hcls).
  exists q, m. split_and!; try done. cbn. rewrite lookup_insert_ne; [done|]. intros ->.
  rewrite Hp in Hq. simplify_eq. cbn in Hm. rewrite Z.eqb_refl in Hm.
  destruct releaser; cbn in *; [done|]. destruct He as [Hne _].
  by rewrite bool_decide_eq_false_2 in Hm.
Qed.

Lemma anchored_renew id r cls k path s id' n :
  anchored id r cls k path s -> anchored id r cls k path (alter_store (RenewPin id' n) s).
Proof.
  intros Ha. cbn [alter_store]. unfold renew_pin, in_txn.
  destruct (pins s !! id') as [[p note]|] eqn:Hp; [|done].
  destruct (released p) eqn:Hr; [done|]. destruct (n <=? renewal_seq p); [done|].
  unfold to_i64. destruct (I64_MAX <? n); [done|].
  apply anchored_pins; [done|]. destruct (anchored_pin _ _ _ _ _ _ Ha) as (q & m & Hq & Hf & Hroot & Hcls).
  unfold holds. cbn. destruct (decide (id' = id)) as [->|].
  - rewrite lookup_insert_eq. simplify_eq. eauto 10.
  - rewrite lookup_insert_ne by done. eauto 10.
Qed.

Lemma anchored_create id r cls k path s id' root own c expires ev durable why :
  anchored id r cls k path s ->
  anchored id r cls k path (alter_store (CreatePin id' root own c expires ev durable why) s).
Proof.
  intros Ha. cbn [alter_store]. unfold create_pin, in_txn. unmonad.
  destruct (match expires with None => _ | Some v => _ end) as [exp|e]; [|done].
  destruct (pins s !! id') as [|] eqn:Hp; [done|].
  apply anchored_pins; [done|]. destruct (anchored_pin _ _ _ _ _ _ Ha) as (q & m & Hq & ?).
  exists q, m. split; [|done]. cbn. rewrite lookup_insert_ne; [done|congruence].
Qed.

(** A plan made while the object is pinned does not list its copies. *)
Lemma anchored_plan id r cls k path s world m n :
  anchored id r cls k path s ->
  match plan_gc world m n s with
  | (Ok plan, s') => anchored id r cls k path s' /\ (k, path) ∉ reclaim plan
  | (Err _, s') => anchored id r cls k path s'
  end.
Proof.
  intros Ha. pose proof (plan_gc_judged world m n s) as Hp.
  destruct (plan_gc world m n s) as [[plan|e] s1]; [|by subst]. destruct Hp as [[runs ->] Hj]. split.
  - apply (anchored_same _ _ _ _ _ s); [by repeat split|done|done].
  - intros Hin. destruct (judged_safe _ _ _ _ Hj _ Hin) as [Hn _]. by destruct Hn; eapply anchored_preserved.
Qed.

(** A plan that does not list a copy does not remove it, whenever it is executed. *)
Lemma anchored_execute id r cls k path s plan :
  anchored id r cls k path s -> (k, path) ∉ reclaim plan -> anchored id r cls k path (snd (execute_gc plan s)).
Proof.
  intros Ha Hno. pose proof (execute_gc_tables plan s) as He. destruct (execute_gc plan s) as [rc s2]. destruct He as [Hl [Hpins Hedges]].
  cbn [snd]. eapply anchored_mono; [done|eapply holds_pins; [done|apply Ha]|by rewrite Hedges|].
  rewrite Hl. by case_decide.
Qed.

Lemma anchored_unlink id r cls k path s world m now :
  anchored id r cls k path s -> anchored id r cls k path (alter_store (Unlink world m now) s).
Proof.
  intros Ha. cbn [alter_store]. pose proof (unlink_due_settled world m now s) as Hu.
  destruct (unlink_due world m now s) as [[rc|e] s']; [|by subst].
  destruct Hu as [[Hpins Hedges] Hs].
  cbn [snd]. eapply anchored_mono; [done|eapply holds_pins; [done|apply Ha]|by rewrite Hedges|].
  rewrite (settled_kept _ _ _ _ _ _ Hs); [done|].
  intros [_ [Hn _]]%(settled_unlinked _ _ _ _ _ _ Hs). by destruct Hn; eapply anchored_preserved.
Qed.

Lemma anchored_alter id r cls k path s o :
  may_end id cls o = false -> anchored id r cls k path s -> anchored id r cls k path (alter_store o s).
Proof.
  intros Hm Ha. destruct o; auto using anchored_release, anchored_renew, anchored_create, anchored_unlink;
    cbn [alter_store].
  - unfold add_location, in_txn. unmonad.
    destruct (match verified with None => _ | Some v => _ end); [|done].
    by apply anchored_location.
  - unfold set_location_quarantined, in_txn.
    destruct (locations s !! _); [|done]. by apply anchored_location.
  - eapply anchored_mono; [done|apply Ha|cbn; set_solver|done].
  - eapply anchored_same; [..|done].
    all: unfold acquire_authority, in_txn, active_authority_key, to_i64; unmonad;
      repeat (case_match; simplify_eq/=); by repeat split.
  - apply (anchored_same _ _ _ _ _ s); [by repeat split|done|done].
  - unfold mark_plan. unmonad.
    pose proof (mark_each_tables (reclaim plan) (seq plan) (sat_add 64 (seq plan) grace_windows) s) as [Hr Hl].
    destruct (mark_each _ _ _ s) as [[] s']; apply (anchored_same _ _ _ _ _ s); done.
Qed.

(** No plan made so far lists the copy. *)
Definition unlisted (k path : text) (plans : list GcPlan) : Prop :=
  Forall (fun plan => (k, path) ∉ reclaim plan) plans.

Lemma anchored_step id r cls k path c o :
  may_end id cls o = false -> anchored id r cls k path (fst c) /\ unlisted k path (snd c) ->
  anchored id r cls k path (fst (perform o c)) /\ unlisted k path (snd (perform o c)).
Proof.
  intros Hm [Ha Hu]. destruct o; cbn [perform]; try (split; [by apply anchored_alter|done]).
  - pose proof (anchored_plan id r cls k path (fst c) world m n Ha) as Hp.
    destruct (plan_gc world m n (fst c)) as [[plan|e] s1]; [|done]. destruct Hp as [Hp Hno]. split; [done|].
    apply Forall_app. split; [done|by constructor].
  - destruct (snd c !! i) as [plan|] eqn:E; [|done]. split; [|done]. apply anchored_execute; [done|].
    by apply (Forall_lookup_1 _ _ _ _ Hu E).
Qed.

(** C11: What is pinned before it is planned for collection is never collected.  Follow an
    object reachable from the root of an unreleased pin, and one of its copies, from a moment
    at which no plan already made lists that copy, through any history of the store:
    locations, edges and pins added, pins renewed and released by anyone, authorities
    changing hands, plans made in any mode and executed at any later time and any number of
    times, tombstones from any plan however stale, unlinks at any sequence number.  As long
    as nobody asks for the release of that pin, the copy is there and still pinned; and for
    a publication pin even the workers may ask.  (An object pinned after a plan listed it is
    lost when that plan is executed: [stale_plan_collects_pinned].) *)
Theorem pinned_survives id r cls k path os c :
  anchored id r cls k path (fst c) -> unlisted k path (snd c) -> Forall (fun o => may_end id cls o = false) os ->
  anchored id r cls k path (fst (run os c)).
Proof.
  intros Ha Hu Hos. assert (H' : anchored id r cls k path (fst (run os c)) /\ unlisted k path (snd (run os c))); [|by destruct H'].
  revert c Ha Hu. unfold run. induction Hos as [|o os Ho Hos IH]; intros c Ha Hu; cbn [fold_left]; [done|].
  destruct (anchored_step id r cls k path c o Ho (conj Ha Hu)). by apply IH.
Qed.

(** The lease judgment and the collector agree in the safe direction.  A pin that
    is judged to protect still, in whatever way, keeps everything its root reaches
    out of every plan made from that store; it stops being judged so only when it is
    released, or when its expiry was confirmed and the grace window has passed. *)
Theorem judged_pin_protects id now confirmed grace j world m n s :
  fst (pin_protection id now confirmed grace s) = Ok (Some j) ->
  (j = Expired <->
     exists p note, pins s !! id = Some (p, note)
       /\ (released p = true
           \/ exists e, expires_at_seq p = Some e /\ confirmed = true /\ e < now
                /\ sat_add 64 e grace < now))
  /\ (j <> Expired -> forall plan, fst (plan_gc world m n s) = Ok plan ->
        exists p note, pins s !! id = Some (p, note)
          /\ forall l, rtc (edge s) (root_key p) (fst l) -> l ∉ reclaim plan).
Proof.
  unfold pin_protection, pin_row. unmonad.
  destruct (pins s !! id) as [[p note]|] eqn:Hp; [|done]. cbn -[plan_gc sat_add].
  intros Hj. split.
  - split.
    + intros ->. exists p, note. split; [done|]. destruct (released p); [by left|right].
      repeat (case_match; simplify_eq/=). eexists. split_and!; [done|..]; try lia.
      by destruct confirmed.
    + intros (q & note' & [= <- <-] & [Hr|(e & He & -> & Hlt & Hg)]).
      * rewrite Hr in Hj. cbn in Hj. congruence.
      * destruct (released p); cbn in Hj; [congruence|]. rewrite He in Hj.
        destruct (Z.leb_spec now e); [lia|]. cbn in Hj.
        destruct (Z.leb_spec now (sat_add 64 e grace)); [lia|]. cbn in Hj. congruence.
  - intros Hne plan Hplan. exists p, note. split; [done|]. intros l Hl Hin.
    pose proof (plan_gc_judged world m n s) as Hpl.
    destruct (plan_gc world m n s) as [o s']. cbn in Hplan. subst o. destruct Hpl as [_ Hjd].
    destruct (judged_safe _ _ _ _ Hjd l Hin) as [Hnp _]. apply Hnp. exists id, p, note.
    split_and!; [done| |done]. destruct (released p); [|done]. cbn in Hj. congruence.
Qed.

End history.
(** ** A store with one pinned artifact *)

Definition sample_object (tag : Z) : TypedDigest :=
  {| algorithm := Sha256V1; domain := "o"; digest_bytes := replicate 32 tag |}.
Definition sample_key (tag : Z) : text := Pack.digest_key (sample_object tag).

(** Nothing in use, one location per run. *)
Definition idle_world : GcWorld :=
  {| protections := {| active_builds := ∅; materializations := ∅; transfers := ∅; open_readers := ∅ |};
     policies := ∅; reconciliation_complete := true; reclaim_budget := 10 |}.

(** Object 1 is pinned by pin 7 and leads to object 2; object 3 is loose. *)
Definition sample_store : store :=
  fst $ run (SHA := list Z)
    [AddLocation (sample_object 2) [112] (Some 3) "raw" true;
     AddLocation (sample_object 3) [113] None "raw" true;
     AddEdge (sample_object 1) (sample_object 2) "member";
     CreatePin 7 (sample_object 1) "w" "build" (Some 4) None true "in use"] (empty_store, []).

Lemma sample_anchored : anchored 7 (sample_key 1) "build" (sample_key 2) [112] sample_store.
Proof.
  split.
  - eexists _, _. split_and!; vm_compute; reflexivity.
  - apply rtc_once. exists "member". apply (bool_decide_unpack _). vm_compute. done.
  - eexists. vm_compute. reflexivity.
Defined.

Lemma pinned_survives_witness :
  anchored 7 (sample_key 1) "build" (sample_key 2) [112]
    (fst (run (SHA := list Z)
       [Plan idle_world Emergency 9; RenewPin 7 5; Execute 0; ReleasePin 8 (Worker "w"); Unlink idle_world Normal 20; Execute 0]
       (sample_store, []))).
Proof. apply pinned_survives; [apply sample_anchored|constructor|repeat constructor]. Defined.

Lemma judged_pin_protects_witness :
  fst (pin_protection 7 100 false 0 sample_store) = Ok (Some GraceProtecting)
  /\ forall plan, fst (plan_gc idle_world Emergency 9 sample_store) = Ok plan ->
       exists p note, pins sample_store !! 7 = Some (p, note)
         /\ forall l, rtc (edge sample_store) (root_key p) (fst l) -> l ∉ reclaim plan.
Proof.
  assert (fst (pin_protection 7 100 false 0 sample_store) = Ok (Some GraceProtecting)) as Hj
    by (vm_compute; reflexivity).
  split; [exact Hj|].
  apply (judged_pin_protects 7 100 false 0 GraceProtecting idle_world Emergency 9 sample_store Hj).
  discriminate.
Defined.

(** A plan of the sample store is made, and then object 3 is pinned. *)
Definition late : coordinator :=
  run (SHA := list Z)
    [Plan idle_world Normal 9;
     CreatePin 8 (sample_object 3) "w" "build" None None true "new"] (sample_store, []).
Definition late_store : store := fst late.

Definition stale_execution : option (GcExecutionReceipt * store) :=
  plan ← snd late !! 0%nat;
  match execute_gc plan late_store with (Ok rc, s) => Some (rc, s) | (Err _, _) => None end.

(** Pin 8 as it was made. *)
Definition late_pin : PinRow * PinNote :=
  ({| root_key := sample_key 3; owner := "w"; class := "build"; expires_at_seq := None;
      released := false; renewal_seq := 0 |},
   {| evidence := None; pin_durable := true; reason := "new" |}).

Lemma late_pin_preserves s : pins s !! 8 = Some late_pin -> preserved s (sample_key 3).
Proof. intros H. exists 8, late_pin.1, late_pin.2. split_and!; [exact H|done|apply rtc_refl]. Qed.

(** Executing an old plan does not look at pins made since.  A loose object is
    planned, then pinned, and the plan executed: its copy is removed, the receipt
    counts it as reclaimed and reports no skip, while the pin still preserves it. *)
Theorem stale_plan_collects_pinned :
  preserved late_store (sample_key 3)
  /\ is_Some (locations late_store !! (sample_key 3, [113]))
  /\ match stale_execution with
     | Some (rc, s) =>
         reclaimed rc = [(sample_key 3, [113])] /\ skipped rc = []
         /\ preserved s (sample_key 3) /\ locations s !! (sample_key 3, [113]) = None
     | None => False
     end.
Proof.
  split; [|split].
  - apply late_pin_preserves. vm_compute. reflexivity.
  - apply (bool_decide_unpack _). vm_compute. exact I.
  - assert (fst <$> stale_execution
            = Some {| planned := 1; reclaimed := [(sample_key 3, [113])]; skipped := [] |}) as Hr
      by (vm_compute; reflexivity).
    assert ((fun x => pins (snd x) !! 8) <$> stale_execution = Some (Some late_pin)) as Hp
      by (vm_compute; reflexivity).
    assert ((fun x => locations (snd x) !! (sample_key 3, [113])) <$> stale_execution = Some None) as Hl
      by (vm_compute; reflexivity).
    destruct stale_execution as [[rc s]|]; [|discriminate Hr].
    injection Hr as Hr. injection Hp as Hp. injection Hl as Hl. cbn [fst snd] in *.
    rewrite Hr. split_and!; [reflexivity|reflexivity|by apply late_pin_preserves|exact Hl].
Qed.

End Collection.
