(* ===== verification/Ledger.v ===== *)
(** * The ledger: the publication tables of the metadata store
    (rabs-cas/src/metadata_store.rs)

    The tables behind publication, beside those of Store.v: action entries, generations,
    attempts and leases; publications with their serving state, evidence, lineage and
    adoptions; quarantines, incidents and what a divergence consults.  A table is a map from
    its primary key, a statement its effect on the tables.  An identifier the store writes
    in hexadecimal is the identifier. *)

From stdpp Require Import base gmap list strings sorting pretty.
From Stdlib Require Import ZArith Lia.
From S2P Require Import Prelude Bytes Manifest Digest Pack Store.
Import ResultIdentity Store.

Module Ledger.

(** ** Tables *)

Record ActionEntryRow := {
  entry_key : TypedDigest; entry_key_epoch : Z; entry_projection_epoch : Z }. (* u32 *)

Record GenerationRow := { gen_action : text; gen_authority : text; tombstoned : bool }.

Record AttemptRow := { attempt_generation : Z; attempt_worker : string; attempt_seq : Z }.

Record LeaseRow := {
  lease_attempt : Z; lease_renewal_seq : Z; lease_expires : Z; lease_released : bool }.

(** Who may produce results. *)
Record execution_tables := Execution {
  action_entries : gmap text ActionEntryRow;
  generations : gmap Z GenerationRow;
  generation_high_water : Z; (* u128 *)
  attempts : gmap Z AttemptRow;
  leases : gmap Z LeaseRow }.

Record PublishedRow := {
  pub_descriptor : TypedDigest;
  pub_manifest : TypedDigest;
  pub_generation : Z;
  pub_attempt : Z;
  pub_kind : ResultKind;
  pub_pin : Z }.

Record EvidenceRow := { ev_generation : Z; ev_attempt : Z; ev_manifest_key : text }.

Record ProvisionalAncestorRow := {
  producer_action_key : text;
  anc_role : string;
  anc_path : list Z;
  object_key : text;
  adopted : bool }.

(** Rabs-protocol's [ServingValidity]. *)
Record ServingValidity := {
  evaluated_at_unix_micros : Z;       (* i64 *)
  maximum_age_micros : option Z;      (* u64 *)
  clock_uncertainty_micros : Z;       (* u64 *)
  coordinator_clock_epoch : Z }.      (* u64 *)

(** A row of [action_serving_states]. *)
Record ServingRow := {
  disposition : string;
  serving_version : Z;
  state_revision : Z;                 (* u64 *)
  authority_key : text;
  validity : ServingValidity }.

Record TrustEvaluationRow := {
  trust_version : Z;                  (* u32 *)
  trust : string;
  trust_reason : string;
  evaluated_seq : Z }.                (* u64 *)

(** The results. *)
Record result_tables := Results {
  publications : gmap text PublishedRow;
  serving : gmap text ServingRow;
  blocking : gset (text * string * text);    (* serving_blocking_quarantines *)
  evidence_index : gmap (text * string * list Z) EvidenceRow;
  ancestry : gmap (text * text * string * list Z) (text * bool);
  adoptions : gmap (text * string * list Z * text) text }.

Record DivergenceIncidentRow := {
  inc_class : string;
  committed_manifest_key : text;
  candidate_manifest_key : text;
  candidate_evidence_key : text;
  candidate_pin : Z;
  inc_generation : Z;
  inc_attempt : Z;
  detail : string }.

#[export] Instance DivergenceIncidentRow_eq_dec : EqDecision DivergenceIncidentRow.
Proof. solve_decision. Defined.

(** What went wrong, and who was told. *)
Record incident_tables := Incidents {
  quarantines : gmap (string * text) string;
  incidents : gmap (text * Z) DivergenceIncidentRow;
  evaluations : gmap text (gmap Z TrustEvaluationRow); (* by version *)
  samples : gmap (text * Z * Z) bool;                 (* by attempt and sequence: passed *)
  served : gset (text * text);                        (* served-to provenance *)
  receipts : gmap (string * text * Z) (string * string);
  evictions : gmap text (TypedDigest * TypedDigest * Z) }.

Record ledger := Build {
  base : store;
  execution : execution_tables;
  results : result_tables;
  trouble : incident_tables }.

Definition empty_ledger : ledger :=
  Build empty_store (Execution ∅ ∅ 0 ∅ ∅) (Results ∅ ∅ ∅ ∅ ∅ ∅)
    (Incidents ∅ ∅ ∅ ∅ ∅ ∅ ∅).

Definition on_base (f : store -> store) (l : ledger) : ledger :=
  Build (f (base l)) (execution l) (results l) (trouble l).
Definition on_execution (f : execution_tables -> execution_tables) (l : ledger) : ledger :=
  Build (base l) (f (execution l)) (results l) (trouble l).
Definition on_results (f : result_tables -> result_tables) (l : ledger) : ledger :=
  Build (base l) (execution l) (f (results l)) (trouble l).
Definition on_trouble (f : incident_tables -> incident_tables) (l : ledger) : ledger :=
  Build (base l) (execution l) (results l) (f (trouble l)).

Definition set_entries v '(Execution _ g h a le) := Execution v g h a le.
Definition set_generations v '(Execution e _ h a le) := Execution e v h a le.
Definition set_high_water v '(Execution e g _ a le) := Execution e g v a le.
Definition set_attempts v '(Execution e g h _ le) := Execution e g h v le.
Definition set_leases v '(Execution e g h a _) := Execution e g h a v.
Definition set_publications v '(Results _ s b e a d) := Results v s b e a d.
Definition set_serving v '(Results p _ b e a d) := Results p v b e a d.
Definition set_blocking v '(Results p s _ e a d) := Results p s v e a d.
Definition set_evidence v '(Results p s b _ a d) := Results p s b v a d.
Definition set_ancestry v '(Results p s b e _ d) := Results p s b e v d.
Definition set_adoptions v '(Results p s b e a _) := Results p s b e a v.
Definition set_quarantines v '(Incidents _ i e x s r t) := Incidents v i e x s r t.
Definition set_incidents v '(Incidents q _ e x s r t) := Incidents q v e x s r t.
Definition set_evaluations v '(Incidents q i _ x s r t) := Incidents q i v x s r t.
Definition set_samples v '(Incidents q i e _ s r t) := Incidents q i e v s r t.
Definition set_served v '(Incidents q i e x _ r t) := Incidents q i e x v r t.
Definition set_receipts v '(Incidents q i e x s _ t) := Incidents q i e x s v t.
Definition set_evictions v '(Incidents q i e x s r _) := Incidents q i e x s r v.

Abbreviation ldb := (method ledger StoreError).

Definition in_txn {A} (body : ldb A) : ldb A := fun l =>
  match body l with
  | (Ok a, l') => (Ok a, l')
  | (Err e, _) => (Err e, l)
  end.

(** A method of Store.v. *)
Definition with_base {A} (m : Store.db A) : ldb A := fun l =>
  match m (base l) with (r, s) => (r, on_base (fun _ => s) l) end.

(** [self.intern(domain)], outside any transaction. *)
Definition intern (dom : string) : ldb unit := modify (on_base (Store.intern dom)).

Definition require_active (authority : TypedDigest) : ldb unit :=
  active ← with_base active_authority_key;
  if bool_decide (active = Some (Pack.digest_key authority)) then mret tt
  else throw NotActiveAuthority.

(** ** Actions, generations, attempts and leases *)

Definition upsert_action_entry (action_key : TypedDigest) (key_epoch projection_epoch : Z) :
    ldb unit :=
  _ ← intern (domain action_key);
  in_txn (modify (on_execution (fun e =>
    set_entries (<[Pack.digest_key action_key :=
      {| entry_key := action_key; entry_key_epoch := key_epoch; entry_projection_epoch := projection_epoch |}]>
      (action_entries e)) e))).

(** The digest is restored from its columns, which needs its domain interned. *)
Definition lookup_action (key : TypedDigest) : ldb (option ActionEntryRow) := fun l =>
  (match action_entries (execution l) !! Pack.digest_key key with
   | None => Ok None
   | Some row =>
       if bool_decide (domain (entry_key row) ∈ domains (base l)) then Ok (Some row)
       else Err (DomainNotInterned (domain (entry_key row)))
   end, l).

Definition create_generation (authority : TypedDigest) (id : Z) (action : TypedDigest) : ldb unit :=
  in_txn (
    _ ← require_active authority;
    l ← get;
    _ ← refuse_if (id <=? generation_high_water (execution l)) GenerationIdNotAboveHighWater;
    _ ← refuse_if (bool_decide (is_Some (generations (execution l) !! id))) Backend;
    modify (on_execution (fun e =>
      set_high_water id (set_generations (<[id :=
        {| gen_action := Pack.digest_key action; gen_authority := Pack.digest_key authority;
           tombstoned := false |}]> (generations e)) e)))).

Definition tombstone_generation (id : Z) : ldb unit :=
  in_txn (fun l =>
    match generations (execution l) !! id with
    | None => (Err UnknownGeneration, l)
    | Some g =>
        (Ok tt, on_execution (fun e => set_generations (<[id :=
          {| gen_action := gen_action g; gen_authority := gen_authority g; tombstoned := true |}]>
          (generations e)) e) l)
    end).

Definition record_attempt (id generation : Z) (worker : string) (seq : Z) : ldb unit :=
  seq ← lift_result (to_i64 "seq" seq);
  in_txn (
    l ← get;
    _ ← refuse_if (bool_decide (is_Some (attempts (execution l) !! id))) DuplicateAttempt;
    _ ← refuse_if (negb (bool_decide (is_Some (generations (execution l) !! generation))))
          UnknownGeneration;
    modify (on_execution (fun e => set_attempts (<[id :=
      {| attempt_generation := generation; attempt_worker := worker; attempt_seq := seq |}]>
      (attempts e)) e))).

Definition acquire_lease (id attempt renewal expires : Z) : ldb unit :=
  renewal ← lift_result (to_i64 "renewal_seq" renewal);
  expires ← lift_result (to_i64 "expires_at_seq" expires);
  in_txn (
    l ← get;
    _ ← refuse_if (bool_decide (is_Some (leases (execution l) !! id))) Backend;
    modify (on_execution (fun e => set_leases (<[id :=
      {| lease_attempt := attempt; lease_renewal_seq := renewal; lease_expires := expires;
         lease_released := false |}]> (leases e)) e))).

Definition renew_lease (id renewal expires : Z) : ldb unit :=
  expires ← lift_result (to_i64 "expires_at_seq" expires);
  in_txn (fun l =>
    match leases (execution l) !! id with
    | None => (Err UnknownLease, l)
    | Some r =>
        if lease_released r then (Err LeaseReleased, l)
        else if renewal <=? lease_renewal_seq r then (Err NonMonotonicRenewal, l)
        else
          match to_i64 "renewal_seq" renewal with
          | Err e => (Err e, l)
          | Ok renewal =>
              (Ok tt, on_execution (fun e => set_leases (<[id :=
                {| lease_attempt := lease_attempt r; lease_renewal_seq := renewal;
                   lease_expires := expires; lease_released := false |}]> (leases e)) e) l)
          end
    end).

Definition release_lease (id : Z) : ldb unit :=
  in_txn (fun l =>
    match leases (execution l) !! id with
    | None => (Err UnknownLease, l)
    | Some r =>
        (Ok tt, on_execution (fun e => set_leases (<[id :=
          {| lease_attempt := lease_attempt r; lease_renewal_seq := lease_renewal_seq r;
             lease_expires := lease_expires r; lease_released := true |}]> (leases e)) e) l)
    end).

Definition generation_state (id : Z) : ldb (option bool) := fun l =>
  (Ok (tombstoned <$> generations (execution l) !! id), l).

Definition attempt_exists (id generation : Z) : ldb bool := fun l =>
  (Ok match attempts (execution l) !! id with
      | Some a => attempt_generation a =? generation
      | None => false
      end, l).

(** [released] of the lease. *)
Definition lease_state (id : Z) : ldb (option bool) := fun l =>
  (Ok (lease_released <$> leases (execution l) !! id), l).

(** ** Objects *)

Definition located_row (durable_only : bool) (l : ledger) (object : TypedDigest) : bool :=
  bool_decide (Exists (fun r =>
    fst (fst r) = Pack.digest_key object /\ quarantined (snd r) = false
    /\ (durable_only = true -> loc_durable (snd r) = true))
    (map_to_list (locations (base l)))).

Definition object_located (object : TypedDigest) : ldb bool := fun l =>
  (Ok (located_row false l object), l).
Definition object_durably_located (object : TypedDigest) : ldb bool := fun l =>
  (Ok (located_row true l object), l).

(** ** Publications *)

Record PublicationRow := {
  row_action_key : TypedDigest;
  row_descriptor : TypedDigest;
  row_manifest : TypedDigest;
  row_evidence : TypedDigest;
  row_generation : Z;
  row_attempt : Z;
  row_kind : ResultKind;
  row_pin : Z;
  row_pin_owner : string;
  row_ancestors : list ProvisionalAncestorRow }.

Inductive CommitOutcome := Committed | IdempotentDuplicate | ConflictQuarantined.

Definition published_manifest_key_str (action : text) : ldb (option text) := fun l =>
  (Ok ((fun p => Pack.digest_key (pub_manifest p)) <$> publications (results l) !! action), l).
Definition published_manifest_key (action : TypedDigest) : ldb (option text) :=
  published_manifest_key_str (Pack.digest_key action).

(** [INSERT OR IGNORE]. *)
Definition or_ignore `{Countable K} {V} (k : K) (v : V) (m : gmap K V) : gmap K V :=
  match m !! k with Some _ => m | None => <[k := v]> m end.

Definition put_evidence (action manifest_key : text) (evidence : TypedDigest)
    (generation attempt : Z) (r : result_tables) : result_tables :=
  set_evidence (or_ignore (action, domain evidence, digest_bytes evidence)
    {| ev_generation := generation; ev_attempt := attempt; ev_manifest_key := manifest_key |}
    (evidence_index r)) r.

Definition append_evidence (action : TypedDigest) (manifest_key : text) (evidence : TypedDigest)
    (generation attempt : Z) : ldb unit :=
  _ ← intern (domain evidence);
  in_txn (modify (on_results
    (put_evidence (Pack.digest_key action) manifest_key evidence generation attempt))).

(** The columns a row is created with when only its disposition is given. *)
Definition fresh_serving (d : string) : ServingRow :=
  {| disposition := d; serving_version := 1; state_revision := 0; authority_key := [];
     validity := {| evaluated_at_unix_micros := 0; maximum_age_micros := None;
                    clock_uncertainty_micros := 0; coordinator_clock_epoch := 0 |} |}.

(** [UPDATE .. SET disposition], or a fresh row. *)
Definition put_disposition (action : text) (d : string) (r : result_tables) : result_tables :=
  set_serving (<[action :=
    match serving r !! action with
    | Some row =>
        {| disposition := d; serving_version := serving_version row;
           state_revision := state_revision row; authority_key := authority_key row;
           validity := validity row |}
    | None => fresh_serving d
    end]> (serving r)) r.

Definition set_serving_disposition_key (action : text) (disposition : string) : ldb unit :=
  in_txn (modify (on_results (put_disposition action disposition))).

Definition put_ancestor (consumer : text) (r : result_tables) (a : ProvisionalAncestorRow) :
    result_tables :=
  set_ancestry (or_ignore (consumer, producer_action_key a, anc_role a, anc_path a)
    (object_key a, adopted a) (ancestry r)) r.

Definition put_quarantine (scope : string) (subject : text) (reason : string)
    (t : incident_tables) : incident_tables :=
  set_quarantines (<[(scope, subject) := reason]> (quarantines t)) t.

(** The text of a key, for columns the model keeps as strings. *)
Definition key_string (k : text) : string :=
  String.string_of_list_ascii ((fun b => Ascii.ascii_of_N (Z.to_N b)) <$> k).

Definition publication_pin (row : PublicationRow) : PinRow * PinNote :=
  ({| root_key := Pack.digest_key (row_manifest row); owner := row_pin_owner row;
      class := "action-publication"; expires_at_seq := None; released := false;
      renewal_seq := 0 |},
   {| evidence := Some (key_string (Pack.digest_key (row_action_key row)));
      pin_durable := true; reason := "publication reachability root" |}).

(** What a commit writes, in the order of its statements; the pin's key must be new. *)
Definition write_publication (row : PublicationRow) (l : ledger) : ledger :=
  let action := Pack.digest_key (row_action_key row) in
  on_base (fun s => with_pins (<[row_pin row := publication_pin row]> (pins s)) s)
    (on_results (fun r =>
       fold_left (put_ancestor action) (row_ancestors row)
         (put_evidence action (Pack.digest_key (row_manifest row)) (row_evidence row)
            (row_generation row) (row_attempt row)
            (put_disposition action "servable"
              (set_publications (<[action :=
                 {| pub_descriptor := row_descriptor row; pub_manifest := row_manifest row;
                    pub_generation := row_generation row; pub_attempt := row_attempt row;
                    pub_kind := row_kind row; pub_pin := row_pin row |}]> (publications r)) r)))) l).

Definition commit_publication (authority : TypedDigest) (row : PublicationRow) :
    ldb CommitOutcome :=
  _ ← intern (domain (row_action_key row));
  _ ← intern (domain (row_descriptor row));
  _ ← intern (domain (row_manifest row));
  _ ← intern (domain (row_evidence row));
  in_txn (
    _ ← require_active authority;
    l ← get;
    let action := Pack.digest_key (row_action_key row) in
    match publications (results l) !! action with
    | Some existing =>
        if bool_decide (domain (pub_descriptor existing) = domain (row_descriptor row))
           && bool_decide (digest_bytes (pub_descriptor existing) = digest_bytes (row_descriptor row))
        then mret IdempotentDuplicate
        else
          _ ← modify (on_trouble
                (put_quarantine "action-entry" action "publication descriptor conflict"));
          mret ConflictQuarantined
    | None =>
        _ ← refuse_if (bool_decide (is_Some (pins (base l) !! row_pin row))) Backend;
        _ ← modify (write_publication row);
        mret Committed
    end).

(** ** Lineage and adoption *)

Definition record_adoption_edge (authority : TypedDigest) (producer : text) (role : string)
    (path : list Z) (from to : text) : ldb unit :=
  in_txn (
    _ ← require_active authority;
    l ← get;
    match adoptions (results l) !! (producer, role, path, from) with
    | Some existing => if bool_decide (existing = to) then mret tt else throw AdoptionEdgeConflict
    | None =>
        modify (on_results (fun r =>
          set_adoptions (<[(producer, role, path, from) := to]> (adoptions r)) r))
    end).

Definition has_adoption (l : ledger) (producer : text) (role : string) (path : list Z)
    (from to : text) : bool :=
  bool_decide (adoptions (results l) !! (producer, role, path, from) = Some to).

(** Rows by producer, role and path. *)
Definition ancestor_leb (a b : ProvisionalAncestorRow) : bool :=
  match bytes_cmp (producer_action_key a) (producer_action_key b) with
  | Lt => true
  | Gt => false
  | Eq =>
      match bytes_cmp (str_bytes (anc_role a)) (str_bytes (anc_role b)) with
      | Lt => true
      | Gt => false
      | Eq => text_leb (anc_path a) (anc_path b)
      end
  end.

Definition ancestor_rows (l : ledger) (consumer : text) : list ProvisionalAncestorRow :=
  sort_by ancestor_leb
    (omap (fun e =>
       let '((c, p, r, path), (o, ad)) := e in
       if bool_decide (c = consumer)
       then Some {| producer_action_key := p; anc_role := r; anc_path := path; object_key := o;
                    adopted := ad |}
       else None) (map_to_list (ancestry (results l)))).

(** ** Quarantines, incidents, receipts *)

Inductive QuarantineScope := Location | LogicalObject | ActionEntry.
Definition scope_str (s : QuarantineScope) : string :=
  match s with
  | Location => "location" | LogicalObject => "logical-object" | ActionEntry => "action-entry"
  end.

Definition add_quarantine (scope : QuarantineScope) (subject : text) (why : string) : ldb unit :=
  in_txn (modify (on_trouble (put_quarantine (scope_str scope) subject why))).

Definition record_divergence_incident (authority : TypedDigest) (action : text) (seq : Z)
    (row : DivergenceIncidentRow) : ldb unit :=
  seq ← lift_result (to_i64 "seq" seq);
  in_txn (
    _ ← require_active authority;
    l ← get;
    match incidents (trouble l) !! (action, seq) with
    | Some stored =>
        if bool_decide (stored = row) then mret tt else throw (AppendConflict "divergence_incidents")
    | None =>
        modify (on_trouble (fun t => set_incidents (<[(action, seq) := row]> (incidents t)) t))
    end).

(** The row of the highest version. *)
Definition latest_trust_evaluation (l : ledger) (action : text) : option TrustEvaluationRow :=
  versions ← evaluations (trouble l) !! action;
  v ← last (btree_keys versions);
  versions !! v.

Definition record_served_consumer (action consumer : text) : ldb unit :=
  in_txn (modify (on_trouble (fun t => set_served ({[(action, consumer)]} ∪ served t) t))).

Definition served_consumers (l : ledger) (action : text) : list text :=
  sort_by text_leb
    (snd <$> filter (fun e => fst e = action) (elements (served (trouble l)))).

Definition record_decision_receipt (kind : string) (subject : text) (seq : Z)
    (decision why : string) : ldb unit :=
  seq ← lift_result (to_i64 "seq" seq);
  in_txn (
    l ← get;
    match receipts (trouble l) !! (kind, subject, seq) with
    | Some stored =>
        if bool_decide (stored = (decision, why)) then mret tt
        else throw (AppendConflict "decision_receipts")
    | None =>
        modify (on_trouble (fun t =>
          set_receipts (<[(kind, subject, seq) := (decision, why)]> (receipts t)) t))
    end).

(** ** Eviction tombstones *)

Definition record_eviction_tombstone (action semantic observable : TypedDigest) (seq : Z) :
    ldb unit :=
  _ ← intern (domain semantic);
  _ ← intern (domain observable);
  seq ← lift_result (to_i64 "evicted_seq" seq);
  in_txn (modify (on_trouble (fun t =>
    set_evictions (<[Pack.digest_key action := (semantic, observable, seq)]> (evictions t)) t))).

Definition eviction_tombstone (action : TypedDigest) : ldb (option (TypedDigest * TypedDigest)) :=
  fun l =>
    (match evictions (trouble l) !! Pack.digest_key action with
     | None => Ok None
     | Some (semantic, observable, _) =>
         if negb (bool_decide (domain semantic ∈ domains (base l))) then
           Err (DomainNotInterned (domain semantic))
         else if negb (bool_decide (domain observable ∈ domains (base l))) then
           Err (DomainNotInterned (domain observable))
         else Ok (Some (semantic, observable))
     end, l).

Definition consume_eviction_tombstone (action : TypedDigest) : ldb bool :=
  in_txn (fun l =>
    (Ok (bool_decide (is_Some (evictions (trouble l) !! Pack.digest_key action))),
     on_trouble (fun t => set_evictions (delete (Pack.digest_key action) (evictions t)) t) l)).

End Ledger.
