(* ===== verification/Blobs.v ===== *)
(** * The blob store on disk (rabs-cas/src/blob_store.rs)

    [Disk] is the file system the store relies on, as far as a crash can tell: files are
    inodes reached through names, a hard link is a second name of one inode, [create]
    truncates the inode a name already has, data and names reach the disk when they are
    synced, and a crash may lose what is not there yet.  [BlobStore] is the pipeline of a
    put: stream into staging while hashing, verify, sync, link, record, clean up, with the
    crash points of the source ([FaultPoint]).

    The properties are in Durability.v.

    Paths are byte strings.  The directories of the layout exist and are on disk; the
    fan-out directories below [objects] are created by the puts and carry their own state.
    Removals and renames take effect at once.  Reading and writing do not fail except where
    a name is missing or taken; the message of an I/O error is not modelled. *)

From stdpp Require Import base gmap list strings relations.
From Stdlib Require Import ZArith Lia.
From S2P Require Import Prelude Bytes Text Numerals Manifest Digest Pack Store Ledger.
Import ResultIdentity DigestSet Pack Store Ledger.

Module Disk.

Record inode := { data : list Z; synced : bool }.

Record disk := {
  names : gmap text (Z * bool);   (* the inode, and whether the entry is on disk *)
  inodes : gmap Z inode;
  next_inode : Z;
  fanouts : gmap text bool;       (* directories, and whether their own entry is on disk *)
}.

Definition with_names v d :=
  {| names := v; inodes := inodes d; next_inode := next_inode d; fanouts := fanouts d |}.
Definition with_inodes v d :=
  {| names := names d; inodes := v; next_inode := next_inode d; fanouts := fanouts d |}.
Definition with_fanouts v d :=
  {| names := names d; inodes := inodes d; next_inode := next_inode d; fanouts := v |}.

Definition exists_file (p : text) (d : disk) : bool := bool_decide (is_Some (names d !! p)).

Definition inode_of (p : text) (d : disk) : option Z := fst <$> names d !! p.

(** [fs::read]. *)
Definition read (p : text) (d : disk) : option (list Z) :=
  i ← inode_of p d; data <$> inodes d !! i.

(** [fs::File::create]: truncates the inode the name has, or makes a new one. *)
Definition create (p : text) (d : disk) : disk :=
  match names d !! p with
  | Some (i, _) => with_inodes (<[i := {| data := []; synced := false |}]> (inodes d)) d
  | None =>
      {| names := <[p := (next_inode d, false)]> (names d);
         inodes := <[next_inode d := {| data := []; synced := false |}]> (inodes d);
         next_inode := next_inode d + 1; fanouts := fanouts d |}
  end.

(** Write through a name: the inode's data changes, and is not on disk yet. *)
Definition write_with (f : list Z -> list Z) (p : text) (d : disk) : disk :=
  match inode_of p d with
  | Some i => with_inodes (alter (fun n => {| data := f (data n); synced := false |}) i (inodes d)) d
  | None => d
  end.

(** [write_all] at the end of the file. *)
Definition append (p : text) (bs : list Z) : disk -> disk := write_with (fun old => old ++ bs) p.

(** [sync_all] on a file. *)
Definition sync_file (p : text) (d : disk) : disk :=
  match inode_of p d with
  | Some i => with_inodes (alter (fun n => {| data := data n; synced := true |}) i (inodes d)) d
  | None => d
  end.

Definition SLASH : Z := 47.

Definition in_dir (dir p : text) : bool := starts_with (dir ++ [SLASH]) p.

(** [create_dir_all] of one directory. *)
Definition create_dir (dir : text) (d : disk) : disk :=
  match fanouts d !! dir with
  | Some _ => d
  | None => with_fanouts (<[dir := false]> (fanouts d)) d
  end.

(** [sync_all] on a directory: the entries in it are on disk. *)
Definition sync_dir (dir : text) (d : disk) : disk :=
  with_names (map_imap (fun p e => Some (if in_dir dir p then (fst e, true) else e)) (names d)) d.

Inductive link_error := AlreadyExists | NotFound.

Definition hard_link (src dst : text) (d : disk) : result link_error disk :=
  match inode_of src d with
  | None => Err NotFound
  | Some i => if exists_file dst d then Err AlreadyExists
              else Ok (with_names (<[dst := (i, false)]> (names d)) d)
  end.

Definition remove_file (p : text) (d : disk) : disk := with_names (delete p (names d)) d.

Definition rename (src dst : text) (d : disk) : disk :=
  match names d !! src with
  | Some (i, _) => with_names (<[dst := (i, false)]> (delete src (names d))) d
  | None => d
  end.

(** A crash: an entry that is not on disk, or whose directory is not, may be lost; the data of
    an inode that was not synced may be anything. *)
Record crash (d d' : disk) : Prop := {
  crash_fanouts : forall dir, fanouts d !! dir = Some true -> fanouts d' !! dir = Some true;
  crash_no_fanout : forall dir b, fanouts d' !! dir = Some b -> is_Some (fanouts d !! dir) /\ b = true;
  crash_names : forall p i b, names d' !! p = Some (i, b) -> b = true /\ exists c, names d !! p = Some (i, c);
  crash_keeps : forall p i, names d !! p = Some (i, true) ->
    (forall dir b, fanouts d !! dir = Some b -> in_dir dir p = true -> fanouts d' !! dir = Some true) ->
    names d' !! p = Some (i, true);
  crash_loses : forall p dir b, fanouts d !! dir = Some b -> fanouts d' !! dir = None ->
    in_dir dir p = true -> names d' !! p = None;
  crash_synced : forall i n, inodes d !! i = Some n -> synced n = true -> inodes d' !! i = Some n;
  crash_inodes : forall i, is_Some (inodes d !! i) <-> is_Some (inodes d' !! i);
  crash_next : next_inode d' = next_inode d;
}.

(** ** Reading after writing *)

Lemma write_with_names g p d : names (write_with g p d) = names d.
Proof. unfold write_with. by destruct (inode_of p d). Qed.

Lemma sync_file_names p d : names (sync_file p d) = names d.
Proof. unfold sync_file. by destruct (inode_of p d). Qed.

Lemma write_with_next g p d : next_inode (write_with g p d) = next_inode d.
Proof. unfold write_with. by destruct (inode_of p d). Qed.

Lemma sync_file_next p d : next_inode (sync_file p d) = next_inode d.
Proof. unfold sync_file. by destruct (inode_of p d). Qed.

Lemma inode_of_write g p q d : inode_of q (write_with g p d) = inode_of q d.
Proof. unfold inode_of. by rewrite write_with_names. Qed.

Lemma inode_of_sync p q d : inode_of q (sync_file p d) = inode_of q d.
Proof. unfold inode_of. by rewrite sync_file_names. Qed.

Lemma read_write_same g p d : read p (write_with g p d) = g <$> read p d.
Proof.
  unfold read. rewrite inode_of_write. unfold write_with. destruct (inode_of p d) as [i|]; [|done]. cbn.
  rewrite lookup_alter_eq. by destruct (inodes d !! i).
Qed.

Lemma read_write_other g p q d : inode_of p d <> inode_of q d -> read q (write_with g p d) = read q d.
Proof.
  intros Hne. unfold read. rewrite inode_of_write. unfold write_with. destruct (inode_of p d) as [i|]; [|done].
  destruct (inode_of q d) as [j|]; [|done]. cbn. rewrite lookup_alter_ne; [done|]. by intros ->.
Qed.

Lemma read_sync p q d : read q (sync_file p d) = read q d.
Proof.
  unfold read. rewrite inode_of_sync. destruct (inode_of q d) as [j|]; [|done]. cbn. unfold sync_file.
  destruct (inode_of p d) as [i|]; [|done]. cbn. destruct (decide (i = j)) as [->|Hne].
  - rewrite lookup_alter_eq. by destruct (inodes d !! j).
  - by rewrite lookup_alter_ne.
Qed.

(** Directories are apart from files. *)
Lemma create_dir_disk dir d : names (create_dir dir d) = names d /\ inodes (create_dir dir d) = inodes d /\
  next_inode (create_dir dir d) = next_inode d.
Proof. unfold create_dir. by destruct (fanouts d !! dir). Qed.

Lemma create_dir_read dir d q : read q (create_dir dir d) = read q d.
Proof. unfold read, inode_of. destruct (create_dir_disk dir d) as (-> & -> & _). done. Qed.

End Disk.

Module BlobStore.
Import Disk.

Section store.
Context {SHA BLAKE : Type} `{Hasher SHA} `{Hasher BLAKE}.
(** The root of the layout, and the identifier of a quarantine or staging name. *)
Context (root : text).

Definition RAW_PROFILE_V1 : string := "raw-v1".
Definition ENCODED_REPRESENTATION_DOMAIN : string := "rabs.encoded-representation.sha256.v1".
Definition REASON_OBJECT_COLLISION_QUARANTINED : string := "OBJECT_COLLISION_QUARANTINED".

Record StoredRepresentationId := {
  logical : TypedDigest;
  storage_profile : string;
  encoded_digest : TypedDigest;
  encoded_size : Z;
}.

Record DurabilityPolicy := { fsync_file : bool; fsync_directory : bool }.
Definition FULL : DurabilityPolicy := {| fsync_file := true; fsync_directory := true |}.
Definition is_full (p : DurabilityPolicy) : bool := fsync_file p && fsync_directory p.

Record PutLimits := { max_logical_bytes : option Z; expected : option Z }.

Inductive FaultPoint := StagingWritten | StagingSynced | Linked | DirectorySynced | MetadataRecorded.

#[export] Instance FaultPoint_eq_dec : EqDecision FaultPoint.
Proof. solve_decision. Defined.

Inductive PutError :=
  | LogicalLimitExceeded (limit : Z)
  | Digest (e : DigestError)
  | DeclaredDigestMismatch (declared computed : text)
  | CollisionIncident (digest existing_path preserved_incoming_path : text)
  | EncodingDecodeFailed (profile : string)
  | StoreFailure (e : StoreError)
  | Io (step : string)
  | CrashInjected (at_ : FaultPoint).

Inductive PutOutcome := Stored (path : text) | IdempotentDuplicate (path : text).

(** The file system, the [objects] table, the other tables, and the process that writes. *)
Record world := {
  fs : disk;
  objects : gmap text (TypedDigest * Z);
  meta : ledger;
  pid : Z;
  put_counter : Z;
}.

Definition on_fs (f : disk -> disk) (w : world) : world :=
  {| fs := f (fs w); objects := objects w; meta := meta w; pid := pid w; put_counter := put_counter w |}.

Abbreviation io := (method world PutError).

Definition disk_op (f : disk -> disk) : io unit := modify (on_fs f).

(** ** Paths *)

Definition published_path (logical : TypedDigest) (profile : string) (encoded : TypedDigest) : text :=
  let logical_hex := hex (digest_bytes logical) in
  root ++ str_bytes "/objects/" ++ take 2 logical_hex ++ [SLASH]
  ++ logical_hex ++ str_bytes "." ++ str_bytes profile ++ str_bytes "." ++ hex (digest_bytes encoded).

(** [target.parent()]. *)
Definition fanout_dir (logical : TypedDigest) : text :=
  root ++ str_bytes "/objects/" ++ take 2 (hex (digest_bytes logical)).

Definition staging_name (pid n : Z) : text :=
  root ++ str_bytes "/staging/put-" ++ show_u64 pid ++ str_bytes "-" ++ show_u64 n ++ str_bytes ".tmp".

Definition incoming_name (logical : TypedDigest) (pid n : Z) : text :=
  root ++ str_bytes "/quarantine/incoming-" ++ hex (digest_bytes logical) ++ str_bytes "-"
  ++ show_u64 pid ++ str_bytes "-" ++ show_u64 n.

(** [PUT_COUNTER.fetch_add(1)]. *)
Definition next_name (name : Z -> Z -> text) : io text := fun w =>
  (Ok (name (pid w) (put_counter w)),
   {| fs := fs w; objects := objects w; meta := meta w; pid := pid w;
      put_counter := wadd 64 (put_counter w) 1 |}).

Definition fresh_staging_path : io text := next_name staging_name.
Definition quarantine_path (logical : TypedDigest) : io text := next_name (incoming_name logical).

(** ** Digests of files *)

(** The reads of a file with a buffer of 64 KiB. *)
Fixpoint reads (fuel : nat) (bs : list Z) : list (list Z) :=
  match fuel, bs with
  | S fuel, _ :: _ => take (64 * 1024) bs :: reads fuel (drop (64 * 1024) bs)
  | _, _ => []
  end.

Definition file_reads (bs : list Z) : list (list Z) := reads (length bs) bs.

Definition read_file (p : text) (step : string) : io (list Z) := fun w =>
  match read p (fs w) with
  | Some bs => (Ok bs, w)
  | None => (Err (Io step), w)
  end.

Definition hash_bytes (dom : string) (chunks : list (list Z)) : TypedDigest :=
  let (len, name) := domain_prefix dom in
  {| algorithm := Sha256V1; domain := dom;
     digest_bytes := h_finalize (fold_left (fun h c => h_update c h) chunks
                                   (h_update name (h_update len (h_new : SHA)))) |}.

Definition hash_file_under_domain (p : text) (dom : string) : io TypedDigest :=
  bs ← read_file p "open-existing";
  mret (hash_bytes dom (file_reads bs)).

Definition content_digest (chunks : list (list Z)) (expected : option Z) : result DigestError digests :=
  stream_digest (SHA := SHA) (BLAKE := BLAKE) chunks default_request expected.

Definition recompute_file_digest (p : text) : io TypedDigest :=
  bs ← read_file p "open-existing";
  match content_digest (file_reads bs) None with
  | Ok set => mret (atp_content_id set)
  | Err e => throw (Digest e)
  end.

(** ** Metadata *)

Definition store_op {A} (m : ldb A) : io A := fun w =>
  match m (meta w) with
  | (Ok a, l) => (Ok a, {| fs := fs w; objects := objects w; meta := l; pid := pid w;
                           put_counter := put_counter w |})
  | (Err e, l) => (Err (StoreFailure e), {| fs := fs w; objects := objects w; meta := l; pid := pid w;
                                            put_counter := put_counter w |})
  end.

Definition record_object (id : TypedDigest) (logical_size : Z) : io unit :=
  _ ← store_op (Ledger.intern (domain id));
  size ← store_op (lift_result (to_i64 "logical_size" logical_size));
  modify (fun w => {| fs := fs w; objects := <[digest_key id := (id, size)]> (objects w);
                      meta := meta w; pid := pid w; put_counter := put_counter w |}).

Definition record_location (declared : TypedDigest) (target : text) (profile : string) (durable : bool) :
    io unit :=
  store_op (with_base (add_location declared target None profile durable)).

(** ** The pipeline *)

Definition fault_at (fault : option FaultPoint) (p : FaultPoint) : io unit :=
  refuse_if (bool_decide (fault = Some p)) (CrashInjected p).

(** The loop of [stream_to_staging]: the reader gives [chunks], an empty one being its end. *)
Fixpoint stream_loop (staging : text) (limits : PutLimits) (total : Z) (chunks : list (list Z))
    (writer : StreamingObjectWriter (SHA := SHA) (BLAKE := BLAKE)) :
    io (StreamingObjectWriter (SHA := SHA) (BLAKE := BLAKE)) :=
  match chunks with
  | [] | [] :: _ => mret writer
  | c :: chunks =>
      let total := sat_add 64 total (Z.of_nat (length c)) in
      let over := match max_logical_bytes limits with Some limit => limit <? total | None => false end in
      if over then throw (LogicalLimitExceeded (default 0 (max_logical_bytes limits)))
      else
        match write c writer with
        | (Err e, _) => throw (Digest e)
        | (Ok _, writer) =>
            _ ← disk_op (append staging c);
            stream_loop staging limits total chunks writer
        end
  end.

Definition stream_to_staging (staging : text) (reader : list (list Z)) (limits : PutLimits) : io digests :=
  _ ← disk_op (create staging);
  writer ← stream_loop staging limits 0 reader (writer_new default_request (expected limits));
  match finish writer with
  | Ok set => mret set
  | Err e => throw (Digest e)
  end.

(** [match result { Err(e) => { remove_file(path); return Err(e) } .. }]. *)
Definition or_remove {A} (path : text) (m : io A) : io A := fun w =>
  match m w with
  | (Ok a, w) => (Ok a, w)
  | (Err e, w) => (Err e, on_fs (remove_file path) w)
  end.

Definition handle_existing (declared : TypedDigest) (logical_size : Z) (profile : string)
    (file_digest : TypedDigest) (staging target : text) (durability : DurabilityPolicy) : io PutOutcome :=
  existing_digest ← hash_file_under_domain target (domain file_digest);
  if bool_decide (existing_digest = file_digest) then
    _ ← (if is_full durability
         then disk_op (fun d => sync_dir (fanout_dir declared) (sync_file target d)) else mret tt);
    _ ← record_object declared logical_size;
    _ ← record_location declared target profile (is_full durability);
    _ ← disk_op (remove_file staging);
    mret (IdempotentDuplicate target)
  else
    preserved ← quarantine_path declared;
    w ← get;
    _ ← refuse_if (negb (exists_file staging (fs w))) (Io "preserve-incoming");
    _ ← disk_op (rename staging preserved);
    _ ← store_op (add_quarantine LogicalObject (digest_key declared) REASON_OBJECT_COLLISION_QUARANTINED);
    _ ← store_op (with_base (set_location_quarantined declared target true));
    throw (CollisionIncident (digest_key declared) target preserved).

Definition publish_staged_inner (declared : TypedDigest) (staging : text) (logical_size : Z)
    (durability : DurabilityPolicy) (fault : option FaultPoint) (profile : string)
    (file_digest : TypedDigest) : io PutOutcome :=
  _ ← (if fsync_file durability then
         w ← get;
         _ ← refuse_if (negb (exists_file staging (fs w))) (Io "open-for-sync");
         disk_op (sync_file staging)
       else mret tt);
  _ ← fault_at fault StagingSynced;
  let target := published_path declared profile file_digest in
  _ ← disk_op (create_dir (fanout_dir declared));
  w ← get;
  match hard_link staging target (fs w) with
  | Err AlreadyExists =>
      handle_existing declared logical_size profile file_digest staging target durability
  | Err NotFound => _ ← disk_op (remove_file staging); throw (Io "publish-link")
  | Ok linked =>
      _ ← disk_op (fun _ => linked);
      _ ← fault_at fault Linked;
      _ ← (if fsync_directory durability then disk_op (sync_dir (fanout_dir declared)) else mret tt);
      _ ← fault_at fault DirectorySynced;
      _ ← record_object declared logical_size;
      _ ← record_location declared target profile (is_full durability);
      _ ← fault_at fault MetadataRecorded;
      _ ← disk_op (remove_file staging);
      mret (Stored target)
  end.

Definition publish_staged (declared : TypedDigest) (staging : text) (durability : DurabilityPolicy) :
    io PutOutcome :=
  bs ← read_file staging "stat-staging";
  publish_staged_inner declared staging (Z.of_nat (length bs)) durability None RAW_PROFILE_V1 declared.

(** Verify the computed identity against the declared one, removing the staging file otherwise. *)
Definition verify_declared (staging : text) (declared computed : TypedDigest) : io unit :=
  if bool_decide (computed = declared) then mret tt
  else
    _ ← disk_op (remove_file staging);
    throw (DeclaredDigestMismatch (digest_key declared) (digest_key computed)).

Definition put_if_absent_with_fault (declared : TypedDigest) (reader : list (list Z)) (limits : PutLimits)
    (durability : DurabilityPolicy) (fault : option FaultPoint) : io PutOutcome :=
  staging ← fresh_staging_path;
  set ← or_remove staging (stream_to_staging staging reader limits);
  _ ← verify_declared staging declared (atp_content_id set);
  _ ← fault_at fault StagingWritten;
  publish_staged_inner declared staging (logical_size set) durability fault RAW_PROFILE_V1 declared.

Definition put_if_absent (declared : TypedDigest) (reader : list (list Z)) (limits : PutLimits)
    (durability : DurabilityPolicy) : io PutOutcome :=
  put_if_absent_with_fault declared reader limits durability None.

(** ** Encoded representations *)

(** The chunks a reader gives before its end. *)
Fixpoint until_end (chunks : list (list Z)) : list (list Z) :=
  match chunks with
  | [] | [] :: _ => []
  | c :: chunks => c :: until_end chunks
  end.

Definition stream_encoded (staging : text) (encoded : list (list Z)) (limits : PutLimits) :
    io (TypedDigest * Z) :=
  let chunks := until_end encoded in
  let total := fold_left (fun t c => sat_add 64 t (Z.of_nat (length c))) chunks 0 in
  _ ← disk_op (create staging);
  _ ← disk_op (append staging (concat chunks));
  match expected limits with
  | Some e =>
      if negb (e =? total) then throw (Digest (LogicalSizeMismatch e total))
      else mret (hash_bytes ENCODED_REPRESENTATION_DOMAIN chunks, total)
  | None => mret (hash_bytes ENCODED_REPRESENTATION_DOMAIN chunks, total)
  end.

Definition verify_encoded (staging : text) (declared : TypedDigest) (profile : string)
    (decoder : list Z -> option (list Z)) (limits : PutLimits) : io Z :=
  bs ← read_file staging "read-staged";
  match decoder bs with
  | None => throw (EncodingDecodeFailed profile)
  | Some logical_bytes =>
      let size := Z.of_nat (length logical_bytes) in
      _ ← (match max_logical_bytes limits with
           | Some limit => refuse_if (limit <? size) (LogicalLimitExceeded limit)
           | None => mret tt
           end);
      match digest_set (SHA := SHA) (BLAKE := BLAKE) logical_bytes default_request None with
      | Err e => throw (Digest e)
      | Ok set =>
          if bool_decide (atp_content_id set = declared) then mret size
          else throw (DeclaredDigestMismatch (digest_key declared) (digest_key (atp_content_id set)))
      end
  end.

Definition put_encoded_representation (declared : TypedDigest) (profile : string)
    (encoded : list (list Z)) (decoder : list Z -> option (list Z)) (limits : PutLimits)
    (durability : DurabilityPolicy) : io (StoredRepresentationId * PutOutcome) :=
  staging ← fresh_staging_path;
  streamed ← or_remove staging (stream_encoded staging encoded limits);
  size ← or_remove staging (verify_encoded staging declared profile decoder limits);
  outcome ← publish_staged_inner declared staging size durability None profile (fst streamed);
  mret ({| logical := declared; storage_profile := profile; encoded_digest := fst streamed;
           encoded_size := snd streamed |}, outcome).

End store.
End BlobStore.
