(* ===== verification/Journal.v ===== *)
(** * Staging directories and append journals (rabs-cas/src/staging_journal.rs)

    [Framing] is the framed, checksummed append format the lifecycle journal and the range
    journal of sparse transfers share; [Journal] is the journal of one operation, the
    journaled put and the recovery that resolves what a dead process left.

    The first half of each module translates the source; the facts about the format (a torn
    tail is recognised whatever its length, nothing before it is lost) follow.  What recovery
    guarantees about the store is in Recovery.v.

    The names of operations and attempts are the hexadecimal forms the source makes of its
    128-bit identifiers; path components such as two dots are not resolved.  The text of an
    error in an [aborted] record is a parameter. *)

From stdpp Require Import base gmap list strings.
From Stdlib Require Import ZArith Lia.
From S2P Require Import Prelude Bytes Text Numerals Manifest Digest Pack Store Ledger Blobs.
Import ResultIdentity DigestSet Pack Store Ledger Disk BlobStore.

Abbreviation io := (method world PutError).

Module JournalFrames.
Section framing.
Context {BLAKE : Type} `{Hasher BLAKE}.

Definition blake3_hash (bs : list Z) : list Z := h_finalize (h_update bs (h_new : BLAKE)).

Definition record_checksum (payload : list Z) : list Z := take 4 (blake3_hash payload).

Definition framed_record (payload : list Z) : list Z :=
  be_bytes 4 (Z.of_nat (length payload)) ++ payload ++ record_checksum payload.

(** [OpenOptions::new().create(true).append(true).open(path)]. *)
Definition open_append (p : text) (d : disk) : disk := if exists_file p d then d else create p d.

Definition append_framed (path : text) (payload : list Z) : io unit :=
  _ ← disk_op (open_append path);
  _ ← disk_op (append path (framed_record payload));
  disk_op (sync_file path).

(** [bytes.get(from..from + len)]. *)
Definition get_range (from len : nat) (bs : list Z) : option (list Z) :=
  if decide (from + len <= length bs)%nat then Some (take len (drop from bs)) else None.

(** The loop of [replay_framed]; [bs] is what lies at the cursor and beyond. *)
Fixpoint replay_bytes (fuel : nat) (bs : list Z) : list (list Z) * bool :=
  match fuel, bs with
  | S fuel, _ :: _ =>
      match get_range 0 4 bs with
      | None => ([], true)
      | Some header =>
          let len := Z.to_nat (from_be header) in
          match get_range 4 len bs with
          | None => ([], true)
          | Some payload =>
              match get_range (4 + len) 4 bs with
              | None => ([], true)
              | Some stored_sum =>
                  if bool_decide (stored_sum = record_checksum payload) then
                    let (payloads, torn) := replay_bytes fuel (drop (8 + len) bs) in
                    (payload :: payloads, torn)
                  else ([], true)
              end
          end
      end
  | _, _ => ([], false)
  end.

Definition replay_framed (path : text) (d : disk) : list (list Z) * bool :=
  match read path d with
  | None => ([], false)
  | Some bs => replay_bytes (length bs) bs
  end.

End framing.
End JournalFrames.

Module Journal.
Import JournalFrames.

Section journal.
Context {SHA BLAKE : Type} `{Hasher SHA} `{Hasher BLAKE}.
Context (root : text).
(** [format!("{e:?}")]. *)
Context (debug : PutError -> text).

Definition BAR : Z := 124.

Inductive JournalRecord :=
  | Begin (attempt_hex declared_key : text)
  | Published (attempt_hex : text)
  | Aborted (attempt_hex reason : text).

Definition encode (r : JournalRecord) : text :=
  match r with
  | Begin a k => str_bytes "begin|" ++ a ++ [BAR] ++ k
  | Published a => str_bytes "published|" ++ a
  | Aborted a reason => str_bytes "aborted|" ++ a ++ [BAR] ++ reason
  end.

(** One step of [splitn(_, '|')] with parts left: the text before the bar and what follows. *)
Fixpoint cut_bar (s : text) : text * option text :=
  match s with
  | [] => ([], None)
  | b :: s =>
      if b =? BAR then ([], Some s)
      else let (x, rest) := cut_bar s in (b :: x, rest)
  end.

Definition decode (payload : text) : option JournalRecord :=
  match cut_bar payload with
  | (_, None) => None
  | (kind, Some rest) =>
      let (attempt_hex, third) := cut_bar rest in
      if is_lit kind "begin" then Begin attempt_hex <$> third
      else if is_lit kind "published" then Some (Published attempt_hex)
      else if is_lit kind "aborted" then Some (Aborted attempt_hex (default [] third))
      else None
  end.

Record JournalReplay := { records : list JournalRecord; torn_tail : bool }.

Fixpoint decode_all (payloads : list (list Z)) (torn : bool) : JournalReplay :=
  match payloads with
  | [] => {| records := []; torn_tail := torn |}
  | payload :: payloads =>
      match (if utf8_valid payload then decode payload else None) with
      | None => {| records := []; torn_tail := true |}
      | Some r =>
          let rest := decode_all payloads torn in
          {| records := r :: records rest; torn_tail := torn_tail rest |}
      end
  end.

Definition replay_file (path : text) (d : disk) : JournalReplay :=
  let (payloads, torn) := replay_framed (BLAKE := BLAKE) path d in
  decode_all payloads torn.

(** ** Paths *)

Definition u128_hex (v : Z) : text := hex (be_bytes 16 v).

Definition journals_dir : text := root ++ str_bytes "/journals".

Definition journal_path (op_hex : text) : text :=
  journals_dir ++ [SLASH] ++ op_hex ++ str_bytes ".journal".

Definition op_staging_dir (op_hex : text) : text := root ++ str_bytes "/staging/" ++ op_hex.

Definition attempt_dir (op_hex attempt_hex : text) : text := op_staging_dir op_hex ++ [SLASH] ++ attempt_hex.

Definition staged_object (op_hex attempt_hex : text) : text :=
  attempt_dir op_hex attempt_hex ++ str_bytes "/object".

(** [fs::remove_dir_all]. *)
Definition remove_dir_all (dir : text) (d : disk) : disk :=
  {| names := filter (fun e => in_dir dir (fst e) = false) (names d);
     inodes := inodes d; next_inode := next_inode d;
     fanouts := filter (fun e => in_dir dir (fst e) = false /\ fst e <> dir) (fanouts d) |}.

(** ** The journal of an operation *)

Definition journal_append (op_hex : text) (r : JournalRecord) : io unit :=
  append_framed (BLAKE := BLAKE) (journal_path op_hex) (encode r).

Definition stage_verify_publish (declared : TypedDigest) (reader : list (list Z)) (limits : PutLimits)
    (durability : DurabilityPolicy) (staging : text) : io PutOutcome :=
  set ← or_remove staging (stream_to_staging (SHA := SHA) (BLAKE := BLAKE) staging reader limits);
  _ ← verify_declared staging declared (atp_content_id set);
  publish_staged (SHA := SHA) root declared staging durability.

(** What is written before any byte of the object. *)
Definition begin_attempt (op_hex attempt_hex : text) (declared : TypedDigest) : io unit :=
  _ ← disk_op (create_dir journals_dir);
  _ ← disk_op (fun d => create_dir (attempt_dir op_hex attempt_hex) (create_dir (op_staging_dir op_hex) d));
  journal_append op_hex (Begin attempt_hex (digest_key declared)).

(** The terminal record of an attempt, and the end of its staging directory. *)
Definition end_attempt (op_hex attempt_hex : text) (outcome : result PutError PutOutcome) : io PutOutcome :=
  _ ← journal_append op_hex (match outcome with
                             | Ok _ => Published attempt_hex
                             | Err e => Aborted attempt_hex (debug e)
                             end);
  _ ← disk_op (remove_dir_all (attempt_dir op_hex attempt_hex));
  lift_result outcome.

(** Run to the outcome, success or error, and go on with it. *)
Definition with_outcome {A B} (m : io A) (k : result PutError A -> io B) : io B := fun w =>
  let (outcome, w) := m w in k outcome w.

Definition put_if_absent_journaled (op attempt : Z) (declared : TypedDigest) (reader : list (list Z))
    (limits : PutLimits) (durability : DurabilityPolicy) : io PutOutcome :=
  let op_hex := u128_hex op in
  let attempt_hex := u128_hex attempt in
  _ ← begin_attempt op_hex attempt_hex declared;
  with_outcome
    (stage_verify_publish declared reader limits durability (staged_object op_hex attempt_hex))
    (end_attempt op_hex attempt_hex).

(** ** Recovery *)

Inductive RecoveryAction := Resumed (path : text) | Cleaned.

Record RecoveryReport := {
  resolved : list (text * text * RecoveryAction);
  torn_journals : list text;
  retired_journals : list text;
}.

Definition report_default : RecoveryReport :=
  {| resolved := []; torn_journals := []; retired_journals := [] |}.

Definition add_resolved x r :=
  {| resolved := resolved r ++ [x]; torn_journals := torn_journals r; retired_journals := retired_journals r |}.
Definition add_torn x r :=
  {| resolved := resolved r; torn_journals := torn_journals r ++ [x]; retired_journals := retired_journals r |}.
Definition add_retired x r :=
  {| resolved := resolved r; torn_journals := torn_journals r; retired_journals := retired_journals r ++ [x] |}.

(** [path.extension() == "journal"] of an entry of the directory, and its [file_stem]. *)
Definition journal_stem (p : text) : option text :=
  match strip_prefix (journals_dir ++ [SLASH]) p with
  | None => None
  | Some name =>
      let n := (length name - 8)%nat in
      if contains_byte SLASH name || negb (is_lit (drop n name) ".journal") || (n =? 0)%nat then None
      else Some (take n name)
  end.

Definition bytes_leb (a b : text) : bool := match bytes_cmp a b with Gt => false | _ => true end.

Definition journal_files (d : disk) : list text :=
  sort_by bytes_leb (filter (fun p => is_Some (journal_stem p)) (fst <$> map_to_list (names d))).

(** An attempt, its declared key, and whether it is terminal. *)
Abbreviation attempts := (list (text * option text * bool)).

Fixpoint mark_terminal (a : text) (l : attempts) : attempts :=
  match l with
  | [] => []
  | (a', k, t) :: l => if bool_decide (a' = a) then (a', k, true) :: l else (a', k, t) :: mark_terminal a l
  end.

Definition fold_record (l : attempts) (r : JournalRecord) : attempts :=
  match r with
  | Begin a k => if existsb (fun e => bool_decide (fst (fst e) = a)) l then l else l ++ [(a, Some k, false)]
  | Published a | Aborted a _ => mark_terminal a l
  end.

Definition fold_records (rs : list JournalRecord) : attempts := fold_left fold_record rs [].

Definition resolve_open_attempt (declared_key : option text) (staged : text) (durability : DurabilityPolicy) :
    io RecoveryAction :=
  match declared_key with
  | None => mret Cleaned
  | Some key =>
      w ← get;
      if negb (exists_file staged (fs w)) then mret Cleaned
      else with_outcome (recompute_file_digest (SHA := SHA) (BLAKE := BLAKE) staged) (fun digest =>
        match digest with
        | Err _ => mret Cleaned
        | Ok recomputed =>
            if negb (bool_decide (digest_key recomputed = key)) then mret Cleaned
            else with_outcome (publish_staged (SHA := SHA) root recomputed staged durability) (fun outcome =>
              match outcome with
              | Ok (Stored path) | Ok (IdempotentDuplicate path) => mret (Resumed path)
              | Err (CollisionIncident _ _ _) => mret Cleaned
              | Err e => throw e
              end)
        end)
  end.

Fixpoint resolve_attempts (op_hex : text) (durability : DurabilityPolicy) (l : attempts)
    (report : RecoveryReport) : io RecoveryReport :=
  match l with
  | [] => mret report
  | (a, _, true) :: l =>
      _ ← disk_op (remove_dir_all (attempt_dir op_hex a));
      resolve_attempts op_hex durability l report
  | (a, key, false) :: l =>
      action ← resolve_open_attempt key (staged_object op_hex a) durability;
      _ ← disk_op (remove_dir_all (attempt_dir op_hex a));
      resolve_attempts op_hex durability l (add_resolved (op_hex, a, action) report)
  end.

Definition recover_journal (durability : DurabilityPolicy) (path : text) (report : RecoveryReport) :
    io RecoveryReport :=
  let op_hex := default [] (journal_stem path) in
  w ← get;
  let replay := replay_file path (fs w) in
  let report := if torn_tail replay then add_torn op_hex report else report in
  report ← resolve_attempts op_hex durability (fold_records (records replay)) report;
  _ ← disk_op (remove_dir_all (op_staging_dir op_hex));
  w ← get;
  _ ← refuse_if (negb (exists_file path (fs w))) (Io "retire-journal");
  _ ← disk_op (remove_file path);
  mret (add_retired op_hex report).

Fixpoint recover_journals (durability : DurabilityPolicy) (paths : list text) (report : RecoveryReport) :
    io RecoveryReport :=
  match paths with
  | [] => mret report
  | path :: paths =>
      report ← recover_journal durability path report;
      recover_journals durability paths report
  end.

Definition recover_operations (durability : DurabilityPolicy) : io RecoveryReport :=
  _ ← disk_op (create_dir journals_dir);
  w ← get;
  recover_journals durability (journal_files (fs w)) report_default.

End journal.
End Journal.

(** ** What replay returns *)

Module JournalFacts.
Import JournalFrames Journal.

Section frames.
Context {BLAKE : Type} `{Hasher BLAKE} (blk : list Z -> list Z) `{!HasherLaw BLAKE blk}.

Abbreviation frame := (framed_record (BLAKE := BLAKE)).
Abbreviation replay := (replay_bytes (BLAKE := BLAKE)).

Lemma checksum_length p : length (record_checksum (BLAKE := BLAKE) p) = 4%nat.
Proof.
  unfold record_checksum, blake3_hash. rewrite length_take.
  pose proof (h_chunks (hash := blk) [p]) as Hc. cbn in Hc. rewrite Hc.
  by rewrite (h_width (hash := blk)).
Qed.

Lemma frame_length p : length (frame p) = (8 + length p)%nat.
Proof. unfold framed_record. rewrite !length_app, be_bytes_length, checksum_length. lia. Qed.

(** A payload whose length fits the header. *)
Definition fits (p : list Z) : Prop := Z.of_nat (length p) < 2 ^ 32.

Lemma get_range_app from len a b c :
  length a = from -> length b = len -> get_range from len (a ++ b ++ c) = Some b.
Proof.
  intros <- <-. unfold get_range. rewrite decide_True by (rewrite !length_app; lia).
  by rewrite drop_app_length, take_app_length.
Qed.

Lemma get_range_head len b c : length b = len -> get_range 0 len (b ++ c) = Some b.
Proof. intros Hb. by apply (get_range_app 0 len []). Qed.

Lemma header_len p : fits p -> Z.to_nat (from_be (be_bytes 4 (Z.of_nat (length p)))) = length p.
Proof.
  intros Hp. unfold fits in Hp. rewrite from_be_be, Nat2Z.id; [done|].
  change (256 ^ Z.of_nat 4) with (2 ^ 32). lia.
Qed.

Lemma replay_frame p rest fuel :
  fits p ->
  replay (S fuel) (frame p ++ rest) = let (ps, t) := replay fuel rest in (p :: ps, t).
Proof.
  intros Hp. unfold framed_record. rewrite <- !app_assoc.
  set (hd := be_bytes 4 _). assert (Hhd : length hd = 4%nat) by apply be_bytes_length.
  cbn [replay_bytes]. rewrite (get_range_head 4 hd) by done.
  destruct (hd ++ _) as [|b bs] eqn:E; [by destruct hd|]. rewrite <- E. clear b bs E.
  assert (Hlen : Z.to_nat (from_be hd) = length p) by by apply header_len.
  rewrite Hlen, (get_range_app 4 (length p) hd p) by done.
  rewrite (app_assoc hd p), (get_range_app (4 + length p) 4 (hd ++ p)) by (rewrite ?length_app, ?checksum_length; lia).
  rewrite bool_decide_eq_true_2 by done.
  rewrite (app_assoc (hd ++ p)), drop_app_length'; [done|]. rewrite !length_app, checksum_length. lia.
Qed.

(** More fuel than bytes changes nothing. *)
Lemma replay_fuel fuel fuel' bs :
  (length bs <= fuel)%nat -> (fuel <= fuel')%nat -> replay fuel' bs = replay fuel bs.
Proof.
  revert fuel' bs. induction fuel as [|fuel IH]; intros fuel' bs Hl Hf.
  { destruct bs; [by destruct fuel'|cbn in Hl; lia]. }
  destruct fuel' as [|fuel']; [lia|]. destruct bs as [|b bs]; [done|]. cbn [replay_bytes].
  destruct (get_range 0 4 (b :: bs)) as [hd|]; [|done].
  destruct (get_range 4 _ (b :: bs)) as [p|]; [|done].
  destruct (get_range (4 + _) 4 (b :: bs)) as [sum|]; [|done].
  destruct (bool_decide _); [|done].
  rewrite (IH fuel'); [done|rewrite length_drop; cbn [length] in *; lia|lia].
Qed.

(** Replay returns every record written before whatever follows. *)
Lemma replay_app ps rest fuel :
  Forall fits ps -> (length (concat (frame <$> ps) ++ rest) <= fuel)%nat ->
  replay fuel (concat (frame <$> ps) ++ rest)
  = let (qs, t) := replay (length rest) rest in (ps ++ qs, t).
Proof.
  intros Hps. revert fuel. induction Hps as [|p ps Hp _ IH]; intros fuel Hl; cbn [fmap list_fmap concat app].
  - cbn [fmap list_fmap concat app] in Hl. rewrite (replay_fuel (length rest)) by done. by destruct (replay _ _).
  - cbn [fmap list_fmap concat app] in Hl. rewrite <- app_assoc in Hl |- *.
    rewrite length_app, frame_length in Hl. destruct fuel as [|fuel]; [lia|].
    rewrite replay_frame, IH by (done || lia). by destruct (replay (length rest) rest).
Qed.

Lemma get_range_short from len bs : (length bs < from + len)%nat -> get_range from len bs = None.
Proof. intros Hl. unfold get_range. rewrite decide_False by lia. done. Qed.

(** A record cut anywhere is recognised as torn. *)
Lemma replay_torn q n :
  fits q -> (n < length (frame q))%nat ->
  replay (length (take n (frame q))) (take n (frame q)) = ([], negb (n =? 0)%nat).
Proof.
  intros Hq Hn. assert (Hl : length (take n (frame q)) = n) by (rewrite length_take; lia).
  rewrite Hl. destruct n as [|n]; [done|]. cbn [negb Nat.eqb].
  destruct (take (S n) (frame q)) as [|b bs] eqn:E; [done|].
  cbn [replay_bytes]. rewrite <- E in *. clear b bs E.
  destruct (decide (S n < 4)%nat) as [H4|H4]; [by rewrite get_range_short by lia|].
  set (hd := be_bytes 4 (Z.of_nat (length q))). assert (Hhd : length hd = 4%nat) by apply be_bytes_length.
  assert (Hsplit : take (S n) (frame q)
    = hd ++ take (S n - 4) (q ++ record_checksum (BLAKE := BLAKE) q)).
  { unfold framed_record. fold hd. rewrite take_app, Hhd, take_ge by lia. done. }
  rewrite Hsplit at 1. rewrite (get_range_head 4 hd) by done. 
  assert (Hlen : Z.to_nat (from_be hd) = length q) by by apply header_len. rewrite Hlen.
  rewrite frame_length in Hn.
  destruct (decide (S n < 4 + length q)%nat) as [Hq4|Hq4]; [by rewrite get_range_short by lia|].
  rewrite Hsplit at 1. rewrite take_app_ge by lia.
  rewrite (get_range_app 4 (length q) hd q) by done.
  by rewrite (get_range_short (4 + length q)) by lia.
Qed.

End frames.

Section records.
Context {BLAKE : Type} `{Hasher BLAKE} (blk : list Z -> list Z) `{!HasherLaw BLAKE blk}.

Definition attempt_of (r : JournalRecord) : text :=
  match r with Begin a _ | Published a | Aborted a _ => a end.

(** A record the format can carry. *)
Definition writable (r : JournalRecord) : Prop :=
  (BAR ∉ attempt_of r) /\ utf8_valid (encode r) = true /\ fits (encode r).

Lemma cut_bar_app a s : BAR ∉ a -> cut_bar (a ++ BAR :: s) = (a, Some s).
Proof.
  induction a as [|b a IH]; intros Ha; [done|]. apply not_elem_of_cons in Ha as [Hb Ha].
  cbn. destruct (Z.eqb_spec b BAR) as [->|_]; [done|]. by rewrite IH.
Qed.

Lemma cut_bar_none a : BAR ∉ a -> cut_bar a = (a, None).
Proof.
  induction a as [|b a IH]; intros Ha; [done|]. apply not_elem_of_cons in Ha as [Hb Ha].
  cbn. destruct (Z.eqb_spec b BAR) as [->|_]; [done|]. by rewrite IH.
Qed.

Lemma decode_encode r : BAR ∉ attempt_of r -> decode (encode r) = Some r.
Proof.
  intros Ha. destruct r as [a k|a|a reason]; cbn [attempt_of encode] in *; unfold decode.
  - change (str_bytes "begin|" ++ a ++ [BAR] ++ k) with (str_bytes "begin" ++ BAR :: a ++ BAR :: k).
    rewrite cut_bar_app by (by vm_compute; set_solver). by rewrite cut_bar_app.
  - change (str_bytes "published|" ++ a) with (str_bytes "published" ++ BAR :: a).
    rewrite cut_bar_app by (by vm_compute; set_solver). by rewrite cut_bar_none.
  - change (str_bytes "aborted|" ++ a ++ [BAR] ++ reason) with (str_bytes "aborted" ++ BAR :: a ++ BAR :: reason).
    rewrite cut_bar_app by (by vm_compute; set_solver). by rewrite cut_bar_app.
Qed.

Lemma decode_all_encode rs torn :
  Forall writable rs -> decode_all (encode <$> rs) torn = {| records := rs; torn_tail := torn |}.
Proof.
  induction 1 as [|r rs (Ha & Hu & _) _ IH]; [done|]. cbn [fmap list_fmap decode_all].
  rewrite Hu, decode_encode by done. by rewrite IH.
Qed.

(** C32: replay is exact up to the tear: of a journal that holds any records followed by any
    proper prefix of one more frame, be it cut in the length, in the payload or in the
    checksum, replay returns those records and reports a tear exactly when bytes of the
    unfinished frame are there. *)
Theorem replay_exact path d rs r n :
  Forall writable rs -> writable r -> (n < length (framed_record (BLAKE := BLAKE) (encode r)))%nat ->
  read path d = Some (concat (framed_record (BLAKE := BLAKE) <$> (encode <$> rs))
                      ++ take n (framed_record (BLAKE := BLAKE) (encode r))) ->
  replay_file (BLAKE := BLAKE) path d = {| records := rs; torn_tail := negb (n =? 0)%nat |}.
Proof.
  intros Hrs (_ & _ & Hr) Hn Hrd. unfold replay_file, replay_framed. rewrite Hrd.
  assert (Hfit : Forall fits (encode <$> rs)) by (apply Forall_fmap; eapply Forall_impl; [exact Hrs|by intros x (_ & _ & ?)]).
  rewrite (replay_app blk), (replay_torn blk) by done.
  rewrite app_nil_r. by apply decode_all_encode.
Qed.

End records.

(** A journal with one record and five bytes of another. *)
Definition sample_records : list JournalRecord := [Begin (u128_hex 2) (str_bytes "key")].
Definition sample_next : JournalRecord := Published (u128_hex 2).
Definition sample_disk : disk :=
  {| names := {[ [] := (0, true) ]};
     inodes := {[ 0 := {| data := concat (framed_record (BLAKE := list Z) <$> (encode <$> sample_records))
                                  ++ take 5 (framed_record (BLAKE := list Z) (encode sample_next));
                          synced := false |} ]};
     next_inode := 1; fanouts := ∅ |}.

Definition writableb (r : JournalRecord) : bool :=
  negb (contains_byte BAR (attempt_of r)) && utf8_valid (encode r) && (Z.of_nat (length (encode r)) <? 2 ^ 32).

Lemma writableb_spec r : writableb r = true -> writable r.
Proof.
  unfold writableb. rewrite !andb_true_iff, negb_true_iff, contains_byte_false. intros [[Ha Hu] Hf].
  split; [done|]. split; [done|]. unfold fits. lia.
Qed.

Lemma replay_exact_witness :
  replay_file (BLAKE := list Z) [] sample_disk = {| records := sample_records; torn_tail := true |}.
Proof.
  refine (replay_exact toy_hash [] sample_disk sample_records sample_next 5 _ _ _ _).
  - repeat constructor; apply writableb_spec; by vm_compute.
  - apply writableb_spec; by vm_compute.
  - vm_compute. lia.
  - by vm_compute.
Defined.

End JournalFacts.
