(* ===== verification/Durability.v ===== *)
(** * Durability of the blob store

    The pipeline of Blobs.v under crashes: an invariant of the disk that every operation of
    a put keeps ([safe]), triples that carry it through the monadic code, histories of puts
    (plain and journaled), recoveries and crashes, and what follows when writers sync their
    files and do not draw a staging name in use ([disciplined]): what is published is intact,
    rows that claim durability are true, a retry converges.  The last part exhibits what the
    code does not exclude. *)

From stdpp Require Import base gmap list strings relations.
From Stdlib Require Import ZArith Lia.
From S2P Require Import Prelude Bytes Text Numerals Manifest Digest Pack Store Ledger Blobs Journal.
Import ResultIdentity DigestSet Pack Store Ledger.

Module BlobFacts.
Import Disk BlobStore.

Abbreviation io := (method world PutError).

(** ** Hoare triples for the pipeline *)

Section triples.

Definition triple {A} (P : world -> Prop) (m : io A) (Q : A -> world -> Prop) (E : world -> Prop) : Prop :=
  forall w, P w -> match m w with (Ok a, w') => Q a w' | (Err _, w') => E w' end.

Lemma triple_ret {A} (P : world -> Prop) (a : A) (Q : A -> world -> Prop) E :
  (forall w, P w -> Q a w) -> triple P (mret a) Q E.
Proof. intros HQ w Hw. by apply HQ. Qed.

Lemma triple_bind {A B} P (m : io A) (f : A -> io B) R Q E :
  triple P m R E -> (forall a, triple (R a) (f a) Q E) -> triple P (m ≫= f) Q E.
Proof.
  intros Hm Hf w Hw. specialize (Hm w Hw). unfold mbind, method_bind.
  destruct (m w) as [[a|e] w']; [by apply Hf|done].
Qed.

Lemma triple_throw {A} (P E : world -> Prop) e (Q : A -> world -> Prop) :
  (forall w, P w -> E w) -> triple P (throw e) Q E.
Proof. intros HE w Hw. by apply HE. Qed.

Lemma triple_refuse (P E : world -> Prop) c e (Q : unit -> world -> Prop) :
  (forall w, P w -> E w) -> (forall w, c = false -> P w -> Q tt w) -> triple P (refuse_if c e) Q E.
Proof. intros HE HQ w Hw. unfold refuse_if. destruct c; cbn; [by apply HE|by apply HQ]. Qed.

Lemma triple_get (P E : world -> Prop) (Q : world -> world -> Prop) :
  (forall w, P w -> Q w w) -> triple P get Q E.
Proof. intros HQ w Hw. by apply HQ. Qed.

Lemma triple_disk (P E : world -> Prop) f (Q : unit -> world -> Prop) :
  (forall w, P w -> Q tt (on_fs f w)) -> triple P (disk_op f) Q E.
Proof. intros HQ w Hw. by apply HQ. Qed.

Lemma triple_store {A} (P E : world -> Prop) (m : ldb A) (Q : A -> world -> Prop) :
  (forall w r l, P w -> m (meta w) = (r, l) ->
     let w' := {| fs := fs w; objects := objects w; meta := l; pid := pid w; put_counter := put_counter w |} in
     match r with Ok a => Q a w' | Err _ => E w' end) ->
  triple P (store_op m) Q E.
Proof.
  intros HQ w Hw. unfold store_op. destruct (m (meta w)) as [[a|e] l] eqn:Em;
    by apply (HQ w _ l Hw Em).
Qed.

Lemma triple_weaken {A} (P P' : world -> Prop) (m : io A) (Q Q' : A -> world -> Prop) (E E' : world -> Prop) :
  triple P' m Q' E' -> (forall w, P w -> P' w) -> (forall a w, Q' a w -> Q a w) ->
  (forall w, E' w -> E w) -> triple P m Q E.
Proof.
  intros Hm HP HQ HE w Hw. specialize (Hm w (HP w Hw)). destruct (m w) as [[a|e] w']; auto.
Qed.

End triples.

Section facts.
Context {SHA BLAKE : Type} `{Hasher SHA} `{Hasher BLAKE}.
Context (sha blk : list Z -> list Z) `{!HasherLaw SHA sha} `{!HasherLaw BLAKE blk}.
Context (root : text).
(** Whether crashes spare the fan-out directories. *)
Context (dirs_survive : Prop).

(** ** Digests *)

(** The identity of bytes under a domain. *)
Definition id_under (dom : string) (bs : list Z) : TypedDigest :=
  {| algorithm := Sha256V1; domain := dom; digest_bytes := sha (concat (framed dom) ++ bs) |}.

Lemma hash_bytes_id dom chunks : hash_bytes (SHA := SHA) dom chunks = id_under dom (concat chunks).
Proof.
  unfold hash_bytes, id_under, domain_prefix. f_equal.
  assert (Hc : h_finalize (fold_left (fun (h : SHA) c => h_update c h) (framed dom ++ chunks) h_new)
               = sha (concat (framed dom ++ chunks))) by apply h_chunks.
  rewrite concat_app in Hc.
  rewrite <- Hc, fold_left_app. done.
Qed.

Lemma id_under_shape dom bs :
  length (digest_bytes (id_under dom bs)) = 32%nat /\ all_bytes (digest_bytes (id_under dom bs)).
Proof. split; cbn [digest_bytes id_under]; [apply (h_width (hash := sha))|apply (h_bytes (hash := sha))]. Qed.

Lemma id_under_eq dom a b :
  digest_bytes (id_under dom b) = digest_bytes (id_under dom a) -> id_under dom a = id_under dom b.
Proof. unfold id_under. cbn [digest_bytes]. by intros ->. Qed.

Lemma reads_concat fuel bs : (length bs <= fuel)%nat -> concat (reads fuel bs) = bs.
Proof.
  revert bs. induction fuel as [|fuel IH]; intros [|b bs] Hl; try done; [cbn in Hl; lia|].
  cbn [reads concat]. rewrite IH; [apply take_drop|].
  rewrite length_drop. change (64 * 1024)%nat with (S (64 * 1024 - 1)). cbn [length] in *. lia.
Qed.

Lemma file_reads_concat bs : concat (file_reads bs) = bs.
Proof. by apply reads_concat. Qed.

Lemma content_digest_id chunks e set :
  content_digest (SHA := SHA) (BLAKE := BLAKE) chunks e = Ok set ->
  atp_content_id set = id_under ManifestCodec.ATP_OBJECT_CONTENT_DOMAIN (concat chunks).
Proof.
  unfold content_digest. rewrite (stream_ideal sha blk). unfold ideal.
  destruct (_ <=? _); [done|]. destruct e as [n|]; [destruct (_ =? _); [|done]|]; by intros [= <-].
Qed.

(** ** Paths *)

Definition under_objects (p : text) : Prop := exists t, p = root ++ str_bytes "/objects/" ++ t.

Lemma published_under d profile f : under_objects (published_path root d profile f).
Proof. by eexists. Qed.

Lemma outside_objects t u (c : Z) :
  c <> 111 -> t = root ++ SLASH :: c :: u -> ~ under_objects t.
Proof.
  intros Hc -> [v Hv]. apply app_inv_head in Hv. cbn in Hv. by injection Hv as ? _.
Qed.

(** Journals are never linked. *)
Definition under_journals (p : text) : Prop := exists t, p = root ++ str_bytes "/journals/" ++ t.

Lemma outside_journals t u (c : Z) :
  c <> 106 -> t = root ++ SLASH :: c :: u -> ~ under_journals t.
Proof.
  intros Hc -> [v Hv]. apply app_inv_head in Hv. cbn in Hv. by injection Hv as ? _.
Qed.

(** Neither published nor a journal. *)
Definition outside (p : text) : Prop := ~ under_objects p /\ ~ under_journals p.

Lemma staging_outside q n : outside (staging_name root q n).
Proof. split; [by eapply (outside_objects _ _ 115)|by eapply (outside_journals _ _ 115)]. Qed.

Lemma incoming_outside d q n : outside (incoming_name root d q n).
Proof. split; [by eapply (outside_objects _ _ 113)|by eapply (outside_journals _ _ 113)]. Qed.

Lemma show_inj a b : is_u64 a -> is_u64 b -> show_u64 a = show_u64 b -> a = b.
Proof.
  intros Ha Hb Hs. pose proof (parse_show 64 a Ha ltac:(lia)) as Hp.
  rewrite Hs, (parse_show 64 b Hb) in Hp by lia. by injection Hp.
Qed.

Lemma staging_inj q n m : is_u64 n -> is_u64 m -> staging_name root q n = staging_name root q m -> n = m.
Proof.
  intros Hn Hm E. unfold staging_name in E.
  repeat apply app_inv_head in E. apply app_inv_tail in E. by apply show_inj.
Qed.

Lemma staging_not_incoming q n d q' n' : staging_name root q n <> incoming_name root d q' n'.
Proof. intros E. unfold staging_name, incoming_name in E. by apply app_inv_head in E. Qed.

Lemma fanout_holds d profile f : in_dir (fanout_dir root d) (published_path root d profile f) = true.
Proof.
  unfold in_dir, fanout_dir, published_path. apply starts_with_spec.
  eexists. rewrite <- !app_assoc. done.
Qed.

(** ** The invariant *)

(** What a published name stands for. *)
Definition intact (d : disk) (p : text) (i : Z) : Prop :=
  exists logical profile f n, p = published_path root logical profile f /\
    inodes d !! i = Some n /\ synced n = true /\ id_under (domain f) (data n) = f /\
    length (digest_bytes logical) = 32%nat /\
    (profile = RAW_PROFILE_V1 -> f = logical /\ domain f = ManifestCodec.ATP_OBJECT_CONTENT_DOMAIN).

(** A journal has one name. *)
Definition alone (d : disk) : Prop := forall q p i b c, under_journals q ->
  names d !! q = Some (i, b) -> names d !! p = Some (i, c) -> p = q.

Record good (d : disk) : Prop := {
  g_names : forall p i b, names d !! p = Some (i, b) -> i < next_inode d;
  g_inodes : forall i, is_Some (inodes d !! i) -> i < next_inode d;
  g_published : forall p i b, names d !! p = Some (i, b) -> under_objects p -> intact d p i;
  g_journals : alone d;
}.

(** The staging names the process has still to use are free. *)
Definition fresh (w : world) : Prop :=
  is_u64 (put_counter w) /\
  forall n, put_counter w <= n < 2 ^ 64 -> names (fs w) !! staging_name root (pid w) n = None.

(** A location row recorded as durable tells the truth. *)
Definition rows_true (d : disk) (l : ledger) : Prop :=
  dirs_survive -> forall k p row, locations (base l) !! (k, p) = Some row -> loc_durable row = true ->
    under_objects p /\ exists i n, names d !! p = Some (i, true) /\ inodes d !! i = Some n /\ synced n = true.

Record safe (w : world) : Prop := {
  s_good : good (fs w);
  s_fresh : fresh w;
  s_rows : rows_true (fs w) (meta w);
}.

(** A change of the disk that leaves what is published alone. *)
Record keeps (d d' : disk) : Prop := {
  k_back : forall p i b, under_objects p -> names d' !! p = Some (i, b) ->
    exists c, names d !! p = Some (i, c);
  k_forth : forall p i, under_objects p -> names d !! p = Some (i, true) -> names d' !! p = Some (i, true);
  k_inodes : forall p i b n, under_objects p -> names d !! p = Some (i, b) ->
    inodes d !! i = Some n -> synced n = true -> inodes d' !! i = Some n;
}.

Lemma keeps_published d d' : good d -> keeps d d' ->
  forall p i b, names d' !! p = Some (i, b) -> under_objects p -> intact d' p i.
Proof.
  intros Hg [Hn _ Hi] p i b Hp Ho. destruct (Hn p i b Ho Hp) as [c Hc].
  destruct (g_published _ Hg p i c Hc Ho) as (lg & pr & f & n & -> & Hin & Hs & Hid).
  exists lg, pr, f, n. split; [done|]. split; [by eapply Hi|done].
Qed.

Lemma keeps_rows d d' l : keeps d d' -> rows_true d l -> rows_true d' l.
Proof.
  intros [_ Hn Hi] Hr Hds k p row Hl Hd. destruct (Hr Hds k p row Hl Hd) as (Ho & i & n & Hp & Hin & Hs).
  split; [done|]. exists i, n. split; [by apply Hn|]. by split; [eapply Hi|].
Qed.

(** Inodes are allocated from a counter, and a journal has one name. *)
Definition numbered (d : disk) : Prop :=
  (forall p i b, names d !! p = Some (i, b) -> i < next_inode d) /\
  (forall i, is_Some (inodes d !! i) -> i < next_inode d) /\ alone d.

(** Dropping names, or marking them as on disk, keeps journals alone. *)
Lemma alone_sub d d' :
  (forall p i b, names d' !! p = Some (i, b) -> exists c, names d !! p = Some (i, c)) -> alone d -> alone d'.
Proof.
  intros Hb Ha q p i b c Hq [b' Hqi]%Hb [c' Hpi]%Hb. by eapply Ha.
Qed.

(** So does a name for an inode that no journal has. *)
Lemma alone_insert d d' p i b :
  names d' = <[p := (i, b)]> (names d) ->
  (forall q c, names d !! q = Some (i, c) -> ~ under_journals q /\ ~ under_journals p) ->
  alone d -> alone d'.
Proof.
  intros Hd Hi Ha q r j c e Hq. rewrite Hd.
  intros [[<- [= <- <-]]|[Hqp Hqj]]%lookup_insert_Some [[<- Hr]|[Hrp Hrj]]%lookup_insert_Some;
    [done| | |by eapply Ha].
  - by destruct (Hi r e Hrj).
  - injection Hr as <- <-. by destruct (Hi q c Hqj).
Qed.

Lemma objects_not_journals p : under_objects p -> ~ under_journals p.
Proof. intros [t ->]. by eapply (outside_journals _ _ 111). Qed.

Definition unused (w : world) (d : disk) : Prop :=
  forall n, put_counter w <= n < 2 ^ 64 -> names d !! staging_name root (pid w) n = None.

Lemma safe_disk f w :
  safe w -> numbered (f (fs w)) -> keeps (fs w) (f (fs w)) -> unused w (f (fs w)) -> safe (on_fs f w).
Proof.
  intros [Hg [Hc Hf] Hr] (Hn & Hi & Hj) Hk Hu. constructor; cbn.
  - constructor; [done|done|by apply (keeps_published (fs w))|done].
  - by split.
  - by apply (keeps_rows (fs w)).
Qed.

Lemma numbered_of w : safe w -> numbered (fs w).
Proof. intros Hs. split; [|split]; apply (s_good _ Hs). Qed.

(** ** The staging file *)

(** A staging file with its bytes, reached by no other name. *)
Definition staged (p : text) (bs : list Z) (sy : bool) (w : world) : Prop :=
  safe w /\ outside p /\ exists i b, names (fs w) !! p = Some (i, b) /\
    inodes (fs w) !! i = Some {| data := bs; synced := sy |} /\
    forall q c, names (fs w) !! q = Some (i, c) -> q = p.

Lemma staged_safe p bs sy w : staged p bs sy w -> safe w.
Proof. by intros [? _]. Qed.

(** The same of a file that may have other names. *)
Definition held (p : text) (bs : list Z) (sy : bool) (w : world) : Prop :=
  safe w /\ outside p /\ exists i b, names (fs w) !! p = Some (i, b) /\
    inodes (fs w) !! i = Some {| data := bs; synced := sy |}.

Lemma held_safe p bs sy w : held p bs sy w -> safe w.
Proof. by intros [? _]. Qed.

Lemma staged_held p bs sy w : staged p bs sy w -> held p bs sy w.
Proof. intros (Hs & Ho & i & b & Hp & Hi & _). split; [done|]. split; [done|]. by exists i, b. Qed.

(** Changing an inode that nothing published shares. *)
Lemma alter_safe p i b w (g : inode -> inode) :
  safe w -> names (fs w) !! p = Some (i, b) ->
  (forall q c, names (fs w) !! q = Some (i, c) -> ~ under_objects q) ->
  safe (on_fs (fun d => match inode_of p d with
                        | Some i => with_inodes (alter g i (inodes d)) d
                        | None => d
                        end) w).
Proof.
  intros Hs Hp Hu. unfold on_fs, inode_of. rewrite Hp. cbn [fmap option_fmap option_map fst].
  destruct (numbered_of w Hs) as (Hn1 & Hn2 & Hn3).
  apply (safe_disk (fun d => with_inodes (alter g i (inodes d)) d)); [done| | |exact (proj2 (s_fresh _ Hs))].
  - split; cbn; [done|]. split; [|done]. intros j. rewrite lookup_alter_is_Some. apply Hn2.
  - constructor; cbn; [by eauto|done|]. intros q j c n Hq Hjn Hj Hsy.
    rewrite lookup_alter_ne; [done|]. intros <-. by destruct (Hu q c Hjn).
Qed.

(** Changing the inode of the staging file. *)
Lemma staged_alter p bs sy w (g : inode -> inode) :
  staged p bs sy w ->
  staged p (data (g {| data := bs; synced := sy |})) (synced (g {| data := bs; synced := sy |}))
    (on_fs (fun d => match inode_of p d with
                     | Some i => with_inodes (alter g i (inodes d)) d
                     | None => d
                     end) w).
Proof.
  intros (Hs & Ho & i & b & Hp & Hi & Hu).
  split; [|split; [done|]].
  - apply (alter_safe p i b); [done|done|]. intros q c Hq. rewrite (Hu q c Hq). apply Ho.
  - exists i, b. cbn. unfold inode_of. rewrite Hp. cbn. split; [done|].
    split; [|done]. rewrite lookup_alter_eq, Hi. cbn. by destruct (g _).
Qed.

Lemma append_staged p bs sy c w : staged p bs sy w -> staged p (bs ++ c) false (on_fs (append p c) w).
Proof. apply (staged_alter p bs sy w (fun n => {| data := data n ++ c; synced := false |})). Qed.

Lemma create_safe p w :
  safe w -> ~ under_objects p -> names (fs w) !! p = None ->
  (forall n, put_counter w <= n < 2 ^ 64 -> staging_name root (pid w) n <> p) ->
  safe (on_fs (create p) w).
Proof.
  intros Hs Ho Hp Hne. destruct (numbered_of w Hs) as (Hn1 & Hn2 & Hn3).
  apply safe_disk; [done|..]; unfold create; rewrite Hp.
  - split; cbn; [|split].
    + intros q i b [[<- [= <- <-]]|[_ Hq]]%lookup_insert_Some; [lia|]. specialize (Hn1 q i b Hq). lia.
    + intros i [n [[<- _]|[_ Hi]]%lookup_insert_Some]; [lia|]. specialize (Hn2 i ltac:(eauto)). lia.
    + eapply alone_insert; [done| |done]. intros q c Hq. specialize (Hn1 q _ c Hq). lia.
  - constructor; cbn.
    + intros q i b Hq [[<- _]|[_ Hqi]]%lookup_insert_Some; [done|eauto].
    + intros q i Hq Hqi. rewrite lookup_insert_ne; [done|]. by intros <-.
    + intros q i b n Hq Hqi Hi Hsy. rewrite lookup_insert_ne; [done|].
      specialize (Hn1 q i b Hqi). lia.
  - intros n Hn. cbn. rewrite lookup_insert_ne; [by apply (s_fresh _ Hs)|].
    symmetry. by apply Hne.
Qed.

Lemma create_staged p w :
  safe w -> outside p -> names (fs w) !! p = None ->
  (forall n, put_counter w <= n < 2 ^ 64 -> staging_name root (pid w) n <> p) ->
  staged p [] false (on_fs (create p) w).
Proof.
  intros Hs Ho Hp Hne. destruct (numbered_of w Hs) as (Hn1 & _).
  split; [by apply create_safe; [|apply Ho|..]|]. split; [done|]. unfold create. cbn. rewrite Hp. cbn.
  exists (next_inode (fs w)), false. rewrite !lookup_insert_eq. split; [done|]. split; [done|].
  intros q c [[<- _]|[_ Hq]]%lookup_insert_Some; [done|]. specialize (Hn1 q _ c Hq). lia.
Qed.

(** ** The other operations *)

Lemma remove_name_safe p w : safe w -> ~ under_objects p -> safe (on_fs (remove_file p) w).
Proof.
  intros Hs Ho. destruct (numbered_of w Hs) as (Hn1 & Hn2 & Hn3). apply safe_disk; [done|..].
  - split; cbn; [|split; [done|]].
    + intros q i b [_ Hq]%lookup_delete_Some. by eapply Hn1.
    + apply (alone_sub (fs w)); [|done]. cbn. intros q i b [_ Hq]%lookup_delete_Some. eauto.
  - constructor; cbn; [|intros q i Hq; rewrite lookup_delete_ne; [done|by intros <-]|done].
    intros q i b Hq [_ Hi]%lookup_delete_Some. eauto.
  - intros n Hn. cbn. apply lookup_delete_None. right. by apply (s_fresh _ Hs).
Qed.

Lemma remove_safe p w : safe w -> outside p -> safe (on_fs (remove_file p) w).
Proof. intros Hs [Ho _]. by apply remove_name_safe. Qed.

Lemma rename_safe p q w :
  safe w -> outside p -> outside q ->
  (forall n, staging_name root (pid w) n <> q) -> safe (on_fs (rename p q) w).
Proof.
  intros Hs Ho Hoq Hne. destruct (numbered_of w Hs) as (Hn1 & Hn2 & Hn3).
  apply safe_disk; [done|..]; unfold rename; destruct (names (fs w) !! p) as [[i b]|] eqn:Hp; cbn.
  - split; cbn; [|split; [done|]].
    + intros r j c [[<- [= <- <-]]|[_ [_ Hr]%lookup_delete_Some]]%lookup_insert_Some; by eapply Hn1.
    + eapply (alone_insert (remove_file p (fs w))); [done| |].
      * cbn. intros r c [_ Hr]%lookup_delete_Some. split; [|apply Hoq].
        intros Hj. destruct Ho as [_ []]. by rewrite (Hn3 r p i c b Hj Hr Hp).
      * apply (alone_sub (fs w)); [|done]. cbn. intros r j c [_ Hr]%lookup_delete_Some. eauto.
  - done.
  - destruct Ho, Hoq. constructor; cbn; [| |done].
    + intros r j c Hr [[<- _]|[_ [_ Hrj]%lookup_delete_Some]]%lookup_insert_Some; [done|eauto].
    + intros r j Hr Hrj. rewrite lookup_insert_ne, lookup_delete_ne; [done|by intros <-|by intros <-].
  - constructor; [by eauto|done|done].
  - intros n Hn. cbn. rewrite lookup_insert_ne by (symmetry; apply Hne).
    apply lookup_delete_None. right. by apply (s_fresh _ Hs).
  - intros n Hn. by apply (s_fresh _ Hs).
Qed.

Lemma sync_file_safe p w : safe w -> safe (on_fs (sync_file p) w).
Proof.
  intros Hs. destruct (numbered_of w Hs) as (Hn1 & Hn2 & Hn3).
  apply safe_disk; [done|..]; unfold sync_file; destruct (inode_of p (fs w)) as [i|]; cbn;
    [| done | | | exact (proj2 (s_fresh _ Hs)) | exact (proj2 (s_fresh _ Hs))].
  - split; cbn; [done|]. split; [|done]. intros j. rewrite lookup_alter_is_Some. apply Hn2.
  - constructor; cbn; [by eauto|done|]. intros q j b n Hq Hqj Hj Hy.
    destruct (decide (i = j)) as [<-|Hne]; [|by rewrite lookup_alter_ne].
    rewrite lookup_alter_eq, Hj. cbn. by destruct n; cbn in *; subst.
  - constructor; [by eauto|done|done].
Qed.

Lemma sync_held p bs sy w : held p bs sy w -> held p bs true (on_fs (sync_file p) w).
Proof.
  intros (Hs & Ho & i & b & Hp & Hi). split; [by apply sync_file_safe|]. split; [done|].
  exists i, b. cbn. unfold sync_file, inode_of. rewrite Hp. cbn. by rewrite lookup_alter_eq, Hi.
Qed.

Lemma create_dir_safe dir w : safe w -> safe (on_fs (create_dir dir) w).
Proof.
  intros Hs. destruct (numbered_of w Hs) as (Hn1 & Hn2 & Hn3).
  apply safe_disk; [done|..]; unfold create_dir; destruct (fanouts (fs w) !! dir); try done.
  all: try exact (proj2 (s_fresh _ Hs)). all: constructor; cbn; by eauto.
Qed.

Lemma sync_dir_lookup dir d p :
  names (sync_dir dir d) !! p
  = (fun e => if in_dir dir p then (fst e, true) else e) <$> names d !! p.
Proof. cbn. rewrite map_lookup_imap. by destruct (names d !! p). Qed.

Lemma sync_dir_safe dir w : safe w -> safe (on_fs (sync_dir dir) w).
Proof.
  intros Hs. destruct (numbered_of w Hs) as (Hn1 & Hn2 & Hn3).
  assert (Hback : forall p i b, names (sync_dir dir (fs w)) !! p = Some (i, b) ->
    exists c, names (fs w) !! p = Some (i, c)).
  { intros p i b. rewrite sync_dir_lookup. destruct (names (fs w) !! p) as [[j c]|]; cbn; [|done].
    destruct (in_dir dir p); intros [= <- <-]; eauto. }
  apply safe_disk; [done|..].
  - split; [|split; [done|by apply (alone_sub (fs w))]].
    intros p i b Hp. destruct (Hback p i b Hp) as [c Hc]. by eapply Hn1.
  - constructor; [by eauto| |done]. intros p i _ Hp. rewrite sync_dir_lookup, Hp. cbn.
    by destruct (in_dir dir p).
  - intros n Hn. rewrite sync_dir_lookup. by rewrite (proj2 (s_fresh _ Hs) n Hn).
Qed.

(** The tables other than the locations do not matter. *)
Definition with_meta (l : ledger) (w : world) : world :=
  {| fs := fs w; objects := objects w; meta := l; pid := pid w; put_counter := put_counter w |}.

Lemma safe_meta w l : safe w -> rows_true (fs w) l -> safe (with_meta l w).
Proof. by intros [Hg Hf _] Hr. Qed.

Lemma safe_objects w o :
  safe w -> safe {| fs := fs w; objects := o; meta := meta w; pid := pid w; put_counter := put_counter w |}.
Proof. by intros [Hg Hf Hr]. Qed.

(** ** What is published *)

(** A published name of a synced file, and whether its entry is on disk. *)
Definition visible (target : text) (on_disk : bool) (w : world) : Prop :=
  safe w /\ under_objects target /\ exists i b n, names (fs w) !! target = Some (i, b) /\
    inodes (fs w) !! i = Some n /\ synced n = true /\ (on_disk = true -> b = true).

Lemma visible_safe t b w : visible t b w -> safe w.
Proof. by intros [? _]. Qed.

Lemma link_visible p bs target declared profile f d w :
  held p bs true w -> target = published_path root declared profile f ->
  id_under (domain f) bs = f -> length (digest_bytes declared) = 32%nat ->
  (profile = RAW_PROFILE_V1 -> f = declared /\ domain f = ManifestCodec.ATP_OBJECT_CONTENT_DOMAIN) ->
  hard_link p target (fs w) = Ok d -> visible target false (on_fs (fun _ => d) w).
Proof.
  intros (Hs & Ho & i & b & Hp & Hi) Ht Hid Hlen Hraw. unfold hard_link, inode_of, exists_file.
  rewrite Hp. cbn. destruct (bool_decide _) eqn:Hb; [done|]. intros [= <-].
  apply bool_decide_eq_false, eq_None_not_Some in Hb.
  assert (Hot : under_objects target) by (subst; apply published_under).
  destruct (numbered_of w Hs) as (Hn1 & Hn2 & Hn3), Hs as [Hg [Hc Hf] Hr].
  assert (Hne : forall q j c, names (fs w) !! q = Some (j, c) -> q <> target)
    by (intros q j c Hq ->; congruence).
  split; [constructor; cbn|].
  - constructor; cbn; [|done| |].
    + intros q j c [[<- [= <- <-]]|[_ Hq]]%lookup_insert_Some; [by eapply Hn1|by eapply Hn1].
    + intros q j c [[<- [= <- <-]]|[_ Hq]]%lookup_insert_Some Hoq.
      * exists declared, profile, f, {| data := bs; synced := true |}. by subst.
      * by apply (g_published _ Hg q j c).
    + eapply alone_insert; [done| |done]. intros q c Hq. split; [|by apply objects_not_journals].
      intros Hj. destruct Ho as [_ []]. by rewrite (Hn3 q p i c b Hj Hq Hp).
  - split; [done|]. intros n Hn. cbn. rewrite lookup_insert_ne; [by apply Hf|].
    intros ->. by destruct (staging_outside (pid w) n).
  - intros Hds k q row Hl Hd. destruct (Hr Hds k q row Hl Hd) as (Hoq & j & n & Hq & Hj).
    split; [done|]. exists j, n. cbn. rewrite lookup_insert_ne; [done|]. symmetry. by eapply Hne.
  - split; [done|]. exists i, false, {| data := bs; synced := true |}. cbn. by rewrite lookup_insert_eq.
Qed.

Lemma sync_dir_visible declared profile f w b :
  visible (published_path root declared profile f) b w ->
  visible (published_path root declared profile f) true (on_fs (sync_dir (fanout_dir root declared)) w).
Proof.
  intros (Hs & Ho & i & c & n & Hp & Hi & Hy & _). split; [by apply sync_dir_safe|]. split; [done|].
  exists i, true, n. change (fs (on_fs ?g w)) with (g (fs w)). rewrite sync_dir_lookup, Hp, fanout_holds.
  done.
Qed.

Lemma remove_visible p t b w :
  visible t b w -> outside p -> visible t b (on_fs (remove_file p) w).
Proof.
  intros (Hs & Ho & i & c & n & Hp & Hrest) Hout. split; [by apply remove_safe|]. split; [done|].
  exists i, c, n. cbn. rewrite lookup_delete_ne; [done|]. intros <-. by destruct Hout.
Qed.

(** ** Paths determine what is stored under them *)

Lemma str_bytes_inj a b : str_bytes a = str_bytes b -> a = b.
Proof.
  unfold str_bytes. intros E. apply (list_fmap_eq_inj _) in E.
  - rewrite <- (String.string_of_list_ascii_of_string a), E.
    apply String.string_of_list_ascii_of_string.
  - intros x y Hxy. apply N2Z.inj in Hxy.
    by rewrite <- (Ascii.ascii_N_embedding x), Hxy, Ascii.ascii_N_embedding.
Qed.

Lemma hex_inj a b : all_bytes a -> all_bytes b -> hex a = hex b -> a = b.
Proof.
  intros Ha. revert b. induction Ha as [|x a Hx Ha IH]; intros [|y b] Hb E; try done.
  apply Forall_cons in Hb as [Hy Hb]. unfold hex in E. rewrite !fmap_cons in E. cbn [concat app] in E.
  injection E as E1 E2 E. rewrite (IH b Hb E). f_equal. unfold is_byte in *.
  pose proof (Z.div_mod x 16). pose proof (Z.div_mod y 16).
  pose proof (Z.mod_pos_bound x 16). pose proof (Z.mod_pos_bound y 16).
  assert (0 <= x / 16 < 16) by (split; [apply Z.div_pos; lia|apply Z.div_lt_upper_bound; lia]).
  assert (0 <= y / 16 < 16) by (split; [apply Z.div_pos; lia|apply Z.div_lt_upper_bound; lia]).
  unfold hex_nibble in E1, E2. repeat case_match; lia.
Qed.

Lemma published_inj d pr f d' pr' f' :
  length (digest_bytes d) = 32%nat -> length (digest_bytes d') = 32%nat ->
  length (digest_bytes f) = 32%nat -> length (digest_bytes f') = 32%nat ->
  all_bytes (digest_bytes f) -> all_bytes (digest_bytes f') ->
  published_path root d pr f = published_path root d' pr' f' ->
  pr = pr' /\ digest_bytes f = digest_bytes f'.
Proof.
  intros Hd Hd' Hf Hf' Hb Hb' E. unfold published_path in E. do 2 apply app_inv_head in E.
  apply app_inj_1 in E as [_ E]; [|by rewrite !length_take, !hex_length, Hd, Hd'].
  apply app_inv_head in E. apply app_inj_1 in E as [_ E]; [|by rewrite !hex_length, Hd, Hd'].
  apply app_inv_head in E. rewrite !app_assoc in E.
  apply app_inj_2 in E as [E1 E2]; [|by rewrite !hex_length, Hf, Hf'].
  split; [apply app_inv_tail in E1; by apply str_bytes_inj|by apply hex_inj].
Qed.

(** A raw name holds the raw object. *)
Lemma raw_holds w declared bs i b :
  safe w -> declared = id_under ManifestCodec.ATP_OBJECT_CONTENT_DOMAIN bs ->
  names (fs w) !! published_path root declared RAW_PROFILE_V1 declared = Some (i, b) ->
  exists n, inodes (fs w) !! i = Some n /\
    id_under ManifestCodec.ATP_OBJECT_CONTENT_DOMAIN (data n) = declared.
Proof.
  intros Hs Hdecl Hn.
  destruct (g_published _ (s_good _ Hs) _ i b Hn (published_under _ _ _))
    as (lg & pr & f & n & Hp & Hi & Hy & Hid & Hraw).
  exists n. split; [done|]. destruct Hraw as [Hlen Hraw].
  assert (Hf : length (digest_bytes f) = 32%nat /\ all_bytes (digest_bytes f))
    by (rewrite <- Hid; apply id_under_shape).
  assert (Hl : length (digest_bytes declared) = 32%nat /\ all_bytes (digest_bytes declared))
    by (rewrite Hdecl; apply id_under_shape).
  destruct Hf as [Hf1 Hf2], Hl as [Hl1 Hl2].
  destruct (published_inj _ _ _ _ _ _ Hl1 Hlen Hl1 Hf1 Hl2 Hf2 Hp) as [<- Hbytes].
  destruct (Hraw eq_refl) as [_ Hdom]. rewrite Hdom in Hid.
  rewrite Hdecl, <- Hid in Hbytes. rewrite Hdecl. by apply id_under_eq.
Qed.

(** ** The pipeline keeps the invariant *)

Lemma visible_meta t b w l : visible t b w -> rows_true (fs w) l -> visible t b (with_meta l w).
Proof. intros (Hs & Hv) Hr. split; [by apply safe_meta|done]. Qed.

Lemma visible_rows t b w : visible t b w -> rows_true (fs w) (meta w).
Proof. intros (Hs & _). apply (s_rows _ Hs). Qed.

Lemma record_object_triple declared size t b :
  triple (visible t b) (record_object declared size) (fun _ => visible t b) safe.
Proof.
  unfold record_object. eapply triple_bind.
  { apply triple_store with (Q := fun _ => visible t b).
    intros w r l Hv [= <- <-]. apply (visible_meta t b w); [done|]. exact (visible_rows t b w Hv). }
  intros ?. eapply triple_bind.
  { apply triple_store with (Q := fun _ => visible t b).
    intros w r l Hv [= <- <-]. destruct (to_i64 _ _).
    - apply (visible_meta t b w); [done|]. exact (visible_rows t b w Hv).
    - apply (safe_meta w); [by eapply visible_safe|]. exact (visible_rows t b w Hv). }
  intros z w (Hs & Hv). split; [|done]. by apply safe_objects.
Qed.

Lemma record_location_triple declared t profile durable :
  triple (visible t durable) (record_location declared t profile durable)
    (fun _ => visible t durable) safe.
Proof.
  apply triple_store. intros w r l Hv [= <- <-]. apply (visible_meta t durable w); [done|].
  destruct Hv as (Hs & Ho & i & b & n & Hp & Hi & Hy & Hb).
  intros Hds k q row. cbn. intros [[[= <- <-] <-]|[_ Hl]]%lookup_insert_Some Hd.
  - split; [done|]. exists i, n. cbn in Hd. subst. by rewrite (Hb eq_refl) in Hp.
  - by apply (s_rows _ Hs Hds k q row).
Qed.

Lemma fault_triple (P : world -> Prop) fault q :
  (forall w, P w -> safe w) -> triple P (fault_at fault q) (fun _ => P) safe.
Proof. intros HP. by apply triple_refuse. Qed.

Lemma remove_triple t b p :
  outside p -> triple (visible t b) (disk_op (remove_file p)) (fun _ => visible t b) safe.
Proof. intros Ho. apply triple_disk. intros w Hv. by apply remove_visible. Qed.

Definition streamed (p : text) (bs : list Z) : world -> Prop := staged p bs false.

Lemma stream_loop_triple p limits e chunks cs total :
  triple (streamed p (concat cs))
    (stream_loop (SHA := SHA) (BLAKE := BLAKE) p limits total chunks (writer_at default_request e cs))
    (fun wr w => exists cs', wr = writer_at default_request e cs' /\ streamed p (concat cs') w) safe.
Proof.
  revert cs total. induction chunks as [|[|x c] chunks IH]; intros cs total; cbn [stream_loop].
  - apply triple_ret. eauto.
  - apply triple_ret. eauto.
  - destruct (match max_logical_bytes limits with Some _ => _ | None => _ end).
    { apply triple_throw. intros w Hw. by eapply staged_safe. }
    rewrite write_at. destruct (_ <? _); [|apply triple_throw; intros w Hw; by eapply staged_safe].
    eapply triple_bind; [|intros ?; apply (IH (cs ++ [x :: c]))].
    apply triple_disk. intros w Hw. rewrite concat_app. cbn [concat]. rewrite app_nil_r.
    by apply (append_staged p (concat cs) false).
Qed.

(** A free staging name of the process. *)
Definition free (p : text) (w : world) : Prop :=
  safe w /\ outside p /\ names (fs w) !! p = None /\
  forall n, put_counter w <= n < 2 ^ 64 -> staging_name root (pid w) n <> p.

Lemma fresh_path_triple :
  triple (fun w => safe w /\ put_counter w + 1 < 2 ^ 64) (fresh_staging_path root)
    (fun p => free p) safe.
Proof.
  intros w [Hs Hc]. cbn. destruct (s_fresh _ Hs) as [Hu Hf]. rewrite wadd_small by (unfold in_u in Hu; lia).
  assert (Hs' : safe {| fs := fs w; objects := objects w; meta := meta w; pid := pid w;
                        put_counter := put_counter w + 1 |}).
  { destruct Hs as [Hg _ Hr]. constructor; [done| |done]. split; cbn; [unfold in_u in *; lia|].
    intros n Hn. apply Hf. lia. }
  split; [done|]. split; [apply staging_outside|]. cbn. split; [apply Hf; unfold in_u in Hu; lia|].
  intros n Hn E. apply staging_inj in E; unfold in_u in *; lia.
Qed.

Lemma stream_triple p reader limits :
  triple (free p) (stream_to_staging (SHA := SHA) (BLAKE := BLAKE) p reader limits)
    (fun set w => exists bs, streamed p bs w /\
       atp_content_id set = id_under ManifestCodec.ATP_OBJECT_CONTENT_DOMAIN bs) safe.
Proof.
  unfold stream_to_staging. eapply triple_bind.
  { apply triple_disk with (Q := fun _ => streamed p []). intros w (Hs & Ho & Hp & Hne).
    by apply create_staged. }
  intros ?. eapply triple_bind.
  { change (writer_new default_request (expected limits))
      with (writer_at (SHA := SHA) (BLAKE := BLAKE) default_request (expected limits) []).
    apply stream_loop_triple with (cs := []). }
  intros wr w (cs & -> & Hw). rewrite (finish_at sha blk).
  assert (Hok : exists bs, streamed p bs w /\
    atp_content_id (ideal_set sha blk default_request (concat cs))
    = id_under ManifestCodec.ATP_OBJECT_CONTENT_DOMAIN bs) by (by exists (concat cs)).
  destruct (expected limits) as [n|]; [destruct (n =? _)|]; cbn; [done| |done].
  by eapply staged_safe.
Qed.

Lemma create_dir_held dir p bs sy w : held p bs sy w -> held p bs sy (on_fs (create_dir dir) w).
Proof.
  intros (Hs & Ho & Hi). split; [by apply create_dir_safe|]. split; [done|].
  cbn. unfold create_dir. by destruct (fanouts (fs w) !! dir).
Qed.

Lemma sync_file_visible p t b w : visible t b w -> visible t b (on_fs (sync_file p) w).
Proof.
  intros (Hs & Ho & i & c & n & Hp & Hi & Hy & Hb). split; [by apply sync_file_safe|]. split; [done|].
  cbn. unfold sync_file. destruct (inode_of p (fs w)) as [j|]; [|by exists i, c, n]. cbn.
  destruct (decide (j = i)) as [->|Hne]; [|exists i, c, n; by rewrite lookup_alter_ne].
  exists i, c, {| data := data n; synced := true |}. by rewrite lookup_alter_eq, Hi.
Qed.

Lemma existing_visible p bs sy t w :
  held p bs sy w -> under_objects t -> is_Some (read t (fs w)) -> visible t false w.
Proof.
  intros (Hs & _) Ho [x Hx]. split; [done|]. split; [done|]. unfold read, inode_of in Hx.
  destruct (names (fs w) !! t) as [[i b]|] eqn:Hn; [|done].
  destruct (g_published _ (s_good _ Hs) t i b Hn Ho) as (lg & pr & f & n & _ & Hi & Hy & _).
  by exists i, b, n.
Qed.

Lemma quarantine_triple declared p t :
  outside p ->
  triple (fun w => safe w /\ put_counter w + 1 < 2 ^ 64)
    (preserved ← quarantine_path root declared;
     w ← get;
     _ ← refuse_if (negb (exists_file p (fs w))) (Io "preserve-incoming");
     _ ← disk_op (rename p preserved);
     _ ← store_op (add_quarantine LogicalObject (digest_key declared) REASON_OBJECT_COLLISION_QUARANTINED);
     _ ← store_op (with_base (set_location_quarantined declared t true));
     throw (CollisionIncident (digest_key declared) t preserved))
    (fun (_ : PutOutcome) => safe) safe.
Proof.
  intros Ho. set (R q w := safe w /\ exists n, q = incoming_name root declared (pid w) n).
  eapply triple_bind with (R := R).
  { intros w [Hs Hc]. cbn. destruct (s_fresh _ Hs) as [Hu Hf].
    rewrite wadd_small by (unfold in_u in Hu; lia). split; [|by eexists].
    destruct Hs as [Hg _ Hr]. constructor; [done| |done]. split; cbn; [unfold in_u in *; lia|].
    intros n Hn. apply Hf. lia. }
  intros q. eapply triple_bind; [by apply triple_get with (Q := fun _ => R q)|]. intros w0.
  eapply triple_bind; [apply triple_refuse with (Q := fun _ => R q); [by intros w [? _]|done]|]. intros ?.
  eapply triple_bind; [apply triple_disk with (Q := fun _ => safe)|].
  { intros w [Hs [n ->]]. apply rename_safe; [done|done|apply incoming_outside|].
    intros m. apply staging_not_incoming. }
  intros ?. eapply triple_bind; [apply triple_store with (Q := fun _ => safe)|].
  { intros w r l Hs [= <- <-]. apply (safe_meta w); [done|]. exact (s_rows _ Hs). }
  intros ?. eapply triple_bind; [apply triple_store with (Q := fun _ => safe)|].
  { intros w r l Hs. unfold with_base, set_location_quarantined, Store.in_txn.
    destruct (locations (base (meta w)) !! _) as [row|] eqn:Hl; intros [= <- <-].
    - apply (safe_meta w); [done|]. intros Hds k q' row'. cbn.
      intros [[[= <- <-] <-]|[_ Hl']]%lookup_insert_Some Hd; by eapply (s_rows _ Hs Hds).
    - apply (safe_meta w); [done|]. exact (s_rows _ Hs). }
  intros ?. by apply triple_throw.
Qed.

(** The counter has room for the name of a quarantined candidate; a raw object needs none,
    because what is published under its name is the object. *)
Definition room (profile : string) (w : world) : Prop :=
  profile = RAW_PROFILE_V1 \/ put_counter w + 1 < 2 ^ 64.

(** The identity under which a file of these bytes is published. *)
Definition identified (declared : TypedDigest) (profile : string) (f : TypedDigest) (bs : list Z) : Prop :=
  id_under (domain f) bs = f /\ length (digest_bytes declared) = 32%nat /\
  (profile = RAW_PROFILE_V1 -> f = declared /\ domain f = ManifestCodec.ATP_OBJECT_CONTENT_DOMAIN).

Lemma hash_triple p bs sy declared profile f :
  let t := published_path root declared profile f in
  identified declared profile f bs ->
  triple (fun w => held p bs sy w /\ room profile w)
    (hash_file_under_domain (SHA := SHA) t (domain f))
    (fun dg w => outside p /\ visible t false w /\ (dg = f \/ put_counter w + 1 < 2 ^ 64)) safe.
Proof.
  intros t (Hid & _ & Hraw) w [Hst Hc]. unfold hash_file_under_domain, read_file. unmonad.
  destruct (read t (fs w)) as [x|] eqn:Hx; [|by eapply held_safe].
  split; [by apply Hst|].
  split; [eapply existing_visible; [done|apply published_under|by rewrite Hx]|].
  destruct Hc as [->|Hc]; [left|by right]. destruct (Hraw eq_refl) as [-> Hdom].
  rewrite hash_bytes_id, file_reads_concat. rewrite Hdom in Hid.
  unfold read, inode_of in Hx. destruct (names (fs w) !! t) as [[i b]|] eqn:Hn; [|done].
  destruct (raw_holds w declared bs i b (held_safe _ _ _ _ Hst) (eq_sym Hid) Hn) as (n & Hi & Hidn).
  cbn in Hx. rewrite Hi in Hx. injection Hx as <-. by rewrite Hdom.
Qed.

Lemma handle_existing_triple declared size profile f p bs sy durability :
  let t := published_path root declared profile f in
  identified declared profile f bs ->
  triple (fun w => held p bs sy w /\ room profile w)
    (handle_existing (SHA := SHA) root declared size profile f p t durability)
    (fun _ => safe) safe.
Proof.
  intros t Hid. unfold handle_existing. eapply triple_bind; [by apply (hash_triple p bs sy)|]. intros dg.
  intros w (Ho & Hv & Hc). destruct (bool_decide _) eqn:Hdg.
  - revert w Hv Hc. enough (Ht : triple (visible t false)
      (_ ← (if is_full durability
            then disk_op (fun d => sync_dir (fanout_dir root declared) (sync_file t d)) else mret tt);
       _ ← record_object declared size;
       _ ← record_location declared t profile (is_full durability);
       _ ← disk_op (remove_file p); mret (IdempotentDuplicate t)) (fun _ => safe) safe).
    { intros w Hv _. exact (Ht w Hv). }
    eapply triple_bind with (R := fun _ => visible t (is_full durability)).
    { destruct (is_full durability); [apply triple_disk|by apply triple_ret]. intros w Hv.
      apply (sync_dir_visible declared profile f (on_fs (sync_file t) w) false).
      by apply sync_file_visible. }
    intros ?. eapply triple_bind; [apply record_object_triple|]. intros ?.
    eapply triple_bind; [apply record_location_triple|]. intros ?.
    eapply triple_bind; [by apply remove_triple|]. intros ?. apply triple_ret. apply visible_safe.
  - apply bool_decide_eq_false in Hdg. destruct Hc as [|Hc]; [done|].
    apply (quarantine_triple declared p t Ho w). split; [by apply Hv|done].
Qed.

Lemma publish_triple declared p bs sy size durability fault profile f :
  fsync_file durability = true -> identified declared profile f bs ->
  triple (fun w => held p bs sy w /\ room profile w)
    (publish_staged_inner (SHA := SHA) root declared p size durability fault profile f)
    (fun _ => safe) safe.
Proof.
  intros Hf Hidf. pose proof Hidf as (Hid & Hlen & Hraw). unfold publish_staged_inner. rewrite Hf.
  set (S y w := held p bs y w /\ room profile w).
  assert (HS : forall y w, S y w -> safe w) by (intros y w [Hs _]; by eapply held_safe).
  eapply triple_bind with (R := fun _ => S true).
  { eapply triple_bind; [by apply triple_get with (Q := fun _ => S sy)|]. intros w0.
    eapply triple_bind; [apply triple_refuse with (Q := fun _ => S sy); [apply HS|done]|]. intros ?.
    apply triple_disk. intros w [Hs Hc]. split; [by eapply sync_held|done]. }
  intros ?. eapply triple_bind; [apply fault_triple, HS|]. intros ?.
  eapply triple_bind; [apply triple_disk with (Q := fun _ => S true)|].
  { intros w [Hs Hc]. split; [by apply create_dir_held|done]. }
  intros ?. intros w [Hs Hc]. unfold mbind at 1, method_bind at 1, get at 1. cbv beta iota.
  assert (Ho : outside p) by apply Hs.
  destruct (hard_link p _ (fs w)) as [d|[]] eqn:Hl.
  - apply (link_visible p bs _ declared profile f d w Hs eq_refl Hid Hlen Hraw) in Hl.
    set (t := published_path root declared profile f) in *.
    unfold mbind at 1, method_bind at 1, disk_op at 1, modify at 1. cbv beta iota.
    revert Hl. generalize (on_fs (fun _ => d) w). clear w Hs Hc.
    change (triple (visible t false)
      (_ ← fault_at fault Linked;
       _ ← (if fsync_directory durability then disk_op (sync_dir (fanout_dir root declared)) else mret tt);
       _ ← fault_at fault DirectorySynced;
       _ ← record_object declared size;
       _ ← record_location declared t profile (is_full durability);
       _ ← fault_at fault MetadataRecorded;
       _ ← disk_op (remove_file p); mret (Stored t)) (fun _ => safe) safe).
    eapply triple_bind; [apply fault_triple, visible_safe|]. intros ?.
    eapply triple_bind with (R := fun _ => visible t (is_full durability)).
    { unfold is_full. rewrite Hf. destruct (fsync_directory durability); [apply triple_disk|by apply triple_ret].
      intros w Hv. by eapply sync_dir_visible. }
    intros ?. eapply triple_bind; [apply fault_triple, visible_safe|]. intros ?.
    eapply triple_bind; [apply record_object_triple|]. intros ?.
    eapply triple_bind; [apply record_location_triple|]. intros ?.
    eapply triple_bind; [apply fault_triple, visible_safe|]. intros ?.
    eapply triple_bind; [by apply remove_triple|]. intros ?. apply triple_ret. apply visible_safe.
  - by apply (handle_existing_triple declared size profile f p bs true durability Hidf w).
  - cbn. apply remove_safe; [by eapply held_safe|done].
Qed.

Lemma or_remove_triple {A} p (m : io A) (P : world -> Prop) (Q : A -> world -> Prop) :
  (forall w, P w -> outside p) -> triple P m Q safe -> triple P (or_remove p m) Q safe.
Proof.
  intros Ho Hm w Hw. specialize (Hm w Hw). unfold or_remove. destruct (m w) as [[a|e] w']; [done|].
  by apply remove_safe; [|apply (Ho w)].
Qed.

(** Streaming draws no further name. *)
Lemma stream_loop_counter p limits total chunks wr w :
  put_counter (snd (stream_loop (SHA := SHA) (BLAKE := BLAKE) p limits total chunks wr w)) = put_counter w.
Proof.
  revert total wr w. induction chunks as [|[|x c] chunks IH]; intros total wr w; try done.
  cbn [stream_loop]. destruct (match max_logical_bytes limits with Some _ => _ | None => _ end); [done|].
  destruct (write _ _) as [[[]|e] wr']; [|done]. unmonad. unfold disk_op, modify. rewrite IH. done.
Qed.

Lemma stream_counter p reader limits w :
  put_counter (snd (stream_to_staging (SHA := SHA) (BLAKE := BLAKE) p reader limits w)) = put_counter w.
Proof.
  unfold stream_to_staging. unmonad. unfold disk_op, modify.
  set (wr0 := writer_new default_request (expected limits)).
  pose proof (stream_loop_counter p limits 0 reader wr0 (on_fs (create p) w)) as Hc.
  destruct (stream_loop p limits 0 reader wr0 _) as [[wr|e] w'] eqn:E; cbn [snd] in Hc; [|done].
  by destruct (finish wr).
Qed.

Lemma counted_triple {A} (P : world -> Prop) (m : io A) (Q : A -> world -> Prop) E (C : Z -> Prop) :
  triple P m Q E -> (forall w, put_counter (snd (m w)) = put_counter w) ->
  triple (fun w => P w /\ C (put_counter w)) m (fun a w => Q a w /\ C (put_counter w)) E.
Proof.
  intros Hm Hc w [Hw Hcw]. specialize (Hm w Hw). specialize (Hc w).
  destruct (m w) as [[a|e] w']; cbn in Hc; [by rewrite Hc|done].
Qed.

Lemma fresh_path_counted :
  triple (fun w => safe w /\ put_counter w + 2 < 2 ^ 64) (fresh_staging_path root)
    (fun p w => free p w /\ put_counter w + 1 < 2 ^ 64) safe.
Proof.
  intros w [Hs Hc]. split; [apply (fresh_path_triple w); split; [done|lia]|].
  cbn. pose proof (proj1 (s_fresh _ Hs)) as Hu. unfold in_u in Hu. rewrite wadd_small by lia. lia.
Qed.

Lemma raw_identified bs :
  let f := id_under ManifestCodec.ATP_OBJECT_CONTENT_DOMAIN bs in identified f RAW_PROFILE_V1 f bs.
Proof. split; [done|]. split; [apply id_under_shape|done]. Qed.

Lemma put_triple declared reader limits durability fault :
  fsync_file durability = true ->
  triple (fun w => safe w /\ put_counter w + 2 < 2 ^ 64)
    (put_if_absent_with_fault (SHA := SHA) (BLAKE := BLAKE) root declared reader limits durability fault)
    (fun _ => safe) safe.
Proof.
  intros Hd. unfold put_if_absent_with_fault. eapply triple_bind; [apply fresh_path_counted|]. intros p.
  eapply triple_bind.
  { apply or_remove_triple; [by intros w [(_ & ? & _) _]|].
    apply (counted_triple _ _ _ _ (fun c => c + 1 < 2 ^ 64) (stream_triple p reader limits)).
    intros w. apply stream_counter. }
  intros set. cbv beta. intros w [(bs & Hst & Hid) Hc]. unfold verify_declared.
  unfold mbind at 1, method_bind at 1. destruct (bool_decide _) eqn:Hdec.
  - apply bool_decide_eq_true in Hdec. cbn [mret method_ret]. unfold mret, method_ret.
    assert (Ht : triple (fun w => held p bs false w /\ room RAW_PROFILE_V1 w)
      (_ ← fault_at fault StagingWritten;
       publish_staged_inner (SHA := SHA) root declared p (logical_size set) durability fault
         RAW_PROFILE_V1 declared) (fun _ => safe) safe);
      [|apply Ht; split; [by apply staged_held|by left]].
    eapply triple_bind; [apply fault_triple; intros w' [Hs' _]; by eapply held_safe|]. intros ?.
    apply publish_triple; [done|]. rewrite <- Hdec, Hid. by apply raw_identified.
  - cbn. apply remove_safe; [by eapply staged_safe|apply Hst].
Qed.

Lemma encoded_triple declared profile encoded decoder limits durability :
  fsync_file durability = true -> profile <> RAW_PROFILE_V1 ->
  triple (fun w => safe w /\ put_counter w + 2 < 2 ^ 64)
    (put_encoded_representation (SHA := SHA) (BLAKE := BLAKE) root declared profile encoded decoder limits
       durability)
    (fun _ => safe) safe.
Proof.
  intros Hd Hraw. unfold put_encoded_representation.
  eapply triple_bind; [apply fresh_path_counted|]. intros p.
  set (S (v : TypedDigest * Z) w := exists bs, streamed p bs w /\
         id_under ENCODED_REPRESENTATION_DOMAIN bs = fst v /\ put_counter w + 1 < 2 ^ 64).
  assert (HS : forall v w, S v w -> safe w /\ outside p) by (intros v w (bs & Hs & _); split; apply Hs).
  eapply triple_bind with (R := S).
  { apply or_remove_triple; [by intros w [(_ & ? & _) _]|]. unfold stream_encoded.
    eapply triple_bind; [apply triple_disk with (Q := fun _ w => streamed p [] w /\ put_counter w + 1 < 2 ^ 64)|].
    { intros w [(Hs & Ho & Hp & Hne) Hc]. split; [by apply create_staged|done]. }
    intros ?. eapply triple_bind; [apply triple_disk with (Q := fun _ w =>
      streamed p (concat (until_end encoded)) w /\ put_counter w + 1 < 2 ^ 64)|].
    { intros w [Hs Hc]. split; [by apply (append_staged p [] false)|done]. }
    intros ?. assert (Hok : forall w t, streamed p (concat (until_end encoded)) w /\ put_counter w + 1 < 2 ^ 64 ->
      S (hash_bytes (SHA := SHA) ENCODED_REPRESENTATION_DOMAIN (until_end encoded), t) w).
    { intros w t [Hs Hc]. exists (concat (until_end encoded)). split; [done|]. by rewrite hash_bytes_id. }
    destruct (expected limits) as [n|]; [destruct (negb _)|]; [apply triple_throw|apply triple_ret..];
      [intros w [Hs _]; by eapply staged_safe|by intros w Hw; apply Hok..]. }
  intros v. eapply triple_bind with (R := fun _ w => S v w /\ length (digest_bytes declared) = 32%nat).
  { apply or_remove_triple; [intros w Hw; by apply (HS v w)|]. intros w Hw. unfold verify_encoded, read_file.
    assert (Hw' : safe w) by by eapply HS.
    unmonad. destruct (read p (fs w)) as [bs|]; [|done]. destruct (decoder bs) as [lb|]; [|done].
    destruct (max_logical_bytes limits) as [lim|]; cbn; unfold refuse_if;
      [destruct (_ <? _); [done|cbn]|]; (destruct (digest_set _ _ _) as [ds|] eqn:Hds; [|done]);
      rewrite (digest_set_ideal sha blk) in Hds; unfold ideal in Hds; destruct (_ <=? _) in Hds; try done;
      injection Hds as <-; (destruct (bool_decide _) eqn:Hb; [|done]);
      apply bool_decide_eq_true in Hb; (split; [done|]); rewrite <- Hb;
      apply (id_under_shape ManifestCodec.ATP_OBJECT_CONTENT_DOMAIN). }
  intros size w [(bs & Hs & Hid & Hc) Hlen].
  pose proof (publish_triple declared p bs false size durability None profile (fst v) Hd) as Hp.
  unfold mbind, method_bind.
  assert (Hdom : domain (fst v) = ENCODED_REPRESENTATION_DOMAIN) by (by rewrite <- Hid).
  specialize (Hp ltac:(by split; [rewrite Hdom|]) w (conj (staged_held _ _ _ _ Hs) (or_intror Hc))).
  destruct (publish_staged_inner _ _ _ _ _ _ _ _ _) as [[o|e] w']; done.
Qed.

(** ** Journaled puts *)

Import JournalFrames Journal.

Lemma journal_under op : under_journals (journal_path root op).
Proof.
  exists (op ++ str_bytes ".journal"). unfold journal_path, journals_dir. by rewrite <- !app_assoc.
Qed.

Lemma journals_not_objects p : under_journals p -> ~ under_objects p.
Proof. intros Hj Ho. by apply (objects_not_journals p). Qed.

Lemma staging_dir_outside op p : in_dir (op_staging_dir root op) p = true -> outside p.
Proof.
  intros [r ->]%starts_with_spec. unfold op_staging_dir. rewrite <- !app_assoc.
  split; [by eapply (outside_objects _ _ 115)|by eapply (outside_journals _ _ 115)].
Qed.

Lemma attempt_in_op op a p : in_dir (attempt_dir root op a) p = true -> in_dir (op_staging_dir root op) p = true.
Proof.
  unfold in_dir, attempt_dir. intros [r ->]%starts_with_spec. apply starts_with_spec.
  rewrite <- !app_assoc. eexists. by rewrite <- !app_assoc.
Qed.

Lemma object_in_attempt op a : in_dir (attempt_dir root op a) (staged_object root op a) = true.
Proof. unfold in_dir, staged_object. apply starts_with_spec. eexists. by rewrite <- app_assoc. Qed.

Lemma object_outside op a : outside (staged_object root op a).
Proof. eapply staging_dir_outside, attempt_in_op, object_in_attempt. Qed.

Lemma remove_dir_lookup dir d p :
  names (remove_dir_all dir d) !! p = if in_dir dir p then None else names d !! p.
Proof.
  cbn. destruct (in_dir dir p) eqn:Hd.
  - apply map_lookup_filter_None. right. intros x _. cbn. by rewrite Hd.
  - destruct (names d !! p) as [e|] eqn:Hp.
    + by apply map_lookup_filter_Some.
    + apply map_lookup_filter_None. by left.
Qed.

Lemma remove_dir_safe dir w :
  (forall p, in_dir dir p = true -> outside p) -> safe w -> safe (on_fs (remove_dir_all dir) w).
Proof.
  intros Hdir Hs. destruct (numbered_of w Hs) as (Hn1 & Hn2 & Hn3).
  assert (Hback : forall p i b, names (remove_dir_all dir (fs w)) !! p = Some (i, b) ->
    names (fs w) !! p = Some (i, b)).
  { intros p i b. rewrite remove_dir_lookup. by destruct (in_dir dir p). }
  apply safe_disk; [done|..].
  - split; [|split; [done|apply (alone_sub (fs w)); [by eauto|done]]].
    intros p i b Hp. by eapply Hn1, Hback.
  - constructor; [by eauto| |done]. intros p i Ho Hp. rewrite remove_dir_lookup.
    destruct (in_dir dir p) eqn:Hd; [by destruct (Hdir p Hd)|done].
  - intros n Hn. rewrite remove_dir_lookup. destruct (in_dir _ _); [done|]. by apply (s_fresh _ Hs).
Qed.

(** Opening a journal for appending, which may create it. *)
Lemma open_journal_safe j w :
  under_journals j -> safe w ->
  safe (on_fs (open_append j) w) /\ is_Some (names (open_append j (fs w)) !! j) /\
  forall p, p <> j -> names (open_append j (fs w)) !! p = names (fs w) !! p.
Proof.
  intros Hj Hs. unfold on_fs, open_append, exists_file. destruct (names (fs w) !! j) as [e|] eqn:He.
  - rewrite bool_decide_eq_true_2 by done. split; [by destruct w|]. by rewrite He.
  - rewrite bool_decide_eq_false_2 by (by intros []). split; [|unfold create; rewrite He; cbn].
    + apply (create_safe j w); [done|by apply journals_not_objects|done|].
      intros n _ E. destruct (staging_outside (pid w) n) as [_ []]. by rewrite E.
    + rewrite lookup_insert_eq. split; [done|]. intros p Hne. by rewrite lookup_insert_ne.
Qed.

(** Appending to a journal touches nothing else. *)
Lemma append_journal op payload w :
  let j := journal_path root op in
  safe w -> exists d, append_framed (BLAKE := BLAKE) j payload w = (Ok tt, on_fs (fun _ => d) w) /\
    safe (on_fs (fun _ => d) w) /\ forall p, p <> j -> names d !! p = names (fs w) !! p.
Proof.
  intros j Hs. assert (Hj : under_journals j) by apply journal_under.
  destruct (open_journal_safe j w Hj Hs) as (Hs1 & [[i b] Hi] & Hn1).
  set (w1 := on_fs (open_append j) w) in *.
  set (bs := framed_record (BLAKE := BLAKE) payload).
  assert (Hs2 : safe (on_fs (append j bs) w1)).
  { apply (alter_safe j i b); [done|done|]. intros q c Hq.
    rewrite (g_journals _ (s_good _ Hs1) j q i b c Hj Hi Hq). by apply journals_not_objects. }
  exists (sync_file j (append j bs (fs w1))). split; [done|]. split; [exact (sync_file_safe j _ Hs2)|].
  intros p Hne. rewrite sync_file_names. unfold append. rewrite write_with_names. by apply Hn1.
Qed.

Lemma append_journal_triple op payload :
  triple safe (append_framed (BLAKE := BLAKE) (journal_path root op) payload) (fun _ => safe) safe.
Proof. intros w Hs. destruct (append_journal op payload w Hs) as (d & -> & Hs' & _). done. Qed.

Lemma begin_triple op a declared p :
  outside p -> triple (free p) (begin_attempt (BLAKE := BLAKE) root op a declared) (fun _ => free p) safe.
Proof.
  intros Ho. unfold begin_attempt.
  assert (Hdir : forall dir w, free p w -> free p (on_fs (create_dir dir) w)).
  { intros dir w (Hs & _ & Hn & Hf). split; [by apply create_dir_safe|]. split; [done|]. split; [|done].
    cbn. unfold create_dir. by destruct (fanouts (fs w) !! dir). }
  eapply triple_bind; [apply triple_disk with (Q := fun _ => free p); apply Hdir|]. intros ?.
  eapply triple_bind; [apply triple_disk with (Q := fun _ => free p); intros w Hw|].
  { apply (Hdir (attempt_dir root op a) (on_fs (create_dir (op_staging_dir root op)) w)). by apply Hdir. }
  intros ? w (Hs & _ & Hn & Hf). unfold journal_append.
  destruct (append_journal op (encode (Begin a (digest_key declared))) w Hs) as (d & -> & Hs' & Hd).
  split; [done|]. split; [done|]. split; [|done]. cbn. rewrite Hd; [done|].
  intros E. destruct Ho as [_ []]. rewrite E. apply journal_under.
Qed.

Lemma publish_staged_triple p bs sy declared durability :
  fsync_file durability = true -> declared = id_under ManifestCodec.ATP_OBJECT_CONTENT_DOMAIN bs ->
  triple (held p bs sy) (publish_staged (SHA := SHA) root declared p durability) (fun _ => safe) safe.
Proof.
  intros Hd -> w Hw. unfold publish_staged, read_file. unmonad.
  destruct (read p (fs w)) as [x|]; [|by eapply held_safe].
  apply (publish_triple _ p bs sy (Z.of_nat (length x)) durability None RAW_PROFILE_V1 _ Hd (raw_identified bs)).
  split; [done|by left].
Qed.

(** Streaming into a fresh attempt, with the crash points of the publication. *)
Lemma staged_publish_triple p reader limits declared (m : Z -> io PutOutcome) :
  (forall bs n, declared = id_under ManifestCodec.ATP_OBJECT_CONTENT_DOMAIN bs ->
     triple (held p bs false) (m n) (fun _ => safe) safe) ->
  triple (free p)
    (set ← or_remove p (stream_to_staging (SHA := SHA) (BLAKE := BLAKE) p reader limits);
     _ ← verify_declared p declared (atp_content_id set); m (logical_size set)) (fun _ => safe) safe.
Proof.
  intros Hm. eapply triple_bind; [apply or_remove_triple; [by intros w (_ & ? & _)|apply stream_triple]|].
  intros set w (bs & Hst & Hid). unfold verify_declared. unfold mbind at 1, method_bind at 1.
  destruct (bool_decide _) eqn:Hdec.
  - apply bool_decide_eq_true in Hdec. cbn [mret method_ret]. unfold mret, method_ret.
    apply (Hm bs (logical_size set)); [by rewrite <- Hdec|by apply staged_held].
  - cbn. apply remove_safe; [by eapply staged_safe|apply Hst].
Qed.

Lemma end_triple debug op a outcome :
  triple safe (end_attempt (BLAKE := BLAKE) root debug op a outcome) (fun _ => safe) safe.
Proof.
  unfold end_attempt. eapply triple_bind; [apply append_journal_triple|]. intros ?.
  eapply triple_bind; [apply triple_disk with (Q := fun _ => safe)|].
  { intros w. apply remove_dir_safe. intros p Hp. by eapply staging_dir_outside, attempt_in_op. }
  intros ? w Hs. by destruct outcome.
Qed.

Lemma with_outcome_triple {A B} (P : world -> Prop) (m : io A) (k : result PutError A -> io B) Q :
  triple P m (fun _ => safe) safe -> (forall o, triple safe (k o) Q safe) -> triple P (with_outcome m k) Q safe.
Proof.
  intros Hm Hk w Hw. specialize (Hm w Hw). unfold with_outcome.
  destruct (m w) as [[a|e] w']; by apply Hk.
Qed.

(** ** Recovery *)

Lemma resolve_triple key op a durability :
  fsync_file durability = true ->
  triple safe (resolve_open_attempt (SHA := SHA) (BLAKE := BLAKE) root key (staged_object root op a) durability)
    (fun _ => safe) safe.
Proof.
  intros Hd w Hs. unfold resolve_open_attempt. destruct key as [key|]; [|done].
  unmonad. destruct (negb _); [done|]. unfold with_outcome at 1, recompute_file_digest, read_file. unmonad.
  set (p := staged_object root op a).
  destruct (read p (fs w)) as [bs|] eqn:Hr; [|done].
  destruct (content_digest _ _) as [set|e] eqn:Hc; [|done].
  cbn. destruct (negb _); [done|].
  apply content_digest_id in Hc. rewrite file_reads_concat in Hc.
  assert (Hh : exists sy, held p bs sy w).
  { unfold read, inode_of in Hr. destruct (names (fs w) !! p) as [[i b]|] eqn:Hn; [|done]. cbn in Hr.
    destruct (inodes (fs w) !! i) as [n|] eqn:Hi; [|done]. injection Hr as <-.
    exists (synced n). split; [done|]. split; [apply object_outside|]. exists i, b. by destruct n. }
  destruct Hh as [sy Hh]. revert w Hh Hs Hr.
  enough (Ht : triple (held p bs sy)
    (with_outcome (publish_staged (SHA := SHA) root (atp_content_id set) p durability) (fun outcome =>
       match outcome with
       | Ok (Stored path) | Ok (IdempotentDuplicate path) => mret (Resumed path)
       | Err (CollisionIncident _ _ _) => mret Cleaned
       | Err e => throw e
       end)) (fun _ => safe) safe) by (intros w Hh _ _; exact (Ht w Hh)).
  apply with_outcome_triple; [by apply (publish_staged_triple p bs sy)|].
  intros [[]|[]] w Hs; done.
Qed.

Lemma resolve_attempts_triple op durability l report :
  fsync_file durability = true ->
  triple safe (resolve_attempts (SHA := SHA) (BLAKE := BLAKE) root op durability l report)
    (fun _ => safe) safe.
Proof.
  intros Hd. assert (Hrm : forall a, triple safe (disk_op (remove_dir_all (attempt_dir root op a))) (fun _ => safe) safe).
  { intros a. apply triple_disk. intros w. apply remove_dir_safe. intros p Hp.
    by eapply staging_dir_outside, attempt_in_op. }
  revert report. induction l as [|[[a key] []] l IH]; intros report; cbn [resolve_attempts].
  - by apply triple_ret.
  - eapply triple_bind; [apply Hrm|]. intros ?. apply IH.
  - eapply triple_bind; [by apply resolve_triple|]. intros ?.
    eapply triple_bind; [apply Hrm|]. intros ?. apply IH.
Qed.

Lemma stem_path p op : journal_stem root p = Some op -> p = journal_path root op.
Proof.
  unfold journal_stem. destruct (strip_prefix _ p) as [name|] eqn:Hp; [|done].
  apply strip_prefix_spec in Hp as ->. set (n := (length name - 8)%nat).
  destruct (contains_byte _ _); [done|]. destruct (is_lit _ _) eqn:Hl; [|done]. cbn.
  apply is_lit_spec in Hl. destruct (n =? 0)%nat; [done|]. intros [= <-].
  unfold journal_path. rewrite <- app_assoc. do 2 f_equal. by rewrite <- Hl, take_drop.
Qed.

Lemma journal_files_stem d p : p ∈ journal_files root d -> is_Some (journal_stem root p).
Proof.
  unfold journal_files. rewrite sort_by_perm, list_elem_of_filter. by intros [? _].
Qed.

Lemma recover_journal_triple durability op report :
  fsync_file durability = true ->
  triple safe (recover_journal (SHA := SHA) (BLAKE := BLAKE) root durability (journal_path root op) report)
    (fun _ => safe) safe.
Proof.
  intros Hd. unfold recover_journal.
  eapply triple_bind; [by apply triple_get with (Q := fun _ => safe)|]. intros w1.
  eapply triple_bind; [by apply resolve_attempts_triple|]. intros r.
  eapply triple_bind; [apply triple_disk with (Q := fun _ => safe)|].
  { intros w. apply remove_dir_safe, staging_dir_outside. }
  intros ?. eapply triple_bind; [by apply triple_get with (Q := fun _ => safe)|]. intros w2.
  eapply triple_bind; [by apply triple_refuse with (Q := fun _ => safe)|]. intros ?.
  eapply triple_bind; [apply triple_disk with (Q := fun _ => safe)|intros ?; by apply triple_ret].
  intros w Hs. apply remove_name_safe; [done|]. apply journals_not_objects, journal_under.
Qed.

Lemma recover_triple durability :
  fsync_file durability = true ->
  triple safe (recover_operations (SHA := SHA) (BLAKE := BLAKE) root durability) (fun _ => safe) safe.
Proof.
  intros Hd. unfold recover_operations.
  eapply triple_bind; [apply triple_disk with (Q := fun _ => safe), create_dir_safe|]. intros ?.
  eapply triple_bind; [by apply triple_get with (Q := fun _ => safe)|]. intros w0.
  assert (Hp : Forall (fun p => is_Some (journal_stem root p)) (journal_files root (fs w0)))
    by (apply Forall_forall, journal_files_stem).
  revert Hp. generalize (journal_files root (fs w0)) as paths. generalize report_default as report.
  intros report paths Hp. revert report. induction Hp as [|j paths [op Hj] _ IH]; intros report;
    cbn [recover_journals]; [by apply triple_ret|].
  apply stem_path in Hj as ->.
  eapply triple_bind; [by apply recover_journal_triple|]. intros r; apply IH.
Qed.

(** ** Histories *)

(** What may happen to the store: puts of raw and encoded representations, plain and
    journaled, under any durability and with a crash point anywhere; writers that die while
    streaming; recoveries; and a crash, after which a process takes over. *)
Inductive event :=
  | Put (declared : TypedDigest) (reader : list (list Z)) (limits : PutLimits)
      (durability : DurabilityPolicy) (fault : option FaultPoint)
  | PutEncoded (declared : TypedDigest) (profile : string) (encoded : list (list Z))
      (decoder : list Z -> option (list Z)) (limits : PutLimits) (durability : DurabilityPolicy)
  | TornPut (bs : list Z)
  | PutJournaled (debug : PutError -> text) (op a : Z) (declared : TypedDigest) (reader : list (list Z))
      (limits : PutLimits) (durability : DurabilityPolicy)
  | TornJournaled (op a : Z) (declared : TypedDigest) (bs : list Z)
  | DyingJournaled (op a : Z) (declared : TypedDigest) (reader : list (list Z)) (limits : PutLimits)
      (durability : DurabilityPolicy) (fault : FaultPoint)
  | Recover (durability : DurabilityPolicy)
  | Crash (d : disk) (q : Z).

Definition happen (e : event) (w : world) : world :=
  match e with
  | Put declared reader limits durability fault =>
      snd (put_if_absent_with_fault (SHA := SHA) (BLAKE := BLAKE) root declared reader limits
             durability fault w)
  | PutEncoded declared profile encoded decoder limits durability =>
      snd (put_encoded_representation (SHA := SHA) (BLAKE := BLAKE) root declared profile encoded
             decoder limits durability w)
  | TornPut bs =>
      snd ((p ← fresh_staging_path root; _ ← disk_op (create p); disk_op (append p bs)) w)
  | PutJournaled debug op a declared reader limits durability =>
      snd (put_if_absent_journaled (SHA := SHA) (BLAKE := BLAKE) root debug op a declared reader limits
             durability w)
  | TornJournaled op a declared bs =>
      snd ((_ ← begin_attempt (BLAKE := BLAKE) root (u128_hex op) (u128_hex a) declared;
            _ ← disk_op (create (staged_object root (u128_hex op) (u128_hex a)));
            disk_op (append (staged_object root (u128_hex op) (u128_hex a)) bs)) w)
  | DyingJournaled op a declared reader limits durability fault =>
      let p := staged_object root (u128_hex op) (u128_hex a) in
      snd ((_ ← begin_attempt (BLAKE := BLAKE) root (u128_hex op) (u128_hex a) declared;
            set ← or_remove p (stream_to_staging (SHA := SHA) (BLAKE := BLAKE) p reader limits);
            _ ← verify_declared p declared (atp_content_id set);
            publish_staged_inner (SHA := SHA) root declared p (logical_size set) durability (Some fault)
              RAW_PROFILE_V1 declared) w)
  | Recover durability => snd (recover_operations (SHA := SHA) (BLAKE := BLAKE) root durability w)
  | Crash d q => {| fs := d; objects := objects w; meta := meta w; pid := q; put_counter := 0 |}
  end.

(** The disk after a crash is one the crash can leave. *)
Definition possible (w : world) (e : event) : Prop :=
  match e with Crash d _ => crash (fs w) d | _ => True end.

(** Whoever links a file into the published namespace syncs it first. *)
Definition syncs (e : event) : Prop :=
  match e with
  | Put _ _ _ durability _ | PutEncoded _ _ _ _ _ durability | PutJournaled _ _ _ _ _ _ durability
  | DyingJournaled _ _ _ _ _ durability _ | Recover durability => fsync_file durability = true
  | TornPut _ | TornJournaled _ _ _ _ | Crash _ _ => True
  end.

(** No writer draws a staging name that is in use: the put counter does not wrap, the object
    file of a journaled attempt does not exist yet, and a process started after a crash has an
    identifier that no staging file left behind bears. *)
Definition own_staging (w : world) (e : event) : Prop :=
  match e with
  | Put _ _ _ _ _ | PutEncoded _ _ _ _ _ _ | TornPut _ => put_counter w + 2 < 2 ^ 64
  | PutJournaled _ op a _ _ _ _ | TornJournaled op a _ _ | DyingJournaled op a _ _ _ _ _ =>
      names (fs w) !! staged_object root (u128_hex op) (u128_hex a) = None
  | Recover _ => True
  | Crash d q => forall n, names d !! staging_name root q n = None
  end.

(** An encoded representation has a profile of its own. *)
Definition own_profile (e : event) : Prop :=
  match e with PutEncoded _ profile _ _ _ _ => profile <> RAW_PROFILE_V1 | _ => True end.

(** A crash keeps the fan-out directories. *)
Definition spares_dirs (w : world) (e : event) : Prop :=
  match e with
  | Crash d _ => forall dir b, fanouts (fs w) !! dir = Some b -> fanouts d !! dir = Some true
  | _ => True
  end.

(** An event under these premises. *)
Definition disciplined (w w' : world) : Prop :=
  exists e, w' = happen e w /\ possible w e /\ syncs e /\ own_staging w e /\ own_profile e
    /\ (dirs_survive -> spares_dirs w e).

Lemma triple_snd {A} (P : world -> Prop) (m : io A) w :
  triple P m (fun _ => safe) safe -> P w -> safe (snd (m w)).
Proof. intros Hm Hw. specialize (Hm w Hw). by destruct (m w) as [[a|e] w']. Qed.

Lemma crash_good d d' : good d -> crash d d' -> good d'.
Proof.
  intros Hg Hc. constructor.
  - intros p i b Hp. rewrite (crash_next _ _ Hc).
    destruct (crash_names _ _ Hc p i b Hp) as [_ [c Hd]]. by eapply (g_names _ Hg).
  - intros i Hi. rewrite (crash_next _ _ Hc). apply (g_inodes _ Hg). by apply (crash_inodes _ _ Hc).
  - intros p i b Hp Ho. destruct (crash_names _ _ Hc p i b Hp) as [_ [c Hd]].
    destruct (g_published _ Hg p i c Hd Ho) as (lg & pr & f & n & -> & Hi & Hy & Hid).
    exists lg, pr, f, n. split; [done|]. split; [by apply (crash_synced _ _ Hc)|done].
  - apply (alone_sub d); [|apply (g_journals _ Hg)]. intros p i b Hp. by apply (crash_names _ _ Hc p i b Hp).
Qed.

Lemma object_not_put op a q n : staging_name root q n <> staged_object root (u128_hex op) a.
Proof.
  unfold staging_name, staged_object, attempt_dir, op_staging_dir, u128_hex. rewrite <- !app_assoc.
  intros E. apply app_inv_head in E. pose proof (be_bytes_all 16 op) as Hb.
  destruct (be_bytes 16 op) as [|b bs] eqn:Hbs; [by apply (f_equal length) in Hbs; rewrite be_bytes_length in Hbs|].
  apply Forall_cons in Hb as [Hb _]. unfold hex in E. rewrite fmap_cons in E. cbn [concat] in E.
  apply (f_equal (fun l => l !! 9%nat)) in E.
  change (Some 112 = Some (hex_nibble (b / 16))) in E. apply Some_inj in E.
  unfold is_byte in Hb. assert (0 <= b / 16 < 16) by (split; [apply Z.div_pos; lia|apply Z.div_lt_upper_bound; lia]).
  unfold hex_nibble in E. destruct (b / 16 <? 10); lia.
Qed.

Lemma attempt_free op a w :
  safe w -> names (fs w) !! staged_object root (u128_hex op) a = None ->
  free (staged_object root (u128_hex op) a) w.
Proof. intros Hs Hn. split; [done|]. split; [apply object_outside|]. split; [done|]. intros n _. apply object_not_put. Qed.

(** A writer that dies while it streams into a free name. *)
Lemma torn_triple p bs :
  triple (free p) (_ ← disk_op (create p); disk_op (append p bs)) (fun _ => safe) safe.
Proof.
  eapply triple_bind; [apply triple_disk with (Q := fun _ => streamed p [])|].
  { intros v (Hv & Ho & Hn & Hne). by apply create_staged. }
  intros ?. apply triple_disk. intros v Hv. by eapply staged_safe, append_staged.
Qed.

Lemma journaled_triple debug op a declared reader limits durability :
  fsync_file durability = true ->
  triple (free (staged_object root (u128_hex op) (u128_hex a)))
    (put_if_absent_journaled (SHA := SHA) (BLAKE := BLAKE) root debug op a declared reader limits durability)
    (fun _ => safe) safe.
Proof.
  intros Hd. unfold put_if_absent_journaled. eapply triple_bind; [apply begin_triple, object_outside|]. intros ?.
  apply with_outcome_triple; [|intros o; apply end_triple]. unfold stage_verify_publish.
  apply (staged_publish_triple _ reader limits declared
    (fun _ => publish_staged root declared (staged_object root (u128_hex op) (u128_hex a)) durability)).
  intros bs _ Hid. by apply (publish_staged_triple _ bs false).
Qed.

Lemma safe_step w w' : safe w -> disciplined w w' -> safe w'.
Proof.
  intros Hs (e & -> & Hcr & Hd & Hn & Hp & Hds).
  destruct e as [declared reader limits durability fault
                |declared profile encoded decoder limits durability|bs
                |debug op a declared reader limits durability|op a declared bs
                |op a declared reader limits durability fault|durability|d q];
    cbn [possible syncs own_staging own_profile spares_dirs] in *; cbn [happen].
  - by apply (triple_snd _ _ _ (put_triple declared reader limits durability fault Hd)).
  - by apply (triple_snd _ _ _ (encoded_triple declared profile encoded decoder limits durability Hd Hp)).
  - eapply (triple_snd (fun w => safe w /\ put_counter w + 2 < 2 ^ 64)); [|done].
    eapply triple_bind; [apply fresh_path_counted|]. intros p v [Hv _]. by apply torn_triple.
  - by eapply triple_snd; [apply journaled_triple|apply attempt_free].
  - eapply triple_snd; [|by apply attempt_free].
    eapply triple_bind; [apply begin_triple, object_outside|]. intros ?. apply torn_triple.
  - eapply triple_snd; [|by apply attempt_free].
    eapply triple_bind; [apply begin_triple, object_outside|]. intros ?.
    set (p := staged_object root (u128_hex op) (u128_hex a)).
    apply (staged_publish_triple p reader limits declared
      (fun n => publish_staged_inner root declared p n durability (Some fault) RAW_PROFILE_V1 declared)).
    intros bs n Hid v Hv. rewrite Hid.
    apply (publish_triple _ p bs false n durability (Some fault) RAW_PROFILE_V1 _ Hd (raw_identified bs)).
    split; [done|by left].
  - by eapply triple_snd; [apply recover_triple|].
  - destruct Hs as [Hg [Hu Hf] Hr]. constructor; cbn.
    + by apply (crash_good (fs w)).
    + split; cbn; [apply zero_in_u; lia|]. intros n _. apply Hn.
    + intros Hk k p row Hl Hdu. destruct (Hr Hk k p row Hl Hdu) as (Ho & i & n & Hni & Hi & Hy).
      split; [done|]. exists i, n. split; [|split; [by apply (crash_synced _ _ Hcr)|done]].
      apply (crash_keeps _ _ Hcr p i Hni). intros dir b Hb _. by apply (Hds Hk dir b).
Qed.

Definition boot (q : Z) : world :=
  {| fs := {| names := ∅; inodes := ∅; next_inode := 0; fanouts := ∅ |}; objects := ∅;
     meta := empty_ledger; pid := q; put_counter := 0 |}.

Lemma boot_safe q : safe (boot q).
Proof.
  constructor; cbn.
  - constructor; cbn; [by intros ????|by intros ? [? ?]|by intros ????|by intros ??????].
  - split; cbn; [apply zero_in_u; lia|done].
  - intros _ k p row Hl. cbn in Hl. done.
Qed.

Lemma history_safe q w : rtc disciplined (boot q) w -> safe w.
Proof. apply (invariant_rtc disciplined safe safe_step). apply boot_safe. Qed.

(** ** A put of the right bytes succeeds *)

Definition no_limits : PutLimits := {| max_logical_bytes := None; expected := None |}.

Abbreviation never := (fun _ : world => False).

Lemma fresh_path_total :
  triple (fun w => safe w /\ put_counter w + 2 < 2 ^ 64) (fresh_staging_path root) (fun p => free p) never.
Proof. intros w [Hs Hc]. apply (fresh_path_triple w). split; [done|lia]. Qed.

Lemma stream_loop_total p e chunks cs total :
  Forall (fun c => c <> []) chunks -> Z.of_nat (length (concat (cs ++ chunks))) < 2 ^ 64 ->
  triple (streamed p (concat cs))
    (stream_loop (SHA := SHA) (BLAKE := BLAKE) p no_limits total chunks (writer_at default_request e cs))
    (fun wr w => wr = writer_at default_request e (cs ++ chunks) /\ streamed p (concat (cs ++ chunks)) w) never.
Proof.
  intros Hne. revert cs total. induction Hne as [|[|x c] chunks Hc Hne IH]; intros cs total Hl; [|done|].
  - cbn [stream_loop]. rewrite app_nil_r. by apply triple_ret.
  - cbn [stream_loop]. cbn [max_logical_bytes no_limits]. rewrite write_at.
    replace (cs ++ (x :: c) :: chunks) with ((cs ++ [x :: c]) ++ chunks) in * by (by rewrite <- app_assoc).
    rewrite concat_app, length_app in Hl.
    destruct (Z.ltb_spec (Z.of_nat (length (concat (cs ++ [x :: c])))) (2 ^ 64)); [|lia].
    eapply triple_bind; [|intros ?; apply (IH (cs ++ [x :: c])); rewrite concat_app, length_app; lia].
    apply triple_disk. intros w Hw. rewrite concat_app. cbn [concat]. rewrite app_nil_r.
    by apply (append_staged p (concat cs) false).
Qed.

Lemma stream_total p chunks :
  Forall (fun c => c <> []) chunks -> Z.of_nat (length (concat chunks)) < 2 ^ 64 ->
  triple (free p) (stream_to_staging (SHA := SHA) (BLAKE := BLAKE) p chunks no_limits)
    (fun set w => streamed p (concat chunks) w /\
       atp_content_id set = id_under ManifestCodec.ATP_OBJECT_CONTENT_DOMAIN (concat chunks) /\
       logical_size set = Z.of_nat (length (concat chunks))) never.
Proof.
  intros Hne Hl. unfold stream_to_staging. eapply triple_bind.
  { apply triple_disk with (Q := fun _ => streamed p []). intros w (Hs & Ho & Hp & Hn).
    by apply create_staged. }
  intros ?. eapply triple_bind.
  { change (writer_new default_request (expected no_limits))
      with (writer_at (SHA := SHA) (BLAKE := BLAKE) default_request (expected no_limits) []).
    apply stream_loop_total with (cs := []); [done|done]. }
  intros wr w [-> Hw]. by rewrite (finish_at sha blk).
Qed.

(** The row of a published copy. *)
Definition recorded (declared : TypedDigest) (t : text) (w : world) : Prop :=
  is_Some (objects w !! digest_key declared) /\
  exists row, locations (base (meta w)) !! (digest_key declared, t) = Some row /\
    loc_durable row = true /\ quarantined row = false.

Lemma record_total declared size t p (out : PutOutcome) :
  0 <= size <= I64_MAX -> outside p ->
  triple (visible t true)
    (_ ← record_object declared size;
     _ ← record_location declared t RAW_PROFILE_V1 true;
     _ ← disk_op (remove_file p); mret out)
    (fun o w => o = out /\ visible t true w /\ recorded declared t w) never.
Proof.
  intros Hsz Ho w Hv.
  assert (Hi : to_i64 "logical_size" size = Ok size).
  { unfold to_i64. destruct (Z.ltb_spec I64_MAX size); [lia|done]. }
  assert (Ht : triple (visible t true)
    (_ ← record_object declared size;
     _ ← record_location declared t RAW_PROFILE_V1 true;
     _ ← disk_op (remove_file p); mret out) (fun _ => visible t true) safe).
  { eapply triple_bind; [apply record_object_triple|]. intros ?.
    eapply triple_bind; [apply record_location_triple|]. intros ?.
    eapply triple_bind; [by apply remove_triple|]. intros ?. by apply triple_ret. }
  specialize (Ht w Hv). revert Ht. unfold record_object. unmonad. unfold store_op, lift_result. rewrite Hi.
  cbn. intros Ht. split; [done|]. split; [done|]. unfold recorded. cbn.
  rewrite !lookup_insert_eq. split; [done|]. eexists. split; [done|]. done.
Qed.

Lemma existing_total declared bs size p sy :
  let t := published_path root declared RAW_PROFILE_V1 declared in
  declared = id_under ManifestCodec.ATP_OBJECT_CONTENT_DOMAIN bs -> 0 <= size <= I64_MAX ->
  triple (fun w => held p bs sy w /\ exists_file t (fs w) = true)
    (handle_existing (SHA := SHA) root declared size RAW_PROFILE_V1 declared p t FULL)
    (fun o w => o = IdempotentDuplicate t /\ visible t true w /\ recorded declared t w) never.
Proof.
  intros t Hdecl Hsz w [Hst Hex]. unfold exists_file in Hex. apply bool_decide_eq_true in Hex as [[i b] Hn].
  assert (Hs : safe w) by by eapply held_safe. assert (Ho : outside p) by apply Hst.
  destruct (raw_holds w declared bs i b Hs Hdecl Hn) as (n & Hi & Hid).
  assert (Hrd : read t (fs w) = Some (data n)) by (unfold read, inode_of; by rewrite Hn; cbn; rewrite Hi).
  assert (Hv : visible t false w) by (eapply existing_visible; [done|apply published_under|by rewrite Hrd]).
  unfold handle_existing, hash_file_under_domain, read_file.
  unfold mbind at 1, method_bind at 1. unfold mbind at 1, method_bind at 1. rewrite Hrd. cbv beta iota.
  unfold mret at 1, method_ret at 1. rewrite hash_bytes_id, file_reads_concat.
  rewrite bool_decide_eq_true_2 by (rewrite Hdecl at 1; cbn [domain id_under]; by rewrite Hid).
  unfold mbind at 1, method_bind at 1. cbn [is_full FULL fsync_file fsync_directory andb].
  unfold disk_op at 1, modify at 1. cbv beta iota.
  apply (record_total declared size t p); [done|done|].
  apply (sync_dir_visible declared RAW_PROFILE_V1 declared (on_fs (sync_file t) w) false).
  by apply sync_file_visible.
Qed.

Lemma no_fault (P : world -> Prop) q : triple P (fault_at None q) (fun _ => P) never.
Proof. intros w Hw. unfold fault_at, refuse_if. by rewrite bool_decide_eq_false_2. Qed.

Lemma publish_total declared bs size p sy :
  let t := published_path root declared RAW_PROFILE_V1 declared in
  declared = id_under ManifestCodec.ATP_OBJECT_CONTENT_DOMAIN bs -> 0 <= size <= I64_MAX ->
  triple (held p bs sy)
    (publish_staged_inner (SHA := SHA) root declared p size FULL None RAW_PROFILE_V1 declared)
    (fun o w => (o = Stored t \/ o = IdempotentDuplicate t) /\ visible t true w /\ recorded declared t w) never.
Proof.
  intros t Hdecl Hsz. unfold publish_staged_inner. cbn [fsync_file fsync_directory FULL].
  eapply triple_bind with (R := fun _ => held p bs true).
  { intros w Hst. unmonad. unfold refuse_if, exists_file.
    destruct Hst as (Hs & Ho & i & b & Hp & Hi). rewrite Hp, bool_decide_eq_true_2 by done.
    apply (sync_held p bs sy w). split; [done|]. split; [done|]. by exists i, b. }
  intros ?. eapply triple_bind; [apply no_fault|]. intros ?.
  eapply triple_bind; [apply triple_disk with (Q := fun _ => held p bs true)|].
  { intros w Hst. by apply create_dir_held. }
  intros ?. intros w Hst. unfold mbind at 1, method_bind at 1, get at 1. cbv beta iota. fold t.
  assert (Ho : outside p) by apply Hst.
  destruct (hard_link p t (fs w)) as [d|[]] eqn:Hl.
  - apply (link_visible p bs t declared RAW_PROFILE_V1 declared d w Hst eq_refl) in Hl;
      [|by rewrite Hdecl|rewrite Hdecl; apply id_under_shape|by rewrite Hdecl].
    unfold mbind at 1, method_bind at 1, disk_op at 1, modify at 1. cbv beta iota.
    revert Hl. generalize (on_fs (fun _ => d) w). clear w Hst.
    enough (Ht : triple (visible t false)
      (_ ← fault_at None Linked;
       _ ← disk_op (sync_dir (fanout_dir root declared));
       _ ← fault_at None DirectorySynced;
       _ ← record_object declared size;
       _ ← record_location declared t RAW_PROFILE_V1 true;
       _ ← fault_at None MetadataRecorded;
       _ ← disk_op (remove_file p); mret (Stored t))
      (fun o w => (o = Stored t \/ o = IdempotentDuplicate t) /\ visible t true w /\ recorded declared t w)
      never) by exact Ht.
    eapply triple_bind; [apply no_fault|]. intros ?.
    eapply triple_bind; [apply triple_disk with (Q := fun _ => visible t true)|].
    { intros w Hv. by eapply sync_dir_visible. }
    intros ?. eapply triple_bind; [apply no_fault|]. intros ?.
    eapply triple_weaken; [apply (record_total declared size t p (Stored t) Hsz Ho)|done| |done].
    intros o w (-> & Hv). by split; [left|].
  - assert (Hex : exists_file t (fs w) = true).
    { unfold hard_link in Hl. destruct (inode_of p (fs w)); [|done]. by destruct (exists_file t (fs w)). }
    pose proof (existing_total declared bs size p true Hdecl Hsz w (conj Hst Hex)) as Ht.
    fold t in Ht. destruct (handle_existing _ _ _ _ _ _ _ _ _) as [[o|e] w']; [|done].
    destruct Ht as (-> & Hv). by split; [right|].
  - exfalso. destruct Hst as (_ & _ & i & b & Hp & _). unfold hard_link, inode_of in Hl. rewrite Hp in Hl.
    cbn in Hl. by destruct (exists_file t (fs w)).
Qed.

Lemma put_total declared chunks :
  let t := published_path root declared RAW_PROFILE_V1 declared in
  declared = id_under ManifestCodec.ATP_OBJECT_CONTENT_DOMAIN (concat chunks) ->
  Forall (fun c => c <> []) chunks -> Z.of_nat (length (concat chunks)) <= I64_MAX ->
  triple (fun w => safe w /\ put_counter w + 2 < 2 ^ 64)
    (put_if_absent (SHA := SHA) (BLAKE := BLAKE) root declared chunks no_limits FULL)
    (fun o w => (o = Stored t \/ o = IdempotentDuplicate t) /\ visible t true w /\ recorded declared t w) never.
Proof.
  intros t Hdecl Hne Hlen. unfold put_if_absent, put_if_absent_with_fault.
  assert (Hl : Z.of_nat (length (concat chunks)) < 2 ^ 64) by (unfold I64_MAX in Hlen; lia).
  eapply triple_bind; [apply fresh_path_total|]. intros p.
  eapply triple_bind.
  { intros w Hw. pose proof (stream_total p chunks Hne Hl w Hw) as Ht. unfold or_remove.
    destruct (stream_to_staging p chunks no_limits w) as [[set|e] w'] eqn:E; [|done].
    exact (conj Ht I). }
  intros set. intros w [(Hst & Hid & Hsz) _]. unfold verify_declared.
  unfold mbind at 1, method_bind at 1. rewrite bool_decide_eq_true_2 by (by rewrite Hid).
  unfold mret at 1, method_ret at 1.
  enough (Ht : triple (held p (concat chunks) false)
    (_ ← fault_at None StagingWritten;
     publish_staged_inner (SHA := SHA) root declared p (logical_size set) FULL None RAW_PROFILE_V1 declared)
    (fun o w => (o = Stored t \/ o = IdempotentDuplicate t) /\ visible t true w /\ recorded declared t w) never)
    by (apply Ht; by apply staged_held).
  eapply triple_bind; [apply no_fault|]. intros ?. apply publish_total; [done|]. rewrite Hsz. lia.
Qed.

End facts.

Section theorems.
Context {SHA BLAKE : Type} `{Hasher SHA} `{Hasher BLAKE}.
Context (sha blk : list Z -> list Z) `{!HasherLaw SHA sha} `{!HasherLaw BLAKE blk}.
Context (root : text).

Abbreviation history dirs := (rtc (disciplined (SHA := SHA) (BLAKE := BLAKE) root dirs)).

(** C29: no partial or wrong object is visible in the published namespace as long as every
    writer syncs its file before the link, no writer draws a staging name that is in use, and
    no encoded representation takes the raw profile.  Through any such history of puts of raw
    and encoded representations and journaled puts, one after the other, writers that die at
    any of the crash points or while streaming, recoveries from whatever the journals hold, and
    crashes that lose any unsynced data and names, every name under [objects] has contents that
    digest to the identity the name bears, and a raw name bears the object's own.  The code
    itself does not ensure that staging names are unused: a process restarted with the
    identifier of a dead one, or an attempt retried under its old identifiers, may overwrite a
    published object ([reused_name_overwrites_object], [retried_attempt_overwrites_object]). *)
Theorem published_intact q w p :
  history False (boot q) w -> under_objects root p -> is_Some (names (fs w) !! p) ->
  exists bs logical profile f, read p (fs w) = Some bs /\ p = published_path root logical profile f /\
    id_under sha (domain f) bs = f /\ (profile = RAW_PROFILE_V1 -> f = logical).
Proof.
  intros Hw Ho [[i b] Hn]. apply (history_safe sha blk root False) in Hw.
  destruct (g_published _ _ _ (s_good _ _ _ _ Hw) p i b Hn Ho) as (lg & pr & f & n & -> & Hi & _ & Hid & _ & Hr).
  exists (data n), lg, pr, f. unfold read, inode_of. rewrite Hn. cbn. rewrite Hi. cbn.
  split; [done|]. split; [done|]. split; [done|]. intros Hp. by apply Hr.
Qed.

(** C30: a location row that claims durability tells the truth, after any history of puts,
    deaths, recoveries and crashes in which writers sync their files before the link, no writer
    draws a staging name that is in use, no encoded representation takes the raw profile, and
    crashes spare the fan-out directories: the copy the row names exists, and any further crash
    that spares those directories leaves its bytes as they are. *)
Theorem durable_rows_true q w k p row :
  history True (boot q) w -> locations (base (meta w)) !! (k, p) = Some row -> loc_durable row = true ->
  exists bs, read p (fs w) = Some bs /\
    forall d, crash (fs w) d ->
      (forall dir b, fanouts (fs w) !! dir = Some b -> fanouts d !! dir = Some true) -> read p d = Some bs.
Proof.
  intros Hw Hl Hd. apply (history_safe sha blk root True) in Hw.
  destruct (s_rows _ _ _ _ Hw I k p row Hl Hd) as (_ & i & n & Hn & Hi & Hy).
  exists (data n). unfold read, inode_of. rewrite Hn. cbn. rewrite Hi. split; [done|].
  intros d Hc Hds. rewrite (crash_keeps _ _ Hc p i Hn) by (intros dir b Hb _; by apply (Hds dir b)).
  cbn. by rewrite (crash_synced _ _ Hc i n Hi Hy).
Qed.

(** A retry converges: after any history as in [published_intact], a put of the bytes of an object under full
    durability succeeds, whether or not an earlier writer got as far as the link, and leaves
    the object published under its name with both metadata rows recorded. *)
Theorem put_converges q w declared chunks :
  history False (boot q) w -> put_counter w + 2 < 2 ^ 64 ->
  declared = id_under sha ManifestCodec.ATP_OBJECT_CONTENT_DOMAIN (concat chunks) ->
  Forall (fun c => c <> []) chunks -> Z.of_nat (length (concat chunks)) <= I64_MAX ->
  let t := published_path root declared RAW_PROFILE_V1 declared in
  exists o w' bs,
    put_if_absent (SHA := SHA) (BLAKE := BLAKE) root declared chunks no_limits FULL w = (Ok o, w') /\
    (o = Stored t \/ o = IdempotentDuplicate t) /\ recorded declared t w' /\
    read t (fs w') = Some bs /\ id_under sha ManifestCodec.ATP_OBJECT_CONTENT_DOMAIN bs = declared.
Proof.
  intros Hw Hc Hdecl Hne Hlen t. apply (history_safe sha blk root False) in Hw.
  pose proof (put_total sha blk root False declared chunks Hdecl Hne Hlen w (conj Hw Hc)) as Ht.
  fold t in Ht. destruct (put_if_absent _ _ _ _ _ _) as [[o|e] w']; [|done].
  destruct Ht as (Ho & (Hs & _ & i & b & n & Hn & Hi & _) & Hr).
  destruct (raw_holds sha root False w' declared (concat chunks) i b Hs Hdecl Hn) as (n' & Hi' & Hid).
  exists o, w', (data n'). split; [done|]. split; [done|]. split; [done|]. split; [|done].
  unfold read, inode_of. fold t in Hn. rewrite Hn. cbn. by rewrite Hi'.
Qed.

(** A put that finds other bytes under its name opens the quarantine and keeps the incoming
    candidate, but when the copy it found was never recorded it reports a failure of the
    store in place of the incident. *)
Theorem unrecorded_collision declared size profile f staging t durability w bs :
  read t (fs w) = Some bs -> id_under sha (domain f) bs <> f -> exists_file staging (fs w) = true ->
  locations (base (meta w)) !! (digest_key declared, t) = None ->
  fst (handle_existing (SHA := SHA) root declared size profile f staging t durability w)
  = Err (StoreFailure (Corruption "unknown location")).
Proof.
  intros Hr Hne Hex Hl. unfold handle_existing, hash_file_under_domain, read_file. unmonad. rewrite Hr.
  rewrite (hash_bytes_id sha), file_reads_concat, bool_decide_eq_false_2 by done.
  cbn. rewrite Hex. cbn. unfold store_op. cbn.
  unfold with_base, set_location_quarantined, Store.in_txn. cbn. by rewrite Hl.
Qed.

End theorems.

(** ** What crashes can leave *)

(** Everything survives. *)
Definition settle (d : disk) : disk :=
  {| names := (fun e => (fst e, true)) <$> names d;
     inodes := (fun n => {| data := data n; synced := true |}) <$> inodes d;
     next_inode := next_inode d; fanouts := (fun _ => true) <$> fanouts d |}.

Lemma settle_crash d : crash d (settle d).
Proof.
  constructor; cbn.
  - intros dir Hd. by rewrite lookup_fmap, Hd.
  - intros dir b. rewrite lookup_fmap, fmap_Some. intros (c & Hc & ->). by rewrite Hc.
  - intros p i b. rewrite lookup_fmap, fmap_Some. intros ([j c] & Hc & [= -> ->]). by eauto.
  - intros p i Hp _. by rewrite lookup_fmap, Hp.
  - intros p dir b Hd. by rewrite lookup_fmap, Hd.
  - intros i n Hi Hy. rewrite lookup_fmap, Hi. cbn. by destruct n; cbn in *; subst.
  - intros i. by rewrite lookup_fmap, fmap_is_Some.
  - done.
Qed.

(** Nothing survives but the inodes: possible when no directory is on disk. *)
Definition wipe (d : disk) : disk :=
  {| names := ∅; inodes := inodes d; next_inode := next_inode d; fanouts := ∅ |}.

Definition wipeable (d : disk) : bool :=
  forallb (fun e => negb (snd e)) (map_to_list (fanouts d))
  && forallb (fun e => existsb (fun f => in_dir (fst f) (fst e)) (map_to_list (fanouts d)))
       (map_to_list (names d)).

Lemma wipe_crash d : wipeable d = true -> crash d (wipe d).
Proof.
  intros [H1 H2]%andb_true_iff. rewrite forallb_forall in H1, H2.
  assert (Hf : forall dir, fanouts d !! dir <> Some true).
  { intros dir Hd. apply elem_of_map_to_list, list_elem_of_In, H1 in Hd. done. }
  constructor; cbn; try done.
  - intros dir Hd. by apply Hf in Hd.
  - intros p i Hp Hdirs. exfalso. apply elem_of_map_to_list, list_elem_of_In, H2, existsb_exists in Hp.
    destruct Hp as ([dir b] & Hin & Hd). apply list_elem_of_In, elem_of_map_to_list in Hin.
    specialize (Hdirs dir b Hin Hd). by rewrite lookup_empty in Hdirs.
Qed.

(** ** Concrete puts, with the toy hash of Digest.v *)

Definition here : text := str_bytes "/cas".

Definition toy_id (bs : list Z) : TypedDigest :=
  id_under toy_hash ManifestCodec.ATP_OBJECT_CONTENT_DOMAIN bs.

Definition raw_path (bs : list Z) : text := published_path here (toy_id bs) RAW_PROFILE_V1 (toy_id bs).

Definition toy_put (bs : list Z) (fault : option FaultPoint) : io PutOutcome :=
  put_if_absent_with_fault (SHA := list Z) (BLAKE := list Z) here (toy_id bs) [bs] no_limits FULL fault.

Definition restart (d : disk) (q : Z) (w : world) : world :=
  {| fs := d; objects := objects w; meta := meta w; pid := q; put_counter := 0 |}.

(** A writer that dies after it recorded its object, its staging file still linked to it. *)
Definition died : world := snd (toy_put [1] (Some MetadataRecorded) (boot 7)).

Lemma died_reached dirs : rtc (disciplined (SHA := list Z) (BLAKE := list Z) here dirs) (boot 7) died.
Proof.
  apply rtc_once.
  exists (Put (toy_id [1]) [[1]] no_limits FULL (Some MetadataRecorded)).
  split; [reflexivity|]. split; [done|]. split; [done|]. split; [vm_compute; reflexivity|]. done.
Qed.

Lemma published_intact_witness :
  exists bs logical profile f, read (raw_path [1]) (fs died) = Some bs /\
    raw_path [1] = published_path here logical profile f /\
    id_under toy_hash (domain f) bs = f /\ (profile = RAW_PROFILE_V1 -> f = logical).
Proof.
  apply (published_intact toy_hash toy_hash here 7 died (raw_path [1])).
  - apply died_reached.
  - apply published_under.
  - vm_compute. by eexists.
Defined.

Lemma durable_rows_true_witness :
  exists bs, read (raw_path [1]) (fs died) = Some bs.
Proof.
  destruct (durable_rows_true toy_hash toy_hash here 7 died (digest_key (toy_id [1])) (raw_path [1])
              {| verified_seq := None; encoding := RAW_PROFILE_V1; quarantined := false; loc_durable := true |}
              (died_reached True) ltac:(by vm_compute) eq_refl) as (bs & Hb & _).
  by exists bs.
Defined.

Lemma put_converges_witness :
  exists o w', put_if_absent (SHA := list Z) (BLAKE := list Z) here (toy_id [1]) [[1]] no_limits FULL died
               = (Ok o, w').
Proof.
  destruct (put_converges toy_hash toy_hash here 7 died (toy_id [1]) [[1]] (died_reached False))
    as (o & w' & bs & Hp & _); [by vm_compute|done|by repeat constructor|by vm_compute|].
  by exists o, w'.
Defined.

Definition crashed : world := restart (settle (fs died)) 7 died.
Definition second_put : result PutError PutOutcome * world := toy_put [2] None crashed.
Definition first_put : result PutError PutOutcome * world := toy_put [1] None (boot 7).

(** A process that starts with the identifier of one that died, as in a container, draws the
    dead process's staging name again.  Creating it truncates the inode the published object
    shares with it, and the next object is written over the one before: its row still
    records a durable copy in good standing, and its name holds the bytes of another. *)
Theorem reused_name_overwrites_object :
  crash (fs died) (fs crashed) /\
  read (raw_path [1]) (fs crashed) = Some [1] /\ is_ok (fst second_put) = true /\
  read (raw_path [1]) (fs (snd second_put)) = Some [2] /\
  locations (base (meta (snd second_put))) !! (digest_key (toy_id [1]), raw_path [1])
  = Some {| verified_seq := None; encoding := RAW_PROFILE_V1; quarantined := false; loc_durable := true |}.
Proof.
  split; [apply settle_crash|]. split; [by vm_compute|]. split; [by vm_compute|]. split; by vm_compute.
Qed.

(** The first object in a fan-out directory: the put syncs the file and the directory and
    records a durable location, but the entry of the directory itself was never synced, and
    a crash may take the directory with the object in it. *)
Theorem durable_copy_lost :
  fst first_put = Ok (Stored (raw_path [1])) /\
  locations (base (meta (snd first_put))) !! (digest_key (toy_id [1]), raw_path [1])
  = Some {| verified_seq := None; encoding := RAW_PROFILE_V1; quarantined := false; loc_durable := true |} /\
  exists d, crash (fs (snd first_put)) d /\ read (raw_path [1]) d = None.
Proof.
  split; [by vm_compute|]. split; [by vm_compute|].
  exists (wipe (fs (snd first_put))). split; [|by vm_compute].
  apply wipe_crash. by vm_compute.
Qed.

End BlobFacts.
