(* ===== verification/Materialize.v ===== *)
(** * Materialization (rabs-cas/src/materialization.rs)

    A committed object becomes a file of a worktree: its raw copies are looked up in the
    metadata store, the first one that can be opened is streamed into a staging file beside
    the destination while it is hashed, and the staging file is renamed into place when the
    hash is the identity asked for.  The disk is the one of Blobs.v, where a hard link is a
    second name of one inode; the hash crates are the class [Hasher].

    A destination comes with its parent directory and file name as [Path] gives them.  Which
    operations of the operating system fail is an argument, an [io_fault] for each copy that is
    tried and one for the destination's directory; the removal of a staging file the run itself
    created does not fail.  The step of an I/O error is kept, its message is not. *)

From stdpp Require Import base gmap list strings.
From Stdlib Require Import ZArith Lia.
From S2P Require Import Prelude Bytes Text Numerals Manifest Digest Pack Store Ledger Blobs Journal Durability.
Import ResultIdentity DigestSet Pack Store Ledger.

Module Materialize.
Import Disk.

Inductive MaterializationMode := PrivateCopy | VerifiedCowReflink | ReadOnlyBind.

#[export] Instance MaterializationMode_eq_dec : EqDecision MaterializationMode.
Proof. solve_decision. Defined.

Definition mutation_permitted (m : MaterializationMode) : bool :=
  match m with PrivateCopy | VerifiedCowReflink => true | ReadOnlyBind => false end.
Definition mtime_permitted (m : MaterializationMode) : bool := mutation_permitted m.

Definition decide_materialization (destination_mutable reflink_available reflink_isolation_verified : bool) :
    MaterializationMode :=
  if negb destination_mutable then ReadOnlyBind
  else if reflink_available && reflink_isolation_verified then VerifiedCowReflink
  else PrivateCopy.

Inductive MaterializeError :=
  | ModeUnsupported (m : MaterializationMode)
  | NoUsableCopy (object : text)
  | Unreadable (path : text)
  | ContentMismatch (expected found path : text)
  | Io (step : string).

(** The files, the tables, the process and its counter of staging names. *)
Record site := { files : disk; rows : ledger; process : Z; counter : Z }. (* u64 *)

Abbreviation mio := (method site MaterializeError).

Definition on_files (f : disk -> disk) (s : site) : site :=
  {| files := f (files s); rows := rows s; process := process s; counter := counter s |}.

Definition file_op (f : disk -> disk) : mio unit := modify (on_files f).

(** The copies of an object that are not quarantined, by path. *)
Definition path_leb (a b : text * string * bool) : bool := text_leb (fst (fst a)) (fst (fst b)).

Definition object_locations (object : TypedDigest) (l : ledger) : list (text * string * bool) :=
  sort_by path_leb
    (omap (fun e : (text * text) * location =>
       if bool_decide (fst (fst e) = digest_key object) && negb (quarantined (snd e))
       then Some (snd (fst e), encoding (snd e), loc_durable (snd e)) else None)
       (map_to_list (locations (base l)))).

Record destination := { dest : text; parent : option text; file_name : option text }.

Definition staging_path (dir : text) (d : destination) (pid n : Z) : text :=
  dir ++ str_bytes "/.rabs-mat-" ++ show_u64 pid ++ str_bytes "-" ++ show_u64 n ++ str_bytes "-"
  ++ default (str_bytes "object") (file_name d) ++ str_bytes ".tmp".

(** [MATERIALIZE_COUNTER.fetch_add(1)]. *)
Definition next_staging (dir : text) (d : destination) : mio text := fun s =>
  (Ok (staging_path dir d (process s) (counter s)),
   {| files := files s; rows := rows s; process := process s; counter := wadd 64 (counter s) 1 |}).

(** The operation on a copy that fails: opening it, creating the staging file, the read after
    [n] that succeeded, the write after [n] that succeeded, of which the first [k] bytes arrive,
    or the rename into place. *)
Inductive io_fault :=
  | OpenCopy
  | CreateStaging
  | ReadCopy (n : nat)
  | WriteStaging (n k : nat)
  | RenameIntoPlace.

#[export] Instance io_fault_eq_dec : EqDecision io_fault.
Proof. solve_decision. Defined.

(** The fault as the next turn of the loop sees it. *)
Definition next_turn (fault : option io_fault) : option io_fault :=
  match fault with
  | Some (ReadCopy (S n)) => Some (ReadCopy n)
  | Some (WriteStaging (S n) k) => Some (WriteStaging n k)
  | fault => fault
  end.

Section copy.
Context {SHA BLAKE : Type} `{Hasher SHA} `{Hasher BLAKE}.
(** What fails for the copy at a path, and whether the destination's directory can be made. *)
Context (faults : text -> option io_fault) (dir_fails : bool).
Abbreviation writer := (StreamingObjectWriter (SHA := SHA) (BLAKE := BLAKE)).

(** The loop of [copy_verified] over what the reads return. *)
Fixpoint copy_loop (source staging : text) (reads : list (list Z)) (fault : option io_fault) (w : writer)
    (written : Z) : mio (writer * Z) :=
  match fault, reads with
  | Some (ReadCopy O), _ => throw (Unreadable source)
  | _, [] => mret (w, written)
  | fault, c :: reads =>
      match write c w with
      | (Err _, _) => throw (Io "digest")
      | (Ok _, w) =>
          match fault with
          | Some (WriteStaging O k) =>
              _ ← file_op (append staging (take k c));
              throw (Io "write-staging")
          | _ =>
              _ ← file_op (append staging c);
              copy_loop source staging reads (next_turn fault) w (wadd 64 written (Z.of_nat (length c)))
          end
      end
  end.

Definition or_clean {A} (staging : text) (m : mio A) : mio A := fun s =>
  match m s with
  | (Ok a, s) => (Ok a, s)
  | (Err e, s) => (Err e, on_files (remove_file staging) s)
  end.

Definition copy_verified (source : text) (object : TypedDigest) (dir : text) (d : destination) : mio Z :=
  let fault := faults source in
  s ← get;
  _ ← refuse_if (negb (exists_file source (files s)) || bool_decide (fault = Some OpenCopy)) (Unreadable source);
  staging ← next_staging dir d;
  _ ← refuse_if (bool_decide (fault = Some CreateStaging)) (Io "create-staging");
  _ ← file_op (create staging);
  s ← get;
  '(w, written) ← or_clean staging
    (copy_loop source staging (BlobStore.file_reads (default [] (read source (files s)))) fault
       (writer_new default_request None) 0);
  computed ← or_clean staging
    (lift_result match finish w with Ok set => Ok (atp_content_id set) | Err _ => Err (Io "digest-finish") end);
  _ ← or_clean staging
    (refuse_if (negb (bool_decide (computed = object))) (ContentMismatch (digest_key object) (digest_key computed) source));
  _ ← or_clean staging
    (refuse_if (bool_decide (fault = Some RenameIntoPlace)) (Io "rename-into-place"));
  _ ← file_op (rename staging (dest d));
  mret written.

(** The copies in turn: a mismatch ends the search, any other failure goes on. *)
Fixpoint try_copies (sources : list text) (object : TypedDigest) (dir : text) (d : destination)
    (last : MaterializeError) : mio Z := fun s =>
  match sources with
  | [] => (Err last, s)
  | source :: sources =>
      match copy_verified source object dir d s with
      | (Ok n, s) => (Ok n, s)
      | (Err (ContentMismatch a b c), s) => (Err (ContentMismatch a b c), s)
      | (Err e, s) => try_copies sources object dir d e s
      end
  end.

Definition raw_copies (object : TypedDigest) (l : ledger) : list text :=
  (fun r : text * string * bool => fst (fst r))
  <$> List.filter (fun r => bool_decide (snd (fst r) = BlobStore.RAW_PROFILE_V1)) (object_locations object l).

Definition materialize_object (object : TypedDigest) (d : destination) (mode : MaterializationMode) : mio Z :=
  _ ← refuse_if (negb (bool_decide (mode = PrivateCopy))) (ModeUnsupported mode);
  s ← get;
  let raw := raw_copies object (rows s) in
  _ ← refuse_if (bool_decide (raw = [])) (NoUsableCopy (digest_key object));
  dir ← lift_result (ok_or (parent d) (Io "destination-parent"));
  _ ← refuse_if dir_fails (Io "create-destination-dir");
  _ ← file_op (create_dir dir);
  try_copies raw object dir d (NoUsableCopy (digest_key object)).

End copy.
End Materialize.

Module MaterializeFacts.
Import Disk BlobStore BlobFacts Materialize.

Section facts.
Context {SHA BLAKE : Type} `{Hasher SHA} `{Hasher BLAKE}.
Context (sha blk : list Z -> list Z) `{!HasherLaw SHA sha} `{!HasherLaw BLAKE blk}.

(** The identity of the bytes of an object. *)
Definition identity (bs : list Z) : TypedDigest := id_under sha ManifestCodec.ATP_OBJECT_CONTENT_DOMAIN bs.

(** Names lead to inodes, and new inodes are new. *)
Definition sound_disk (d : disk) : Prop :=
  forall p i b, names d !! p = Some (i, b) -> i < next_inode d /\ is_Some (inodes d !! i).

Lemma sound_read d p : sound_disk d -> exists_file p d = true <-> is_Some (read p d).
Proof.
  intros Hs. unfold exists_file, read, inode_of. destruct (names d !! p) as [[i b]|] eqn:E; cbn.
  - destruct (Hs p i b E) as [_ [n Hn]]. rewrite Hn. cbn. split; [by eexists|done].
  - split; [done|by intros [? ?]].
Qed.

(** Where the bytes [bs] are staged under a name of its own. *)
Definition staged_as (d : disk) (staging : text) (bs : list Z) (d' : disk) : Prop :=
  names d' = <[staging := (next_inode d, false)]> (names d) /\
  data <$> inodes d' !! next_inode d = Some bs /\
  (forall i, i <> next_inode d -> inodes d' !! i = inodes d !! i) /\
  next_inode d' = next_inode d + 1.

Lemma create_staged_as d staging : names d !! staging = None -> staged_as d staging [] (create staging d).
Proof.
  intros E. unfold create. rewrite E. split_and!; cbn; [done|by rewrite lookup_insert_eq| |done].
  intros i Hi. by rewrite lookup_insert_ne.
Qed.

Lemma append_staged_as d staging bs c d' : staged_as d staging bs d' -> staged_as d staging (bs ++ c) (append staging c d').
Proof.
  intros (Hn & Hd & Ho & Hx). unfold append. assert (Hi : inode_of staging d' = Some (next_inode d)).
  { unfold inode_of. by rewrite Hn, lookup_insert_eq. }
  unfold write_with. rewrite Hi. split_and!; cbn; [done| | |done].
  - rewrite lookup_alter_eq. destruct (inodes d' !! next_inode d); cbn in *; by simplify_eq.
  - intros i Hne. rewrite lookup_alter_ne by done. by apply Ho.
Qed.

(** The staging file leaves the other files as they were. *)
Lemma staged_inode d staging bs d' p i b :
  sound_disk d -> staged_as d staging bs d' -> names d !! p = Some (i, b) -> inodes d' !! i = inodes d !! i.
Proof. intros Hs (_ & _ & Ho & _) E. apply Ho. destruct (Hs p i b E). lia. Qed.

Lemma staged_read d staging bs d' q :
  sound_disk d -> staged_as d staging bs d' -> q <> staging -> read q d' = read q d.
Proof.
  intros Hs Hst Hq. pose proof Hst as (Hn & _). unfold read, inode_of. rewrite Hn, lookup_insert_ne by done.
  destruct (names d !! q) as [[i b]|] eqn:E; [|done]. cbn. by rewrite (staged_inode d staging bs d' q i b).
Qed.

Lemma renamed_read d staging bs d' q target :
  sound_disk d -> names d !! staging = None -> staging <> target -> staged_as d staging bs d' ->
  read q (rename staging target d') = if bool_decide (q = target) then Some bs else read q d.
Proof.
  intros Hs Hf Hne Hst. pose proof Hst as (Hn & Hd & Ho & _). unfold rename. rewrite Hn, lookup_insert_eq.
  case_bool_decide as Hq.
  - subst q. unfold read, inode_of. cbn. rewrite lookup_insert_eq. cbn. by destruct (inodes d' !! next_inode d).
  - unfold read, inode_of. cbn. rewrite lookup_insert_ne by done. destruct (decide (q = staging)) as [->|Hqs].
    + by rewrite lookup_delete_eq, Hf.
    + rewrite lookup_delete_ne by done. rewrite (lookup_insert_ne _ staging q) by done.
      destruct (names d !! q) as [[i b]|] eqn:E; [|done]. cbn. by rewrite (staged_inode d staging bs d' q i b).
Qed.

(** The tables and every file are as they were, and so are the names. *)
Record undisturbed (s s' : site) : Prop := {
  u_rows : rows s' = rows s;
  u_process : process s' = process s;
  u_names : names (files s') = names (files s);
  u_sound : sound_disk (files s) -> sound_disk (files s');
  u_read : sound_disk (files s) -> forall q, read q (files s') = read q (files s);
}.

Lemma undisturbed_count s n :
  undisturbed s {| files := files s; rows := rows s; process := process s; counter := n |}.
Proof. done. Qed.

Lemma undisturbed_trans s1 s2 s3 : undisturbed s1 s2 -> undisturbed s2 s3 -> undisturbed s1 s3.
Proof. intros [] []. split; [congruence..|auto|]. intros Hs q. rewrite u_read1; auto. Qed.

Lemma undisturbed_removed s staging bs d' n :
  names (files s) !! staging = None -> staged_as (files s) staging bs d' ->
  undisturbed s {| files := remove_file staging d'; rows := rows s; process := process s; counter := n |}.
Proof.
  intros Hf Hst. pose proof Hst as (Hn & Hd & Ho & Hx).
  assert (E : names (remove_file staging d') = names (files s)).
  { cbn. by rewrite Hn, delete_insert_id. }
  split; cbn [rows process files]; [done|done|done| |].
  - intros Hs p i b Hp. rewrite E in Hp. destruct (Hs p i b Hp) as [Hi Hb]. cbn [remove_file with_names next_inode inodes].
    rewrite (staged_inode _ _ _ _ _ _ _ Hs Hst Hp). split; [lia|done].
  - intros Hs q. unfold read, inode_of. rewrite E. destruct (names (files s) !! q) as [[i b]|] eqn:Eq; [|done].
    cbn. by rewrite (staged_inode _ _ _ _ _ _ _ Hs Hst Eq).
Qed.

Section with_faults.
Context (faults : text -> option io_fault) (dir_fails : bool).

(** The error of the loop, of [n] chunks, under a fault. *)
Definition loop_error (source : text) (fault : option io_fault) (n : nat) : option MaterializeError :=
  match fault with
  | Some (ReadCopy k) => if bool_decide (k <= n)%nat then Some (Unreadable source) else None
  | Some (WriteStaging k _) => if bool_decide (k < n)%nat then Some (Io "write-staging") else None
  | _ => None
  end.

Lemma loop_error_turn source fault n :
  fault <> Some (ReadCopy 0) -> (forall k, fault <> Some (WriteStaging 0 k)) ->
  loop_error source (next_turn fault) n = loop_error source fault (S n).
Proof.
  intros H1 H2. destruct fault as [[| |[|k]|[|k] c|]|]; try done; try (by destruct H1);
    try (by destruct (H2 c)); cbn; repeat case_bool_decide; done || lia.
Qed.

(** The loop stages what it hashes, up to the fault. *)
Lemma copy_loop_spec d source staging cs todo fault written s :
  staged_as d staging (concat cs) (files s) -> Z.of_nat (length (concat (cs ++ todo))) < 2 ^ 64 ->
  written = Z.of_nat (length (concat cs)) ->
  exists d' bs, copy_loop (SHA := SHA) (BLAKE := BLAKE) source staging todo fault (writer_at default_request None cs) written s
    = (match loop_error source fault (length todo) with
       | Some e => Err e
       | None => Ok (writer_at default_request None (cs ++ todo), Z.of_nat (length (concat (cs ++ todo))))
       end, on_files (fun _ => d') s) /\
    staged_as d staging bs d' /\ (loop_error source fault (length todo) = None -> bs = concat (cs ++ todo)).
Proof.
  assert (Hid : forall s, on_files (fun _ => files s) s = s) by (by intros []).
  revert cs written s fault. induction todo as [|c todo IH]; intros cs written s fault Hst Hlen Hw.
  { exists (files s), (concat cs). rewrite Hid, app_nil_r. subst.
    destruct fault as [[| |[|k]|k ?|]|]; cbn; repeat case_bool_decide; try lia; done. }
  destruct (decide (fault = Some (ReadCopy 0))) as [->|Hr].
  { exists (files s), (concat cs). by rewrite Hid. }
  assert (E : copy_loop (SHA := SHA) (BLAKE := BLAKE) source staging (c :: todo) fault (writer_at default_request None cs) written
    = match write c (writer_at default_request None cs) with
      | (Err _, _) => throw (Io "digest")
      | (Ok _, w) =>
          match fault with
          | Some (WriteStaging O k) =>
              _ ← file_op (append staging (take k c));
              throw (Io "write-staging")
          | _ =>
              _ ← file_op (append staging c);
              copy_loop source staging todo (next_turn fault) w (wadd 64 written (Z.of_nat (length c)))
          end
      end) by (by destruct fault as [[| |[|k]| |]|]).
  rewrite E. clear E. rewrite write_at.
  replace (cs ++ c :: todo) with ((cs ++ [c]) ++ todo) in * by (by rewrite <- app_assoc).
  rewrite concat_app, length_app in Hlen. destruct (Z.ltb_spec (Z.of_nat (length (concat (cs ++ [c])))) (2 ^ 64)); [|lia].
  assert ((exists k, fault = Some (WriteStaging 0 k)) \/ forall k, fault <> Some (WriteStaging 0 k)) as [[k ->]|Hw0].
  { destruct fault as [[| | |[|n] k|]|]; naive_solver. }
  { exists (append staging (take k c) (files s)), (concat cs ++ take k c). unmonad. unfold file_op, modify.
    split; [done|]. split; [by apply append_staged_as|done]. }
  assert (E : match fault with
    | Some (WriteStaging O k) =>
        _ ← file_op (append staging (take k c));
        throw (Io "write-staging")
    | _ =>
        _ ← file_op (append staging c);
        copy_loop source staging todo (next_turn fault) (writer_at default_request None (cs ++ [c])) (wadd 64 written (Z.of_nat (length c)))
    end = (_ ← file_op (append staging c);
        copy_loop (SHA := SHA) (BLAKE := BLAKE) source staging todo (next_turn fault) (writer_at default_request None (cs ++ [c]))
          (wadd 64 written (Z.of_nat (length c))))).
  { destruct fault as [[| | |[|n] k|]|]; try done. by destruct (Hw0 k). }
  rewrite E. clear E. unmonad. unfold file_op, modify.
  destruct (IH (cs ++ [c]) (wadd 64 written (Z.of_nat (length c))) (on_files (append staging c) s) (next_turn fault))
    as (d' & bs & He & Hst' & Hb).
  - rewrite concat_app. cbn [concat]. rewrite app_nil_r. by apply append_staged_as.
  - rewrite concat_app, length_app. lia.
  - rewrite concat_app, length_app in *. cbn [concat] in *. rewrite app_nil_r in *. subst. rewrite wadd_small; lia.
  - rewrite loop_error_turn in * by (done || naive_solver). exists d', bs. cbn [length]. by rewrite He.
Qed.

(** What becomes of one copy: it is the object, it is something else, or it cannot be used. *)
Inductive trial := Fits (bs : list Z) | Wrong (bs : list Z) | Fails (e : MaterializeError).

Definition trial_of (object : TypedDigest) (d : disk) (source : text) : trial :=
  match read source d with
  | None => Fails (Unreadable source)
  | Some bs =>
      let judged := if bool_decide (identity bs = object) then Fits bs else Wrong bs in
      match faults source with
      | None => judged
      | Some OpenCopy => Fails (Unreadable source)
      | Some CreateStaging => Fails (Io "create-staging")
      | Some RenameIntoPlace =>
          if bool_decide (identity bs = object) then Fails (Io "rename-into-place") else Wrong bs
      | fault =>
          match loop_error source fault (length (file_reads bs)) with Some e => Fails e | None => judged end
      end
  end.

(** The site after a trial: the bytes are at the destination, or nothing has changed. *)
Definition tried (d : destination) (t : trial) (s s' : site) : Prop :=
  match t with
  | Fits bs => rows s' = rows s /\ forall q, read q (files s') = if bool_decide (q = dest d) then Some bs else read q (files s)
  | Wrong _ | Fails _ => undisturbed s s'
  end.

Definition answer (object : TypedDigest) (source : text) (t : trial) : result MaterializeError Z :=
  match t with
  | Fits bs => Ok (Z.of_nat (length bs))
  | Wrong bs => Err (ContentMismatch (digest_key object) (digest_key (identity bs)) source)
  | Fails e => Err e
  end.

(** A copy whose loop ran through. *)
Lemma copied_spec source object d s0 s staging bs d1 :
  sound_disk (files s0) -> names (files s0) !! staging = None -> staging <> dest d ->
  staged_as (files s0) staging bs d1 -> rows s = rows s0 -> process s = process s0 ->
  let t := if bool_decide (identity bs = object)
           then if bool_decide (faults source = Some RenameIntoPlace) then Fails (Io "rename-into-place") else Fits bs
           else Wrong bs in
  exists s', (_ ← or_clean staging (refuse_if (negb (bool_decide (identity bs = object)))
           (ContentMismatch (digest_key object) (digest_key (identity bs)) source));
       _ ← or_clean staging (refuse_if (bool_decide (faults source = Some RenameIntoPlace)) (Io "rename-into-place"));
       _ ← file_op (rename staging (dest d));
       mret (Z.of_nat (length bs))) (on_files (fun _ => d1) s) = (answer object source t, s') /\ tried d t s0 s'.
Proof.
  intros Hs Hf Hne Hst Hr Hp. cbn zeta. unmonad. unfold or_clean at 1.
  destruct (bool_decide (identity bs = object)); cbn [negb].
  - unmonad. unfold or_clean. destruct (bool_decide (faults source = Some RenameIntoPlace)); unmonad.
    + eexists. split; [done|]. cbn [tried]. unfold on_files. cbn. rewrite Hr, Hp.
      by apply (undisturbed_removed s0 staging bs).
    + unfold file_op, modify. eexists. split; [done|]. cbn [tried]. split; [done|]. intros q. cbn.
      by apply renamed_read.
  - eexists. split; [done|]. cbn [tried]. unfold on_files. cbn. rewrite Hr, Hp.
    by apply (undisturbed_removed s0 staging bs).
Qed.

Lemma copy_verified_spec source object dir d s :
  sound_disk (files s) -> (forall n, names (files s) !! staging_path dir d (process s) n = None) ->
  (forall n, staging_path dir d (process s) n <> dest d) ->
  (forall bs, read source (files s) = Some bs -> Z.of_nat (length bs) < 2 ^ 64) ->
  let t := trial_of object (files s) source in
  exists s', copy_verified (SHA := SHA) (BLAKE := BLAKE) faults source object dir d s = (answer object source t, s')
    /\ tried d t s s'.
Proof.
  intros Hs Hf Hne Hl. cbn zeta. unfold copy_verified, next_staging. unmonad.
  destruct (read source (files s)) as [bs|] eqn:Hr.
  2:{ unfold trial_of. rewrite Hr. assert (exists_file source (files s) = false) as ->; [|by exists s].
      destruct (exists_file _ _) eqn:E; [|done]. apply (sound_read _ _ Hs) in E as [? ?]. congruence. }
  assert (exists_file source (files s) = true) as -> by (apply (sound_read _ _ Hs); by eexists).
  cbn [negb orb]. destruct (decide (faults source = Some OpenCopy)) as [Eo|Ho].
  { unfold trial_of. rewrite Hr, Eo, bool_decide_eq_true_2 by done. by exists s. }
  rewrite bool_decide_eq_false_2 by done. unmonad.
  destruct (decide (faults source = Some CreateStaging)) as [Ec|Hc].
  { unfold trial_of. rewrite Hr, Ec, bool_decide_eq_true_2 by done. eexists. split; [done|]. apply undisturbed_count. }
  rewrite bool_decide_eq_false_2 by done. unmonad. unfold file_op, modify.
  set (staging := staging_path dir d (process s) (counter s)) in *. cbn [files rows process counter].
  pose proof (create_staged_as (files s) staging (Hf _)) as Hst0.
  assert (Hso : source <> staging). { intros ->. unfold read, inode_of, staging in Hr. by rewrite Hf in Hr. }
  set (s1 := {| files := create staging (files s); rows := rows s; process := process s; counter := wadd 64 (counter s) 1 |}).
  change (on_files (create staging) _) with s1. change (files s1) with (create staging (files s)).
  rewrite (staged_read _ _ _ _ source Hs Hst0 Hso), Hr. change (default [] (Some bs)) with bs.
  change (writer_new default_request None) with (writer_at (SHA := SHA) (BLAKE := BLAKE) default_request None []).
  destruct (copy_loop_spec (files s) source staging [] (file_reads bs) (faults source) 0 s1)
    as (d1 & bs' & He & Hst & Hb); [done| |done|].
  { cbn [app]. rewrite file_reads_concat. by apply Hl. }
  cbn [app] in *. rewrite file_reads_concat in *. unfold or_clean at 1. rewrite He.
  destruct (loop_error source (faults source) (length (file_reads bs))) as [e|] eqn:El.
  { unfold trial_of. rewrite Hr. destruct (faults source) as [[]|] eqn:Ef; try done; rewrite El; eexists; (split; [done|]);
      (apply (undisturbed_removed s staging bs' d1); [apply Hf|done]). }
  rewrite (Hb eq_refl) in Hst. unfold or_clean at 1. rewrite (finish_at sha blk). cbn [atp_content_id ideal_set].
  rewrite file_reads_concat. fold (identity bs).
  destruct (copied_spec source object d s s1 staging bs d1 Hs (Hf _) (Hne _) Hst eq_refl eq_refl) as (s' & E & Ht).
  assert (Et : trial_of object (files s) source
    = if bool_decide (identity bs = object)
      then if bool_decide (faults source = Some RenameIntoPlace) then Fails (Io "rename-into-place") else Fits bs
      else Wrong bs).
  { unfold trial_of. rewrite Hr. destruct (faults source) as [[]|] eqn:Ef; try done; rewrite ?El;
      by destruct (bool_decide (identity bs = object)). }
  rewrite Et. exists s'. split; [exact E|exact Ht].
Qed.

(** The first copy that is the object, or is something else, decides; otherwise the last failure is reported. *)
Fixpoint first_trial (object : TypedDigest) (d : disk) (sources : list text) (last : MaterializeError) :
    result MaterializeError (list Z) :=
  match sources with
  | [] => Err last
  | source :: sources =>
      match trial_of object d source with
      | Fits bs => Ok bs
      | Wrong bs => Err (ContentMismatch (digest_key object) (digest_key (identity bs)) source)
      | Fails e => first_trial object d sources e
      end
  end.

Definition size_of (r : result MaterializeError (list Z)) : result MaterializeError Z :=
  match r with Ok bs => Ok (Z.of_nat (length bs)) | Err e => Err e end.

(** What a path holds after a run that ended with [r]. *)
Definition holds_after (d : destination) (r : result MaterializeError (list Z)) (f : disk) (q : text) : option (list Z) :=
  match r with
  | Ok bs => if bool_decide (q = dest d) then Some bs else read q f
  | Err _ => read q f
  end.

Lemma trial_ext object d d' source : read source d' = read source d -> trial_of object d' source = trial_of object d source.
Proof. unfold trial_of. by intros ->. Qed.

Lemma first_trial_ext object d d' sources last :
  (forall q, read q d' = read q d) -> first_trial object d' sources last = first_trial object d sources last.
Proof.
  intros He. revert last. induction sources as [|p sources IH]; intros last; [done|]. cbn [first_trial].
  rewrite (trial_ext object d d' p) by done. by case_match.
Qed.

Lemma try_copies_spec sources object dir d last s :
  sound_disk (files s) -> (forall n, names (files s) !! staging_path dir d (process s) n = None) ->
  (forall n, staging_path dir d (process s) n <> dest d) ->
  (forall p bs, read p (files s) = Some bs -> Z.of_nat (length bs) < 2 ^ 64) ->
  let r := first_trial object (files s) sources last in
  exists s', try_copies (SHA := SHA) (BLAKE := BLAKE) faults sources object dir d last s = (size_of r, s')
    /\ rows s' = rows s /\ forall q, read q (files s') = holds_after d r (files s) q.
Proof.
  revert last s. induction sources as [|p sources IH]; intros last s Hs Hf Hne Hl; [by exists s|].
  cbn [first_trial try_copies]. destruct (copy_verified_spec p object dir d s Hs Hf Hne (Hl p)) as (s1 & E & Ht).
  rewrite E. clear E. destruct (trial_of object (files s) p) as [bs|bs|e] eqn:Et; cbn [answer tried] in *.
  - exists s1. split; [done|]. apply Ht.
  - exists s1. destruct Ht as [Hr _ _ _ Hq]. split; [done|]. split; [done|]. by apply Hq.
  - assert (Hm : match e with ContentMismatch _ _ _ => false | _ => true end = true).
    { revert Et. unfold trial_of, loop_error. repeat case_match; intros; by simplify_eq. }
    pose proof Ht as [Hr Hp Hn Hso Hq]. specialize (Hso Hs). specialize (Hq Hs).
    destruct (IH e s1) as (s' & E & Hr' & Hq').
    + done.
    + intros n. by rewrite Hn, Hp.
    + intros n. by rewrite Hp.
    + intros q bs. rewrite Hq. apply Hl.
    + exists s'. rewrite (first_trial_ext object (files s) (files s1)) in * by done.
      split; [by destruct e|]. split; [congruence|]. intros q. rewrite Hq'. unfold holds_after. by rewrite Hq.
Qed.

Lemma first_trial_fits object d sources last bs :
  first_trial object d sources last = Ok bs -> identity bs = object /\ exists p, p ∈ sources /\ read p d = Some bs.
Proof.
  revert last. induction sources as [|p sources IH]; intros last; cbn [first_trial]; [done|].
  destruct (trial_of object d p) as [b|b|e] eqn:Et; [|done|].
  - intros [= ->]. revert Et. unfold trial_of. destruct (read p d) as [b|] eqn:Er; [|done]. intros Et.
    assert (identity b = object /\ b = bs) as [? ->].
    { revert Et. repeat (case_match || case_bool_decide); intros; by simplify_eq. }
    split; [done|]. exists p. split; [left|done].
  - intros Hx. destruct (IH e Hx) as (? & q & ? & ?). split; [done|]. exists q. split; [by right|done].
Qed.

(** What a materialization of the object answers, and the bytes it installs. *)
Definition expected (object : TypedDigest) (d : destination) (mode : MaterializationMode) (s : site) :
    result MaterializeError (list Z) :=
  let raw := raw_copies object (rows s) in
  if negb (bool_decide (mode = PrivateCopy)) then Err (ModeUnsupported mode)
  else if bool_decide (raw = []) then Err (NoUsableCopy (digest_key object))
  else if negb (bool_decide (is_Some (parent d))) then Err (Io "destination-parent")
  else if dir_fails then Err (Io "create-destination-dir")
  else first_trial object (files s) raw (NoUsableCopy (digest_key object)).

(** C35: Materialization installs the object or nothing, in every mode and whichever of its I/O operations fail
    (opening, reading a copy, creating, writing or renaming the staging file, making the directory).  A mode other than
    a private copy is refused.  Otherwise the raw copies are tried in the order of their paths: one that cannot be
    used is skipped, the first that can be copied decides, and the destination afterwards holds its bytes when their
    hash is the identity asked for.  In every other case, a corrupt copy among them, the destination is untouched; no
    other file and no row changes either way, no staging file remains, and the result says which of these happened.
    (The staging names of the process are free and are not the destination, no file has 2^64 bytes, and removing a
    staging file does not fail.) *)
Theorem materialize_exact object d mode s :
  sound_disk (files s) ->
  (forall dir n, parent d = Some dir -> names (files s) !! staging_path dir d (process s) n = None
     /\ staging_path dir d (process s) n <> dest d) ->
  (forall p bs, read p (files s) = Some bs -> Z.of_nat (length bs) < 2 ^ 64) ->
  let r := expected object d mode s in
  (exists s', materialize_object (SHA := SHA) (BLAKE := BLAKE) faults dir_fails object d mode s = (size_of r, s')
     /\ rows s' = rows s /\ forall q, read q (files s') = holds_after d r (files s) q)
  /\ (forall bs, r = Ok bs -> mode = PrivateCopy /\ identity bs = object
        /\ exists p, p ∈ raw_copies object (rows s) /\ read p (files s) = Some bs).
Proof.
  intros Hs Hf Hlen. cbn zeta. unfold expected. split.
  2:{ intros bs. case_bool_decide as Hm; [|done]. cbn [negb]. case_bool_decide; [done|]. case_bool_decide; [|done]. cbn [negb].
      destruct dir_fails; [done|]. intros Hr%first_trial_fits. by split. }
  unfold materialize_object. unmonad.
  destruct (bool_decide (mode = PrivateCopy)); cbn [negb]; [|by exists s]. unmonad.
  destruct (bool_decide (raw_copies object (rows s) = [])); [by exists s|].
  destruct (parent d) as [dir|] eqn:Hd; cbn [ok_or]; [|by exists s].
  rewrite bool_decide_eq_true_2 by done. cbn [negb lift_result]. unmonad. destruct dir_fails; [by exists s|].
  unfold file_op, modify. set (s1 := on_files (create_dir dir) s). destruct (create_dir_disk dir (files s)) as (Hn & Hi & Hx).
  assert (Hq : forall q, read q (files s1) = read q (files s)) by (intros q; apply create_dir_read).
  destruct (try_copies_spec (raw_copies object (rows s)) object dir d (NoUsableCopy (digest_key object)) s1)
    as (s' & He & Hrows & Hq').
  - unfold s1, sound_disk. cbn. by rewrite Hn, Hi, Hx.
  - intros n. unfold s1. cbn. rewrite Hn. by apply Hf.
  - intros n. by apply Hf.
  - intros p bs. rewrite Hq. apply Hlen.
  - rewrite (first_trial_ext object (files s) (files s1)) in * by done. exists s'. split; [exact He|]. split; [done|].
    intros q. rewrite Hq'. unfold holds_after. by rewrite Hq.
Qed.

End with_faults.
End facts.

(** ** The object a dead writer left, asked for by a build *)

Definition target : destination :=
  {| dest := str_bytes "/ws/lib.a"; parent := Some (str_bytes "/ws"); file_name := Some (str_bytes "lib.a") |}.

Definition build_site (d : disk) : site :=
  {| files := d; rows := meta died; process := 9; counter := 0 |}.

Lemma died_sound : sound_disk (fs died).
Proof.
  assert (E : forallb (fun e : text * (Z * bool) => (snd e).1 <? next_inode (fs died)) (map_to_list (names (fs died)))
          && forallb (fun e : text * (Z * bool) => bool_decide (is_Some (inodes (fs died) !! (snd e).1)))
               (map_to_list (names (fs died))) = true) by by vm_compute.
  apply andb_true_iff in E as [E1 E2]. rewrite forallb_forall in E1, E2.
  intros p i b Hp%elem_of_map_to_list%list_elem_of_In.
  split; [apply Z.ltb_lt; by apply (E1 _ Hp)|by apply (bool_decide_eq_true_1 _ (E2 _ Hp))].
Qed.

Lemma died_bytes p bs : read p (fs died) = Some bs -> bs = [1].
Proof.
  assert (E : forallb (fun e => bool_decide (data (snd e) = [1])) (map_to_list (inodes (fs died))) = true) by by vm_compute.
  rewrite forallb_forall in E. unfold read. intros (i & _ & (n & Hn & ->)%fmap_Some)%bind_Some.
  apply elem_of_map_to_list, list_elem_of_In, E in Hn. by apply bool_decide_eq_true_1 in Hn.
Qed.

(** No file of the store is a staging file of the worktree. *)
Lemma died_unstaged n : names (fs died) !! staging_path (str_bytes "/ws") target 9 n = None.
Proof.
  destruct (names (fs died) !! _) as [x|] eqn:E; [|done]. exfalso.
  assert (Hall : forallb (fun e : text * (Z * bool) => bool_decide (take 3 (fst e) = str_bytes "/ca")) (map_to_list (names (fs died)))
                 = true) by by vm_compute.
  rewrite forallb_forall in Hall. apply elem_of_map_to_list, list_elem_of_In, Hall in E.
  apply bool_decide_eq_true_1 in E. by vm_compute in E.
Qed.

Lemma materialize_exact_witness :
  exists s', materialize_object (SHA := list Z) (BLAKE := list Z) (fun _ => None) false (toy_id [1]) target PrivateCopy
    (build_site (fs died)) = (Ok 1, s') /\ read (dest target) (files s') = Some [1].
Proof.
  destruct (materialize_exact toy_hash toy_hash (fun _ => None) false (toy_id [1]) target PrivateCopy (build_site (fs died))
              died_sound) as [(s' & He & _ & Hq) _].
  - intros dir n [= <-]. split; [apply died_unstaged|]. intros E. apply (f_equal (take 5)) in E. by vm_compute in E.
  - intros p bs Hp. by rewrite (died_bytes p bs Hp).
  - exists s'. split; [rewrite He; by vm_compute|]. rewrite Hq. by vm_compute.
Defined.

End MaterializeFacts.
