(* ===== verification/Recovery.v ===== *)
(** * Recovery of journaled puts

    What [recover_operations] of Journal.v guarantees: after any [disciplined] history of the
    blob store it succeeds, publishes every attempt that a journal it finds leaves unfinished
    and whose staged bytes are the declared object, removes these journals with the staging
    directories of their operations, and does nothing when it is run again.  [later] is what a step of recovery leaves alone. *)

From stdpp Require Import base gmap list strings relations.
From Stdlib Require Import ZArith Lia.
From S2P Require Import Prelude Bytes Text Numerals Manifest Digest Pack Store Ledger Blobs Journal Durability.
Import ResultIdentity DigestSet Pack Store Ledger Disk BlobStore JournalFrames Journal BlobFacts.

Module RecoveryFacts.

Section recovery.
Context {SHA BLAKE : Type} `{Hasher SHA} `{Hasher BLAKE}.
Context (sha blk : list Z -> list Z) `{!HasherLaw SHA sha} `{!HasherLaw BLAKE blk}.
Context (root : text).

Abbreviation safe := (BlobFacts.safe sha root False).
Abbreviation held := (BlobFacts.held sha root False).
Abbreviation visible := (BlobFacts.visible sha root False).
Abbreviation id_of := (id_under sha ManifestCodec.ATP_OBJECT_CONTENT_DOMAIN).
Abbreviation raw_name id := (published_path root id RAW_PROFILE_V1 id).
Abbreviation any := (fun _ : world => True).

(** ** What recovery leaves alone *)

(** Only names in [S] went, no name came outside [objects], no contents changed, and the
    directory of journals is still there. *)
Record settled (S : text -> Prop) (d d' : disk) : Prop := {
  l_names : forall p i b, names d !! p = Some (i, b) -> ~ S p ->
    exists c, names d' !! p = Some (i, c) /\ (b = true -> c = true);
  l_back : forall p i b, names d' !! p = Some (i, b) -> ~ under_objects root p ->
    exists c, names d !! p = Some (i, c);
  l_data : forall i n, inodes d !! i = Some n ->
    exists y, inodes d' !! i = Some {| data := data n; synced := y |} /\ (synced n = true -> y = true);
  l_inodes : forall i, is_Some (inodes d' !! i) -> is_Some (inodes d !! i);
  l_fanouts : is_Some (fanouts d !! journals_dir root) -> is_Some (fanouts d' !! journals_dir root);
}.

(** The same between two worlds, and no row was taken back. *)
Definition later (S : text -> Prop) (w w' : world) : Prop :=
  settled S (fs w) (fs w') /\ forall id t, recorded id t w -> recorded id t w'.

Lemma same_data (m : gmap Z inode) i n :
  m !! i = Some n ->
  exists y, m !! i = Some {| data := data n; synced := y |} /\ (synced n = true -> y = true).
Proof. intros Hi. exists (synced n). by destruct n. Qed.

Lemma settled_refl S d : settled S d d.
Proof. constructor; [by eauto|by eauto|apply same_data|done|done]. Qed.

Lemma later_refl S w : later S w w.
Proof. split; [apply settled_refl|done]. Qed.

Lemma later_trans S w1 w2 w3 : later S w1 w2 -> later S w2 w3 -> later S w1 w3.
Proof.
  intros [[N1 B1 D1 I1 F1] R1] [[N2 B2 D2 I2 F2] R2]. split; [constructor|by auto].
  - intros p i b Hp HS. destruct (N1 p i b Hp HS) as (c & Hc & Hbc).
    destruct (N2 p i c Hc HS) as (e & He & Hce). exists e. by split; [|intros Hb; apply Hce, Hbc].
  - intros p i b Hp Ho. destruct (B2 p i b Hp Ho) as [c Hc]. by apply (B1 p i c).
  - intros i n Hi. destruct (D1 i n Hi) as (y & Hy & Hs).
    destruct (D2 i _ Hy) as (z & Hz & Hs'). exists z. by split; [|intros Hn; apply Hs', Hs].
  - intros i Hi. by apply I1, I2.
  - intros Hf. by apply F2, F1.
Qed.

Lemma later_mono (S T : text -> Prop) w w' : (forall p, S p -> T p) -> later S w w' -> later T w w'.
Proof.
  intros HST [[N B D I F] R]. split; [|done]. constructor; [|done..].
  intros p i b Hp HT. apply N; [done|]. by intros HS; apply HT, HST.
Qed.

(** A step on the disk. *)
Lemma later_disk S f w : settled S (fs w) (f (fs w)) -> later S w (on_fs f w).
Proof. by split. Qed.

Lemma later_sync_file S q w : later S w (on_fs (sync_file q) w).
Proof.
  apply later_disk. unfold sync_file. destruct (inode_of q (fs w)) as [j|]; [|apply settled_refl].
  constructor; cbn; [by eauto|by eauto| | |done].
  - intros i n Hi. destruct (decide (j = i)) as [->|Hne].
    + exists true. by rewrite lookup_alter_eq, Hi.
    + rewrite lookup_alter_ne by done. by apply same_data.
  - intros i. by rewrite lookup_alter_is_Some.
Qed.

Lemma later_sync_dir S dir w : later S w (on_fs (sync_dir dir) w).
Proof.
  apply later_disk. constructor; [| |apply same_data|done|done].
  - intros p i b Hp _. rewrite sync_dir_lookup, Hp. cbn. destruct (in_dir dir p); by eauto.
  - intros p i b. rewrite sync_dir_lookup. destruct (names (fs w) !! p) as [[j c]|]; [|done]. cbn.
    destruct (in_dir dir p); intros [= <- <-]; by eauto.
Qed.

Lemma later_create_dir S dir w : later S w (on_fs (create_dir dir) w).
Proof.
  apply later_disk. unfold create_dir. destruct (fanouts (fs w) !! dir); [apply settled_refl|].
  constructor; cbn; [by eauto|by eauto|apply same_data|done|].
  intros Hj. destruct (decide (dir = journals_dir root)) as [->|Hne].
  - by rewrite lookup_insert_eq.
  - by rewrite lookup_insert_ne.
Qed.

Lemma later_remove (S : text -> Prop) p w : S p -> later S w (on_fs (remove_file p) w).
Proof.
  intros HS. apply later_disk. constructor; cbn; [| |apply same_data|done|done].
  - intros q i b Hq Hn. exists b. rewrite lookup_delete_ne; [done|]. by intros <-.
  - intros q i b [_ Hq]%lookup_delete_Some _. by eauto.
Qed.

(** A directory under [staging]. *)
Definition staging_dir (dir : text) : Prop := exists t, dir = root ++ str_bytes "/staging/" ++ t.

Lemma staging_not_journals dir :
  staging_dir dir -> in_dir dir (journals_dir root) = false /\ journals_dir root <> dir.
Proof.
  intros [t ->]. unfold journals_dir. split.
  - apply not_true_iff_false. intros [r E]%starts_with_spec. rewrite <- !app_assoc in E.
    by apply app_inv_head in E.
  - intros E. by apply app_inv_head in E.
Qed.

Lemma later_remove_dir (S : text -> Prop) dir w :
  staging_dir dir -> (forall p, in_dir dir p = true -> S p) -> later S w (on_fs (remove_dir_all dir) w).
Proof.
  intros Hd HS. apply later_disk. constructor; [| |apply same_data|done|].
  - intros q i b Hq Hn. exists b. rewrite remove_dir_lookup. destruct (in_dir dir q) eqn:Hdq; [|done].
    by destruct Hn; apply HS.
  - intros q i b. rewrite remove_dir_lookup. destruct (in_dir dir q); [done|]. by eauto.
  - intros [x Hx]. exists x. apply map_lookup_filter_Some. split; [done|]. by apply staging_not_journals.
Qed.

Lemma later_link S p t d w :
  under_objects root t -> hard_link p t (fs w) = Ok d -> later S w (on_fs (fun _ => d) w).
Proof.
  intros Ho. unfold hard_link, exists_file. destruct (inode_of p (fs w)) as [j|]; [|done].
  destruct (bool_decide _) eqn:Hb; [done|]. apply bool_decide_eq_false, eq_None_not_Some in Hb.
  intros [= <-]. apply (later_disk S (fun _ => _)). constructor; cbn; [| |apply same_data|done|done].
  - intros q i b Hq _. exists b. rewrite lookup_insert_ne; [done|]. intros <-. congruence.
  - intros q i b [[<- _]|[_ Hq]]%lookup_insert_Some Hno; [done|]. by eauto.
Qed.

(** ** Publishing leaves the rest alone *)

Lemma triple_any {A} P (m : io A) : triple P m (fun _ _ => True) any.
Proof. intros w _. by destruct (m w) as [[]]. Qed.

Lemma triple_both {A} P P' (m : io A) Q Q' E E' :
  triple P m Q E -> triple P' m Q' E' ->
  triple (fun w => P w /\ P' w) m (fun a w => Q a w /\ Q' a w) (fun w => E w /\ E' w).
Proof.
  intros Hm Hm' w [Hw Hw']. specialize (Hm w Hw). specialize (Hm' w Hw'). by destruct (m w) as [[]].
Qed.

Lemma later_step S w0 f : (forall w, later S w (on_fs f w)) ->
  triple (later S w0) (disk_op f) (fun _ => later S w0) any.
Proof. intros Hf. apply triple_disk. intros w Hw. by eapply later_trans. Qed.

Lemma record_object_later S w0 id size :
  triple (later S w0) (record_object id size) (fun _ => later S w0) any.
Proof.
  intros w Hl. unfold record_object, store_op, lift_result. unmonad. cbn. destruct (to_i64 _ _); [|done].
  eapply later_trans; [exact Hl|]. split; [apply settled_refl|].
  intros id' t [Ho Hr]. split; [|done]. cbn. destruct (decide (digest_key id = digest_key id')) as [->|Hne].
  - by rewrite lookup_insert_eq.
  - by rewrite lookup_insert_ne.
Qed.

Lemma record_location_later S w0 id t :
  triple (later S w0) (record_location id t RAW_PROFILE_V1 true) (fun _ => later S w0) any.
Proof.
  intros w Hl. cbn. eapply later_trans; [exact Hl|].
  split; [apply settled_refl|].
  intros id' t' [Ho (row & Hr & Hd)]. split; [done|]. cbn.
  destruct (decide ((digest_key id, t) = (digest_key id', t'))) as [->|Hne].
  - eexists. by rewrite lookup_insert_eq.
  - exists row. by rewrite lookup_insert_ne.
Qed.

Ltac any_step := eapply triple_bind with (R := fun _ _ => True); [apply triple_any|intros ?].

Lemma publish_later (S : text -> Prop) w0 id size p :
  S p ->
  triple (later S w0)
    (publish_staged_inner (SHA := SHA) root id p size FULL None RAW_PROFILE_V1 id)
    (fun _ => later S w0) any.
Proof.
  intros HS. unfold publish_staged_inner. cbn [fsync_file fsync_directory FULL].
  assert (Hrec : forall out, triple (later S w0)
    (_ ← record_object id size; _ ← record_location id (raw_name id) RAW_PROFILE_V1 true;
     _ ← disk_op (remove_file p); mret out) (fun _ : PutOutcome => later S w0) any).
  { intros out. eapply triple_bind; [apply record_object_later|]. intros ?.
    eapply triple_bind; [apply record_location_later|]. intros ?.
    eapply triple_bind; [by apply later_step; intros w; apply later_remove|]. intros ?. by apply triple_ret. }
  eapply triple_bind with (R := fun _ => later S w0).
  { eapply triple_bind; [by apply triple_get with (Q := fun _ => later S w0)|]. intros w1.
    eapply triple_bind; [by apply triple_refuse with (Q := fun _ => later S w0)|]. intros ?.
    apply later_step, later_sync_file. }
  intros ?. eapply triple_bind with (R := fun _ => later S w0); [by apply triple_refuse|]. intros ?.
  eapply triple_bind; [apply later_step, later_create_dir|]. intros ?.
  intros w Hw. unfold mbind at 1, method_bind at 1, get at 1. cbv beta iota.
  destruct (hard_link p _ (fs w)) as [d|[]] eqn:Hl; [| |done].
  - apply (later_link S) in Hl; [|apply published_under].
    assert (Hw' : later S w0 (on_fs (fun _ => d) w)) by by eapply later_trans.
    revert Hw'. unfold mbind at 1, method_bind at 1, disk_op at 1, modify at 1. cbv beta iota.
    generalize (on_fs (fun _ => d) w). clear w Hw Hl.
    match goal with |- forall w, _ -> match ?m w with _ => _ end => change (triple (later S w0) m (fun _ => later S w0) any) end.
    eapply triple_bind with (R := fun _ => later S w0); [by apply triple_refuse|]. intros ?.
    eapply triple_bind; [apply later_step, later_sync_dir|]. intros ?.
    eapply triple_bind with (R := fun _ => later S w0); [by apply triple_refuse|]. intros ?.
    eapply triple_bind; [apply record_object_later|]. intros ?.
    eapply triple_bind; [apply record_location_later|]. intros ?.
    eapply triple_bind with (R := fun _ => later S w0); [by apply triple_refuse|]. intros ?.
    eapply triple_bind; [by apply later_step; intros w; apply later_remove|]. intros ?. by apply triple_ret.
  - revert w Hw Hl. enough (Ht : triple (later S w0)
      (handle_existing (SHA := SHA) root id size RAW_PROFILE_V1 id p (raw_name id) FULL) (fun _ => later S w0) any)
      by (intros w Hw _; exact (Ht w Hw)).
    unfold handle_existing. eapply triple_bind with (R := fun _ => later S w0).
    { intros w Hw. unfold hash_file_under_domain, read_file. unmonad. by destruct (read _ _). }
    intros dg. destruct (bool_decide _).
    + cbn [is_full fsync_file fsync_directory FULL andb].
      eapply triple_bind; [|intros ?; apply Hrec]. apply triple_disk. intros w Hw.
      eapply later_trans; [exact Hw|].
      eapply later_trans; [apply (later_sync_file S (raw_name id))|].
      exact (later_sync_dir S (fanout_dir root id) (on_fs (sync_file (raw_name id)) w)).
    + do 6 any_step. by apply triple_throw.
Qed.

(** ** One attempt *)

(** Every file has a size the metadata can record. *)
Definition sized (d : disk) : Prop :=
  forall i n, inodes d !! i = Some n -> Z.of_nat (length (data n)) <= I64_MAX.

Lemma later_sized S w w' : later S w w' -> sized (fs w) -> sized (fs w').
Proof.
  intros [Hl _] Hs i n Hi. destruct (l_inodes _ _ _ Hl i) as [m Hm]; [by rewrite Hi|].
  destruct (l_data _ _ _ Hl i m Hm) as (y & Hy & _). rewrite Hi in Hy. injection Hy as ->. exact (Hs i m Hm).
Qed.

Lemma later_read S w w' p bs :
  later S w w' -> ~ S p -> read p (fs w) = Some bs -> read p (fs w') = Some bs.
Proof.
  intros [Hl _] HS. unfold read, inode_of. destruct (names (fs w) !! p) as [[i b]|] eqn:Hp; [|done]. cbn.
  destruct (inodes (fs w) !! i) as [n|] eqn:Hi; [|done]. intros [= <-].
  destruct (l_names _ _ _ Hl p i b Hp HS) as (c & -> & _). cbn.
  destruct (l_data _ _ _ Hl i n Hi) as (y & -> & _). done.
Qed.

(** The object of these bytes is published under its name, on disk, and recorded. *)
Definition published (id : TypedDigest) (w : world) : Prop :=
  visible (raw_name id) true w /\ recorded id (raw_name id) w.

Lemma later_published S id w w' :
  later S w w' -> (forall p, S p -> ~ under_objects root p) -> safe w' -> published id w -> published id w'.
Proof.
  intros [Hl Hrec] HS Hs [(_ & Ho & i & b & n & Hp & Hi & Hy & Hb) Hr]. split; [|by apply Hrec].
  split; [done|]. split; [done|].
  destruct (l_names _ _ _ Hl _ i b Hp) as (c & Hc & Hbc); [by intros ?%HS|].
  destruct (l_data _ _ _ Hl i n Hi) as (y & Hn & Hys).
  exists i, c, {| data := data n; synced := y |}. split; [done|]. split; [done|]. cbn. by auto.
Qed.

Lemma digest_of_file bs :
  Z.of_nat (length bs) <= I64_MAX ->
  exists set, content_digest (SHA := SHA) (BLAKE := BLAKE) (file_reads bs) None = Ok set /\
    atp_content_id set = id_of bs.
Proof.
  intros Hl. assert (He : exists set, content_digest (SHA := SHA) (BLAKE := BLAKE) (file_reads bs) None = Ok set).
  { unfold content_digest. rewrite (stream_ideal sha blk). unfold ideal. rewrite file_reads_concat.
    destruct (Z.leb_spec (2 ^ 64) (Z.of_nat (length bs))); [unfold I64_MAX in Hl; lia|]. by eexists. }
  destruct He as [set He]. exists set. split; [done|].
  apply (content_digest_id sha blk) in He. by rewrite He, file_reads_concat.
Qed.

Lemma read_held p bs w :
  safe w -> outside root p -> read p (fs w) = Some bs -> exists sy, held p bs sy w.
Proof.
  intros Hs Ho. unfold read, inode_of. destruct (names (fs w) !! p) as [[i b]|] eqn:Hn; [|done]. cbn.
  destruct (inodes (fs w) !! i) as [n|] eqn:Hi; [|done]. intros [= <-].
  exists (synced n). split; [done|]. split; [done|]. exists i, b. by destruct n.
Qed.

Lemma publish_staged_total p bs w :
  safe w -> outside root p -> read p (fs w) = Some bs -> Z.of_nat (length bs) <= I64_MAX ->
  exists o w', publish_staged (SHA := SHA) root (id_of bs) p FULL w = (Ok o, w') /\
    (o = Stored (raw_name (id_of bs)) \/ o = IdempotentDuplicate (raw_name (id_of bs))) /\
    published (id_of bs) w' /\ later (fun q => q = p) w w'.
Proof.
  intros Hs Ho Hr Hl. destruct (read_held p bs w Hs Ho Hr) as [sy Hh].
  unfold publish_staged, read_file. unmonad. rewrite Hr. set (n := Z.of_nat (length bs)).
  pose proof (publish_total sha root False (id_of bs) bs n p sy eq_refl ltac:(lia)) as Ht.
  pose proof (publish_later (fun q => q = p) w (id_of bs) n p eq_refl) as Hk.
  pose proof (triple_both _ _ _ _ _ _ _ Ht Hk w (conj Hh (later_refl _ w))) as Hb.
  destruct (publish_staged_inner _ _ _ _ _ _ _ _ w) as [[o|e] w']; [|by destruct Hb].
  destruct Hb as ((Hout & Hv & Hrec) & Hlat). by exists o, w'.
Qed.

Lemma resolve_total key op a w :
  let p := staged_object root op a in
  safe w -> sized (fs w) ->
  exists action w',
    resolve_open_attempt (SHA := SHA) (BLAKE := BLAKE) root key p FULL w = (Ok action, w') /\
    safe w' /\ later (fun q => q = p) w w' /\
    forall bs, read p (fs w) = Some bs -> key = Some (digest_key (id_of bs)) ->
      action = Resumed (raw_name (id_of bs)) /\ published (id_of bs) w'.
Proof.
  intros p Hs Hz.
  assert (Hclean : (forall bs, read p (fs w) = Some bs -> key = Some (digest_key (id_of bs)) -> False) ->
    exists action w', (Ok Cleaned, w) = (Ok (E := PutError) action, w') /\ safe w' /\ later (fun q => q = p) w w' /\
      forall bs, read p (fs w) = Some bs -> key = Some (digest_key (id_of bs)) ->
        action = Resumed (raw_name (id_of bs)) /\ published (id_of bs) w').
  { intros Hno. exists Cleaned, w. split; [done|]. split; [done|]. split; [apply later_refl|].
    intros bs Hr Hk. by destruct (Hno bs Hr Hk). }
  unfold resolve_open_attempt. destruct key as [key|]; [|by apply Hclean].
  unmonad. destruct (exists_file p (fs w)) eqn:Hex; cbn [negb].
  2: { apply Hclean. intros bs Hr _. unfold exists_file in Hex. apply bool_decide_eq_false in Hex.
       unfold read, inode_of in Hr. destruct (names (fs w) !! p); [by destruct Hex|done]. }
  unfold with_outcome at 1, recompute_file_digest, read_file. unmonad.
  destruct (read p (fs w)) as [bs|] eqn:Hr; [|by apply Hclean].
  assert (Hl : Z.of_nat (length bs) <= I64_MAX).
  { unfold read, inode_of in Hr. destruct (names (fs w) !! p) as [[i b]|]; [|done]. cbn in Hr.
    destruct (inodes (fs w) !! i) as [n|] eqn:Hi; [|done]. injection Hr as <-. by apply (Hz i). }
  destruct (digest_of_file bs Hl) as (set & -> & ->). cbv beta iota.
  destruct (bool_decide (digest_key (id_of bs) = key)) eqn:Hk; cbn [negb].
  2: { apply bool_decide_eq_false in Hk. apply Hclean. intros bs' [= <-] [= ->]. done. }
  destruct (publish_staged_total p bs w Hs (object_outside root op a) Hr Hl) as (o & w' & E & Ho & Hp & Hlat).
  unfold with_outcome. rewrite E.
  exists (Resumed (raw_name (id_of bs))), w'. split; [by destruct Ho as [-> | ->]|].
  split; [apply Hp|]. split; [done|]. by intros bs' [= <-] _.
Qed.

(** ** The attempts of an operation *)

Definition slashless (a : text) : Prop := SLASH ∉ a.

Lemma before_slash a b x y : slashless a -> slashless b -> a ++ SLASH :: x = b ++ SLASH :: y -> a = b.
Proof.
  revert b. induction a as [|c a IH]; intros [|e b] Ha Hb E; [done| | |].
  - injection E as E1 _. subst e. by destruct Hb; left.
  - injection E as E1 _. subst c. by destruct Ha; left.
  - injection E as <- E. f_equal. apply not_elem_of_cons in Ha as [_ Ha], Hb as [_ Hb]. by apply IH.
Qed.

Lemma other_attempt op a b :
  slashless a -> slashless b -> a <> b -> in_dir (attempt_dir root op a) (staged_object root op b) = false.
Proof.
  intros Ha Hb Hne. apply not_true_iff_false. intros [r E]%starts_with_spec. destruct Hne.
  unfold staged_object, attempt_dir in E. rewrite <- !app_assoc in E. apply app_inv_head in E.
  injection E as E. symmetry. by apply (before_slash b a (str_bytes "object") r).
Qed.

Lemma other_operation op op' p :
  slashless op -> slashless op' -> op <> op' ->
  in_dir (op_staging_dir root op) p = true -> in_dir (op_staging_dir root op') p = false.
Proof.
  intros Ho Ho' Hne [r ->]%starts_with_spec. apply not_true_iff_false. intros [r' E]%starts_with_spec.
  destruct Hne. unfold op_staging_dir in E. rewrite <- !app_assoc in E. do 2 apply app_inv_head in E.
  by apply (before_slash op op' r r').
Qed.

Lemma op_staging op : staging_dir (op_staging_dir root op).
Proof. by eexists. Qed.

Lemma attempt_staging op a : staging_dir (attempt_dir root op a).
Proof. eexists. unfold attempt_dir, op_staging_dir. by rewrite <- !app_assoc. Qed.

(** The attempts among [l] whose staged bytes are the object they declare are published, and
    reported. *)
Definition resumed (op : text) (l : list (text * option text * bool)) (w w' : world) (r : RecoveryReport) : Prop :=
  forall a key bs, (a, key, false) ∈ l -> read (staged_object root op a) (fs w) = Some bs ->
    key = Some (digest_key (id_of bs)) ->
    published (id_of bs) w' /\ (op, a, Resumed (raw_name (id_of bs))) ∈ resolved r.

Abbreviation in_op op := (fun p => in_dir (op_staging_dir root op) p = true).

Lemma in_op_outside op p : in_op op p -> ~ under_objects root p.
Proof. intros Hp. by apply (staging_dir_outside root op p). Qed.

Lemma remove_attempt_later op a w : later (in_op op) w (on_fs (remove_dir_all (attempt_dir root op a)) w).
Proof. apply later_remove_dir; [apply attempt_staging|]. intros p Hp. by eapply attempt_in_op. Qed.

Lemma remove_attempt_safe op a w : safe w -> safe (on_fs (remove_dir_all (attempt_dir root op a)) w).
Proof. apply remove_dir_safe. intros p Hp. by eapply staging_dir_outside, attempt_in_op. Qed.

Lemma read_after_remove op a b w bs :
  slashless a -> slashless b -> a <> b -> read (staged_object root op b) (fs w) = Some bs ->
  read (staged_object root op b) (fs (on_fs (remove_dir_all (attempt_dir root op a)) w)) = Some bs.
Proof.
  intros Ha Hb Hne. unfold read, inode_of. change (fs (on_fs ?g w)) with (g (fs w)).
  rewrite remove_dir_lookup, (other_attempt op a b) by done. done.
Qed.

Lemma attempt_listed (l : list (text * option text * bool)) a k t : (a, k, t) ∈ l -> a ∈ l.*1.*1.
Proof.
  intros Hin. apply list_elem_of_fmap. exists (a, k). split; [done|].
  apply list_elem_of_fmap. by exists (a, k, t).
Qed.

Lemma resolve_attempts_total op l report w :
  safe w -> sized (fs w) ->
  exists report' w',
    resolve_attempts (SHA := SHA) (BLAKE := BLAKE) root op FULL l report w = (Ok report', w') /\
    safe w' /\ later (in_op op) w w' /\ (forall x, x ∈ resolved report -> x ∈ resolved report') /\
    retired_journals report' = retired_journals report /\
    (Forall slashless l.*1.*1 -> NoDup l.*1.*1 -> resumed op l w w' report').
Proof.
  revert report w. induction l as [|[[a key] term] l IH]; intros report w Hs Hz.
  { exists report, w. split; [done|]. split; [done|]. split; [apply later_refl|]. split; [done|].
    split; [done|]. intros _ _ b k bs Hin. by apply elem_of_nil in Hin. }
  destruct term; cbn [resolve_attempts].
  - set (w1 := on_fs (remove_dir_all (attempt_dir root op a)) w).
    pose proof (remove_attempt_later op a w) as Hl1. pose proof (remove_attempt_safe op a w Hs) as Hs1.
    destruct (IH report w1 Hs1 (later_sized _ _ _ Hl1 Hz)) as (r & w2 & E & Hs2 & Hl2 & Hin & Hret & Hres).
    exists r, w2. split; [exact E|]. split; [done|]. split; [by eapply later_trans|]. split; [done|].
    split; [done|]. intros [Ha Hsl]%Forall_cons [Hni Hnd]%NoDup_cons b k bs Hb Hr Hk.
    apply elem_of_cons in Hb as [[=]|Hb].
    apply (Hres Hsl Hnd b k bs Hb); [|done].
    assert (Hbin : b ∈ l.*1.*1) by by eapply attempt_listed.
    apply read_after_remove; [done| | |done]; [by eapply Forall_forall|]. by intros ->.
  - destruct (resolve_total key op a w Hs Hz) as (action & w1 & E1 & Hs1 & Hl1 & Hact).
    set (w2 := on_fs (remove_dir_all (attempt_dir root op a)) w1).
    pose proof (remove_attempt_later op a w1) as Hl2. pose proof (remove_attempt_safe op a w1 Hs1) as Hs2.
    assert (Hl12 : later (in_op op) w w2).
    { eapply later_trans; [|exact Hl2]. eapply later_mono; [|exact Hl1].
      intros p ->. eapply attempt_in_op, object_in_attempt. }
    destruct (IH (add_resolved (op, a, action) report) w2 Hs2 (later_sized _ _ _ Hl12 Hz))
      as (r & w3 & E & Hs3 & Hl3 & Hin & Hret & Hres).
    exists r, w3. split; [unfold mbind, method_bind; rewrite E1; exact E|]. split; [done|].
    split; [by eapply later_trans|]. split; [intros x Hx; apply Hin; cbn; by apply elem_of_app; left|].
    split; [done|]. intros [Ha Hsl]%Forall_cons [Hni Hnd]%NoDup_cons b k bs Hb Hr Hk.
    apply elem_of_cons in Hb as [[= -> ->]|Hb].
    + destruct (Hact bs Hr Hk) as [-> Hp]. split.
      * apply (later_published (in_op op) _ w1); [by eapply later_trans|apply in_op_outside|done|done].
      * apply Hin. cbn. apply elem_of_app. right. by left.
    + apply (Hres Hsl Hnd b k bs Hb); [|done].
      assert (Hbin : b ∈ l.*1.*1) by by eapply attempt_listed.
      assert (slashless b) by by eapply Forall_forall.
      apply read_after_remove; [done|done|by intros ->|].
      eapply later_read; [exact Hl1| |done]. intros Heq.
      assert (Hf : in_dir (attempt_dir root op a) (staged_object root op b) = false)
        by (apply other_attempt; [done|done|by intros ->]).
      rewrite Heq, object_in_attempt in Hf. done.
Qed.

(** ** The journals *)

Lemma mark_names a l : (mark_terminal a l).*1.*1 = l.*1.*1.
Proof.
  induction l as [|[[b k] t] l IH]; [done|]. cbn. destruct (bool_decide (b = a)); [done|]. cbn. by rewrite IH.
Qed.

Lemma fold_names rs acc :
  NoDup acc.*1.*1 ->
  NoDup (fold_left fold_record rs acc).*1.*1 /\
  (forall a, a ∈ (fold_left fold_record rs acc).*1.*1 -> a ∈ acc.*1.*1 \/ a ∈ JournalFacts.attempt_of <$> rs).
Proof.
  revert acc. induction rs as [|r rs IH]; intros acc Hnd; cbn [fold_left]; [by auto|].
  assert (Hstep : NoDup (fold_record acc r).*1.*1 /\
    forall a, a ∈ (fold_record acc r).*1.*1 -> a ∈ acc.*1.*1 \/ a = JournalFacts.attempt_of r).
  { destruct r as [a k|a|a reason]; cbn [fold_record]; rewrite ?mark_names; [|by auto..].
    destruct (existsb _ acc) eqn:He; [by auto|]. rewrite !fmap_app. cbn. split.
    - apply NoDup_app. split; [done|]. split; [|apply NoDup_singleton]. intros b Hb ->%list_elem_of_singleton.
      apply list_elem_of_fmap in Hb as ([b k'] & -> & Hb). apply list_elem_of_fmap in Hb as ([[b' k''] t] & [= <- <-] & Hb).
      apply not_true_iff_false in He. destruct He. apply existsb_exists. exists (b, k', t).
      split; [by apply list_elem_of_In|]. by apply bool_decide_eq_true.
    - intros b [Hb|Hb]%elem_of_app; [by left|]. right. by apply list_elem_of_singleton in Hb. }
  destruct Hstep as [Hnd' Hin]. destruct (IH _ Hnd') as [Hnd2 Hin2]. split; [done|].
  intros b Hb. destruct (Hin2 b Hb) as [Hb'|Hb']; [|by right; right].
  destruct (Hin b Hb') as [?| ->]; [by left|]. right. by left.
Qed.

(** The attempts the journal [p] records, and whether their names are path components. *)
Definition attempts_of (p : text) (w : world) : list (text * option text * bool) :=
  fold_records (records (replay_file (BLAKE := BLAKE) p (fs w))).

Definition well_named (p : text) (w : world) : Prop :=
  Forall (fun r => slashless (JournalFacts.attempt_of r)) (records (replay_file (BLAKE := BLAKE) p (fs w))).

Lemma attempts_named p w :
  NoDup (attempts_of p w).*1.*1 /\ (well_named p w -> Forall slashless (attempts_of p w).*1.*1).
Proof.
  destruct (fold_names (records (replay_file (BLAKE := BLAKE) p (fs w))) [] ltac:(constructor)) as [Hnd Hin].
  split; [done|]. intros Hw. apply Forall_forall. intros a Ha.
  destruct (Hin a Ha) as [Hn|Hr]; [by apply elem_of_nil in Hn|].
  apply list_elem_of_fmap in Hr as (r & -> & Hr). by apply (proj1 (Forall_forall _ _) Hw).
Qed.

Lemma later_read_eq S w w' p :
  later S w w' -> ~ S p -> is_Some (names (fs w) !! p) -> read p (fs w') = read p (fs w).
Proof.
  intros [Hl _] HS [[i b] Hp]. unfold read, inode_of. rewrite Hp.
  destruct (l_names _ _ _ Hl p i b Hp HS) as (c & -> & _). cbn.
  destruct (inodes (fs w) !! i) as [n|] eqn:Hi.
  - by destruct (l_data _ _ _ Hl i n Hi) as (y & -> & _).
  - destruct (inodes (fs w') !! i) as [n|] eqn:Hi'; [|done].
    destruct (l_inodes _ _ _ Hl i) as [? ?]; [by rewrite Hi'|congruence].
Qed.

(** What recovering an operation may remove. *)
Definition gone (op q : text) : Prop := in_op op q \/ q = journal_path root op.

Lemma gone_outside op q : gone op q -> ~ under_objects root q.
Proof. intros [Hq| ->]; [by eapply in_op_outside|]. apply journals_not_objects, journal_under. Qed.

Lemma later_none S w w' q :
  later S w w' -> ~ under_objects root q -> names (fs w) !! q = None -> names (fs w') !! q = None.
Proof.
  intros [Hl _] Ho Hn. destruct (names (fs w') !! q) as [[i b]|] eqn:Hq; [|done].
  destruct (l_back _ _ _ Hl q i b Hq Ho) as [c Hc]. congruence.
Qed.

Lemma recover_journal_total p op report w :
  journal_stem root p = Some op -> is_Some (names (fs w) !! p) -> safe w -> sized (fs w) ->
  exists report' w',
    recover_journal (SHA := SHA) (BLAKE := BLAKE) root FULL p report w = (Ok report', w') /\
    safe w' /\ later (gone op) w w' /\ (forall q, gone op q -> names (fs w') !! q = None) /\
    (forall x, x ∈ resolved report -> x ∈ resolved report') /\
    (well_named p w -> resumed op (attempts_of p w) w w' report').
Proof.
  intros Hst Hex Hs Hz. unfold recover_journal. rewrite Hst. change (default [] (Some op)) with op.
  apply stem_path in Hst as Hp. unfold mbind at 1, method_bind at 1, get at 1. cbv beta iota zeta.
  change (fold_records (records (replay_file p (fs w)))) with (attempts_of p w).
  set (report1 := if torn_tail _ then _ else report).
  destruct (resolve_attempts_total op (attempts_of p w) report1 w Hs Hz)
    as (r & w1 & E & Hs1 & Hl1 & Hin & _ & Hres).
  set (w2 := on_fs (remove_dir_all (op_staging_dir root op)) w1).
  assert (Hl2 : later (in_op op) w1 w2) by (apply later_remove_dir; [apply op_staging|done]).
  assert (Hs2 : safe w2) by (apply remove_dir_safe; [apply staging_dir_outside|done]).
  assert (Hnop : ~ in_op op p).
  { intros Hi. destruct (staging_dir_outside root op p Hi) as [_ []]. rewrite Hp. apply journal_under. }
  assert (Hex2 : is_Some (names (fs w2) !! p)).
  { destruct Hex as [[i b] Hi]. destruct (l_names _ _ _ (proj1 (later_trans _ _ _ _ Hl1 Hl2)) p i b Hi Hnop)
      as (c & Hc & _). by rewrite Hc. }
  set (w3 := on_fs (remove_file p) w2).
  assert (Hl3 : later (gone op) w2 w3) by (apply later_remove; by right).
  assert (Hs3 : safe w3).
  { apply remove_name_safe; [done|]. rewrite Hp. apply journals_not_objects, journal_under. }
  assert (Hlater : later (gone op) w w3).
  { eapply later_trans; [|exact Hl3]. eapply later_mono; [|by eapply later_trans]. by left. }
  exists (add_retired op r), w3. split.
  { unfold mbind, method_bind. rewrite E. cbn. fold w2. unfold refuse_if, exists_file.
    by rewrite bool_decide_eq_true_2. }
  split; [done|]. split; [done|]. split.
  { intros q [Hq| ->]; [|by cbn; rewrite Hp; apply lookup_delete_eq].
    apply (later_none (gone op) w2); [done|by eapply in_op_outside|].
    change (fs w2) with (remove_dir_all (op_staging_dir root op) (fs w1)). rewrite remove_dir_lookup. by rewrite Hq. }
  split; [intros x Hx; apply Hin; unfold report1; by destruct (torn_tail _)|].
  intros Hw a key bs Ha Hr Hk. destruct (attempts_named p w) as [Hnd Hsl].
  destruct (Hres (Hsl Hw) Hnd a key bs Ha Hr Hk) as [Hpub Hrep]. split; [|done].
  apply (later_published (gone op) _ w1); [|apply gone_outside|done|done].
  eapply later_trans; [|exact Hl3]. eapply later_mono; [|exact Hl2]. by left.
Qed.

Lemma stem_slashless p op : journal_stem root p = Some op -> slashless op.
Proof.
  unfold journal_stem. destruct (strip_prefix _ p) as [name|]; [|done].
  destruct (contains_byte SLASH name) eqn:Hc; [done|]. cbn. case_match; [done|]. intros [= <-].
  apply contains_byte_false in Hc. intros Hin. apply Hc. rewrite <- (take_drop (length name - 8) name).
  by apply elem_of_app; left.
Qed.

(** What recovering the journals [paths] may remove. *)
Definition all_gone (paths : list text) (q : text) : Prop :=
  exists p op, p ∈ paths /\ journal_stem root p = Some op /\ gone op q.

(** What recovering them achieves for each. *)
Definition recovered (w w' : world) (r : RecoveryReport) (p : text) : Prop :=
  forall op, journal_stem root p = Some op ->
    (forall q, gone op q -> names (fs w') !! q = None) /\
    (well_named p w -> resumed op (attempts_of p w) w w' r).

(** Recovering one operation does not touch another. *)
Lemma other_untouched op op' q :
  slashless op -> slashless op' -> op <> op' -> gone op q -> ~ gone op' q.
Proof.
  intros Ho Ho' Hne [Hq| ->] [Hq'|E].
  - pose proof (other_operation op op' q Ho Ho' Hne Hq) as Hf. by rewrite Hq' in Hf.
  - destruct (staging_dir_outside root op q Hq) as [_ []]. rewrite E. apply journal_under.
  - destruct (staging_dir_outside root op' _ Hq') as [_ []]. apply journal_under.
  - unfold journal_path in E. do 2 apply app_inv_head in E. apply app_inv_tail in E. done.
Qed.

Lemma recovered_later paths w1 w2 r1 r2 w p :
  recovered w w1 r1 p -> later (all_gone paths) w1 w2 -> safe w2 ->
  (forall x, x ∈ resolved r1 -> x ∈ resolved r2) -> recovered w w2 r2 p.
Proof.
  intros Hr Hl Hs Hin op Hst. destruct (Hr op Hst) as [Hg Hres].
  split; [intros q Hq; eapply later_none; [exact Hl|by eapply gone_outside|by apply Hg]|].
  intros Hw a key bs Ha Hrd Hk. destruct (Hres Hw a key bs Ha Hrd Hk) as [Hp Hrep].
  split; [|by apply Hin]. eapply later_published; [exact Hl| |done|done].
  intros q (p' & op' & _ & _ & Hq). by eapply gone_outside.
Qed.

Lemma recovered_earlier op w0 w w' r p :
  recovered w w' r p -> later (gone op) w0 w -> is_Some (names (fs w0) !! p) ->
  slashless op -> journal_stem root p <> Some op -> recovered w0 w' r p.
Proof.
  intros Hr Hl Hex Hop Hne op' Hst. destruct (Hr op' Hst) as [Hg Hres]. split; [done|].
  assert (Hsl : slashless op') by by eapply stem_slashless.
  assert (Hoo : op <> op') by (by intros ->).
  assert (Hng : forall q, gone op' q -> ~ gone op q) by (intros q; by apply other_untouched).
  assert (Hrf : replay_file (BLAKE := BLAKE) p (fs w) = replay_file p (fs w0)).
  { unfold replay_file, replay_framed. rewrite (later_read_eq _ _ _ p Hl); [done| |done].
    apply Hng. right. by apply stem_path. }
  unfold well_named, attempts_of in Hres. rewrite Hrf in Hres.
  intros Hw a key bs Ha Hrd Hk. apply (Hres Hw a key bs Ha); [|done].
  eapply later_read; [exact Hl| |done]. apply Hng. left. eapply attempt_in_op, object_in_attempt.
Qed.

Lemma recover_journals_total paths report w :
  NoDup paths -> Forall (fun p => is_Some (journal_stem root p) /\ is_Some (names (fs w) !! p)) paths ->
  safe w -> sized (fs w) ->
  exists report' w',
    recover_journals (SHA := SHA) (BLAKE := BLAKE) root FULL paths report w = (Ok report', w') /\
    safe w' /\ later (all_gone paths) w w' /\ (forall x, x ∈ resolved report -> x ∈ resolved report') /\
    Forall (recovered w w' report') paths.
Proof.
  intros Hnd. revert report w. induction Hnd as [|p paths Hni _ IH]; intros report w Hall Hs Hz.
  { exists report, w. split; [done|]. split; [done|]. split; [apply later_refl|]. split; [done|constructor]. }
  apply Forall_cons in Hall as [[[op Hst] Hex] Hall].
  destruct (recover_journal_total p op report w Hst Hex Hs Hz) as (r1 & w1 & E & Hs1 & Hl1 & Hg & Hin & Hres).
  assert (Hop : slashless op) by by eapply stem_slashless.
  assert (Hother : forall p', p' ∈ paths -> journal_stem root p' <> Some op).
  { intros p' Hp' E'. apply stem_path in E' as ->. apply stem_path in Hst as ->. done. }
  destruct (IH r1 w1) as (r2 & w2 & E2 & Hs2 & Hl2 & Hin2 & Hrec); [|done|by eapply later_sized|].
  { rewrite Forall_forall in Hall. apply Forall_forall. intros p' Hp'. destruct (Hall p' Hp') as [[op' Hst'] Hex'].
    split; [by rewrite Hst'|]. destruct Hex' as [[i b] Hi].
    destruct (l_names _ _ _ (proj1 Hl1) p' i b Hi) as (c & Hc & _); [|by rewrite Hc].
    apply (other_untouched op'); [by eapply stem_slashless|done| |right; by apply stem_path].
    intros ->. by apply (Hother p'). }
  exists r2, w2. split; [cbn [recover_journals]; unfold mbind, method_bind; by rewrite E|]. split; [done|].
  assert (Hmono : later (all_gone (p :: paths)) w w1).
  { eapply later_mono; [|exact Hl1]. intros q Hq. exists p, op. by split; [left|]. }
  split.
  { eapply later_trans; [exact Hmono|]. eapply later_mono; [|exact Hl2].
    intros q (p' & op' & Hp' & Hr). exists p', op'. by split; [right|]. }
  split; [by auto|]. apply Forall_cons. split.
  - apply (recovered_later paths w1 w2 r1); [|done|done|done]. intros op' Hst'.
    rewrite Hst in Hst'. injection Hst' as <-. by split.
  - rewrite Forall_forall in Hrec, Hall. apply Forall_forall. intros p' Hp'.
    apply (recovered_earlier op w w1); [by apply Hrec|done|by apply Hall|done|by apply Hother].
Qed.

Lemma elem_journal_files d p :
  p ∈ journal_files root d <-> is_Some (journal_stem root p) /\ is_Some (names d !! p).
Proof.
  unfold journal_files. rewrite sort_by_perm, list_elem_of_filter, list_elem_of_fmap. split.
  - intros [Hst ([q e] & -> & Hin)]. split; [done|]. apply elem_of_map_to_list in Hin. cbn. by rewrite Hin.
  - intros [Hst [e He]]. split; [done|]. exists (p, e). split; [done|]. by apply elem_of_map_to_list.
Qed.

Lemma journal_files_nodup d : NoDup (journal_files root d).
Proof.
  unfold journal_files. rewrite sort_by_perm. apply NoDup_filter, NoDup_fst_map_to_list.
Qed.

End recovery.

Section theorems.
Context {SHA BLAKE : Type} `{Hasher SHA} `{Hasher BLAKE}.
Context (sha blk : list Z -> list Z) `{!HasherLaw SHA sha} `{!HasherLaw BLAKE blk}.
Context (root : text).

Abbreviation history := (rtc (disciplined (SHA := SHA) (BLAKE := BLAKE) root False)).

(** C31: recovery completes what the surviving journals describe.  After any history of puts,
    deaths, recoveries and crashes in which writers sync their files before the link, no writer
    draws a staging name that is in use, and no encoded representation takes the raw profile
    (and with no file longer than an i64), recovery succeeds, whatever the journals hold.  For
    every journal then on the disk: each attempt it leaves open, whose staged bytes are the
    object it declared, is published under its name, on disk, recorded and reported, provided
    the attempt names it holds are plain file names; the journal is gone, and so is everything
    under the staging directory of its operation.  No journal remains, and running recovery
    again does nothing.  (An operation whose journal file itself was lost in a crash, because
    its directory entry was never synced, is not seen: its staged bytes stay,
    [unsynced_journal_lost].) *)
Theorem recovery_resolves_all q w :
  history (boot q) w -> sized (fs w) ->
  exists report w',
    recover_operations (SHA := SHA) (BLAKE := BLAKE) root FULL w = (Ok report, w') /\
    (forall p op, journal_stem root p = Some op -> is_Some (names (fs w) !! p) ->
       (forall f, gone root op f -> names (fs w') !! f = None) /\
       (well_named (BLAKE := BLAKE) p w ->
        resumed sha root op (attempts_of (BLAKE := BLAKE) p w) w w' report)) /\
    journal_files root (fs w') = [] /\
    recover_operations (SHA := SHA) (BLAKE := BLAKE) root FULL w' = (Ok report_default, w').
Proof.
  intros Hw Hz. apply (history_safe sha blk root False) in Hw.
  set (w1 := on_fs (create_dir (journals_dir root)) w).
  assert (Hl1 : later root (fun _ => False) w w1) by apply later_create_dir.
  assert (Hs1 : safe sha root False w1) by by apply create_dir_safe.
  assert (Hn1 : names (fs w1) = names (fs w)) by (cbn; unfold create_dir; by destruct (fanouts _ !! _)).
  assert (Hi1 : inodes (fs w1) = inodes (fs w)) by (cbn; unfold create_dir; by destruct (fanouts _ !! _)).
  destruct (recover_journals_total sha blk root (journal_files root (fs w1)) report_default w1)
    as (report & w' & E & Hs' & Hl & _ & Hrec);
    [apply journal_files_nodup|apply Forall_forall; intros p Hp; by apply elem_journal_files|done
    |by eapply later_sized|].
  rewrite Forall_forall in Hrec. exists report, w'. split; [done|]. split; [|].
  { intros p op Hst Hex. destruct (Hrec p) with (op := op) as [Hg Hres]; [|done|].
    - apply elem_journal_files. by rewrite Hst, Hn1.
    - split; [done|]. revert Hres. unfold well_named, attempts_of, replay_file, replay_framed, resumed, read, inode_of.
      by rewrite Hn1, Hi1. }
  assert (Hnil : journal_files root (fs w') = []).
  { apply elem_of_nil_inv. intros p [[op Hst] [[i b] Hn]]%elem_journal_files.
    assert (Hj : gone root op p) by (right; by apply stem_path).
    destruct (l_back _ _ _ _ (proj1 Hl) p i b Hn) as [c Hc]; [by eapply gone_outside|].
    destruct (Hrec p) with (op := op) as [Hg _]; [|done|by rewrite (Hg p Hj) in Hn].
    apply elem_journal_files. by rewrite Hst, Hc. }
  split; [done|].
  assert (Hf : is_Some (fanouts (fs w') !! journals_dir root)).
  { apply (l_fanouts _ _ _ _ (proj1 Hl)). cbn. unfold create_dir.
    destruct (fanouts (fs w) !! journals_dir root) as [x|] eqn:Hx; [by rewrite Hx|]. cbn. by rewrite lookup_insert_eq. }
  assert (Hid : on_fs (create_dir (journals_dir root)) w' = w').
  { unfold on_fs, create_dir. destruct Hf as [x ->]. by destruct w'. }
  unfold recover_operations. unfold mbind, method_bind, disk_op, modify, get. rewrite Hid, Hnil. done.
Qed.

End theorems.
(** ** Concrete recoveries, with the toy hash of Digest.v *)

Definition no_debug (e : PutError) : text := [].

Definition op1 : text := u128_hex 1.
Definition at1 : text := u128_hex 2.
Definition staged1 : text := staged_object here op1 at1.

(** A journaled put of the byte 1 that dies at a crash point. *)
Definition dying_put (fault : FaultPoint) : io PutOutcome :=
  _ ← begin_attempt (BLAKE := list Z) here op1 at1 (toy_id [1]);
  set ← or_remove staged1 (stream_to_staging (SHA := list Z) (BLAKE := list Z) staged1 [[1]] no_limits);
  _ ← verify_declared staged1 (toy_id [1]) (atp_content_id set);
  publish_staged_inner (SHA := list Z) here (toy_id [1]) staged1 (logical_size set) FULL (Some fault)
    RAW_PROFILE_V1 (toy_id [1]).

Definition dead (fault : FaultPoint) : world := snd (dying_put fault (boot 7)).

Lemma dead_reached fault : rtc (disciplined (SHA := list Z) (BLAKE := list Z) here False) (boot 7) (dead fault).
Proof.
  apply rtc_once.
  exists (DyingJournaled 1 2 (toy_id [1]) [[1]] no_limits FULL fault).
  split; [reflexivity|]. split; [done|]. split; [done|]. split; [vm_compute; reflexivity|]. done.
Qed.

Definition sizedb (d : disk) : bool :=
  forallb (fun e => Z.of_nat (length (data (snd e))) <=? I64_MAX) (map_to_list (inodes d)).

Lemma sizedb_spec d : sizedb d = true -> sized d.
Proof.
  unfold sizedb. rewrite forallb_forall. intros Hd i n Hi%elem_of_map_to_list%list_elem_of_In.
  specialize (Hd _ Hi). cbn in Hd. lia.
Qed.

Lemma recovery_resolves_all_witness :
  exists report w',
    recover_operations (SHA := list Z) (BLAKE := list Z) here FULL (dead StagingSynced) = (Ok report, w') /\
    journal_files here (fs w') = [].
Proof.
  destruct (recovery_resolves_all toy_hash toy_hash here 7 (dead StagingSynced) (dead_reached StagingSynced))
    as (report & w' & E & _ & Hj & _); [apply sizedb_spec; by vm_compute|].
  exists report, w'. split; [exact E|exact Hj].
Defined.

Definition recovered_dead : result PutError RecoveryReport * world :=
  recover_operations (SHA := list Z) (BLAKE := list Z) here FULL (dead StagingSynced).

(** The put whose writer died before the link is published by recovery. *)
Example recovery_resumes :
  fst recovered_dead
  = Ok {| resolved := [(op1, at1, Resumed (raw_path [1]))]; torn_journals := []; retired_journals := [op1] |}
  /\ read (raw_path [1]) (fs (snd recovered_dead)) = Some [1] /\ read staged1 (fs (snd recovered_dead)) = None.
Proof. split; [by vm_compute|]. split; by vm_compute. Qed.

(** ** What the journals do not give *)

(** A second attempt with the identifiers of one that died after its link, made before a
    recovery, truncates the inode the published object shares with the staging file: the name
    of the first object then holds the bytes of the second. *)
Definition retried : result PutError PutOutcome * world :=
  put_if_absent_journaled (SHA := list Z) (BLAKE := list Z) here no_debug 1 2 (toy_id [2]) [[2]] no_limits FULL
    (dead MetadataRecorded).

Theorem retried_attempt_overwrites_object :
  read (raw_path [1]) (fs (dead MetadataRecorded)) = Some [1] /\ is_ok (fst retried) = true /\
  read (raw_path [1]) (fs (snd retried)) = Some [2].
Proof. split; [by vm_compute|]. split; by vm_compute. Qed.

(** The journal of an operation ends in a torn record when its writer died in an append. *)
Definition torn_journal : world :=
  on_fs (fun d => append (journal_path here op1) (take 5 (framed_record (BLAKE := list Z) (encode (Published at1))))
                    (create (journal_path here op1) d)) (boot 7).

(** An attempt of the same operation started before a recovery appends its [begin] behind the
    tear, where replay never looks: the complete staged object is not resumed but swept. *)
Definition begun_behind_tear : world :=
  snd ((_ ← begin_attempt (BLAKE := list Z) here op1 at1 (toy_id [1]);
        stream_to_staging (SHA := list Z) (BLAKE := list Z) staged1 [[1]] no_limits) torn_journal).

Definition recovered_behind_tear : result PutError RecoveryReport * world :=
  recover_operations (SHA := list Z) (BLAKE := list Z) here FULL begun_behind_tear.

Theorem begin_behind_tear_lost :
  read staged1 (fs begun_behind_tear) = Some [1] /\
  fst recovered_behind_tear = Ok {| resolved := []; torn_journals := [op1]; retired_journals := [op1] |} /\
  read staged1 (fs (snd recovered_behind_tear)) = None /\
  read (raw_path [1]) (fs (snd recovered_behind_tear)) = None.
Proof. split; [by vm_compute|]. split; [by vm_compute|]. split; by vm_compute. Qed.

(** A crash that loses one entry that is not on disk, and nothing else. *)
Lemma lose_crash p i d : names d !! p = Some (i, false) -> crash d (settle (remove_file p d)).
Proof.
  intros Hp. pose proof (settle_crash (remove_file p d)) as [F1 F2 N1 N2 N3 I1 I2 X]. cbn in *.
  constructor; [done|done| | | |done|done|done].
  - intros q j b Hq. destruct (N1 q j b Hq) as (-> & c & Hc). split; [done|].
    apply lookup_delete_Some in Hc as [_ Hc]. by exists c.
  - intros q j Hq Hd. apply N2; [|done]. rewrite lookup_delete_ne; [done|]. intros <-. congruence.
  - intros q dir b Hd Hn. by apply (N3 q dir b).
Qed.

Definition begun : world :=
  snd ((_ ← begin_attempt (BLAKE := list Z) here op1 at1 (toy_id [1]);
        stream_to_staging (SHA := list Z) (BLAKE := list Z) staged1 [[1]] no_limits) (boot 7)).

Definition journal_lost : world := restart (settle (remove_file (journal_path here op1) (fs begun))) 8 begun.

Definition recovered_without_journal : result PutError RecoveryReport * world :=
  recover_operations (SHA := list Z) (BLAKE := list Z) here FULL journal_lost.

(** The [begin] record is synced, the directory entry of its journal is not: a crash may lose
    the journal and keep the staged bytes it announced, and recovery leaves those for good. *)
Theorem unsynced_journal_lost :
  crash (fs begun) (fs journal_lost) /\ read staged1 (fs journal_lost) = Some [1] /\
  fst recovered_without_journal = Ok report_default /\
  read staged1 (fs (snd recovered_without_journal)) = Some [1].
Proof.
  split; [|split; [by vm_compute|]; split; by vm_compute].
  change (fs journal_lost) with (settle (remove_file (journal_path here op1) (fs begun))).
  assert (Hn : names (fs begun) !! journal_path here op1 = Some (0, false)) by (vm_compute; reflexivity).
  exact (lose_crash (journal_path here op1) 0 (fs begun) Hn).
Qed.

End RecoveryFacts.
