(* ===== verification/Sparse.v ===== *)
(** * Content-defined chunks and sparse transfers

    rabs-cas/src/chunking.rs: the gear-hash chunker and the check of a manifest's coverage.
    rabs-cas/src/sparse_writer.rs: the transfer of an object as ranges in any order, with its
    range journal, resumption and completion, over the disk of Blobs.v and the journal frames
    of Journal.v.

    Shown: chunks tile the object, within the sizes of the profile, and cutting is local: what
    follows a cut does not depend on what precedes it.  The gaps a transfer reports are exactly
    what is not recorded, also after it is resumed from its journal, and when there are none
    the staged file is the object and is published as such.

    Sizes and offsets are within the object, so their sums do not overflow. *)

From stdpp Require Import base gmap list strings sorting.
From Stdlib Require Import ZArith Lia.
From S2P Require Import Prelude Bytes Text Numerals Manifest Digest Pack Store Ledger Blobs Journal Durability.
Import ResultIdentity DigestSet Pack Store Ledger Disk BlobStore JournalFrames Journal.

Module Chunking.

Record ChunkingProfile := {
  profile_version : Z;
  min_size : nat;
  mask_bits : Z;
  max_size : nat;
  gear_seed : Z;
}.

Definition PROFILE_V1 : ChunkingProfile :=
  {| profile_version := 1; min_size := 16 * 1024; mask_bits := 16; max_size := 256 * 1024;
     gear_seed := 0x9e3779b97f4a7c15 |}.

Record ChunkSpan := { offset : nat; length_ : nat }.

Record ChunkManifest := { m_profile_version : Z; spans : list ChunkSpan }.

(** splitmix64. *)
Fixpoint gear_entries (n : nat) (state : Z) : list Z :=
  match n with
  | O => []
  | S n =>
      let state := wadd 64 state 0x9e3779b97f4a7c15 in
      let z := wmul 64 (Z.lxor state (Z.shiftr state 30)) 0xbf58476d1ce4e5b9 in
      let z := wmul 64 (Z.lxor z (Z.shiftr z 27)) 0x94d049bb133111eb in
      Z.lxor z (Z.shiftr z 31) :: gear_entries n state
  end.

Definition gear_table (seed : Z) : list Z := gear_entries 256 seed.

(** The scan of a window from its byte [i] on: where it cuts. *)
Fixpoint find_cut (table : list Z) (mask : Z) (min : nat) (i : nat) (hash : Z) (window : list Z) : option nat :=
  match window with
  | [] => None
  | byte :: window =>
      let hash := wadd 64 (wrap 64 (Z.shiftl hash 1)) (nth (Z.to_nat byte) table 0) in
      if (min <=? i)%nat && (Z.land hash mask =? 0) then Some (S i)
      else find_cut table mask min (S i) hash window
  end.

Definition cut_length (p : ChunkingProfile) (table : list Z) (data : list Z) : nat :=
  let window := Nat.min (length data) (max_size p) in
  default window (find_cut table (Z.shiftl 1 (mask_bits p) - 1) (min_size p) 0 0 (take window data)).

(** The loop; [data] is what lies at [start] and beyond.  [None]: out of fuel. *)
Fixpoint chunk_from (fuel : nat) (p : ChunkingProfile) (table : list Z) (start : nat) (data : list Z) :
    option (list ChunkSpan) :=
  match data with
  | [] => Some []
  | _ =>
      match fuel with
      | O => None
      | S fuel =>
          if (length data <=? min_size p)%nat then Some [{| offset := start; length_ := length data |}]
          else
            let cut := cut_length p table data in
            cons {| offset := start; length_ := cut |}
              <$> chunk_from fuel p table (start + cut) (drop cut data)
      end
  end.

Definition chunk (data : list Z) (p : ChunkingProfile) : option ChunkManifest :=
  (fun ss => {| m_profile_version := profile_version p; spans := ss |})
    <$> chunk_from (length data) p (gear_table (gear_seed p)) 0 data.

Fixpoint coverage (expected : nat) (ss : list ChunkSpan) (object_len : nat) : result string unit :=
  match ss with
  | [] => if (expected =? object_len)%nat then Ok tt else Err "spans do not cover the object length"%string
  | s :: ss =>
      if negb (offset s =? expected)%nat then Err "spans must tile the object contiguously"%string
      else if (length_ s =? 0)%nat then Err "zero-length span"%string
      else coverage (expected + length_ s) ss object_len
  end.

Definition validate_coverage (m : ChunkManifest) (object_len : nat) : result string unit :=
  coverage 0 (spans m) object_len.

(** ** Chunks *)

Lemma find_cut_range table mask min i hash window c :
  find_cut table mask min i hash window = Some c -> (min < c)%nat /\ (i < c <= i + length window)%nat.
Proof.
  revert i hash. induction window as [|b window IH]; intros i hash; cbn [find_cut length]; [done|].
  destruct (_ && _) eqn:Hc.
  - intros [= <-]. apply andb_true_iff in Hc as [Hm _]. apply Nat.leb_le in Hm. lia.
  - intros Hf%IH. lia.
Qed.

(** A cut is at least one byte, at most the maximum, and more than the minimum where the
    data allow it. *)
Lemma cut_range p table data :
  (0 < max_size p)%nat -> (min_size p < length data)%nat ->
  (0 < cut_length p table data <= Nat.min (length data) (max_size p))%nat /\
  ((min_size p < max_size p)%nat -> (min_size p < cut_length p table data)%nat).
Proof.
  intros Hmax Hlen. unfold cut_length. set (w := Nat.min (length data) (max_size p)).
  destruct (find_cut _ _ _ _ _ _) as [c|] eqn:Hf; cbn [default from_option]; unfold id.
  - apply find_cut_range in Hf. rewrite length_take in Hf. lia.
  - lia.
Qed.

Lemma chunk_from_step fuel p table start data :
  data <> [] ->
  chunk_from (S fuel) p table start data
  = if (length data <=? min_size p)%nat then Some [{| offset := start; length_ := length data |}]
    else cons {| offset := start; length_ := cut_length p table data |}
           <$> chunk_from fuel p table (start + cut_length p table data) (drop (cut_length p table data) data).
Proof. by destruct data. Qed.

(** The spans of a suffix: they tile it, and all but the last are more than the minimum. *)
Lemma chunk_from_spec fuel p table start data :
  (0 < max_size p)%nat -> (length data <= fuel)%nat ->
  exists ss, chunk_from fuel p table start data = Some ss /\
    coverage start ss (start + length data) = Ok tt /\
    Forall (fun s => (0 < length_ s <= Nat.max (min_size p) (max_size p))%nat) ss /\
    ((min_size p < max_size p)%nat -> forall l s s' l', ss = l ++ s :: s' :: l' -> (min_size p < length_ s)%nat).
Proof.
  intros Hmax. revert start data. induction fuel as [|fuel IH]; intros start data Hf.
  { destruct data; [|cbn in Hf; lia]. exists []. cbn. rewrite Nat.add_0_r, Nat.eqb_refl.
    split; [done|]. split; [done|]. split; [done|]. intros _ [|? ?] s s' l' E; by inversion E. }
  destruct (decide (data = [])) as [->|Hne].
  { exists []. cbn. rewrite Nat.add_0_r, Nat.eqb_refl.
    split; [done|]. split; [done|]. split; [done|]. intros _ [|? ?] s s' l' E; by inversion E. }
  rewrite chunk_from_step by done.
  assert (Hpos : (0 < length data)%nat) by (destruct data; [done|cbn; lia]).
  destruct (Nat.leb_spec (length data) (min_size p)) as [Hle|Hgt].
  - eexists. split; [done|]. cbn [coverage offset length_]. rewrite Nat.eqb_refl. cbn [negb].
    destruct (Nat.eqb_spec (length data) 0); [lia|]. rewrite Nat.eqb_refl. split; [done|].
    split; [repeat constructor; cbn; lia|]. intros _ [|? [|? ?]] s s' l' E; by inversion E.
  - destruct (cut_range p table data Hmax Hgt) as [Hc Hcm]. set (c := cut_length p table data) in *.
    destruct (IH (start + c)%nat (drop c data)) as (ss & -> & Hcov & Hall & Hbig); [rewrite length_drop; lia|].
    eexists. split; [done|]. cbn [coverage offset length_]. rewrite Nat.eqb_refl. cbn [negb].
    destruct (Nat.eqb_spec c 0); [lia|]. rewrite length_drop in Hcov.
    replace (start + c + (length data - c))%nat with (start + length data)%nat in Hcov by lia.
    split; [done|]. split; [constructor; [cbn; lia|done]|].
    intros Hmm [|s0 l] s s' l' E; injection E as <- E; [cbn; by apply Hcm|]. by apply (Hbig Hmm l s s' l').
Qed.

(** Chunking ends and is exact: under any profile with a positive maximum, the spans of
    any object tile it, none is empty or larger than the profile allows, and all but the last
    exceed the minimum. *)
Theorem chunks_tile data p :
  (0 < max_size p)%nat -> (min_size p < max_size p)%nat ->
  exists m, chunk data p = Some m /\ m_profile_version m = profile_version p /\
    validate_coverage m (length data) = Ok tt /\
    Forall (fun s => (0 < length_ s <= max_size p)%nat) (spans m) /\
    forall l s s' l', spans m = l ++ s :: s' :: l' -> (min_size p < length_ s)%nat.
Proof.
  intros Hmax Hmm. unfold chunk.
  destruct (chunk_from_spec (length data) p (gear_table (gear_seed p)) 0 data Hmax (Nat.le_refl _))
    as (ss & -> & Hcov & Hall & Hbig).
  eexists. split; [done|]. split; [done|]. split; [done|]. cbn. split; [|by apply Hbig].
  eapply Forall_impl; [exact Hall|]. cbn. intros s Hs. lia.
Qed.

Lemma chunks_tile_witness :
  exists m, chunk [1; 2; 3; 4; 5]
    {| profile_version := 2; min_size := 1; mask_bits := 1; max_size := 3; gear_seed := 0 |} = Some m /\
    validate_coverage m 5 = Ok tt.
Proof.
  destruct (chunks_tile [1; 2; 3; 4; 5]
    {| profile_version := 2; min_size := 1; mask_bits := 1; max_size := 3; gear_seed := 0 |})
    as (m & Hm & _ & Hc & _); [cbn; lia|cbn; lia|].
  exists m. split; [exact Hm|exact Hc].
Defined.

(** Moving a chunk. *)
Definition shift (d : nat) (s : ChunkSpan) : ChunkSpan := {| offset := d + offset s; length_ := length_ s |}.

Lemma chunk_from_shift fuel p table d start data :
  chunk_from fuel p table (d + start) data = (fun ss : list ChunkSpan => shift d <$> ss) <$> chunk_from fuel p table start data.
Proof.
  revert start data. induction fuel as [|fuel IH]; intros start [|b data]; try done.
  cbn [chunk_from]. destruct (_ <=? _)%nat; [done|].
  rewrite <- Nat.add_assoc, IH. by destruct (chunk_from fuel p table _ _).
Qed.

Lemma chunk_from_fuel fuel fuel' p table start data ss :
  chunk_from fuel p table start data = Some ss -> (fuel <= fuel')%nat -> chunk_from fuel' p table start data = Some ss.
Proof.
  revert fuel' start data ss. induction fuel as [|fuel IH]; intros [|fuel'] start [|b data] ss; cbn [chunk_from];
    try done; try lia. intros Hc Hf. destruct (_ <=? _)%nat; [done|].
  destruct (chunk_from fuel p table _ _) as [rest|] eqn:Hr; [|done].
  by rewrite (IH fuel' _ _ rest Hr) by lia.
Qed.

(** A cut after [prefix], and what follows it. *)
Lemma chunk_from_split fuel p table start data l s ss :
  chunk_from fuel p table start data = Some (l ++ s :: ss) ->
  exists n, chunk_from fuel p table (offset s) (drop n data) = Some (s :: ss) /\ offset s = (start + n)%nat.
Proof.
  revert start data l. induction fuel as [|fuel IH]; intros start data l Hc.
  { destruct data; cbn in Hc; [|done]. by destruct l. }
  destruct l as [|s0 l].
  - exists 0%nat. rewrite drop_0. assert (offset s = start) as ->; [|split; [done|lia]].
    destruct data as [|b data]; [done|]. cbn [chunk_from] in Hc. destruct (_ <=? _)%nat; [by injection Hc as <- _|].
    destruct (chunk_from _ _ _ _ _); [|done]. by injection Hc as <- _.
  - destruct (decide (data = [])) as [->|Hne]; [done|]. rewrite chunk_from_step in Hc by done.
    destruct (_ <=? _)%nat; [injection Hc as _ Hc; by destruct l|].
    destruct (chunk_from fuel _ _ _ _) as [rest|] eqn:Hr; [|done]. injection Hc as _ ->.
    destruct (IH _ _ _ Hr) as (n & Hn & Ho). exists (cut_length p table data + n)%nat.
    rewrite drop_drop in Hn. split; [|lia]. by apply (chunk_from_fuel fuel); [|lia].
Qed.

(** Cutting is local: once two objects have a cut at the start of the same rest, they are cut
    alike from there on, wherever in each object that is. *)
Theorem chunks_resynchronise a b p ma mb la sa ra lb sb rb :
  chunk a p = Some ma -> chunk b p = Some mb ->
  spans ma = la ++ sa :: ra -> spans mb = lb ++ sb :: rb ->
  drop (offset sa) a = drop (offset sb) b ->
  length_ <$> (sa :: ra) = length_ <$> (sb :: rb).
Proof.
  unfold chunk. intros Ha Hb Ea Eb Hd.
  destruct (chunk_from (length a) p _ 0 a) as [ssa|] eqn:Ca; [|done]. injection Ha as <-. cbn in Ea. subst ssa.
  destruct (chunk_from (length b) p _ 0 b) as [ssb|] eqn:Cb; [|done]. injection Hb as <-. cbn in Eb. subst ssb.
  destruct (chunk_from_split _ _ _ _ _ _ _ _ Ca) as (na & Ha & Hna).
  destruct (chunk_from_split _ _ _ _ _ _ _ _ Cb) as (nb & Hb & Hnb).
  cbn in Hna, Hnb. rewrite Hna in Hd, Ha. rewrite Hnb in Hd, Hb. rewrite Hd in Ha.
  set (f := Nat.max (length a) (length b)).
  apply (chunk_from_fuel _ f) in Ha; [|lia]. apply (chunk_from_fuel _ f) in Hb; [|lia].
  pose proof (chunk_from_shift f p (gear_table (gear_seed p)) na 0 (drop nb b)) as Sa.
  pose proof (chunk_from_shift f p (gear_table (gear_seed p)) nb 0 (drop nb b)) as Sb.
  rewrite Nat.add_0_r in Sa, Sb. rewrite Sa in Ha. rewrite Sb in Hb.
  destruct (chunk_from f p _ 0 (drop nb b)) as [base|]; [|done].
  apply (inj Some) in Ha, Hb. rewrite <- Ha, <- Hb, <- !list_fmap_compose. done.
Qed.

End Chunking.

Module Sparse.

Section sparse.
Context {SHA BLAKE : Type} `{Hasher SHA} `{Hasher BLAKE}.
Context (root : text).

Inductive SparseError :=
  | RangeOutOfBounds (offset length total : Z)
  | ZeroLengthRange (offset : Z)
  | RangeOverlap (offset length : Z)
  | Incomplete (missing : list (Z * Z))
  | RangeVerificationFailed (offset length : Z)
  | SparseDigestMismatch (declared computed : text)
  | Put (e : PutError).

Inductive RangeAck := Committed | DuplicateIdempotent.

Record SparseTransfer := {
  dir : text;
  file_path : text;
  range_journal : text;
  declared : TypedDigest;
  total : Z;
  recorded : list (Z * Z);
}.

Abbreviation sio := (method world SparseError).

(** [?] on a [PutError]. *)
Definition lift_put {A} (m : io A) : sio A := fun w =>
  match m w with
  | (Ok a, w) => (Ok a, w)
  | (Err e, w) => (Err (Put e), w)
  end.

Definition range_checksum (bytes : list Z) : text := hex (take 16 (blake3_hash (BLAKE := BLAKE) bytes)).

(** [set_len]. *)
Definition set_len (n : nat) (old : list Z) : list Z := take n old ++ replicate (n - length old) 0.

(** Seek and [write_all]. *)
Definition write_at (o : nat) (bytes old : list Z) : list Z :=
  take o (old ++ replicate (o - length old) 0) ++ bytes ++ drop (o + length bytes) old.

Definition transfer_of (op attempt : Z) (d : TypedDigest) (size : Z) (rs : list (Z * Z)) : SparseTransfer :=
  let a := attempt_dir root (u128_hex op) (u128_hex attempt) in
  {| dir := a; file_path := a ++ str_bytes "/object"; range_journal := a ++ str_bytes "/ranges.journal";
     declared := d; total := size; recorded := rs |}.

Definition open_journal : io unit := disk_op (create_dir (journals_dir root)).

Definition begin (op attempt : Z) (d : TypedDigest) (size : Z) : sio SparseTransfer :=
  let t := transfer_of op attempt d size [] in
  _ ← lift_put open_journal;
  _ ← lift_put (disk_op (fun d => create_dir (dir t) (create_dir (op_staging_dir root (u128_hex op)) d)));
  _ ← lift_put (disk_op (create (file_path t)));
  _ ← lift_put (disk_op (write_with (set_len (Z.to_nat size)) (file_path t)));
  _ ← lift_put (disk_op (sync_file (file_path t)));
  mret t.

Definition range_record (o l : Z) (checksum : text) : text :=
  str_bytes "range|" ++ show_u64 o ++ [BAR] ++ show_u64 l ++ [BAR] ++ checksum.

Definition decode_range_record (payload : list Z) : option (Z * Z * text) :=
  if negb (utf8_valid payload) then None
  else
    match split_at BAR payload with
    | [kind; o; l; checksum] =>
        if is_lit kind "range" then
          match parse_u 64 o, parse_u 64 l with
          | Some o, Some l => Some (o, l, checksum)
          | _, _ => None
          end
        else None
    | _ => None
    end.

(** The replay of [resume] against the bytes of the file. *)
Fixpoint verify_ranges (total : Z) (file : list Z) (payloads : list (list Z)) (rs : list (Z * Z)) (torn : bool) :
    result SparseError (list (Z * Z) * bool) :=
  match payloads with
  | [] => Ok (rs, torn)
  | payload :: payloads =>
      match decode_range_record payload with
      | None => Ok (rs, true)
      | Some (o, l, checksum) =>
          if negb (bool_decide (o + l < 2 ^ 64)) || (total <? o + l) then Ok (rs, true)
          else
            match get_range (Z.to_nat o) (Z.to_nat l) file with
            | None => Err (Put (Io "read-verify"))
            | Some bytes =>
                if bool_decide (range_checksum bytes = checksum)
                then verify_ranges total file payloads (rs ++ [(o, l)]) torn
                else Err (RangeVerificationFailed o l)
            end
      end
  end.

Definition with_recorded (rs : list (Z * Z)) (t : SparseTransfer) : SparseTransfer :=
  {| dir := dir t; file_path := file_path t; range_journal := range_journal t; declared := declared t;
     total := total t; recorded := rs |}.

Definition resume (op attempt : Z) (d : TypedDigest) (size : Z) : sio (SparseTransfer * bool) :=
  let t := transfer_of op attempt d size [] in
  _ ← lift_put open_journal;
  w ← get;
  match read (file_path t) (fs w) with
  | None => t ← begin op attempt d size; mret (t, false)
  | Some file =>
      let (payloads, torn) := replay_framed (BLAKE := BLAKE) (range_journal t) (fs w) in
      match verify_ranges size file payloads [] torn with
      | Err e => throw e
      | Ok (rs, torn) => mret (with_recorded rs t, torn)
      end
  end.

(** ** Ranges *)

Definition range_leb (a b : Z * Z) : bool := (fst a <? fst b) || ((fst a =? fst b) && (snd a <=? snd b)).

(** The loop of [merge_ranges]; [cur] is the last merged range. *)
Fixpoint merge_sorted (cur : Z * Z) (l : list (Z * Z)) : list (Z * Z) :=
  match l with
  | [] => [cur]
  | (o, n) :: l =>
      if fst cur + snd cur =? o then merge_sorted (fst cur, snd cur + n) l
      else cur :: merge_sorted (o, n) l
  end.

Definition merge_ranges (rs : list (Z * Z)) : list (Z * Z) :=
  match sort_by range_leb rs with
  | [] => []
  | r :: l => merge_sorted r l
  end.

Definition received (t : SparseTransfer) : list (Z * Z) := merge_ranges (recorded t).

Fixpoint gaps (cursor size : Z) (l : list (Z * Z)) : list (Z * Z) :=
  match l with
  | [] => if cursor <? size then [(cursor, size - cursor)] else []
  | (o, n) :: l => (if cursor <? o then [(cursor, o - cursor)] else []) ++ gaps (o + n) size l
  end.

Definition missing (t : SparseTransfer) : list (Z * Z) := gaps 0 (total t) (received t).

Definition overlaps (o l : Z) (r : Z * Z) : bool := (o <? fst r + snd r) && (fst r <? o + l).

Definition write_range (t : SparseTransfer) (o : Z) (bytes : list Z) : sio (RangeAck * SparseTransfer) :=
  let l := Z.of_nat (length bytes) in
  _ ← refuse_if (l =? 0) (ZeroLengthRange o);
  _ ← refuse_if (negb (bool_decide (o + l < 2 ^ 64)) || (total t <? o + l)) (RangeOutOfBounds o l (total t));
  if bool_decide ((o, l) ∈ recorded t) then mret (DuplicateIdempotent, t)
  else
    _ ← refuse_if (existsb (overlaps o l) (recorded t)) (RangeOverlap o l);
    w ← get;
    _ ← refuse_if (negb (exists_file (file_path t) (fs w))) (Put (Io "open-sparse-write"));
    _ ← lift_put (disk_op (write_with (write_at (Z.to_nat o) bytes) (file_path t)));
    _ ← lift_put (disk_op (sync_file (file_path t)));
    _ ← lift_put (append_framed (BLAKE := BLAKE) (range_journal t) (range_record o l (range_checksum bytes)));
    mret (Committed, with_recorded (recorded t ++ [(o, l)]) t).

Definition finish (t : SparseTransfer) (durability : DurabilityPolicy) : sio PutOutcome :=
  match missing t with
  | _ :: _ => throw (Incomplete (missing t))
  | [] =>
      computed ← lift_put (recompute_file_digest (SHA := SHA) (BLAKE := BLAKE) (file_path t));
      _ ← refuse_if (negb (bool_decide (computed = declared t)))
            (SparseDigestMismatch (digest_key (declared t)) (digest_key computed));
      outcome ← lift_put (publish_staged (SHA := SHA) root (declared t) (file_path t) durability);
      _ ← lift_put (disk_op (remove_dir_all (dir t)));
      mret outcome
  end.

End sparse.
End Sparse.

(** ** Gaps *)

Module SparseFacts.
Import BlobFacts Sparse.

Definition covers (l : list (Z * Z)) (p : Z) : Prop := exists o n, (o, n) ∈ l /\ o <= p < o + n.

Lemma covers_nil p : ~ covers [] p.
Proof. by intros (o & n & ?%elem_of_nil & _). Qed.

Lemma covers_cons o n l p : covers ((o, n) :: l) p <-> o <= p < o + n \/ covers l p.
Proof.
  split.
  - intros (o' & n' & [[= -> ->]|Hin]%elem_of_cons & Hp); [by left|]. right. by exists o', n'.
  - intros [Hp|(o' & n' & Hin & Hp)]; [exists o, n|exists o', n']; (split; [|done]); [by left|by right].
Qed.

Lemma covers_app l1 l2 p : covers (l1 ++ l2) p <-> covers l1 p \/ covers l2 p.
Proof.
  induction l1 as [|[o n] l1 IH]; cbn [app]; [pose proof (covers_nil p); tauto|]. rewrite !covers_cons, IH. tauto.
Qed.

(** Ranges in order, from [c] on, none empty, none overlapping the next. *)
Fixpoint ordered (c : Z) (l : list (Z * Z)) : Prop :=
  match l with
  | [] => True
  | (o, n) :: l => c <= o /\ 0 < n /\ ordered (o + n) l
  end.

Lemma ordered_low c l p : ordered c l -> covers l p -> c <= p.
Proof.
  revert c. induction l as [|[o n] l IH]; intros c Ho Hc; [by apply covers_nil in Hc|].
  destruct Ho as (Hco & Hn & Ho). apply covers_cons in Hc as [Hp|Hp]; [lia|]. specialize (IH _ Ho Hp). lia.
Qed.

Lemma gaps_spec c size l p :
  ordered c l -> (forall r, r ∈ l -> fst r + snd r <= size) -> 
  covers (gaps c size l) p <-> c <= p < size /\ ~ covers l p.
Proof.
  revert c. induction l as [|[o n] l IH]; intros c Ho Hs; cbn [gaps].
  - pose proof (covers_nil p). destruct (Z.ltb_spec c size); [rewrite covers_cons|]; intuition lia.
  - destruct Ho as (Hco & Hn & Ho). pose proof (Hs (o, n) ltac:(by left)) as Hon. cbn in Hon.
    rewrite covers_app, IH, covers_cons by (done || by intros r Hr; apply Hs; right).
    assert (Hlow : covers l p -> o + n <= p) by (intros Hc; by eapply ordered_low).
    assert (Hgap : covers (if c <? o then [(c, o - c)] else []) p <-> c <= p < o).
    { pose proof (covers_nil p). destruct (Z.ltb_spec c o); [rewrite covers_cons|]; intuition lia. }
    rewrite Hgap. split.
    + intros [Hp|[Hp Hnc]]; (split; [lia|]); intros [?|Hc]; [lia|specialize (Hlow Hc); lia|lia|done].
    + intros [Hp Hnc]. destruct (decide (p < o)); [left; lia|]. right. split; [|tauto].
      assert (~ (o <= p < o + n)) by tauto. lia.
Qed.

Lemma merge_spec cur l :
  ordered (fst cur) (cur :: l) ->
  ordered (fst cur) (merge_sorted cur l) /\
  (forall p, covers (merge_sorted cur l) p <-> covers (cur :: l) p) /\
  forall size, (forall r, r ∈ cur :: l -> fst r + snd r <= size) ->
    forall r, r ∈ merge_sorted cur l -> fst r + snd r <= size.
Proof.
  revert cur. induction l as [|[o n] l IH]; intros [o0 n0] Ho; cbn [merge_sorted fst snd]; [done|].
  destruct Ho as (_ & Hn0 & Ho0 & Hn & Ho). destruct (Z.eqb_spec (o0 + n0) o) as [He|Hne].
  - destruct (IH (o0, n0 + n)) as (H1 & H2 & H3); [cbn; replace (o0 + (n0 + n)) with (o + n) by lia; by split; [lia|split; [lia|]]|].
    split; [done|]. split.
    + intros p. rewrite H2, !covers_cons. intuition lia.
    + intros size Hs. apply H3. intros r [->|Hr]%elem_of_cons; [|by apply Hs; right; right].
      cbn. pose proof (Hs (o, n) ltac:(right; by left)) as Hsn. cbn in Hsn. lia.
  - destruct (IH (o, n)) as (H1 & H2 & H3); [by cbn; split; [lia|]|]. cbn in H1. split; [|split].
    + cbn. split; [lia|]. split; [done|]. destruct (merge_sorted (o, n) l) as [|[o1 n1] l1]; [done|].
      destruct H1 as (? & ? & ?). cbn. by split; [lia|].
    + intros p. rewrite !covers_cons, H2, covers_cons. tauto.
    + intros size Hs r [->|Hr]%elem_of_cons; [apply Hs; by left|]. apply H3; [|done].
      intros r' Hr'. apply Hs. by right.
Qed.

(** What a transfer has recorded. *)
Record valid (size : Z) (rs : list (Z * Z)) : Prop := {
  r_nodup : NoDup rs;
  r_within : forall o n, (o, n) ∈ rs -> 0 <= o /\ 0 < n /\ o + n <= size;
  r_apart : forall a b, a ∈ rs -> b ∈ rs -> a <> b -> fst a + snd a <= fst b \/ fst b + snd b <= fst a;
}.

Lemma range_leb_spec a b : range_leb a b = true <-> fst a < fst b \/ fst a = fst b /\ snd a <= snd b.
Proof. unfold range_leb. rewrite orb_true_iff, andb_true_iff. lia. Qed.

Lemma sorted_ordered c l :
  StronglySorted (fun a b => range_leb a b = true) l -> NoDup l ->
  (forall o n, (o, n) ∈ l -> c <= o /\ 0 < n) ->
  (forall a b, a ∈ l -> b ∈ l -> a <> b -> fst a + snd a <= fst b \/ fst b + snd b <= fst a) -> ordered c l.
Proof.
  intros Hs. revert c. induction Hs as [|[o n] l Hs IH Hall]; intros c Hnd Hw Ha; [done|].
  apply NoDup_cons in Hnd as [Hni Hnd]. destruct (Hw o n) as [Hc Hn]; [by left|].
  split; [done|]. split; [done|]. apply IH; [done| |intros a b Hina Hinb; apply Ha; by right].
  intros o' n' Hin. destruct (Hw o' n') as [_ Hn']; [by right|]. split; [|done].
  rewrite Forall_forall in Hall. specialize (Hall _ Hin). apply range_leb_spec in Hall. cbn in Hall.
  destruct (Ha (o, n) (o', n')) as [?|?]; [by left|by right|by intros [= -> ->]|done|cbn in *; lia].
Qed.

Lemma missing_spec t p :
  valid (total t) (recorded t) -> 0 <= total t ->
  covers (missing t) p <-> 0 <= p < total t /\ ~ covers (recorded t) p.
Proof.
  intros [Hnd Hw Ha] Ht. unfold missing, received, merge_ranges.
  set (srt := sort_by range_leb (recorded t)).
  assert (Hperm : srt ≡ₚ recorded t) by apply sort_by_perm.
  assert (Hcov : forall q, covers srt q <-> covers (recorded t) q)
    by (intros q; unfold covers; by setoid_rewrite Hperm).
  assert (Hord : ordered 0 srt).
  { apply sorted_ordered.
    - apply sort_by_sorted; intros x y; [intros z|]; rewrite !range_leb_spec; [lia|].
      rewrite <- not_true_iff_false, range_leb_spec. lia.
    - by rewrite Hperm.
    - intros o n Hin. rewrite Hperm in Hin. destruct (Hw o n Hin). lia.
    - intros a b. rewrite Hperm. apply Ha. }
  assert (Hsz : forall r, r ∈ srt -> fst r + snd r <= total t).
  { intros [o n] Hin. rewrite Hperm in Hin. by apply Hw. }
  rewrite <- Hcov. destruct srt as [|[o n] l]; [by rewrite gaps_spec by (done || by intros ? ?%elem_of_nil)|].
  destruct Hord as (Ho & Hn & Hl).
  destruct (merge_spec (o, n) l) as (H1 & H2 & H3); [by cbn; split; [lia|]|]. cbn in H1.
  rewrite gaps_spec, H2; [done| |by apply H3].
  destruct (merge_sorted (o, n) l) as [|[o1 n1] l1]; [done|]. destruct H1 as (? & ? & ?). cbn. by split; [lia|].
Qed.

Lemma missing_none t : 
  valid (total t) (recorded t) -> 0 <= total t -> missing t = [] ->
  forall p, 0 <= p < total t -> covers (recorded t) p.
Proof.
  intros Hv Ht Hm p Hp. pose proof (missing_spec t p Hv Ht) as Hs. rewrite Hm in Hs.
  destruct (decide (Exists (fun r => fst r <= p < fst r + snd r) (recorded t))) as [He|Hne].
  - apply Exists_exists in He as ([o n] & Hin & Hc). by exists o, n.
  - destruct (covers_nil p). apply Hs. split; [done|]. intros (o & n & Hin & Hc). destruct Hne.
    apply Exists_exists. by exists (o, n).
Qed.

(** ** Bytes *)

(** The file has the size of the object and agrees with it on the recorded ranges. *)
Definition agrees (file B : list Z) (rs : list (Z * Z)) : Prop :=
  length file = length B /\ forall p : nat, covers rs (Z.of_nat p) -> file !! p = B !! p.

Lemma write_at_lookup o bytes old p :
  (o + length bytes <= length old)%nat ->
  write_at o bytes old !! p
  = if decide (o <= p < o + length bytes)%nat then bytes !! (p - o)%nat else old !! p.
Proof.
  intros Hl. unfold write_at. replace (o - length old)%nat with 0%nat by lia. cbn [replicate]. rewrite app_nil_r.
  assert (Ht : length (take o old) = o) by (rewrite length_take; lia).
  destruct (decide (p < o)%nat) as [Hlt|Hge].
  - rewrite decide_False by lia. rewrite lookup_app_l by lia. by rewrite lookup_take_lt.
  - rewrite lookup_app_r by lia. rewrite Ht. destruct (decide (p < o + length bytes)%nat) as [Hin|Hout].
    + rewrite decide_True by lia. by rewrite lookup_app_l by lia.
    + rewrite decide_False by lia. rewrite lookup_app_r by lia. rewrite lookup_drop. f_equal. lia.
Qed.

Lemma write_at_length o bytes old :
  (o + length bytes <= length old)%nat -> length (write_at o bytes old) = length old.
Proof.
  intros Hl. unfold write_at. replace (o - length old)%nat with 0%nat by lia. cbn [replicate]. rewrite app_nil_r.
  rewrite !length_app, length_take, length_drop. lia.
Qed.

(** The bytes sent for a range are those of the object. *)
Definition slice (B : list Z) (o : Z) (bytes : list Z) : Prop :=
  0 <= o /\ (o + Z.of_nat (length bytes) <= Z.of_nat (length B) ->
             get_range (Z.to_nat o) (length bytes) B = Some bytes).

Lemma get_range_lookup o l B bytes i :
  get_range o l B = Some bytes -> (i < l)%nat -> bytes !! i = B !! (o + i)%nat.
Proof.
  unfold get_range. destruct (decide _); [|done]. intros [= <-] Hi. by rewrite lookup_take_lt, lookup_drop by done.
Qed.

Lemma agrees_write file B rs o bytes :
  agrees file B rs -> 0 <= o -> o + Z.of_nat (length bytes) <= Z.of_nat (length B) ->
  get_range (Z.to_nat o) (length bytes) B = Some bytes ->
  agrees (write_at (Z.to_nat o) bytes file) B (rs ++ [(o, Z.of_nat (length bytes))]).
Proof.
  intros [Hl Hag] Ho Hb Hg. split; [rewrite write_at_length by lia; done|]. intros p Hc.
  rewrite write_at_lookup by lia. destruct (decide _) as [Hin|Hout].
  - rewrite (get_range_lookup _ _ _ _ _ Hg) by lia. f_equal. lia.
  - apply Hag. apply covers_app in Hc as [Hc|Hc]; [done|]. apply covers_cons in Hc as [Hc|Hc]; [lia|].
    by apply covers_nil in Hc.
Qed.

Lemma agrees_complete file B rs :
  agrees file B rs -> (forall p, 0 <= p < Z.of_nat (length B) -> covers rs p) -> file = B.
Proof.
  intros [Hl Hag] Hall. apply list_eq. intros p. destruct (decide (p < length B)%nat) as [Hp|Hp].
  - apply Hag, Hall. lia.
  - by rewrite !(proj2 (lookup_ge_None _ _)) by lia.
Qed.

(** ** The journal of ranges *)

Section transfer.
Context {SHA BLAKE : Type} `{Hasher SHA} `{Hasher BLAKE}.
Context (sha blk : list Z -> list Z) `{!HasherLaw SHA sha} `{!HasherLaw BLAKE blk}.

Lemma hex_no_bar bs : all_bytes bs -> Forall (fun b => b <> BAR) (hex bs).
Proof.
  intros Hb. induction Hb as [|b bs Hb _ IH]; [constructor|]. unfold hex in *. rewrite fmap_cons. cbn [concat].
  unfold is_byte in Hb. assert (0 <= b / 16 < 16) by (split; [apply Z.div_pos; lia|apply Z.div_lt_upper_bound; lia]).
  pose proof (Z.mod_pos_bound b 16). apply Forall_app. split; [|done]. unfold hex_nibble, BAR.
  repeat constructor; case_match; lia.
Qed.

Lemma digits_no_bar v : Forall (fun b => b <> BAR) (show_u64 v).
Proof.
  eapply Forall_impl; [apply show_u64_digits|]. intros b Hb. unfold is_ascii_digit in Hb. unfold BAR. lia.
Qed.

Lemma checksum_bytes bytes : all_bytes (take 16 (blake3_hash (BLAKE := BLAKE) bytes)).
Proof.
  unfold blake3_hash. pose proof (h_chunks (hash := blk) [bytes]) as Hc. cbn in Hc. rewrite Hc.
  apply Forall_take, (h_bytes (hash := blk)).
Qed.

Lemma record_ascii o l bytes :
  Forall (fun b => 0 <= b < 128) (range_record o l (range_checksum (BLAKE := BLAKE) bytes)).
Proof.
  assert (Hd : forall v, Forall (fun b => 0 <= b < 128) (show_u64 v)).
  { intros v. eapply Forall_impl; [apply show_u64_digits|]. intros b Hb. unfold is_ascii_digit in Hb. lia. }
  assert (Hb : Forall (fun b => 0 <= b < 128) [BAR]) by (repeat constructor; unfold BAR; lia).
  assert (Hr : Forall (fun b => 0 <= b < 128) (str_bytes "range|")) by (cbn; repeat constructor; lia).
  unfold range_record. apply Forall_app. split; [done|]. apply Forall_app. split; [done|].
  apply Forall_app. split; [done|]. apply Forall_app. split; [done|]. apply Forall_app. split; [done|].
  unfold range_checksum. apply hex_ascii, checksum_bytes.
Qed.

Lemma decode_record o l bytes :
  is_u64 o -> is_u64 l ->
  decode_range_record (range_record o l (range_checksum (BLAKE := BLAKE) bytes))
  = Some (o, l, range_checksum (BLAKE := BLAKE) bytes).
Proof.
  intros Ho Hl. unfold decode_range_record. rewrite (ascii_valid _ (record_ascii o l bytes)). cbn [negb].
  unfold range_record. change (str_bytes "range|" ++ ?x) with (str_bytes "range" ++ BAR :: x).
  rewrite split_at_cons by (vm_compute; repeat constructor; done). cbn [app].
  rewrite split_at_cons by apply digits_no_bar. rewrite split_at_cons by apply digits_no_bar.
  rewrite split_at_last by apply hex_no_bar, checksum_bytes. cbn [is_lit].
  by rewrite !parse_show by (done || lia).
Qed.

(** The journal of a transfer of [B] that has recorded [rs]. *)
Definition part (B : list Z) (r : Z * Z) : list Z := take (Z.to_nat (snd r)) (drop (Z.to_nat (fst r)) B).
Definition entry (B : list Z) (r : Z * Z) : list Z :=
  range_record (fst r) (snd r) (range_checksum (BLAKE := BLAKE) (part B r)).
Definition journal_bytes (B : list Z) (rs : list (Z * Z)) : list Z :=
  concat (framed_record (BLAKE := BLAKE) <$> (entry B <$> rs)).

(** A transfer of [B] on its disk. *)
Record holding (B : list Z) (t : SparseTransfer) (d : disk) : Prop := {
  h_valid : valid (total t) (recorded t);
  h_total : total t = Z.of_nat (length B);
  h_size : total t < 2 ^ 64;
  h_file : exists bs, read (file_path t) d = Some bs /\ agrees bs B (recorded t);
  h_journal : match read (range_journal t) d with
              | Some jb => jb = journal_bytes B (recorded t)
              | None => names d !! range_journal t = None /\ recorded t = []
              end;
  h_apart : inode_of (file_path t) d <> inode_of (range_journal t) d;
  h_numbers : forall p i, inode_of p d = Some i -> i < next_inode d;
}.

Lemma open_append_spec B t d :
  holding B t d ->
  let d' := open_append (range_journal t) d in
  read (range_journal t) d' = Some (journal_bytes B (recorded t)) /\
  read (file_path t) d' = read (file_path t) d /\
  inode_of (file_path t) d' <> inode_of (range_journal t) d' /\
  (forall p i, inode_of p d' = Some i -> i < next_inode d').
Proof.
  intros Hh. pose proof (h_journal _ _ _ Hh) as Hj. pose proof (h_apart _ _ _ Hh) as Ha.
  destruct (h_file _ _ _ Hh) as (bs & Hf & _). pose proof (h_numbers _ _ _ Hh) as Hn.
  unfold open_append, exists_file. destruct (read (range_journal t) d) as [jb|] eqn:Hr.
  - assert (is_Some (names d !! range_journal t)).
    { unfold read, inode_of in Hr. by destruct (names d !! range_journal t). }
    rewrite bool_decide_eq_true_2 by done. rewrite Hr. by subst.
  - destruct Hj as [Hnone Hrec]. rewrite bool_decide_eq_false_2 by (by rewrite Hnone; intros []).
    unfold create. rewrite Hnone. assert (Hne : range_journal t <> file_path t).
    { intros E. rewrite E in Hr. congruence. }
    unfold read, inode_of in *. cbn. rewrite lookup_insert_eq, lookup_insert_ne by done. cbn.
    rewrite lookup_insert_eq. destruct (names d !! file_path t) as [[i b]|] eqn:Hni; [|done]. cbn in *.
    assert (Hi : i < next_inode d) by (apply (Hn (file_path t)); by rewrite Hni).
    split; [by rewrite Hrec|]. split; [by rewrite lookup_insert_ne by lia|]. split; [intros [=]; lia|].
    intros p k. destruct (decide (range_journal t = p)) as [<-|Hp].
    + rewrite lookup_insert_eq. intros [= <-]. lia.
    + rewrite lookup_insert_ne by done. intros Hk%Hn. lia.
Qed.

(** A range that is neither recorded nor overlaps one can be recorded. *)
Lemma valid_snoc size rs o l :
  valid size rs -> 0 <= o -> 0 < l -> o + l <= size -> existsb (overlaps o l) rs = false -> valid size (rs ++ [(o, l)]).
Proof.
  intros [Hnd Hw Ha] Ho Hl Hs Hov.
  assert (Hap : forall r, r ∈ rs -> fst r + snd r <= o \/ o + l <= fst r).
  { intros r Hr. apply not_true_iff_false in Hov. destruct (overlaps o l r) eqn:E.
    - destruct Hov. apply existsb_exists. exists r. split; [by apply list_elem_of_In|done].
    - unfold overlaps in E. apply andb_false_iff in E. lia. }
  assert (Hpos : forall r, r ∈ rs -> 0 < snd r) by (intros [o' n'] Hr; destruct (Hw o' n' Hr); cbn; lia).
  constructor.
  - apply NoDup_app. split; [done|]. split; [|apply NoDup_singleton]. intros r Hr ->%list_elem_of_singleton.
    specialize (Hap _ Hr). specialize (Hpos _ Hr). cbn in *. lia.
  - intros o' n' [Hr|[= -> ->]%list_elem_of_singleton]%elem_of_app; [by apply Hw|lia].
  - intros a b [Ha'| ->%list_elem_of_singleton]%elem_of_app [Hb'| ->%list_elem_of_singleton]%elem_of_app Hne; cbn.
    + by apply Ha.
    + by apply Hap.
    + specialize (Hap _ Hb'). lia.
    + done.
Qed.

Lemma part_slice B o bytes :
  get_range (Z.to_nat o) (length bytes) B = Some bytes -> part B (o, Z.of_nat (length bytes)) = bytes.
Proof. unfold get_range, part. cbn. rewrite Nat2Z.id. destruct (decide _); [|done]. by intros [= ->]. Qed.

Lemma write_range_holding B t w o bytes :
  holding B t (fs w) -> slice B o bytes ->
  match write_range (BLAKE := BLAKE) t o bytes w with
  | (Ok (_, t'), w') => holding B t' (fs w')
  | (Err _, w') => w' = w
  end.
Proof.
  intros Hh [Ho Hsl]. pose proof Hh as [Hv Ht Hz (bs & Hf & Hag) _ _ _].
  unfold write_range. set (l := Z.of_nat (length bytes)). unmonad. unfold refuse_if.
  destruct (Z.eqb_spec l 0) as [|Hl]; [done|]. cbn.
  destruct (Z.ltb_spec (total t) (o + l)) as [|Hin]; [by rewrite orb_true_r|].
  rewrite bool_decide_eq_true_2 by lia. cbn.
  destruct (bool_decide ((o, l) ∈ recorded t)); [done|].
  destruct (existsb (overlaps o l) (recorded t)) eqn:Hov; [done|]. cbn.
  assert (Hex : exists_file (file_path t) (fs w) = true).
  { unfold exists_file. apply bool_decide_eq_true. unfold read, inode_of in Hf.
    by destruct (names (fs w) !! file_path t). }
  rewrite Hex. cbn. specialize (Hsl ltac:(fold l; lia)).
  set (d2 := sync_file (file_path t) (write_with (write_at (Z.to_nat o) bytes) (file_path t) (fs w))).
  assert (Hh2 : holding B t d2).
  { constructor; try done; unfold d2.
    - exists (write_at (Z.to_nat o) bytes bs). rewrite read_sync, read_write_same, Hf. split; [done|].
      pose proof (agrees_write bs B (recorded t) o bytes Hag Ho ltac:(fold l; lia) Hsl) as [Hl1 Hl2].
      split; [done|]. intros p Hc. apply Hl2, covers_app. by left.
    - rewrite read_sync, read_write_other, sync_file_names, write_with_names by apply (h_apart _ _ _ Hh).
      apply (h_journal _ _ _ Hh).
    - rewrite !inode_of_sync, !inode_of_write. apply (h_apart _ _ _ Hh).
    - intros p i. rewrite inode_of_sync, inode_of_write. intros Hi%(h_numbers _ _ _ Hh).
      by rewrite sync_file_next, write_with_next. }
  destruct (open_append_spec B t d2 Hh2) as (Hj3 & Hf3 & Ha3 & Hn3).
  set (d3 := open_append (range_journal t) d2) in *.
  change (holding B (with_recorded (recorded t ++ [(o, l)]) t)
    (sync_file (range_journal t) (append (range_journal t)
       (framed_record (BLAKE := BLAKE) (range_record o l (range_checksum (BLAKE := BLAKE) bytes))) d3))).
  constructor; cbn [total recorded with_recorded file_path range_journal].
  - apply valid_snoc; [done|done|lia|lia|done].
  - done.
  - done.
  - exists (write_at (Z.to_nat o) bytes bs). rewrite read_sync. unfold append. rewrite read_write_other by done.
    rewrite Hf3. unfold d2. rewrite read_sync, read_write_same, Hf. split; [done|].
    apply agrees_write; [done|done|fold l; lia|done].
  - rewrite read_sync. unfold append. rewrite read_write_same, Hj3. cbn [fmap option_fmap option_map].
    unfold journal_bytes. rewrite !fmap_app, concat_app. cbn [fmap list_fmap concat].
    rewrite app_nil_r. unfold entry at 3. cbn [fst snd]. unfold l. by rewrite (part_slice B o bytes Hsl).
  - rewrite !inode_of_sync. unfold append. by rewrite !inode_of_write.
  - intros p i. rewrite inode_of_sync. unfold append. rewrite inode_of_write. intros Hi%Hn3.
    by rewrite sync_file_next, write_with_next.
Qed.

(** ** Resumption *)

Lemma show_digits_length n v : (length (show_digits n v) <= n)%nat.
Proof.
  revert v. induction n as [|n IH]; intros v; [done|]. cbn [show_digits]. rewrite length_app.
  specialize (IH (v / 10)). destruct (_ <? _); cbn; lia.
Qed.

Lemma entry_fits B r : JournalFacts.fits (entry B r).
Proof.
  assert (Hlen : (length (entry B r) <= 80)%nat).
  { unfold entry, range_record, range_checksum. rewrite !length_app, hex_length, length_take.
    pose proof (show_digits_length 20 (fst r)). pose proof (show_digits_length 20 (snd r)). cbn [length] in *.
    change (length (str_bytes "range|")) with 6%nat. unfold show_u64. lia. }
  unfold JournalFacts.fits. lia.
Qed.

Lemma agrees_trans a b c rs : agrees a b rs -> agrees b c rs -> agrees a c rs.
Proof. intros [Hl Ha] [Hl' Ha']. split; [congruence|]. intros p Hp. by rewrite Ha, Ha'. Qed.

Lemma agrees_part file B rs o l :
  agrees file B rs -> (o, l) ∈ rs -> 0 <= o -> 0 <= l -> o + l <= Z.of_nat (length B) ->
  get_range (Z.to_nat o) (Z.to_nat l) file = Some (part B (o, l)).
Proof.
  intros [Hlen Hag] Hin Ho Hl Hb. unfold get_range. rewrite decide_True by lia. f_equal. unfold part. cbn.
  apply list_eq. intros i. destruct (decide (i < Z.to_nat l)%nat) as [Hi|Hi].
  - rewrite !lookup_take_lt, !lookup_drop by done. apply Hag. exists o, l. split; [done|]. lia.
  - rewrite !(proj2 (lookup_ge_None _ _)); rewrite ?length_take; lia || done.
Qed.

Lemma verify_holding file B size all rs acc torn :
  agrees file B all -> valid size all -> size = Z.of_nat (length B) -> size < 2 ^ 64 ->
  (forall r, r ∈ rs -> r ∈ all) ->
  verify_ranges (BLAKE := BLAKE) size file (entry B <$> rs) acc torn = Ok (acc ++ rs, torn).
Proof.
  intros Hag Hv Hs Hz. revert acc. induction rs as [|[o l] rs IH]; intros acc Hin; cbn [fmap list_fmap verify_ranges].
  { by rewrite app_nil_r. }
  destruct (r_within _ _ Hv o l) as (Ho & Hl & Hol); [apply Hin; by left|].
  unfold entry at 1. cbn [fst snd]. rewrite decode_record by (unfold in_u; lia).
  rewrite bool_decide_eq_true_2 by lia. destruct (Z.ltb_spec size (o + l)); [lia|]. cbn [negb orb].
  rewrite (agrees_part file B all) by (done || lia || (apply Hin; by left)).
  rewrite bool_decide_eq_true_2 by done. rewrite IH by (intros r Hr; apply Hin; by right).
  by rewrite <- app_assoc.
Qed.

Context (root : text).

(** Resuming a transfer whose journal holds its records and any proper prefix of one more. *)
Lemma resume_recorded B op a dg rs w bs q n :
  let t := transfer_of root op a dg (Z.of_nat (length B)) rs in
  valid (total t) rs -> total t < 2 ^ 64 -> read (file_path t) (fs w) = Some bs -> agrees bs B rs ->
  JournalFacts.fits q -> (n < length (framed_record (BLAKE := BLAKE) q))%nat ->
  default [] (read (range_journal t) (fs w)) = journal_bytes B rs ++ take n (framed_record (BLAKE := BLAKE) q) ->
  exists w', resume (BLAKE := BLAKE) root op a dg (Z.of_nat (length B)) w = (Ok (t, negb (n =? 0)%nat), w').
Proof.
  intros t Hv Hz Hf Hag Hq Hn Hj. unfold resume, lift_put, open_journal, disk_op, modify. unmonad. cbn [fst snd].
  cbn [fs on_fs]. rewrite create_dir_read. change (file_path (transfer_of root op a dg _ [])) with (file_path t).
  rewrite Hf. unfold replay_framed. rewrite create_dir_read.
  change (range_journal (transfer_of root op a dg _ [])) with (range_journal t).
  assert (Hrep : match read (range_journal t) (fs w) with
                 | None => ([], false)
                 | Some bs => replay_bytes (BLAKE := BLAKE) (length bs) bs
                 end = (entry B <$> rs, negb (n =? 0)%nat)).
  { assert (Hall : forall jb, jb = journal_bytes B rs ++ take n (framed_record (BLAKE := BLAKE) q) ->
      replay_bytes (BLAKE := BLAKE) (length jb) jb = (entry B <$> rs, negb (n =? 0)%nat)).
    { intros jb ->. unfold journal_bytes.
      rewrite (JournalFacts.replay_app blk), (JournalFacts.replay_torn blk), app_nil_r; try done.
      apply Forall_fmap, Forall_forall. intros r _. apply entry_fits. }
    destruct (read (range_journal t) (fs w)) as [jb|]; [by apply Hall|]. cbn in Hj.
    rewrite <- (Hall [] Hj). done. }
  rewrite Hrep. rewrite (verify_holding bs B _ rs rs) by done. by eexists.
Qed.

Lemma begin_holding B op a dg w :
  let t := transfer_of root op a dg (Z.of_nat (length B)) [] in
  Z.of_nat (length B) < 2 ^ 64 -> names (fs w) !! file_path t = None -> names (fs w) !! range_journal t = None ->
  (forall p i, inode_of p (fs w) = Some i -> i < next_inode (fs w)) ->
  exists w', begin root op a dg (Z.of_nat (length B)) w = (Ok t, w') /\ holding B t (fs w').
Proof.
  intros t Hz Hf Hj Hn. eexists. split; [done|]. cbn [fs on_fs]. fold t.
  set (d0 := create_dir (dir t) _).
  assert (Hd0 : names d0 = names (fs w) /\ next_inode d0 = next_inode (fs w)).
  { unfold d0. destruct (create_dir_disk (dir t) (create_dir (op_staging_dir root (u128_hex op)) (create_dir (journals_dir root) (fs w)))) as (-> & _ & ->).
    destruct (create_dir_disk (op_staging_dir root (u128_hex op)) (create_dir (journals_dir root) (fs w))) as (-> & _ & ->).
    destruct (create_dir_disk (journals_dir root) (fs w)) as (-> & _ & ->). done. }
  destruct Hd0 as [Hnm Hnx].
  assert (Hne : file_path t <> range_journal t).
  { unfold t. cbn. intros E. by apply app_inv_head in E. }
  assert (Hc : names (create (file_path t) d0) = <[file_path t := (next_inode d0, false)]> (names d0) /\
    next_inode (create (file_path t) d0) = next_inode d0 + 1 /\ read (file_path t) (create (file_path t) d0) = Some []).
  { unfold create, read, inode_of. rewrite Hnm, Hf. cbn. rewrite lookup_insert_eq. cbn. by rewrite lookup_insert_eq. }
  destruct Hc as (Hc1 & Hc2 & Hc3). set (d1 := create (file_path t) d0) in *.
  set (dd := sync_file _ _).
  assert (Hino : forall p, inode_of p dd = inode_of p d1)
    by (intros p; unfold dd; by rewrite inode_of_sync, inode_of_write).
  assert (Hnone : names dd !! range_journal t = None).
  { unfold dd. rewrite sync_file_names, write_with_names, Hc1, lookup_insert_ne, Hnm by done. done. }
  constructor; cbn [total recorded transfer_of].
  - constructor; [constructor|by intros o n ?%elem_of_nil|by intros x y ?%elem_of_nil].
  - done.
  - done.
  - exists (set_len (Z.to_nat (Z.of_nat (length B))) []). split; [|split].
    + unfold dd. by rewrite read_sync, read_write_same, Hc3.
    + unfold set_len. rewrite take_nil. cbn. rewrite length_replicate. lia.
    + intros p Hp. by apply covers_nil in Hp.
  - unfold read, inode_of. rewrite Hnone. done.
  - rewrite !Hino. unfold inode_of. rewrite Hc1, lookup_insert_eq, lookup_insert_ne, Hnm, Hj by done. done.
  - intros p i. rewrite Hino. unfold dd. rewrite sync_file_next, write_with_next, Hc2. unfold inode_of. rewrite Hc1.
    destruct (decide (file_path t = p)) as [<-|Hp].
    + rewrite lookup_insert_eq. intros [= <-]. lia.
    + rewrite lookup_insert_ne, Hnm by done. intros Hi%(Hn p). lia.
Qed.

(** Ranges sent one after the other, whatever the answer to each. *)
Fixpoint send (t : SparseTransfer) (cs : list (Z * list Z)) (w : world) : SparseTransfer * world :=
  match cs with
  | [] => (t, w)
  | (o, bytes) :: cs =>
      match write_range (BLAKE := BLAKE) t o bytes w with
      | (Ok (_, t'), w') => send t' cs w'
      | (Err _, w') => send t cs w'
      end
  end.

Lemma send_holding B t cs w :
  holding B t (fs w) -> Forall (fun c => slice B (fst c) (snd c)) cs ->
  holding B (fst (send t cs w)) (fs (snd (send t cs w))) /\
  exists rs, fst (send t cs w) = with_recorded rs t.
Proof.
  intros Hh Hcs. revert t w Hh. induction Hcs as [|[o bytes] cs Hc _ IH]; intros t w Hh; cbn [send].
  { split; [done|]. exists (recorded t). by destruct t. }
  pose proof (write_range_holding B t w o bytes Hh Hc) as Hw.
  assert (Ht : forall a t' w', write_range (BLAKE := BLAKE) t o bytes w = (Ok (a, t'), w') -> exists rs, t' = with_recorded rs t).
  { intros a t' w'. unfold write_range. unmonad. unfold refuse_if. repeat case_match; try done; intros E; simplify_eq.
    all: try (eexists; done).
    all: match goal with |- exists _, ?x = _ => exists (recorded x); by destruct x end. }
  destruct (write_range t o bytes w) as [[[a t']|e] w'].
  - destruct (IH t' w' Hw) as [H1 [rs Hrs]]. split; [done|]. rewrite Hrs.
    destruct (Ht a t' w' eq_refl) as [rs' ->]. by exists rs.
  - subst. by apply IH.
Qed.

(** What a range sent for [B] asks of the transfer. *)
Definition range_of (c : Z * list Z) : Z * Z := (fst c, Z.of_nat (length (snd c))).

(** Two ranges are the same or share no byte. *)
Definition compatible (r r' : Z * Z) : Prop := r = r' \/ fst r + snd r <= fst r' \/ fst r' + snd r' <= fst r.

Lemma write_range_records B t w o bytes :
  holding B t (fs w) -> slice B o bytes -> bytes <> [] -> o + Z.of_nat (length bytes) <= total t ->
  (forall r, r ∈ recorded t -> compatible (range_of (o, bytes)) r) ->
  exists a t' w', write_range (BLAKE := BLAKE) t o bytes w = (Ok (a, t'), w') /\
    forall r, r ∈ recorded t' <-> r = range_of (o, bytes) \/ r ∈ recorded t.
Proof.
  intros Hh Hsl Hne Hin Hc. pose proof Hh as [Hv Ht Hz (bs & Hf & _) _ _ _].
  unfold write_range, range_of in *. cbn [fst snd] in *. set (l := Z.of_nat (length bytes)) in *.
  assert (Hl : 0 < l) by (destruct bytes; [done|unfold l; cbn; lia]).
  unmonad. unfold refuse_if. destruct (Z.eqb_spec l 0) as [|_]; [lia|]. cbn.
  destruct (Z.ltb_spec (total t) (o + l)) as [|_]; [lia|]. rewrite bool_decide_eq_true_2 by lia. cbn.
  case_bool_decide as Hmem.
  { exists DuplicateIdempotent, t, w. split; [done|]. intros r. split; [by right|]. intros [->|?]; done. }
  assert (Hov : existsb (overlaps o l) (recorded t) = false).
  { apply not_true_iff_false. intros ([o' n'] & Hr%list_elem_of_In & He)%existsb_exists. unfold overlaps in He.
    cbn in He. destruct (Hc _ Hr) as [[= <- <-]|Hd]; [done|]. cbn in Hd. lia. }
  rewrite Hov. cbn.
  assert (Hex : exists_file (file_path t) (fs w) = true).
  { unfold exists_file. apply bool_decide_eq_true. unfold read, inode_of in Hf.
    by destruct (names (fs w) !! file_path t). }
  rewrite Hex. cbn. eexists _, _, _. split; [done|]. intros r. cbn. rewrite elem_of_app, list_elem_of_singleton. tauto.
Qed.

(** Ranges that fit together are all recorded, in whatever order and however often they are sent. *)
Lemma send_records B t cs w :
  holding B t (fs w) -> Forall (fun c => slice B (fst c) (snd c)) cs ->
  Forall (fun c => snd c <> [] /\ fst c + Z.of_nat (length (snd c)) <= total t) cs ->
  (forall r r', r ∈ recorded t ++ (range_of <$> cs) -> r' ∈ recorded t ++ (range_of <$> cs) -> compatible r r') ->
  forall r, r ∈ recorded (fst (send t cs w)) <-> r ∈ recorded t \/ r ∈ range_of <$> cs.
Proof.
  revert t w. induction cs as [|[o bytes] cs IH]; intros t w Hh Hs Hb Hc r; cbn [send].
  { cbn. rewrite elem_of_nil. tauto. }
  apply Forall_cons in Hs as [Hs1 Hs]. apply Forall_cons in Hb as [[Hne Hin] Hb]. cbn [fst snd] in *.
  destruct (write_range_records B t w o bytes Hh Hs1 Hne Hin) as (a & t' & w' & Hw & Hr).
  { intros r' Hr'. apply Hc; apply elem_of_app; [right; by left|by left]. }
  pose proof (write_range_holding B t w o bytes Hh Hs1) as Hh'. rewrite Hw in Hh' |- *.
  assert (Htot : total t' = total t) by (rewrite (h_total _ _ _ Hh'), (h_total _ _ _ Hh); done).
  rewrite (IH t' w' Hh' Hs).
  - rewrite Hr, fmap_cons, elem_of_cons. tauto.
  - by rewrite Htot.
  - assert (Hsub : forall r, r ∈ recorded t' ++ (range_of <$> cs) -> r ∈ recorded t ++ (range_of <$> (o, bytes) :: cs)).
    { intros r'. rewrite !elem_of_app, Hr, fmap_cons, elem_of_cons. tauto. }
    intros r1 r2 H1 H2. apply Hc; by apply Hsub.
Qed.

(** C38: a sparse transfer of an object [B] is exact: from [begin] on a disk that has nothing of it, whatever slices
    of [B] are sent by [write_range], in any order, repeated, overlapping, empty or out of bounds, [missing] lists
    exactly the positions that no accepted range covers; when it lists none the staged file is [B]; a resume after
    a crash inside one further range, whose bytes may have reached the file in part or in full while its record is
    missing or torn, finds the same ranges and reports the tear, whatever the file holds outside the recorded ranges;
    and slices that are pairwise equal or disjoint, non-empty and inside the object are all accepted. *)
Theorem sparse_transfer_exact B op a dg cs w q n :
  let t0 := transfer_of root op a dg (Z.of_nat (length B)) [] in
  Z.of_nat (length B) < 2 ^ 64 -> names (fs w) !! file_path t0 = None -> names (fs w) !! range_journal t0 = None ->
  (forall p i, inode_of p (fs w) = Some i -> i < next_inode (fs w)) ->
  Forall (fun c => slice B (fst c) (snd c)) cs ->
  JournalFacts.fits q -> (n < length (framed_record (BLAKE := BLAKE) q))%nat ->
  exists w0 t w', begin root op a dg (Z.of_nat (length B)) w = (Ok t0, w0) /\ send t0 cs w0 = (t, w') /\
    (forall p, covers (missing t) p <-> 0 <= p < Z.of_nat (length B) /\ ~ covers (recorded t) p) /\
    (missing t = [] -> read (file_path t) (fs w') = Some B) /\
    (forall w1 before after, read (file_path t) (fs w') = Some before -> read (file_path t) (fs w1) = Some after ->
       agrees after before (recorded t) ->
       default [] (read (range_journal t) (fs w1))
       = default [] (read (range_journal t) (fs w')) ++ take n (framed_record (BLAKE := BLAKE) q) ->
       fst (resume (BLAKE := BLAKE) root op a dg (Z.of_nat (length B)) w1) = Ok (t, negb (n =? 0)%nat)) /\
    (Forall (fun c => snd c <> [] /\ fst c + Z.of_nat (length (snd c)) <= Z.of_nat (length B)) cs ->
     (forall c c', c ∈ cs -> c' ∈ cs -> compatible (range_of c) (range_of c')) ->
     forall r, r ∈ recorded t <-> r ∈ range_of <$> cs).
Proof.
  intros t0 Hz Hf Hj Hn Hcs Hq Hnq.
  destruct (begin_holding B op a dg w Hz Hf Hj Hn) as (w0 & Hb & Hh). fold t0 in Hb, Hh.
  destruct (send_holding B t0 cs w0 Hh Hcs) as [Hh' [rs Hrs]].
  pose proof (send_records B t0 cs w0 Hh Hcs) as Hrec.
  destruct (send t0 cs w0) as [t w'] eqn:Hsend. cbn [fst snd] in *.
  exists w0, t, w'. split; [done|]. split; [done|].
  pose proof Hh' as [Hv Ht Hs (bs & Hr & Hag) Hjr _ _].
  assert (Hpos : 0 <= total t) by lia.
  split; [intros p; rewrite missing_spec by done; by rewrite Ht|].
  split; [|split].
  - intros Hm. rewrite Hr. f_equal. apply (agrees_complete bs B (recorded t)); [done|]. rewrite <- Ht.
    by apply missing_none.
  - intros w1 before after Hb0 Hf1 Hun Hj1. rewrite Hr in Hb0. injection Hb0 as <-. assert (Et : t = transfer_of root op a dg (Z.of_nat (length B)) rs) by (by rewrite Hrs).
    clear Hrec Hsend. subst t. cbn [recorded with_recorded] in *.
    change (with_recorded rs t0) with (transfer_of root op a dg (Z.of_nat (length B)) rs) in *.
    destruct (resume_recorded B op a dg rs w1 after q n) as [w2 Hres];
      [done|done|done|by apply (agrees_trans after bs)|done|done| |].
    + rewrite Hj1. f_equal. destruct (read _ (fs w')) as [jb|]; [done|]. by destruct Hjr as [_ ->].
    + by rewrite Hres.
  - intros Hin Hco r. rewrite Hrec; [|done|].
    + cbn. rewrite elem_of_nil. tauto.
    + cbn [recorded t0 transfer_of app]. intros r1 r2 (c1 & -> & H1)%list_elem_of_fmap (c2 & -> & H2)%list_elem_of_fmap.
      by apply Hco.
Qed.

End transfer.

(** ** Concrete transfers, with the toy hash of Digest.v *)

Definition three : list Z := [1; 2; 3].
Definition requests : list (Z * list Z) := [(2, [3]); (0, [1; 2]); (1, [2; 3]); (0, [1; 2]); (3, [4]); (1, [])].

Definition transfer3 : SparseTransfer := transfer_of here 1 2 (toy_id three) 3 [].
Definition sent : SparseTransfer * world :=
  send (BLAKE := list Z) transfer3 requests (snd (begin here 1 2 (toy_id three) 3 (boot 7))).

Lemma sparse_transfer_exact_witness :
  recorded (fst sent) = [(2, 1); (0, 2)] /\ missing (fst sent) = [] /\
  read (file_path (fst sent)) (fs (snd sent)) = Some three.
Proof.
  destruct (sparse_transfer_exact (BLAKE := list Z) toy_hash here three 1 2 (toy_id three) requests (boot 7) [] 0)
    as (w0 & t & w' & Hb & Hs & _ & Hm & _).
  - vm_compute. done.
  - vm_compute. reflexivity.
  - vm_compute. reflexivity.
  - intros p i Hp. vm_compute in Hp. done.
  - repeat constructor; vm_compute; done.
  - vm_compute. done.
  - vm_compute. lia.
  - assert (H1 : recorded (fst sent) = [(2, 1); (0, 2)]) by (vm_compute; reflexivity).
    assert (H2 : missing (fst sent) = []) by (vm_compute; reflexivity).
    assert (Hsent : sent = (t, w')) by (unfold sent; rewrite <- Hs; f_equal; exact (f_equal snd Hb)).
    rewrite Hsent in *. exact (conj H1 (conj H2 (Hm H2))).
Defined.

(** A writer that died between the bytes of its second range and the record of it: the file has the bytes, the
    journal has the start of the record, and the resumed transfer has the first range. *)
Definition dying_range : world :=
  let w := snd (send (BLAKE := list Z) transfer3 [(2, [3])] (snd (begin here 1 2 (toy_id three) 3 (boot 7)))) in
  on_fs (fun d => append (range_journal transfer3)
                    (take 7 (framed_record (BLAKE := list Z) (range_record 0 2 (range_checksum (BLAKE := list Z) [1; 2]))))
                    (write_with (write_at 0 [1; 2]) (file_path transfer3) d)) w.

Example dying_range_resumes :
  read (file_path transfer3) (fs dying_range) = Some three /\
  fst (resume (BLAKE := list Z) here 1 2 (toy_id three) 3 dying_range) = Ok (with_recorded [(2, 1)] transfer3, true).
Proof. split; vm_compute; reflexivity. Qed.

(** ** What a resumed transfer does not keep *)

(** A writer that died inside the append of its first range. *)
Definition torn_transfer : world :=
  on_fs (fun d => append (range_journal transfer3)
                    (take 5 (framed_record (BLAKE := list Z) (range_record 0 2 (range_checksum (BLAKE := list Z) [1; 2]))))
                    (create (range_journal transfer3) d))
    (snd (begin here 1 2 (toy_id three) 3 (boot 7))).

Definition resumed : world -> result SparseError (SparseTransfer * bool) * world := resume (BLAKE := list Z) here 1 2 (toy_id three) 3.

(** The tear is reported and not cut off: a range acknowledged by the resumed transfer is appended behind it, and the
    next resume finds no range at all. *)
Theorem ranges_behind_tear_lost :
  fst (resumed torn_transfer) = Ok (transfer3, true) /\
  fst (write_range (BLAKE := list Z) transfer3 0 [1; 2] torn_transfer) = Ok (Committed, with_recorded [(0, 2)] transfer3) /\
  fst (resumed (snd (write_range (BLAKE := list Z) transfer3 0 [1; 2] torn_transfer))) = Ok (transfer3, true).
Proof. split; [by vm_compute|]. split; by vm_compute. Qed.

(** A transfer begun again keeps the range journal of the one before beside its empty file: it cannot be resumed. *)
Definition begun_again : world :=
  snd (begin here 1 2 (toy_id three) 3
         (snd (write_range (BLAKE := list Z) transfer3 0 [1; 2] (snd (begin here 1 2 (toy_id three) 3 (boot 7)))))).

Theorem begun_again_unresumable : fst (resumed begun_again) = Err (RangeVerificationFailed 0 2).
Proof. by vm_compute. Qed.

End SparseFacts.
