(* ===== verification/Validation.v ===== *)
(** * Checks on data from other hosts (rabs-cas)

    What is checked of a result before it is stored or written to a tree: [GraphClosure],
    the reference graph of manifests and the ranges of a pack (closure_validation.rs);
    [Members], the paths and links of a manifest (manifest_validation.rs); and [Trees], the
    difference of two tree manifests (tree_manifest.rs).

    Each check is compared with what it stands for: reachability in the graph, the bytes a
    range covers, where a file system resolves a link, the chunks a receiver ends up with. *)

From stdpp Require Import base gmap list strings sorting relations.
From Stdlib Require Import ZArith Lia.
From S2P Require Import Prelude Bytes Manifest.
Import ResultIdentity.

Module GraphClosure.

Record GraphBounds := { max_depth : nat; max_fanout : nat; max_nodes : nat }.

Definition DEFAULT_BOUNDS : GraphBounds :=
  {| max_depth := 64; max_fanout := Z.to_nat 65536; max_nodes := Z.to_nat 1048576 |}.

Record ManifestNode := { node_id : ObjectId; references : list ObjectId }.

Inductive ClosureError :=
  | Cycle (at_ : ObjectId)
  | DepthExceeded
  | FanoutExceeded (at_ : ObjectId)
  | NodeCountExceeded
  | DanglingReference (at_ : ObjectId).

Section validate.
Context (nodes : list ManifestNode) (bounds : GraphBounds).

(** [nodes.iter().find(|n| n.id == *id)]. *)
Definition node_of (id : ObjectId) : option ManifestNode :=
  snd <$> list_find (fun n => node_id n = id) nodes.

(** [room] is [max_depth + 1 - depth]: none is left when the depth exceeds its bound. *)
Fixpoint visit (room : nat) (id : ObjectId) (stack visited : list ObjectId) :
    result ClosureError (list ObjectId) :=
  match room with
  | O => Err DepthExceeded
  | S room =>
      if bool_decide (id ∈ stack) then Err (Cycle id)
      else if bool_decide (id ∈ visited) then Ok visited
      else if Nat.leb (max_nodes bounds) (length visited) then Err NodeCountExceeded
      else
        match node_of id with
        | None => Err (DanglingReference id)
        | Some node =>
            if Nat.ltb (max_fanout bounds) (length (references node)) then Err (FanoutExceeded id)
            else
              (fix loop (rs : list ObjectId) (visited : list ObjectId) :=
                 match rs with
                 | [] => Ok visited
                 | r :: rs => visited ← visit room r (stack ++ [id]) visited; loop rs visited
                 end) (references node) (visited ++ [id])
        end
  end.

Definition validate_closure (root : ObjectId) : result ClosureError unit :=
  _ ← visit (S (max_depth bounds)) root [] []; mret tt.

End validate.

(** ** Pack ranges *)

Record PackMember := { offset : Z; length_ : Z }. (* u64 *)

Inductive PackError := Overlap | OutOfBounds | EmptyMember.

Fixpoint check_ranges (pack_len previous_end : Z) (sorted : list PackMember) : result PackError unit :=
  match sorted with
  | [] => Ok tt
  | m :: rest =>
      if length_ m =? 0 then Err EmptyMember
      else
        match checked_add 64 (offset m) (length_ m) with
        | None => Err OutOfBounds
        | Some end_ =>
            if pack_len <? end_ then Err OutOfBounds
            else if offset m <? previous_end then Err Overlap
            else check_ranges pack_len end_ rest
        end
  end.

Definition by_offset (a b : PackMember) : bool := offset a <=? offset b.

Definition validate_pack_ranges (members : list PackMember) (pack_len : Z) : result PackError unit :=
  check_ranges pack_len 0 (sort_by by_offset members).

End GraphClosure.

Module GraphFacts.
Import GraphClosure.

(** ** The graph the nodes describe *)

Section graph.
Context (nodes : list ManifestNode) (bounds : GraphBounds).

Definition edge (x y : ObjectId) : Prop :=
  exists n, node_of nodes x = Some n /\ y ∈ references n.

(** A node that is there and does not refer to too many. *)
Definition sound_node (x : ObjectId) : Prop :=
  exists n, node_of nodes x = Some n /\ (length (references n) <= max_fanout bounds)%nat.

(** Finished nodes, latest first: each refers only to nodes finished before it. *)
Inductive settled : list ObjectId -> Prop :=
  | settled_nil : settled []
  | settled_cons x F : (x ∉ F) -> (forall y, edge x y -> y ∈ F) -> settled F -> settled (x :: F).

Lemma settled_edge F x y : settled F -> x ∈ F -> edge x y -> y ∈ F.
Proof.
  induction 1 as [|z F Hz He Hs IH]; intros Hx Hxy; [by apply not_elem_of_nil in Hx|].
  apply elem_of_cons in Hx as [->|Hx]; right; [by apply He|by apply IH].
Qed.

Lemma settled_path F x y : settled F -> x ∈ F -> rtc edge x y -> y ∈ F.
Proof. intros Hs Hx Hr. induction Hr as [|? ? ? He _ IH]; [done|]. apply IH. by eapply settled_edge. Qed.

Lemma settled_acyclic F x : settled F -> x ∈ F -> ~ tc edge x x.
Proof.
  induction 1 as [|z F Hz He Hs IH]; intros Hx Hc; [by apply not_elem_of_nil in Hx|].
  apply elem_of_cons in Hx as [->|Hx]; [|by apply IH].
  apply Hz. inversion Hc as [? ? Hzz|? y ? Hzy Hyz]; subst; [by apply He|].
  apply (settled_path F y z Hs); [by apply He|by apply tc_rtc].
Qed.

(** The nodes visited are those finished and those on the path. *)
Definition accounted (F stack visited : list ObjectId) : Prop :=
  settled F /\ NoDup visited /\ (forall x, x ∈ visited <-> x ∈ F \/ x ∈ stack) /\ (forall x, x ∈ F -> x ∉ stack).

(** What a successful visit of [id] adds. *)
Definition visited_more (room : nat) (id : ObjectId) (stack visited V F : list ObjectId) : Prop :=
  exists G, accounted (G ++ F) stack V /\ id ∈ G ++ F /\
    (forall x, x ∈ G -> sound_node x /\ exists n, (n < room)%nat /\ nsteps edge n id x) /\
    (length V <= max_nodes bounds \/ V = visited)%nat.

Definition loop (room : nat) (stack : list ObjectId) :=
  fix loop (rs : list ObjectId) (visited : list ObjectId) : result ClosureError (list ObjectId) :=
    match rs with
    | [] => Ok visited
    | r :: rs => visited ← visit nodes bounds room r stack visited; loop rs visited
    end.

Lemma visit_eq room id stack visited :
  visit nodes bounds (S room) id stack visited
  = if bool_decide (id ∈ stack) then Err (Cycle id)
    else if bool_decide (id ∈ visited) then Ok visited
    else if Nat.leb (max_nodes bounds) (length visited) then Err NodeCountExceeded
    else match node_of nodes id with
         | None => Err (DanglingReference id)
         | Some node =>
             if Nat.ltb (max_fanout bounds) (length (references node)) then Err (FanoutExceeded id)
             else loop room (stack ++ [id]) (references node) (visited ++ [id])
         end.
Proof. reflexivity. Qed.

Lemma loop_sound room stack rs visited V F :
  (forall id stack visited V F, visit nodes bounds room id stack visited = Ok V -> accounted F stack visited ->
     visited_more room id stack visited V F) ->
  loop room stack rs visited = Ok V -> accounted F stack visited ->
  exists G, accounted (G ++ F) stack V /\ (forall r, r ∈ rs -> r ∈ G ++ F) /\
    (forall x, x ∈ G -> sound_node x /\ exists r n, r ∈ rs /\ (n < room)%nat /\ nsteps edge n r x) /\
    (length V <= max_nodes bounds \/ V = visited)%nat.
Proof.
  intros IH. revert visited F. induction rs as [|r rs IHr]; intros visited F Hl Ha.
  - cbn in Hl. simplify_eq. exists []. do 2 (split; [first [done|by intros r Hr%not_elem_of_nil]|]).
    split; [by intros r Hr%not_elem_of_nil|by right].
  - cbn in Hl. apply result_bind_Ok in Hl as (V1 & Hv & Hl).
    destruct (IH _ _ _ _ _ Hv Ha) as (G1 & Ha1 & Hr1 & Hx1 & Hn1).
    destruct (IHr _ _ Hl Ha1) as (G2 & Ha2 & Hr2 & Hx2 & Hn2).
    exists (G2 ++ G1). rewrite <- app_assoc. split_and!; [done| | |].
    + intros q [->|Hq]%elem_of_cons; [apply elem_of_app; by right|by apply Hr2].
    + intros x [Hx|Hx]%elem_of_app.
      * destruct (Hx2 x Hx) as (? & q & n & ? & ? & ?). split; [done|]. exists q, n. split_and!; try done. by right.
      * destruct (Hx1 x Hx) as (? & n & ? & ?). split; [done|]. exists r, n. split_and!; try done. by left.
    + destruct Hn2 as [?| ->]; [by left|]. destruct Hn1 as [?| ->]; [by left|by right].
Qed.

Lemma visit_sound room id stack visited V F :
  visit nodes bounds room id stack visited = Ok V -> accounted F stack visited ->
  visited_more room id stack visited V F.
Proof.
  revert id stack visited V F. induction room as [|room IH]; intros id stack visited V F Hv Ha; [done|].
  rewrite visit_eq in Hv. case_bool_decide as Hst; [done|]. destruct Ha as (Hs & Hnd & Hin & Hdis).
  case_bool_decide as Hvis.
  { simplify_eq. exists []. split; [done|]. split; [by apply Hin in Hvis as [?|?]|].
    split; [by intros x Hx%not_elem_of_nil|by right]. }
  destruct (Nat.leb_spec (max_nodes bounds) (length visited)); [done|].
  destruct (node_of nodes id) as [node|] eqn:En; [|done].
  destruct (Nat.ltb_spec (max_fanout bounds) (length (references node))); [done|].
  assert (Ha' : accounted F (stack ++ [id]) (visited ++ [id])).
  { split_and!; [done| | |].
    - apply NoDup_app. split_and!; [done|by intros x Hx ->%list_elem_of_singleton|apply NoDup_singleton].
    - intros x. rewrite !elem_of_app, Hin. tauto.
    - intros x Hx [?|Hx']%elem_of_app; [by eapply Hdis|]. apply list_elem_of_singleton in Hx' as ->. apply Hvis, Hin. by left. }
  destruct (loop_sound room _ _ _ _ _ IH Hv Ha') as (G & (HsG & HndG & HinG & HdG) & Hr & Hx & Hn).
  exists (id :: G). cbn [app]. split; [|split_and!].
  - unfold accounted. split_and!.
    + constructor; [|intros y (n & Hn' & Hy); rewrite En in Hn'; simplify_eq; by apply Hr|done].
      intros Hid. apply (HdG id Hid). apply elem_of_app. right. by apply list_elem_of_singleton.
    + done.
    + intros x. rewrite HinG, elem_of_cons, !elem_of_app, list_elem_of_singleton. tauto.
    + intros x [->|Hx']%elem_of_cons Hx''; [done|]. apply (HdG x Hx'). apply elem_of_app. by left.
  - by left.
  - intros x [->|Hx']%elem_of_cons; [split; [by exists node|exists 0%nat; split; [lia|constructor]]|].
    destruct (Hx x Hx') as (? & r & n & Hrr & Hn' & Hst'). split; [done|]. exists (S n). split; [lia|].
    apply nsteps_l with r; [by exists node|done].
  - left. destruct Hn as [?| ->]; [done|]. rewrite length_app. cbn. lia.
Qed.

(** *** Acceptance *)

(** Everything the completeness of the check needs of a root. *)
Section complete.
Context (root : ObjectId) (R : list ObjectId).
Hypothesis closed : forall x, rtc edge root x -> sound_node x /\ x ∈ R.
Hypothesis distinct : (length R <= max_nodes bounds)%nat.
Hypothesis shallow : forall x n, nsteps edge n root x -> (n <= max_depth bounds)%nat.

Lemma shallow_acyclic x : rtc edge root x -> ~ tc edge x x.
Proof.
  intros (n & Hn)%rtc_nsteps Hc. apply tc_nsteps in Hc as (k & Hk & Hc).
  assert (Hm : forall m, nsteps edge (m * k) x x).
  { induction m as [|m IHm]; [constructor|]. cbn. by apply nsteps_trans with x. }
  pose proof (shallow x (n + (S (max_depth bounds)) * k) (nsteps_trans _ _ _ _ _ Hn (Hm _))) as Hb. nia.
Qed.

Definition on_path (stack : list ObjectId) (id : ObjectId) : Prop := forall s, s ∈ stack -> tc edge s id /\ rtc edge root s.

Lemma visit_complete room d id stack visited :
  nsteps edge d root id -> (S (max_depth bounds) <= d + room)%nat -> on_path stack id ->
  NoDup visited -> (forall x, x ∈ visited -> rtc edge root x) ->
  exists V, visit nodes bounds room id stack visited = Ok V /\ NoDup V /\ (forall x, x ∈ V -> rtc edge root x).
Proof.
  revert d id stack visited. induction room as [|room IH]; intros d id stack visited Hd Hroom Hp Hnd Hvr.
  { pose proof (shallow _ _ Hd). lia. }
  assert (Hid : rtc edge root id) by (apply rtc_nsteps; eauto).
  rewrite visit_eq. case_bool_decide as Hst.
  { destruct (shallow_acyclic id Hid). by apply Hp. }
  case_bool_decide as Hvis; [by eauto|].
  destruct (closed id Hid) as [(node & En & Hf) HR].
  assert (Hlen : (length visited < max_nodes bounds)%nat).
  { assert (Hle : (length (id :: visited) <= length R)%nat); [|cbn in Hle; lia].
    apply NoDup_incl_length; [constructor; [by rewrite <- list_elem_of_In|by apply NoDup_ListNoDup]|].
    intros x. rewrite <- !list_elem_of_In. intros [->|Hx]%elem_of_cons; [done|]. by apply closed, Hvr. }
  destruct (Nat.leb_spec (max_nodes bounds) (length visited)); [lia|]. rewrite En.
  destruct (Nat.ltb_spec (max_fanout bounds) (length (references node))); [lia|].
  assert (Hed : forall r, r ∈ references node -> edge id r) by (intros r Hr; by exists node).
  assert (Hnd' : NoDup (visited ++ [id])).
  { apply NoDup_app. split_and!; [done|by intros x Hx ->%list_elem_of_singleton|apply NoDup_singleton]. }
  assert (Hvr' : forall x, x ∈ visited ++ [id] -> rtc edge root x).
  { intros x [?| ->%list_elem_of_singleton]%elem_of_app; auto. }
  revert Hnd' Hvr' Hed. generalize (visited ++ [id]). generalize (references node) as rs.
  induction rs as [|r rs IHr]; intros visited' Hnd' Hvr' Hed; [by eauto|]. cbn.
  assert (He : edge id r) by (apply Hed; left).
  destruct (IH (S d) r (stack ++ [id]) visited') as (V & -> & HV & HVr); [|lia| |done|done|].
  - apply nsteps_r with id; done.
  - intros s [Hs| ->%list_elem_of_singleton]%elem_of_app; [|split; [by apply tc_once|done]].
    destruct (Hp s Hs). split; [by eapply tc_r|done].
  - cbn. apply IHr; [done|done|]. intros q Hq. apply Hed. by right.
Qed.

End complete.
End graph.

(** C36: Validation of a manifest graph.  An accepted root reaches only nodes that are present and within the fan-out
    bound, no cycle, no more nodes than allowed, and each of them over some path within the depth bound; and every
    root whose references are complete, within the bounds of fan-out and count and without a path beyond the depth
    bound is accepted. *)
Theorem closure_validated nodes bounds root :
  (validate_closure nodes bounds root = Ok tt ->
   exists V, NoDup V /\ (length V <= max_nodes bounds)%nat /\ (forall x, rtc (edge nodes) root x <-> x ∈ V) /\
     (forall x, x ∈ V -> sound_node nodes bounds x /\ ~ tc (edge nodes) x x /\
        exists n, (n <= max_depth bounds)%nat /\ nsteps (edge nodes) n root x)) /\
  ((exists R, (forall x, rtc (edge nodes) root x -> sound_node nodes bounds x /\ x ∈ R) /\
      (length R <= max_nodes bounds)%nat) ->
   (forall x n, nsteps (edge nodes) n root x -> (n <= max_depth bounds)%nat) ->
   validate_closure nodes bounds root = Ok tt).
Proof.
  unfold validate_closure. split.
  - intros (V & Hv & _)%result_bind_Ok.
    destruct (visit_sound nodes bounds _ _ _ _ _ [] Hv) as (G & (Hs & Hnd & Hin & _) & Hr & Hx & Hn).
    { split_and!; [constructor|constructor|by intros x; rewrite !elem_of_nil; tauto|by intros x Hx%not_elem_of_nil]. }
    rewrite app_nil_r in *. assert (HV : forall x, x ∈ V <-> x ∈ G) by (intros x; rewrite Hin, elem_of_nil; tauto).
    exists V. split_and!; [done| | |].
    + destruct Hn as [?| ->]; [done|]. cbn. lia.
    + intros x. rewrite HV. split; [by apply settled_path|]. intros HG. destruct (Hx x HG) as (_ & n & _ & Hp).
      apply rtc_nsteps. by exists n.
    + intros x HG%HV. destruct (Hx x HG) as (? & n & ? & ?). split_and!; [done|by apply (settled_acyclic nodes G)|].
      exists n. split; [lia|done].
  - intros (R & Hc & HR) Hsh.
    destruct (visit_complete nodes bounds root R Hc HR Hsh (S (max_depth bounds)) 0 root [] []) as (V & -> & _); try done.
    + constructor.
    + by intros s Hs%not_elem_of_nil.
    + constructor.
    + by intros x Hx%not_elem_of_nil.
Qed.

(** ** Concrete graphs *)

Definition oid (n : Z) : ObjectId := {| algorithm := Sha256V1; domain := "rabs/object"; digest_bytes := [n] |}.

(** The root refers to a hub directly and over a detour, and the hub to a leaf. *)
Definition detour (direct_first : bool) : list ManifestNode :=
  [{| node_id := oid 0; references := if direct_first then [oid 2; oid 1] else [oid 1; oid 2] |};
   {| node_id := oid 1; references := [oid 2] |};
   {| node_id := oid 2; references := [oid 3] |};
   {| node_id := oid 3; references := [] |}].

Definition two_deep : GraphBounds := {| max_depth := 2; max_fanout := 4; max_nodes := 8 |}.

(** The depth bound holds for the first path to a node only: a graph with a path of three references is accepted under a
    bound of two, and refused when the references of the root are listed the other way round. *)
Theorem depth_bound_order_dependent :
  validate_closure (detour true) two_deep (oid 0) = Ok tt /\
  nsteps (edge (detour true)) 3 (oid 0) (oid 3) /\
  validate_closure (detour false) two_deep (oid 0) = Err DepthExceeded.
Proof.
  split_and!; [vm_compute; reflexivity| |vm_compute; reflexivity].
  assert (He : forall x y n, node_of (detour true) x = Some n -> y ∈ references n -> edge (detour true) x y) by (intros; by eexists).
  apply nsteps_l with (oid 1); [eapply He; [vm_compute; reflexivity|right; left]|].
  apply nsteps_l with (oid 2); [eapply He; [vm_compute; reflexivity|left]|].
  apply nsteps_l with (oid 3); [eapply He; [vm_compute; reflexivity|left]|constructor].
Qed.

(** ** Ranges, by the bytes they cover *)

Definition covers (b : Z) (m : PackMember) : bool := (offset m <=? b) && (b <? offset m + length_ m).

Definition member_ok (pack_len : Z) (m : PackMember) : Prop :=
  0 <= offset m /\ 0 < length_ m /\ offset m + length_ m <= pack_len.

Definition covered (b : Z) (l : list PackMember) : nat := length (List.filter (covers b) l).

Lemma covered_cons b m l : covered b (m :: l) = ((if covers b m then 1 else 0) + covered b l)%nat.
Proof. unfold covered. cbn. by destruct (covers b m). Qed.

Lemma covered_0 b l : covered b l = 0%nat <-> Forall (fun m => covers b m = false) l.
Proof.
  induction l as [|m l IH]; [split; [constructor|done]|]. rewrite covered_cons, Forall_cons, <- IH.
  destruct (covers b m); [|naive_solver lia]. split; [lia|naive_solver].
Qed.

Lemma covered_perm b l l' : l ≡ₚ l' -> covered b l = covered b l'.
Proof. intros Hp. unfold covered. induction Hp; cbn; repeat (case_match; cbn); congruence. Qed.

Lemma check_ranges_exact pack_len prev l :
  is_u64 pack_len -> StronglySorted (fun a b => by_offset a b = true) l -> Forall (fun m => is_u64 (offset m) /\ is_u64 (length_ m)) l ->
  check_ranges pack_len prev l = Ok tt <->
  Forall (member_ok pack_len) l /\ Forall (fun m => prev <= offset m) l /\ forall b, (covered b l <= 1)%nat.
Proof.
  intros Hp Hs Hu. revert prev. induction Hs as [|m l Hs IH Hm]; intros prev.
  { split; [|done]. intros _. split_and!; [constructor|constructor|]. intros b. cbn. lia. }
  apply Forall_cons in Hu as [[Ho Hl] Hu]. specialize (IH Hu). cbn [check_ranges].
  unfold in_u, checked_add in *. rewrite !Forall_cons.
  destruct (Z.eqb_spec (length_ m) 0) as [E|E]; [split; [done|]; unfold member_ok; intros [[? _] _]; lia|].
  destruct (Z.ltb_spec (offset m + length_ m) (2 ^ 64)); [|split; [done|]; unfold member_ok; intros [[? _] _]; lia].
  destruct (Z.ltb_spec pack_len (offset m + length_ m)); [split; [done|]; unfold member_ok; intros [[? _] _]; lia|].
  destruct (Z.ltb_spec (offset m) prev); [split; [done|]; intros (_ & [? _] & _); lia|].
  rewrite IH. assert (Hok : member_ok pack_len m) by (unfold member_ok; lia). split.
  - intros (Hmem & Hprev & Hone). split_and!; try done.
    + apply Forall_forall. intros x Hx. apply (Forall_forall _ _) with (x := x) in Hprev; [lia|done].
    + intros b. rewrite covered_cons. destruct (covers b m) eqn:Ec; [|by apply Hone].
      assert (Hz : covered b l = 0%nat); [|lia]. apply covered_0, (Forall_impl _ _ _ Hprev). intros x Hx.
      unfold covers in *. lia.
  - intros ((_ & Hmem) & (_ & Hprev) & Hone). split_and!; try done.
    + apply Forall_forall. intros x Hx. pose proof (proj1 (Forall_forall _ _) Hmem x Hx) as Hxo.
      pose proof (proj1 (Forall_forall _ _) Hm x Hx) as Hle. unfold by_offset in Hle. apply Z.leb_le in Hle.
      destruct (Z.le_gt_cases (offset m + length_ m) (offset x)); [done|]. exfalso. specialize (Hone (offset x)).
      rewrite covered_cons in Hone. unfold member_ok in Hxo.
      assert (Hc : covers (offset x) m = true) by (unfold covers; lia). rewrite Hc in Hone.
      assert (Hz : covered (offset x) l = 0%nat) by lia. apply covered_0 in Hz.
      pose proof (proj1 (Forall_forall _ _) Hz x Hx) as Hf. unfold covers in Hf. lia.
    + intros b. specialize (Hone b). rewrite covered_cons in Hone. lia.
Qed.

(** Pack ranges are accepted exactly when every member is not empty and lies inside the pack, and no byte belongs
    to two members. *)
Theorem pack_ranges_exact members pack_len :
  is_u64 pack_len -> Forall (fun m => is_u64 (offset m) /\ is_u64 (length_ m)) members ->
  validate_pack_ranges members pack_len = Ok tt <->
  Forall (member_ok pack_len) members /\ forall b, (covered b members <= 1)%nat.
Proof.
  intros Hp Hu. unfold validate_pack_ranges. pose proof (sort_by_perm by_offset members) as Hperm.
  rewrite check_ranges_exact; [|done| |by rewrite Hperm].
  - split.
    + intros (H1 & _ & H3). split; [by rewrite <- Hperm|]. intros b. by rewrite <- (covered_perm b _ _ Hperm).
    + intros [H1 H3]. split_and!; [by rewrite Hperm| |].
      * rewrite Hperm. apply (Forall_impl _ _ _ H1). unfold member_ok. lia.
      * intros b. by rewrite (covered_perm b _ _ Hperm).
  - apply sort_by_sorted; unfold by_offset.
    + intros a b c. lia.
    + intros a b. lia.
Qed.

Lemma pack_ranges_exact_witness :
  validate_pack_ranges [{| offset := 4; length_ := 4 |}; {| offset := 0; length_ := 4 |}] 8 = Ok tt /\
  forall b, (covered b [{| offset := 4; length_ := 4 |}; {| offset := 0; length_ := 4 |}] <= 1)%nat.
Proof.
  assert (H : validate_pack_ranges [{| offset := 4; length_ := 4 |}; {| offset := 0; length_ := 4 |}] 8 = Ok tt)
    by (vm_compute; reflexivity).
  split; [exact H|]. apply (pack_ranges_exact _ 8) in H; [exact (proj2 H)|unfold in_u; lia|].
  repeat constructor; unfold in_u; cbn; lia.
Defined.

End GraphFacts.

(** * The members of a manifest *)

Module Members.

(** A string is its code points. *)
Abbreviation str := (list Z).

Definition SLASH : Z := 47.
Definition DOT : Z := 46.

(** [split('/')]. *)
Fixpoint split_slash (s : str) : list str :=
  match s with
  | [] => [[]]
  | c :: s =>
      if c =? SLASH then [] :: split_slash s
      else match split_slash s with
           | [] => [[c]]
           | p :: ps => (c :: p) :: ps
           end
  end.

Definition absolute (s : str) : bool := match s with c :: _ => c =? SLASH | [] => false end.

Inductive ManifestMemberKind :=
  | File
  | Directory
  | Symlink (target : str)
  | Hardlink (to_ : str)
  | SpecialNode.

Record ManifestMember := { path : str; kind : ManifestMemberKind }.

Inductive ManifestViolation :=
  | AbsolutePath (p : str)
  | DotDotComponent (p : str)
  | NulByte (p : str)
  | EmptyPath
  | DuplicatePath (p : str)
  | CaseEquivalentCollision (prior p : str)
  | UnicodeEquivalentCollision (prior p : str)
  | SymlinkEscape (link target : str)
  | UndeclaredHardlinkTarget (link to_ : str)
  | SpecialNodeRejected (p : str).

Definition between (lo hi c : Z) : bool := (lo <=? c) && (c <=? hi).
Definition one_of (l : list Z) (c : Z) : bool := bool_decide (c ∈ l).

Definition fold_base (c : Z) : Z :=
  if between 224 229 c || one_of [257; 259; 261] c then 97
  else if one_of [231; 263; 269] c then 99
  else if between 232 235 c || one_of [275; 279; 281] c then 101
  else if between 236 239 c || one_of [299; 305] c then 105
  else if one_of [241; 324] c then 110
  else if between 242 246 c || one_of [333; 337] c then 111
  else if between 249 252 c || one_of [363; 369] c then 117
  else if one_of [253; 255] c then 121
  else if one_of [378; 380; 382] c then 122
  else if one_of [347; 353] c then 115
  else c.

Definition combining (c : Z) : bool := between 768 879 c.

Definition ascii_lower (c : Z) : Z := if between 65 90 c then c + 32 else c.
Definition eq_ignore_ascii_case (a b : str) : bool := bool_decide (ascii_lower <$> a = ascii_lower <$> b).

Definition DOTDOT : str := [DOT; DOT].

(** The depth counted along the components of a target; [None]: below the root. *)
Fixpoint descend (depth : Z) (components : list str) : option Z :=
  match components with
  | [] => Some depth
  | c :: rest =>
      if bool_decide (c = [] \/ c = [DOT]) then descend depth rest
      else if bool_decide (c = DOTDOT) then if depth - 1 <? 0 then None else descend (depth - 1) rest
      else descend (depth + 1) rest
  end.

Definition symlink_escapes (member_path target : str) : bool :=
  if absolute target then true
  else
    match descend (Z.of_nat (length (split_slash member_path)) - 1) (split_slash target) with
    | None => true
    | Some _ => false
    end.

Section validate.
(** [char::to_lowercase]. *)
Context (to_lowercase : Z -> list Z).

Definition equivalence_key (p : str) : str :=
  fold_base <$> flat_map to_lowercase (List.filter (fun c => negb (combining c)) p).

(** One member, after those seen. *)
Definition check_member (seen : list ManifestMember) (m : ManifestMember) : option ManifestViolation :=
  let p := path m in
  if bool_decide (p = []) then Some EmptyPath
  else if absolute p then Some (AbsolutePath p)
  else if bool_decide (0 ∈ p) then Some (NulByte p)
  else if existsb (fun c => bool_decide (c = DOTDOT)) (split_slash p) then Some (DotDotComponent p)
  else if bool_decide (p ∈ path <$> seen) then Some (DuplicatePath p)
  else
    match List.find (fun prior => bool_decide (equivalence_key (path prior) = equivalence_key p)) seen with
    | Some prior =>
        Some (if eq_ignore_ascii_case (path prior) p then CaseEquivalentCollision (path prior) p
              else UnicodeEquivalentCollision (path prior) p)
    | None =>
        match kind m with
        | File | Directory => None
        | Symlink target => if absolute target || symlink_escapes p target then Some (SymlinkEscape p target) else None
        | Hardlink to_ => if bool_decide (to_ ∈ path <$> seen) then None else Some (UndeclaredHardlinkTarget p to_)
        | SpecialNode => Some (SpecialNodeRejected p)
        end
    end.

Fixpoint validate_members (seen members : list ManifestMember) : result ManifestViolation unit :=
  match members with
  | [] => Ok tt
  | m :: rest =>
      match check_member seen m with
      | Some v => Err v
      | None => validate_members (seen ++ [m]) rest
      end
  end.

Definition validate_manifest (members : list ManifestMember) : result ManifestViolation unit :=
  validate_members [] members.

End validate.

End Members.

Module MemberFacts.
Import Members.

Section accepted.
Context (to_lowercase : Z -> list Z).
Abbreviation key := (equivalence_key to_lowercase).

(** A member that may follow those before it. *)
Definition clean_path (p : str) : Prop :=
  p <> [] /\ absolute p = false /\ (0 ∉ p) /\ (DOTDOT ∉ split_slash p).

Definition kind_ok (before : list ManifestMember) (m : ManifestMember) : Prop :=
  match kind m with
  | File | Directory => True
  | Symlink target => symlink_escapes (path m) target = false
  | Hardlink to_ => exists b, b ∈ before /\ path b = to_
  | SpecialNode => False
  end.

Definition admissible (before : list ManifestMember) (m : ManifestMember) : Prop :=
  clean_path (path m) /\ (forall b, b ∈ before -> key (path b) <> key (path m)) /\ kind_ok before m.

Lemma find_none {A} (f : A -> bool) l : List.find f l = None <-> forall x, x ∈ l -> f x = false.
Proof.
  split.
  - intros H x Hx. apply (List.find_none f l H). by apply list_elem_of_In.
  - intros H. destruct (List.find f l) as [x|] eqn:E; [|done]. apply List.find_some in E as [Hx Hf].
    rewrite H in Hf; [done|by apply list_elem_of_In].
Qed.

Lemma dotdot_component p :
  existsb (fun c => bool_decide (c = DOTDOT)) (split_slash p) = false <-> DOTDOT ∉ split_slash p.
Proof.
  rewrite <- not_true_iff_false, List.existsb_exists. split.
  - intros H Hin. apply H. exists DOTDOT. split; [by apply list_elem_of_In|by apply bool_decide_eq_true].
  - intros H (c & Hc & ->%bool_decide_eq_true). apply H. by apply list_elem_of_In.
Qed.

Lemma check_member_none seen m : check_member to_lowercase seen m = None <-> admissible seen m.
Proof.
  unfold check_member, admissible, clean_path, kind_ok.
  case_bool_decide as He; [naive_solver|]. destruct (absolute (path m)) eqn:Ea; [naive_solver|].
  case_bool_decide as Hz; [naive_solver|].
  destruct (existsb _ _) eqn:Ed.
  { split; [done|]. intros ((_ & _ & _ & Hd) & _). apply dotdot_component in Hd. congruence. }
  apply dotdot_component in Ed.
  case_bool_decide as Hs.
  { split; [done|]. intros (_ & Hk & _). apply list_elem_of_fmap in Hs as (b & Hb & Hin). destruct (Hk b Hin). by rewrite Hb. }
  destruct (List.find _ _) as [prior|] eqn:Ef.
  { apply List.find_some in Ef as [Hin Hk%bool_decide_eq_true]. apply list_elem_of_In in Hin. split; [by case_match|].
    intros (_ & Hne & _). by destruct (Hne prior Hin). }
  rewrite find_none in Ef. assert (Hk : forall b, b ∈ seen -> key (path b) <> key (path m)).
  { intros b Hb. specialize (Ef b Hb). by apply bool_decide_eq_false in Ef. }
  destruct (kind m) as [| |target|to_|].
  - naive_solver.
  - naive_solver.
  - unfold symlink_escapes. destruct (absolute target); cbn; [naive_solver|].
    destruct (descend _ _); naive_solver.
  - case_bool_decide as Ht; [|split; [done|]; intros (_ & _ & b & Hb & <-); destruct Ht; by apply list_elem_of_fmap; eauto].
    split; [|done]. intros _. split_and!; try done. apply list_elem_of_fmap in Ht as (b & -> & Hb). by exists b.
  - naive_solver.
Qed.

Lemma validate_members_iff seen members :
  validate_members to_lowercase seen members = Ok tt <->
  forall i m, members !! i = Some m -> admissible (seen ++ take i members) m.
Proof.
  revert seen. induction members as [|m members IH]; intros seen; cbn [validate_members]; [done|].
  pose proof (check_member_none seen m) as Hc. destruct (check_member to_lowercase seen m) as [v|].
  - split; [done|]. intros H. specialize (H 0%nat m eq_refl). rewrite take_0, app_nil_r in H. apply Hc in H. done.
  - rewrite IH. destruct Hc as [Hc _]. specialize (Hc eq_refl). split.
    + intros H [|i] x Hx; cbn in *; [simplify_eq; by rewrite app_nil_r|].
      specialize (H i x Hx). by rewrite <- app_assoc in H.
    + intros H i x Hx. specialize (H (S i) x Hx). cbn in H. by rewrite <- app_assoc.
Qed.

End accepted.

(** A manifest is accepted exactly when each member has a relative path without NUL and without a parent
    component, no earlier member has an equivalent path, a hard link names an earlier member, a symbolic link does not
    escape by the count of its components, and nothing is a special node. *)
Theorem manifest_accepted_iff to_lowercase members :
  validate_manifest to_lowercase members = Ok tt <->
  forall i m, members !! i = Some m -> admissible to_lowercase (take i members) m.
Proof. apply (validate_members_iff to_lowercase []). Qed.

(** ** Where a link leads

    A file system resolves a link component by component and follows the links it meets. *)

Inductive landing := Inside (at_ : list str) | Outside | Unresolved.

Definition skipped (c : str) : bool := bool_decide (c = [] \/ c = [DOT]).

(** The components of a path the file system keeps. *)
Definition components (p : str) : list str := List.filter (fun c => negb (skipped c)) (split_slash p).

Definition target_at (links : list (list str * str)) (p : list str) : option str :=
  snd <$> (snd <$> list_find (fun l => fst l = p) links).

Fixpoint resolve (links : list (list str * str)) (fuel : nat) (pos rest : list str) : landing :=
  match fuel with
  | O => Unresolved
  | S fuel =>
      match rest with
      | [] => Inside pos
      | c :: rest =>
          if skipped c then resolve links fuel pos rest
          else if bool_decide (c = DOTDOT) then
            match pos with [] => Outside | _ => resolve links fuel (removelast pos) rest end
          else
            match target_at links (pos ++ [c]) with
            | Some target =>
                if absolute target then Outside else resolve links fuel pos (split_slash target ++ rest)
            | None => resolve links fuel (pos ++ [c]) rest
            end
      end
  end.

Definition links_of (members : list ManifestMember) : list (list str * str) :=
  omap (fun m => match kind m with Symlink t => Some (components (path m), t) | _ => None end) members.

(** Where the link at [p] with this target leads in the tree of the members. *)
Definition lands (members : list ManifestMember) (fuel : nat) (p target : str) : landing :=
  if absolute target then Outside
  else resolve (links_of members) fuel (removelast (components p)) (split_slash target).

Lemma resolve_descend fuel pos rest :
  (length rest < fuel)%nat ->
  match descend (Z.of_nat (length pos)) rest with
  | None => resolve [] fuel pos rest = Outside
  | Some d => exists at_, resolve [] fuel pos rest = Inside at_ /\ d = Z.of_nat (length at_)
  end.
Proof.
  revert pos rest. induction fuel as [|fuel IH]; intros pos rest Hf; [lia|].
  destruct rest as [|c rest]; cbn [descend resolve]; [by eexists|]. cbn [length] in Hf. unfold skipped.
  case_bool_decide; [by apply IH; lia|]. case_bool_decide.
  - destruct (list_eq_nil_dec pos) as [->|Hne]; [done|].
    assert (Hl : length pos = S (length (removelast pos))).
    { rewrite (List.app_removelast_last [] Hne) at 1. rewrite length_app. cbn. lia. }
    destruct (Z.ltb_spec (Z.of_nat (length pos) - 1) 0); [lia|].
    replace (Z.of_nat (length pos) - 1) with (Z.of_nat (length (removelast pos))) by lia.
    destruct pos; [done|]. by apply IH; lia.
  - cbn. replace (Z.of_nat (length pos) + 1) with (Z.of_nat (length (pos ++ [c]))) by (rewrite length_app; cbn; lia).
    apply IH. lia.
Qed.

Lemma filter_all {A} (f : A -> bool) l : (forall x, x ∈ l -> f x = true) -> List.filter f l = l.
Proof. induction l as [|x l IH]; intros H; [done|]. cbn. rewrite H by left. f_equal. apply IH. intros y Hy. apply H. by right. Qed.

(** The count of the check is the resolution of the file system when the path of a link has no empty and no dot
    component and its target passes through no other link: such a link is accepted exactly when it leads to a place
    under the root. *)
Theorem plain_symlink_contained members p target fuel :
  (forall c, c ∈ split_slash p -> skipped c = false) -> links_of members = [] -> (length (split_slash target) < fuel)%nat ->
  symlink_escapes p target = false <-> exists at_, lands members fuel p target = Inside at_.
Proof.
  intros Hp Hl Hf. unfold symlink_escapes, lands. destruct (absolute target); [naive_solver|]. rewrite Hl.
  assert (Hc : components p = split_slash p). { apply filter_all. intros c Hc. by rewrite Hp. }
  rewrite Hc. assert (Hn : Z.of_nat (length (split_slash p)) - 1 = Z.of_nat (length (removelast (split_slash p)))).
  { assert (Hne : split_slash p <> []) by (destruct p as [|c p]; cbn; [done|]; repeat case_match; done).
    rewrite (List.app_removelast_last [] Hne) at 1. rewrite length_app. cbn. lia. }
  rewrite Hn. pose proof (resolve_descend fuel (removelast (split_slash p)) (split_slash target) Hf) as Hr.
  destruct (descend _ _) as [d|].
  - destruct Hr as (at_ & -> & _). split; [by eexists|done].
  - rewrite Hr. naive_solver.
Qed.

(** ** Concrete manifests *)

Definition s (l : string) : str := Bytes.str_bytes l.
Definition plain_lower (c : Z) : list Z := [ascii_lower c].

Lemma plain_symlink_contained_witness :
  symlink_escapes (s "bin/tool") (s "../lib/tool") = false /\
  lands [] 9 (s "bin/tool") (s "../lib/tool") = Inside [s "lib"; s "tool"].
Proof.
  split; [|vm_compute; reflexivity].
  apply (plain_symlink_contained [] (s "bin/tool") (s "../lib/tool") 9).
  - intros c Hc. vm_compute in Hc. apply list_elem_of_In in Hc. cbn in Hc. destruct Hc as [<-|[<-|[]]]; vm_compute; reflexivity.
  - reflexivity.
  - vm_compute. lia.
  - eexists. vm_compute. reflexivity.
Defined.

(** A dot in the path of a link counts as a directory: the link leads to the parent of the root. *)
Theorem dot_path_symlink_escapes :
  validate_manifest plain_lower [{| path := s "./up"; kind := Symlink (s "..") |}] = Ok tt /\
  lands [{| path := s "./up"; kind := Symlink (s "..") |}] 9 (s "./up") (s "..") = Outside.
Proof. split; vm_compute; reflexivity. Qed.

(** A link through another link: both are counted as staying inside, and the second leads out. *)
Definition chained : list ManifestMember :=
  [{| path := s "d"; kind := Directory |}; {| path := s "d/l"; kind := Symlink (s "..") |};
   {| path := s "out"; kind := Symlink (s "d/l/..") |}].

Theorem chained_symlinks_escape :
  validate_manifest plain_lower chained = Ok tt /\ lands chained 9 (s "out") (s "d/l/..") = Outside.
Proof. split; vm_compute; reflexivity. Qed.

(** Two spellings of one path are two members. *)
Theorem aliases_accepted :
  validate_manifest plain_lower [{| path := s "a/b"; kind := File |}; {| path := s "a/./b"; kind := File |}] = Ok tt /\
  components (s "a/b") = components (s "a/./b").
Proof. split; vm_compute; reflexivity. Qed.

End MemberFacts.

(** * Tree manifests *)

Module Trees.

#[warnings="-register-all"]
Inductive TreeNode :=
  | FileNode (name : string) (chunks : list TypedDigest)
  | DirNode (name : string) (subtree_digest : TypedDigest) (children : list TreeNode).

Definition node_name (n : TreeNode) : string := match n with FileNode n _ | DirNode n _ _ => n end.

Record DiffStats := { subtrees_skipped : Z; nodes_visited : Z }. (* u64 *)

Definition visited_one (s : DiffStats) : DiffStats :=
  {| subtrees_skipped := subtrees_skipped s; nodes_visited := wadd 64 (nodes_visited s) 1 |}.
Definition skipped_one (s : DiffStats) : DiffStats :=
  {| subtrees_skipped := wadd 64 (subtrees_skipped s) 1; nodes_visited := nodes_visited s |}.

(** The chunks of a file the other side has under the same name. *)
Definition known_chunks (have : option TreeNode) : list TypedDigest :=
  match have with Some (FileNode _ cs) => cs | _ => [] end.

Definition add_missing (known : list TypedDigest) (missing : list TypedDigest) (c : TypedDigest) : list TypedDigest :=
  if bool_decide (c ∈ known) || bool_decide (c ∈ missing) then missing else missing ++ [c].

Definition child_of (have : option TreeNode) (name : string) : option TreeNode :=
  match have with
  | Some (DirNode _ _ cs) => List.find (fun c => bool_decide (node_name c = name)) cs
  | _ => None
  end.

Definition same_subtree (have : option TreeNode) (d : TypedDigest) : bool :=
  match have with Some (DirNode _ d' _) => bool_decide (d' = d) | _ => false end.

Fixpoint walk (want : TreeNode) (have : option TreeNode) (missing : list TypedDigest) (stats : DiffStats) :
    list TypedDigest * DiffStats :=
  let stats := visited_one stats in
  match want with
  | FileNode _ chunks => (fold_left (add_missing (known_chunks have)) chunks missing, stats)
  | DirNode _ d children =>
      if same_subtree have d then (missing, skipped_one stats)
      else
        (fix each (cs : list TreeNode) (missing : list TypedDigest) (stats : DiffStats) :=
           match cs with
           | [] => (missing, stats)
           | c :: cs => let (missing, stats) := walk c (child_of have (node_name c)) missing stats in each cs missing stats
           end) children missing stats
  end.

Definition missing_chunks (want : TreeNode) (have : option TreeNode) : list TypedDigest * DiffStats :=
  walk want have [] {| subtrees_skipped := 0; nodes_visited := 0 |}.

End Trees.

Module TreeFacts.
Import Trees.

(** All chunks below a node, and all directories. *)
Fixpoint chunks_of (n : TreeNode) : list TypedDigest :=
  match n with FileNode _ cs => cs | DirNode _ _ children => concat (map chunks_of children) end.

Fixpoint dirs_of (n : TreeNode) : list (TypedDigest * list TreeNode) :=
  match n with FileNode _ _ => [] | DirNode _ d children => (d, children) :: concat (map dirs_of children) end.

Definition chunks_under (h : option TreeNode) : list TypedDigest := from_option chunks_of [] h.
Definition dirs_under (h : option TreeNode) : list (TypedDigest * list TreeNode) := from_option dirs_of [] h.

Lemma tree_ind' (P : TreeNode -> Prop) :
  (forall n cs, P (FileNode n cs)) -> (forall n d children, Forall P children -> P (DirNode n d children)) ->
  forall t, P t.
Proof.
  intros Hf Hd. fix IH 1. intros [n cs|n d children]; [apply Hf|]. apply Hd.
  induction children as [|c children IHc]; constructor; [apply IH|apply IHc].
Qed.

(** What a receiver may rely on: a subtree digest both sides have stands for the same chunks. *)
Definition honest (W H : list (TypedDigest * list TreeNode)) : Prop :=
  forall d cs cs', (d, cs) ∈ W -> (d, cs') ∈ H ->
    forall x, x ∈ concat (map chunks_of cs) -> x ∈ concat (map chunks_of cs').

Lemma honest_sub W H W' H' : honest W H -> (forall p, p ∈ W' -> p ∈ W) -> (forall p, p ∈ H' -> p ∈ H) -> honest W' H'.
Proof. intros Hh HW HH d cs cs' Hd Hd'. by apply (Hh d); auto. Qed.

Lemma elem_of_concat_map {A B} (f : A -> list B) l (y : B) : y ∈ concat (map f l) <-> exists x, x ∈ l /\ y ∈ f x.
Proof.
  rewrite list_elem_of_In, in_concat. setoid_rewrite in_map_iff. setoid_rewrite list_elem_of_In. naive_solver.
Qed.

Lemma child_of_sub have name c :
  child_of have name = Some c ->
  (forall x, x ∈ chunks_of c -> x ∈ chunks_under have) /\ (forall p, p ∈ dirs_of c -> p ∈ dirs_under have).
Proof.
  destruct have as [[n cs|n d children]|]; cbn; try done. intros [Hin _]%List.find_some. apply list_elem_of_In in Hin.
  split.
  - intros x Hx. apply elem_of_concat_map. by exists c.
  - intros p Hp. right. apply elem_of_concat_map. by exists c.
Qed.

Lemma add_missing_all known chunks missing :
  NoDup missing ->
  NoDup (fold_left (add_missing known) chunks missing) /\
  (forall x, x ∈ fold_left (add_missing known) chunks missing <-> x ∈ missing \/ (x ∈ chunks /\ x ∉ known)).
Proof.
  revert missing. induction chunks as [|c chunks IH]; intros missing Hm; cbn.
  { split; [done|]. intros x. rewrite elem_of_nil. tauto. }
  assert (Hm' : NoDup (add_missing known missing c) /\
    forall x, x ∈ add_missing known missing c <-> x ∈ missing \/ (x = c /\ x ∉ known)).
  { unfold add_missing. case_bool_decide as Hk; cbn; [split; [done|naive_solver]|].
    case_bool_decide as Hc; cbn; [split; [done|naive_solver]|]. split.
    - apply NoDup_app. split_and!; [done|by intros x Hx ->%list_elem_of_singleton|apply NoDup_singleton].
    - intros x. rewrite elem_of_app, list_elem_of_singleton. naive_solver. }
  destruct Hm' as [Hn Hx]. destruct (IH _ Hn) as [H1 H2]. split; [done|]. intros x. rewrite H2, Hx, elem_of_cons. tauto.
Qed.

(** What a walk adds. *)
Definition completes (want : TreeNode) (have : option TreeNode) (missing missing' : list TypedDigest) : Prop :=
  NoDup missing' /\ (forall x, x ∈ missing -> x ∈ missing') /\
  (forall x, x ∈ missing' -> x ∈ missing \/ x ∈ chunks_of want) /\
  forall x, x ∈ chunks_of want -> x ∈ missing' \/ x ∈ chunks_under have.

Lemma walk_completes want have missing stats :
  honest (dirs_of want) (dirs_under have) -> NoDup missing -> completes want have missing (fst (walk want have missing stats)).
Proof.
  revert have missing stats. induction want as [n cs|n d children IH] using tree_ind'; intros have missing stats Hh Hm.
  - cbn. destruct (add_missing_all (known_chunks have) cs missing Hm) as [Hn Hx]. unfold completes. cbn.
    split_and!; [done|naive_solver|naive_solver|]. intros x Hin. destruct (decide (x ∈ known_chunks have)) as [Hk|Hk].
    + right. destruct have as [[? ?|? ? ?]|]; cbn in *; [done|by apply not_elem_of_nil in Hk|by apply not_elem_of_nil in Hk].
    + left. apply Hx. by right.
  - cbn [walk]. destruct (same_subtree have d) eqn:Es.
    { destruct have as [[? ?|n' d' children']|]; cbn in Es; try done. apply bool_decide_eq_true in Es as ->.
      unfold completes. cbn. split_and!; [done|tauto|tauto|]. intros x Hx. right.
      apply (Hh d children children'); [by left|by left|done]. }
    generalize (visited_one stats). clear stats Es.
    assert (Hh' : forall c, c ∈ children -> forall h, h = child_of have (node_name c) -> honest (dirs_of c) (dirs_under h)).
    { intros c Hc h ->. apply (honest_sub _ _ _ _ Hh).
      - intros p Hp. right. apply elem_of_concat_map. by exists c.
      - intros p Hp. destruct (child_of have (node_name c)) as [h|] eqn:E; [|by apply not_elem_of_nil in Hp].
        by apply (child_of_sub _ _ _ E). }
    unfold completes. cbn [chunks_of]. clear Hh. revert missing Hm. induction children as [|c cs IHc]; intros missing Hm stats.
    { cbn. split_and!; [done|tauto|tauto|]. by intros x Hx%not_elem_of_nil. }
    apply Forall_cons in IH as [IHw IH]. cbn [map concat].
    destruct (walk c (child_of have (node_name c)) missing stats) as [m1 s1] eqn:Ew.
    assert (H1 : completes c (child_of have (node_name c)) missing m1).
    { pose proof (IHw (child_of have (node_name c)) missing stats) as Hw. rewrite Ew in Hw. apply Hw; [|done].
      by apply (Hh' c); [left|]. }
    destruct H1 as (Hn1 & Hs1 & Hb1 & Hc1).
    destruct (IHc IH ltac:(intros c' Hc'; apply Hh'; by right) m1 Hn1 s1) as (Hn2 & Hs2 & Hb2 & Hc2).
    cbn beta iota zeta in *. split_and!; [done|auto| |].
    + intros x Hx. rewrite elem_of_app. apply Hb2 in Hx as [Hx|Hx]; [apply Hb1 in Hx as [?|?]|]; tauto.
    + intros x [Hx|Hx]%elem_of_app; [|by apply Hc2]. apply Hc1 in Hx as [Hx|Hx]; [left; auto|]. right.
      destruct (child_of have (node_name c)) as [h|] eqn:E; [|by apply not_elem_of_nil in Hx].
      by apply (child_of_sub _ _ _ E).
Qed.

(** What a receiver is sent completes its tree: where equal subtree digests stand for equal chunks, every chunk of
    the wanted tree is among those it has or those reported missing; nothing is reported twice and nothing that is not
    wanted. *)
Theorem missing_chunks_complete want have :
  honest (dirs_of want) (dirs_under have) ->
  let missing := fst (missing_chunks want have) in
  NoDup missing /\ (forall x, x ∈ missing -> x ∈ chunks_of want) /\
  forall x, x ∈ chunks_of want -> x ∈ missing \/ x ∈ chunks_under have.
Proof.
  intros Hh. cbn zeta. destruct (walk_completes want have [] {| subtrees_skipped := 0; nodes_visited := 0 |} Hh) as (Hn & _ & Hb & Hc).
  { constructor. }
  split_and!; [exact Hn| |exact Hc]. intros x [Hx|Hx]%Hb; [by apply not_elem_of_nil in Hx|done].
Qed.

Definition chunk (n : Z) : TypedDigest := {| algorithm := Sha256V1; domain := "rabs/chunk"; digest_bytes := [n] |}.
Definition new_tree : TreeNode :=
  DirNode "root" (chunk 100) [DirNode "lib" (chunk 101) [FileNode "a" [chunk 1]]; FileNode "b" [chunk 2; chunk 3; chunk 2]].
Definition old_tree : TreeNode :=
  DirNode "root" (chunk 99) [DirNode "lib" (chunk 101) [FileNode "a" [chunk 1]]; FileNode "b" [chunk 3]].

Lemma missing_chunks_complete_witness :
  missing_chunks new_tree (Some old_tree) = ([chunk 2], {| subtrees_skipped := 1; nodes_visited := 3 |}) /\
  forall x, x ∈ chunks_of new_tree -> x ∈ [chunk 2] \/ x ∈ chunks_of old_tree.
Proof.
  assert (E : missing_chunks new_tree (Some old_tree) = ([chunk 2], {| subtrees_skipped := 1; nodes_visited := 3 |}))
    by (vm_compute; reflexivity).
  split; [exact E|]. destruct (missing_chunks_complete new_tree (Some old_tree)) as (_ & _ & Hc).
  - intros d cs cs' Hd Hd'. apply list_elem_of_In in Hd, Hd'. cbn in Hd, Hd'.
    destruct Hd as [Hd|[Hd|[]]], Hd' as [Hd'|[Hd'|[]]]; simplify_eq; done.
  - rewrite E in Hc. exact Hc.
Defined.

(** A file under another name is sent again, although the receiver has its chunks. *)
Theorem renamed_file_sent_again :
  fst (missing_chunks (DirNode "r" (chunk 1) [FileNode "new" [chunk 7]]) (Some (DirNode "r" (chunk 2) [FileNode "old" [chunk 7]])))
  = [chunk 7].
Proof. vm_compute. reflexivity. Qed.

End TreeFacts.
