(* ===== verification/Fences.v ===== *)
(** * Who may act: incarnations, handoffs, leases and the fallback

    [EdgeFence]: which incarnation of an edge owns the rights of its wrappers, and the
    handoff between two (rabs-protocol/src/edge_fence.rs).  [WorkerFence]: admission of a
    worker session against the fence row of the worker (worker_fence.rs), and renewal of an
    execution lease (generation.rs).  [FenceRows]: the rows of the metadata store that make
    both durable (rabs-cas/src/metadata_store.rs).  [Rights]: the gate through which remote
    output enters an operation's tree, and its revocation before a local fallback
    (materialization_rights.rs).

    Incarnations are u128, sequence numbers and generations u64. *)

From stdpp Require Import base list gmap strings.
From Stdlib Require Import ZArith Lia.
From S2P Require Import Prelude Manifest Store Ledger.
Import ResultIdentity Store Ledger.

Module EdgeFence.

Record EdgeIncarnationFenceRecord := {
  rec_edge_id : string;
  rec_boot_generation : Z;
  owner_incarnation : Z;
  fenced_incarnation : Z;
  rec_session_set : list Z;
  fenced_at_seq : Z;
}.

Record HandoffToken := {
  token_edge_id : string;
  predecessor_incarnation : Z;
  successor_incarnation : Z;
  session_set : list Z;
  authorized_by : TypedDigest;
}.

Inductive FenceError :=
  | PredecessorMismatch (claimed actual : Z)
  | WrongEdge
  | NotAuthorized
  | HandoffAlreadyActive
  | NoActiveHandoff
  | HandoffExpired (deadline_seq : Z)
  | FrontiersIncomplete (predecessor_reported successor_reported : bool)
  | NotSoleOwner (incarnation owner : Z)
  | NotInHandoff (incarnation : Z).

Record ActiveHandoff := {
  token : HandoffToken;
  deadline_seq : Z;
  predecessor_reported : bool;
  successor_reported : bool;
}.

Record EdgeOwnership := {
  edge_id : string;
  boot_generation : Z;
  sole_owner : Z;
  handoff : option ActiveHandoff;
}.

Definition cold_boot (edge : string) (generation incarnation : Z) : EdgeOwnership :=
  {| edge_id := edge; boot_generation := generation; sole_owner := incarnation; handoff := None |}.

Definition check_rights (e : EdgeOwnership) (incarnation : Z) : result FenceError unit :=
  if incarnation =? sole_owner e then Ok tt
  else Err (NotSoleOwner incarnation (sole_owner e)).

Definition honored_predecessor (e : EdgeOwnership) : option Z :=
  (fun h => predecessor_incarnation (token h)) <$> handoff e.

Definition with_handoff (e : EdgeOwnership) (h : option ActiveHandoff) : EdgeOwnership :=
  {| edge_id := edge_id e; boot_generation := boot_generation e; sole_owner := sole_owner e;
     handoff := h |}.

Definition begin_handoff (tk : HandoffToken) (active_authority : TypedDigest) (deadline : Z) :
    method EdgeOwnership FenceError unit := fun e =>
  if bool_decide (is_Some (handoff e)) then (Err HandoffAlreadyActive, e)
  else if negb (bool_decide (token_edge_id tk = edge_id e)) then (Err WrongEdge, e)
  else if negb (bool_decide (authorized_by tk = active_authority)) then (Err NotAuthorized, e)
  else if negb (predecessor_incarnation tk =? sole_owner e) then
    (Err (PredecessorMismatch (predecessor_incarnation tk) (sole_owner e)), e)
  else
    (Ok tt, with_handoff e (Some {| token := tk; deadline_seq := deadline;
                                    predecessor_reported := false; successor_reported := false |})).

Definition report_frontier (incarnation : Z) : method EdgeOwnership FenceError unit := fun e =>
  match handoff e with
  | None => (Err NoActiveHandoff, e)
  | Some h =>
      if incarnation =? predecessor_incarnation (token h) then
        (Ok tt, with_handoff e (Some {| token := token h; deadline_seq := deadline_seq h;
                                        predecessor_reported := true;
                                        successor_reported := successor_reported h |}))
      else if incarnation =? successor_incarnation (token h) then
        (Ok tt, with_handoff e (Some {| token := token h; deadline_seq := deadline_seq h;
                                        predecessor_reported := predecessor_reported h;
                                        successor_reported := true |}))
      else (Err (NotInHandoff incarnation), e)
  end.

Definition complete_handoff (current_seq : Z) :
    method EdgeOwnership FenceError EdgeIncarnationFenceRecord := fun e =>
  match handoff e with
  | None => (Err NoActiveHandoff, e)
  | Some h =>
      if deadline_seq h <? current_seq then (Err (HandoffExpired (deadline_seq h)), with_handoff e None)
      else if negb (predecessor_reported h && successor_reported h) then
        (Err (FrontiersIncomplete (predecessor_reported h) (successor_reported h)), e)
      else
        let generation := wadd 64 (boot_generation e) 1 in
        (Ok {| rec_edge_id := edge_id e;
               rec_boot_generation := generation;
               owner_incarnation := successor_incarnation (token h);
               fenced_incarnation := predecessor_incarnation (token h);
               rec_session_set := session_set (token h);
               fenced_at_seq := current_seq |},
         {| edge_id := edge_id e; boot_generation := generation;
            sole_owner := successor_incarnation (token h); handoff := None |})
  end.

End EdgeFence.

Module WorkerFence.

Record WorkerIncarnationFenceRecord := {
  worker_peer_id : string;
  highest_boot_generation : Z;
  active_incarnation : option Z;
  operator_reenrollment_generation : Z;
}.

Record WorkerSessionOffer := {
  offer_peer_id : string;
  offer_boot_generation : Z;
  incarnation : Z;
  reenrollment_proof : option Z;
}.

Inductive WorkerAdmission :=
  | AdmitNewGeneration | AdmitReconnect | AdmitResume | AdmitViaReenrollment
  | RejectStaleBootGeneration | RejectCloneAmbiguity | RejectIdentityMismatch.

#[export] Instance WorkerAdmission_eq_dec : EqDecision WorkerAdmission.
Proof. solve_decision. Defined.

Definition evaluate (row : WorkerIncarnationFenceRecord) (offer : WorkerSessionOffer) :
    WorkerAdmission :=
  if negb (bool_decide (offer_peer_id offer = worker_peer_id row)) then RejectIdentityMismatch
  else if match reenrollment_proof offer with
          | Some proof => operator_reenrollment_generation row <? proof
          | None => false
          end then AdmitViaReenrollment
  else if offer_boot_generation offer <? highest_boot_generation row then RejectStaleBootGeneration
  else if highest_boot_generation row <? offer_boot_generation offer then AdmitNewGeneration
  else
    match active_incarnation row with
    | None => AdmitResume
    | Some active => if active =? incarnation offer then AdmitReconnect else RejectCloneAmbiguity
    end.

Inductive RenewalDecision := Accept | RefuseStaleSequence | RefuseWrongLease.

(** The fields of an attempt's authority a renewal is judged by. *)
Record lease_view := { execution_lease_id : Z; lease_renewal_seq : Z }.

Record LeaseRenewal := { lease : Z; renewal_seq : Z }.

Definition evaluate_renewal (a : lease_view) (r : LeaseRenewal) : RenewalDecision :=
  if negb (lease r =? execution_lease_id a) then RefuseWrongLease
  else if renewal_seq r <=? lease_renewal_seq a then RefuseStaleSequence
  else Accept.

End WorkerFence.

Module FenceRows.

Record EdgeHandoffRow := {
  row_active : Z;
  row_predecessor : Z;
  row_begun_seq : Z;
  row_resolved : bool;
}.

(** The fence and handoff tables beside those of the ledger. *)
Record fenced := {
  main : ledger;
  worker_incarnation_fences : gmap string Z;
  edge_incarnation_fences : gmap string Z;
  edge_handoffs : gmap string EdgeHandoffRow;
}.

Definition fdb (A : Type) : Type := method fenced StoreError A.

Definition fence_txn {A} (body : fdb A) : fdb A := fun f =>
  match body f with
  | (Ok a, f') => (Ok a, f')
  | (Err e, _) => (Err e, f)
  end.

Definition active_only (authority : TypedDigest) : fdb unit := fun f =>
  match require_active authority (main f) with
  | (r, l) => (r, {| main := l; worker_incarnation_fences := worker_incarnation_fences f;
                     edge_incarnation_fences := edge_incarnation_fences f;
                     edge_handoffs := edge_handoffs f |})
  end.

Definition set_worker_fence (w : string) (i : Z) (f : fenced) : fenced :=
  {| main := main f; worker_incarnation_fences := <[w := i]> (worker_incarnation_fences f);
     edge_incarnation_fences := edge_incarnation_fences f; edge_handoffs := edge_handoffs f |}.

Definition set_edge_fence (e : string) (i : Z) (f : fenced) : fenced :=
  {| main := main f; worker_incarnation_fences := worker_incarnation_fences f;
     edge_incarnation_fences := <[e := i]> (edge_incarnation_fences f);
     edge_handoffs := edge_handoffs f |}.

Definition set_handoff (e : string) (r : EdgeHandoffRow) (f : fenced) : fenced :=
  {| main := main f; worker_incarnation_fences := worker_incarnation_fences f;
     edge_incarnation_fences := edge_incarnation_fences f;
     edge_handoffs := <[e := r]> (edge_handoffs f) |}.

(** The monotone write both fences share: stale is refused, equal is a no-op. *)
Definition advance (stored : option Z) (incarnation : Z) (stale : StoreError)
    (write : fenced -> fenced) : fdb unit :=
  match stored with
  | Some s =>
      if incarnation <? s then throw stale
      else if incarnation =? s then mret tt
      else modify write
  | None => modify write
  end.

Definition advance_worker_fence (authority : TypedDigest) (worker : string) (incarnation : Z) :
    fdb unit :=
  fence_txn (_ ← active_only authority;
             f ← get;
             advance (worker_incarnation_fences f !! worker) incarnation StaleWorkerIncarnation
               (set_worker_fence worker incarnation)).

Definition worker_fence (worker : string) : fdb (option Z) :=
  f ← get; mret (worker_incarnation_fences f !! worker).

Definition advance_edge_fence (authority : TypedDigest) (edge : string) (incarnation : Z) :
    fdb unit :=
  fence_txn (_ ← active_only authority;
             f ← get;
             advance (edge_incarnation_fences f !! edge) incarnation StaleEdgeIncarnation
               (set_edge_fence edge incarnation)).

Definition edge_fence (edge : string) : fdb (option Z) :=
  f ← get; mret (edge_incarnation_fences f !! edge).

(** The rest of [begin_edge_handoff] when no unresolved handoff is recorded. *)
Definition record_handoff (edge : string) (active predecessor begun : Z) : fdb unit :=
  f ← get;
  _ ← refuse_if (match edge_incarnation_fences f !! edge with
                 | Some v => negb (v =? predecessor)
                 | None => false
                 end) EdgeHandoffPredecessorMismatch;
  _ ← refuse_if (active <=? predecessor) StaleEdgeIncarnation;
  modify (set_handoff edge {| row_active := active; row_predecessor := predecessor;
                              row_begun_seq := begun; row_resolved := false |}).

Definition begin_edge_handoff (authority : TypedDigest) (edge : string)
    (active predecessor begun_seq : Z) : fdb unit :=
  begun ← lift_result (to_i64 "begun_seq" begun_seq);
  fence_txn (
    _ ← active_only authority;
    f ← get;
    match edge_handoffs f !! edge with
    | Some row =>
        if negb (row_resolved row) then
          if (row_active row =? active) && (row_predecessor row =? predecessor) then mret tt
          else throw EdgeHandoffActive
        else record_handoff edge active predecessor begun
    | None => record_handoff edge active predecessor begun
    end).

Definition resolve_edge_handoff (authority : TypedDigest) (edge : string) (active : Z) : fdb unit :=
  fence_txn (
    _ ← active_only authority;
    f ← get;
    match edge_handoffs f !! edge with
    | None => throw UnknownEdgeHandoff
    | Some row =>
        _ ← refuse_if (row_resolved row || negb (row_active row =? active)) UnknownEdgeHandoff;
        _ ← modify (set_handoff edge {| row_active := row_active row;
                                        row_predecessor := row_predecessor row;
                                        row_begun_seq := row_begun_seq row;
                                        row_resolved := true |});
        modify (set_edge_fence edge active)
    end).

Definition active_edge_handoff (edge : string) : fdb (option EdgeHandoffRow) :=
  f ← get;
  mret (row ← edge_handoffs f !! edge; if row_resolved row then None else Some row).

End FenceRows.

Module Rights.

Inductive RightsRefusal :=
  | RightsRevoked
  | NotStaged (write_id : Z)
  | AlreadyRevoked.

Inductive WriteSource :=
  | Remote (rights_epoch : Z)
  | LocalFallback.

Definition OperationTree : Type := list (Z * WriteSource).

Record FallbackClearance := { fenced_epoch : Z; staged_discarded : nat }.

Record MaterializationGate := {
  epoch : Z;
  attached : bool;
  revoked : bool;
  staging : list Z;
}.

Definition gate_new (e : Z) : MaterializationGate :=
  {| epoch := e; attached := true; revoked := false; staging := [] |}.

Definition with_staging (g : MaterializationGate) (l : list Z) : MaterializationGate :=
  {| epoch := epoch g; attached := attached g; revoked := revoked g; staging := l |}.

Definition stage (write_id : Z) : method MaterializationGate RightsRefusal unit := fun g =>
  if revoked g then (Err RightsRevoked, g)
  else (Ok tt, with_staging g (staging g ++ [write_id])).

Definition commit_staged (write_id : Z) :
    method (MaterializationGate * OperationTree) RightsRefusal unit := fun gt =>
  let (g, tree) := gt in
  if revoked g then (Err RightsRevoked, gt)
  else
    match list_find (fun w => w = write_id) (staging g) with
    | None => (Err (NotStaged write_id), gt)
    | Some (index, _) =>
        (Ok tt, (with_staging g (delete index (staging g)),
                 tree ++ [(write_id, Remote (epoch g))]))
    end.

Definition revoke_for_fallback : method MaterializationGate RightsRefusal FallbackClearance := fun g =>
  if revoked g then (Err AlreadyRevoked, g)
  else
    (Ok {| fenced_epoch := epoch g; staged_discarded := length (staging g) |},
     {| epoch := epoch g; attached := false; revoked := true; staging := [] |}).

Definition run_original_chain (clearance : FallbackClearance) (tree : OperationTree)
    (local_write_ids : list Z) : OperationTree :=
  tree ++ ((fun i => (i, LocalFallback)) <$> local_write_ids).

End Rights.

(** * Properties *)

Module EdgeFacts.
Import EdgeFence.

Inductive op :=
  | Begin (tk : HandoffToken) (active_authority : TypedDigest) (deadline : Z)
  | Report (incarnation : Z)
  | Complete (seq : Z).

(** An operation, the fence record it may produce, and the state it leaves. *)
Definition apply_op (o : op) (e : EdgeOwnership) : list EdgeIncarnationFenceRecord * EdgeOwnership :=
  match o with
  | Begin tk auth d => ([], snd (begin_handoff tk auth d e))
  | Report i => ([], snd (report_frontier i e))
  | Complete seq =>
      match complete_handoff seq e with (Ok r, e) => ([r], e) | (Err _, e) => ([], e) end
  end.

Definition run (ops : list op) (e : EdgeOwnership) : list EdgeIncarnationFenceRecord * EdgeOwnership :=
  foldl (fun '(rs, e) o => (rs ++ fst (apply_op o e), snd (apply_op o e))) ([], e) ops.

Lemma handoff_run_snoc ops o e :
  run (ops ++ [o]) e
  = (fst (run ops e) ++ fst (apply_op o (snd (run ops e))), snd (apply_op o (snd (run ops e)))).
Proof.
  unfold run. rewrite foldl_app. cbn. by destruct (foldl _ _ ops) as [rs e'].
Qed.

(** Ownership passed from [a] to [b] along the records. *)
Fixpoint chain (a : Z) (rs : list EdgeIncarnationFenceRecord) (b : Z) : Prop :=
  match rs with
  | [] => a = b
  | r :: rs => fenced_incarnation r = a /\ chain (owner_incarnation r) rs b
  end.

Lemma chain_snoc a rs b r :
  chain a rs b -> fenced_incarnation r = b -> chain a (rs ++ [r]) (owner_incarnation r).
Proof. revert a. induction rs as [|x rs IH]; cbn; [by intros ? -> |]. naive_solver. Qed.

(** The token of a handoff was presented to this edge, with the authority that was active. *)
Definition presented (edge : string) (ops : list op) (tk : HandoffToken) (deadline : Z) : Prop :=
  token_edge_id tk = edge /\ Begin tk (authorized_by tk) deadline ∈ ops.

(** What entitles a fence record. *)
Definition entitled (edge : string) (ops : list op) (r : EdgeIncarnationFenceRecord) : Prop :=
  exists tk deadline,
    presented edge ops tk deadline
    /\ owner_incarnation r = successor_incarnation tk
    /\ fenced_incarnation r = predecessor_incarnation tk
    /\ rec_session_set r = session_set tk
    /\ Complete (fenced_at_seq r) ∈ ops /\ fenced_at_seq r <= deadline
    /\ Report (predecessor_incarnation tk) ∈ ops /\ Report (successor_incarnation tk) ∈ ops.

Definition handoff_ok (edge : string) (ops : list op) (owner : Z) (h : ActiveHandoff) : Prop :=
  presented edge ops (token h) (deadline_seq h)
  /\ predecessor_incarnation (token h) = owner
  /\ (predecessor_reported h = true -> Report (predecessor_incarnation (token h)) ∈ ops)
  /\ (successor_reported h = true -> Report (successor_incarnation (token h)) ∈ ops).

Lemma elem_snoc {A} (x : A) l y : x ∈ l -> x ∈ l ++ [y].
Proof. set_solver. Qed.

Lemma entitled_snoc edge ops o r : entitled edge ops r -> entitled edge (ops ++ [o]) r.
Proof.
  intros (tk & d & [He Hb] & ? & ? & ? & ? & ? & ? & ?). exists tk, d.
  repeat split; try done; by apply elem_snoc.
Qed.

Lemma handoff_snoc edge ops o owner h : handoff_ok edge ops owner h -> handoff_ok edge (ops ++ [o]) owner h.
Proof.
  intros ([He Hb] & Hp & H1 & H2). split; [split; [done|by apply elem_snoc]|].
  split; [done|]. split; intros ?; apply elem_snoc; auto.
Qed.

Section history.
Context (edge : string) (generation incarnation : Z).

Definition sound (ops : list op) (rs : list EdgeIncarnationFenceRecord) (e : EdgeOwnership) : Prop :=
  edge_id e = edge
  /\ chain incarnation rs (sole_owner e)
  /\ wrap 64 (boot_generation e) = wrap 64 (generation + Z.of_nat (length rs))
  /\ Forall (entitled edge ops) rs
  /\ (forall h, handoff e = Some h -> handoff_ok edge ops (sole_owner e) h).

Lemma sound_weaken ops o rs e : sound ops rs e -> sound (ops ++ [o]) rs e.
Proof.
  intros (He & Hc & Hg & Hf & Hh). split; [done|]. split; [done|]. split; [done|]. split.
  - eapply Forall_impl; [exact Hf|]. intros. by apply entitled_snoc.
  - intros h E. apply handoff_snoc. auto.
Qed.

Lemma sound_handoff ops rs e h :
  sound ops rs e -> (forall h', h = Some h' -> handoff_ok edge ops (sole_owner e) h') ->
  sound ops rs (with_handoff e h).
Proof. intros (He & Hc & Hg & Hf & _) Hh. do 4 (split; [done|]). exact Hh. Qed.

Lemma last_op ops (o : op) : o ∈ ops ++ [o].
Proof. set_solver. Qed.

Lemma apply_sound ops rs e o :
  sound ops rs e -> sound (ops ++ [o]) (rs ++ fst (apply_op o e)) (snd (apply_op o e)).
Proof.
  intros Hs. pose proof (sound_weaken ops o rs e Hs) as Hw.
  destruct Hs as (He & _ & _ & _ & Hh0).
  destruct Hw as (_ & Hc & Hg & Hf & Hh). assert (Hw : sound (ops ++ [o]) rs e) by done.
  destruct o as [tk auth d|i|seq]; cbn [apply_op fst snd]; rewrite ?app_nil_r.
  - unfold begin_handoff. destruct (bool_decide (is_Some _)); [done|].
    destruct (bool_decide (token_edge_id tk = edge_id e)) eqn:E1; cbn [negb]; [|done].
    destruct (bool_decide (authorized_by tk = auth)) eqn:E2; cbn [negb]; [|done].
    destruct (predecessor_incarnation tk =? sole_owner e) eqn:E3; cbn [negb snd]; [|done].
    apply bool_decide_eq_true in E1, E2. apply Z.eqb_eq in E3. apply sound_handoff; [done|].
    intros ? [= <-]. subst auth. split; [split; [cbn; congruence|apply last_op]|].
    split; [done|]. by split.
  - unfold report_frontier. destruct (handoff e) as [h|] eqn:E; [|done].
    destruct (Hh h eq_refl) as (Hp & Hown & H1 & H2).
    destruct (i =? predecessor_incarnation (token h)) eqn:E1; cbn [snd].
    { apply Z.eqb_eq in E1. apply sound_handoff; [done|]. intros ? [= <-]. split; [done|].
      split; [done|]. cbn. split; [|done]. intros _. subst i. apply last_op. }
    destruct (i =? successor_incarnation (token h)) eqn:E2; cbn [snd]; [|done].
    apply Z.eqb_eq in E2. apply sound_handoff; [done|]. intros ? [= <-]. split; [done|].
    split; [done|]. cbn. split; [done|]. intros _. subst i. apply last_op.
  - unfold complete_handoff. destruct (handoff e) as [h|] eqn:E; cbn [fst snd]; [|by rewrite app_nil_r].
    destruct (Hh h eq_refl) as (Hp & Hown & H1 & H2).
    destruct (deadline_seq h <? seq) eqn:E1; cbn [fst snd].
    { rewrite app_nil_r. by apply sound_handoff. }
    destruct (predecessor_reported h && successor_reported h) eqn:E2; cbn [negb fst snd];
      [|by rewrite app_nil_r].
    apply andb_true_iff in E2 as [E2 E3]. split; [done|]. split; [|split; [|split]].
    + apply (chain_snoc _ _ (sole_owner e)); done.
    + cbn [boot_generation]. rewrite length_app. cbn [length].
      replace (generation + Z.of_nat (length rs + 1)) with (generation + Z.of_nat (length rs) + 1) by lia.
      unfold wadd, wrap in *. rewrite Z.mod_mod by lia.
      rewrite <- Z.add_mod_idemp_l, Hg, Z.add_mod_idemp_l by lia. done.
    + apply Forall_app. split; [done|]. apply Forall_singleton. exists (token h), (deadline_seq h).
      cbn. repeat split; try apply Hp; auto; [apply last_op|lia].
    + done.
Qed.

(** Ownership of an edge moves only through complete, authorized handoffs: whatever tokens,
    reports and completions arrive, the fence records form an unbroken chain from the
    incarnation that booted to the present owner, the boot generation counts them, and each
    was entitled by a token for this edge under the authority active then, with the frontier
    reports of both incarnations, before its deadline.  Rights are the owner's alone. *)
Theorem ownership_handed_over ops :
  let rs := fst (run ops (cold_boot edge generation incarnation)) in
  let e := snd (run ops (cold_boot edge generation incarnation)) in
  chain incarnation rs (sole_owner e)
  /\ wrap 64 (boot_generation e) = wrap 64 (generation + Z.of_nat (length rs))
  /\ Forall (entitled edge ops) rs
  /\ (forall i, check_rights e i = Ok tt <-> i = sole_owner e).
Proof.
  cbn zeta. assert (sound ops (fst (run ops (cold_boot edge generation incarnation)))
                      (snd (run ops (cold_boot edge generation incarnation)))) as (_ & Hc & Hg & Hf & _).
  { induction ops as [|o ops IH] using rev_ind.
    - split; [done|]. split; [done|]. split; [cbn; f_equal; lia|]. by split.
    - rewrite handoff_run_snoc. by apply apply_sound. }
  split; [done|]. split; [done|]. split; [done|]. intros i. unfold check_rights.
  destruct (Z.eqb_spec i (sole_owner (snd (run ops (cold_boot edge generation incarnation))))); naive_solver.
Qed.
End history.

End EdgeFacts.

Module RightsFacts.
Import Rights.

(** The gate and tree of one operation, and the clearances handed out. *)
Record world := { gate : MaterializationGate; tree : OperationTree; clearances : list FallbackClearance }.

Inductive step : relation world :=
  | step_stage g t c w : step {| gate := g; tree := t; clearances := c |}
                              {| gate := snd (stage w g); tree := t; clearances := c |}
  | step_commit g t c w g' t' : snd (commit_staged w (g, t)) = (g', t') ->
      step {| gate := g; tree := t; clearances := c |} {| gate := g'; tree := t'; clearances := c |}
  | step_revoke g t c : step {| gate := g; tree := t; clearances := c |}
                             {| gate := snd (revoke_for_fallback g); tree := t;
                                clearances := match fst (revoke_for_fallback g) with
                                              | Ok x => c ++ [x] | Err _ => c end |}
  | step_local g t c x ids : x ∈ c ->
      step {| gate := g; tree := t; clearances := c |}
           {| gate := g; tree := run_original_chain x t ids; clearances := c |}.

(** Remote writes first, then local ones; nothing local without a clearance, and a clearance
    exactly when the rights are revoked. *)
Definition unmixed (e : Z) (y : world) : Prop :=
  epoch (gate y) = e
  /\ (length (clearances y) = if revoked (gate y) then 1%nat else 0%nat)
  /\ (revoked (gate y) = true -> staging (gate y) = [] /\ attached (gate y) = false)
  /\ exists remote local,
       tree y = ((fun i => (i, Remote e)) <$> remote) ++ ((fun i => (i, LocalFallback)) <$> local)
       /\ (revoked (gate y) = false -> local = []).

Lemma step_unmixed e y y' : unmixed e y -> step y y' -> unmixed e y'.
Proof.
  intros (He & Hc & Hs & remote & local & Ht & Hl) H.
  destruct H as [g t c w|g t c w g' t' E|g t c|g t c x ids Hx]; cbn [gate tree clearances] in *.
  - unfold stage. destruct (revoked g) eqn:Er; cbn [snd with_staging].
    + split; [done|]. split; [by cbn; rewrite Er|]. split; [by intros _; apply Hs|]. exists remote, local.
      split; [done|]. cbn. congruence.
    + split; [done|]. split; [by cbn; rewrite Er|]. split; [by cbn; rewrite Er|].
      exists remote, local. split; [done|]. intros _. by apply Hl.
  - unfold commit_staged in E. destruct (revoked g) eqn:Er; cbn [snd] in E.
    { injection E as <- <-. split; [done|]. split; [by cbn; rewrite Er|].
      split; [by intros _; apply Hs|]. exists remote, local. split; [done|]. cbn. congruence. }
    destruct (list_find _ (staging g)) as [[k z]|]; cbn [snd] in E; injection E as <- <-.
    + split; [done|]. split; [by cbn; rewrite Er|]. split; [by cbn; rewrite Er|].
      exists (remote ++ [w]), []. split; [|done]. cbn [tree]. rewrite Ht, (Hl eq_refl). cbn.
      rewrite !app_nil_r, fmap_app. cbn. by rewrite He.
    + split; [done|]. split; [by cbn; rewrite Er|]. split; [by cbn; rewrite Er|].
      exists remote, local. split; [done|]. intros _. by apply Hl.
  - unfold revoke_for_fallback. destruct (revoked g) eqn:Er; cbn [fst snd].
    + split; [done|]. split; [by cbn; rewrite Er|]. split; [by intros _; apply Hs|].
      exists remote, local. split; [done|]. cbn. congruence.
    + split; [done|]. split; [cbn; rewrite length_app; cbn; lia|]. split; [done|].
      exists remote, local. by split.
  - destruct (revoked g) eqn:Er; [|by destruct c; [apply elem_of_nil in Hx|]].
    split; [done|]. split; [by cbn; rewrite Er|]. split; [by intros _; apply Hs|].
    exists remote, (local ++ ids). split; [|cbn; congruence]. cbn [tree]. unfold run_original_chain.
    rewrite Ht, fmap_app, app_assoc. done.
Qed.

(** C22: a fallen-back operation never mixes two builds: in any history of staging, commits,
    revocations and runs of the original tool chain, the tree holds remote writes of one
    rights epoch followed by local writes, local writes appear only after the rights were
    revoked, there is at most one clearance, and from the revocation on no remote write is
    staged or committed. *)
Theorem fallback_tree_unmixed e y y' :
  rtc step {| gate := gate_new e; tree := []; clearances := [] |} y -> rtc step y y' ->
  unmixed e y
  /\ (revoked (gate y) = true ->
      revoked (gate y') = true /\ staging (gate y') = []
      /\ exists local, tree y' = tree y ++ ((fun i => (i, LocalFallback)) <$> local)).
Proof.
  intros H0 H. assert (Hy : unmixed e y).
  { apply (invariant_rtc step (unmixed e) (step_unmixed e)) in H0; [done|].
    split; [done|]. split; [done|]. split; [done|]. by exists [], []. }
  split; [done|]. intros Hr.
  assert (unmixed e y' /\ revoked (gate y') = true
    /\ exists local, tree y' = tree y ++ ((fun i => (i, LocalFallback)) <$> local)) as (Hu & Hr' & Hl).
  { eapply (invariant_rtc step (fun z => unmixed e z /\ revoked (gate z) = true
      /\ exists local, tree z = tree y ++ ((fun i => (i, LocalFallback)) <$> local))) in H; [exact H| |].
    - intros z z' (Hz & Hrz & local & Hlz) Hzz. split; [by eapply step_unmixed|].
      destruct Hzz as [g t c w|g t c w g' t' E|g t c|g t c x ids Hx]; cbn [gate tree] in *.
      + unfold stage. rewrite Hrz. eauto.
      + unfold commit_staged in E. rewrite Hrz in E. injection E as <- <-. eauto.
      + unfold revoke_for_fallback. rewrite Hrz. eauto.
      + split; [done|]. exists (local ++ ids). unfold run_original_chain.
        by rewrite Hlz, fmap_app, app_assoc.
    - split; [done|]. split; [done|]. exists []. by rewrite app_nil_r. }
  destruct Hu as (_ & _ & Hs & _). split; [done|]. split; [by apply Hs|done].
Qed.

Definition committed : world :=
  {| gate := with_staging (gate_new 4) [2]; tree := [(1, Remote 4)]; clearances := [] |}.
Definition cleared : world :=
  {| gate := snd (revoke_for_fallback (gate committed)); tree := [(1, Remote 4)];
     clearances := [{| fenced_epoch := 4; staged_discarded := 1 |}] |}.
Definition rebuilt : world :=
  {| gate := gate cleared; tree := [(1, Remote 4); (1, LocalFallback)]; clearances := clearances cleared |}.

Lemma fallback_tree_unmixed_witness :
  unmixed 4 cleared
  /\ (revoked (gate cleared) = true ->
      revoked (gate rebuilt) = true /\ staging (gate rebuilt) = []
      /\ exists local, tree rebuilt = tree cleared ++ ((fun i => (i, LocalFallback)) <$> local)).
Proof.
  apply (fallback_tree_unmixed 4 cleared rebuilt).
  - eapply rtc_l; [apply (step_stage _ _ _ 1)|]. eapply rtc_l; [apply (step_stage _ _ _ 2)|].
    eapply rtc_l; [by apply (step_commit _ _ _ 1 (gate committed) (tree committed))|].
    apply rtc_once. apply (step_revoke (gate committed) (tree committed) []).
  - apply rtc_once. apply (step_local (gate cleared) (tree cleared) (clearances cleared)
      {| fenced_epoch := 4; staged_discarded := 1 |} [1]). by apply list_elem_of_singleton.
Defined.

End RightsFacts.

Module FenceRowFacts.
Import FenceRows.

Inductive op :=
  | AdvanceWorker (authority : TypedDigest) (worker : string) (incarnation : Z)
  | AdvanceEdge (authority : TypedDigest) (edge : string) (incarnation : Z)
  | BeginHandoff (authority : TypedDigest) (edge : string) (active predecessor begun_seq : Z)
  | ResolveHandoff (authority : TypedDigest) (edge : string) (active : Z).

Definition apply_op (o : op) (f : fenced) : fenced :=
  snd match o with
      | AdvanceWorker a w i => advance_worker_fence a w i f
      | AdvanceEdge a e i => advance_edge_fence a e i f
      | BeginHandoff a e x p b => begin_edge_handoff a e x p b f
      | ResolveHandoff a e x => resolve_edge_handoff a e x f
      end.

(** [m'] has a fence wherever [m] has one, and not a lower one. *)
Definition raised (m m' : gmap string Z) : Prop :=
  forall k v, m !! k = Some v -> exists v', m' !! k = Some v' /\ v <= v'.

Lemma raised_refl m : raised m m.
Proof. intros k v ?. exists v. by split; [|lia]. Qed.

Lemma raised_trans m1 m2 m3 : raised m1 m2 -> raised m2 m3 -> raised m1 m3.
Proof.
  intros H1 H2 k v Hv. destruct (H1 k v Hv) as (v2 & Hv2 & ?).
  destruct (H2 k v2 Hv2) as (v3 & ? & ?). exists v3. split; [done|lia].
Qed.

Lemma raised_insert m k i :
  (forall v, m !! k = Some v -> v < i) -> raised m (<[k := i]> m).
Proof.
  intros H j v Hv. destruct (decide (k = j)) as [->|Hne].
  - exists i. rewrite lookup_insert_eq. split; [done|]. specialize (H v Hv). lia.
  - exists v. rewrite lookup_insert_ne by done. split; [done|lia].
Qed.

Lemma active_only_rows a f r f' :
  active_only a f = (r, f') ->
  worker_incarnation_fences f' = worker_incarnation_fences f
  /\ edge_incarnation_fences f' = edge_incarnation_fences f /\ edge_handoffs f' = edge_handoffs f.
Proof. unfold active_only. destruct (require_active a (main f)) as [x l]. by intros [= <- <-]. Qed.

(** Everything but the resolution of a handoff raises both kinds of fence; a resolution
    writes the edge fence of its handoff. *)
Lemma fences_rise o f :
  raised (worker_incarnation_fences f) (worker_incarnation_fences (apply_op o f))
  /\ match o with
     | ResolveHandoff _ _ _ => True
     | _ => raised (edge_incarnation_fences f) (edge_incarnation_fences (apply_op o f))
     end.
Proof.
  assert (Hsame : forall f', worker_incarnation_fences f' = worker_incarnation_fences f ->
    edge_incarnation_fences f' = edge_incarnation_fences f ->
    raised (worker_incarnation_fences f) (worker_incarnation_fences f')
    /\ raised (edge_incarnation_fences f) (edge_incarnation_fences f')).
  { intros f' -> ->. split; apply raised_refl. }
  assert (Hrefl : raised (worker_incarnation_fences f) (worker_incarnation_fences f)
    /\ raised (edge_incarnation_fences f) (edge_incarnation_fences f)) by (by apply Hsame).
  destruct o as [a w i|a e i|a e x p b|a e x]; unfold apply_op;
    unfold advance_worker_fence, advance_edge_fence, begin_edge_handoff, resolve_edge_handoff, fence_txn;
    unmonad.
  - destruct (active_only a f) as [[u|err] f1] eqn:Ea; [|done].
    destruct (active_only_rows _ _ _ _ Ea) as (Hw & He & _).
    unfold advance. unmonad. rewrite Hw.
    destruct (worker_incarnation_fences f !! w) as [s|] eqn:Es; cbn.
    + destruct (i <? s) eqn:E1; [done|]. destruct (i =? s) eqn:E2; [cbn; by apply Hsame|].
      cbn. rewrite Hw, He. split; [|apply raised_refl]. apply raised_insert.
      intros v Hv. simplify_eq. lia.
    + rewrite Hw, He. split; [|apply raised_refl]. apply raised_insert. intros v Hv. by simplify_eq.
  - destruct (active_only a f) as [[u|err] f1] eqn:Ea; [|done].
    destruct (active_only_rows _ _ _ _ Ea) as (Hw & He & _).
    unfold advance. unmonad. rewrite He.
    destruct (edge_incarnation_fences f !! e) as [s|] eqn:Es; cbn.
    + destruct (i <? s) eqn:E1; [done|]. destruct (i =? s) eqn:E2; [cbn; by apply Hsame|].
      cbn. rewrite Hw, He. split; [apply raised_refl|]. apply raised_insert.
      intros v Hv. simplify_eq. lia.
    + rewrite Hw, He. split; [apply raised_refl|]. apply raised_insert. intros v Hv. by simplify_eq.
  - destruct (to_i64 "begun_seq" b) as [begun|err]; [|done].
    destruct (active_only a f) as [[u|err] f1] eqn:Ea; [|done].
    destruct (active_only_rows _ _ _ _ Ea) as (Hw & He & _). unfold record_handoff. unmonad.
    destruct (edge_handoffs f1 !! e) as [row|]; [destruct (negb (row_resolved row))|];
      repeat match goal with |- context [(if ?b then _ else _) _] => destruct b end; cbn; by apply Hsame.
  - split; [|done]. destruct (active_only a f) as [[u|err] f1] eqn:Ea; [|apply raised_refl].
    destruct (active_only_rows _ _ _ _ Ea) as (Hw & _). unmonad.
    destruct (edge_handoffs f1 !! e) as [row|];
      repeat match goal with |- context [(if ?b then _ else _) _] => destruct b end; cbn;
      rewrite ?Hw; apply raised_refl.
Qed.

(** Over any history no worker fence is lowered. *)
Lemma worker_fences_rise ops f :
  raised (worker_incarnation_fences f) (worker_incarnation_fences (foldl (flip apply_op) f ops)).
Proof.
  revert f. induction ops as [|o ops IH]; intros f; [apply raised_refl|]. cbn.
  eapply raised_trans; [apply (fences_rise o f)|apply IH].
Qed.

(** ** A lowered fence *)

Definition auth : TypedDigest :=
  {| algorithm := Sha256V1; domain := "authority"; digest_bytes := repeat 1 32 |}.

Definition started : fenced :=
  {| main := snd (with_base (acquire_authority
       {| auth_digest := auth; cluster_id := "cluster-a"; incarnation := 77; term := 3;
          acquired_seq := 1 |}) empty_ledger);
     worker_incarnation_fences := ∅; edge_incarnation_fences := {["edge-1" := 3]};
     edge_handoffs := ∅ |}.

Definition lowered (upto : nat) : option Z :=
  edge_incarnation_fences
    (foldl (flip apply_op) started
       (take upto [BeginHandoff auth "edge-1" 5 3 1; AdvanceEdge auth "edge-1" 9;
                   ResolveHandoff auth "edge-1" 5])) !! "edge-1".

(** The resolution of a handoff writes its incarnation without comparing: a fence that was
    advanced while the handoff was open goes back. *)
Theorem handoff_lowers_fence : lowered 2 = Some 9 /\ lowered 3 = Some 5.
Proof. split; vm_compute; reflexivity. Qed.

End FenceRowFacts.
