(* ===== verification/Publication.v ===== *)
(** * Publication: prepared offers and the coordinator's admission
    (rabs-cas/src/publication.rs, rabs-key/src/logical_output_map.rs)

    A worker builds an offer; the coordinator checks its fences, recomputes its digests,
    verifies that its objects and its provisional ancestors are there, and then commits it,
    recognises it as a repetition, or quarantines the action.  SHA-256 is the class
    [Hasher]; the manifests the coordinator holds are a function from their keys. *)

From stdpp Require Import base gmap list strings sorting relations pretty.
From Stdlib Require Import ZArith Lia.
From S2P Require Import Prelude Bytes Manifest Digest Pack Store Gc Ledger.
Import ResultIdentity ManifestCodec Store Ledger.

Module Publication.

(** ** Data *)

Record ActionGeneration := {
  generation_id : Z;                         (* u128 *)
  per_key_ordinal : Z;                       (* u64 *)
  created_under_authority_digest : TypedDigest }.

(** What admission reads of [AttemptAuthority]; the worker identity travels with it. *)
Record AttemptAuthority := {
  coordinator : PinLeases.CoordinatorAuthority;
  auth_action_key : TypedDigest;
  action_generation : ActionGeneration;
  attempt_id : Z;                            (* u128 *)
  execution_lease_id : Z;                    (* u128 *)
  worker_peer_id : string }.

Record AttemptEvidenceBundle := {
  ev_action_key : TypedDigest;
  canonical_result_manifest_id : ObjectId;
  execution_snapshot_root : ObjectId;
  observed_input_report : ObjectId;
  raw_process_and_event_evidence : ObjectId;
  provenance_receipt : ObjectId;
  incremental_snapshot : option ObjectId }.

Record ProvisionalAncestorRef := {
  ref_producer : TypedDigest;
  ref_role : OutputRole;
  ref_path : list Z;
  consumed_object : ObjectId }.

Inductive BundleRootError := Structural (rule : string) | RootMismatch | MissingRoot.

Inductive OfferBuildError :=
  | ManifestInvalid (rule : string)
  | EvidenceManifestMismatch
  | BuildActionKeyMismatch
  | UndeclaredOutput (path : list Z)
  | DuplicateAncestorRef (path : list Z)
  | SelfAncestorRef
  | BundleRoot (e : BundleRootError).

Record OfferPreparedActionResult := {
  authority : AttemptAuthority;
  manifest : CanonicalActionResultManifest;
  manifest_id : ObjectId;
  offer_evidence : AttemptEvidenceBundle;
  evidence_id : ObjectId;
  canonical_observations : TypedDigest;
  provisional_ancestors : list ProvisionalAncestorRef }.

Inductive OfferRefusal :=
  | NotActiveAuthority | GenerationAuthorityMismatch | UnknownGeneration | GenerationTombstoned
  | UnknownAttempt | UnknownLease | LeaseReleased | DescriptorMismatch | ActionKeyMismatch
  | UnknownActionEntry | EpochMismatch
  | BundleRootMismatch (rule : BundleRootError)
  | SemanticDigestMismatch | ObservableDigestMismatch
  | IncompleteObjectClosure (missing : text)
  | ObjectNotDurable (missing : text)
  | CommittedManifestUnavailable
  | ProvisionalProducerNotCommitted (producer : text)
  | AncestorManifestUnavailable (producer : text)
  | AncestorOutputMissing (producer : text) (path : list Z)
  | DivergentProvisionalAncestor (producer : text) (path : list Z)
  | StoreRefused (e : StoreError).

Record ConsumerEscalation := { consumer : text; trust_state : string; escalation : string }.

Record DivergenceQuarantine := {
  dq_class : DivergenceClass;
  incident_seq : Z;
  candidate_pin_id : Z;
  escalations : list ConsumerEscalation }.

Record ActionPublicationRecord := {
  rec_action_key : TypedDigest;
  rec_manifest_id : ObjectId;
  rec_evidence_id : ObjectId;
  committed_causal_sequence : Z }.

Inductive PublicationOutcome :=
  | PublicationCommitted (record : ActionPublicationRecord)
  | IdempotentEvidenceAppended
  | Quarantined (q : DivergenceQuarantine).

Inductive CommitDurabilityProfile := RequireDurableClosure | AcceptVolatileLocations.

#[export] Instance DivergenceClass_eq_dec : EqDecision DivergenceClass.
Proof. solve_decision. Defined.
#[export] Instance CommitDurabilityProfile_eq_dec : EqDecision CommitDurabilityProfile.
Proof. solve_decision. Defined.

Definition output_role_name (r : OutputRole) : string :=
  match r with
  | Materializable => "materializable" | DepInfo => "dep-info"
  | ProvisionalMetadata => "provisional-metadata" | BuildScriptMetadata => "build-script-metadata"
  | TestSideEffect => "test-side-effect"
  end.

Section hashed.
Context {SHA : Type} `{Hasher SHA}.

(** ** Projections *)

Definition framing_u64 (v : Z) (h : SHA) : SHA := PinLeases.framing_field (be_bytes 8 v) h.

Definition framing_digest (d : TypedDigest) (h : SHA) : SHA :=
  PinLeases.framing_field (digest_bytes d) (PinLeases.framing_field (str_bytes (domain d)) h).

Definition framing_finish (dom : string) (h : SHA) : TypedDigest :=
  {| algorithm := Sha256V1; domain := dom; digest_bytes := h_finalize h |}.

Definition framing_output (h : SHA) (o : LogicalOutput) : SHA :=
  framing_digest (object o)
    (PinLeases.framing_field (virtual_path o) (framing_u64 (output_role_tag (role o)) h)).

Definition semantic_result_digest_v1 (m : CanonicalActionResultManifest) : TypedDigest :=
  let outputs := sort_by output_leb (logical_outputs m) in
  let h := PinLeases.framing_new SEMANTIC_PROJECTION_DOMAIN in
  let h := framing_digest (action_key m) h in
  let h := framing_digest (canonical_descriptor_digest m) h in
  let h := framing_u64 (key_epoch m) h in
  let h := framing_u64 (projection_epoch m) h in
  let h := framing_u64 (result_kind_tag (result_kind m)) h in
  let h := match artifact_bundle_root m with
           | None => framing_u64 0 h
           | Some root => framing_digest root (framing_u64 1 h)
           end in
  let h := framing_u64 (wrap 64 (Z.of_nat (length outputs))) h in
  framing_finish SEMANTIC_PROJECTION_DOMAIN (fold_left framing_output outputs h).

Definition observable_result_digest_v1 (m : CanonicalActionResultManifest)
    (observations : TypedDigest) : TypedDigest :=
  framing_finish OBSERVABLE_PROJECTION_DOMAIN
    (framing_digest observations
      (framing_digest (semantic_result_digest_v1 m)
        (PinLeases.framing_new OBSERVABLE_PROJECTION_DOMAIN))).

(** ** The bundle root *)

Definition le_bytes (w : nat) (v : Z) : list Z := rev (be_bytes w v).

(** [CanonicalEncoder::bytes]. *)
Definition enc_bytes (b : list Z) : list Z := le_bytes 8 (Z.of_nat (length b)) ++ b.

(** [typed_digest::compute]. *)
Definition compute (dom : string) (canonical : list Z) : TypedDigest :=
  {| algorithm := Sha256V1; domain := dom;
     digest_bytes :=
       h_finalize (h_update canonical
         (h_update (le_bytes 8 (Z.of_nat (length canonical)))
           (h_update [0] (h_update (str_bytes dom) h_new)))) |}.

Definition role_tag (r : OutputRole) : Z :=
  match r with
  | Materializable => 1 | DepInfo => 2 | ProvisionalMetadata => 3 | BuildScriptMetadata => 4
  | TestSideEffect => 5
  end.

(** The order [(path, role tag)]. *)
Definition path_role_leb (a b : LogicalOutput) : bool :=
  match bytes_cmp (virtual_path a) (virtual_path b) with
  | Lt => true
  | Gt => false
  | Eq => role_tag (role a) <=? role_tag (role b)
  end.

Definition enc_output (o : LogicalOutput) : list Z :=
  enc_bytes (virtual_path o) ++ le_bytes 4 (role_tag (role o))
  ++ enc_bytes (str_bytes (domain (object o))) ++ enc_bytes (digest_bytes (object o)).

Definition compute_bundle_root (outputs : list LogicalOutput) : option ObjectId :=
  match outputs with
  | [] => None
  | _ =>
      let rows := sort_by path_role_leb outputs in
      Some (compute DOMAIN_ARTIFACT_BUNDLE_ROOT
              (le_bytes 8 (Z.of_nat (length rows)) ++ concat (enc_output <$> rows)))
  end.

Definition verify_manifest_bundle_root (m : CanonicalActionResultManifest) :
    result BundleRootError unit :=
  match validate m with
  | Err rule => Err (Structural rule)
  | Ok _ =>
      match artifact_bundle_root m, compute_bundle_root (logical_outputs m) with
      | None, None => Ok tt
      | Some stored, Some expected =>
          if decide ((stored : TypedDigest) = expected) then Ok tt else Err RootMismatch
      | Some _, None => Err (Structural "bundle root present with empty output map")
      | None, Some _ => Err MissingRoot
      end
  end.

(** ** The worker builds an offer *)

Definition set_root root (m : CanonicalActionResultManifest) : CanonicalActionResultManifest :=
  {| action_key := action_key m; canonical_descriptor_digest := canonical_descriptor_digest m;
     key_epoch := key_epoch m; projection_epoch := projection_epoch m;
     result_kind := result_kind m; artifact_bundle_root := root;
     logical_outputs := logical_outputs m; semantic_result_digest := semantic_result_digest m;
     observable_result_digest := observable_result_digest m |}.

Definition set_digests sem obs (m : CanonicalActionResultManifest) :
    CanonicalActionResultManifest :=
  {| action_key := action_key m; canonical_descriptor_digest := canonical_descriptor_digest m;
     key_epoch := key_epoch m; projection_epoch := projection_epoch m;
     result_kind := result_kind m; artifact_bundle_root := artifact_bundle_root m;
     logical_outputs := logical_outputs m; semantic_result_digest := sem;
     observable_result_digest := obs |}.

Definition ref_leb (a b : ProvisionalAncestorRef) : bool :=
  match bytes_cmp (Pack.digest_key (ref_producer a)) (Pack.digest_key (ref_producer b)) with
  | Lt => true
  | Gt => false
  | Eq =>
      match bytes_cmp (str_bytes (output_role_name (ref_role a)))
                      (str_bytes (output_role_name (ref_role b))) with
      | Lt => true
      | Gt => false
      | Eq => text_leb (ref_path a) (ref_path b)
      end
  end.

(** The first neighbours that name the same output, of which the second is reported. *)
Fixpoint duplicate_ref (refs : list ProvisionalAncestorRef) : option (list Z) :=
  match refs with
  | a :: ((b :: _) as refs') =>
      if decide (ref_producer a = ref_producer b) then
        if decide (ref_role a = ref_role b) then
          if decide (ref_path a = ref_path b) then Some (ref_path b) else duplicate_ref refs'
        else duplicate_ref refs'
      else duplicate_ref refs'
  | _ => None
  end.

Definition declared (declared_outputs : list (OutputRole * list Z)) (o : LogicalOutput) : bool :=
  existsb (fun d => bool_decide (fst d = role o) && bool_decide (snd d = virtual_path o))
    declared_outputs.

Definition build (auth : AttemptAuthority) (m : CanonicalActionResultManifest)
    (m_id : ObjectId) (ev : AttemptEvidenceBundle) (ev_id : ObjectId)
    (observations : TypedDigest) (declared_outputs : list (OutputRole * list Z))
    (ancestors : list ProvisionalAncestorRef) :
    result OfferBuildError OfferPreparedActionResult :=
  match validate m with
  | Err rule => Err (ManifestInvalid rule)
  | Ok _ =>
      let ancestors := sort_by ref_leb ancestors in
      match duplicate_ref ancestors with
      | Some path => Err (DuplicateAncestorRef path)
      | None =>
          if existsb (fun a => bool_decide (ref_producer a = action_key m)) ancestors
          then Err SelfAncestorRef
          else if negb (bool_decide ((canonical_result_manifest_id ev : TypedDigest) = m_id))
          then Err EvidenceManifestMismatch
          else if negb (bool_decide (ev_action_key ev = action_key m))
                  || negb (bool_decide (auth_action_key auth = action_key m))
          then Err BuildActionKeyMismatch
          else
            match List.find (fun o => negb (declared declared_outputs o)) (logical_outputs m) with
            | Some o => Err (UndeclaredOutput (virtual_path o))
            | None =>
                let m := set_root (compute_bundle_root (logical_outputs m)) m in
                match verify_manifest_bundle_root m with
                | Err e => Err (BundleRoot e)
                | Ok _ =>
                    let m := set_digests (semantic_result_digest_v1 m)
                               (observable_result_digest m) m in
                    let m := set_digests (semantic_result_digest m)
                               (observable_result_digest_v1 m observations) m in
                    Ok {| authority := auth; manifest := m; manifest_id := m_id;
                          offer_evidence := ev; evidence_id := ev_id;
                          canonical_observations := observations;
                          provisional_ancestors := ancestors |}
                end
            end
      end
  end.

(** ** Admission *)

Abbreviation admission := (method ledger OfferRefusal).

(** [?] on a store call. *)
Definition store_call {A} (m : ldb A) : admission A := fun l =>
  match m l with
  | (Ok a, l') => (Ok a, l')
  | (Err e, l') => (Err (StoreRefused e), l')
  end.

(** The objects an offer refers to, in the order they are checked. *)
Definition offer_closure (offer : OfferPreparedActionResult) : list TypedDigest :=
  [manifest_id offer; evidence_id offer]
  ++ option_list (artifact_bundle_root (manifest offer))
  ++ (object <$> logical_outputs (manifest offer))
  ++ [execution_snapshot_root (offer_evidence offer);
      observed_input_report (offer_evidence offer);
      raw_process_and_event_evidence (offer_evidence offer);
      provenance_receipt (offer_evidence offer)]
  ++ option_list (incremental_snapshot (offer_evidence offer)).

Fixpoint check_closure (durability : CommitDurabilityProfile) (objects : list TypedDigest) :
    admission unit :=
  match objects with
  | [] => mret tt
  | o :: objects =>
      located ← store_call (object_located o);
      _ ← refuse_if (negb located) (IncompleteObjectClosure (Pack.digest_key o));
      durable ← (if decide (durability = RequireDurableClosure)
                 then store_call (object_durably_located o) else mret true);
      _ ← refuse_if (negb durable) (ObjectNotDurable (Pack.digest_key o));
      check_closure durability objects
  end.

Variable manifest_resolver : text -> option CanonicalActionResultManifest.

Record PendingAncestorCheck := {
  producer_key : text; pending_role : string; pending_path : list Z; consumed_key : text;
  direct : bool }.

(** One reference: the producer is committed, and its output is the consumed object or one
    it was adopted into (which is reported). *)
Definition check_ancestor (l : ledger) (c : PendingAncestorCheck) : result OfferRefusal bool :=
  match publications (results l) !! producer_key c with
  | None => Err (ProvisionalProducerNotCommitted (producer_key c))
  | Some p =>
      match manifest_resolver (Pack.digest_key (pub_manifest p)) with
      | None => Err (AncestorManifestUnavailable (producer_key c))
      | Some m =>
          match List.find (fun o => bool_decide (output_role_name (role o) = pending_role c)
                                    && bool_decide (virtual_path o = pending_path c))
                  (logical_outputs m) with
          | None => Err (AncestorOutputMissing (producer_key c) (pending_path c))
          | Some o =>
              let committed_key := Pack.digest_key (object o) in
              if bool_decide (committed_key = consumed_key c) then Ok false
              else if has_adoption l (producer_key c) (pending_role c) (pending_path c)
                        (consumed_key c) committed_key
              then Ok true
              else Err (DivergentProvisionalAncestor (producer_key c) (pending_path c))
          end
      end
  end.

Definition pending_of_row (row : ProvisionalAncestorRow) : PendingAncestorCheck :=
  {| producer_key := producer_action_key row; pending_role := anc_role row;
     pending_path := anc_path row; consumed_key := object_key row; direct := false |}.

Definition pending_of_ref (a : ProvisionalAncestorRef) : PendingAncestorCheck :=
  {| producer_key := Pack.digest_key (ref_producer a);
     pending_role := output_role_name (ref_role a); pending_path := ref_path a;
     consumed_key := Pack.digest_key (consumed_object a); direct := true |}.

Definition row_of (c : PendingAncestorCheck) (ad : bool) : ProvisionalAncestorRow :=
  {| producer_action_key := producer_key c; anc_role := pending_role c;
     anc_path := pending_path c; object_key := consumed_key c; adopted := ad |}.

(** The breadth-first walk; [None] when the fuel runs out. *)
Fixpoint walk_ancestry (fuel : nat) (l : ledger) (queue : list PendingAncestorCheck)
    (walked : gset text) (direct_rows : list ProvisionalAncestorRow) :
    option (result OfferRefusal (list ProvisionalAncestorRow)) :=
  match queue with
  | [] => Some (Ok direct_rows)
  | c :: queue =>
      match fuel with
      | O => None
      | S fuel =>
          match check_ancestor l c with
          | Err e => Some (Err e)
          | Ok ad =>
              let rows := if direct c then direct_rows ++ [row_of c ad] else direct_rows in
              if bool_decide (producer_key c ∈ walked) then
                walk_ancestry fuel l queue walked rows
              else
                let walked := {[producer_key c]} ∪ walked in
                walk_ancestry fuel l
                  (queue ++ (pending_of_row <$>
                     filter (fun row => producer_action_key row ∉ walked)
                       (ancestor_rows l (producer_key c))))
                  walked rows
          end
      end
  end.

(** Enough rounds: every direct reference and every recorded row is looked at once. *)
Definition walk_fuel (l : ledger) (refs : list ProvisionalAncestorRef) : nat :=
  (length refs + size (ancestry (results l)))%nat.

Definition verify_provisional_ancestry (offer : OfferPreparedActionResult) :
    admission (list ProvisionalAncestorRow) := fun l =>
  match walk_ancestry (walk_fuel l (provisional_ancestors offer)) l
          (pending_of_ref <$> provisional_ancestors offer) ∅ [] with
  | Some r => (r, l)
  | None => (Err (StoreRefused (Corruption "ancestry walk did not end")), l)
  end.

(** ** Divergence *)

Definition divergence_class_tag (c : DivergenceClass) : string :=
  match c with
  | IdempotentSameResult => "idempotent" | SemanticDivergence => "semantic"
  | ObservableOnlyDivergence => "observable-only"
  | ProjectionCompletenessIncident => "projection-completeness"
  end.

Definition divergence_quarantine_reason (c : DivergenceClass) : string :=
  match c with
  | IdempotentSameResult => "same-key re-offer"
  | SemanticDivergence => "semantic divergence: determinism/key-soundness incident"
  | ObservableOnlyDivergence => "observable-only divergence: presentation quarantine"
  | ProjectionCompletenessIncident =>
      "projection completeness incident: equal digests, different manifests"
  end.

Definition escalation_decision (trust : string) : string :=
  if bool_decide (trust = "ci-policy-approved") || bool_decide (trust = "project-release-eligible")
  then "recall-and-reverify" else "notify-and-reverify".

Definition DISPOSITION_QUARANTINED : string := "quarantined".
Definition DISPOSITION_PRESENTATION_QUARANTINED : string := "presentation-quarantined".
Definition DIVERGENCE_EVIDENCE_PIN_CLASS : string := "divergence-evidence".

Definition disposition_for (c : DivergenceClass) : string :=
  match c with
  | ObservableOnlyDivergence => DISPOSITION_PRESENTATION_QUARANTINED
  | _ => DISPOSITION_QUARANTINED
  end.

Section one_divergence.
Variables (auth : TypedDigest) (offer : OfferPreparedActionResult) (class : DivergenceClass)
  (committed_key : text) (gen att pin_id seq : Z).

Let action := Pack.digest_key (action_key (manifest offer)).
Let candidate := Pack.digest_key (manifest_id offer).

Definition candidate_parts : list TypedDigest :=
  [evidence_id offer : TypedDigest] ++ option_list (artifact_bundle_root (manifest offer))
  ++ (object <$> logical_outputs (manifest offer)).

Definition incident_row : DivergenceIncidentRow :=
  {| inc_class := divergence_class_tag class; committed_manifest_key := committed_key;
     candidate_manifest_key := candidate; candidate_evidence_key := Pack.digest_key (evidence_id offer);
     candidate_pin := pin_id; inc_generation := gen; inc_attempt := att;
     detail := divergence_quarantine_reason class |}.

(** The store calls of [quarantine_divergence] before the escalations, in their order; each
    is a transaction of its own. *)
Definition quarantine_steps : list (ldb unit) :=
  [add_quarantine ActionEntry action (divergence_quarantine_reason class);
   set_serving_disposition_key action (disposition_for class)]
  ++ ((fun part => with_base (add_object_edge (manifest_id offer) part "divergence-candidate"))
        <$> candidate_parts)
  ++ [with_base (create_pin pin_id (manifest_id offer) "coordinator" DIVERGENCE_EVIDENCE_PIN_CLASS
        None (Some ("divergence-incident:" +:+ key_string action +:+ ":" +:+ pretty seq)) true
        (divergence_quarantine_reason class));
      append_evidence (action_key (manifest offer)) candidate (evidence_id offer) gen att;
      record_divergence_incident auth action seq incident_row].

Fixpoint run_steps (steps : list (ldb unit)) : ldb unit :=
  match steps with
  | [] => mret tt
  | s :: steps => _ ← s; run_steps steps
  end.

Fixpoint escalate (trust : string) (consumers : list text) : ldb (list ConsumerEscalation) :=
  match consumers with
  | [] => mret []
  | c :: consumers =>
      _ ← record_decision_receipt "divergence-escalation" c seq (escalation_decision trust)
            ("semantic divergence on " +:+ key_string action +:+ "; trust " +:+ trust);
      es ← escalate trust consumers;
      mret ({| consumer := c; trust_state := trust; escalation := escalation_decision trust |} :: es)
  end.

Definition quarantine_divergence : ldb DivergenceQuarantine :=
  _ ← run_steps quarantine_steps;
  es ← (if decide (class = SemanticDivergence) then
          l ← get;
          escalate (default "unevaluated" (trust <$> latest_trust_evaluation l action))
            (served_consumers l action)
        else mret []);
  mret {| dq_class := class; incident_seq := seq; candidate_pin_id := pin_id; escalations := es |}.
End one_divergence.

(** ** [process_offer] *)

Section admission.
Variables (offer : OfferPreparedActionResult) (expected_descriptor : TypedDigest)
  (pin_id seq : Z) (durability : CommitDurabilityProfile).

Let m := manifest offer.
Let gen := generation_id (action_generation (authority offer)).
Let att := attempt_id (authority offer).
Let offered_authority := PinLeases.authority_digest (coordinator (authority offer)).

(** Steps 1 to 3: authority, generation, attempt and lease. *)
Definition check_fences : admission unit :=
  active ← store_call (with_base active_authority);
  _ ← refuse_if (negb (bool_decide (auth_digest <$> active = Some offered_authority)))
        NotActiveAuthority;
  _ ← refuse_if (negb (bool_decide
        (created_under_authority_digest (action_generation (authority offer)) = offered_authority)))
        GenerationAuthorityMismatch;
  state ← store_call (generation_state gen);
  _ ← refuse_if (bool_decide (state = None)) UnknownGeneration;
  _ ← refuse_if (bool_decide (state = Some true)) GenerationTombstoned;
  exists_ ← store_call (attempt_exists att gen);
  _ ← refuse_if (negb exists_) UnknownAttempt;
  lease ← store_call (lease_state (execution_lease_id (authority offer)));
  _ ← refuse_if (bool_decide (lease = None)) UnknownLease;
  refuse_if (bool_decide (lease = Some true)) LeaseReleased.

(** Steps 4 to 6: descriptor, key, epochs, bundle root and digests. *)
Definition check_identity : admission unit :=
  _ ← refuse_if (negb (bool_decide (canonical_descriptor_digest m = expected_descriptor)))
        DescriptorMismatch;
  _ ← refuse_if (negb (bool_decide (action_key m = auth_action_key (authority offer))))
        ActionKeyMismatch;
  entry ← store_call (lookup_action (action_key m));
  entry ← lift_result (ok_or entry UnknownActionEntry);
  _ ← refuse_if (negb (entry_key_epoch entry =? key_epoch m)
                 || negb (entry_projection_epoch entry =? projection_epoch m)) EpochMismatch;
  _ ← lift_result match verify_manifest_bundle_root m with
                  | Ok _ => Ok tt
                  | Err rule => Err (BundleRootMismatch rule)
                  end;
  _ ← refuse_if (negb (bool_decide (semantic_result_digest_v1 m = semantic_result_digest m)))
        SemanticDigestMismatch;
  refuse_if (negb (bool_decide
    (observable_result_digest_v1 m (canonical_observations offer) = observable_result_digest m)))
    ObservableDigestMismatch.

Definition divergence_class (committed : CanonicalActionResultManifest) : DivergenceClass :=
  if decide (semantic_result_digest committed ≠ semantic_result_digest m) then SemanticDivergence
  else if decide (observable_result_digest committed ≠ observable_result_digest m)
  then ObservableOnlyDivergence
  else ProjectionCompletenessIncident.

Definition publication_row (ancestors : list ProvisionalAncestorRow) : PublicationRow :=
  {| row_action_key := action_key m; row_descriptor := canonical_descriptor_digest m;
     row_manifest := manifest_id offer; row_evidence := evidence_id offer;
     row_generation := gen; row_attempt := att; row_kind := result_kind m; row_pin := pin_id;
     row_pin_owner := "coordinator"; row_ancestors := ancestors |}.

(** Step 8: a key that already has a result. *)
Definition same_key (committed_key : text) : admission PublicationOutcome :=
  if bool_decide (committed_key = Pack.digest_key (manifest_id offer)) then
    _ ← store_call (append_evidence (action_key m) committed_key (evidence_id offer) gen att);
    mret IdempotentEvidenceAppended
  else
    committed ← lift_result (ok_or (manifest_resolver committed_key) CommittedManifestUnavailable);
    q ← store_call (quarantine_divergence offered_authority offer (divergence_class committed)
                      committed_key gen att pin_id seq);
    mret (Quarantined q).

(** Step 9. *)
Definition commit (ancestors : list ProvisionalAncestorRow) : admission PublicationOutcome :=
  outcome ← store_call (commit_publication offered_authority (publication_row ancestors));
  match outcome with
  | Committed =>
      mret (PublicationCommitted
        {| rec_action_key := action_key m; rec_manifest_id := manifest_id offer;
           rec_evidence_id := evidence_id offer; committed_causal_sequence := seq |})
  | IdempotentDuplicate | ConflictQuarantined =>
      throw (StoreRefused (Corruption "publication row appeared during admission"))
  end.

Definition process_offer : admission PublicationOutcome :=
  _ ← check_fences;
  _ ← check_identity;
  _ ← check_closure durability (offer_closure offer);
  ancestors ← verify_provisional_ancestry offer;
  published ← store_call (published_manifest_key (action_key m));
  match published with
  | Some committed_key => same_key committed_key
  | None => commit ancestors
  end.
End admission.

(** ** Recomputation after eviction *)

Inductive RecomputationCheck := NoTombstone | Reproduced | Divergence (c : DivergenceClass).

Definition retain_eviction_tombstone (m : CanonicalActionResultManifest) (evicted_seq : Z) :
    ldb unit :=
  record_eviction_tombstone (action_key m) (semantic_result_digest m)
    (observable_result_digest m) evicted_seq.

Definition check_recomputation_against_tombstone (action new_semantic new_observable : TypedDigest) :
    ldb RecomputationCheck :=
  retained ← eviction_tombstone action;
  match retained with
  | None => mret NoTombstone
  | Some (sem, obs) =>
      if bool_decide (sem = new_semantic) && bool_decide (obs = new_observable) then
        _ ← consume_eviction_tombstone action;
        mret Reproduced
      else
        let class := if bool_decide (sem = new_semantic) then ObservableOnlyDivergence
                     else SemanticDivergence in
        _ ← add_quarantine ActionEntry (Pack.digest_key action)
              "post-eviction recomputation divergence";
        mret (Divergence class)
  end.

End hashed.

End Publication.
