(* ===== verification/Serving.v ===== *)
(** * Serving: the mutable state over committed results
    (rabs-cas/src/serving_state.rs, rabs-cas/src/trust_evidence.rs, rabs-protocol/src/serving.rs,
    rabs-action/src/serving_transitions.rs)

    A publication is history; whether it may be served is a revisioned record beside it,
    written by trust evaluations and quarantines and read by a gate that distrusts clocks. *)

From stdpp Require Import base gmap list strings sorting relations pretty.
From Stdlib Require Import ZArith Lia.
From S2P Require Import Prelude Bytes Manifest Digest Pack Store Gc Ledger Publication.
Import ResultIdentity Store Ledger.

Module Serving.

(** ** Validity *)

Definition I64_MIN : Z := - 2 ^ 63.

(** [i64::saturating_sub]. *)
Definition i64_sat_sub (a b : Z) : Z := Z.max I64_MIN (Z.min I64_MAX (a - b)).

Definition still_valid (v : ServingValidity) (now_unix_micros now_epoch : Z) : bool :=
  if negb (now_epoch =? coordinator_clock_epoch v) then false
  else if now_unix_micros <? evaluated_at_unix_micros v then false
  else
    match maximum_age_micros v with
    | None => true
    | Some max_age =>
        let age := i64_sat_sub now_unix_micros (evaluated_at_unix_micros v) in
        sat_add 64 (wrap 64 age) (clock_uncertainty_micros v) <=? max_age
    end.

(** ** The protocol's record *)

Inductive ActionServingDisposition :=
  | Eligible | EvidencePending | ExpiredNeedsRevalidation | Quarantined | ObjectsUnavailable
  | EvictedFromActiveIndex.

#[export] Instance ActionServingDisposition_eq_dec : EqDecision ActionServingDisposition.
Proof. solve_decision. Defined.

Record ActionServingStateRecord := {
  publication_record_id : ObjectId;
  rec_disposition : ActionServingDisposition;
  blocking_quarantine_ids : list Z;   (* u64 *)
  rec_revision : Z;                   (* u64 *)
  coordinator_authority_digest : TypedDigest;
  rec_validity : ServingValidity }.

Definition accepts_update (current update : ActionServingStateRecord) : bool :=
  bool_decide ((publication_record_id current : TypedDigest) = publication_record_id update)
  && (rec_revision current <? rec_revision update).

Definition may_serve_now (r : ActionServingStateRecord) (now_unix_micros now_epoch : Z) : bool :=
  bool_decide (rec_disposition r = Eligible)
  && match blocking_quarantine_ids r with [] => true | _ => false end
  && still_valid (rec_validity r) now_unix_micros now_epoch.

(** ** The legality table of dispositions *)

Inductive ServingTransitionTrigger :=
  | EvidenceComplete | QuarantineOpened | QuarantineReleased (receipt : option Z)
  | ValidityExpired | RevalidationByteIdentical | RevalidationMismatch | ObjectsMissing
  | ObjectsRefetched | RetentionEvicted.

Inductive RefuseReason := TerminalEvicted | ReleaseWithoutReceipt | NotInTable.

Inductive TransitionDecision :=
  | Apply (d : ActionServingDisposition)
  | QuarantineWithDivergenceIncident
  | Refuse (why : RefuseReason).

Definition evaluate (current : ActionServingDisposition) (trigger : ServingTransitionTrigger) :
    TransitionDecision :=
  if decide (current = EvictedFromActiveIndex) then Refuse TerminalEvicted
  else
    match current, trigger with
    | _, RetentionEvicted => Apply EvictedFromActiveIndex
    | _, QuarantineOpened => Apply Quarantined
    | EvidencePending, EvidenceComplete => Apply Eligible
    | Eligible, ValidityExpired => Apply ExpiredNeedsRevalidation
    | ExpiredNeedsRevalidation, RevalidationByteIdentical => Apply Eligible
    | ExpiredNeedsRevalidation, RevalidationMismatch => QuarantineWithDivergenceIncident
    | Eligible, ObjectsMissing | ExpiredNeedsRevalidation, ObjectsMissing => Apply ObjectsUnavailable
    | ObjectsUnavailable, ObjectsRefetched => Apply Eligible
    | Quarantined, QuarantineReleased (Some _) => Apply Eligible
    | Quarantined, QuarantineReleased None => Refuse ReleaseWithoutReceipt
    | _, _ => Refuse NotInTable
    end.

(** ** Serving records in the store *)

Record ServingRecordRow := {
  row_disposition : string;
  row_revision : Z;
  row_authority : text;
  row_validity : ServingValidity;
  row_blocking : list (string * text) }.

Definition ref_leb (a b : string * text) : bool :=
  match bytes_cmp (str_bytes (fst a)) (str_bytes (fst b)) with
  | Lt => true
  | Gt => false
  | Eq => text_leb (snd a) (snd b)
  end.

Definition blocking_rows (l : ledger) (action : text) : list (string * text) :=
  sort_by ref_leb
    (omap (fun e => let '(a, scope, subject) := e in
             if bool_decide (a = action) then Some (scope, subject) else None)
       (elements (blocking (results l)))).

Definition serving_record (action : text) : ldb (option ServingRecordRow) := fun l =>
  (Ok ((fun row =>
          {| row_disposition := disposition row; row_revision := state_revision row;
             row_authority := authority_key row; row_validity := validity row;
             row_blocking := blocking_rows l action |}) <$> serving (results l) !! action), l).

Fixpoint references_exist (refs : list (QuarantineScope * text)) : ldb unit :=
  match refs with
  | [] => mret tt
  | (scope, subject) :: refs =>
      l ← get;
      _ ← refuse_if (negb (bool_decide (is_Some (quarantines (trouble l) !! (scope_str scope, subject)))))
            UnknownQuarantineReference;
      references_exist refs
  end.

(** The row and its references, replaced together. *)
Definition write_serving (action : text) (row : ServingRow) (refs : list (QuarantineScope * text))
    (r : result_tables) : result_tables :=
  set_blocking
    (list_to_set ((fun s => (action, scope_str (fst s), snd s)) <$> refs)
     ∪ filter (fun e => fst (fst e) <> action) (blocking r))
    (set_serving (<[action := row]> (serving r)) r).

Definition put_serving_record (authority : TypedDigest) (action : text) (d : string)
    (revision : Z) (v : ServingValidity) (refs : list (QuarantineScope * text)) : ldb unit :=
  rev ← lift_result (to_i64 "state_revision" revision);
  max_age ← lift_result match maximum_age_micros v with
                        | None => Ok None
                        | Some a => Some <$> to_i64 "max_age_micros" a
                        end;
  uncertainty ← lift_result (to_i64 "clock_uncertainty_micros" (clock_uncertainty_micros v));
  epoch ← lift_result (to_i64 "clock_epoch" (coordinator_clock_epoch v));
  Ledger.in_txn (
    _ ← require_active authority;
    l ← get;
    _ ← refuse_if ((revision =? 0)
                   || match serving (results l) !! action with
                      | Some stored => revision <=? state_revision stored
                      | None => false
                      end) StaleServingRevision;
    _ ← references_exist refs;
    modify (on_results (write_serving action
      {| disposition := d; serving_version := 1; state_revision := rev;
         authority_key := Pack.digest_key authority;
         validity := {| evaluated_at_unix_micros := evaluated_at_unix_micros v;
                        maximum_age_micros := max_age; clock_uncertainty_micros := uncertainty;
                        coordinator_clock_epoch := epoch |} |} refs))).

(** ** The gate *)

Definition SERVABLE_DISPOSITION : string := "servable".

Inductive ServeDecision :=
  | NoRecord
  | NotServable (d : string)
  | Blocked (references : list (string * text))
  | ExpiredClockEpoch | ExpiredClockRollback | ExpiredTtl
  | Servable.

Definition serving_gate (action : text) (now_unix_micros now_epoch : Z) : ldb ServeDecision :=
  found ← serving_record action;
  match found with
  | None => mret NoRecord
  | Some record =>
      if negb (bool_decide (row_disposition record = SERVABLE_DISPOSITION))
      then mret (NotServable (row_disposition record))
      else if negb (bool_decide (row_blocking record = [])) then mret (Blocked (row_blocking record))
      else if negb (still_valid (row_validity record) now_unix_micros now_epoch) then
        if negb (now_epoch =? coordinator_clock_epoch (row_validity record))
        then mret ExpiredClockEpoch
        else if now_unix_micros <? evaluated_at_unix_micros (row_validity record)
        then mret ExpiredClockRollback
        else mret ExpiredTtl
      else mret Servable
  end.

(** ** Evidence and samples *)

Definition evidence_leb (a b : string * list Z) : bool :=
  match bytes_cmp (str_bytes (fst a)) (str_bytes (fst b)) with
  | Lt => true
  | Gt => false
  | Eq => text_leb (snd a) (snd b)
  end.

Definition evidence_key (e : string * list Z) : text :=
  str_bytes (fst e) ++ [58] ++ Pack.hex (snd e).

Definition list_evidence_keys (action : text) : ldb (list text) := fun l =>
  (Ok (evidence_key <$> sort_by evidence_leb
         (omap (fun e => let '((a, dom, bs), _) := e in
                  if bool_decide (a = action) then Some (dom, bs) else None)
            (map_to_list (evidence_index (results l))))), l).

Record VerificationSampleRow := { sample_attempt : Z; passed : bool; sample_seq : Z }.

Definition sample_leb (a b : VerificationSampleRow) : bool :=
  if sample_attempt a =? sample_attempt b then sample_seq a <=? sample_seq b
  else sample_attempt a <? sample_attempt b.

Definition list_verification_samples (action : text) : ldb (list VerificationSampleRow) := fun l =>
  (Ok (sort_by sample_leb
         (omap (fun e => let '((a, attempt, n), ok) := e in
                  if bool_decide (a = action)
                  then Some {| sample_attempt := attempt; passed := ok; sample_seq := n |} else None)
            (map_to_list (samples (trouble l))))), l).

Definition record_verification_sample (action : TypedDigest) (attempt : Z) (ok : bool) (seq : Z) :
    ldb unit :=
  seq ← lift_result (to_i64 "seq" seq);
  Ledger.in_txn (modify (on_trouble (fun t =>
    set_samples (<[(Pack.digest_key action, attempt, seq) := ok]> (samples t)) t))).

Definition attempt_worker (l : ledger) (attempt : Z) : option string :=
  attempt_worker <$> attempts (execution l) !! attempt.

Definition append_trust_evaluation (authority action : TypedDigest) (row : TrustEvaluationRow) :
    ldb unit :=
  evaluated ← lift_result (to_i64 "evaluated_seq" (evaluated_seq row));
  Ledger.in_txn (
    _ ← require_active authority;
    l ← get;
    let versions := default ∅ (evaluations (trouble l) !! Pack.digest_key action) in
    _ ← refuse_if match last (btree_keys versions) with
                  | Some max => trust_version row <=? max
                  | None => false
                  end NonMonotonicTrustEvaluation;
    modify (on_trouble (fun t =>
      set_evaluations (<[Pack.digest_key action := <[trust_version row :=
        {| trust_version := trust_version row; trust := trust row; trust_reason := trust_reason row;
           evaluated_seq := evaluated |}]> versions]> (evaluations t)) t))).

(** ** Trust *)

Inductive TrustEvidenceTier :=
  | UnverifiedCandidate | ShadowMatched | ReproducibleSameWorker | ReproducibleCrossWorker
  | CiPolicyApproved | ProjectReleaseEligible.

(** The derived order. *)
Definition tier_rank (t : TrustEvidenceTier) : Z :=
  match t with
  | UnverifiedCandidate => 0 | ShadowMatched => 1 | ReproducibleSameWorker => 2
  | ReproducibleCrossWorker => 3 | CiPolicyApproved => 4 | ProjectReleaseEligible => 5
  end.

Definition tier_tag (t : TrustEvidenceTier) : string :=
  match t with
  | UnverifiedCandidate => "unverified-candidate" | ShadowMatched => "shadow-matched"
  | ReproducibleSameWorker => "reproducible-same-worker"
  | ReproducibleCrossWorker => "reproducible-cross-worker"
  | CiPolicyApproved => "ci-policy-approved"
  | ProjectReleaseEligible => "project-release-eligible"
  end.

Record TrustPolicy := {
  policy_version : Z; (* u32 *)
  revoked : bool;
  required_tier : TrustEvidenceTier }.

(** [max_by_key] keeps the last of the greatest. *)
Definition latest_nonrevoked_policy (policies : list TrustPolicy) : option TrustPolicy :=
  fold_left (fun best p =>
    match best with
    | Some b => if policy_version b <=? policy_version p then Some p else best
    | None => Some p
    end) (filter (fun p => revoked p = false) policies) None.

Inductive TrustEvidenceError :=
  | TrustStore (e : StoreError) | NoActivePolicy | NotPublished
  | NotACompromiseReport (presented : string).

Definition EVIDENCE_SET_DOMAIN : string := "rabs.evidence-set.sha256.v1".
Definition COMPROMISE_REPORT_DOMAIN : string := "rabs.compromise-report.sha256.v1".
Definition DISPOSITION_EVIDENCE_PENDING : string := "evidence-pending".

(** [dedup] of neighbours. *)
Fixpoint dedup (ks : list text) : list text :=
  match ks with
  | a :: ((b :: _) as rest) => if decide (a = b) then dedup rest else a :: dedup rest
  | _ => ks
  end.

Section trust.
Context {SHA : Type} `{Hasher SHA}.

Definition evidence_set_digest (keys : list text) : TypedDigest :=
  let canonical := dedup (sort_by text_leb keys) in
  Publication.framing_finish EVIDENCE_SET_DOMAIN
    (fold_left (fun h k => PinLeases.framing_field k h) canonical
      (Publication.framing_u64 (Z.of_nat (length canonical))
        (PinLeases.framing_new EVIDENCE_SET_DOMAIN))).

Abbreviation evaluation := (method ledger TrustEvidenceError).

Definition trust_call {A} (m : ldb A) : evaluation A := fun l =>
  match m l with
  | (Ok a, l') => (Ok a, l')
  | (Err e, l') => (Err (TrustStore e), l')
  end.

(** The worker a sample is attributed to. *)
Definition sample_worker (l : ledger) (attempt : Z) : text :=
  match attempt_worker l attempt with
  | Some w => str_bytes w
  | None => str_bytes "unattributed:" ++ Pack.hex (be_bytes 16 attempt)
  end.

Definition observed_tier (action : text) : ldb (TrustEvidenceTier * Z) :=
  rows ← list_verification_samples action;
  l ← get;
  let adverse := Z.of_nat (length (filter (fun s => passed s = false) rows)) in
  let good := filter (fun s => passed s = true) rows in
  let workers := fold_left (fun ws s =>
    let w := sample_worker l (sample_attempt s) in
    if bool_decide (w ∈ ws) then ws else ws ++ [w]) good [] in
  mret (match length good, length workers with
        | 0%nat, _ => UnverifiedCandidate
        | 1%nat, _ => ShadowMatched
        | _, (0 | 1)%nat => ReproducibleSameWorker
        | _, _ => ReproducibleCrossWorker
        end, adverse).

Record TrustReevaluation := {
  re_policy : Z;
  re_tier : TrustEvidenceTier;
  re_compromised : bool;
  re_adverse : Z;
  re_evidence_set : TypedDigest;
  re_disposition : string;
  re_version : Z }.

Definition is_compromise (key : text) : bool :=
  bool_decide (take (length (str_bytes COMPROMISE_REPORT_DOMAIN ++ [58])) key
               = str_bytes COMPROMISE_REPORT_DOMAIN ++ [58]).

(** What the evidence says: the disposition and the state that is recorded. *)
Definition verdict (compromised : bool) (adverse : Z) (tier required : TrustEvidenceTier) :
    string * string :=
  if compromised then (Publication.DISPOSITION_QUARANTINED, "compromised")
  else if 0 <? adverse then (Publication.DISPOSITION_QUARANTINED, "adverse-evidence")
  else if tier_rank required <=? tier_rank tier then (SERVABLE_DISPOSITION, tier_tag tier)
  else (DISPOSITION_EVIDENCE_PENDING, tier_tag tier).

Definition bool_text (b : bool) : string := if b then "true" else "false".

Definition evaluation_row (version seq : Z) (state : string) (policy : TrustPolicy)
    (set : TypedDigest) (adverse : Z) (compromised : bool) : TrustEvaluationRow :=
  {| trust_version := version; trust := state;
     trust_reason := "policy v" +:+ pretty (policy_version policy) +:+ "; evidence-set "
       +:+ key_string (Pack.digest_key set) +:+ "; adverse " +:+ pretty adverse
       +:+ "; compromised " +:+ bool_text compromised;
     evaluated_seq := seq |}.

Definition reevaluate_action (authority action : TypedDigest) (policies : list TrustPolicy)
    (seq : Z) : evaluation TrustReevaluation :=
  l ← get;
  _ ← refuse_if (negb (bool_decide (is_Some (publications (results l) !! Pack.digest_key action))))
        NotPublished;
  policy ← lift_result (ok_or (latest_nonrevoked_policy policies) NoActivePolicy);
  keys ← trust_call (list_evidence_keys (Pack.digest_key action));
  let compromised := existsb is_compromise keys in
  let evidence_set := evidence_set_digest keys in
  '(tier, adverse) ← trust_call (observed_tier (Pack.digest_key action));
  let '(d, state) := verdict compromised adverse tier (required_tier policy) in
  _ ← (if bool_decide (d = Publication.DISPOSITION_QUARANTINED)
       then trust_call (add_quarantine ActionEntry (Pack.digest_key action)
              (if compromised then "post-publication compromise report in evidence set"
               else "failed verification sample"))
       else mret tt);
  l ← get;
  let version := match latest_trust_evaluation l (Pack.digest_key action) with
                 | None => 1
                 | Some latest => wadd 32 (trust_version latest) 1
                 end in
  _ ← trust_call (append_trust_evaluation authority action
        (evaluation_row version seq state policy evidence_set adverse compromised));
  _ ← trust_call (set_serving_disposition_key (Pack.digest_key action) d);
  mret {| re_policy := policy_version policy; re_tier := tier; re_compromised := compromised;
          re_adverse := adverse; re_evidence_set := evidence_set; re_disposition := d;
          re_version := version |}.

Definition report_compromise (authority action report : TypedDigest) (generation attempt : Z)
    (policies : list TrustPolicy) (seq : Z) : evaluation TrustReevaluation :=
  _ ← refuse_if (negb (bool_decide (domain report = COMPROMISE_REPORT_DOMAIN)))
        (NotACompromiseReport (domain report));
  published ← trust_call (published_manifest_key action);
  manifest_key ← lift_result (ok_or published NotPublished);
  _ ← trust_call (append_evidence action manifest_key report generation attempt);
  reevaluate_action authority action policies seq.

End trust.
End Serving.
