(* ===== verification/Startup.v ===== *)
(** * Reconciliation at startup (rabs-cas/src/startup_reconciliation.rs)

    Before the coordinator serves anything it compares the location rows with the file
    system, repairs what drifted, reports what nobody claims, and refuses to serve from a
    database whose authoritative tables are torn; an operator reset declares a new lineage
    over such a database.  The tables are those of Store.v and Ledger.v, with the operator
    resets beside them (rabs-cas/src/metadata_store.rs); the file system is the trait
    [FilesystemReality]. *)

From stdpp Require Import base gmap list strings sorting.
From Stdlib Require Import ZArith Lia.
From S2P Require Import Prelude Bytes Manifest Digest Pack Store Ledger Publication.
Import ResultIdentity Store Ledger.

Module Startup.

Record t := { tables : ledger; operator_resets : gmap Z Z }. (* by generation: the sequence *)

Abbreviation sdb := (method t StoreError).

Definition on_tables {A} (m : ldb A) : sdb A := fun s =>
  match m (tables s) with
  | (r, l) => (r, {| tables := l; operator_resets := operator_resets s |})
  end.

Definition on_store {A} (m : Store.db A) : sdb A := on_tables (with_base m).

(** ** What reconciliation asks the tables *)

Definition text_key_leb {A} (a b : text * A) : bool := text_leb (fst a) (fst b).

(** The publications with their pins, by action. *)
Definition list_publications : sdb (list (text * Z)) := fun s =>
  (Ok (sort_by text_key_leb
         ((fun kp : text * PublishedRow => (fst kp, pub_pin (snd kp))) <$> map_to_list (publications (results (tables s))))), s).

Definition serving_disposition_key (action : text) : sdb (option string) := fun s =>
  (Ok (disposition <$> serving (results (tables s)) !! action), s).

Definition pin_released_by_hex (pin : Z) : sdb (option bool) := fun s =>
  (Ok ((fun p : PinRow * PinNote => released (fst p)) <$> pins (base (tables s)) !! pin), s).

Definition has_serving_state_key (action : text) : sdb bool := fun s =>
  (Ok (bool_decide (is_Some (serving (results (tables s)) !! action))), s).

Definition evidence_of (action : text) (l : ledger) : bool :=
  bool_decide (Exists (fun e : (text * string * list Z) * EvidenceRow => fst (fst (fst e)) = action)
                 (map_to_list (evidence_index (results l)))).

Definition has_evidence_key (action : text) : sdb bool := fun s => (Ok (evidence_of action (tables s)), s).

Definition authority_count : sdb Z := fun s => (Ok (Z.of_nat (size (authorities (base (tables s))))), s).
Definition generation_count : sdb Z := fun s => (Ok (Z.of_nat (size (generations (execution (tables s))))), s).

(** The high-water mark is written with every generation and is never zero then. *)
Definition has_generation_high_water : sdb bool := fun s =>
  (Ok (0 <? generation_high_water (execution (tables s))), s).

(** [MAX(generation)]. *)
Definition highest (m : gmap Z Z) : option Z :=
  foldr (fun (kv : Z * Z) acc => Some (match acc with None => fst kv | Some h => Z.max (fst kv) h end)) None (map_to_list m).

Definition highest_operator_reset : sdb (option Z) := fun s => (Ok (highest (operator_resets s)), s).

Definition record_operator_reset (generation seq : Z) : sdb unit :=
  generation ← lift_result (to_i64 "reset generation" generation);
  seq ← lift_result (to_i64 "seq" seq);
  s ← get;
  _ ← refuse_if (match highest (operator_resets s) with Some h => generation <=? h | None => false end) StaleOperatorReset;
  modify (fun s => {| tables := tables s; operator_resets := <[generation := seq]> (operator_resets s) |}).

(** ** The reconciliation *)

Record FilesystemReality := { fs_exists : text -> bool; all_paths : list text }.

Inductive Drift :=
  | MissingLocationRepaired (object_key store_path : text)
  | StaleTombstoneCleared (object_key store_path : text)
  | OrphanPathReported (store_path : text).

Inductive IncompleteState :=
  | PublicationPinMissing (action : text)
  | PublicationPinReleased (action : text)
  | ServingStateMissing (action : text)
  | EvidenceMissing (action : text)
  | AuthorityHistoryMissing
  | GenerationHighWaterMissing.

Inductive ServingDecision := Allowed | Refused (why : list IncompleteState).

Record StartupReport := { repaired : list Drift; reported : list Drift; decision : ServingDecision }.

Fixpoint repair_locations (fs : FilesystemReality) (rows : list ((text * text) * location)) : sdb (list Drift) :=
  match rows with
  | [] => mret []
  | ((o, p), _) :: rows =>
      if fs_exists fs p then repair_locations fs rows
      else
        _ ← on_store (remove_location_by_key o p);
        ds ← repair_locations fs rows;
        mret (MissingLocationRepaired o p :: ds)
  end.

Fixpoint clear_tombstones (live : list (text * text)) (rows : list ((text * text) * (Z * Z))) : sdb (list Drift) :=
  match rows with
  | [] => mret []
  | ((o, p), _) :: rows =>
      if bool_decide ((o, p) ∈ live) then clear_tombstones live rows
      else
        _ ← on_store (remove_gc_tombstone o p);
        ds ← clear_tombstones live rows;
        mret (StaleTombstoneCleared o p :: ds)
  end.

(** The gaps of one publication. *)
Definition publication_gaps (action : text) (pin : Z) : sdb (list IncompleteState) :=
  d ← serving_disposition_key action;
  if bool_decide (d = Some Publication.DISPOSITION_QUARANTINED) then mret []
  else
    r ← pin_released_by_hex pin;
    served ← has_serving_state_key action;
    proven ← has_evidence_key action;
    mret (match r with
          | None => [PublicationPinMissing action]
          | Some true => [PublicationPinReleased action]
          | Some false => []
          end ++ (if served : bool then [] else [ServingStateMissing action])
              ++ (if proven : bool then [] else [EvidenceMissing action])).

Fixpoint all_gaps (pubs : list (text * Z)) : sdb (list IncompleteState) :=
  match pubs with
  | [] => mret []
  | (a, pin) :: pubs => g ← publication_gaps a pin; gs ← all_gaps pubs; mret (g ++ gs)
  end.

Definition authoritative_incompleteness : sdb (list IncompleteState) :=
  pubs ← list_publications;
  gaps ← all_gaps pubs;
  reset ← highest_operator_reset;
  gens ← generation_count;
  auths ← authority_count;
  mark ← has_generation_high_water;
  let consumed := bool_decide (is_Some reset) in
  mret (gaps
        ++ (if (negb (bool_decide (pubs = [])) || (0 <? gens)) && (auths =? 0) && negb consumed
            then [AuthorityHistoryMissing] else [])
        ++ (if (0 <? gens) && negb mark && negb consumed then [GenerationHighWaterMissing] else [])).

Definition reconcile_startup (fs : FilesystemReality) : sdb StartupReport :=
  rows ← on_store reconciliation_scan;
  gone ← repair_locations fs rows;
  live ← on_store reconciliation_scan;
  tombs ← on_store (due_gc_tombstones U64_MAX);
  stale ← clear_tombstones (fst <$> live) tombs;
  incomplete ← authoritative_incompleteness;
  mret {| repaired := gone ++ stale;
          reported := OrphanPathReported
                      <$> List.filter (fun p => negb (bool_decide (p ∈ (fun r : (text * text) * location => snd (fst r)) <$> rows)))
                            (all_paths fs);
          decision := match incomplete with [] => Allowed | _ => Refused incomplete end |}.

(** ** The operator reset *)

Record ResetOutcome := { reset_generation : Z; quarantined_actions : list text }.

Definition action_of (i : IncompleteState) : option text :=
  match i with
  | PublicationPinMissing a | PublicationPinReleased a | ServingStateMissing a | EvidenceMissing a => Some a
  | AuthorityHistoryMissing | GenerationHighWaterMissing => None
  end.

Fixpoint quarantine_all (states : list IncompleteState) (done : list text) : sdb (list text) :=
  match states with
  | [] => mret done
  | i :: states =>
      match action_of i with
      | None => quarantine_all states done
      | Some a =>
          if bool_decide (a ∈ done) then quarantine_all states done
          else
            _ ← on_tables (set_serving_disposition_key a Publication.DISPOSITION_QUARANTINED);
            _ ← on_tables (add_quarantine ActionEntry a "operator reset: pre-reset publication state incomplete");
            quarantine_all states (done ++ [a])
      end
  end.

Definition apply_operator_reset (generation seq : Z) : sdb ResetOutcome :=
  _ ← record_operator_reset generation seq;
  incomplete ← authoritative_incompleteness;
  actions ← quarantine_all incomplete [];
  mret {| reset_generation := generation; quarantined_actions := actions |}.

End Startup.

Module StartupFacts.
Import Startup.

(** ** Reconciliation, said at once *)

Definition with_base_of (f : store -> store) (s : Startup.t) : Startup.t :=
  {| tables := on_base f (tables s); operator_resets := operator_resets s |}.

Definition drop_all {V} (ks : list (text * text)) (m : gmap (text * text) V) : gmap (text * text) V :=
  fold_left (fun m k => delete k m) ks m.

Lemma drop_all_lookup {V} (ks : list (text * text)) (m : gmap (text * text) V) k :
  drop_all ks m !! k = if bool_decide (k ∈ ks) then None else m !! k.
Proof.
  revert m. induction ks as [|x ks IH]; intros m; [done|]. cbn. unfold drop_all in IH. rewrite IH.
  destruct (decide (k = x)) as [->|Hne].
  - rewrite lookup_delete_eq. rewrite (bool_decide_eq_true_2 (x ∈ x :: ks)) by left. by case_bool_decide.
  - rewrite lookup_delete_ne by done. rewrite (bool_decide_ext (k ∈ x :: ks) (k ∈ ks)); [done|]. rewrite elem_of_cons. naive_solver.
Qed.

Definition gone_rows (fs : FilesystemReality) (rows : list ((text * text) * location)) : list (text * text) :=
  List.filter (fun k => negb (fs_exists fs (snd k))) (fst <$> rows).

Lemma repair_spec fs rows s :
  repair_locations fs rows s
  = (Ok ((fun k => MissingLocationRepaired (fst k) (snd k)) <$> gone_rows fs rows),
     with_base_of (fun b => with_locations (drop_all (gone_rows fs rows) (locations b)) b) s).
Proof.
  revert s. induction rows as [|[[o p] loc] rows IH]; intros s; [by destruct s as [[[] ? ? ?] ?]|].
  cbn [repair_locations]. unfold gone_rows. cbn [fmap list_fmap List.filter fst snd]. fold (gone_rows fs rows).
  destruct (fs_exists fs p); cbn [negb]; [apply IH|].
  unfold on_store, on_tables, with_base, remove_location_by_key, Store.in_txn. unmonad. rewrite IH.
  by destruct s as [[[] ? ? ?] ?].
Qed.

Definition stale_rows (live : list (text * text)) (rows : list ((text * text) * (Z * Z))) : list (text * text) :=
  List.filter (fun k => negb (bool_decide (k ∈ live))) (fst <$> rows).

Lemma clear_spec live rows s :
  clear_tombstones live rows s
  = (Ok ((fun k => StaleTombstoneCleared (fst k) (snd k)) <$> stale_rows live rows),
     with_base_of (fun b => with_tombstones (drop_all (stale_rows live rows) (tombstones b)) b) s).
Proof.
  revert s. induction rows as [|[[o p] g] rows IH]; intros s; [by destruct s as [[[] ? ? ?] ?]|].
  cbn [clear_tombstones]. unfold stale_rows. cbn [fmap list_fmap List.filter fst snd]. fold (stale_rows live rows).
  destruct (bool_decide ((o, p) ∈ live)); cbn [negb]; [apply IH|].
  unfold on_store, on_tables, with_base, remove_gc_tombstone, Store.in_txn. unmonad. rewrite IH.
  by destruct s as [[[] ? ? ?] ?].
Qed.

(** The gaps of one publication, and of all. *)
Definition gaps_of (l : ledger) (ap : text * Z) : list IncompleteState :=
  let (a, pin) := ap in
  if bool_decide (disposition <$> serving (results l) !! a = Some Publication.DISPOSITION_QUARANTINED) then []
  else
    match (fun p : PinRow * PinNote => released (fst p)) <$> pins (base l) !! pin with
    | None => [PublicationPinMissing a]
    | Some true => [PublicationPinReleased a]
    | Some false => []
    end ++ (if bool_decide (is_Some (serving (results l) !! a)) then [] else [ServingStateMissing a])
        ++ (if evidence_of a l then [] else [EvidenceMissing a]).

Definition published (l : ledger) : list (text * Z) :=
  sort_by text_key_leb ((fun kp : text * PublishedRow => (fst kp, pub_pin (snd kp))) <$> map_to_list (publications (results l))).

Definition history_gaps (s : Startup.t) : list IncompleteState :=
  let gens := Z.of_nat (size (generations (execution (tables s)))) in
  let consumed := bool_decide (is_Some (highest (operator_resets s))) in
  (if (negb (bool_decide (published (tables s) = [])) || (0 <? gens))
      && (Z.of_nat (size (authorities (base (tables s)))) =? 0) && negb consumed then [AuthorityHistoryMissing] else [])
  ++ (if (0 <? gens) && negb (0 <? generation_high_water (execution (tables s))) && negb consumed
      then [GenerationHighWaterMissing] else []).

Definition gaps (s : Startup.t) : list IncompleteState :=
  concat (gaps_of (tables s) <$> published (tables s)) ++ history_gaps s.

Lemma publication_gaps_eq a pin s : publication_gaps a pin s = (Ok (gaps_of (tables s) (a, pin)), s).
Proof.
  unfold publication_gaps, gaps_of, serving_disposition_key, pin_released_by_hex, has_serving_state_key, has_evidence_key.
  unmonad. by destruct (bool_decide (_ = Some _)).
Qed.

Lemma all_gaps_eq pubs s : all_gaps pubs s = (Ok (concat (gaps_of (tables s) <$> pubs)), s).
Proof.
  induction pubs as [|[a pin] pubs IH]; [done|]. cbn [all_gaps]. unmonad. rewrite publication_gaps_eq. cbn. by rewrite IH.
Qed.

Lemma incompleteness_eq s : authoritative_incompleteness s = (Ok (gaps s), s).
Proof.
  unfold authoritative_incompleteness, list_publications, highest_operator_reset, generation_count, authority_count,
    has_generation_high_water. unmonad. rewrite all_gaps_eq. done.
Qed.

(** The store after reconciliation: location rows whose file is there, tombstones whose row is. *)
Definition repaired_store (fs : FilesystemReality) (s : Startup.t) : Startup.t :=
  let locs := filter (fun kv : (text * text) * location => fs_exists fs (snd (fst kv)) = true) (locations (base (tables s))) in
  with_base_of (fun b => with_tombstones (filter (fun kv : (text * text) * (Z * Z) => is_Some (locs !! fst kv)) (tombstones b))
                           (with_locations locs b)) s.

Lemma elem_scan {V} (f : (text * text) * V -> (text * text) * V -> bool) (m : gmap (text * text) V) k :
  k ∈ fst <$> sort_by f (map_to_list m) <-> is_Some (m !! k).
Proof.
  rewrite sort_by_perm, list_elem_of_fmap. split.
  - intros ([k' v] & -> & Hin). apply elem_of_map_to_list in Hin. by exists v.
  - intros [v Hv]. exists (k, v). split; [done|]. by apply elem_of_map_to_list.
Qed.

Lemma elem_filter {A} (f : A -> bool) l x : x ∈ List.filter f l <-> x ∈ l /\ f x = true.
Proof. by rewrite !list_elem_of_In, List.filter_In. Qed.

Lemma drop_gone (fs : FilesystemReality) (f : (text * text) * location -> (text * text) * location -> bool) (m : gmap (text * text) location) :
  drop_all (gone_rows fs (sort_by f (map_to_list m))) m
  = filter (fun kv : (text * text) * location => fs_exists fs (snd (fst kv)) = true) m.
Proof.
  apply map_eq. intros k. rewrite drop_all_lookup. unfold gone_rows. case_bool_decide as Hk.
  - apply elem_filter in Hk as [_ Hk]. symmetry. apply map_lookup_filter_None. right. intros v _. cbn. by destruct (fs_exists fs (snd k)).
  - rewrite elem_filter, elem_scan in Hk. destruct (m !! k) as [v|] eqn:E.
    + symmetry. apply map_lookup_filter_Some. split; [done|]. cbn. destruct (fs_exists fs (snd k)); [done|]. destruct Hk. by split; [eexists|].
    + symmetry. apply map_lookup_filter_None. by left.
Qed.

Lemma drop_stale (locs : gmap (text * text) location) (f : (text * text) * location -> (text * text) * location -> bool)
    (g : (text * text) * (Z * Z) -> (text * text) * (Z * Z) -> bool) (m : gmap (text * text) (Z * Z)) :
  drop_all (stale_rows (fst <$> sort_by f (map_to_list locs)) (sort_by g (map_to_list m))) m
  = filter (fun kv : (text * text) * (Z * Z) => is_Some (locs !! fst kv)) m.
Proof.
  apply map_eq. intros k. rewrite drop_all_lookup. unfold stale_rows. case_bool_decide as Hk.
  - apply elem_filter in Hk as [_ Hk]. symmetry. apply map_lookup_filter_None. right. intros v _ Hl. cbn in Hl.
    rewrite (bool_decide_eq_true_2 _ (proj2 (elem_scan f locs k) Hl)) in Hk. done.
  - rewrite elem_filter, elem_scan in Hk. destruct (m !! k) as [v|] eqn:E.
    + symmetry. apply map_lookup_filter_Some. split; [done|]. cbn. apply dec_stable. intros Hn. destruct Hk. split; [by eexists|].
      rewrite bool_decide_eq_false_2; [done|]. by rewrite elem_scan.
    + symmetry. apply map_lookup_filter_None. by left.
Qed.

Lemma filter_all_true {A} (P : A -> Prop) `{!forall x, Decision (P x)} (l : list A) : Forall P l -> filter P l = l.
Proof. induction 1 as [|x l Hx _ IH]; [done|]. rewrite filter_cons_True by done. by rewrite IH. Qed.

(** Deadlines are stored as signed integers. *)
Definition deadlines_stored (s : Startup.t) : Prop :=
  map_Forall (fun _ v => snd v <= I64_MAX) (tombstones (base (tables s))).

Definition scan_of {V} (m : gmap (text * text) V) : list ((text * text) * V) :=
  sort_by (fun a b => pair_leb (fst a) (fst b)) (map_to_list m).

Definition verdict_on (g : list IncompleteState) : ServingDecision := match g with [] => Allowed | _ => Refused g end.

Definition live_locations (fs : FilesystemReality) (s : Startup.t) : gmap (text * text) location :=
  locations (base (tables (repaired_store fs s))).

Lemma due_all s : deadlines_stored s ->
  due_gc_tombstones U64_MAX (base (tables s)) = (Ok (scan_of (tombstones (base (tables s)))), base (tables s)).
Proof.
  intros Hd. unfold due_gc_tombstones, scan_of. do 3 f_equal. apply filter_all_true. apply Forall_forall.
  intros [k v] Hin%elem_of_map_to_list. apply Hd in Hin. unfold U64_MAX, I64_MAX in *. cbn in *. lia.
Qed.

Lemma reconcile_eq fs s : deadlines_stored s ->
  reconcile_startup fs s
  = (Ok {| repaired := ((fun k => MissingLocationRepaired (fst k) (snd k)) <$> gone_rows fs (scan_of (locations (base (tables s)))))
                       ++ ((fun k => StaleTombstoneCleared (fst k) (snd k))
                           <$> stale_rows (fst <$> scan_of (live_locations fs s)) (scan_of (tombstones (base (tables s)))));
           reported := OrphanPathReported <$> List.filter (fun p => negb (bool_decide (p ∈
             (fun r : (text * text) * location => snd (fst r)) <$> scan_of (locations (base (tables s)))))) (all_paths fs);
           decision := verdict_on (gaps s) |}, repaired_store fs s).
Proof.
  intros Hd. unfold reconcile_startup.
  assert (Hscan : forall s, on_store reconciliation_scan s = (Ok (scan_of (locations (base (tables s)))), s)).
  { intros [[[] ? ? ?] ?]. done. }
  assert (Hs1 : with_base_of (fun b => with_locations (drop_all (gone_rows fs (scan_of (locations (base (tables s))))) (locations b)) b) s
                = with_base_of (with_locations (live_locations fs s)) s).
  { unfold with_base_of, live_locations, on_base. do 2 f_equal. cbn. unfold scan_of. by rewrite drop_gone. }
  unfold mbind, mret, method_bind, method_ret. rewrite Hscan, repair_spec, Hs1, Hscan.
  set (s1 := with_base_of _ s). change (locations (base (tables s1))) with (live_locations fs s).
  assert (Hdue : on_store (due_gc_tombstones U64_MAX) s1 = (Ok (scan_of (tombstones (base (tables s)))), s1)).
  { unfold on_store, on_tables, with_base. rewrite due_all by exact Hd. by destruct s as [[[] ? ? ?] ?]. }
  rewrite Hdue, clear_spec, incompleteness_eq. f_equal.
  unfold s1, repaired_store, with_base_of, on_base. cbn. do 2 f_equal. unfold scan_of. by rewrite drop_stale.
Qed.

(** ** When serving is allowed *)

(** A publication that is adjudicated, or has its pin, its serving row and its evidence; and a history that has its
    authorities and its high-water mark, or was declared void by a reset. *)
Definition sound_publication (l : ledger) (a : text) (pin : Z) : Prop :=
  disposition <$> serving (results l) !! a = Some Publication.DISPOSITION_QUARANTINED \/
  ((exists p, pins (base l) !! pin = Some p /\ released (fst p) = false) /\
   is_Some (serving (results l) !! a) /\ evidence_of a l = true).

Definition complete (s : Startup.t) : Prop :=
  (forall a p, publications (results (tables s)) !! a = Some p -> sound_publication (tables s) a (pub_pin p)) /\
  (operator_resets s = ∅ ->
   ((publications (results (tables s)) = ∅ /\ generations (execution (tables s)) = ∅) \/ authorities (base (tables s)) <> ∅) /\
   (generations (execution (tables s)) = ∅ \/ 0 < generation_high_water (execution (tables s)))).

Lemma gaps_of_nil l a pin : gaps_of l (a, pin) = [] <-> sound_publication l a pin.
Proof.
  unfold gaps_of, sound_publication. case_bool_decide as Hq; [tauto|].
  rewrite !app_nil. destruct (pins (base l) !! pin) as [p|]; cbn.
  2:{ split; [by intros [? _]|]. intros [?|((q & Hq' & _) & _)]; done. }
  destruct (released (fst p)) eqn:Er.
  { split; [by intros [? _]|]. intros [?|((q & [= <-] & Hr) & _)]; [done|congruence]. }
  case_bool_decide as Hs; [|split; [by intros (_ & ? & _)|]; intros [?|(_ & ? & _)]; done].
  destruct (evidence_of a l); [|split; [by intros (_ & _ & ?)|]; intros [?|(_ & _ & ?)]; done].
  split; [|done]. intros _. right. split_and!; [by exists p|done|done].
Qed.

Lemma elem_published l a pin : (a, pin) ∈ published l <-> exists p, publications (results l) !! a = Some p /\ pub_pin p = pin.
Proof.
  unfold published. rewrite sort_by_perm, list_elem_of_fmap. split.
  - intros ([k p] & Hk & Hin). cbn in Hk. simplify_eq. apply elem_of_map_to_list in Hin. by exists p.
  - intros (p & Hp & <-). exists (a, p). split; [done|]. by apply elem_of_map_to_list.
Qed.

Lemma published_nil l : published l = [] <-> publications (results l) = ∅.
Proof.
  unfold published. split.
  - intros H. assert (Hp : length (map_to_list (publications (results l))) = 0%nat).
    { rewrite <- (length_fmap (fun kp : text * PublishedRow => (fst kp, pub_pin (snd kp)))),
        <- (Permutation_length (sort_by_perm text_key_leb _)), H. done. }
    by apply nil_length_inv, map_to_list_empty_iff in Hp.
  - intros ->. by rewrite map_to_list_empty.
Qed.

Lemma concat_nil {A} (ls : list (list A)) : concat ls = [] <-> forall l, l ∈ ls -> l = [].
Proof.
  induction ls as [|x ls IH]; cbn; [split; [by intros _ l Hl%not_elem_of_nil|done]|].
  rewrite app_nil, IH. split; [intros [-> H] l [->|Hl]%elem_of_cons; auto|].
  intros H. split; [apply H; left|]. intros l Hl. apply H. by right.
Qed.

Lemma publication_gaps_nil l :
  concat (gaps_of l <$> published l) = [] <->
  forall a p, publications (results l) !! a = Some p -> sound_publication l a (pub_pin p).
Proof.
  rewrite concat_nil. split.
  - intros H a p Hp. apply gaps_of_nil, H, list_elem_of_fmap. exists (a, pub_pin p). split; [done|].
    apply elem_published. by exists p.
  - intros H x ([a pin] & -> & Hin)%list_elem_of_fmap. apply elem_published in Hin as (p & Hp & <-). by apply gaps_of_nil, H.
Qed.

Lemma highest_some m : is_Some (highest m) <-> m <> ∅.
Proof.
  unfold highest. rewrite <- map_to_list_empty_iff. destruct (map_to_list m) as [|x l]; cbn.
  - split; [by intros [? ?]|done].
  - split; [done|by eexists].
Qed.

Lemma gaps_nil s : gaps s = [] <-> complete s.
Proof.
  unfold gaps, complete, history_gaps. rewrite !app_nil, publication_gaps_nil. f_equiv.
  rewrite (bool_decide_ext _ _ (highest_some (operator_resets s))).
  destruct (decide (operator_resets s = ∅)) as [E|E].
  - rewrite (bool_decide_eq_false_2 (operator_resets s <> ∅)) by tauto. cbn. rewrite !andb_true_r.
    assert (Hs : forall (T : Type) (m : gmap Z T), (0 <? Z.of_nat (size m)) = negb (bool_decide (m = ∅))).
    { intros T m. case_bool_decide as Hm; [subst; by rewrite map_size_empty|]. apply map_size_non_empty_iff in Hm. lia. }
    rewrite Hs, (bool_decide_ext _ _ (published_nil (tables s))).
    assert (Ha : (Z.of_nat (size (authorities (base (tables s)))) =? 0) = bool_decide (authorities (base (tables s)) = ∅)).
    { case_bool_decide as Hm; [rewrite Hm; by rewrite map_size_empty|]. apply map_size_non_empty_iff in Hm. lia. }
    rewrite Ha. repeat case_bool_decide; destruct (Z.ltb_spec 0 (generation_high_water (execution (tables s)))); cbn;
      split; intros; try done; naive_solver lia.
  - rewrite (bool_decide_eq_true_2 (operator_resets s <> ∅)) by done. cbn. rewrite !andb_false_r. naive_solver.
Qed.

(** C34: Reconciliation is exact.  It never fails; afterwards the location rows are those whose file exists, the
    tombstones those whose row does, and nothing else in the store has changed; it reports each row it removed, and as
    orphans the files no row claimed; and it allows serving exactly when the authoritative tables are complete. *)
Theorem reconcile_exact fs s :
  deadlines_stored s ->
  exists r, reconcile_startup fs s = (Ok r, repaired_store fs s) /\
    (decision r = Allowed <-> complete s) /\
    (forall o p, MissingLocationRepaired o p ∈ repaired r <->
       is_Some (locations (base (tables s)) !! (o, p)) /\ fs_exists fs p = false) /\
    (forall o p, StaleTombstoneCleared o p ∈ repaired r <->
       is_Some (tombstones (base (tables s)) !! (o, p)) /\ live_locations fs s !! (o, p) = None) /\
    (forall p, OrphanPathReported p ∈ reported r <->
       p ∈ all_paths fs /\ forall o, locations (base (tables s)) !! (o, p) = None).
Proof.
  intros Hd. rewrite (reconcile_eq fs s Hd). eexists. split; [done|]. cbn [decision repaired reported].
  split; [|split; [|split]].
  - rewrite <- gaps_nil. unfold verdict_on. destruct (gaps s); [by split|]. split; discriminate.
  - intros o p. rewrite elem_of_app, !list_elem_of_fmap. split.
    + intros [([o' p'] & Hk & Hin)|(k & ? & _)]; [|done]. cbn in Hk. simplify_eq. apply elem_filter in Hin as [Hin Hf].
      apply elem_scan in Hin. cbn in Hf. split; [done|]. by destruct (fs_exists fs p').
    + intros [Hl Hf]. left. exists (o, p). split; [done|]. apply elem_filter. split; [by apply elem_scan|]. cbn. by rewrite Hf.
  - intros o p. rewrite elem_of_app, !list_elem_of_fmap. split.
    + intros [(k & ? & _)|([o' p'] & Hk & Hin)]; [done|]. cbn in Hk. simplify_eq. apply elem_filter in Hin as [Hin Hf].
      apply elem_scan in Hin. split; [done|]. apply negb_true_iff, bool_decide_eq_false in Hf. unfold scan_of in Hf. rewrite elem_scan in Hf.
      by apply eq_None_not_Some.
    + intros [Hl Hf]. right. exists (o, p). split; [done|]. apply elem_filter. split; [by apply elem_scan|].
      apply negb_true_iff, bool_decide_eq_false. unfold scan_of. rewrite elem_scan, Hf. by intros [? ?].
  - intros p. rewrite list_elem_of_fmap. split.
    + intros (p' & Hk & Hin). simplify_eq. apply elem_filter in Hin as [Hin Hf]. split; [done|]. intros o.
      apply negb_true_iff, bool_decide_eq_false in Hf. apply eq_None_not_Some. intros [v Hv]. apply Hf.
      apply list_elem_of_fmap. exists ((o, p'), v). split; [done|]. unfold scan_of. rewrite sort_by_perm. by apply elem_of_map_to_list.
    + intros [Hin Hn]. exists p. split; [done|]. apply elem_filter. split; [done|]. apply negb_true_iff, bool_decide_eq_false.
      intros ([[o q] v] & Hq & Hv)%list_elem_of_fmap. cbn in Hq. subst q. unfold scan_of in Hv. rewrite sort_by_perm in Hv.
      apply elem_of_map_to_list in Hv. by rewrite Hn in Hv.
Qed.

(** ** The reset *)

Definition torn (s : Startup.t) (a : text) : Prop :=
  exists p, publications (results (tables s)) !! a = Some p /\ ~ sound_publication (tables s) a (pub_pin p).

(** What quarantining does to the tables. *)
Definition quarantined_in (s s' : Startup.t) (done : list text) : Prop :=
  operator_resets s' = operator_resets s /\ base (tables s') = base (tables s) /\
  execution (tables s') = execution (tables s) /\
  publications (results (tables s')) = publications (results (tables s)) /\
  evidence_index (results (tables s')) = evidence_index (results (tables s)) /\
  (forall a, a ∈ done -> disposition <$> serving (results (tables s')) !! a = Some Publication.DISPOSITION_QUARANTINED) /\
  (forall a, a ∉ done -> serving (results (tables s')) !! a = serving (results (tables s)) !! a).

Definition quarantine_one (a : text) (s : Startup.t) : Startup.t :=
  {| tables := on_trouble (put_quarantine (scope_str ActionEntry) a "operator reset: pre-reset publication state incomplete")
                 (on_results (put_disposition a Publication.DISPOSITION_QUARANTINED) (tables s));
     operator_resets := operator_resets s |}.

Lemma quarantine_one_in a s s' done :
  quarantined_in s s' done -> quarantined_in s (quarantine_one a s') (done ++ [a]).
Proof.
  intros (H1 & H2 & H3 & H4 & H5 & H6 & H7).
  assert (Hp : forall r, publications (put_disposition a Publication.DISPOSITION_QUARANTINED r) = publications r /\
    evidence_index (put_disposition a Publication.DISPOSITION_QUARANTINED r) = evidence_index r /\
    serving (put_disposition a Publication.DISPOSITION_QUARANTINED r)
    = <[a := match serving r !! a with
             | Some row => {| disposition := Publication.DISPOSITION_QUARANTINED; serving_version := serving_version row;
                              state_revision := state_revision row; authority_key := authority_key row; validity := validity row |}
             | None => fresh_serving Publication.DISPOSITION_QUARANTINED end]> (serving r)).
  { intros []. done. }
  destruct (Hp (results (tables s'))) as (Hp1 & Hp2 & Hp3).
  unfold quarantined_in, quarantine_one. cbn. rewrite Hp1, Hp2, Hp3. split_and!; try done.
  - intros b [Hb| ->%list_elem_of_singleton]%elem_of_app; [|rewrite lookup_insert_eq; by destruct (serving _ !! a)].
    destruct (decide (b = a)) as [->|Hne]; [rewrite lookup_insert_eq; by destruct (serving _ !! a)|].
    rewrite lookup_insert_ne by done. by apply H6.
  - intros b Hb. rewrite elem_of_app, list_elem_of_singleton in Hb. rewrite lookup_insert_ne by naive_solver. apply H7. naive_solver.
Qed.

Lemma quarantine_all_spec s states done s1 :
  quarantined_in s s1 done ->
  exists done' s2, quarantine_all states done s1 = (Ok done', s2) /\ quarantined_in s s2 done' /\
    forall a, a ∈ done' <-> a ∈ done \/ exists i, i ∈ states /\ action_of i = Some a.
Proof.
  revert done s1. induction states as [|i states IH]; intros done s1 Hq.
  { exists done, s1. split_and!; try done. intros a. split; [by left|]. intros [?|(i & Hi%not_elem_of_nil & _)]; done. }
  cbn [quarantine_all]. destruct (action_of i) as [a|] eqn:Ea.
  2:{ destruct (IH done s1 Hq) as (d & s2 & -> & Hq2 & Hd). exists d, s2. split_and!; try done. intros b. rewrite Hd.
      split; [intros [?|(j & ? & ?)]; [by left|right; exists j; split; [by right|done]]|].
      intros [?|(j & [->|Hj]%elem_of_cons & Hb)]; [by left|congruence|right; by exists j]. }
  assert (Hext : forall b (d : list text), (b ∈ d <-> (b ∈ done \/ b = a) \/ exists j, j ∈ states /\ action_of j = Some b) ->
            (b ∈ d <-> b ∈ done \/ exists j, j ∈ i :: states /\ action_of j = Some b)).
  { intros b d ->. split.
    - intros [[?| ->]|(j & ? & ?)]; [by left|right; exists i; split; [left|done]|right; exists j; split; [by right|done]].
    - intros [?|(j & [->|Hj]%elem_of_cons & Hb)]; [tauto|rewrite Ea in Hb; simplify_eq; tauto|right; by exists j]. }
  case_bool_decide as Hin.
  - destruct (IH done s1 Hq) as (d & s2 & -> & Hq2 & Hd). exists d, s2. split_and!; try done. intros b. apply Hext. rewrite Hd.
    split; [tauto|]. intros [[?| ->]|?]; tauto.
  - destruct (IH (done ++ [a]) (quarantine_one a s1) (quarantine_one_in a s s1 done Hq)) as (d & s2 & He & Hq2 & Hd).
    exists d, s2. split_and!; [|done|].
    + unfold on_tables, set_serving_disposition_key, add_quarantine, Ledger.in_txn. unmonad. exact He.
    + intros b. apply Hext. rewrite Hd, elem_of_app, list_elem_of_singleton. tauto.
Qed.

Lemma gaps_of_action l a pin i : i ∈ gaps_of l (a, pin) -> action_of i = Some a.
Proof.
  unfold gaps_of. destruct (bool_decide (_ = Some _)); [by intros ?%not_elem_of_nil|]. rewrite !elem_of_app.
  intros [H|[H|H]]; repeat case_match; try (by apply not_elem_of_nil in H); by apply list_elem_of_singleton in H as ->.
Qed.

Lemma gaps_torn s a : torn s a <-> exists i, i ∈ gaps s /\ action_of i = Some a.
Proof.
  unfold gaps. split.
  - intros (p & Hp & Hn). rewrite <- gaps_of_nil in Hn. destruct (gaps_of (tables s) (a, pub_pin p)) as [|i g] eqn:E; [done|].
    assert (Hi : i ∈ gaps_of (tables s) (a, pub_pin p)) by (rewrite E; left).
    exists i. split; [|by apply gaps_of_action in Hi]. apply elem_of_app. left. apply list_elem_of_In, in_concat.
    exists (gaps_of (tables s) (a, pub_pin p)). split; [|by apply list_elem_of_In]. apply list_elem_of_In, list_elem_of_fmap.
    exists (a, pub_pin p). split; [done|]. apply elem_published. by exists p.
  - intros (i & [Hi|Hi]%elem_of_app & Ha).
    + apply list_elem_of_In, in_concat in Hi as (g & Hg & Hi). apply list_elem_of_In, list_elem_of_fmap in Hg as ([b pin] & -> & Hb).
      apply list_elem_of_In in Hi. pose proof (gaps_of_action _ _ _ _ Hi) as Hb'. rewrite Ha in Hb'. simplify_eq.
      apply elem_published in Hb as (p & Hp & <-). exists p. split; [done|]. intros Hs%gaps_of_nil. rewrite Hs in Hi.
      by apply not_elem_of_nil in Hi.
    + unfold history_gaps in Hi. apply elem_of_app in Hi. exfalso.
      destruct Hi as [Hi|Hi]; case_match; try (by apply not_elem_of_nil in Hi); by apply list_elem_of_singleton in Hi as ->.
Qed.

Lemma highest_ge m g q : m !! g = Some q -> exists h, highest m = Some h /\ g <= h.
Proof.
  rewrite <- elem_of_map_to_list. unfold highest. induction (map_to_list m) as [|[k v] l IH]; [by intros ?%not_elem_of_nil|].
  cbn. intros [[= <- <-]|Hin]%elem_of_cons.
  - destruct (foldr _ _ _) as [h|]; eexists; (split; [done|lia]).
  - destruct (IH Hin) as (h & -> & Hh). eexists. split; [done|lia].
Qed.

(** A generation above every recorded one. *)
Definition newest (generation : Z) (m : gmap Z Z) : Prop := forall g, is_Some (m !! g) -> g < generation.

Lemma newest_highest generation m h : newest generation m -> highest m = Some h -> h < generation.
Proof.
  intros Hn Hh. apply Hn. revert h Hh. unfold highest.
  assert (E : forall l : list (Z * Z), (forall k v, (k, v) ∈ l -> m !! k = Some v) -> forall h,
    foldr (fun (kv : Z * Z) acc => Some (match acc with None => fst kv | Some h => Z.max (fst kv) h end)) None l = Some h ->
    is_Some (m !! h)).
  { induction l as [|[k v] l IH]; intros Hl h; [done|]. cbn. intros [= <-].
    assert (Hk : is_Some (m !! k)) by (exists v; apply Hl; by left).
    destruct (foldr _ _ _) as [h|]; [|done]. destruct (Z.max_spec k h) as [[_ ->]|[_ ->]]; [|done].
    apply IH; [|done]. intros; apply Hl; by right. }
  apply E. intros k v. apply elem_of_map_to_list.
Qed.

Lemma record_reset_new generation seq s :
  generation <= I64_MAX -> seq <= I64_MAX -> newest generation (operator_resets s) ->
  record_operator_reset generation seq s
  = (Ok tt, {| tables := tables s; operator_resets := <[generation := seq]> (operator_resets s) |}).
Proof.
  intros Hg Hq Hn. unfold record_operator_reset, to_i64. unmonad. destruct (Z.ltb_spec I64_MAX generation); [lia|].
  destruct (Z.ltb_spec I64_MAX seq); [lia|]. destruct (highest _) as [h|] eqn:E; [|done].
  apply (newest_highest _ _ _ Hn) in E. by destruct (Z.leb_spec generation h); [lia|].
Qed.

Lemma record_reset_stale g q s h :
  q <= I64_MAX -> g <= I64_MAX -> highest (operator_resets s) = Some h -> g <= h ->
  record_operator_reset g q s = (Err StaleOperatorReset, s).
Proof.
  intros Hq Hg Hh Hle. unfold record_operator_reset, to_i64. unmonad. destruct (Z.ltb_spec I64_MAX g); [lia|].
  destruct (Z.ltb_spec I64_MAX q); [lia|]. rewrite Hh. by destruct (Z.leb_spec g h); [|lia].
Qed.

Lemma quarantined_complete s s' done :
  quarantined_in s s' done -> (forall a, torn s a -> a ∈ done) -> operator_resets s <> ∅ -> complete s'.
Proof.
  intros (Hr & Hb & _ & Hp & He & Hd & Hs) Ht Hne. split; [|by rewrite Hr]. intros a p. rewrite Hp. intros Ha.
  unfold sound_publication, evidence_of. rewrite Hb, He. destruct (decide (a ∈ done)) as [Hin|Hin]; [left; by apply Hd|].
  rewrite (Hs a Hin). change (sound_publication (tables s) a (pub_pin p)). apply gaps_of_nil.
  destruct (gaps_of (tables s) (a, pub_pin p)) as [|i g] eqn:E; [done|]. exfalso. apply Hin, Ht. exists p. split; [done|].
  rewrite <- gaps_of_nil, E. done.
Qed.

(** C33: An operator reset opens a new lineage.  A reset under a generation above every earlier one is carried out: it
    quarantines exactly the publications whose rows are torn, changes no other serving row and no publication, and after
    it reconciliation allows serving; a later reset under a generation that is not above it is refused and changes
    nothing. *)
Theorem reset_opens_serving fs s generation seq :
  deadlines_stored s -> generation <= I64_MAX -> seq <= I64_MAX -> newest generation (operator_resets s) ->
  exists out s', apply_operator_reset generation seq s = (Ok out, s') /\
  (forall a, a ∈ quarantined_actions out <-> torn s a) /\
  (forall a, torn s a -> disposition <$> serving (results (tables s')) !! a = Some Publication.DISPOSITION_QUARANTINED) /\
  (forall a, ~ torn s a -> serving (results (tables s')) !! a = serving (results (tables s)) !! a) /\
  publications (results (tables s')) = publications (results (tables s)) /\
  (exists r, fst (reconcile_startup fs s') = Ok r /\ decision r = Allowed) /\
  (forall g q, g <= generation -> q <= I64_MAX -> apply_operator_reset g q s' = (Err StaleOperatorReset, s')).
Proof.
  intros Hdl Hg Hsq Hnew. unfold apply_operator_reset at 1. unmonad. rewrite (record_reset_new _ _ _ Hg Hsq Hnew).
  set (s1 := {| tables := tables s; operator_resets := <[generation := seq]> (operator_resets s) |}).
  assert (Hre : operator_resets s1 !! generation = Some seq) by apply lookup_insert_eq. rewrite incompleteness_eq.
  destruct (quarantine_all_spec s1 (gaps s1) [] s1) as (d & s2 & -> & Hq & Hd).
  { unfold quarantined_in. split_and!; try done. by intros a Ha%not_elem_of_nil. }
  eexists _, s2. split; [done|]. cbn [quarantined_actions].
  assert (Hd' : forall a, a ∈ d <-> torn s a).
  { intros a. rewrite Hd. change (torn s a) with (torn s1 a). rewrite gaps_torn, elem_of_nil. tauto. }
  assert (Hc : complete s2).
  { apply (quarantined_complete s1 s2 d Hq); [intros a Ha; by apply Hd'|intros E; by rewrite E, lookup_empty in Hre]. }
  destruct Hq as (Hr & Hb & _ & Hp & _ & Hqd & Hqs). split_and!; [done| | |by rewrite Hp| |].
  - intros a Ha. by apply Hqd, Hd'.
  - intros a Ha. rewrite Hqs; [done|]. by rewrite Hd'.
  - rewrite reconcile_eq by (unfold deadlines_stored; by rewrite Hb). eexists. split; [done|]. cbn [decision].
    apply gaps_nil in Hc. by rewrite Hc.
  - intros g q Hle Hq64. rewrite <- Hr in Hre. destruct (highest_ge _ _ _ Hre) as (h & Hh & Hgh).
    unfold apply_operator_reset. unmonad. by rewrite (record_reset_stale g q s2 h) by lia || done.
Qed.

(** ** A torn database *)

Definition digest_of (n : Z) : TypedDigest := {| algorithm := Sha256V1; domain := "rabs/action"; digest_bytes := [n] |}.
Definition torn_results : result_tables :=
  Results {[ [1] := {| pub_descriptor := digest_of 1; pub_manifest := digest_of 2; pub_generation := 1; pub_attempt := 1;
                       pub_kind := ResultIdentity.Success; pub_pin := 7 |} ]} ∅ ∅ ∅ ∅ ∅.
Definition torn_store : Startup.t :=
  {| tables := Build (with_locations {[ ([2], [9]) := {| verified_seq := None; encoding := "raw"; quarantined := false; loc_durable := true |} ]}
                        empty_store)
                 (Execution ∅ ∅ 0 ∅ ∅) torn_results (Incidents ∅ ∅ ∅ ∅ ∅ ∅ ∅);
     operator_resets := ∅ |}.
Definition no_files : FilesystemReality := {| fs_exists := fun _ => false; all_paths := [[8]] |}.

Lemma torn_deadlines : deadlines_stored torn_store.
Proof. apply map_Forall_empty. Qed.

Lemma reconcile_exact_witness :
  deadlines_stored torn_store /\ exists r, reconcile_startup no_files torn_store = (Ok r, repaired_store no_files torn_store) /\
  repaired r = [MissingLocationRepaired [2] [9]] /\ reported r = [OrphanPathReported [8]] /\ ~ complete torn_store.
Proof.
  split; [exact torn_deadlines|]. destruct (reconcile_exact no_files torn_store torn_deadlines) as (r & He & Hdec & _).
  exists r. split; [exact He|].
  assert (E : fst (reconcile_startup no_files torn_store)
              = Ok {| repaired := [MissingLocationRepaired [2] [9]]; reported := [OrphanPathReported [8]];
                      decision := Refused [PublicationPinMissing [1]; ServingStateMissing [1]; EvidenceMissing [1]; AuthorityHistoryMissing] |})
    by (vm_compute; reflexivity).
  rewrite He in E. cbn [fst] in E. assert (Er : r = {| repaired := [MissingLocationRepaired [2] [9]]; reported := [OrphanPathReported [8]];
    decision := Refused [PublicationPinMissing [1]; ServingStateMissing [1]; EvidenceMissing [1]; AuthorityHistoryMissing] |})
    by (by inversion E).
  rewrite Er in *. cbn [repaired reported]. split; [reflexivity|]. split; [reflexivity|]. intros Hc.
  apply Hdec in Hc. discriminate.
Defined.

Lemma reset_opens_serving_witness :
  exists out s', apply_operator_reset 1 5 torn_store = (Ok out, s') /\ quarantined_actions out = [[1]] /\
  (exists r, fst (reconcile_startup no_files s') = Ok r /\ decision r = Allowed) /\
  apply_operator_reset 1 6 s' = (Err StaleOperatorReset, s').
Proof.
  destruct (reset_opens_serving no_files torn_store 1 5 torn_deadlines) as (out & s' & E & _ & _ & _ & _ & Hr & Hst);
    [unfold I64_MAX; lia..|intros g [x Hx]; discriminate|].
  exists out, s'. split; [exact E|]. split; [|split; [exact Hr|apply Hst; unfold I64_MAX; lia]].
  assert (Eo : fst (apply_operator_reset 1 5 torn_store) = Ok {| reset_generation := 1; quarantined_actions := [[1]] |})
    by (vm_compute; reflexivity).
  rewrite E in Eo. cbn [fst] in Eo. by inversion Eo.
Defined.

End StartupFacts.
