(* ===== verification/Admission.v ===== *)
(** * Admission: what the coordinator's publication pipeline guarantees
    (rabs-cas/src/publication.rs, proofs about Publication.v) *)

From stdpp Require Import base gmap list strings sorting relations pretty.
From Stdlib Require Import ZArith Lia.
From S2P Require Import Prelude Bytes Manifest Digest Pack Store Gc Ledger Publication.
Import ResultIdentity ManifestCodec Store Ledger Publication.

Module Admission.

(** ** Methods that only read *)

Definition reads {S E A} (m : method S E A) : Prop := forall s, snd (m s) = s.

Lemma reads_ret {S E A} (a : A) : reads (S := S) (E := E) (mret a).
Proof. done. Qed.
Lemma reads_bind {S E A B} (m : method S E A) (f : A -> method S E B) :
  reads m -> (forall a, reads (f a)) -> reads (m ≫= f).
Proof.
  intros Hm Hf s. unfold mbind, method_bind. specialize (Hm s).
  destruct (m s) as [[a|e] s']; cbn in *; subst; [apply Hf|done].
Qed.
Lemma reads_refuse {S E} c (e : E) : reads (S := S) (refuse_if c e).
Proof. by destruct c. Qed.
Lemma reads_lift {S E A} (r : result E A) : reads (S := S) (lift_result r).
Proof. done. Qed.
Lemma reads_store_call {A} (m : method ledger StoreError A) : reads m -> reads (store_call m).
Proof.
  intros Hm s. unfold store_call. specialize (Hm s). by destruct (m s) as [[]?].
Qed.
Lemma reads_with_base {A} (m : method store StoreError A) : reads m -> reads (with_base m).
Proof.
  intros Hm s. unfold with_base, on_base. specialize (Hm (base s)).
  destruct (m (base s)) as [r s']; cbn in *; subst. by destruct s.
Qed.

Create HintDb reads discriminated.
#[export] Hint Resolve reads_ret reads_refuse reads_lift reads_store_call reads_with_base : reads.
#[export] Hint Extern 5 (reads (_ ≫= _)) => apply reads_bind; [|intro] : reads.
#[export] Hint Extern 1 (reads (generation_state _)) => intro; reflexivity : reads.
#[export] Hint Extern 1 (reads (attempt_exists _ _)) => intro; reflexivity : reads.
#[export] Hint Extern 1 (reads (lease_state _)) => intro; reflexivity : reads.
#[export] Hint Extern 1 (reads (object_located _)) => intro; reflexivity : reads.
#[export] Hint Extern 1 (reads (object_durably_located _)) => intro; reflexivity : reads.
#[export] Hint Extern 1 (reads (lookup_action _)) => intro; reflexivity : reads.
#[export] Hint Extern 1 (reads (published_manifest_key _)) => intro; reflexivity : reads.
#[export] Hint Extern 1 (reads active_authority) => intro; reflexivity : reads.
#[export] Hint Extern 1 (reads active_authority_key) => intro; reflexivity : reads.

(** A read in front of a computation that returned. *)
Lemma read_then {S E A B} (m : method S E A) (f : A -> method S E B) s b :
  reads m -> fst ((m ≫= f) s) = Ok b <-> exists a, fst (m s) = Ok a /\ fst (f a s) = Ok b.
Proof.
  intros Hm. unfold mbind, method_bind. specialize (Hm s).
  destruct (m s) as [[a|e] s1]; cbn in *; subst; naive_solver.
Qed.

Lemma refused_not {S E} c (e : E) u (s : S) : fst (refuse_if c e s) = Ok u <-> c = false.
Proof. destruct c, u; unmonad; naive_solver. Qed.

Lemma refused_then {S E A} c (e : E) (m : method S E A) s b :
  fst ((_ ← refuse_if c e; m) s) = Ok b <-> c = false /\ fst (m s) = Ok b.
Proof. by destruct c; unmonad; naive_solver. Qed.

Lemma lifted_then {S E A B} (r : result E A) (f : A -> method S E B) s b :
  fst ((a ← lift_result r; f a) s) = Ok b <-> exists a, r = Ok a /\ fst (f a s) = Ok b.
Proof. by destruct r; unmonad; naive_solver. Qed.

Lemma store_call_ok {A} (m : method ledger StoreError A) l a :
  fst (store_call m l) = Ok a <-> fst (m l) = Ok a.
Proof. unfold store_call. destruct (m l) as [[]?]; cbn; naive_solver. Qed.

Lemma with_base_ok {A} (m : method store StoreError A) l :
  fst (with_base m l) = fst (m (base l)).
Proof. unfold with_base. by destruct (m (base l)). Qed.

(** A store call that reads, in front of a computation that returned. *)
Lemma called_then {A B} (m : method ledger StoreError A) (f : A -> method ledger OfferRefusal B) l b :
  reads m ->
  fst ((a ← store_call m; f a) l) = Ok b <-> exists a, fst (m l) = Ok a /\ fst (f a l) = Ok b.
Proof.
  intros Hm. rewrite read_then by auto with reads. by setoid_rewrite store_call_ok.
Qed.

Lemma ok_or_Ok {E A} (o : option A) (e : E) a : ok_or o e = Ok a <-> o = Some a.
Proof. destruct o; cbn; naive_solver. Qed.

(** ** Facts that a method keeps or establishes *)

Definition keeps {S E A} (F : S -> Prop) (m : method S E A) : Prop :=
  forall s, F s -> F (snd (m s)).

Lemma keeps_bind {S E A B} (F : S -> Prop) (m : method S E A) (f : A -> method S E B) :
  keeps F m -> (forall a, keeps F (f a)) -> keeps F (m ≫= f).
Proof.
  intros Hm Hf s Hs. unfold mbind, method_bind. specialize (Hm s Hs).
  destruct (m s) as [[a|e] s']; [by apply Hf|done].
Qed.

Lemma keeps_store_call {A} F (m : method ledger StoreError A) : keeps F m -> keeps F (store_call m).
Proof. intros Hm l Hl. unfold store_call. specialize (Hm l Hl). by destruct (m l) as [[]?]. Qed.

Lemma keeps_run F steps : Forall (keeps F) steps -> keeps F (run_steps steps).
Proof. induction 1 as [|s steps Hs _ IH]; cbn [run_steps]; [by intros l|].
  by apply keeps_bind.
Qed.

Lemma keeps_txn {A} (F : ledger -> Prop) (m : ldb A) : keeps F m -> keeps F (in_txn m).
Proof. intros Hm l Hl. unfold in_txn. specialize (Hm l Hl). by destruct (m l) as [[]?]. Qed.

Lemma require_active_reads auth : reads (require_active auth).
Proof.
  apply reads_bind; [apply reads_with_base; by intros l|intros a]. by case_bool_decide.
Qed.

Lemma reads_keeps {A E} (F : ledger -> Prop) (m : method ledger E A) : reads m -> keeps F m.
Proof. intros Hm l Hl. by rewrite Hm. Qed.

(** What a step of a completed run establishes and the others keep holds at the end. *)
Lemma run_establishes (F : ledger -> Prop) steps s l l' :
  run_steps steps l = (Ok tt, l') -> s ∈ steps -> Forall (keeps F) steps ->
  (forall l1, fst (s l1) = Ok tt -> F (snd (s l1))) -> F l'.
Proof.
  intros Hrun Hin Hk Hs. revert l Hrun Hk. induction Hin as [s steps|s s' steps _ IH];
    intros l; cbn [run_steps]; unmonad; intros Hrun [Hs' Hk]%Forall_cons.
  - specialize (Hs l). pose proof (keeps_run F steps Hk) as Hrest.
    destruct (s l) as [[[]|] l1]; [|done]. specialize (Hrest l1 (Hs eq_refl)).
    by rewrite Hrun in Hrest.
  - destruct (s' l) as [[[]|] l1]; [|done]. by eapply IH.
Qed.

(** ** The lineage a commit writes *)

Lemma put_ancestor_keep c r row :
  publications (put_ancestor c r row) = publications r
  /\ adoptions (put_ancestor c r row) = adoptions r
  /\ ancestry (put_ancestor c r row)
     = or_ignore (c, producer_action_key row, anc_role row, anc_path row)
         (object_key row, adopted row) (ancestry r).
Proof. by destruct r. Qed.

Lemma put_ancestors_keep c rows r :
  publications (fold_left (put_ancestor c) rows r) = publications r
  /\ adoptions (fold_left (put_ancestor c) rows r) = adoptions r
  /\ evidence_index (fold_left (put_ancestor c) rows r) = evidence_index r.
Proof.
  revert r. induction rows as [|row rows IH]; intros r; [done|]. cbn [fold_left].
  destruct (IH (put_ancestor c r row)) as (-> & -> & ->). by destruct r.
Qed.

Lemma or_ignore_lookup `{Countable K} {V} (k k' : K) (v : V) m :
  or_ignore k v m !! k'
  = match m !! k' with Some v' => Some v' | None => if decide (k = k') then Some v else None end.
Proof.
  unfold or_ignore. destruct (m !! k) as [v0|] eqn:Hk.
  - destruct (decide (k = k')) as [<-|]; [by rewrite Hk|]. by destruct (m !! k').
  - rewrite lookup_insert. case_decide; [subst; by rewrite Hk|]. by destruct (m !! k').
Qed.

Lemma or_ignore_subseteq `{Countable K} {V} (k : K) (v : V) m : m ⊆ or_ignore k v m.
Proof. unfold or_ignore. destruct (m !! k) eqn:Hk; [done|]. by apply insert_subseteq. Qed.

Lemma put_ancestors_lookup c rows r key v :
  ancestry (fold_left (put_ancestor c) rows r) !! key = Some v ->
  ancestry r !! key = Some v
  \/ ancestry r !! key = None /\ exists row, row ∈ rows
     /\ key = (c, producer_action_key row, anc_role row, anc_path row)
     /\ v = (object_key row, adopted row).
Proof.
  revert r. induction rows as [|row rows IH]; intros r Hl; [by left|]. cbn [fold_left] in Hl.
  apply IH in Hl. rewrite (proj2 (proj2 (put_ancestor_keep c r row))), or_ignore_lookup in Hl.
  destruct Hl as [Hl|[Hl (row' & Hin & Hkey & Hv)]].
  - destruct (ancestry r !! key); [by left|]. case_decide; [|done]. simplify_eq.
    right. split; [done|]. exists row. set_solver.
  - destruct (ancestry r !! key); [done|]. right. split; [done|]. exists row'. set_solver.
Qed.

Lemma put_ancestors_mono c rows r key v :
  ancestry r !! key = Some v -> ancestry (fold_left (put_ancestor c) rows r) !! key = Some v.
Proof.
  revert r. induction rows as [|row rows IH]; intros r Hl; [done|]. apply IH.
  by rewrite (proj2 (proj2 (put_ancestor_keep c r row))), or_ignore_lookup, Hl.
Qed.

Lemma put_ancestors_all c rows r row :
  row ∈ rows ->
  is_Some (ancestry (fold_left (put_ancestor c) rows r)
             !! (c, producer_action_key row, anc_role row, anc_path row)).
Proof.
  intros Hin. revert r. induction Hin as [row rows|row row' rows _ IH]; intros r; [|apply IH].
  cbn [fold_left].
  assert (is_Some (ancestry (put_ancestor c r row)
            !! (c, producer_action_key row, anc_role row, anc_path row))) as [v Hv].
  { rewrite (proj2 (proj2 (put_ancestor_keep c r row))), or_ignore_lookup.
    case_match; [by eauto|]. rewrite decide_True by done. eauto. }
  exists v. by apply put_ancestors_mono.
Qed.

(** The tables a commit starts the lineage from. *)
Lemma write_publication_base row l :
  exists r, results (write_publication row l)
            = fold_left (put_ancestor (Pack.digest_key (row_action_key row))) (row_ancestors row) r
    /\ ancestry r = ancestry (results l) /\ adoptions r = adoptions (results l)
    /\ evidence_index (results l) ⊆ evidence_index r
    /\ publications r = <[Pack.digest_key (row_action_key row) :=
         {| pub_descriptor := row_descriptor row; pub_manifest := row_manifest row;
            pub_generation := row_generation row; pub_attempt := row_attempt row;
            pub_kind := row_kind row; pub_pin := row_pin row |}]> (publications (results l)).
Proof.
  eexists. unfold write_publication, on_base, on_results. cbn. split; [done|].
  destruct (results l). cbn. split_and!; try done. apply or_ignore_subseteq.
Qed.

Lemma write_publication_recorded row l a :
  a ∈ row_ancestors row ->
  is_Some (ancestry (results (write_publication row l))
             !! (Pack.digest_key (row_action_key row), producer_action_key a, anc_role a, anc_path a)).
Proof.
  intros Ha. destruct (write_publication_base row l) as (r & -> & _). by apply put_ancestors_all.
Qed.

(** ** The walk over the ancestors *)

Section walk.
Context (resolver : text -> option CanonicalActionResultManifest).

(** The references, each with what its check found. *)
Definition check_all (l : ledger) (cs : list PendingAncestorCheck) :
    result OfferRefusal (list ProvisionalAncestorRow) :=
  mapM (fun c => row_of c <$> check_ancestor resolver l c) cs.

Abbreviation is_direct := (fun c : PendingAncestorCheck => direct c = true).

(** Rows of the consumers not expanded yet. *)
Definition rows_left (l : ledger) (walked : gset text) : nat :=
  length (filter (fun e => (fst e).1.1.1 ∉ walked) (map_to_list (ancestry (results l)))).

Lemma ancestor_rows_length l k :
  length (ancestor_rows l k)
  = length (filter (fun e => (fst e).1.1.1 = k) (map_to_list (ancestry (results l)))).
Proof.
  unfold ancestor_rows. rewrite (Permutation_length (sort_by_perm _ _)).
  induction (map_to_list (ancestry (results l))) as [|[[[[c p] r] path] [o ad]] rows IH]; [done|].
  cbn [omap list_omap]. rewrite filter_cons. cbn [fst].
  destruct (decide (c = k)) as [Hc|Hc].
  - rewrite (bool_decide_true _ Hc). cbn. by rewrite IH.
  - by rewrite (bool_decide_false _ Hc).
Qed.

Lemma rows_left_expand l k walked :
  k ∉ walked ->
  (length (ancestor_rows l k) + rows_left l ({[k]} ∪ walked) = rows_left l walked)%nat.
Proof.
  intros Hk. rewrite ancestor_rows_length. unfold rows_left.
  induction (map_to_list (ancestry (results l))) as [|e rows IH]; [done|].
  rewrite !filter_cons. destruct (decide ((fst e).1.1.1 = k)) as [->|Hne].
  - rewrite (decide_False (P := k ∉ {[k]} ∪ walked)) by set_solver.
    rewrite decide_True by done. cbn [length]. lia.
  - destruct (decide ((fst e).1.1.1 ∈ walked)).
    + rewrite !decide_False by set_solver. done.
    + rewrite !decide_True by set_solver. cbn [length]. lia.
Qed.

Lemma rows_left_empty l : rows_left l ∅ = size (ancestry (results l)).
Proof.
  unfold rows_left. rewrite <- length_map_to_list.
  induction (map_to_list _) as [|e rows IH]; [done|].
  rewrite filter_cons_True by apply not_elem_of_empty. cbn. by rewrite IH.
Qed.

(** Rounds the walk still needs. *)
Lemma walk_some fuel l queue walked rows :
  (length queue + rows_left l walked <= fuel)%nat ->
  is_Some (walk_ancestry resolver fuel l queue walked rows).
Proof.
  revert queue walked rows. induction fuel as [|fuel IH]; intros [|c queue] walked rows Hf;
    cbn [walk_ancestry]; [by eauto|cbn in Hf; lia|by eauto|].
  cbn [length] in Hf. destruct (check_ancestor resolver l c); [|by eauto].
  case_bool_decide as Hk; apply IH; [lia|]. rewrite length_app, length_fmap.
  pose proof (rows_left_expand l (producer_key c) walked Hk).
  pose proof (length_filter (fun row => producer_action_key row ∉ {[producer_key c]} ∪ walked)
                (ancestor_rows l (producer_key c))). lia.
Qed.

Lemma walk_ends l refs :
  is_Some (walk_ancestry resolver (walk_fuel l refs) l (pending_of_ref <$> refs) ∅ []).
Proof. apply walk_some. rewrite rows_left_empty, length_fmap. done. Qed.

Lemma check_all_cons l c cs :
  check_all l (c :: cs)
  = ad ← check_ancestor resolver l c; rows ← check_all l cs; mret (row_of c ad :: rows).
Proof. unfold check_all. cbn. by destruct (check_ancestor resolver l c). Qed.

Lemma indirect_rows l P `{forall r, Decision (P r)} k :
  filter is_direct (pending_of_row <$> filter P (ancestor_rows l k)) = [].
Proof.
  induction (filter P (ancestor_rows l k)) as [|row rows IH]; [done|]. cbn [fmap list_fmap].
  by rewrite filter_cons_False.
Qed.

(** A successful walk checked the direct references and reports what it found. *)
Lemma walk_direct fuel l queue walked rows out :
  walk_ancestry resolver fuel l queue walked rows = Some (Ok out) ->
  exists found, check_all l (filter is_direct queue) = Ok found /\ out = rows ++ found.
Proof.
  revert queue walked rows. induction fuel as [|fuel IH]; intros [|c queue] walked rows;
    cbn [walk_ancestry]; [|done| |].
  1, 2: intros [= <-]; exists []; by rewrite app_nil_r.
  destruct (check_ancestor resolver l c) as [ad|] eqn:Hc; [|done].
  rewrite filter_cons.
  assert (forall found rows', rows' = rows ++ (if direct c then [row_of c ad] else []) ->
    check_all l (filter is_direct queue) = Ok found -> exists found',
    check_all l (if decide (direct c = true) then c :: filter is_direct queue
                 else filter is_direct queue) = Ok found' /\ rows' ++ found = rows ++ found') as Hstep.
  { intros found rows' -> Hf. destruct (direct c); cbn [decide]; [|by rewrite app_nil_r; eauto].
    destruct (decide (true = true)); [|done].
    rewrite check_all_cons, Hc. unmonad. rewrite Hf. eexists. split; [done|].
    by rewrite <- app_assoc. }
  case_bool_decide; intros (found & Hf & ->)%IH.
  - apply Hstep; [|done]. by destruct (direct c); rewrite ?app_nil_r.
  - rewrite filter_app, indirect_rows, app_nil_r in Hf.
    apply Hstep; [|done]. by destruct (direct c); rewrite ?app_nil_r.
Qed.

(** [consumer] was recorded as built from an output of [producer]. *)
Definition lineage (l : ledger) (consumer producer : text) : Prop :=
  exists role path, is_Some (ancestry (results l) !! (consumer, producer, role, path)).

Lemma elem_of_ancestor_rows l k row :
  row ∈ ancestor_rows l k
  <-> ancestry (results l) !! (k, producer_action_key row, anc_role row, anc_path row)
      = Some (object_key row, adopted row).
Proof.
  unfold ancestor_rows. rewrite sort_by_perm, list_elem_of_omap. split.
  - intros ([[[[c p] r] path] [o ad]] & Hin & Hrow). apply elem_of_map_to_list in Hin.
    cbn in Hrow. case_bool_decide; simplify_eq. done.
  - intros Hin%elem_of_map_to_list. eexists. split; [exact Hin|]. cbn.
    rewrite bool_decide_true by done. by destruct row.
Qed.

(** The producer has a result, and the coordinator holds its manifest. *)
Definition committed (l : ledger) (producer : text) : Prop :=
  exists p man, publications (results l) !! producer = Some p
    /\ resolver (Pack.digest_key (pub_manifest p)) = Some man.

Lemma check_ancestor_committed l c ad :
  check_ancestor resolver l c = Ok ad -> committed l (producer_key c).
Proof.
  unfold check_ancestor, committed. intros Hc.
  destruct (publications _ !! _) as [p|]; [|done]. exists p.
  destruct (resolver _) as [man|]; [|done]. by exists man.
Qed.

Lemma walk_closed fuel l queue walked rows out :
  walk_ancestry resolver fuel l queue walked rows = Some (Ok out) ->
  (forall k, k ∈ walked -> committed l k) ->
  (forall k q, k ∈ walked -> lineage l k q -> q ∈ walked \/ q ∈ producer_key <$> queue) ->
  forall k q, k ∈ walked \/ k ∈ producer_key <$> queue -> rtc (lineage l) k q -> committed l q.
Proof.
  revert queue walked rows. induction fuel as [|fuel IH]; intros [|c queue] walked rows;
    cbn [walk_ancestry]; [|done| |].
  1, 2: intros _ Hw Hcl k q Hk Hr; induction Hr as [k|k q' q Hs _ IHr];
    [apply Hw|apply IHr]; set_solver.
  destruct (check_ancestor resolver l c) as [ad|] eqn:Hc; [|done].
  apply check_ancestor_committed in Hc. case_bool_decide as Hin; intros Hwalk Hw Hcl k q Hk.
  - eapply IH; [done|done| |]; [|set_solver].
    intros k' q' Hk' Hl. destruct (Hcl k' q' Hk' Hl); set_solver.
  - eapply IH; [done|set_solver| |].
    + intros k' q' [->%elem_of_singleton|Hk']%elem_of_union Hl.
      * destruct (decide (q' ∈ {[producer_key c]} ∪ walked)) as [|Hout]; [by left|right].
        destruct Hl as (role & path & [o ad'] & Hl).
        rewrite fmap_app, elem_of_app. right. rewrite <- list_fmap_compose, list_elem_of_fmap.
        exists {| producer_action_key := q'; anc_role := role; anc_path := path;
                  object_key := o; adopted := ad' |}.
        split; [done|]. rewrite list_elem_of_filter. split; [done|].
        by apply elem_of_ancestor_rows.
      * destruct (Hcl k' q' Hk' Hl); [set_solver|]. rewrite fmap_app. set_solver.
    + rewrite fmap_app. set_solver.
Qed.

(** Every recorded reference holds, as it was recorded. *)
Definition lineage_holds (l : ledger) : Prop := forall k row,
  row ∈ ancestor_rows l k -> check_ancestor resolver l (pending_of_row row) = Ok (adopted row).

Lemma walk_under_lineage fuel l queue walked rows r :
  lineage_holds l ->
  (forall c, c ∈ queue -> direct c = false -> is_ok (check_ancestor resolver l c) = true) ->
  walk_ancestry resolver fuel l queue walked rows = Some r ->
  r = (app rows <$> check_all l (filter is_direct queue)).
Proof.
  intros Hlin. revert queue walked rows. induction fuel as [|fuel IH];
    intros [|c queue] walked rows Hq; cbn [walk_ancestry]; [|done| |].
  1, 2: intros [= <-]; cbn; by rewrite app_nil_r.
  destruct (check_ancestor resolver l c) as [ad|e] eqn:Hc.
  2: { intros [= <-]. assert (direct c = true) as Hd.
       { destruct (direct c) eqn:Hd; [done|]. specialize (Hq c ltac:(set_solver) Hd).
         by rewrite Hc in Hq. }
       by rewrite filter_cons_True, check_all_cons, Hc by done. }
  rewrite filter_cons.
  assert (forall rows', rows' = (if direct c then rows ++ [row_of c ad] else rows) ->
    (app rows' <$> check_all l (filter is_direct queue))
    = (app rows <$> check_all l (if decide (direct c = true)
                     then c :: filter is_direct queue else filter is_direct queue))) as Hstep.
  { intros rows' ->. destruct (direct c); [|done]. destruct (decide (true = true)); [|done].
    rewrite check_all_cons, Hc. unmonad. destruct (check_all l (filter is_direct queue)); [|done].
    cbn. by rewrite <- app_assoc. }
  case_bool_decide; intros Hw; apply IH in Hw.
  - by rewrite Hw, Hstep.
  - set_solver.
  - by rewrite Hw, filter_app, indirect_rows, app_nil_r, Hstep.
  - intros c' [Hc'|(row & -> & Hin)%list_elem_of_fmap]%elem_of_app Hd; [set_solver|].
    apply list_elem_of_filter in Hin as [_ Hin]. by rewrite (Hlin _ _ Hin).
Qed.

End walk.

Lemma verify_root_spec {SHA : Type} `{Hasher SHA} man :
  verify_manifest_bundle_root man = Ok tt
  <-> validate man = Ok tt /\ artifact_bundle_root man = compute_bundle_root (logical_outputs man).
Proof.
  unfold verify_manifest_bundle_root. destruct (validate man) as [[]|]; [|naive_solver].
  destruct (artifact_bundle_root man) as [d|], (compute_bundle_root (logical_outputs man)) as [d'|];
    [case_decide|..]; naive_solver.
Qed.

Section admission.
Context {SHA : Type} `{Hasher SHA} (resolver : text -> option CanonicalActionResultManifest).
Context (offer : OfferPreparedActionResult) (expected_descriptor : TypedDigest) (pin_id seq : Z)
  (durability : CommitDurabilityProfile).

Let m := manifest offer.
Let action := Pack.digest_key (action_key m).
Let gen := generation_id (action_generation (authority offer)).
Let att := attempt_id (authority offer).
Let offered := PinLeases.authority_digest (coordinator (authority offer)).

(** ** What an offer must satisfy *)

(** The authority is the active one, its generation and attempt are live, its lease too. *)
Record fenced (l : ledger) : Prop := {
  f_authority : exists row, fst (active_authority (base l)) = Ok (Some row)
                            /\ auth_digest row = offered;
  f_created : created_under_authority_digest (action_generation (authority offer)) = offered;
  f_generation : exists g, generations (execution l) !! gen = Some g /\ tombstoned g = false;
  f_attempt : exists a, attempts (execution l) !! att = Some a /\ attempt_generation a = gen;
  f_lease : exists r, leases (execution l) !! execution_lease_id (authority offer) = Some r
                      /\ lease_released r = false }.

(** The manifest is for the action at its epochs, and its root and digests are its own. *)
Record identified (l : ledger) : Prop := {
  i_descriptor : canonical_descriptor_digest m = expected_descriptor;
  i_key : action_key m = auth_action_key (authority offer);
  i_entry : exists e, fst (lookup_action (action_key m) l) = Ok (Some e)
              /\ entry_key_epoch e = key_epoch m /\ entry_projection_epoch e = projection_epoch m;
  i_valid : validate m = Ok tt;
  i_root : artifact_bundle_root m = compute_bundle_root (logical_outputs m);
  i_semantic : semantic_result_digest m = semantic_result_digest_v1 m;
  i_observable : observable_result_digest m
                 = observable_result_digest_v1 m (canonical_observations offer) }.

(** A location of the object that is not quarantined, durable if that is required. *)
Definition stored (l : ledger) (durable_only : bool) (o : TypedDigest) : Prop :=
  exists path loc, locations (base l) !! (Pack.digest_key o, path) = Some loc
    /\ quarantined loc = false /\ (durable_only = true -> loc_durable loc = true).

Lemma fences_spec l : fst (check_fences offer l) = Ok tt <-> fenced l.
Proof.
  unfold check_fences. rewrite called_then, with_base_ok by auto with reads. split.
  - intros (active & Hact & Hrest).
    rewrite !refused_then, called_then in Hrest by auto with reads.
    destruct Hrest as (Ha & Hc & st & [= <-] & Hrest).
    rewrite !refused_then, called_then in Hrest by auto with reads.
    destruct Hrest as (Hg & Ht & ex & [= <-] & Hrest).
    rewrite refused_then, called_then in Hrest by auto with reads.
    destruct Hrest as (Hx & le & [= <-] & Hrest).
    rewrite refused_then, refused_not in Hrest. destruct Hrest as [Hl Hr].
    apply negb_false_iff, bool_decide_eq_true in Ha, Hc. apply negb_false_iff in Hx.
    apply bool_decide_eq_false in Hg, Ht, Hl, Hr. split.
    + destruct active as [row|]; [|done]. exists row. naive_solver.
    + done.
    + unfold gen. destruct (generations _ !! _) as [g|]; [|done].
      exists g. split; [done|]. cbn in Ht. by destruct (tombstoned g).
    + unfold att, gen. destruct (attempts _ !! _) as [a|]; [|done].
      exists a. split; [done|]. by apply Z.eqb_eq.
    + destruct (leases _ !! _) as [r|]; [|done].
      exists r. split; [done|]. cbn in Hr. by destruct (lease_released r).
  - intros [(row & Hact & Ha) Hc (g & Hg & Ht) (a & Hatt & Hag) (r & Hl & Hr)].
    exists (Some row). split; [done|].
    rewrite !refused_then, called_then by auto with reads.
    rewrite !negb_false_iff, !bool_decide_eq_true. cbn [fmap option_fmap option_map].
    split; [by rewrite Ha|]. split; [done|]. eexists. split; [done|].
    rewrite !refused_then, called_then by auto with reads. rewrite !bool_decide_eq_false.
    fold gen. rewrite Hg. cbn. rewrite Ht. do 2 (split; [done|]). eexists. split; [done|].
    rewrite refused_then, called_then by auto with reads. rewrite negb_false_iff.
    fold att. rewrite Hatt. split; [by apply Z.eqb_eq|]. eexists. split; [done|].
    rewrite refused_then, refused_not, !bool_decide_eq_false, Hl. cbn. by rewrite Hr.
Qed.

Lemma identity_spec l : fst (check_identity offer expected_descriptor l) = Ok tt <-> identified l.
Proof.
  unfold check_identity. rewrite !refused_then, called_then by auto with reads.
  rewrite !negb_false_iff, !bool_decide_eq_true. fold m. split.
  - intros (Hd & Hk & e & He & Hrest). rewrite lifted_then in Hrest.
    destruct Hrest as (entry & Hent & Hrest). apply ok_or_Ok in Hent as ->.
    rewrite refused_then, lifted_then in Hrest. destruct Hrest as (Hep & [] & Hroot & Hrest).
    rewrite refused_then, refused_not, !negb_false_iff, !bool_decide_eq_true in Hrest.
    destruct Hrest as [Hs Ho].
    destruct (verify_manifest_bundle_root m) as [[]|] eqn:Hv; [|done].
    apply verify_root_spec in Hv as [Hval Hr].
    apply orb_false_iff in Hep. rewrite !negb_false_iff, !Z.eqb_eq in Hep.
    split; try done. eauto.
  - intros [Hd Hk (e & He & Hke & Hpe) Hval Hroot Hs Ho].
    do 2 (split; [done|]). exists (Some e). split; [done|].
    rewrite lifted_then. exists e. split; [done|].
    rewrite refused_then, lifted_then, Hke, Hpe, !Z.eqb_refl. split; [done|]. exists tt.
    rewrite (proj2 (verify_root_spec m)) by done. split; [done|].
    by rewrite refused_then, refused_not, !negb_false_iff, !bool_decide_eq_true.
Qed.

Lemma located_row_spec l d o : located_row d l o = true <-> stored l d o.
Proof.
  unfold located_row, stored. rewrite bool_decide_eq_true, Exists_exists. split.
  - intros ([[k path] loc] & Hin & Hk & Hq). apply elem_of_map_to_list in Hin.
    cbn in *. subst. eauto.
  - intros (path & loc & Hl & Hq). exists ((Pack.digest_key o, path), loc).
    by rewrite elem_of_map_to_list.
Qed.

Lemma stored_weaken l d o : stored l d o -> stored l false o.
Proof. intros (path & loc & ? & ? & _). by exists path, loc. Qed.

Definition durable_only : bool := bool_decide (durability = RequireDurableClosure).

Lemma closure_stored objects l :
  fst (check_closure durability objects l) = Ok tt <-> Forall (stored l durable_only) objects.
Proof.
  induction objects as [|o objects IH]; cbn [check_closure]; [by split; [constructor|]|].
  rewrite called_then, Forall_cons, <- IH by auto with reads.
  setoid_rewrite refused_then. unfold durable_only.
  destruct (decide (durability = RequireDurableClosure)) as [Hd|Hd].
  - rewrite (bool_decide_true _ Hd). setoid_rewrite called_then; [|by auto with reads..].
    setoid_rewrite refused_then. setoid_rewrite negb_false_iff. rewrite <- located_row_spec.
    unfold object_located, object_durably_located. cbn.
    pose proof (stored_weaken l true o) as Hw. rewrite <- !located_row_spec in Hw. naive_solver.
  - rewrite (bool_decide_false _ Hd). rewrite <- located_row_spec. unmonad. cbn.
    destruct (located_row false l o); naive_solver.
Qed.

(** ** The pipeline *)

Lemma reads_fences : reads (check_fences offer).
Proof. unfold check_fences. auto 20 with reads. Qed.
Lemma reads_identity : reads (check_identity offer expected_descriptor).
Proof. unfold check_identity. auto 20 with reads. Qed.
Lemma reads_closure objects : reads (check_closure durability objects).
Proof.
  induction objects; cbn [check_closure]; [done|].
  apply reads_bind; [auto with reads|intros a']. apply reads_bind; [auto with reads|intros _].
  apply reads_bind; [case_decide; auto with reads|intros d].
  apply reads_bind; [auto with reads|done].
Qed.
Lemma reads_ancestry : reads (verify_provisional_ancestry resolver offer).
Proof. intros l. unfold verify_provisional_ancestry. by case_match. Qed.

(** Steps 1 to 7.5, which read only. *)
Definition checks : method ledger OfferRefusal (list ProvisionalAncestorRow) :=
  _ ← check_fences offer;
  _ ← check_identity offer expected_descriptor;
  _ ← check_closure durability (offer_closure offer);
  verify_provisional_ancestry resolver offer.

Record admissible (l : ledger) (rows : list ProvisionalAncestorRow) : Prop := {
  a_fenced : fenced l;
  a_identified : identified l;
  a_stored : Forall (stored l durable_only) (offer_closure offer);
  a_ancestry : fst (verify_provisional_ancestry resolver offer l) = Ok rows }.

Lemma checks_spec l rows : fst (checks l) = Ok rows <-> admissible l rows.
Proof.
  unfold checks. rewrite read_then by apply reads_fences.
  setoid_rewrite (read_then (check_identity _ _)); [|apply reads_identity].
  setoid_rewrite (read_then (check_closure _ _)); [|apply reads_closure].
  split.
  - intros ([] & Hf & [] & Hi & [] & Hc & Ha).
    split; [by apply fences_spec|by apply identity_spec|by apply closure_stored|done].
  - intros [Hf%fences_spec Hi%identity_spec Hc%closure_stored Ha]. eauto 10.
Qed.

Lemma process_offer_split l :
  process_offer resolver offer expected_descriptor pin_id seq durability l
  = match fst (checks l) with
    | Err e => (Err e, l)
    | Ok rows =>
        match publications (results l) !! action with
        | Some p => same_key resolver offer pin_id seq (Pack.digest_key (pub_manifest p)) l
        | None => commit offer pin_id seq rows l
        end
    end.
Proof.
  unfold process_offer, checks. unmonad.
  pose proof (reads_fences l) as Hf. destruct (check_fences offer l) as [[[]|] l1]; cbn in Hf; subst; [|done].
  pose proof (reads_identity l) as Hi.
  destruct (check_identity offer expected_descriptor l) as [[[]|] l1]; cbn in Hi; subst; [|done].
  pose proof (reads_closure (offer_closure offer) l) as Hc.
  destruct (check_closure durability (offer_closure offer) l) as [[[]|] l1]; cbn in Hc; subst; [|done].
  pose proof (reads_ancestry l) as Ha.
  destruct (verify_provisional_ancestry resolver offer l) as [[rows|] l1]; cbn in Ha; subst; [|done].
  cbn. fold m action. by destruct (publications (results l) !! action).
Qed.

(** The same rows in every table; domains may have been interned. *)
Definition same_tables (l l' : ledger) : Prop := exists doms, l' = on_base (with_domains doms) l.

Lemma same_tables_refl l : same_tables l l.
Proof. exists (domains (base l)). destruct l as [[] ? ? ?]. done. Qed.

(** Each authority is stored under the key of its digest. *)
Definition authorities_keyed (l : ledger) : Prop := forall k row b,
  authorities (base l) !! k = Some (row, b) -> k = Pack.digest_key (auth_digest row).

(** The ledger after the domains of the offer are interned. *)
Definition interned (l : ledger) : ledger :=
  on_base (fun s =>
    Store.intern (domain (evidence_id offer)) (Store.intern (domain (manifest_id offer))
      (Store.intern (domain (canonical_descriptor_digest m)) (Store.intern (domain (action_key m)) s)))) l.

Lemma interned_same l : same_tables l (interned l).
Proof. eexists. unfold interned, on_base, Store.intern, with_domains. cbn. done. Qed.

Lemma active_key l :
  authorities_keyed l -> fenced l ->
  active_authority_key (base l) = (Ok (Some (Pack.digest_key offered)), base l).
Proof.
  intros Hk [(row & Hact & Hrow) _ _ _ _].
  unfold active_authority in Hact. cbn in Hact. unfold active_authority_key.
  destruct (unreleased (base l)) as [|[k [row' b]] [|]] eqn:Hu; [done| |done].
  case_bool_decide; [|done]. simplify_eq.
  assert ((k, (row, b)) ∈ unreleased (base l)) as Hin by (rewrite Hu; set_solver).
  unfold unreleased in Hin. apply list_elem_of_filter in Hin as [_ Hin].
  apply elem_of_map_to_list in Hin. by rewrite (Hk _ _ _ Hin), Hrow.
Qed.

Definition receipt : ActionPublicationRecord :=
  {| rec_action_key := action_key m; rec_manifest_id := manifest_id offer;
     rec_evidence_id := evidence_id offer; committed_causal_sequence := seq |}.

Lemma commit_spec rows l :
  authorities_keyed l -> fenced l -> publications (results l) !! action = None ->
  commit offer pin_id seq rows l
  = if decide (pins (base l) !! pin_id = None)
    then (Ok (PublicationCommitted receipt), write_publication (publication_row offer pin_id rows) (interned l))
    else (Err (StoreRefused Backend), interned l).
Proof.
  intros Hk Hf Hnone. pose proof (f_equal fst (active_key l Hk Hf)) as Hact. cbn in Hact.
  unfold commit, commit_publication, store_call, intern, in_txn, require_active, with_base. unmonad.
  cbn. change (unreleased _) with (unreleased (base l)). rewrite Hact. cbn.
  fold offered. rewrite bool_decide_true by done. cbn.
  fold m action. rewrite Hnone.
  case_decide as Hp.
  - rewrite (bool_decide_false (is_Some _)) by (rewrite Hp; by intros []). done.
  - rewrite (bool_decide_true (is_Some _)) by by apply not_eq_None_Some. done.
Qed.

(** ** Divergence *)

Section divergence.
Context (class : DivergenceClass) (committed_key : text).

Let candidate := Pack.digest_key (manifest_id offer).

Abbreviation steps := (quarantine_steps offered offer class committed_key gen att pin_id seq).

(** What the quarantine leaves behind. *)
Definition action_quarantined (l : ledger) : Prop :=
  is_Some (quarantines (trouble l) !! ("action-entry"%string, action)).
Definition not_servable (l : ledger) : Prop :=
  exists row, serving (results l) !! action = Some row /\ disposition row = disposition_for class.
Definition candidate_pinned (l : ledger) : Prop :=
  exists p note, pins (base l) !! pin_id = Some (p, note)
    /\ root_key p = candidate /\ released p = false /\ expires_at_seq p = None
    /\ Store.class p = DIVERGENCE_EVIDENCE_PIN_CLASS.
Definition candidate_edge (part : TypedDigest) (l : ledger) : Prop :=
  edge (base l) candidate (Pack.digest_key part).
Definition incident_opened (l : ledger) : Prop :=
  incidents (trouble l) !! (action, seq)
  = Some (incident_row offer class committed_key gen att pin_id).
Definition publications_are (p : gmap text PublishedRow) (l : ledger) : Prop :=
  publications (results l) = p.

Lemma steps_keep (F : ledger -> Prop) :
  keeps F (add_quarantine ActionEntry action (divergence_quarantine_reason class)) ->
  keeps F (set_serving_disposition_key action (disposition_for class)) ->
  (forall part, keeps F (with_base (add_object_edge (manifest_id offer) part "divergence-candidate"))) ->
  (forall ev why, keeps F (with_base (create_pin pin_id (manifest_id offer) "coordinator"
     DIVERGENCE_EVIDENCE_PIN_CLASS None ev true why))) ->
  keeps F (append_evidence (action_key m) candidate (evidence_id offer) gen att) ->
  keeps F (record_divergence_incident offered action seq
             (incident_row offer class committed_key gen att pin_id)) ->
  Forall (keeps F) steps.
Proof.
  intros. unfold quarantine_steps. repeat apply Forall_app_2; repeat constructor; try done.
  by apply Forall_fmap, Forall_true.
Qed.

Ltac frame :=
  intros [? [] [] []];
  unfold publications_are, action_quarantined, not_servable, candidate_pinned, candidate_edge,
    edge, incident_opened, add_quarantine, set_serving_disposition_key, with_base, add_object_edge,
    create_pin, append_evidence, record_divergence_incident, in_txn, Store.in_txn, intern,
    require_active, to_i64, put_quarantine, put_disposition, put_evidence;
  unmonad; cbn; intros; try done; repeat (case_match; simplify_eq/=; try done).

Lemma keep_publications p : Forall (keeps (publications_are p)) steps.
Proof. apply steps_keep; intros; frame. Qed.

(** The tables of publication, apart from the serving state; evidence may be added. *)
Definition results_are (r : result_tables) (l : ledger) : Prop :=
  publications (results l) = publications r /\ ancestry (results l) = ancestry r
  /\ adoptions (results l) = adoptions r
  /\ evidence_index r ⊆ evidence_index (results l).

Lemma keep_results r : Forall (keeps (results_are r)) steps.
Proof.
  apply steps_keep; intros; unfold results_are; frame.
  all: destruct_and?; split_and!; try done. etrans; [done|apply or_ignore_subseteq].
Qed.

Lemma keep_quarantined : Forall (keeps action_quarantined) steps.
Proof. apply steps_keep; intros; frame. all: rewrite lookup_insert; case_decide; eauto. Qed.

Lemma keep_not_servable : Forall (keeps not_servable) steps.
Proof. apply steps_keep; intros; frame. all: eexists; by rewrite lookup_insert_eq. Qed.

Lemma keep_pinned : Forall (keeps candidate_pinned) steps.
Proof. apply steps_keep; intros; frame. all: destruct_and?; naive_solver. Qed.

Lemma keep_edge part : Forall (keeps (candidate_edge part)) steps.
Proof. apply steps_keep; intros; frame. all: set_solver. Qed.

Lemma keep_incident : Forall (keeps incident_opened) steps.
Proof. apply steps_keep; intros; frame. all: set_solver. Qed.

(** ** After the steps, whole or cut short *)

Record quarantine_written (l : ledger) : Prop := {
  q_action : action_quarantined l;
  q_disposition : not_servable l;
  q_pin : candidate_pinned l;
  q_edges : forall part, part ∈ candidate_parts offer -> candidate_edge part l;
  q_incident : incident_opened l }.

Lemma steps_written l l' : run_steps steps l = (Ok tt, l') -> quarantine_written l'.
Proof.
  intros Hrun. split.
  - eapply (run_establishes _ _ _ _ _ Hrun ltac:(left) keep_quarantined).
    frame. rewrite lookup_insert_eq. eauto.
  - eapply (run_establishes _ _ _ _ _ Hrun ltac:(right; left) keep_not_servable). 
    frame. all: eexists; by rewrite lookup_insert_eq.
  - eapply (run_establishes _ _ (with_base (create_pin _ _ _ _ _ _ _ _)) _ _ Hrun);
      [|apply keep_pinned|].
    + unfold quarantine_steps. rewrite !elem_of_app. right. right. left.
    + frame. eexists _, _. rewrite lookup_insert_eq. by split_and!.
  - intros part Hpart.
    eapply (run_establishes _ _ (with_base (add_object_edge (manifest_id offer) part _)) _ _ Hrun);
      [|apply keep_edge|].
    + unfold quarantine_steps. rewrite !elem_of_app. right. left.
      apply list_elem_of_fmap. eauto.
    + frame. set_solver.
  - eapply (run_establishes _ _ (record_divergence_incident _ _ _ _) _ _ Hrun); [|apply keep_incident|].
    + unfold quarantine_steps. rewrite !elem_of_app. right. right. right. right. left.
    + frame; [|apply lookup_insert_eq]. repeat case_bool_decide; by simplify_eq.
Qed.

(** A run cut short after at least one step leaves the action quarantined, and no run
    touches the publications. *)
Lemma steps_cut n l :
  publications (results (snd (run_steps (take n steps) l))) = publications (results l)
  /\ ((0 < n)%nat -> action_quarantined (snd (run_steps (take n steps) l))).
Proof.
  split.
  - apply (keeps_run (publications_are (publications (results l)))); [|done].
    apply Forall_take, keep_publications.
  - intros Hn. destruct n as [|n]; [lia|].
    pose proof keep_quarantined as Hk. revert Hk. unfold quarantine_steps. cbn [app take].
    intros [_ Hk]%Forall_cons. cbn [run_steps].
    assert (exists l1, add_quarantine ActionEntry action (divergence_quarantine_reason class) l
                       = (Ok tt, l1) /\ action_quarantined l1) as (l1 & Hadd & Hq).
    { eexists. split; [done|]. clear. revert l. frame. rewrite lookup_insert_eq. eauto. }
    unmonad. fold m action. rewrite Hadd. apply keeps_run; [|done]. by apply Forall_take.
Qed.

(** ** The escalations *)

Lemma keep_escalate F trust consumers :
  (forall k c n d why, keeps F (record_decision_receipt k c n d why)) ->
  keeps F (escalate offer seq trust consumers).
Proof.
  intros HF. induction consumers as [|c cs IH]; cbn [escalate]; [by intros l|].
  apply keeps_bind; [done|intros _]. apply keeps_bind; [done|]. by intros es l.
Qed.

Lemma keep_receipt F k c n d why :
  (forall b e r t r', F (Build b e r t) ->
     F (Build b e r (Incidents (quarantines t) (incidents t) (evaluations t) (samples t) (served t)
                          r' (evictions t)))) ->
  keeps F (record_decision_receipt k c n d why).
Proof.
  intros HF [b e r t] Hl. unfold record_decision_receipt, in_txn, to_i64. unmonad.
  repeat (case_match; simplify_eq/=; try done). specialize (HF b e r t). destruct t. by apply HF.
Qed.

Lemma escalate_all trust consumers l es l' :
  escalate offer seq trust consumers l = (Ok es, l') ->
  es = (fun c => {| consumer := c; trust_state := trust; escalation := escalation_decision trust |})
         <$> consumers.
Proof.
  revert l es l'. induction consumers as [|c cs IH]; intros l es l'; cbn [escalate].
  { by intros [= <- _]. }
  unmonad. destruct (record_decision_receipt _ _ _ _ _ l) as [[[]|] l1]; [|done].
  destruct (escalate offer seq trust cs l1) as [[es'|] l2] eqn:He; [|done].
  intros [= <- <-]. cbn. by rewrite (IH _ _ _ He).
Qed.

Lemma keep_served x : Forall (keeps (fun l => served (trouble l) = x)) steps.
Proof. apply steps_keep; intros; frame. Qed.

Lemma written_receipt : forall k c n d why, keeps quarantine_written (record_decision_receipt k c n d why).
Proof. intros. apply keep_receipt. intros b e r [] r' [? ? ? ? ?]. by split. Qed.

(** A quarantine that returned wrote everything, and reports the consumers it told. *)
Lemma quarantine_spec l q l' :
  quarantine_divergence offered offer class committed_key gen att pin_id seq l = (Ok q, l') ->
  quarantine_written l' /\ publications (results l') = publications (results l)
  /\ dq_class q = class /\ incident_seq q = seq /\ candidate_pin_id q = pin_id
  /\ consumer <$> escalations q
     = (if decide (class = SemanticDivergence) then served_consumers l action else []).
Proof.
  unfold quarantine_divergence. unmonad. fold m action.
  destruct (run_steps steps l) as [[[]|] l1] eqn:Hrun; [|done].
  pose proof (steps_written _ _ Hrun) as Hw.
  assert (publications (results l1) = publications (results l)) as Hpub.
  { pose proof (keeps_run _ _ (keep_publications (publications (results l))) l eq_refl) as Hp.
    by rewrite Hrun in Hp. }
  assert (served_consumers l1 action = served_consumers l action) as Hs.
  { pose proof (keeps_run _ _ (keep_served (served (trouble l))) l eq_refl) as Hp.
    rewrite Hrun in Hp. cbn in Hp. unfold served_consumers. by rewrite Hp. }
  case_decide as Hc; [|intros [= <- <-]; by split_and!].
  set (trust := default _ _).
  destruct (escalate offer seq trust (served_consumers l1 action) l1) as [[es|] l2] eqn:He; [|done].
  intros [= <- <-]. split_and!; try done.
  - pose proof (keep_escalate _ trust (served_consumers l1 action) written_receipt l1 Hw) as Hk.
    by rewrite He in Hk.
  - rewrite <- Hpub. pose proof (keep_escalate (publications_are (publications (results l1))) trust
      (served_consumers l1 action)) as Hk. specialize (Hk ltac:(intros; by apply keep_receipt) l1 eq_refl).
    by rewrite He in Hk.
  - cbn. rewrite (escalate_all _ _ _ _ _ He), <- list_fmap_compose, Hs. apply list_fmap_id.
Qed.

(** The candidate and all its parts are held by its pin. *)
Lemma written_preserved l part :
  quarantine_written l -> part = manifest_id offer \/ part ∈ candidate_parts offer ->
  preserved (base l) (Pack.digest_key part).
Proof.
  intros [_ _ (p & note & Hp & Hroot & Hrel & _) Hedges _] Hpart.
  exists pin_id, p, note. split; [done|]. split; [done|]. rewrite Hroot.
  destruct Hpart as [->|Hpart]; [done|]. by apply rtc_once, Hedges.
Qed.

End divergence.
(** ** What the pipeline leaves behind *)

Lemma commit_cases rows l :
  publications (results l) !! action = None ->
  (commit offer pin_id seq rows l
   = (Ok (PublicationCommitted receipt), write_publication (publication_row offer pin_id rows) (interned l)))
  \/ exists e, commit offer pin_id seq rows l = (Err (StoreRefused e), interned l).
Proof.
  intros Hnone.
  unfold commit, commit_publication, store_call, intern, in_txn, require_active, with_base. unmonad.
  cbn. change (unreleased _) with (unreleased (base l)).
  destruct (unreleased (base l)) as [|[k v] [|]]; [right; by eauto| |right; by eauto].
  case_bool_decide; [|right; by eauto]. cbn. fold m action. rewrite Hnone.
  case_bool_decide; cbn; [right; by eauto|]. by left.
Qed.

Lemma same_key_quarantines key l e l' :
  same_key resolver offer pin_id seq key l = (Err e, l') ->
  key <> Pack.digest_key (manifest_id offer)
  /\ (l' = l \/ action_quarantined l' /\ publications (results l') = publications (results l)).
Proof.
  unfold same_key. case_bool_decide as Hk.
  { by unfold append_evidence, store_call, in_txn, intern; unmonad. }
  unmonad. unfold ok_or. destruct (resolver key) as [man|]; tidy; [|intros [= _ <-]; by auto].
  fold m gen att offered. set (class := divergence_class offer man).
  unfold store_call, quarantine_divergence. unmonad. fold m action gen att offered.
  pose proof (steps_cut class key (length (quarantine_steps offered offer class key gen att pin_id seq)) l)
    as [Hpub Hq].
  rewrite take_ge in Hpub, Hq by done. specialize (Hq ltac:(cbn; lia)).
  destruct (run_steps _ l) as [[[]|e1] l1]; cbn in Hpub, Hq |- *; [|intros; simplify_eq; by auto].
  case_decide; [|done].
  set (trust := default _ _).
  pose proof (keep_escalate (fun l2 => action_quarantined l2
    /\ publications_are (publications (results l)) l2) trust (served_consumers l1 action)) as Hk2.
  specialize (Hk2 ltac:(intros; apply keep_receipt; by intros ? ? ? [] ?) l1 (conj Hq Hpub)).
  destruct (escalate offer seq trust (served_consumers l1 action) l1) as [[es|] l2]; [done|].
  intros; simplify_eq. by auto.
Qed.

Abbreviation offered_to := (process_offer resolver offer expected_descriptor pin_id seq durability).

Lemma same_key_not_committed key l rec l' :
  same_key resolver offer pin_id seq key l <> (Ok (PublicationCommitted rec), l').
Proof.
  unfold same_key. case_bool_decide.
  - by unfold append_evidence, store_call, in_txn, intern; unmonad.
  - unmonad. unfold ok_or. destruct (resolver key); tidy; [|done].
    by destruct (store_call _ l) as [[]?].
Qed.

Lemma same_key_results key l :
  results_are (results l) (snd (same_key resolver offer pin_id seq key l)).
Proof.
  unfold same_key. case_bool_decide.
  { unfold append_evidence, store_call, in_txn, intern, put_evidence, results_are; unmonad. cbn.
    destruct (results l). cbn. split_and!; try done. apply or_ignore_subseteq. }
  unmonad. unfold ok_or. destruct (resolver key) as [man|]; tidy; [|done].
  fold m gen att offered. set (class := divergence_class offer man).
  assert (keeps (results_are (results l))
            (quarantine_divergence offered offer class key gen att pin_id seq)) as Hk.
  { apply keeps_bind; [apply keeps_run, keep_results|intros _].
    apply keeps_bind; [|by intros es l1]. case_decide; [|by intros l1].
    apply keeps_bind; [by intros l1|intros l1]. apply keep_escalate.
    intros. by apply keep_receipt. }
  specialize (Hk l ltac:(done)). unfold store_call. by destruct (quarantine_divergence _ _ _ _ _ _ _ _ l) as [[]?].
Qed.

(** C3: a result is committed exactly when every fence holds (the active authority, a live
    generation, attempt and lease), the manifest is for the action at its epochs with its
    own root and digests, all its objects are stored and its ancestors check, the key has
    no result yet and the pin is new; the ledger then differs by exactly the rows of one
    publication. *)
Theorem offer_committed_iff l rec l' :
  authorities_keyed l ->
  offered_to l = (Ok (PublicationCommitted rec), l')
  <-> exists rows, admissible l rows
      /\ publications (results l) !! action = None /\ pins (base l) !! pin_id = None
      /\ rec = receipt
      /\ l' = write_publication (publication_row offer pin_id rows) (interned l).
Proof.
  intros Hkeyed. rewrite process_offer_split. split.
  - destruct (fst (checks l)) as [rows|] eqn:Hchk; [|done]. apply checks_spec in Hchk.
    destruct (publications _ !! _) eqn:Hp; [by intros ?%same_key_not_committed|].
    rewrite (commit_spec rows l Hkeyed (a_fenced _ _ Hchk) Hp). case_decide; [|done].
    intros [= <- <-]. by exists rows.
  - intros (rows & Hadm & Hp & Hpin & -> & ->).
    rewrite (proj2 (checks_spec l rows) Hadm), Hp.
    rewrite (commit_spec rows l Hkeyed (a_fenced _ _ Hadm) Hp). by rewrite decide_True.
Qed.

(** C18: a refused offer leaves every table as it was, with one exception: a candidate that
    differs from the committed result may be refused halfway through its quarantine, and
    then the action is quarantined and the committed results are untouched. *)
Theorem refusal_effect l e l' :
  offered_to l = (Err e, l') ->
  same_tables l l'
  \/ (exists p, publications (results l) !! action = Some p
        /\ Pack.digest_key (pub_manifest p) <> Pack.digest_key (manifest_id offer))
     /\ action_quarantined l' /\ publications (results l') = publications (results l).
Proof.
  rewrite process_offer_split. destruct (fst (checks l)) as [rows|].
  2: { intros [= _ <-]. left. apply same_tables_refl. }
  destruct (publications _ !! _) as [p|] eqn:Hp.
  - intros [Hk [->|[]]]%same_key_quarantines; [left; apply same_tables_refl|]. by eauto 10.
  - destruct (commit_cases rows l Hp) as [->|[e' ->]]; [done|].
    intros [= _ <-]. left. apply interned_same.
Qed.

(** C7: a candidate that differs from the committed result quarantines the action: its class
    says which digest differs, the committed row is untouched, the action may no longer be
    served, the incident is on record, the candidate with all its parts is held by a pin that
    does not expire (so no collection reclaims it), and a semantic divergence reports every
    consumer the result was served to. *)
Theorem divergence_outcome l q l' :
  offered_to l = (Ok (Quarantined q), l') ->
  exists p man,
    publications (results l) !! action = Some p
    /\ Pack.digest_key (pub_manifest p) <> Pack.digest_key (manifest_id offer)
    /\ resolver (Pack.digest_key (pub_manifest p)) = Some man
    /\ dq_class q = classify_same_key_candidate man (pub_manifest p) m (manifest_id offer)
    /\ publications (results l') = publications (results l)
    /\ quarantine_written (dq_class q) (Pack.digest_key (pub_manifest p)) l'
    /\ (forall part, part = manifest_id offer \/ part ∈ candidate_parts offer ->
          preserved (base l') (Pack.digest_key part))
    /\ consumer <$> escalations q
       = (if decide (dq_class q = SemanticDivergence) then served_consumers l action else []).
Proof.
  rewrite process_offer_split. destruct (fst (checks l)) as [rows|]; [|done].
  destruct (publications _ !! _) as [p|] eqn:Hp.
  2: by destruct (commit_cases rows l Hp) as [->|[e' ->]].
  unfold same_key. case_bool_decide as Hk.
  { by unfold append_evidence, store_call, in_txn, intern; unmonad. }
  unmonad. unfold ok_or. destruct (resolver _) as [man|] eqn:Hman; tidy; [|done].
  unfold store_call. fold m gen att offered.
  destruct (quarantine_divergence _ _ _ _ _ _ _ _ l) as [[q'|] l1] eqn:Hq; [|done].
  intros [= <- <-]. apply quarantine_spec in Hq as (Hw & Hpub & -> & _ & _ & Hes).
  exists p, man. split_and!; try done.
  - unfold classify_same_key_candidate. rewrite decide_False; [done|]. intros Heq.
    by rewrite Heq in Hk.
  - intros part. by apply (written_preserved _ _ _ _ Hw).
Qed.

(** A crash between the writes of a quarantine never leaves a record of the incident
    without the quarantine: after any number of its steps, at least one, the action is
    quarantined, and no step touches a committed result. *)
Theorem quarantine_first class key n l :
  let l' := snd (run_steps (take n (quarantine_steps offered offer class key gen att pin_id seq)) l) in
  publications (results l') = publications (results l) /\ ((0 < n)%nat -> action_quarantined l').
Proof. apply steps_cut. Qed.

(** C8: publication closes over the ancestry: when a result is committed, every producer its
    references lead to, at any depth of the recorded lineage, is committed with its manifest
    at hand; each direct reference was resolved to the object consumed or one it was adopted
    into, and is recorded. *)
Theorem committed_ancestry l rec l' :
  offered_to l = (Ok (PublicationCommitted rec), l') ->
  (forall ref q, ref ∈ provisional_ancestors offer ->
     rtc (lineage l) (Pack.digest_key (ref_producer ref)) q -> committed resolver l q)
  /\ exists rows, check_all resolver l (pending_of_ref <$> provisional_ancestors offer) = Ok rows
     /\ forall row, row ∈ rows -> is_Some (ancestry (results l')
          !! (action, producer_action_key row, anc_role row, anc_path row)).
Proof.
  rewrite process_offer_split. destruct (fst (checks l)) as [rows|] eqn:Hchk; [|done].
  apply checks_spec, a_ancestry in Hchk. unfold verify_provisional_ancestry in Hchk.
  destruct (walk_ancestry _ _ _ _ _ _) as [r|] eqn:Hwalk; [|done]. cbn in Hchk. subst r.
  destruct (publications _ !! _) eqn:Hp; [by intros ?%same_key_not_committed|].
  destruct (commit_cases rows l Hp) as [->|[e' ->]]; [|done]. intros [= <- <-]. split.
  - intros ref q Href Hr. eapply (walk_closed _ _ _ _ _ _ _ Hwalk); [set_solver|set_solver| |done].
    right. rewrite <- list_fmap_compose, list_elem_of_fmap. by exists ref.
  - apply walk_direct in Hwalk as (found & Hfound & ->). exists found. split.
    + rewrite <- Hfound. f_equal. symmetry. clear. induction (provisional_ancestors offer); [done|].
      cbn [fmap list_fmap]. rewrite filter_cons_True by done. by f_equal.
    + intros row Hrow. by apply (write_publication_recorded (publication_row offer pin_id found)).
Qed.

End admission.
(** ** What a worker builds *)

Section building.
Context {SHA : Type} `{Hasher SHA}.

Lemma semantic_ignores_digests sem obs man :
  semantic_result_digest_v1 (set_digests sem obs man) = semantic_result_digest_v1 man.
Proof. done. Qed.

(** The worker and the coordinator compute the same: of the checks of an offer's identity,
    those that recompute its bundle root and its digests always pass on an offer [build] made,
    and what is left is the coordinator's own knowledge, the descriptor and the epochs of the
    action.  Nothing undeclared and no reference to the action itself is ever offered. *)
Theorem build_identified auth man m_id ev ev_id obs decl anc offer expected l :
  build auth man m_id ev ev_id obs decl anc = Ok offer ->
  (identified offer expected l
   <-> canonical_descriptor_digest man = expected
       /\ exists e, fst (lookup_action (action_key man) l) = Ok (Some e)
            /\ entry_key_epoch e = key_epoch man /\ entry_projection_epoch e = projection_epoch man)
  /\ (forall o, o ∈ logical_outputs (manifest offer) -> (role o, virtual_path o) ∈ decl)
  /\ (forall ref, ref ∈ provisional_ancestors offer -> ref_producer ref <> action_key (manifest offer))
  /\ provisional_ancestors offer ≡ₚ anc.
Proof.
  unfold build. destruct (validate man) as [[]|]; [|done].
  destruct (duplicate_ref _); [done|]. destruct (existsb _ _) eqn:Hself; [done|].
  destruct (negb _); [done|]. destruct (_ || _) eqn:Hkey; [done|].
  destruct (List.find _ _) eqn:Hfind; [done|].
  set (man1 := set_root _ man). destruct (verify_manifest_bundle_root man1) as [[]|] eqn:Hv; [|done].
  intros [= <-]. apply verify_root_spec in Hv as [Hval Hroot].
  apply orb_false_iff in Hkey as [_ Hkey%negb_false_iff%bool_decide_eq_true]. split_and!.
  - split.
    + intros [Hd _ He _ _ _ _]. done.
    + intros [Hd He]. by split.
  - intros o Ho. pose proof (List.find_none _ _ Hfind o (proj1 (list_elem_of_In _ _) Ho)) as Hdecl.
    apply negb_false_iff, existsb_exists in Hdecl as ([r p] & Hin & Heq).
    apply andb_prop in Heq as [Hr%bool_decide_eq_true Hp%bool_decide_eq_true].
    cbn in Hr, Hp. subst. by apply list_elem_of_In.
  - intros ref Href Heq. apply not_true_iff_false in Hself. apply Hself, existsb_exists.
    exists ref. split; [by apply list_elem_of_In|]. by apply bool_decide_eq_true.
  - apply sort_by_perm.
Qed.

End building.
End Admission.
