(* ===== verification/Lineage.v ===== *)
(** * Lineage: publication over whole histories of the ledger
    (rabs-cas/src/publication.rs, rabs-cas/src/metadata_store.rs)

    The coordinator's operations as a step relation: what a publication and its lineage
    keep over any history, and that the walk over the ancestors ends. *)

From stdpp Require Import base gmap list strings sorting relations pretty.
From Stdlib Require Import ZArith Lia.
From S2P Require Import Prelude Bytes Manifest Digest Pack Store Gc Ledger Publication Serving.
From S2P Require Import Admission.
Import ResultIdentity ManifestCodec Store Ledger Publication Admission.

Module Lineage.

Section histories.
Context {SHA : Type} `{Hasher SHA}.

(** The manifests, by their content; a coordinator may hold only some of them. *)
Context (truth : text -> option CanonicalActionResultManifest).

Definition agrees (r : text -> option CanonicalActionResultManifest) : Prop :=
  forall k man, r k = Some man -> truth k = Some man.

(** One operation of the coordinator: an offer is processed, a method of the store is
    called. *)
Inductive step : relation ledger :=
  | step_offer r offer expected pin_id seq durability l :
      agrees r -> step l (snd (process_offer r offer expected pin_id seq durability l))
  | step_entry key e p l : step l (snd (upsert_action_entry key e p l))
  | step_generation auth id key l : step l (snd (create_generation auth id key l))
  | step_tombstone id l : step l (snd (tombstone_generation id l))
  | step_attempt id g w n l : step l (snd (record_attempt id g w n l))
  | step_acquire id a n e l : step l (snd (acquire_lease id a n e l))
  | step_renew id n e l : step l (snd (renew_lease id n e l))
  | step_release id l : step l (snd (release_lease id l))
  | step_adopt auth p role path from to l :
      step l (snd (record_adoption_edge auth p role path from to l))
  | step_served key c l : step l (snd (record_served_consumer key c l))
  | step_quarantine scope key why l : step l (snd (add_quarantine scope key why l))
  | step_disposition key d l : step l (snd (set_serving_disposition_key key d l))
  | step_retain man n l : step l (snd (retain_eviction_tombstone man n l))
  | step_record auth key d n v refs l :
      step l (snd (Serving.put_serving_record auth key d n v refs l))
  | step_sample key a ok n l : step l (snd (Serving.record_verification_sample key a ok n l))
  | step_evaluation auth key row l :
      step l (snd (Serving.append_trust_evaluation auth key row l))
  | step_reevaluate auth key policies n l :
      step l (snd (Serving.reevaluate_action auth key policies n l))
  | step_compromise auth key report g a policies n l :
      step l (snd (Serving.report_compromise auth key report g a policies n l))
  | step_recompute key s o l : step l (snd (check_recomputation_against_tombstone key s o l))
  | step_base {A} (m : method store StoreError A) l : step l (snd (with_base m l)).

(** Effect of a step on the tables of publication. *)
Inductive effect (l l' : ledger) : Prop :=
  | keeps_results :
      publications (results l') = publications (results l) ->
      ancestry (results l') = ancestry (results l) ->
      adoptions (results l) ⊆ adoptions (results l') ->
      evidence_index (results l) ⊆ evidence_index (results l') -> effect l l'
  | commits r offer pin_id rows l1 :
      agrees r ->
      results l1 = results l ->
      check_all r l (pending_of_ref <$> provisional_ancestors offer) = Ok rows ->
      publications (results l) !! Pack.digest_key (action_key (manifest offer)) = None ->
      l' = write_publication (publication_row offer pin_id rows) l1 -> effect l l'.

Lemma direct_refs (refs : list ProvisionalAncestorRef) :
  filter (fun c => direct c = true) (pending_of_ref <$> refs) = pending_of_ref <$> refs.
Proof. induction refs; [done|]. cbn [fmap list_fmap]. rewrite filter_cons_True by done. by f_equal. Qed.

Lemma offer_effect r offer expected pin_id seq durability l :
  agrees r -> effect l (snd (process_offer r offer expected pin_id seq durability l)).
Proof.
  intros Hr. rewrite process_offer_split.
  destruct (fst (checks _ _ _ _ l)) as [rows|] eqn:Hchk; [|by apply keeps_results].
  destruct (publications _ !! _) as [p|] eqn:Hp.
  { destruct (same_key_results r offer pin_id seq (Pack.digest_key (pub_manifest p)) l) as (? & ? & Ha & He).
    apply keeps_results; [done|done| |done]. by rewrite Ha. }
  destruct (commit_cases offer pin_id seq rows l Hp) as [->|[e ->]]; [|by apply keeps_results].
  apply checks_spec, a_ancestry in Hchk. unfold verify_provisional_ancestry in Hchk.
  destruct (walk_ancestry _ _ _ _ _ _) as [res|] eqn:Hwalk; [|done]. cbn in Hchk. subst res.
  apply walk_direct in Hwalk as (found & Hfound & ->). rewrite direct_refs in Hfound.
  by apply (commits _ _ r offer pin_id found (interned offer l)).
Qed.

(** A method that leaves the result tables alone. *)
Ltac elsewhere :=
  intros [? [] [] []]; intros;
  unfold upsert_action_entry, create_generation, tombstone_generation, record_attempt,
    acquire_lease, renew_lease, release_lease, record_served_consumer, add_quarantine,
    retain_eviction_tombstone, record_eviction_tombstone,
    check_recomputation_against_tombstone, eviction_tombstone, consume_eviction_tombstone,
    in_txn, intern, require_active, with_base, to_i64, put_quarantine;
  apply keeps_results; unmonad; cbn; try done;
  repeat match goal with
  | |- context [match ?x with _ => _ end] =>
      lazymatch x with context [match _ with _ => _ end] => fail | _ => destruct x end;
      cbn; try done
  end.

Lemma entry_effect key e p : forall l, effect l (snd (upsert_action_entry key e p l)).
Proof. elsewhere. Qed.
Lemma generation_effect auth id key : forall l, effect l (snd (create_generation auth id key l)).
Proof. elsewhere. Qed.
Lemma attempt_effect id g w n : forall l, effect l (snd (record_attempt id g w n l)).
Proof. elsewhere. Qed.
Lemma recompute_effect key s o :
  forall l, effect l (snd (check_recomputation_against_tombstone key s o l)).
Proof. elsewhere. Qed.

Lemma adopt_effect auth p role path from to l :
  effect l (snd (record_adoption_edge auth p role path from to l)).
Proof.
  unfold record_adoption_edge, in_txn, require_active, with_base. unmonad.
  destruct l as [b e [pubs srv blk evs anc ads] t]. cbn.
  destruct (unreleased b) as [|[k v] [|]]; cbn; [by apply keeps_results| |by apply keeps_results].
  case_bool_decide; cbn; [|by apply keeps_results].
  destruct (ads !! _) as [to'|] eqn:Ha; cbn; [case_bool_decide; by apply keeps_results|].
  apply keeps_results; [done|done| |done]. cbn. by apply insert_subseteq.
Qed.

(** The same for methods made of others. *)
Lemma keeps_trust {A} (F : ledger -> Prop) (m : ldb A) : keeps F m -> keeps F (Serving.trust_call m).
Proof. intros Hm l Hl. unfold Serving.trust_call. specialize (Hm l Hl). by destruct (m l) as [[]?]. Qed.

Lemma refs_read refs : reads (Serving.references_exist refs).
Proof.
  induction refs as [|[scope subject] refs IH]; cbn [Serving.references_exist]; [by intros ?|].
  apply reads_bind; [by intros ?|intros l0]. apply reads_bind; [apply reads_refuse|done].
Qed.

(** A method that leaves the tables of publication as they are. *)
Lemma effect_kept {A E} (m : method ledger E A) l :
  keeps (results_are (results l)) m -> effect l (snd (m l)).
Proof.
  intros Hk. destruct (Hk l ltac:(done)) as (? & ? & Ha & He).
  apply keeps_results; [done|done|by rewrite Ha|done].
Qed.

Ltac reading := apply reads_keeps; auto using reads_lift, reads_refuse, require_active_reads, refs_read.

Lemma record_kept r auth key d n v refs : keeps (results_are r) (Serving.put_serving_record auth key d n v refs).
Proof.
  do 4 (apply keeps_bind; [reading|intros ?]).
  apply keeps_txn. apply keeps_bind; [reading|intros _].
  apply keeps_bind; [by apply reads_keeps|intros l0]. do 2 (apply keeps_bind; [reading|intros _]).
  intros [b e [] t] Hl. exact Hl.
Qed.

Lemma sample_kept r key a ok n : keeps (results_are r) (Serving.record_verification_sample key a ok n).
Proof. apply keeps_bind; [reading|intros ?]. apply keeps_txn. by intros [b e [] t] Hl. Qed.

Lemma evaluation_kept r auth key row : keeps (results_are r) (Serving.append_trust_evaluation auth key row).
Proof.
  apply keeps_bind; [reading|intros ?]. apply keeps_txn. apply keeps_bind; [reading|intros _].
  apply keeps_bind; [by apply reads_keeps|intros l0]. apply keeps_bind; [reading|intros _].
  by intros [b e [] t] Hl.
Qed.

Lemma disposition_kept r key d : keeps (results_are r) (set_serving_disposition_key key d).
Proof. apply keeps_txn. by intros [b e [] t] Hl. Qed.

Lemma evidence_kept r key mk ev g a : keeps (results_are r) (append_evidence key mk ev g a).
Proof.
  apply keeps_bind; [by intros [b e [] t] Hl|intros _]. apply keeps_txn.
  intros [b e [] t] (? & ? & ? & ?). split_and!; try done. cbn.
  etrans; [done|apply or_ignore_subseteq].
Qed.

Lemma quarantine_kept r scope key why : keeps (results_are r) (add_quarantine scope key why).
Proof. apply keeps_txn. by intros [b e [] []] Hl. Qed.

Lemma reevaluate_kept r auth key policies n :
  keeps (results_are r) (Serving.reevaluate_action auth key policies n).
Proof.
  apply keeps_bind; [by apply reads_keeps|intros l0]. apply keeps_bind; [reading|intros _].
  apply keeps_bind; [reading|intros policy]. apply keeps_bind; [by apply keeps_trust, reads_keeps|intros keys].
  apply keeps_bind; [by apply keeps_trust, reads_keeps|intros [tier adverse]].
  destruct (Serving.verdict _ _ _ _) as [d state].
  apply keeps_bind; [case_bool_decide; [apply keeps_trust, quarantine_kept|by apply reads_keeps]|intros _].
  apply keeps_bind; [by apply reads_keeps|intros l1].
  apply keeps_bind; [apply keeps_trust, evaluation_kept|intros _].
  apply keeps_bind; [apply keeps_trust, disposition_kept|intros _]. by apply reads_keeps.
Qed.

Lemma compromise_kept r auth key report g a policies n :
  keeps (results_are r) (Serving.report_compromise auth key report g a policies n).
Proof.
  apply keeps_bind; [reading|intros _]. apply keeps_bind; [by apply keeps_trust, reads_keeps|intros ?].
  apply keeps_bind; [reading|intros mk]. apply keeps_bind; [apply keeps_trust, evidence_kept|intros _].
  apply reevaluate_kept.
Qed.

Lemma step_effect l l' : step l l' -> effect l l'.
Proof.
  intros [r offer expected pin_id seq durability l0 Hr|key e p l0|auth id key l0|id l0|id g w n l0
    |id a n e l0|id n e l0|id l0|auth p role path from to l0|key c l0|scope key why l0|key d l0
    |man n l0|auth key d n v refs l0|key a ok n l0|auth key row l0|auth key policies n l0
    |auth key report g a policies n l0|key s o l0|A m l0].
  - by apply offer_effect.
  - apply entry_effect.
  - apply generation_effect.
  - revert l0. elsewhere.
  - apply attempt_effect.
  - revert l0. elsewhere.
  - revert l0. elsewhere.
  - revert l0. elsewhere.
  - apply adopt_effect.
  - revert l0. elsewhere.
  - apply effect_kept, quarantine_kept.
  - apply effect_kept, disposition_kept.
  - revert l0. elsewhere.
  - apply effect_kept, record_kept.
  - apply effect_kept, sample_kept.
  - apply effect_kept, evaluation_kept.
  - apply effect_kept, reevaluate_kept.
  - apply effect_kept, compromise_kept.
  - apply recompute_effect.
  - unfold with_base. destruct (m (base l0)). by apply keeps_results.
Qed.

(** ** A publication and its lineage never change *)

Lemma effect_publications l l' : effect l l' -> publications (results l) ⊆ publications (results l').
Proof.
  intros [-> _ _ _|r offer pin_id rows l1 _ Hr _ Hnone ->]; [done|].
  destruct (write_publication_base (publication_row offer pin_id rows) l1) as (r1 & -> & _ & _ & _ & Hp).
  rewrite (proj1 (put_ancestors_keep _ _ _)), Hp, Hr. by apply insert_subseteq.
Qed.

Lemma effect_evidence l l' : effect l l' -> evidence_index (results l) ⊆ evidence_index (results l').
Proof.
  intros [_ _ _ Hev|r offer pin_id rows l1 _ Hr _ Hnone ->]; [done|].
  destruct (write_publication_base (publication_row offer pin_id rows) l1) as (r1 & -> & _ & _ & He & _).
  rewrite (proj2 (proj2 (put_ancestors_keep _ _ _))), <- Hr. done.
Qed.

Lemma effect_lineage l l' key v :
  effect l l' -> is_Some (publications (results l) !! key.1.1.1) ->
  ancestry (results l') !! key = Some v <-> ancestry (results l) !! key = Some v.
Proof.
  intros [_ -> _ _|r offer pin_id rows l1 _ Hr _ Hnone ->] Hpub; [done|].
  destruct (write_publication_base (publication_row offer pin_id rows) l1) as (r1 & -> & Ha & _ & _).
  rewrite <- Hr, <- Ha. split; [|apply put_ancestors_mono].
  intros [Hold|(_ & row & _ & -> & _)]%put_ancestors_lookup; [done|].
  cbn in Hpub. rewrite Hnone in Hpub. by destruct Hpub.
Qed.

(** C5: the first result committed for an action is final: no history of offers and store
    operations replaces or removes its row, or adds to, changes or drops its lineage. *)
Theorem publication_final l l' k p :
  rtc step l l' -> publications (results l) !! k = Some p ->
  publications (results l') !! k = Some p
  /\ forall producer role path,
       ancestry (results l') !! (k, producer, role, path) = ancestry (results l) !! (k, producer, role, path).
Proof.
  intros Hs. induction Hs as [l|l l1 l' Hstep _ IH]; intros Hp; [done|].
  apply step_effect in Hstep. pose proof (effect_publications _ _ Hstep) as Hsub.
  destruct (IH (lookup_weaken _ _ _ _ Hp Hsub)) as [Hp' Hl]. split; [done|].
  intros producer role path. rewrite Hl. apply option_eq. intros v.
  apply effect_lineage; [done|]. cbn. by rewrite Hp.
Qed.

(** ** The invariant of the lineage *)

Record lineage_inv (l : ledger) : Prop := {
  inv_holds : lineage_holds truth l;
  inv_published : forall k row, row ∈ ancestor_rows l k -> is_Some (publications (results l) !! k);
  inv_rank : exists rank : text -> nat, forall c p, lineage l c p -> (rank p < rank c)%nat }.

Lemma check_mono l l' c ad :
  publications (results l) ⊆ publications (results l') ->
  adoptions (results l) ⊆ adoptions (results l') ->
  check_ancestor truth l c = Ok ad -> check_ancestor truth l' c = Ok ad.
Proof.
  intros Hp Ha. unfold check_ancestor, has_adoption.
  destruct (publications (results l) !! _) as [p|] eqn:Hk; [|done].
  rewrite (lookup_weaken _ _ _ _ Hk Hp). destruct (truth _) as [man|]; [|done].
  destruct (List.find _ _) as [o|]; [|done]. case_bool_decide; [done|].
  case_bool_decide as Had; [|done]. intros [= <-].
  by rewrite bool_decide_true by (by eapply lookup_weaken).
Qed.

Lemma check_agrees r l c ad :
  agrees r -> check_ancestor r l c = Ok ad -> check_ancestor truth l c = Ok ad.
Proof.
  intros Hr. unfold check_ancestor. destruct (publications _ !! _) as [p|]; [|done].
  destruct (r _) as [man|] eqn:Hman; [|done]. by rewrite (Hr _ _ Hman).
Qed.

Lemma check_all_elem r l cs rows row :
  check_all r l cs = Ok rows -> row ∈ rows ->
  exists c ad, c ∈ cs /\ row = row_of c ad /\ check_ancestor r l c = Ok ad.
Proof.
  revert rows. induction cs as [|c cs IH]; intros rows.
  { intros [= <-] Hin. by apply not_elem_of_nil in Hin. }
  rewrite check_all_cons. destruct (check_ancestor r l c) as [ad|] eqn:Hc; [|done].
  unmonad. destruct (check_all r l cs) as [rows'|]; [|done].
  intros [= <-] [->|Hin]%elem_of_cons.
  - exists c, ad. set_solver.
  - destruct (IH rows' eq_refl Hin) as (c' & ad' & ? & ? & ?). exists c', ad'. set_solver.
Qed.

(** The rows after a commit: the old ones and the checked references. *)
Lemma commit_rows l r offer pin_id rows l1 k row :
  agrees r -> results l1 = results l ->
  check_all r l (pending_of_ref <$> provisional_ancestors offer) = Ok rows ->
  row ∈ ancestor_rows (write_publication (publication_row offer pin_id rows) l1) k ->
  row ∈ ancestor_rows l k
  \/ k = Pack.digest_key (action_key (manifest offer)) /\ row ∈ rows
     /\ check_ancestor truth l (pending_of_row row) = Ok (adopted row).
Proof.
  intros Hr Hres Hall Hin. apply elem_of_ancestor_rows in Hin.
  destruct (write_publication_base (publication_row offer pin_id rows) l1) as (r1 & Heq & Ha & _).
  rewrite Heq in Hin. apply put_ancestors_lookup in Hin as [Hin|(_ & row' & Hrow & Hkey & Hv)].
  - left. apply elem_of_ancestor_rows. by rewrite <- Hres, <- Ha.
  - right. assert (row = row') as -> by (destruct row, row'; cbn in *; by simplify_eq).
    simplify_eq. split; [done|]. split; [done|].
    destruct (check_all_elem _ _ _ _ _ Hall Hrow) as (c & ad & _ & -> & Hc).
    by apply (check_agrees r l c) in Hc.
Qed.

Lemma lineage_row l c p :
  lineage l c p <-> exists row, row ∈ ancestor_rows l c /\ producer_action_key row = p.
Proof.
  split.
  - intros (role & path & [o ad] & Hl).
    exists {| producer_action_key := p; anc_role := role; anc_path := path; object_key := o; adopted := ad |}.
    by rewrite elem_of_ancestor_rows.
  - intros (row & Hin & <-). apply elem_of_ancestor_rows in Hin. eexists _, _. eauto.
Qed.

(** The invariant follows from the rows: old ones stay, new ones belong to an action that
    had no result. *)
Lemma inv_extend l l' new (rows : list ProvisionalAncestorRow) :
  lineage_inv l ->
  publications (results l) ⊆ publications (results l') ->
  adoptions (results l) ⊆ adoptions (results l') ->
  publications (results l) !! new = None -> is_Some (publications (results l') !! new) ->
  (forall k row, row ∈ ancestor_rows l' k -> row ∈ ancestor_rows l k
     \/ k = new /\ row ∈ rows /\ check_ancestor truth l (pending_of_row row) = Ok (adopted row)) ->
  lineage_inv l'.
Proof.
  intros [Hold Hpub [rank Hrank]] Hp Ha Hnone Hnew Hrows.
  assert (forall row ad, check_ancestor truth l (pending_of_row row) = Ok ad ->
            producer_action_key row <> new) as Hfresh.
  { intros row ad (p & _ & Hpp & _)%check_ancestor_committed Heq.
    cbn in Hpp. congruence. }
  split.
  - intros k row [Hin|(_ & _ & Hc)]%Hrows; eapply check_mono; eauto.
  - intros k row [Hin|(-> & _ & _)]%Hrows; [|done].
    destruct (Hpub _ _ Hin) as [p Hpk]. exists p. by eapply lookup_weaken.
  - exists (fun k => if decide (k = new)
               then S (max_list (rank ∘ producer_action_key <$> rows)) else rank k).
    intros c p (row & [Hin|(-> & Hin & Hc)]%Hrows & <-)%lineage_row.
    + rewrite decide_False by (by eapply Hfresh, Hold).
      rewrite decide_False.
      2: { intros ->. destruct (Hpub _ _ Hin) as [? Hx]. by rewrite Hnone in Hx. }
      apply Hrank, lineage_row. eauto.
    + rewrite decide_False by (by eapply Hfresh). rewrite decide_True by done.
      apply Nat.lt_succ_r, max_list_elem_of_le, list_elem_of_fmap. by exists row.
Qed.

Lemma inv_step l l' : lineage_inv l -> step l l' -> lineage_inv l'.
Proof.
  intros Hinv Hs%step_effect. pose proof (effect_publications _ _ Hs) as Hsub.
  destruct Hs as [Hp Ha Had _|r offer pin_id rows l1 Hr Hres Hall Hnone ->].
  - destruct Hinv as [Hold Hpub [rank Hrank]].
    assert (forall k, ancestor_rows l' k = ancestor_rows l k) as Hrows
      by (intros; unfold ancestor_rows; by rewrite Ha).
    split.
    + intros k row. rewrite Hrows. intros Hin. eapply check_mono; eauto.
    + intros k row. rewrite Hrows, Hp. apply Hpub.
    + exists rank. intros c p. rewrite lineage_row, Hrows, <- lineage_row. apply Hrank.
  - destruct (write_publication_base (publication_row offer pin_id rows) l1)
      as (r1 & Heq & _ & Had & _ & Hpub).
    eapply (inv_extend l _ _ rows Hinv Hsub); [| exact Hnone| |].
    + rewrite Heq, (proj1 (proj2 (put_ancestors_keep _ _ _))), Had. by rewrite Hres.
    + rewrite Heq, (proj1 (put_ancestors_keep _ _ _)), Hpub. cbn. rewrite lookup_insert_eq. eauto.
    + intros k row. by eapply commit_rows.
Qed.

Lemma inv_empty : lineage_inv empty_ledger.
Proof.
  split.
  - intros k row Hin%elem_of_ancestor_rows. cbn in Hin. by rewrite lookup_empty in Hin.
  - intros k row Hin%elem_of_ancestor_rows. cbn in Hin. by rewrite lookup_empty in Hin.
  - exists (fun _ => 0%nat). intros c p (? & ? & ? & Hl). cbn in Hl. by rewrite lookup_empty in Hl.
Qed.

Lemma rank_tc l (rank : text -> nat) c p :
  (forall c p, lineage l c p -> (rank p < rank c)%nat) -> tc (lineage l) c p -> (rank p < rank c)%nat.
Proof. intros Hr Htc. induction Htc as [c p|c p q Hl _ IH]; [by auto|]. apply Hr in Hl. lia. Qed.

(** C6: over any history the lineage is sound: a recorded reference belongs to a committed
    consumer, names a committed producer, and still resolves, in the manifest that producer
    committed, to the object consumed or one it was adopted into, as recorded; and no result
    is its own ancestor. *)
Theorem lineage_sound l :
  rtc step empty_ledger l ->
  (forall k row, row ∈ ancestor_rows l k ->
     is_Some (publications (results l) !! k) /\ committed truth l (producer_action_key row)
     /\ check_ancestor truth l (pending_of_row row) = Ok (adopted row))
  /\ (forall k, ~ tc (lineage l) k k).
Proof.
  intros Hs. destruct (invariant_rtc step lineage_inv inv_step _ _ inv_empty Hs) as [Hh Hp [rank Hr]].
  split.
  - intros k row Hin. split; [by eapply Hp|]. split; [|by eapply Hh].
    by apply (check_ancestor_committed truth l (pending_of_row row) (adopted row)), (Hh k).
  - intros k Hk. pose proof (rank_tc l rank k k Hr Hk). lia.
Qed.

(** ** The walk *)

Lemma walk_more r fuel n l queue walked rows res :
  walk_ancestry r fuel l queue walked rows = Some res ->
  walk_ancestry r (fuel + n) l queue walked rows = Some res.
Proof.
  revert queue walked rows. induction fuel as [|fuel IH]; intros [|c queue] walked rows;
    cbn [walk_ancestry Nat.add]; [by destruct n|done|done|].
  destruct (check_ancestor r l c); [|done]. case_bool_decide; apply IH.
Qed.

(** The walk over the ancestors ends on every ledger, lineage cycles and diamonds
    included: any number of rounds from the references plus the recorded rows on gives the
    same answer.  On a ledger the coordinator can reach, that answer is the one of checking
    the direct references alone, when all manifests are at hand. *)
Theorem ancestry_walk_ends offer l r :
  exists res,
    (forall fuel, (walk_fuel l (provisional_ancestors offer) <= fuel)%nat ->
       walk_ancestry r fuel l (pending_of_ref <$> provisional_ancestors offer) ∅ [] = Some res)
    /\ verify_provisional_ancestry r offer l = (res, l)
    /\ (rtc step empty_ledger l -> r = truth ->
          res = check_all truth l (pending_of_ref <$> provisional_ancestors offer)).
Proof.
  destruct (walk_ends r l (provisional_ancestors offer)) as [res Hres]. exists res. split_and!.
  - intros fuel Hf. rewrite <- (Nat.sub_add _ _ Hf), Nat.add_comm. by apply walk_more.
  - unfold verify_provisional_ancestry. by rewrite Hres.
  - intros Hs ->. destruct (invariant_rtc step lineage_inv inv_step _ _ inv_empty Hs) as [Hh _ _].
    apply walk_under_lineage in Hres; [|done|].
    + rewrite Hres, direct_refs. set (x := check_all _ _ _). by destruct x.
    + intros c (ref & -> & _)%list_elem_of_fmap. done.
Qed.

End histories.

End Lineage.
