(* ===== verification/Offers.v ===== *)
(** * Offers: a concrete coordinator (rabs-cas/src/publication.rs)

    A ledger with an authority, an action, a live attempt and its stored objects, and the
    offers made to it, with the summing hasher of Digest.v for SHA-256.  The theorems of
    Admission.v and Lineage.v applied to it, and the places where the pipeline does less
    than its comments say. *)

From stdpp Require Import base gmap list strings sorting relations pretty.
From Stdlib Require Import ZArith Lia.
From S2P Require Import Prelude Bytes Manifest Digest Pack Store Gc Ledger Publication.
From S2P Require Import Admission Lineage.
Import ResultIdentity ManifestCodec Store Ledger Publication Admission Lineage DigestSet.

Module Offers.

Definition digest (dom : string) (tag : Z) : TypedDigest :=
  {| algorithm := Sha256V1; domain := dom; digest_bytes := replicate 32 tag |}.
Definition an_object (tag : Z) : TypedDigest := digest "rabs.object.sha256.v1" tag.
Definition an_action (tag : Z) : TypedDigest := digest "rabs.action-key.sha256.v1" tag.
Definition a_descriptor : TypedDigest := digest "rabs.descriptor.sha256.v1" 8.

Definition the_coordinator : PinLeases.CoordinatorAuthority :=
  {| PinLeases.authority_cluster := "cluster-a"; PinLeases.credential_generation := 1;
     PinLeases.authority_term := 3; PinLeases.incarnation_id := 77 |}.
Definition the_authority : TypedDigest := PinLeases.authority_digest (SHA := list Z) the_coordinator.

Definition attempt_authority (action : TypedDigest) (lease : Z) : AttemptAuthority :=
  {| coordinator := the_coordinator; auth_action_key := action;
     action_generation := {| generation_id := 11; per_key_ordinal := 1;
                             created_under_authority_digest := the_authority |};
     attempt_id := 20; execution_lease_id := lease; worker_peer_id := "worker-a" |}.

Definition a_manifest (action : TypedDigest) (output : Z) : CanonicalActionResultManifest :=
  {| action_key := action; canonical_descriptor_digest := a_descriptor; key_epoch := 1;
     projection_epoch := 1; result_kind := Success; artifact_bundle_root := None;
     logical_outputs := [{| role := ProvisionalMetadata; virtual_path := str_bytes "out/lib.rmeta";
                            object := an_object output |}];
     semantic_result_digest := digest SEMANTIC_PROJECTION_DOMAIN 0;
     observable_result_digest := digest OBSERVABLE_PROJECTION_DOMAIN 0 |}.

Definition an_evidence (action : TypedDigest) (m_id : ObjectId) : AttemptEvidenceBundle :=
  {| ev_action_key := action; canonical_result_manifest_id := m_id;
     execution_snapshot_root := an_object 60; observed_input_report := an_object 61;
     raw_process_and_event_evidence := an_object 62; provenance_receipt := an_object 63;
     incremental_snapshot := None |}.

Definition built (action m_tag output lease : Z) (refs : list ProvisionalAncestorRef) :=
  build (SHA := list Z) (attempt_authority (an_action action) lease)
    (a_manifest (an_action action) output) (an_object m_tag)
    (an_evidence (an_action action) (an_object m_tag)) (an_object 51)
    (digest "rabs.observation-stream.sha256.v1" 9)
    [(ProvisionalMetadata, str_bytes "out/lib.rmeta")] refs.

(** The offer itself; the default is never taken below. *)
Definition offer_of (action m_tag output lease : Z) (refs : list ProvisionalAncestorRef) :
    OfferPreparedActionResult :=
  match built action m_tag output lease refs with
  | Ok o => o
  | Err _ =>
      {| authority := attempt_authority (an_action action) lease;
         manifest := a_manifest (an_action action) output; manifest_id := an_object m_tag;
         offer_evidence := an_evidence (an_action action) (an_object m_tag);
         evidence_id := an_object 51; canonical_observations := an_object 0;
         provisional_ancestors := [] |}
  end.

Fixpoint each {A} (f : A -> ldb unit) (xs : list A) : ldb unit :=
  match xs with [] => mret tt | x :: xs => _ ← f x; each f xs end.

Definition locate (o : TypedDigest) : ldb unit :=
  with_base (add_location o (str_bytes "/cas") (Some 1) "raw" true).

(** Actions 7, 8 and 9 are known; attempt 20 of generation 11 runs under lease 30; lease 31
    belongs to attempt 21 of generation 12. *)
Definition set_up : ldb unit :=
  _ ← with_base (acquire_authority {| auth_digest := the_authority; cluster_id := "cluster-a";
                                      incarnation := 77; term := 3; acquired_seq := 1 |});
  _ ← each (fun a => upsert_action_entry (an_action a) 1 1) [7; 8; 9];
  _ ← create_generation the_authority 11 (an_action 7);
  _ ← create_generation the_authority 12 (an_action 8);
  _ ← record_attempt 20 11 "worker-a" 1;
  _ ← record_attempt 21 12 "worker-b" 2;
  _ ← acquire_lease 30 20 1 100;
  _ ← acquire_lease 31 21 1 100;
  _ ← each (fun tag => locate (an_object tag)) [41; 42; 50; 51; 52; 60; 61; 62; 63];
  each (fun output =>
    each locate (option_list (compute_bundle_root (SHA := list Z)
                   (logical_outputs (a_manifest (an_action 7) output))))) [41; 42].

Definition world : ledger := snd (set_up empty_ledger).

Example set_up_ok : fst (set_up empty_ledger) = Ok tt.
Proof. vm_compute. reflexivity. Qed.

Definition no_manifest : text -> option CanonicalActionResultManifest := fun _ => None.

Abbreviation offers r o := (process_offer (SHA := list Z) r o a_descriptor).

Example first_offer :
  fst (offers no_manifest (offer_of 7 50 41 30 []) 500 9 RequireDurableClosure world)
  = Ok (PublicationCommitted {| rec_action_key := an_action 7; rec_manifest_id := an_object 50;
          rec_evidence_id := an_object 51; committed_causal_sequence := 9 |}).
Proof. vm_compute. reflexivity. Qed.

(** ** Two actions, the second built from the first *)

Definition offer_a : OfferPreparedActionResult := offer_of 7 50 41 30 [].
Definition a_ref (action consumed : Z) : ProvisionalAncestorRef :=
  {| ref_producer := an_action action; ref_role := ProvisionalMetadata;
     ref_path := str_bytes "out/lib.rmeta"; consumed_object := an_object consumed |}.
Definition offer_b : OfferPreparedActionResult := offer_of 8 52 42 30 [a_ref 7 41].

(** The manifests by their ids. *)
Definition shelf : text -> option CanonicalActionResultManifest := fun k =>
  if decide (k = Pack.digest_key (an_object 50)) then Some (manifest offer_a)
  else if decide (k = Pack.digest_key (an_object 52)) then Some (manifest offer_b)
  else None.

Definition after_a : ledger := snd (offers shelf offer_a 500 9 RequireDurableClosure world).
Definition after_b : ledger := snd (offers shelf offer_b 501 10 RequireDurableClosure after_a).

Definition receipt_for (offer : OfferPreparedActionResult) (n : Z) : PublicationOutcome :=
  PublicationCommitted (receipt offer n).

Example both_committed :
  fst (offers shelf offer_a 500 9 RequireDurableClosure world) = Ok (receipt_for offer_a 9)
  /\ fst (offers shelf offer_b 501 10 RequireDurableClosure after_a) = Ok (receipt_for offer_b 10).
Proof. by split; vm_compute. Qed.

(** Another result for the first action. *)
Definition offer_a' : OfferPreparedActionResult := offer_of 7 52 42 30 [].
Definition after_a' : ledger := snd (offers shelf offer_a' 502 11 RequireDurableClosure after_b).

Definition keyedb (l : ledger) : bool :=
  bool_decide (map_Forall (fun k r => k = Pack.digest_key (auth_digest (fst r))) (authorities (base l))).

Lemma keyedb_spec l : keyedb l = true -> authorities_keyed l.
Proof.
  intros Hk%bool_decide_eq_true k row b Hl. exact (map_Forall_lookup_1 _ _ _ _ Hk Hl).
Qed.

(** ** The ledger is one the coordinator can reach *)

Section reach.
Context (truth : text -> option CanonicalActionResultManifest).
Abbreviation steps := (rtc (step (SHA := list Z) truth)).

Lemma steps_bind {A B} (m : ldb A) (f : A -> ldb B) :
  (forall l, steps l (snd (m l))) -> (forall a l, steps l (snd (f a l))) ->
  forall l, steps l (snd ((m ≫= f) l)).
Proof.
  intros Hm Hf l. unfold mbind, method_bind. specialize (Hm l).
  destruct (m l) as [[a|e] l1]; cbn in *; [|done]. etrans; [done|]. apply Hf.
Qed.

Lemma steps_each {A} (f : A -> ldb unit) xs :
  (forall x l, steps l (snd (f x l))) -> forall l, steps l (snd (each f xs l)).
Proof.
  intros Hf. induction xs as [|x xs IH]; intros l; [done|]. cbn [each]. by apply steps_bind.
Qed.

Lemma world_reached : steps empty_ledger world.
Proof.
  unfold world, set_up. generalize empty_ledger.
  assert (forall tag l, steps l (snd (locate tag l))) as Hloc
    by (intros; apply rtc_once; constructor).
  apply steps_bind; [intros l; apply rtc_once; constructor|intros _].
  apply steps_bind; [apply steps_each; intros; apply rtc_once; constructor|intros _].
  do 6 (apply steps_bind; [intros l; apply rtc_once; constructor|intros _]).
  apply steps_bind; [by apply steps_each|intros _].
  apply steps_each. intros x. by apply steps_each.
Qed.
End reach.

Lemma after_b_reached : rtc (step (SHA := list Z) shelf) empty_ledger after_b.
Proof.
  unfold after_b. eapply rtc_r; [|by apply step_offer; intros k].
  unfold after_a. eapply rtc_r; [|by apply step_offer; intros k]. apply world_reached.
Qed.

(** ** The theorems at work *)

Lemma outcome_at {A B} (p : A * B) a : fst p = a -> p = (a, snd p).
Proof. destruct p. by intros <-. Qed.

Lemma offer_committed_iff_witness :
  exists rows, admissible shelf offer_b a_descriptor RequireDurableClosure after_a rows.
Proof.
  destruct (proj1 (offer_committed_iff shelf offer_b a_descriptor 501 10 RequireDurableClosure
    after_a (receipt offer_b 10) after_b (keyedb_spec after_a ltac:(vm_compute; reflexivity)))
    (outcome_at _ _ (proj2 both_committed))) as (rows & Hadm & _). by exists rows.
Defined.

Lemma committed_ancestry_witness :
  committed shelf after_a (Pack.digest_key (an_action 7))
  /\ exists rows, check_all shelf after_a (pending_of_ref <$> provisional_ancestors offer_b) = Ok rows.
Proof.
  destruct (committed_ancestry shelf offer_b a_descriptor 501 10 RequireDurableClosure
    after_a (receipt offer_b 10) after_b (outcome_at _ _ (proj2 both_committed)))
    as [Hall (rows & Hrows & _)].
  split; [|by exists rows]. apply (Hall (a_ref 7 41)); [|done].
  apply list_elem_of_In. vm_compute. by left.
Defined.

(** Another result for the first action is quarantined, the committed one stays. *)
Example diverges :
  fst (offers shelf offer_a' 502 11 RequireDurableClosure after_b)
  = Ok (Quarantined {| dq_class := SemanticDivergence; incident_seq := 11; candidate_pin_id := 502;
                       escalations := [] |}).
Proof. vm_compute. reflexivity. Qed.

Lemma divergence_outcome_witness :
  quarantine_written offer_a' 502 11 SemanticDivergence (Pack.digest_key (an_object 50)) after_a'
  /\ publications (results after_a') = publications (results after_b).
Proof.
  destruct (divergence_outcome shelf offer_a' a_descriptor 502 11 RequireDurableClosure after_b
    {| dq_class := SemanticDivergence; incident_seq := 11; candidate_pin_id := 502;
       escalations := [] |} after_a' (outcome_at _ _ diverges))
    as (p & man & Hp & _ & _ & _ & Hpub & Hw & _).
  split; [|exact Hpub].
  assert (Pack.digest_key (pub_manifest p) = Pack.digest_key (an_object 50)) as Hkey.
  { assert ((fun p => Pack.digest_key (pub_manifest p))
              <$> publications (results after_b) !! Pack.digest_key (an_action 7)
            = Some (Pack.digest_key (an_object 50))) as Hx by (vm_compute; reflexivity).
    change (Pack.digest_key (an_action 7)) with (Pack.digest_key (action_key (manifest offer_a'))) in Hx.
    rewrite Hp in Hx. by injection Hx. }
  rewrite <- Hkey. exact Hw.
Defined.

(** The same candidate under a pin that exists is refused with the action quarantined. *)
Example refused_halfway :
  fst (offers shelf offer_a' 500 11 RequireDurableClosure after_b) = Err (StoreRefused Backend).
Proof. vm_compute. reflexivity. Qed.

Lemma refusal_effect_witness :
  let l' := snd (offers shelf offer_a' 500 11 RequireDurableClosure after_b) in
  same_tables after_b l' \/ action_quarantined offer_a' l'.
Proof.
  destruct (refusal_effect shelf offer_a' a_descriptor 500 11 RequireDurableClosure after_b _ _
    (outcome_at _ _ refused_halfway)) as [Hs|(_ & Hq & _)]; [by left|by right].
Defined.

Lemma publication_final_witness :
  is_Some (publications (results after_b) !! Pack.digest_key (an_action 7)).
Proof.
  assert (is_Some (publications (results after_a) !! Pack.digest_key (an_action 7))) as [p Hp].
  { apply (is_Some_alt _). vm_compute. exact I. }
  exists p. refine (proj1 (publication_final (SHA := list Z) shelf after_a after_b _ p _ Hp)).
  apply rtc_once. unfold after_b. by apply step_offer; intros k.
Defined.

Lemma lineage_sound_witness :
  ~ tc (lineage after_b) (Pack.digest_key (an_action 8)) (Pack.digest_key (an_action 8)).
Proof. exact (proj2 (lineage_sound (SHA := list Z) shelf after_b after_b_reached) _). Defined.

Example built_b : built 8 52 42 30 [a_ref 7 41] = Ok offer_b.
Proof. vm_compute. reflexivity. Qed.

Lemma build_identified_witness :
  identified offer_b a_descriptor after_a
  <-> a_descriptor = a_descriptor
      /\ exists e, fst (lookup_action (an_action 8) after_a) = Ok (Some e)
           /\ entry_key_epoch e = 1 /\ entry_projection_epoch e = 1.
Proof.
  exact (proj1 (build_identified (SHA := list Z) _ (a_manifest (an_action 8) 42) _ _ _ _ _ _
                  offer_b a_descriptor after_a built_b)).
Defined.

(** ** Where the pipeline does less than its comments say *)

(** An offer of attempt 20 under lease 31, which attempt 21 of another generation holds, is
    committed: the fence asks only for a lease of that id that is not released. *)
Theorem foreign_lease_admitted :
  (lease_attempt <$> leases (execution world) !! 31) = Some 21
  /\ fst (offers shelf (offer_of 7 50 41 31 []) 500 9 RequireDurableClosure world)
     = Ok (receipt_for (offer_of 7 50 41 31 []) 9).
Proof. by split; vm_compute. Qed.

(** Likewise the generation: 11 was created for action 7 and serves an offer for action 8. *)
Theorem foreign_generation_admitted :
  (gen_action <$> generations (execution world) !! 11) = Some (Pack.digest_key (an_action 7))
  /\ fst (offers shelf (offer_of 8 52 42 30 []) 500 9 RequireDurableClosure world)
     = Ok (receipt_for (offer_of 8 52 42 30 []) 9).
Proof. by split; vm_compute. Qed.

(** A refusal that wrote: the divergence is refused for its pin, and the action, servable
    before, is quarantined and no longer servable. *)
Theorem refusal_can_write :
  let l' := snd (offers shelf offer_a' 500 11 RequireDurableClosure after_b) in
  let action := Pack.digest_key (an_action 7) in
  fst (offers shelf offer_a' 500 11 RequireDurableClosure after_b) = Err (StoreRefused Backend)
  /\ quarantines (trouble after_b) !! ("action-entry"%string, action) = None
  /\ quarantines (trouble l') !! ("action-entry"%string, action)
     = Some (divergence_quarantine_reason SemanticDivergence)
  /\ disposition <$> serving (results after_b) !! action = Some "servable"%string
  /\ disposition <$> serving (results l') !! action = Some DISPOSITION_QUARANTINED.
Proof. by split_and!; vm_compute. Qed.

(** A recorded reference the walk passes over: the row says action 8 consumed object 99 of
    action 7, whose output is 41; referring to action 7 first hides it, referring to action
    8 alone does not. *)
Definition torn : ledger :=
  on_results (fun r => put_ancestor (Pack.digest_key (an_action 8)) r
    {| producer_action_key := Pack.digest_key (an_action 7); anc_role := "provisional-metadata";
       anc_path := str_bytes "out/lib.rmeta"; object_key := Pack.digest_key (an_object 99);
       adopted := false |})
    (on_results (set_ancestry ∅) after_b).

Theorem walked_producer_unchecked :
  fst (verify_provisional_ancestry shelf (offer_of 9 50 41 30 [a_ref 8 42]) torn)
    = Err (DivergentProvisionalAncestor (Pack.digest_key (an_action 7)) (str_bytes "out/lib.rmeta"))
  /\ is_ok (fst (verify_provisional_ancestry shelf (offer_of 9 50 41 30 [a_ref 7 41; a_ref 8 42]) torn))
     = true.
Proof. by split; vm_compute. Qed.

End Offers.
