(* ===== verification/Trust.v ===== *)
(** * Trust: when a committed result is served
    (proofs about Serving.v: rabs-cas/src/serving_state.rs, rabs-cas/src/trust_evidence.rs,
    rabs-action/src/serving_transitions.rs) *)

From stdpp Require Import base gmap list strings sorting relations pretty.
From Stdlib Require Import ZArith Lia.
From S2P Require Import Prelude Bytes Manifest Digest Pack Store Gc Ledger Publication Serving.
From S2P Require Import Startup Admission Lineage Offers.
Import ResultIdentity Store Ledger Publication Serving Admission Lineage.

Module Trust.

(** ** The gate *)

(** The columns of a stored window that was evaluated after 1970. *)
Record window (v : ServingValidity) : Prop := {
  w_evaluated : 0 <= evaluated_at_unix_micros v;
  w_uncertainty : 0 <= clock_uncertainty_micros v;
  w_max_age : forall a, maximum_age_micros v = Some a -> a <= I64_MAX }.

Lemma still_valid_exact v now epoch :
  window v -> now <= I64_MAX ->
  still_valid v now epoch = true
  <-> epoch = coordinator_clock_epoch v /\ evaluated_at_unix_micros v <= now
      /\ forall a, maximum_age_micros v = Some a ->
           now - evaluated_at_unix_micros v + clock_uncertainty_micros v <= a.
Proof.
  intros [He Hu Hm] Hnow. unfold still_valid, I64_MAX in *.
  destruct (Z.eqb_spec epoch (coordinator_clock_epoch v)); cbn [negb]; [|naive_solver].
  destruct (Z.ltb_spec now (evaluated_at_unix_micros v)); [split; [done|intros (_ & ? & _); lia]|].
  destruct (maximum_age_micros v) as [a|]; [|naive_solver].
  specialize (Hm a eq_refl). rewrite Z.leb_le. unfold i64_sat_sub, I64_MIN, I64_MAX.
  rewrite Z.max_r, Z.min_r by lia. rewrite wrap_small by (unfold in_u; lia).
  unfold sat_add. split.
  - intros Hs. split_and!; [done|done|]. intros a' [= <-]. lia.
  - intros (_ & _ & Ha). specialize (Ha a eq_refl). lia.
Qed.

Lemma elem_of_blocking_rows l k scope subject :
  (scope, subject) ∈ blocking_rows l k <-> (k, scope, subject) ∈ blocking (results l).
Proof.
  unfold blocking_rows. rewrite sort_by_perm, list_elem_of_omap. split.
  - intros ([[k' s] t] & Hin & Heq). case_bool_decide; [|done]. simplify_eq.
    by apply elem_of_elements.
  - intros Hin%elem_of_elements. exists (k, scope, subject). by rewrite bool_decide_true.
Qed.

Lemma blocking_rows_nil l k :
  blocking_rows l k = [] <-> forall scope subject, (k, scope, subject) ∉ blocking (results l).
Proof.
  split.
  - intros Hnil scope subject Hin%elem_of_blocking_rows. rewrite Hnil in Hin.
    by apply not_elem_of_nil in Hin.
  - intros Hno. destruct (blocking_rows l k) as [|[scope subject] rest] eqn:Hb; [done|].
    destruct (Hno scope subject). apply elem_of_blocking_rows. rewrite Hb. by left.
Qed.

(** The gate serves an action exactly when its record says servable, names no blocking
    quarantine, was evaluated in this clock epoch and not in the future, and its age plus the
    clock uncertainty is within its maximum; the 64-bit arithmetic neither wraps nor saturates
    into a permission, for windows evaluated since 1970. *)
Theorem gate_serves_iff k now epoch l row :
  serving (results l) !! k = Some row -> window (validity row) -> now <= I64_MAX ->
  fst (serving_gate k now epoch l) = Ok Servable
  <-> disposition row = SERVABLE_DISPOSITION
      /\ (forall scope subject, (k, scope, subject) ∉ blocking (results l))
      /\ epoch = coordinator_clock_epoch (validity row)
      /\ evaluated_at_unix_micros (validity row) <= now
      /\ forall a, maximum_age_micros (validity row) = Some a ->
           now - evaluated_at_unix_micros (validity row)
           + clock_uncertainty_micros (validity row) <= a.
Proof.
  intros Hrow Hw Hnow. rewrite <- (still_valid_exact _ _ _ Hw Hnow), <- blocking_rows_nil.
  unfold serving_gate, serving_record. unmonad. rewrite Hrow. cbn.
  repeat case_bool_decide; cbn; try naive_solver.
  destruct (still_valid (validity row) now epoch); cbn; [naive_solver|].
  repeat case_match; naive_solver.
Qed.

(** Anything but a servable record is refused, whatever the clock. *)
Lemma gate_denies k now epoch l row :
  serving (results l) !! k = Some row -> disposition row <> SERVABLE_DISPOSITION ->
  fst (serving_gate k now epoch l) = Ok (NotServable (disposition row)).
Proof.
  intros Hrow Hd. unfold serving_gate, serving_record. unmonad. rewrite Hrow. cbn.
  by rewrite bool_decide_false.
Qed.

(** ** The evaluation ledger *)

(** The last key is the greatest. *)
Lemma btree_last {A} (m : gmap Z A) k :
  last (btree_keys m) = Some k <-> is_Some (m !! k) /\ forall k', is_Some (m !! k') -> k' <= k.
Proof.
  setoid_rewrite <- elem_of_btree_keys. pose proof (btree_keys_sorted m) as Hs.
  induction (btree_keys m) as [|a ks IH]; cbn; [set_solver|].
  apply StronglySorted_inv in Hs as [Hs Ha]. specialize (IH Hs).
  destruct ks as [|b ks].
  - split; [intros [= ->]; set_solver|]. intros [Hk _]. f_equal. set_solver.
  - rewrite IH. rewrite Forall_forall in Ha. split.
    + intros [Hk Hmax]. split; [by right|]. intros k' [->|Hk']%elem_of_cons; auto.
    + intros [Hk Hmax]. split; [|intros; apply Hmax; by right].
      apply elem_of_cons in Hk as [->|Hk]; [|done].
      assert (b = a) as ->; [|set_solver]. specialize (Hmax b ltac:(set_solver)).
      specialize (Ha b ltac:(set_solver)). lia.
Qed.

Lemma last_insert_greatest {A} (m : gmap Z A) v x :
  match last (btree_keys m) with Some max => v <=? max | None => false end = false ->
  last (btree_keys (<[v := x]> m)) = Some v.
Proof.
  intros Hgt. apply btree_last. rewrite lookup_insert_eq. split; [by eauto|].
  intros k' Hk'. destruct (decide (k' = v)) as [->|Hne]; [done|].
  rewrite lookup_insert_ne in Hk' by done.
  destruct (last (btree_keys m)) as [max|] eqn:Hl.
  - apply btree_last in Hl as [_ Hmax]. specialize (Hmax k' Hk'). lia.
  - apply last_None, btree_keys_empty in Hl. subst. rewrite lookup_empty in Hk'. by destruct Hk'.
Qed.

Lemma append_evaluation_ok auth action row l l' :
  append_trust_evaluation auth action row l = (Ok tt, l') ->
  base l' = base l /\ execution l' = execution l /\ results l' = results l
  /\ quarantines (trouble l') = quarantines (trouble l)
  /\ latest_trust_evaluation l' (Pack.digest_key action) = Some row.
Proof.
  unfold append_trust_evaluation, Ledger.in_txn, to_i64. unmonad.
  destruct (I64_MAX <? evaluated_seq row); tidy; [done|].
  pose proof (require_active_reads auth l) as Hr.
  destruct (require_active auth l) as [[[]|] l1]; cbn in Hr; subst; [|done].
  set (versions := default ∅ (evaluations (trouble l) !! Pack.digest_key action)).
  destruct (match last (btree_keys versions) with Some _ => _ | None => _ end) eqn:Hgt; [done|].
  intros [= <-]. destruct l as [b e r []]. cbn in *. split_and!; try done.
  unfold latest_trust_evaluation. cbn. rewrite lookup_insert_eq. cbn.
  rewrite (last_insert_greatest _ _ _ Hgt). cbn. rewrite lookup_insert_eq. by destruct row.
Qed.

(** ** Policies *)

Lemma fold_latest ps best :
  match fold_left (fun best p =>
    match best with
    | Some b => if policy_version b <=? policy_version p then Some p else best
    | None => Some p
    end) ps best with
  | Some p => (p ∈ ps \/ best = Some p) /\ forall q, q ∈ ps \/ best = Some q -> policy_version q <= policy_version p
  | None => ps = [] /\ best = None
  end.
Proof.
  revert best. induction ps as [|p ps IH]; intros best; cbn [fold_left].
  { destruct best as [b|]; [|done]. split; [by right|]. intros q [Hq|[= <-]]; [set_solver|done]. }
  specialize (IH (match best with
    | Some b => if policy_version b <=? policy_version p then Some p else best
    | None => Some p end)).
  destruct (fold_left _ ps _) as [w|].
  - destruct IH as [Hw Hmax]. split.
    + destruct Hw as [Hw|Hw]; [left; set_solver|].
      destruct best as [b|]; [destruct (_ <=? _)|]; simplify_eq; [left; set_solver|by right|left; set_solver].
    + intros q Hq. destruct best as [b|].
      * destruct (Z.leb_spec (policy_version b) (policy_version p)).
        -- pose proof (Hmax p (or_intror eq_refl)). destruct Hq as [[->|Hq]%elem_of_cons|[= <-]]; [done|by auto|lia].
        -- pose proof (Hmax b (or_intror eq_refl)). destruct Hq as [[->|Hq]%elem_of_cons|[= <-]]; [lia|by auto|done].
      * destruct Hq as [[->|Hq]%elem_of_cons|?]; [by auto|by auto|done].
  - destruct IH as [_ IH]. destruct best; [case_match; done|done].
Qed.

(** The policy evaluations use is not revoked, and no other such policy is newer. *)
Lemma latest_policy_spec policies p :
  latest_nonrevoked_policy policies = Some p ->
  p ∈ policies /\ revoked p = false
  /\ forall q, q ∈ policies -> revoked q = false -> policy_version q <= policy_version p.
Proof.
  unfold latest_nonrevoked_policy. intros Hp.
  pose proof (fold_latest (filter (fun p => revoked p = false) policies) None) as Hf.
  rewrite Hp in Hf. destruct Hf as [[Hin|?] Hmax]; [|done].
  apply list_elem_of_filter in Hin as [Hr Hin]. split_and!; [done|done|].
  intros q Hq Hqr. apply Hmax. left. by apply list_elem_of_filter.
Qed.

(** ** Re-evaluation *)

Section evaluation.
Context {SHA : Type} `{Hasher SHA}.

(** A report of a compromise is in the evidence of the action. *)
Definition reported (l : ledger) (k : text) : Prop :=
  exists bs, is_Some (evidence_index (results l) !! (k, COMPROMISE_REPORT_DOMAIN, bs)).

(** What the evidence and the samples of an action say. *)
Definition observed (l : ledger) (k : text) : bool * Z * TrustEvidenceTier :=
  (existsb is_compromise (default [] (match fst (list_evidence_keys k l) with
                                      | Ok keys => Some keys | Err _ => None end)),
   match fst (observed_tier k l) with Ok (_, adverse) => adverse | Err _ => 0 end,
   match fst (observed_tier k l) with Ok (tier, _) => tier | Err _ => UnverifiedCandidate end).

Lemma reported_compromised l k : reported l k -> (observed l k).1.1 = true.
Proof.
  intros (bs & row & Hrow). unfold observed, list_evidence_keys. cbn.
  apply existsb_exists. exists (evidence_key (COMPROMISE_REPORT_DOMAIN, bs)). split.
  - apply list_elem_of_In, list_elem_of_fmap. eexists. split; [done|].
    rewrite sort_by_perm, list_elem_of_omap. exists ((k, COMPROMISE_REPORT_DOMAIN, bs), row).
    rewrite elem_of_map_to_list, bool_decide_true by done. done.
  - unfold is_compromise, evidence_key. apply bool_decide_eq_true. cbn [fst snd].
    by rewrite app_assoc, take_app_length.
Qed.

(** The row a disposition-only write leaves. *)
Lemma put_disposition_row k d r :
  exists row, serving (put_disposition k d r) !! k = Some row /\ disposition row = d
    /\ publications (put_disposition k d r) = publications r.
Proof.
  destruct r. unfold put_disposition. cbn. rewrite lookup_insert_eq.
  eexists. split; [done|]. split; [|done]. by case_match.
Qed.

Lemma observed_reads l k :
  list_evidence_keys k l = (fst (list_evidence_keys k l), l)
  /\ observed_tier k l = (Ok ((observed l k).2, (observed l k).1.2), l).
Proof. done. Qed.

(** A re-evaluation that returned, step by step: an optional quarantine, an entry of the
    evaluation ledger, and last the disposition. *)
Lemma reevaluate_inv auth action policies n l r l' :
  reevaluate_action auth action policies n l = (Ok r, l') ->
  let k := Pack.digest_key action in
  exists policy state l2,
    latest_nonrevoked_policy policies = Some policy
    /\ verdict (observed l k).1.1 (observed l k).1.2 (observed l k).2 (required_tier policy)
       = (re_disposition r, state)
    /\ results l2 = results l
    /\ (re_disposition r = DISPOSITION_QUARANTINED ->
         is_Some (quarantines (trouble l2) !! ("action-entry"%string, k)))
    /\ (exists entry, latest_trust_evaluation l2 k = Some entry
         /\ trust_version entry = re_version r /\ trust entry = state)
    /\ l' = on_results (put_disposition k (re_disposition r)) l2.
Proof.
  unfold reevaluate_action. cbn zeta. set (k := Pack.digest_key action). unmonad.
  case_bool_decide; cbn [negb]; unmonad; [|done].
  unfold ok_or. destruct (latest_nonrevoked_policy policies) as [policy|] eqn:Hpol; tidy; [|done].
  unfold trust_call. destruct (observed_reads l k) as [Hk Ht]. rewrite Hk.
  destruct (fst (list_evidence_keys k l)) as [keys|] eqn:Hkeys; tidy; [|done]. rewrite Ht.
  assert (existsb is_compromise keys = (observed l k).1.1) as ->
    by (unfold observed; by rewrite Hkeys).
  destruct (observed l k) as [[compromised adverse] tier]. tidy.
  destruct (verdict compromised adverse tier (required_tier policy)) as [d state] eqn:Hv. tidy.
  set (l1 := if bool_decide (d = DISPOSITION_QUARANTINED)
             then on_trouble (put_quarantine "action-entry" k
                    (if compromised then "post-publication compromise report in evidence set"%string
                     else "failed verification sample"%string)) l else l).
  match goal with |- context [(if bool_decide (d = DISPOSITION_QUARANTINED) then ?f else ?g) l] =>
    replace ((if bool_decide (d = DISPOSITION_QUARANTINED) then f else g) l)
      with (@Ok TrustEvidenceError unit tt, l1) by (unfold l1; by case_bool_decide) end. tidy.
  assert (results l1 = results l) as Hres by (unfold l1; by case_bool_decide).
  destruct (append_trust_evaluation _ _ _ l1) as [[[]|] l2] eqn:Happ; tidy; [|done].
  apply append_evaluation_ok in Happ as (_ & _ & Hr & Hq & Hlatest).
  unfold set_serving_disposition_key, Ledger.in_txn. unmonad. intros [= <- <-].
  exists policy, state, l2. split_and!; try done; [by rewrite Hr| |by eauto].
  cbn [re_disposition]. intros Hd. rewrite Hq. unfold l1. rewrite bool_decide_true by done.
  destruct l as [b e r' []]. cbn. rewrite lookup_insert_eq. eauto.
Qed.

Lemma verdict_disposition compromised adverse tier required :
  fst (verdict compromised adverse tier required)
  = (if compromised || (0 <? adverse) then DISPOSITION_QUARANTINED
     else if tier_rank required <=? tier_rank tier then SERVABLE_DISPOSITION
     else DISPOSITION_EVIDENCE_PENDING).
Proof. unfold verdict. destruct compromised, (0 <? adverse), (_ <=? _); done. Qed.

(** A re-evaluation that returns used the newest policy that is not revoked, and decided
    by the evidence alone: a report of compromise or a failed sample quarantines the action,
    otherwise it is servable exactly when the observed tier reaches the required one.  The
    disposition is what the gate will read, the verdict is the newest entry of the evaluation
    ledger, and the publication is untouched. *)
Theorem reevaluate_spec auth action policies n l r l' :
  reevaluate_action auth action policies n l = (Ok r, l') ->
  let k := Pack.digest_key action in
  let '(compromised, adverse, tier) := observed l k in
  exists policy row entry,
    policy ∈ policies /\ revoked policy = false
    /\ (forall q, q ∈ policies -> revoked q = false -> policy_version q <= policy_version policy)
    /\ re_disposition r
       = (if compromised || (0 <? adverse) then DISPOSITION_QUARANTINED
          else if tier_rank (required_tier policy) <=? tier_rank tier then SERVABLE_DISPOSITION
          else DISPOSITION_EVIDENCE_PENDING)
    /\ serving (results l') !! k = Some row /\ disposition row = re_disposition r
    /\ (re_disposition r = DISPOSITION_QUARANTINED ->
          is_Some (quarantines (trouble l') !! ("action-entry"%string, k)))
    /\ latest_trust_evaluation l' k = Some entry /\ trust_version entry = re_version r
    /\ publications (results l') = publications (results l).
Proof.
  intros (policy & state & l2 & Hpol & Hv & Hr & Hq & (entry & He & Hver & _) & ->)%reevaluate_inv.
  intros k. fold k in Hv, Hq, He |- *. destruct (observed l k) as [[compromised adverse] tier].
  apply latest_policy_spec in Hpol as (Hin & Hrev & Hmax).
  destruct (put_disposition_row k (re_disposition r) (results l2)) as (row & Hrow & Hd & Hpub).
  exists policy, row, entry. split_and!; try done.
  - rewrite <- verdict_disposition. cbn [fst snd] in Hv. by rewrite Hv.
  - cbn. by rewrite Hpub, Hr.
Qed.

(** ** Compromise is for ever *)

Context (truth : text -> option CanonicalActionResultManifest).

Lemma reported_step l l' k : step truth l l' -> reported l k -> reported l' k.
Proof.
  intros Hs%step_effect%effect_evidence (bs & row & Hrow). exists bs, row.
  by eapply lookup_weaken.
Qed.

(** C17: once a report of compromise is in the evidence of an action, no history and no policy
    makes a re-evaluation serve it again: each one that returns quarantines the action, and
    the gate then refuses it at every time. *)
Theorem compromise_permanent l l1 action auth policies n r l2 now epoch :
  rtc (step truth) l l1 -> reported l (Pack.digest_key action) ->
  reevaluate_action auth action policies n l1 = (Ok r, l2) ->
  re_disposition r = DISPOSITION_QUARANTINED
  /\ fst (serving_gate (Pack.digest_key action) now epoch l2)
     = Ok (NotServable DISPOSITION_QUARANTINED).
Proof.
  intros Hs Hrep Hre. set (k := Pack.digest_key action) in *.
  assert (reported l1 k) as Hrep1.
  { apply (invariant_rtc (step truth) (fun l => reported l k)
             (fun l l' Hl Hstep => reported_step l l' k Hstep Hl) l l1 Hrep Hs). }
  apply reevaluate_inv in Hre as (policy & state & l3 & _ & Hv & _ & _ & _ & ->).
  fold k in Hv |- *. rewrite (reported_compromised _ _ Hrep1) in Hv. cbn in Hv.
  injection Hv as <- _. split; [done|].
  destruct (put_disposition_row k DISPOSITION_QUARANTINED (results l3)) as (row & Hrow & Hd & _).
  pose proof (gate_denies k now epoch (on_results (put_disposition k DISPOSITION_QUARANTINED) l3)
                row Hrow) as Hg. rewrite Hd in Hg. apply Hg. discriminate.
Qed.

(** ** What lifts a refusal *)

(** The action has a record, and it does not say servable. *)
Definition withheld (k : text) (l : ledger) : Prop :=
  exists row, serving (results l) !! k = Some row /\ disposition row <> SERVABLE_DISPOSITION.

Lemma put_disposition_withheld k k' d r :
  k' <> k \/ d <> SERVABLE_DISPOSITION ->
  (exists row, serving r !! k = Some row /\ disposition row <> SERVABLE_DISPOSITION) ->
  exists row, serving (put_disposition k' d r) !! k = Some row /\ disposition row <> SERVABLE_DISPOSITION.
Proof.
  intros Hd (row & Hrow & Hn). destruct r. unfold put_disposition. cbn in *.
  rewrite lookup_insert. case_decide as Hk; [|by eauto].
  destruct Hd as [|Hd]; [done|]. eexists. split; [done|]. by case_match.
Qed.

Lemma disposition_withheld k k' d :
  k' <> k \/ d <> SERVABLE_DISPOSITION -> keeps (withheld k) (set_serving_disposition_key k' d).
Proof. intros Hd. apply keeps_txn. intros l Hl. by apply put_disposition_withheld. Qed.

Lemma evidence_withheld k key mk ev g a : keeps (withheld k) (append_evidence key mk ev g a).
Proof.
  apply keeps_bind; [by intros [b e [] t] Hl|intros _]. apply keeps_txn. by intros [b e [] t] Hl.
Qed.

Lemma quarantine_withheld k scope key why : keeps (withheld k) (add_quarantine scope key why).
Proof. apply keeps_txn. by intros [b e [] t] Hl. Qed.

Lemma base_withheld {A} k (m : method store StoreError A) : keeps (withheld k) (with_base m).
Proof. intros l Hl. unfold with_base. by destruct (m (base l)). Qed.

Lemma incident_withheld k auth key n row : keeps (withheld k) (record_divergence_incident auth key n row).
Proof.
  apply keeps_bind; [by apply reads_keeps, reads_lift|intros ?]. apply keeps_txn.
  apply keeps_bind; [apply reads_keeps, require_active_reads|intros _].
  apply keeps_bind; [by apply reads_keeps|intros l0].
  destruct (incidents _ !! _) as [stored|]; [|by intros [b e r t] Hl].
  intros l1 Hl. by case_bool_decide.
Qed.

Lemma disposition_for_withheld class : disposition_for class <> SERVABLE_DISPOSITION.
Proof. by destruct class. Qed.

Lemma put_ancestors_serving c rows r : serving (fold_left (put_ancestor c) rows r) = serving r.
Proof. revert r. induction rows as [|row rows IH]; intros r; [done|]. cbn. rewrite IH. by destruct r. Qed.

Lemma offer_withheld r offer expected pin_id seq durability k l :
  is_Some (publications (results l) !! k) -> withheld k l ->
  withheld k (snd (process_offer r offer expected pin_id seq durability l)).
Proof.
  intros Hpub Hl. rewrite process_offer_split. destruct (fst (checks _ _ _ _ l)) as [rows|]; [|done].
  destruct (publications _ !! Pack.digest_key (action_key (manifest offer))) as [p|] eqn:Hp.
  - unfold same_key. case_bool_decide.
    { unfold store_call, mbind, method_bind.
      pose proof (evidence_withheld k (action_key (manifest offer)) (Pack.digest_key (pub_manifest p))
        (evidence_id offer) (generation_id (action_generation (authority offer)))
        (attempt_id (authority offer)) l Hl) as Hk.
      by destruct (append_evidence _ _ _ _ _ l) as [[]?]. }
    unmonad. unfold ok_or. destruct (r _) as [man|]; tidy; [|done].
    match goal with |- context [store_call ?q l] => assert (keeps (withheld k) q) as Hk end.
    2: { specialize (Hk l Hl). unfold store_call.
         by destruct (quarantine_divergence _ _ _ _ _ _ _ _ l) as [[]?]. }
    apply keeps_bind; [apply keeps_run, steps_keep|intros _].
    + apply quarantine_withheld.
    + apply disposition_withheld. right. apply disposition_for_withheld.
    + intros part. apply base_withheld.
    + intros ev why. apply base_withheld.
    + apply evidence_withheld.
    + apply incident_withheld.
    + apply keeps_bind; [|by intros es l1]. case_decide; [|by intros l1].
      apply keeps_bind; [by intros l1|intros l1]. apply keep_escalate. intros. by apply keep_receipt.
  - destruct (commit_cases offer pin_id seq rows l Hp) as [->|[e ->]]; [|done].
    assert (Pack.digest_key (action_key (manifest offer)) <> k) as Hne.
    { intros Hk. rewrite Hk in Hp. rewrite Hp in Hpub. by destruct Hpub. }
    destruct Hl as (row & Hrow & Hn). exists row. split; [|done].
    unfold write_publication. cbn. rewrite put_ancestors_serving.
    destruct (results l). cbn in Hrow |- *. by rewrite lookup_insert_ne.
Qed.

Lemma withheld_same k l l' : results l' = results l -> withheld k l -> withheld k l'.
Proof. unfold withheld. by intros ->. Qed.

(** A method of the store that leaves the results alone. *)
Ltac untouched :=
  intros [? [] [] []];
  unfold upsert_action_entry, create_generation, tombstone_generation, record_attempt,
    acquire_lease, renew_lease, release_lease, record_served_consumer, record_verification_sample,
    retain_eviction_tombstone, record_eviction_tombstone, append_trust_evaluation,
    check_recomputation_against_tombstone, eviction_tombstone, consume_eviction_tombstone,
    add_quarantine, Ledger.in_txn, intern, require_active, with_base, to_i64, put_quarantine;
  unmonad; cbn; try done;
  repeat match goal with
  | |- context [match ?x with _ => _ end] =>
      lazymatch x with context [match _ with _ => _ end] => fail | _ => destruct x end;
      cbn; try done
  end.

Lemma adopt_withheld k auth p role path from to :
  keeps (withheld k) (record_adoption_edge auth p role path from to).
Proof.
  apply keeps_txn, keeps_bind; [apply reads_keeps, require_active_reads|intros _].
  apply keeps_bind; [by apply reads_keeps|intros l0].
  destruct (adoptions _ !! _) as [t|]; [intros l1 Hl; by case_bool_decide|]. by intros [b e [] t] Hl.
Qed.

Lemma write_serving_serving key row refs r : serving (write_serving key row refs r) = <[key := row]> (serving r).
Proof. by destruct r. Qed.

(** A record that replaces a withheld one and says servable has a newer revision. *)
Lemma record_withheld k auth key d n v refs l row :
  serving (results l) !! k = Some row -> disposition row <> SERVABLE_DISPOSITION ->
  let l' := snd (put_serving_record auth key d n v refs l) in
  withheld k l' \/ key = k /\ d = SERVABLE_DISPOSITION /\ state_revision row < n
                   /\ fst (put_serving_record auth key d n v refs l) = Ok tt.
Proof.
  intros Hrow Hd. assert (withheld k l) as Hl by (by exists row).
  unfold put_serving_record, Ledger.in_txn, to_i64. unmonad.
  destruct (I64_MAX <? n) eqn:Hn; tidy; [by left|].
  destruct (maximum_age_micros v) as [a|]; [destruct (I64_MAX <? a)|]; cbn -[write_serving references_exist];
    [by left| |].
  all: destruct (I64_MAX <? clock_uncertainty_micros v); cbn -[write_serving references_exist]; [by left|].
  all: destruct (I64_MAX <? coordinator_clock_epoch v); cbn -[write_serving references_exist]; [by left|].
  all: pose proof (require_active_reads auth l) as Hr;
    destruct (require_active auth l) as [[[]|] l1]; cbn in Hr; subst; [|by left].
  all: destruct (_ || _) eqn:Hstale; cbn -[write_serving references_exist]; [by left|].
  all: pose proof (refs_read refs l) as Hf;
    destruct (references_exist refs l) as [[[]|] l1]; cbn in Hf; subst; [|by left].
  all: destruct (decide (key = k)) as [->|Hne];
    [|left; exists row; cbn [snd on_results results];
      by rewrite write_serving_serving, lookup_insert_ne].
  all: destruct (decide (d = SERVABLE_DISPOSITION)) as [->|Hs];
    [|left; eexists; cbn [snd on_results results]; rewrite write_serving_serving, lookup_insert_eq;
      by split].
  all: right; apply orb_false_iff in Hstale as [_ Hrev]; rewrite Hrow in Hrev;
    split_and!; [done|done|lia|done].
Qed.

(** What holds when a method fails. *)
Definition keeps_err {E A} (F : ledger -> Prop) (m : method ledger E A) : Prop :=
  forall l e, F l -> fst (m l) = Err e -> F (snd (m l)).

Lemma keeps_err_bind {E A B} (F : ledger -> Prop) (m : method ledger E A) (f : A -> method ledger E B) :
  keeps F m -> (forall a, keeps_err F (f a)) -> keeps_err F (m ≫= f).
Proof.
  intros Hm Hf l e Hl. unfold mbind, method_bind. specialize (Hm l Hl).
  destruct (m l) as [[a|e'] l1]; [by apply Hf|done].
Qed.

Lemma evaluation_withheld k auth key row : keeps (withheld k) (append_trust_evaluation auth key row).
Proof.
  apply keeps_bind; [by apply reads_keeps, reads_lift|intros ?]. apply keeps_txn.
  apply keeps_bind; [apply reads_keeps, require_active_reads|intros _].
  apply keeps_bind; [by apply reads_keeps|intros l0].
  apply keeps_bind; [apply reads_keeps, reads_refuse|intros _]. by intros [b e [] t] Hl.
Qed.

Lemma reevaluate_failed k auth action policies n :
  keeps_err (withheld k) (reevaluate_action auth action policies n).
Proof.
  apply keeps_err_bind; [by apply reads_keeps|intros l0].
  apply keeps_err_bind; [apply reads_keeps, reads_refuse|intros _].
  apply keeps_err_bind; [apply reads_keeps, reads_lift|intros policy].
  apply keeps_err_bind; [by apply keeps_trust, reads_keeps|intros keys].
  apply keeps_err_bind; [by apply keeps_trust, reads_keeps|intros [tier adverse]].
  destruct (verdict _ _ _ _) as [d state].
  apply keeps_err_bind;
    [case_bool_decide; [apply keeps_trust, quarantine_withheld|by apply reads_keeps]|intros _].
  apply keeps_err_bind; [by apply reads_keeps|intros l1].
  apply keeps_err_bind; [apply keeps_trust, evaluation_withheld|intros _]. by intros l e.
Qed.

(** A re-evaluation lifts only for the action it is about, and only on clean evidence. *)
Lemma reevaluate_withheld k auth action policies n l :
  withheld k l ->
  let l' := snd (reevaluate_action auth action policies n l) in
  withheld k l'
  \/ Pack.digest_key action = k /\ (observed l k).1.1 = false /\ (observed l k).1.2 <= 0
     /\ is_ok (fst (reevaluate_action auth action policies n l)) = true.
Proof.
  intros Hl. pose proof (reevaluate_failed k auth action policies n l) as Herr.
  pose proof (reevaluate_inv auth action policies n l) as Hinv.
  destruct (reevaluate_action auth action policies n l) as [[r|e] l1]; [|left; by eapply Herr].
  destruct (Hinv r l1 eq_refl) as (policy & state & l2 & _ & Hv & Hres & _ & _ & ->). cbn [snd fst is_ok].
  destruct (decide (Pack.digest_key action = k)) as [Hk|Hk].
  2: { left. apply put_disposition_withheld; [by left|]. by rewrite Hres. }
  destruct (decide (re_disposition r = SERVABLE_DISPOSITION)) as [Hs|Hs].
  2: { left. apply put_disposition_withheld; [by right|]. by rewrite Hres. }
  right. rewrite Hk in Hv. apply (f_equal fst) in Hv. rewrite verdict_disposition in Hv.
  cbn [fst] in Hv. rewrite Hs in Hv. destruct (observed l k).1.1; [discriminate|]. cbn [orb] in Hv.
  destruct (Z.ltb_spec 0 (observed l k).1.2); [discriminate|]. done.
Qed.

Lemma report_withheld k auth action report g a policies n :
  keeps (withheld k) (report_compromise auth action report g a policies n).
Proof.
  intros l Hl. unfold report_compromise. unmonad.
  case_bool_decide as Hdom; cbn [negb]; unmonad; [|done].
  unfold trust_call, published_manifest_key, published_manifest_key_str. cbn [fst snd].
  destruct (publications _ !! _) as [p|]; unfold ok_or; tidy; [|done].
  set (mk := Pack.digest_key (pub_manifest p)).
  pose proof (evidence_withheld k action mk report g a l Hl) as Hl1.
  assert (exists l1, append_evidence action mk report g a l = (Ok tt, l1)
            /\ reported l1 (Pack.digest_key action)) as (l1 & Heq & Hrep).
  { eexists. split; [done|]. exists (digest_bytes report). destruct l as [b e [] t]. cbn.
    rewrite or_ignore_lookup, Hdom. case_match; [by eauto|]. rewrite decide_True by done. eauto. }
  cbn [fmap option_fmap option_map]. fold mk. rewrite Heq in Hl1 |- *. cbn [snd] in Hl1. tidy.
  destruct (reevaluate_withheld k auth action policies n l1 Hl1) as [|(Hk & Hc & _)]; [done|].
  by rewrite <- Hk, (reported_compromised _ _ Hrep) in Hc.
Qed.

(** A committed result that is withheld stays withheld through every operation of the
    coordinator but three: a serving record for it at a revision above the stored one, a plain
    disposition write for it, and a re-evaluation of it whose evidence holds no report of
    compromise and no failed sample. *)
Theorem withheld_until_lifted k l l' row :
  step truth l l' -> is_Some (publications (results l) !! k) ->
  serving (results l) !! k = Some row -> disposition row <> SERVABLE_DISPOSITION ->
  withheld k l'
  \/ (exists auth n v refs,
        put_serving_record auth k SERVABLE_DISPOSITION n v refs l = (Ok tt, l') /\ state_revision row < n)
  \/ l' = snd (set_serving_disposition_key k SERVABLE_DISPOSITION l)
  \/ (exists auth action policies n r,
        Pack.digest_key action = k /\ reevaluate_action auth action policies n l = (Ok r, l')
        /\ (observed l k).1.1 = false /\ (observed l k).1.2 <= 0).
Proof.
  intros Hs Hpub Hrow Hd. assert (withheld k l) as Hl by (by exists row).
  destruct Hs as [r offer expected pin_id seq durability l Hr|key e p l|auth id key l|id l|id g w n l
    |id a n e l|id n e l|id l|auth p role path from to l|key c l|scope key why l|key d l
    |man n l|auth key d n v refs l|key a ok n l|auth key erow l|auth key policies n l
    |auth key report g a policies n l|key s o l|A m l].
  - left. by apply offer_withheld.
  - left. apply (withheld_same k l); [|done]. clear. revert l. untouched.
  - left. apply (withheld_same k l); [|done]. clear. revert l. untouched.
  - left. apply (withheld_same k l); [|done]. clear. revert l. untouched.
  - left. apply (withheld_same k l); [|done]. clear. revert l. untouched.
  - left. apply (withheld_same k l); [|done]. clear. revert l. untouched.
  - left. apply (withheld_same k l); [|done]. clear. revert l. untouched.
  - left. apply (withheld_same k l); [|done]. clear. revert l. untouched.
  - left. by apply adopt_withheld.
  - left. apply (withheld_same k l); [|done]. clear. revert l. untouched.
  - left. by apply quarantine_withheld.
  - destruct (decide (key = k)) as [->|Hne]; [|left; apply disposition_withheld; by auto].
    destruct (decide (d = SERVABLE_DISPOSITION)) as [->|]; [by auto|].
    left. apply disposition_withheld; by auto.
  - left. apply (withheld_same k l); [|done]. clear. revert l. untouched.
  - destruct (record_withheld k auth key d n v refs l row Hrow Hd) as [|(-> & -> & Hrev & Hok)]; [by auto|].
    right. left. exists auth, n, v, refs. split; [|done].
    destruct (put_serving_record _ _ _ _ _ _ l). cbn in *. by subst.
  - left. apply (withheld_same k l); [|done]. clear. revert l. untouched.
  - left. by apply evaluation_withheld.
  - destruct (reevaluate_withheld k auth key policies n l Hl) as [|(Hk & Hc & Ha & Hok)]; [by auto|].
    do 3 right. destruct (reevaluate_action auth key policies n l) as [[r|] l1] eqn:Hre; [|done].
    exists auth, key, policies, n, r. by split_and!.
  - left. by apply report_withheld.
  - left. apply (withheld_same k l); [|done]. clear. revert l. untouched.
  - left. by apply base_withheld.
Qed.

End evaluation.

(** ** The name of an evidence set *)

Section evidence_set.
Context {SHA : Type} `{Hasher SHA}.

Lemma dedup_elem ks x : x ∈ dedup ks <-> x ∈ ks.
Proof.
  induction ks as [|a [|b ks] IH]; [done|done|].
  change (dedup (a :: b :: ks)) with (if decide (a = b) then dedup (b :: ks) else a :: dedup (b :: ks)).
  destruct (decide (a = b)) as [->|]; [|set_solver]. rewrite IH. set_solver.
Qed.

Definition strictly (a b : text) : Prop := text_leb a b = true /\ a <> b.

Lemma dedup_strict ks :
  StronglySorted (fun a b => text_leb a b = true) ks -> StronglySorted strictly (dedup ks).
Proof.
  induction 1 as [|a ks Hs IH Ha]; [constructor|]. destruct ks as [|b ks]; [by repeat constructor|].
  change (dedup (a :: b :: ks)) with (if decide (a = b) then dedup (b :: ks) else a :: dedup (b :: ks)).
  destruct (decide (a = b)) as [->|Hne]; [done|]. constructor; [done|].
  apply Forall_forall. intros x Hx. apply (proj1 (dedup_elem _ _)) in Hx. rewrite Forall_forall in Ha.
  split; [exact (Ha x Hx)|].
  intros <-. apply StronglySorted_inv in Hs as [_ Hb]. rewrite Forall_forall in Hb.
  apply elem_of_cons in Hx as [->|Hx]; [done|].
  assert (text_leb a b = true) as Hab by (apply Ha; by left).
  specialize (Hb a Hx). unfold text_leb in Hab, Hb. rewrite (bytes_cmp_antisym a b) in Hb.
  revert Hab Hb. destruct (bytes_cmp a b) eqn:Hc; [|done|done]. intros _ _.
  by apply bytes_cmp_eq in Hc.
Qed.

Lemma strict_unique ks ks' :
  StronglySorted strictly ks -> StronglySorted strictly ks' ->
  (forall x, x ∈ ks <-> x ∈ ks') -> ks = ks'.
Proof.
  assert (forall a b, strictly a b -> strictly b a -> False) as Hanti.
  { intros a b [Hab Hne] [Hba _]. unfold text_leb in *. rewrite (bytes_cmp_antisym a b) in Hba.
    revert Hab Hba. destruct (bytes_cmp a b) eqn:Hc; [|done|done]. intros _ _.
    by apply bytes_cmp_eq in Hc. }
  assert (forall a, ~ strictly a a) as Hirr by (intros a [_ ?]; done).
  intros Hs. revert ks'. induction Hs as [|a ks Hs IH Ha]; intros ks' Hs' Heq.
  { destruct ks' as [|b ks']; [done|]. specialize (Heq b). set_solver. }
  destruct Hs' as [|b ks' Hs' Hb]; [specialize (Heq a); set_solver|].
  rewrite Forall_forall in Ha, Hb.
  assert (a = b) as ->.
  { destruct (proj1 (elem_of_cons _ _ _) (proj1 (Heq a) ltac:(left))) as [|Ha']; [done|].
    destruct (proj1 (elem_of_cons _ _ _) (proj2 (Heq b) ltac:(left))) as [|Hb']; [done|].
    destruct (Hanti a b); auto. }
  f_equal. apply IH; [done|]. intros x. specialize (Heq x). rewrite !elem_of_cons in Heq. split; intros Hx.
  - destruct (proj1 Heq (or_intror Hx)) as [->|]; [|done]. by destruct (Hirr b), (Ha b Hx).
  - destruct (proj2 Heq (or_intror Hx)) as [->|]; [|done]. by destruct (Hirr b), (Hb b Hx).
Qed.

(** An evidence set has one name: lists with the same keys, in any order and with any
    repetitions, have the same digest. *)
Theorem evidence_set_canonical ks ks' :
  (forall x, x ∈ ks <-> x ∈ ks') -> evidence_set_digest ks = evidence_set_digest ks'.
Proof.
  intros Heq. unfold evidence_set_digest.
  assert (dedup (sort_by text_leb ks) = dedup (sort_by text_leb ks')) as ->; [|done].
  apply strict_unique.
  - apply dedup_strict, sort_by_sorted; [apply text_leb_trans|apply text_leb_total].
  - apply dedup_strict, sort_by_sorted; [apply text_leb_trans|apply text_leb_total].
  - intros x. rewrite !dedup_elem, !sort_by_perm. apply Heq.
Qed.

End evidence_set.

(** ** The legality table *)

(** The dispositions a series of triggers leads through; a divergence quarantines. *)
Fixpoint dispositions (d : ActionServingDisposition) (ts : list ServingTransitionTrigger) :
    list ActionServingDisposition :=
  match ts with
  | [] => [d]
  | t :: ts =>
      d :: dispositions match evaluate d t with
                        | Apply d' => d'
                        | QuarantineWithDivergenceIncident => Serving.Quarantined
                        | Refuse _ => d
                        end ts
  end.

(** A quarantined action is never eligible again without a repair receipt, and an evicted one
    never changes. *)
Theorem quarantine_needs_receipt ts :
  (Eligible ∈ dispositions Serving.Quarantined ts -> exists receipt, QuarantineReleased (Some receipt) ∈ ts)
  /\ Forall (eq EvictedFromActiveIndex) (dispositions EvictedFromActiveIndex ts).
Proof.
  split.
  - induction ts as [|t ts IH]; cbn; [set_solver|]. intros [?|Hin]%elem_of_cons; [done|].
    destruct t as [| |[receipt|]| | | | | |]; cbn in Hin;
      try (destruct (IH Hin) as [receipt Hr]; exists receipt; by right).
    + exists receipt. by left.
    + exfalso. clear IH. induction ts as [|t ts IH]; cbn in Hin; [set_solver|]. set_solver.
  - induction ts as [|t ts IH]; cbn; [by repeat constructor|]. by constructor.
Qed.

(** ** The theorems at work *)

Import DigestSet.

Definition key7 : text := Pack.digest_key (Offers.an_action 7).

(** A serving record for the committed action: good for 500 microseconds from 1000. *)
Definition a_window : ServingValidity :=
  {| evaluated_at_unix_micros := 1000; maximum_age_micros := Some 500;
     clock_uncertainty_micros := 100; coordinator_clock_epoch := 1 |}.
Definition recorded : ledger :=
  snd (put_serving_record Offers.the_authority key7 SERVABLE_DISPOSITION 1 a_window [] Offers.after_b).

Lemma gate_serves_iff_witness : fst (serving_gate key7 1400 1 recorded) = Ok Servable.
Proof.
  apply (gate_serves_iff key7 1400 1 recorded
    {| disposition := SERVABLE_DISPOSITION; serving_version := 1; state_revision := 1;
       authority_key := Pack.digest_key Offers.the_authority; validity := a_window |}).
  - vm_compute. reflexivity.
  - split; cbn; [lia|lia|]. intros a [= <-]. unfold I64_MAX. lia.
  - unfold I64_MAX. lia.
  - split_and!; [done| |done|cbn; lia|intros a [= <-]; cbn; lia].
    intros scope subject. apply (proj1 (blocking_rows_nil recorded key7)). vm_compute. reflexivity.
Defined.

(** Two workers reproduce the action; a policy asks for that. *)
Definition a_policy : TrustPolicy :=
  {| policy_version := 1; revoked := false; required_tier := ReproducibleCrossWorker |}.
Definition sampled (l : ledger) : ledger :=
  snd (record_verification_sample (Offers.an_action 7) 21 true 2
    (snd (record_verification_sample (Offers.an_action 7) 20 true 1 l))).
Abbreviation reevaluate := (reevaluate_action (SHA := list Z) Offers.the_authority (Offers.an_action 7)).

Lemma ok_at {S E A} (p : result E A * S) : is_ok (fst p) = true -> exists a, p = (Ok a, snd p).
Proof. destruct p as [[a|] s]; [by exists a|done]. Qed.

Lemma reevaluate_spec_witness :
  exists (row : ServingRow) (entry : TrustEvaluationRow),
    serving (results (snd (reevaluate [a_policy] 30 (sampled Offers.after_b)))) !! key7 = Some row
    /\ latest_trust_evaluation (snd (reevaluate [a_policy] 30 (sampled Offers.after_b))) key7 = Some entry.
Proof.
  destruct (ok_at (reevaluate [a_policy] 30 (sampled Offers.after_b)) ltac:(vm_compute; reflexivity))
    as [r Hr].
  pose proof (reevaluate_spec (SHA := list Z) _ _ _ _ _ _ _ Hr) as Hs. cbn zeta in Hs. fold key7 in Hs.
  destruct (observed (sampled Offers.after_b) key7) as [[c a] t].
  destruct Hs as (policy & row & entry & _ & _ & _ & _ & Hrow & _ & _ & Hentry & _).
  exists row, entry. exact (conj Hrow Hentry).
Defined.

Definition a_report : TypedDigest := Offers.digest COMPROMISE_REPORT_DOMAIN 66.
Definition tainted : ledger :=
  snd (append_evidence (Offers.an_action 7) [] a_report 11 20 (sampled Offers.after_b)).

Lemma compromise_permanent_witness :
  fst (serving_gate key7 0 0 (snd (reevaluate [a_policy] 30 tainted)))
  = Ok (NotServable DISPOSITION_QUARANTINED).
Proof.
  destruct (ok_at (reevaluate [a_policy] 30 tainted) ltac:(vm_compute; reflexivity)) as [r Hr].
  refine (proj2 (compromise_permanent (SHA := list Z) Offers.shelf tainted tainted (Offers.an_action 7)
           Offers.the_authority [a_policy] 30 r _ 0 0 (rtc_refl _ _) _ Hr)).
  exists (digest_bytes a_report). vm_compute. eexists. reflexivity.
Defined.

(** Action 7 after its divergence: a sample does not lift it. *)
Lemma withheld_until_lifted_witness :
  exists row, serving (results Offers.after_a') !! key7 = Some row
    /\ (withheld key7 (snd (record_verification_sample (Offers.an_action 7) 20 true 1 Offers.after_a'))
        \/ state_revision row = 0).
Proof.
  exists (fresh_serving DISPOSITION_QUARANTINED). split; [vm_compute; reflexivity|].
  destruct (withheld_until_lifted (SHA := list Z) Offers.shelf key7 Offers.after_a'
    (snd (record_verification_sample (Offers.an_action 7) 20 true 1 Offers.after_a'))
    (fresh_serving DISPOSITION_QUARANTINED) (step_sample Offers.shelf _ _ _ _ _)
    ltac:(apply is_Some_alt; vm_compute; exact I) ltac:(vm_compute; reflexivity) ltac:(by intro)) as [Hw|_].
  - exact (or_introl Hw).
  - right. reflexivity.
Defined.

Lemma evidence_set_canonical_witness :
  evidence_set_digest (SHA := list Z) [[2]; [1]; [2]] = evidence_set_digest [[1]; [2]].
Proof. apply evidence_set_canonical. intros x. set_solver. Defined.

(** ** A divergence quarantine does not survive a re-evaluation

    After the divergence of action 7 (its incident open, its quarantine row in place) two
    passing samples are enough for a re-evaluation to make it servable again, with no repair
    receipt anywhere: the evaluation asks for reports and failed samples, not for quarantines. *)
Theorem reevaluation_lifts_divergence :
  let l := snd (reevaluate [a_policy] 30 (sampled Offers.after_a')) in
  fst (serving_gate key7 0 0 (sampled Offers.after_a')) = Ok (NotServable DISPOSITION_QUARANTINED)
  /\ quarantines (trouble l) !! ("action-entry"%string, key7)
     = Some (divergence_quarantine_reason SemanticDivergence)
  /\ is_Some (incidents (trouble l) !! (key7, 11))
  /\ fst (serving_gate key7 0 0 l) = Ok Servable.
Proof.
  split_and!; [by vm_compute|by vm_compute| |by vm_compute].
  apply is_Some_alt. vm_compute. exact I.
Qed.

(** ** Neither does the quarantine of an operator reset

    The pin of action 7 is lost; a reset quarantines the publication and serving is allowed
    again.  A re-evaluation of the action makes it servable, from the old lineage and with no
    pin under it, and the next start refuses to serve at all. *)
Definition unpinned : Startup.t :=
  {| Startup.tables := on_base (with_pins ∅) (sampled Offers.after_a); Startup.operator_resets := ∅ |}.
Definition after_reset : Startup.t := snd (Startup.apply_operator_reset 1 5 unpinned).
Definition after_trust : Startup.t :=
  {| Startup.tables := snd (reevaluate [a_policy] 30 (Startup.tables after_reset));
     Startup.operator_resets := Startup.operator_resets after_reset |}.
Definition all_files : Startup.FilesystemReality := {| Startup.fs_exists := fun _ => true; Startup.all_paths := [] |}.
Definition start (s : Startup.t) : result StoreError Startup.ServingDecision :=
  Startup.decision <$> fst (Startup.reconcile_startup all_files s).

Theorem reevaluation_lifts_reset :
  start unpinned = Ok (Startup.Refused [Startup.PublicationPinMissing key7])
  /\ start after_reset = Ok Startup.Allowed
  /\ fst (serving_gate key7 0 0 (Startup.tables after_reset)) = Ok (NotServable DISPOSITION_QUARANTINED)
  /\ fst (serving_gate key7 0 0 (Startup.tables after_trust)) = Ok Servable
  /\ start after_trust = Ok (Startup.Refused [Startup.PublicationPinMissing key7]).
Proof. split_and!; vm_compute; reflexivity. Qed.

End Trust.
