(* ===== verification/Resize.v ===== *)
(** * Managed pool size (rabs-scheduler/src/managed_pool.rs)

    The controller that resizes a worker pool only behind its evidence gate and
    rolls a resize back by itself when the tail latency regresses. *)

From stdpp Require Import base list strings.
From Stdlib Require Import ZArith Lia.
From S2P Require Import Prelude.

Module ManagedPool.

Definition MIN_STABLE_WINDOWS : Z := 6.
Definition MIN_EVIDENCE_SAMPLES : Z := 500.
Definition MIN_RESIZE_DELTA : Z := 2.
Definition MIN_WINDOWS_BETWEEN_RESIZES : Z := 12.
Definition ROLLBACK_REGRESSION_PERMILLE : Z := 150.

Record ObservationWindow := {
  samples : Z;          (* u64 *)
  tail_latency_ms : Z;  (* u64 *)
  stable : bool;
}.

Record ResizeProposal := { new_size : Z; replay_validated : bool }.

Inductive ResizeRefusal :=
  | NotOptedIn
  | InsufficientStableWindows (n : Z)
  | InsufficientEvidence (n : Z)
  | ReplayNotValidated
  | DeltaTooSmall (d : Z)
  | CooldownActive (n : Z).

Record Rollback := { from : Z; to : Z; regression_permille : Z }.

Record PoolController := {
  opted_in : bool;
  current_size : Z;          (* u32 *)
  previous_size : Z;         (* u32 *)
  baseline_tail_ms : Z;      (* u64 *)
  windows_since_resize : Z;  (* u32 *)
}.

Definition pool_new (opt : bool) (size baseline : Z) : PoolController :=
  {| opted_in := opt; current_size := size; previous_size := size;
     baseline_tail_ms := baseline; windows_since_resize := MIN_WINDOWS_BETWEEN_RESIZES |}.

(** [iter().sum::<u64>()]. *)
Definition sum_u64 (l : list Z) : Z := fold_left (wadd 64) l 0.

Definition propose (windows : list ObservationWindow) (proposal : ResizeProposal)
    : method PoolController ResizeRefusal Z := fun c =>
  if negb (opted_in c) then (Err NotOptedIn, c)
  else
    let stable_ws := List.filter stable windows in
    let stable_count := Z.min (Z.of_nat (length stable_ws)) U32_MAX in
    if stable_count <? MIN_STABLE_WINDOWS then (Err (InsufficientStableWindows stable_count), c)
    else
      let evidence := sum_u64 (samples <$> stable_ws) in
      if evidence <? MIN_EVIDENCE_SAMPLES then (Err (InsufficientEvidence evidence), c)
      else if negb (replay_validated proposal) then (Err ReplayNotValidated, c)
      else
        let delta := Z.abs (current_size c - new_size proposal) in
        if delta <? MIN_RESIZE_DELTA then (Err (DeltaTooSmall delta), c)
        else if windows_since_resize c <? MIN_WINDOWS_BETWEEN_RESIZES
        then (Err (CooldownActive (windows_since_resize c)), c)
        else
          (Ok (new_size proposal),
           {| opted_in := opted_in c;
              current_size := new_size proposal;
              previous_size := current_size c;
              baseline_tail_ms := sum_u64 (tail_latency_ms <$> stable_ws) / stable_count;
              windows_since_resize := 0 |}).

Definition observe (w : ObservationWindow) (c : PoolController) : option Rollback * PoolController :=
  let c1 := {| opted_in := opted_in c; current_size := current_size c;
               previous_size := previous_size c; baseline_tail_ms := baseline_tail_ms c;
               windows_since_resize := sat_add 32 (windows_since_resize c) 1 |} in
  if (current_size c1 =? previous_size c1) || (baseline_tail_ms c1 =? 0) then (None, c1)
  else
    let regression :=
      sat_mul 64 (sat_sub (tail_latency_ms w) (baseline_tail_ms c1)) 1000 / baseline_tail_ms c1 in
    if ROLLBACK_REGRESSION_PERMILLE <? regression then
      (Some {| from := current_size c1; to := previous_size c1;
               regression_permille := regression |},
       {| opted_in := opted_in c1; current_size := previous_size c1;
          previous_size := previous_size c1; baseline_tail_ms := baseline_tail_ms c1;
          windows_since_resize := 0 |})
    else (None, c1).

(** ** Histories *)

Inductive op :=
  | Propose (windows : list ObservationWindow) (proposal : ResizeProposal)
  | Observe (w : ObservationWindow).

(** What an operation did to the pool size. *)
Inductive effect := Quiet | Resized (size : Z) | RolledBack (r : Rollback).

Definition apply (o : op) (c : PoolController) : effect * PoolController :=
  match o with
  | Propose ws p =>
      match propose ws p c with
      | (Ok size, c') => (Resized size, c')
      | (Err _, c') => (Quiet, c')
      end
  | Observe w =>
      match observe w c with
      | (Some r, c') => (RolledBack r, c')
      | (None, c') => (Quiet, c')
      end
  end.

Fixpoint run (os : list op) (c : PoolController) : list effect * PoolController :=
  match os with
  | [] => ([], c)
  | o :: os => let '(e, c1) := apply o c in let '(es, c2) := run os c1 in (e :: es, c2)
  end.

Fixpoint observations (os : list op) : Z :=
  match os with
  | [] => 0
  | Observe _ :: os => 1 + observations os
  | Propose _ _ :: os => observations os
  end.

(** The gate, as one proposition. *)
Definition gate (windows : list ObservationWindow) (p : ResizeProposal) (c : PoolController) : Prop :=
  opted_in c = true
  /\ MIN_STABLE_WINDOWS <= Z.min (Z.of_nat (length (List.filter stable windows))) U32_MAX
  /\ MIN_EVIDENCE_SAMPLES <= sum_u64 (samples <$> List.filter stable windows)
  /\ replay_validated p = true
  /\ MIN_RESIZE_DELTA <= Z.abs (current_size c - new_size p)
  /\ MIN_WINDOWS_BETWEEN_RESIZES <= windows_since_resize c.

Lemma propose_gate ws p c :
  match propose ws p c with
  | (Ok size, c') => gate ws p c /\ size = new_size p /\ current_size c' = new_size p
      /\ previous_size c' = current_size c /\ windows_since_resize c' = 0
  | (Err _, c') => ~ gate ws p c /\ c' = c
  end.
Proof.
  unfold propose, gate. destruct (opted_in c); cbn [negb]; [|split; [intros (? & _)|]; done].
  destruct (Z.ltb_spec (Z.min (Z.of_nat (length (List.filter stable ws))) U32_MAX)
              MIN_STABLE_WINDOWS); [split; [lia|done]|].
  destruct (Z.ltb_spec (sum_u64 (samples <$> List.filter stable ws)) MIN_EVIDENCE_SAMPLES);
    [split; [lia|done]|].
  destruct (replay_validated p); cbn [negb]; [|split; [intros (? & ? & ? & ? & _)|]; done].
  destruct (Z.ltb_spec (Z.abs (current_size c - new_size p)) MIN_RESIZE_DELTA); [split; [lia|done]|].
  destruct (Z.ltb_spec (windows_since_resize c) MIN_WINDOWS_BETWEEN_RESIZES); [split; [lia|done]|].
  split_and!; done.
Qed.

(** The gate has no bypass: a proposal is applied exactly when the operator
    opted in, there are enough stable windows and samples, the replay validated it,
    it is large enough and the cooldown is over; a refusal changes nothing. *)
Theorem resize_iff_gate ws p c :
  (is_ok (fst (propose ws p c)) = true <-> gate ws p c)
  /\ (is_ok (fst (propose ws p c)) = false -> snd (propose ws p c) = c).
Proof.
  pose proof (propose_gate ws p c) as H. destruct (propose ws p c) as [[size|e] c']; cbn.
  - destruct H as (? & _). split; [split; done|done].
  - destruct H as [? ->]. split; [split; done|done].
Qed.

Lemma apply_windows o c :
  0 <= windows_since_resize c ->
  0 <= windows_since_resize (snd (apply o c)) <= windows_since_resize c + observations [o].
Proof.
  intros Hw. destruct o as [ws p|w]; cbn [apply observations].
  - pose proof (propose_gate ws p c) as H. destruct (propose ws p c) as [[size|e] c']; cbn.
    + destruct H as (_ & _ & _ & _ & ->). lia.
    + destruct H as [_ ->]. lia.
  - unfold observe. cbn. unfold sat_add. repeat case_match; simplify_eq/=; lia.
Qed.

Lemma run_windows os c :
  0 <= windows_since_resize c ->
  0 <= windows_since_resize (snd (run os c)) <= windows_since_resize c + observations os.
Proof.
  revert c. induction os as [|o os IH]; intros c Hw; cbn [run]; [cbn; lia|].
  pose proof (apply_windows o c Hw) as Ho. destruct (apply o c) as [e c1]. cbn [snd] in Ho.
  specialize (IH c1 ltac:(lia)). destruct (run os c1) as [es c2]. cbn [snd] in *.
  destruct o; cbn [observations] in *; lia.
Qed.

(** The cooldown holds: after an applied resize (or a rollback, which restarts
    the cooldown too) no further proposal is applied until twelve more windows have
    been observed, whatever was proposed in between. *)
Theorem resize_cooldown o os ws p c :
  0 <= windows_since_resize c ->
  let '(e, c1) := apply o c in
  e <> Quiet -> is_ok (fst (propose ws p (snd (run os c1)))) = true ->
  MIN_WINDOWS_BETWEEN_RESIZES <= observations os.
Proof.
  intros Hw. destruct (apply o c) as [e c1] eqn:Ho. intros He Hok.
  assert (windows_since_resize c1 = 0) as H0.
  { destruct o as [ws' p'|w]; cbn in Ho.
    - pose proof (propose_gate ws' p' c) as H.
      destruct (propose ws' p' c) as [[size|err] c']; simplify_eq. tauto.
    - unfold observe in Ho. cbn in Ho. repeat case_match; simplify_eq/=; done. }
  pose proof (run_windows os c1 ltac:(lia)) as Hr.
  pose proof (propose_gate ws p (snd (run os c1))) as H.
  destruct (propose ws p (snd (run os c1))) as [[size|err] c']; [|done].
  destruct H as [(_ & _ & _ & _ & _ & ?) _]. lia.
Qed.

(** A rollback restores the size in use before the resize, is triggered exactly
    by a tail latency at least 151 permille over the recorded baseline (the
    regression is rounded down before it is compared with 150), and cannot
    repeat: after it the controller has nothing left to roll back to. *)
Theorem rollback_restores w c :
  0 < baseline_tail_ms c -> 0 <= tail_latency_ms w < 2 ^ 64 / 1000 ->
  let '(r, c') := observe w c in
  (is_Some r <-> current_size c <> previous_size c
                 /\ 1151 * baseline_tail_ms c <= 1000 * tail_latency_ms w)
  /\ (forall rb, r = Some rb ->
        from rb = current_size c /\ to rb = previous_size c
        /\ current_size c' = previous_size c
        /\ forall w', fst (observe w' c') = None)
  /\ (r = None -> current_size c' = current_size c /\ previous_size c' = previous_size c).
Proof.
  intros Hb Hl. unfold observe. cbn.
  destruct (Z.eqb_spec (current_size c) (previous_size c)) as [He|He]; cbn [orb].
  { split_and!; try done. split; [by intros []|tauto]. }
  destruct (Z.eqb_spec (baseline_tail_ms c) 0); [lia|].
  set (reg := sat_mul 64 (sat_sub (tail_latency_ms w) (baseline_tail_ms c)) 1000 / baseline_tail_ms c).
  assert (150 < reg <-> 1151 * baseline_tail_ms c <= 1000 * tail_latency_ms w) as Hreg.
  { unfold reg, sat_mul, sat_sub.
    assert (2 ^ 64 / 1000 = 18446744073709551) as Hq by reflexivity. rewrite Hq in Hl.
    rewrite Z.min_l by lia.
    set (excess := Z.max 0 (tail_latency_ms w - baseline_tail_ms c) * 1000).
    pose proof (Z.mul_div_le excess (baseline_tail_ms c) Hb).
    split; intros Hlt.
    - assert (151 * baseline_tail_ms c <= excess) by nia. lia.
    - apply Z.lt_le_trans with 151; [lia|]. apply Z.div_le_lower_bound; lia. }
  unfold ROLLBACK_REGRESSION_PERMILLE. destruct (Z.ltb_spec 150 reg) as [Hlt|Hge].
  - split_and!; [|intros rb [= <-]|done].
    + split; [intros _; split; [done|by apply Hreg]|eauto].
    + cbn. split_and!; try done. intros w'. by rewrite Z.eqb_refl.
  - split_and!; try done. split; [by intros []|]. intros [_ ?%Hreg]. lia.
Qed.

Definition busy_window (tail : Z) : ObservationWindow :=
  {| samples := 100; tail_latency_ms := tail; stable := true |}.

Definition validated (size : Z) : ResizeProposal := {| new_size := size; replay_validated := true |}.

(** A pool resized from 8 to 12 workers on six windows of 100 ms. *)
Definition resized_pool : PoolController :=
  snd (propose (replicate 6 (busy_window 100)) (validated 12) (pool_new true 8 0)).

Lemma resize_cooldown_witness :
  MIN_WINDOWS_BETWEEN_RESIZES <= observations (replicate 12 (Observe (busy_window 100))).
Proof.
  apply (resize_cooldown (Propose (replicate 6 (busy_window 100)) (validated 12))
           (replicate 12 (Observe (busy_window 100))) (replicate 6 (busy_window 100))
           (validated 16) (pool_new true 8 0)).
  - vm_compute. discriminate.
  - vm_compute. discriminate.
  - vm_compute. reflexivity.
Defined.

Lemma rollback_restores_witness :
  current_size resized_pool = 12 /\ is_Some (fst (observe (busy_window 116) resized_pool)).
Proof.
  split; [vm_compute; reflexivity|].
  pose proof (rollback_restores (busy_window 116) resized_pool) as H.
  specialize (H ltac:(vm_compute; reflexivity)
                ltac:(vm_compute; split; [discriminate|reflexivity])).
  destruct (observe (busy_window 116) resized_pool) as [r c']. destruct H as [[_ H] _].
  apply H. split; vm_compute; discriminate.
Defined.

End ManagedPool.
