(* ===== verification/Fairness.v ===== *)
(** * Weighted fair queue (rabs-scheduler/src/fairness.rs)

    Tenants share the dequeue order by weighted virtual time, with a deadline
    override and a starvation bound that comes before both. *)

From stdpp Require Import base list strings.
From Stdlib Require Import ZArith Lia.
From S2P Require Import Prelude.

Module Fairness.

Record TenantKey := { agent : string; project : string; ci : bool }.

#[export] Instance TenantKey_eq_dec : EqDecision TenantKey.
Proof. solve_decision. Defined.

Record FairItem := {
  tenant : TenantKey;
  label : string;
  cost : Z;              (* u64 *)
  enqueued_at : Z;       (* u64 *)
  deadline : option Z;   (* u64 *)
  virtual_finish : Z;    (* u64 *)
}.

Record FairQueue := {
  items : list FairItem;
  weights : list (TenantKey * Z);
  virtual_time : list (TenantKey * Z);
  last_stamped : list (TenantKey * Z);
  starvation_bound : Z;  (* u64 *)
  deadline_window : Z;   (* u64 *)
}.

Definition queue_new (bound window : Z) : FairQueue :=
  {| items := []; weights := []; virtual_time := []; last_stamped := [];
     starvation_bound := bound; deadline_window := window |}.

(** [iter().find(|(t, _)| t == tenant).map_or(default, |(_, v)| *v)]. *)
Definition lookup_or (default : Z) (t : TenantKey) (l : list (TenantKey * Z)) : Z :=
  match find (fun p => bool_decide (fst p = t)) l with Some (_, v) => v | None => default end.

(** [iter_mut().find(..)]: overwrite the first entry or push one. *)
Fixpoint assign_first (t : TenantKey) (v : Z) (l : list (TenantKey * Z)) : list (TenantKey * Z) :=
  match l with
  | [] => [(t, v)]
  | (t', v') :: l => if decide (t' = t) then (t', v) :: l else (t', v') :: assign_first t v l
  end.

Definition set_weight (t : TenantKey) (weight : Z) (q : FairQueue) : FairQueue :=
  {| items := items q; weights := weights q ++ [(t, Z.max weight 1)];
     virtual_time := virtual_time q; last_stamped := last_stamped q;
     starvation_bound := starvation_bound q; deadline_window := deadline_window q |}.

Definition weight_of (t : TenantKey) (q : FairQueue) : Z := lookup_or 1 t (weights q).
Definition virtual_time_of (t : TenantKey) (q : FairQueue) : Z := lookup_or 0 t (virtual_time q).

Definition enqueue (t : TenantKey) (lbl : string) (c now : Z) (due : option Z) (q : FairQueue)
    : FairQueue :=
  let stamped := lookup_or 0 t (last_stamped q) in
  let start := Z.max (virtual_time_of t q) stamped in
  let finish := wadd 64 start (c / weight_of t q) in
  {| items := items q ++ [{| tenant := t; label := lbl; cost := c; enqueued_at := now;
                             deadline := due; virtual_finish := finish |}];
     weights := weights q; virtual_time := virtual_time q;
     last_stamped := assign_first t finish (last_stamped q);
     starvation_bound := starvation_bound q; deadline_window := deadline_window q |}.

(** [filter(sel).min_by_key(key)] with positions: the first of the least. *)
Fixpoint first_min {A} (sel : A -> bool) (ltb : A -> A -> bool) (pos : nat) (best : option (nat * A))
    (l : list A) : option (nat * A) :=
  match l with
  | [] => best
  | x :: l =>
      let best' :=
        if sel x then
          match best with
          | Some (_, y) => if ltb x y then Some (pos, x) else best
          | None => Some (pos, x)
          end
        else best in
      first_min sel ltb (S pos) best' l
  end.

Definition min_pos {A} (sel : A -> bool) (ltb : A -> A -> bool) (l : list A) : option nat :=
  fst <$> first_min sel ltb 0 None l.

Definition overdue (bound now : Z) (i : FairItem) : bool := bound <? sat_sub now (enqueued_at i).

Definition starved (now : Z) (q : FairQueue) : option nat :=
  min_pos (overdue (starvation_bound q) now)
    (fun a b => enqueued_at a <? enqueued_at b) (items q).

(** Derived order of [Option<u64>]: [None] is least. *)
Definition opt_ltb (a b : option Z) : bool :=
  match a, b with
  | None, Some _ => true
  | Some x, Some y => x <? y
  | _, None => false
  end.

Definition urgent (now : Z) (q : FairQueue) : option nat :=
  match starved now q with
  | Some p => Some p
  | None =>
      min_pos (fun i => match deadline i with
                        | Some d => sat_sub d now <=? deadline_window q
                        | None => false
                        end)
        (fun a b => opt_ltb (deadline a) (deadline b)) (items q)
  end.

Definition fair_ltb (a b : FairItem) : bool :=
  (virtual_finish a <? virtual_finish b)
  || (virtual_finish a =? virtual_finish b) && (enqueued_at a <? enqueued_at b).

Definition pick (now : Z) (q : FairQueue) : option nat :=
  match urgent now q with
  | Some p => Some p
  | None => min_pos (fun _ => true) fair_ltb (items q)
  end.

Definition dequeue (now : Z) (q : FairQueue) : option FairItem * FairQueue :=
  match pick now q with
  | None => (None, q)
  | Some pos =>
      match items q !! pos with
      | None => (None, q)
      | Some item =>
          let new_vt := Z.max (Z.max (virtual_time_of (tenant item) q) (virtual_finish item))
                          (cost item / weight_of (tenant item) q) in
          (Some item,
           {| items := delete pos (items q); weights := weights q;
              virtual_time := assign_first (tenant item) new_vt (virtual_time q);
              last_stamped := last_stamped q;
              starvation_bound := starvation_bound q; deadline_window := deadline_window q |})
      end
  end.

(** ** Selection *)

Section first_min.
Context {A : Type} (sel : A -> bool) (ltb : A -> A -> bool).
Context (ltb_irrefl : forall x, ltb x x = false).
Context (ltb_trans : forall x y z, ltb x y = true -> ltb y z = true -> ltb x z = true).

(** [best] is a selected element of [pre] that nothing selected there precedes. *)
Definition best_in (pre : list A) (best : option (nat * A)) : Prop :=
  match best with
  | Some (p, x) => pre !! p = Some x /\ sel x = true
      /\ forall y, y ∈ pre -> sel y = true -> ltb y x = false
  | None => forall y, y ∈ pre -> sel y = false
  end.

Lemma first_min_best pre l best :
  best_in pre best -> best_in (pre ++ l) (first_min sel ltb (length pre) best l).
Proof.
  revert pre best. induction l as [|x l IH]; intros pre best Hb; cbn [first_min].
  { by rewrite app_nil_r. }
  replace (pre ++ x :: l) with ((pre ++ [x]) ++ l) by (by rewrite <- app_assoc).
  replace (S (length pre)) with (length (pre ++ [x])) by (rewrite length_app; cbn; lia).
  apply IH. clear IH.
  assert ((pre ++ [x]) !! length pre = Some x) as Hx by (by apply list_lookup_middle).
  destruct (sel x) eqn:Hs.
  - destruct best as [[p y]|]; cbn in Hb.
    + destruct Hb as (Hp & Hsy & Hmin). destruct (ltb x y) eqn:Hxy; cbn.
      * split_and!; [done|done|]. intros z [Hz|Hz%list_elem_of_singleton]%elem_of_app Hsz;
          [|subst; apply ltb_irrefl].
        destruct (ltb z x) eqn:Hzx; [|done].
        pose proof (ltb_trans z x y Hzx Hxy). rewrite (Hmin z Hz Hsz) in *. done.
      * split_and!; [by apply lookup_app_l_Some|done|].
        intros z [Hz|Hz%list_elem_of_singleton]%elem_of_app Hsz; [auto|by subst].
    + split_and!; [done|done|]. intros z [Hz|Hz%list_elem_of_singleton]%elem_of_app Hsz.
      * rewrite (Hb z Hz) in Hsz. done.
      * subst. apply ltb_irrefl.
  - destruct best as [[p y]|]; cbn in Hb |- *.
    + destruct Hb as (Hp & Hsy & Hmin). split_and!; [by apply lookup_app_l_Some|done|].
      intros z [Hz|Hz%list_elem_of_singleton]%elem_of_app Hsz; [auto|]. subst. congruence.
    + intros z [Hz|Hz%list_elem_of_singleton]%elem_of_app; [auto|by subst].
Qed.

Lemma min_pos_spec l :
  match min_pos sel ltb l with
  | Some p => exists x, l !! p = Some x /\ sel x = true
      /\ forall y, y ∈ l -> sel y = true -> ltb y x = false
  | None => forall y, y ∈ l -> sel y = false
  end.
Proof.
  pose proof (first_min_best [] l None) as H. cbn [length app] in H.
  unfold min_pos. destruct (first_min sel ltb 0 None l) as [[p x]|]; cbn in *.
  - exists x. apply H. intros y Hy. by apply elem_of_nil in Hy.
  - apply H. intros y Hy. by apply elem_of_nil in Hy.
Qed.
End first_min.

Lemma starved_spec now q :
  match starved now q with
  | Some p => exists x, items q !! p = Some x /\ overdue (starvation_bound q) now x = true
      /\ forall y, y ∈ items q -> overdue (starvation_bound q) now y = true ->
           enqueued_at x <= enqueued_at y
  | None => forall y, y ∈ items q -> overdue (starvation_bound q) now y = false
  end.
Proof.
  unfold starved.
  pose proof (min_pos_spec (overdue (starvation_bound q) now)
                (fun a b => enqueued_at a <? enqueued_at b)
                ltac:(cbn; intros; lia) ltac:(cbn; intros; lia) (items q)) as H.
  destruct (min_pos _ _ _) as [p|]; [|done]. destruct H as (x & ? & ? & Hmin).
  exists x. split_and!; [done..|]. intros y Hy Ho. specialize (Hmin y Hy Ho). lia.
Qed.

Lemma fair_ltb_irrefl x : fair_ltb x x = false.
Proof. unfold fair_ltb. lia. Qed.

Lemma fair_ltb_trans x y z : fair_ltb x y = true -> fair_ltb y z = true -> fair_ltb x z = true.
Proof. unfold fair_ltb. lia. Qed.

Lemma min_pos_nonempty {A} (ltb : A -> A -> bool) (l : list A) :
  l <> [] -> min_pos (fun _ => true) ltb l <> None.
Proof.
  assert (forall pos best l, best <> None -> first_min (fun _ => true) ltb pos best l <> None) as Hg.
  { intros pos best l'. revert pos best. induction l' as [|x l' IH]; intros pos best Hb; cbn; [done|].
    apply IH. destruct best as [[? y]|]; [|done]. by destruct (ltb x y). }
  intros Hl. destruct l as [|x l]; [done|]. unfold min_pos. cbn.
  pose proof (Hg 1%nat (Some (0%nat, x)) l ltac:(done)).
  by destruct (first_min (fun _ => true) ltb 1 (Some (0%nat, x)) l).
Qed.

Lemma min_pos_bound {A} (sel : A -> bool) ltb (l : list A) p :
  min_pos sel ltb l = Some p -> is_Some (l !! p).
Proof.
  assert (forall pre best, match best with Some (q, _) => (q < length pre)%nat | None => True end ->
    match first_min sel ltb (length pre) best l with
    | Some (q, _) => (q < length (pre ++ l))%nat | None => True end) as Hg.
  { induction l as [|x l IH]; intros pre best Hb; cbn.
    - by rewrite app_nil_r.
    - replace (pre ++ x :: l) with ((pre ++ [x]) ++ l) by (by rewrite <- app_assoc).
      replace (S (length pre)) with (length (pre ++ [x])) by (rewrite length_app; cbn; lia).
      apply IH. rewrite length_app. cbn.
      destruct (sel x), best as [[q y]|]; try destruct (ltb x y); lia. }
  specialize (Hg [] None I). cbn in Hg. unfold min_pos.
  destruct (first_min sel ltb 0 None l) as [[q y]|]; cbn; [|done]. intros [= <-].
  by apply lookup_lt_is_Some.
Qed.

Lemma pick_bound now q p : pick now q = Some p -> is_Some (items q !! p).
Proof.
  unfold pick, urgent, starved. repeat case_match; intros; simplify_eq; by eapply min_pos_bound.
Qed.

Lemma dequeue_cases now q :
  match dequeue now q with
  | (None, q') => q' = q /\ items q = []
  | (Some x, q') => items q ≡ₚ x :: items q' /\ starvation_bound q' = starvation_bound q
      /\ exists p, pick now q = Some p /\ items q !! p = Some x
  end.
Proof.
  unfold dequeue. destruct (pick now q) as [p|] eqn:Hp.
  - destruct (pick_bound _ _ _ Hp) as [x Hx]. rewrite Hx. cbn. split_and!; [|done|eauto].
    by apply delete_Permutation.
  - split; [done|]. unfold pick in Hp. destruct (urgent now q); [done|].
    destruct (items q) eqn:Hi; [done|]. by apply min_pos_nonempty in Hp.
Qed.

(** ** Histories of the queue *)

Inductive qop :=
  | Enqueue (t : TenantKey) (lbl : string) (c now : Z) (due : option Z)
  | Dequeue (now : Z).

Definition op_time (o : qop) : Z := match o with Enqueue _ _ _ now _ => now | Dequeue now => now end.

(** The items handed out, in order, and the queue left behind. *)
Fixpoint run (os : list qop) (q : FairQueue) : list FairItem * FairQueue :=
  match os with
  | [] => ([], q)
  | Enqueue t lbl c now due :: os => run os (enqueue t lbl c now due q)
  | Dequeue now :: os =>
      let '(x, q1) := dequeue now q in
      let '(xs, q2) := run os q1 in
      (match x with Some x => x :: xs | None => xs end, q2)
  end.

Fixpoint dequeues (os : list qop) : nat :=
  match os with
  | [] => 0%nat
  | Dequeue _ :: os => S (dequeues os)
  | Enqueue _ _ _ _ _ :: os => dequeues os
  end.

(** The items that were enqueued at tick [e] or before. *)
Definition pending (e : Z) (l : list FairItem) : list FairItem :=
  List.filter (fun i => enqueued_at i <=? e) l.

#[local] Instance pending_proper e : Proper (Permutation ==> Permutation) (pending e).
Proof.
  intros l1 l2 Hp. unfold pending. induction Hp; cbn; repeat case_match; try done.
  - by constructor.
  - by constructor.
  - etransitivity; eauto.
Qed.

(** While an item of tick [e] is over the bound, only items at least as old go. *)
Lemma dequeue_oldest e now q :
  starvation_bound q < now - e -> 0 <= starvation_bound q -> pending e (items q) <> [] ->
  exists x q', dequeue now q = (Some x, q') /\ pending e (items q) ≡ₚ x :: pending e (items q')
    /\ starvation_bound q' = starvation_bound q.
Proof.
  intros Hb H0 Hne. pose proof (dequeue_cases now q) as Hd.
  destruct (pending e (items q)) as [|y l] eqn:Hpend; [done|]. rewrite <- Hpend. clear Hne.
  assert (y ∈ items q /\ enqueued_at y <= e) as [Hy Hye].
  { assert (y ∈ pending e (items q)) as Hin by (rewrite Hpend; constructor).
    unfold pending in Hin. rewrite list_elem_of_In, List.filter_In, <- list_elem_of_In in Hin.
    destruct Hin. split; [done|lia]. }
  destruct (dequeue now q) as [[x|] q'].
  2: { destruct Hd as [_ Hnil]. rewrite Hnil in Hy. by apply elem_of_nil in Hy. }
  destruct Hd as (Hperm & Hsb & p & Hp & Hx). exists x, q'. split; [done|]. split; [|done].
  assert (enqueued_at x <= e) as Hxe.
  { unfold pick, urgent in Hp. pose proof (starved_spec now q) as Hs.
    destruct (starved now q) as [p'|].
    - injection Hp as ->. destruct Hs as (x' & Hx' & _ & Hmin). rewrite Hx in Hx'.
      injection Hx' as <-. specialize (Hmin y Hy). unfold overdue, sat_sub in Hmin.
      specialize (Hmin ltac:(lia)). lia.
    - specialize (Hs y Hy). unfold overdue, sat_sub in Hs. lia. }
  rewrite Hperm at 1. cbn. by destruct (Z.leb_spec (enqueued_at x) e); [|lia].
Qed.

Lemma no_starvation_ok e t0 os q :
  starvation_bound q < t0 - e -> 0 <= starvation_bound q ->
  Forall (fun o => t0 <= op_time o) os ->
  (length (pending e (items q)) <= dequeues os)%nat ->
  pending e (items (snd (run os q))) = []
  /\ take (length (pending e (items q))) (fst (run os q)) ≡ₚ pending e (items q).
Proof.
  intros Hb H0. revert q Hb H0. induction os as [|[t lbl c now due|now] os IH];
    intros q Hb H0 Ht Hd; cbn [run dequeues fst snd] in *.
  - destruct (pending e (items q)); [done|cbn in Hd; lia].
  - apply Forall_cons_1 in Ht as [Hn Ht]. cbn in Hn.
    assert (pending e (items (enqueue t lbl c now due q)) = pending e (items q)) as Heq.
    { unfold enqueue, pending. cbn. rewrite List.filter_app. cbn.
      destruct (Z.leb_spec now e); [lia|]. by rewrite app_nil_r. }
    rewrite <- Heq. apply IH; [done..|]. by rewrite Heq.
  - apply Forall_cons_1 in Ht as [Hn Ht]. cbn in Hn.
    destruct (decide (pending e (items q) = [])) as [Hnil|Hne].
    + pose proof (dequeue_cases now q) as Hdc. destruct (dequeue now q) as [[x|] q'].
      * destruct Hdc as (Hperm & Hsb & _).
        assert (pending e (items q') = []) as Hnil'.
        { assert (pending e (x :: items q') ≡ₚ []) as Hp by (by rewrite <- Hperm, Hnil).
          apply Permutation_nil_r in Hp. cbn in Hp. by destruct (_ <=? _). }
        destruct (IH q') as [Hr _]; [lia|lia|done|rewrite Hnil'; cbn; lia|].
        destruct (run os q') as [xs q2]. cbn [fst snd] in *. by rewrite Hnil.
      * destruct Hdc as [-> _]. destruct (IH q) as [Hr _]; [done..|rewrite Hnil; cbn; lia|].
        destruct (run os q) as [xs q2]. cbn [fst snd] in *. by rewrite Hnil.
    + destruct (dequeue_oldest e now q) as (x & q' & -> & Hperm & Hsb); [lia|done|done|].
      pose proof (Permutation_length Hperm) as Hlen. cbn in Hlen.
      destruct (IH q') as [Hr Htake]; [lia|lia|done|lia|].
      destruct (run os q') as [xs q2]. cbn [fst snd] in *. split; [done|].
      rewrite Hlen. cbn [take]. rewrite Htake. by symmetry.
Qed.

(** C40: nobody starves.  Once the items enqueued at tick [e] or before have waited
    longer than the bound, the very next dequeues hand out exactly those items, one
    per dequeue, whatever is enqueued in between and with whatever costs, weights
    and deadlines: after as many dequeues as there are such items none is left. *)
Theorem no_starvation e t0 os q :
  starvation_bound q < t0 - e -> 0 <= starvation_bound q ->
  Forall (fun o => t0 <= op_time o) os ->
  (length (pending e (items q)) <= dequeues os)%nat ->
  pending e (items (snd (run os q))) = []
  /\ take (length (pending e (items q))) (fst (run os q)) ≡ₚ pending e (items q).
Proof. apply no_starvation_ok. Qed.

Definition sample_tenant (a : string) : TenantKey := {| agent := a; project := "p"; ci := false |}.

(** One old cheap item behind a rush of heavily weighted urgent ones. *)
Definition rush : FairQueue :=
  enqueue (sample_tenant "b") "urgent" 1 90 (Some 100)
    (enqueue (sample_tenant "a") "old" 1000 0 None
       (set_weight (sample_tenant "b") 100 (queue_new 50 10))).

Lemma no_starvation_witness :
  pending 0 (items (snd (run [Enqueue (sample_tenant "b") "more" 1 95 (Some 96); Dequeue 96] rush))) = [].
Proof.
  apply (no_starvation 0 95 [Enqueue (sample_tenant "b") "more" 1 95 (Some 96); Dequeue 96] rush).
  - vm_compute. reflexivity.
  - vm_compute. discriminate.
  - repeat constructor; vm_compute; discriminate.
  - vm_compute. lia.
Defined.

(** An item leaves the queue once, and below the overrides the order is fair:
    a dequeue removes exactly the item it returns, returns nothing only from an
    empty queue, and when no item is overdue or due within the window it returns
    one whose virtual finish no other item precedes. *)
Theorem dequeue_fair now q :
  match dequeue now q with
  | (None, q') => q' = q /\ items q = []
  | (Some x, q') =>
      items q ≡ₚ x :: items q'
      /\ (urgent now q = None -> forall y, y ∈ items q ->
            virtual_finish x < virtual_finish y
            \/ virtual_finish x = virtual_finish y /\ enqueued_at x <= enqueued_at y)
  end.
Proof.
  pose proof (dequeue_cases now q) as H. destruct (dequeue now q) as [[x|] q']; [|done].
  destruct H as (Hp & _ & p & Hpick & Hx). split; [done|]. intros Hu y Hy.
  unfold pick in Hpick. rewrite Hu in Hpick.
  pose proof (min_pos_spec (fun _ => true) fair_ltb fair_ltb_irrefl fair_ltb_trans (items q)) as Hm.
  rewrite Hpick in Hm. destruct Hm as (x' & Hx' & _ & Hmin). simplify_eq.
  specialize (Hmin y Hy eq_refl). unfold fair_ltb in Hmin. lia.
Qed.

Lemma lookup_or_snoc d t v l :
  lookup_or d t (l ++ [(t, v)]) = (if bool_decide (t ∈ l.*1) then lookup_or d t l else v).
Proof.
  unfold lookup_or. induction l as [|[t' v'] l IH]; cbn.
  - rewrite bool_decide_eq_true_2 by done. by rewrite bool_decide_eq_false_2 by apply not_elem_of_nil.
  - destruct (decide (t' = t)) as [->|Ht].
    + rewrite !(bool_decide_eq_true_2 (t = t)) by done.
      by rewrite bool_decide_eq_true_2 by constructor.
    + rewrite !(bool_decide_eq_false_2 (t' = t)) by done. rewrite IH.
      rewrite (bool_decide_ext (t ∈ t' :: l.*1) (t ∈ l.*1)); [done|].
      rewrite elem_of_cons. naive_solver.
Qed.

(** A tenant's weight cannot be changed: the first [set_weight] of a tenant
    takes effect and every later one is ignored, because entries are appended and
    the lookup takes the first. *)
Theorem later_weight_ignored t w1 w2 q :
  weight_of t (set_weight t w2 (set_weight t w1 q)) = weight_of t (set_weight t w1 q).
Proof.
  unfold weight_of at 1, set_weight at 1. cbn [weights]. rewrite lookup_or_snoc.
  rewrite bool_decide_eq_true_2; [done|]. cbn. rewrite fmap_app. apply elem_of_app. right. constructor.
Qed.

End Fairness.
