(* ===== verification/Acquisition.v ===== *)
(** * Acquisition order (rabs-scheduler/src/acquisition_order.rs)

    The ladder a build climbs before it runs, which keeps compiler tokens and bulk
    transfers apart. *)

From stdpp Require Import base list strings.
From Stdlib Require Import ZArith Lia.
From S2P Require Import Prelude.

Module Acquisition.

Inductive AcquisitionState := Planned | InputsReady | DiskReserved | TokenHeld | Executing.

#[export] Instance AcquisitionState_eq_dec : EqDecision AcquisitionState.
Proof. solve_decision. Defined.

Record AcquisitionStats := {
  transfers : Z;                   (* u64 *)
  tokens_acquired : Z;             (* u64 *)
  token_held_during_transfer : Z;  (* u64 *)
}.

Inductive OrderingViolation :=
  | TransferWhileTokenHeld | TokenBeforeInputsReady | TokenBeforeDiskReserved | ExecuteWithoutToken.

Record AcquisitionPipeline := { state : AcquisitionState; stats : AcquisitionStats }.

Definition default_pipeline : AcquisitionPipeline :=
  {| state := Planned;
     stats := {| transfers := 0; tokens_acquired := 0; token_held_during_transfer := 0 |} |}.

Abbreviation op := (method AcquisitionPipeline OrderingViolation unit).

Definition bulk_transfer : op := fun p =>
  let st := stats p in
  let moved := {| transfers := wadd 64 (transfers st) 1; tokens_acquired := tokens_acquired st;
                  token_held_during_transfer := token_held_during_transfer st |} in
  match state p with
  | Planned => (Ok tt, {| state := Planned; stats := moved |})
  | TokenHeld | Executing =>
      (Err TransferWhileTokenHeld,
       {| state := state p;
          stats := {| transfers := transfers st; tokens_acquired := tokens_acquired st;
                      token_held_during_transfer := wadd 64 (token_held_during_transfer st) 1 |} |})
  | InputsReady | DiskReserved => (Ok tt, {| state := Planned; stats := moved |})
  end.

Definition inputs_ready (p : AcquisitionPipeline) : AcquisitionPipeline :=
  if decide (state p = Planned) then {| state := InputsReady; stats := stats p |} else p.

Definition reserve_disk (p : AcquisitionPipeline) : AcquisitionPipeline :=
  if decide (state p = InputsReady) then {| state := DiskReserved; stats := stats p |} else p.

Definition acquire_token : op := fun p =>
  match state p with
  | DiskReserved =>
      (Ok tt, {| state := TokenHeld;
                 stats := {| transfers := transfers (stats p);
                             tokens_acquired := wadd 64 (tokens_acquired (stats p)) 1;
                             token_held_during_transfer := token_held_during_transfer (stats p) |} |})
  | Planned => (Err TokenBeforeInputsReady, p)
  | InputsReady => (Err TokenBeforeDiskReserved, p)
  | TokenHeld | Executing => (Ok tt, p)
  end.

Definition execute : op := fun p =>
  if decide (state p = TokenHeld) then (Ok tt, {| state := Executing; stats := stats p |})
  else (Err ExecuteWithoutToken, p).

(** ** Histories *)

Inductive call := BulkTransfer | Ready | ReserveDisk | AcquireToken | Execute.

Definition perform (c : call) (p : AcquisitionPipeline) : AcquisitionPipeline :=
  match c with
  | BulkTransfer => snd (bulk_transfer p)
  | Ready => inputs_ready p
  | ReserveDisk => reserve_disk p
  | AcquireToken => snd (acquire_token p)
  | Execute => snd (execute p)
  end.

Definition run (cs : list call) (p : AcquisitionPipeline) : AcquisitionPipeline :=
  fold_left (fun p c => perform c p) cs p.

Definition holds_token (p : AcquisitionPipeline) : bool :=
  match state p with TokenHeld | Executing => true | _ => false end.

(** What the calls so far must look like in each state: the rungs of the ladder were
    taken in order, and no transfer follows the first of them. *)
Definition ladder (cs : list call) (s : AcquisitionState) : Prop :=
  match s with
  | Planned => True
  | InputsReady => exists a b, cs = a ++ Ready :: b /\ BulkTransfer ∉ b
  | DiskReserved => exists a b c, cs = a ++ Ready :: b ++ ReserveDisk :: c
      /\ (BulkTransfer ∉ b) /\ (BulkTransfer ∉ c)
  | TokenHeld | Executing => exists a b c d,
      cs = a ++ Ready :: b ++ ReserveDisk :: c ++ AcquireToken :: d
      /\ (BulkTransfer ∉ b) /\ (BulkTransfer ∉ c)
  end.

Lemma snoc_no_transfer l c :
  BulkTransfer ∉ l -> c <> BulkTransfer -> BulkTransfer ∉ l ++ [c].
Proof. intros Hl Hc [?|?%list_elem_of_singleton]%elem_of_app; [done|congruence]. Qed.

(** A call that neither transfers nor climbs keeps the rung. *)
Lemma ladder_stay cs c s : c <> BulkTransfer -> ladder cs s -> ladder (cs ++ [c]) s.
Proof.
  intros Hc. destruct s; cbn; [done|..].
  - intros (a & b & -> & Hb). exists a, (b ++ [c]). rewrite <- app_assoc.
    auto using snoc_no_transfer.
  - intros (a & b & d & -> & Hb & Hd). exists a, b, (d ++ [c]).
    rewrite <- app_assoc. cbn. rewrite <- app_assoc. auto using snoc_no_transfer.
  - intros (a & b & d & e & -> & Hb & Hd). exists a, b, d, (e ++ [c]).
    rewrite <- !app_assoc. cbn. rewrite <- !app_assoc. cbn. rewrite <- !app_assoc. auto.
  - intros (a & b & d & e & -> & Hb & Hd). exists a, b, d, (e ++ [c]).
    rewrite <- !app_assoc. cbn. rewrite <- !app_assoc. cbn. rewrite <- !app_assoc. auto.
Qed.

(** Behind a token even a (refused) transfer keeps the rung. *)
Lemma ladder_held cs c s :
  s = TokenHeld \/ s = Executing -> ladder cs s ->
  ladder (cs ++ [c]) TokenHeld /\ ladder (cs ++ [c]) Executing.
Proof.
  intros Hs H. assert (ladder cs TokenHeld) as (a & b & d & e & -> & Hb & Hd)
    by (by destruct Hs as [-> | ->]).
  split; exists a, b, d, (e ++ [c]); split; try done;
    rewrite <- !app_assoc; cbn; rewrite <- !app_assoc; cbn; by rewrite <- !app_assoc.
Qed.

Lemma ladder_snoc cs c p : ladder cs (state p) -> ladder (cs ++ [c]) (state (perform c p)).
Proof.
  destruct p as [s st]. cbn [state]. intros H.
  destruct (decide (s = TokenHeld \/ s = Executing)) as [Hs|Hs].
  { destruct (ladder_held cs c s Hs H). destruct Hs as [-> | ->], c; done. }
  destruct s; try (by destruct Hs; auto); clear Hs.
  - destruct c; try done. exists cs, []. split; [done|apply not_elem_of_nil].
  - destruct c; try done; try (by apply (ladder_stay cs _ InputsReady)).
    destruct H as (a & b & -> & Hb). exists a, b, [].
    rewrite <- app_assoc. split_and!; [done|done|apply not_elem_of_nil].
  - destruct c; try done; try (by apply (ladder_stay cs _ DiskReserved)).
    destruct H as (a & b & d & -> & Hb & Hd). exists a, b, d, [].
    rewrite <- app_assoc. cbn. rewrite <- app_assoc. done.
Qed.

Lemma run_snoc cs c p : run (cs ++ [c]) p = perform c (run cs p).
Proof. unfold run. by rewrite fold_left_app. Qed.

Lemma ladder_run cs : ladder cs (state (run cs default_pipeline)).
Proof.
  induction cs as [|c cs IH] using rev_ind; [done|]. rewrite run_snoc. by apply ladder_snoc.
Qed.

(** A compiler token is held only by an attempt that has its inputs and its
    disk.  In any history that ends with a token held, inputs were declared ready,
    then disk was reserved, then the token was acquired, with no bulk transfer
    between the first and the last of these. *)
Theorem token_after_ladder cs :
  holds_token (run cs default_pipeline) = true ->
  exists a b c d, cs = a ++ Ready :: b ++ ReserveDisk :: c ++ AcquireToken :: d
    /\ (BulkTransfer ∉ b) /\ (BulkTransfer ∉ c).
Proof.
  intros Hh. pose proof (ladder_run cs) as H. unfold holds_token in Hh.
  by destruct (state (run cs default_pipeline)).
Qed.

Lemma held_perform c p :
  holds_token p = true ->
  holds_token (perform c p) = true /\ transfers (stats (perform c p)) = transfers (stats p)
  /\ tokens_acquired (stats (perform c p)) = tokens_acquired (stats p).
Proof. destruct p as [[] st]; try done; destruct c; cbn; done. Qed.

(** No bulk transfer happens while a token is held: from then on, whatever is
    called, the token stays, every transfer is refused, the count of transfers
    performed does not move and no second token is counted. *)
Theorem no_transfer_with_token cs p :
  holds_token p = true ->
  let p' := run cs p in
  holds_token p' = true /\ fst (bulk_transfer p') = Err TransferWhileTokenHeld
  /\ transfers (stats p') = transfers (stats p)
  /\ tokens_acquired (stats p') = tokens_acquired (stats p).
Proof.
  revert p. induction cs as [|c cs IH]; intros p Hp; cbn [run fold_left].
  - split_and!; try done. unfold bulk_transfer, holds_token in *. by destruct (state p).
  - destruct (held_perform c p Hp) as (Hh & Ht & Hk).
    destruct (IH (perform c p) Hh) as (? & ? & ? & ?). cbn. unfold run in *.
    split_and!; try done; congruence.
Qed.

Definition token_history : list call := [BulkTransfer; Ready; ReserveDisk; AcquireToken].

Lemma token_after_ladder_witness :
  exists a b c d, token_history = a ++ Ready :: b ++ ReserveDisk :: c ++ AcquireToken :: d
    /\ (BulkTransfer ∉ b) /\ (BulkTransfer ∉ c).
Proof. apply (token_after_ladder token_history). reflexivity. Defined.

Lemma no_transfer_with_token_witness :
  transfers (stats (run [BulkTransfer; Execute] (run token_history default_pipeline))) = 1.
Proof.
  apply (no_transfer_with_token [BulkTransfer; Execute] (run token_history default_pipeline)).
  reflexivity.
Defined.

(** The counter of the forbidden overlap counts refused requests: one request behind
    a token makes it one although no transfer was performed. *)
Example overlap_counter_counts_refusals :
  let p := run (token_history ++ [BulkTransfer]) default_pipeline in
  token_held_during_transfer (stats p) = 1 /\ transfers (stats p) = 1.
Proof. done. Qed.

End Acquisition.
